(* ===== verification/_CoqProject ===== *)
-Q . S2P
Prelude.v
Time.v
StdMap.v
Memory.v
UnrefQueue.v
TaskQueues.v
TaskOrder.v
TaskQueuesRun.v
TaskQueuesInv.v
TaskQueuesSpec.v
TaskQueuesSafety.v
TaskQueuesFifo.v
TaskQueuesPlay.v
TaskQueuesTheorems.v
GpuThreadMerger.v
MessageLoop.v
Pipeline.v
VsyncWaiter.v
Animator.v
Bytes.v
Utf8.v
TextInputModel.v
Float64.v
PointerData.v
PointerConverter.v
PointerDispatcher.v
EncodableValue.v
StandardCodec.v
StandardCodecProofs.v
CommandLine.v
Base32.v
Paths.v
RasterCache.v
RasterCacheProofs.v
WaitableEvent.v
ConcurrentLoop.v
Instrumentation.v
Layers.v
IntGeometry.v
LayersProofs.v
LayersPaint.v
LayersPaintProofs.v
Compositor.v
Rasterizer.v
RasterizerProofs.v
SceneBuilder.v
SceneBuilderProofs.v
EmbedderViews.v
EmbedderViewsProofs.v
ShellThreads.v
ShellHandshakes.v
ShellForkJoin.v
ShellCreate.v
ShellTimings.v
DartIsolate.v
DartIsolateProofs.v
Assets.v
RuntimeController.v
RuntimeControllerProofs.v
PlatformMessages.v
Engine.v
EngineProofs.v
EngineSystem.v
EmbedderTasks.v
EmbedderApi.v
EmbedderApiProofs.v
EmbedderHandles.v
ImageDecoder.v
ImageCodecs.v
ServiceProtocol.v
ServiceLocks.v
ShellService.v
