(* ===== verification/Prelude.v ===== *)
(** * A verification of the platform-independent core of the Flutter engine

    The engine (src/engine-master) runs a Flutter application on four
    threads.  The framework builds layer trees on the UI thread, paced by
    vsync; the frame pipeline hands them to the GPU thread, which rasterizes
    them; the platform thread delivers input and platform messages.  Every
    thread runs a message loop over one process-wide registry of task queues.
    This library models these parts in Rocq, operation by operation, and
    proves what the rest of the engine relies on.  All paths below are
    relative to src/engine-master.

    ** Conventions

    A C++ execution either returns or stops the process: operations return
    [result A], and [m ⇓ a], [m ⇑ f] say that [m] returns [a] or stops with
    fault [f] (failed [FML_CHECK] or [FML_DCHECK], null dereference, [at] out
    of range, an access outside a buffer, memory that cannot be had, undefined
    behaviour).  [FML_DCHECK] depends on the class
    [Build].  Machine integers are [Z] with their wrap-around or overflow
    written out ([wrapU], [wrapS], [checked_s]).  State is passed explicitly;
    where threads interleave, a critical section is one step and a step
    relation or an executable run interleaves them.  Closures are identified
    by numbers.  Calls into code that is not in the repository (Skia, the
    Dart VM, the platform, the clock) are parameters, with what is assumed of
    them in a class or a hypothesis.

    ** Files

    - Prelude: results, build mode, machine integers, tactics, list lemmas.
    - Time: fml/time/time_delta.h and time_point.h.
    - StdMap: [std::map] iteration order.
    - Memory: fml/memory, reference counts and weak pointers; UnrefQueue:
      flow/skia_gpu_object.{h,cc}, the objects released on the IO thread.
    - TaskQueues: fml/delayed_task.cc and fml/message_loop_task_queues.cc, the
      registry; TaskOrder, TaskQueuesRun, TaskQueuesInv, TaskQueuesSpec,
      TaskQueuesSafety and TaskQueuesFifo carry its proofs, TaskQueuesPlay
      runs scripts of calls, TaskQueuesTheorems states the results.
    - GpuThreadMerger: fml/gpu_thread_merger.cc against an interface of the
      registry that the registry then implements.
    - MessageLoop: fml/message_loop_impl.cc, message_loop.cc, task_runner.cc.
    - Pipeline: shell/common/pipeline.h and the POSIX semaphore.
    - VsyncWaiter, Animator: shell/common/vsync_waiter.cc and animator.cc.
    - Float64, PointerData, PointerConverter, PointerDispatcher: pointer
      packets, lib/ui/window/pointer_data*.cc and
      shell/common/pointer_data_dispatcher.cc.
    - Bytes, Utf8: byte buffers and text conversions shared by the codecs.
    - TextInputModel: shell/platform/common/cpp/text_input_model.cc.
    - EncodableValue, StandardCodec, StandardCodecProofs: the standard message
      and method codecs of shell/platform/common/cpp/client_wrapper.
    - CommandLine, Base32, Paths: fml/command_line.{h,cc}, fml/base32.{h,cc},
      fml/paths.cc and fml/platform/posix/paths_posix.cc.
    - RasterCache, RasterCacheProofs: flow/raster_cache.{h,cc}.
    - WaitableEvent: fml/synchronization/waitable_event.cc and
      count_down_latch.cc.
    - ConcurrentLoop: fml/concurrent_message_loop.cc.
    - Instrumentation: flow/instrumentation.{h,cc} and flow/texture.{h,cc}.
    - Layers: the layer classes of flow/layers and what their preroll does
      (bounds, mutators, culling, readback, the raster cache) over an abstract
      geometry; LayersProofs compares it with a walk of the tree.
      LayersPaint: what their painting does to the canvases;
      LayersPaintProofs compares it with a walk without saved states.
      IntGeometry is an executable geometry for examples and witnesses.
    - Compositor, Rasterizer, RasterizerProofs: flow/compositor_context.cc and
      shell/common/rasterizer.cc, which compose the pipeline, the merger, the
      layer tree and the raster cache to a frame.
    - SceneBuilder, SceneBuilderProofs: lib/ui/compositing/scene_builder.cc and
      scene.cc, on a heap of layers shared between frames.
    - EmbedderViews, EmbedderViewsProofs: the platform views of embedders with
      a compositor, shell/platform/embedder/embedder_external_view_embedder.cc
      and embedder_layers.cc.
    - ShellThreads, ShellHandshakes: the programs of shell/common/shell.cc
      that block a thread until others have done their part, on threads whose
      steps interleave freely; ShellForkJoin, ShellCreate: the creation of a
      shell over its threads; ShellTimings: the shell's frame timings and the
      wait for the first frame.
    - DartIsolate, DartIsolateProofs: runtime/dart_isolate.cc, the phases of an
      isolate, its group and its children; Assets: assets/asset_manager.cc,
      shell/common/isolate_configuration.cc and run_configuration.cc.
    - RuntimeController, RuntimeControllerProofs: runtime/runtime_controller.cc
      and lib/ui/window/window.cc against an interface of their client;
      PlatformMessages: the responses that wait in a window.
    - Engine, EngineProofs: shell/common/engine.cc, an instance of that
      interface; EngineSystem: the engine with its animator.
    - EmbedderTasks: shell/platform/embedder/embedder_task_runner.cc and
      embedder_thread_host.cc, the runners that an embedder may supply.
      EmbedderApi, EmbedderApiProofs: the C functions of embedder.cc, with
      embedder_engine.cc, shell/common/platform_view.cc and what shell.cc does
      with a platform view's calls; EmbedderHandles: what those functions hand
      out and take back, that is response handles, Dart objects, backing
      stores and vsync batons.
    - ImageDecoder, ImageCodecs: lib/ui/painting/image_decoder.cc, codec.cc,
      single_frame_codec.cc and multi_frame_codec.cc.
    - ServiceProtocol, ServiceLocks: runtime/service_protocol.cc, its registry
      of handlers and the lock around it; ShellService: the handlers of
      shell.cc, with hot restart.

    ** What the theorems show

    Registry and loops: calls that respect their preconditions never fault and
    keep the merge links, locks and heaps well formed; due tasks run in
    the order of target times and then of their registration over merged
    queues; merging and unmerging is a round trip; the merger refines a lease
    counter from its construction on; a flush runs exactly
    the due tasks; worker pools start every task, lose no wake-up and
    terminate; events and latches release exactly whom they should.
    Frames: the pipeline's semaphores account for every frame, in every
    interleaving of producers at both ends and consumers, with the frames that
    front producers drop; a frame request leads to the frame at the next
    vsync, or is repeated while the pipeline is full; the raster cache
    respects its limit and its threshold and sweeps exactly what was not used.
    Scenes: the calls of the framework build the tree they describe, also with
    retained layers, in the shape that painting relies on.
    Layers: prerolling a tree restores the shared context and reports exactly
    the visible platform views with their mutators; painting leaves every
    canvas as it was and draws what a walk without save and restore draws;
    flattening draws the picture that rendering without raster cache draws.
    Rasterizer: in a release build a frame that can be drawn and is let
    through is drawn, with its calls in the order of the code; a frame that
    needs merged threads is put back and posted again, yields on the GPU
    thread and is drawn on the platform thread.  Embedders:
    render targets are created, presented and released safely in every run,
    if a recorder that was finished gives no second picture, and a frame
    presents root, views and overlays in order; the C functions refine an
    abstract engine with its phases, shutdown included, events and locales
    that are passed in reach Dart code, and what is handed out is settled,
    collected or fired once.
    Input and messages: the pointer stream follows the framework's protocol;
    the codecs, the editing state, command lines and Base32 round-trip;
    decoding follows the format on every message and ends on arbitrary bytes,
    without a read outside of them.
    Shell: while no other thread waits for the caller's, the handshakes for
    surfaces and shutdown complete under every schedule, for exactly the
    assignments of runners to threads under which they can, and do their parts
    in order; the deadlocks with a restart are exhibited; the creation of a
    shell completes with its parts made on their threads and after the parts
    they are given; frame timings are reported once.
    Services: a request reaches the view it names or the handlers that list
    its method, and none that was removed; hot restart runs the last entry
    point with the new assets.
    Memory: however threads use their pointers, the count of an object is the
    number of its pointers, and exactly the thread whose release was the last
    deletes it; objects of the GPU are released on the IO thread, once.
    Images: every decode calls back once, in every interleaving; a still
    image is decoded once for all its callers, also for those that ask from
    within a callback, and the frames of an animation come in turn.
    Runtime: valid calls on isolates never fault and only move their phases
    forward, children load the kernels of their parents; whatever Dart code
    does, the live root isolate was told the window state the platform has
    set, as far as the hooks of dart:ui take it, platform messages are answered at most once and by the answer meant
    for them, runs report their outcome, a restart runs on a fresh isolate
    with the state of the old one, and the animator is paused exactly while
    the application is inactive or without a surface.  A theorem that is not a
    claim of the manifest but exhibits a defect of the code is named in its
    findings.

    ** Fuel

    Loops that are not structural take fuel.  [run_now_loop] and [pop_back_to]
    get the number of queued items, [ReadValue] and [from_bytes] the number of
    bytes, [encode_loop] of Base32 twice the input, [read_layer] the number of
    layers on the heap, [parse_pieces] the bytes of a kernel list; the
    theorems about these operations show that the fuel is never exhausted.
    [sanitize_loop] of Paths gets the length of the string, whose index each
    round advances; [hex_digits] gets 16, the digits of a 64-bit number.

    ** Not modelled

    Skia, the GPU surfaces and Vulkan, the Dart VM with its snapshots and
    service isolate, most bindings of dart:ui, the platform shells (Java,
    Objective-C, GLFW, Windows, Fuchsia) and text layout (third_party/txt):
    these translate between the engine and libraries that are not in the
    repository.  Of the modelled files, the Fuchsia variants of the layers, the
    drawing of the performance graphs, the reading of the project arguments in
    [FlutterEngineInitialize] and the wrapping of an embedder's graphics
    objects are left out; of the shell, its command line switches and the
    persistent cache of shaders. *)

(** ** Prelude

    What every component file uses: the [result] type of C++ executions that
    may stop on a fault, the build mode that decides whether [FML_DCHECK] is
    compiled in, machine-width integers, and the generic lemmas on lists and
    options that several components share. *)

From Stdlib Require Import ZArith Lia.
From stdpp Require Import base sorting gmap numbers list.

#[export] Set Default Proof Using "Type".

(** ** Faults and results

    An operation of the engine either returns or stops the process.  A fault
    records how it stops: [std::map::at] on a missing key, a null
    dereference, a failed [FML_CHECK], a failed [FML_DCHECK] (debug builds
    only), behaviour the C++ standard leaves undefined, a call of an empty
    [std::function], a [std::range_error] of a text conversion, or a
    [std::invalid_argument] of a number that is none.  [OutOfFuel] is
    not a C++ behaviour: it is what a bounded loop of the model returns when
    its bound is too small, and the components prove that it never is. *)

Inductive fault :=
  | OutOfRange
  | NullDeref
  | CheckFailed
  | DCheckFailed
  | UndefinedBehaviour
  | BadFunctionCall
  | RangeError
  | InvalidArgument
  | OutOfBounds
  | BadAlloc
  | OutOfFuel.

Inductive result (A : Type) :=
  | Ok (a : A)
  | Fault (f : fault).
Arguments Ok {A} a.
Arguments Fault {A} f.

#[export] Instance fault_eq_dec : EqDecision fault.
Proof. solve_decision. Defined.
#[export] Instance result_ret : MRet result := λ A x, Ok x.
#[export] Instance result_bind : MBind result :=
  λ A B f m, match m with Ok a => f a | Fault e => Fault e end.
#[export] Instance result_fmap : FMap result :=
  λ A B f m, match m with Ok a => Ok (f a) | Fault e => Fault e end.

Definition of_option {A} (f : fault) (o : option A) : result A :=
  match o with Some a => Ok a | None => Fault f end.

(** ** Build mode

    [FML_DCHECK(c)] is [FML_CHECK(c)] in debug builds and is compiled out
    otherwise; [debug] says which build is modelled. *)

Class Build := { debug : bool }.

Definition fml_check (b : bool) : result unit :=
  if b then Ok tt else Fault CheckFailed.

Definition fml_dcheck `{Build} (b : bool) : result unit :=
  if debug then (if b then Ok tt else Fault DCheckFailed) else Ok tt.

(** ** Machine integers *)

Definition wrapU (w z : Z) : Z := (z `mod` 2 ^ w)%Z.
Definition wrapS (w z : Z) : Z :=
  ((z + 2 ^ (w - 1)) `mod` 2 ^ w - 2 ^ (w - 1))%Z.

Definition in_u (w z : Z) : bool := (0 <=? z)%Z && (z <? 2 ^ w)%Z.
Definition in_s (w z : Z) : bool :=
  (- 2 ^ (w - 1) <=? z)%Z && (z <? 2 ^ (w - 1))%Z.

(** Signed arithmetic on [int64_t]: leaving the range is undefined. *)
Definition checked_s (w z : Z) : result Z :=
  if in_s w z then Ok z else Fault UndefinedBehaviour.

Definition int64_min : Z := (- 2 ^ 63)%Z.
Definition int64_max : Z := (2 ^ 63 - 1)%Z.
Definition size_max : Z := (2 ^ 64 - 1)%Z.

Declare Scope engine_scope.
Delimit Scope engine_scope with engine.
Notation "m '⇓' a" := (m = Ok a) (at level 70, no associativity) : engine_scope.
Notation "m '⇑' f" := (m = Fault f) (at level 70, no associativity) : engine_scope.
Open Scope engine_scope.

Create HintDb engine.

Lemma Ok_inj {A} (a b : A) : Ok a = Ok b → a = b.
Proof. by intros [= ->]. Qed.

Lemma bind_Ok {A B} (m : result A) (f : A → result B) b :
  (m ≫= f) ⇓ b ↔ ∃ a, m ⇓ a ∧ f a ⇓ b.
Proof. destruct m; cbn; naive_solver. Qed.

Lemma bind_Fault {A B} (m : result A) (f : A → result B) e :
  (m ≫= f) ⇑ e ↔ m ⇑ e ∨ ∃ a, m ⇓ a ∧ f a ⇑ e.
Proof. destruct m; cbn; naive_solver. Qed.

Lemma of_option_Ok {A} e (o : option A) a : of_option e o ⇓ a ↔ o = Some a.
Proof. destruct o; cbn; naive_solver. Qed.

Lemma fml_dcheck_true `{Build} : fml_dcheck true ⇓ tt.
Proof. unfold fml_dcheck. by destruct debug. Qed.

Lemma fml_dcheck_Ok `{Build} b u : fml_dcheck b ⇓ u → debug = true → b = true.
Proof. unfold fml_dcheck. intros ? Hd. rewrite Hd in *. by destruct b. Qed.

Lemma checked_s_Ok w z x : checked_s w z ⇓ x ↔ in_s w z = true ∧ x = z.
Proof. unfold checked_s. destruct in_s; naive_solver. Qed.

Lemma checked_s_in w z : in_s w z = true → checked_s w z ⇓ z.
Proof. unfold checked_s. by intros ->. Qed.

Lemma in_s_spec w z : in_s w z = true ↔ (- 2 ^ (w - 1) ≤ z < 2 ^ (w - 1))%Z.
Proof. unfold in_s. lia. Qed.

Lemma in_u_spec w z : in_u w z = true ↔ (0 ≤ z < 2 ^ w)%Z.
Proof. unfold in_u. lia. Qed.

Lemma wrapU_id w z : (0 ≤ z < 2 ^ w)%Z → wrapU w z = z.
Proof. apply Z.mod_small. Qed.

Lemma wrapU_range w z : (0 ≤ w)%Z → (0 ≤ wrapU w z < 2 ^ w)%Z.
Proof. intros. apply Z.mod_pos_bound. by apply Z.pow_pos_nonneg. Qed.

Lemma wrapS_id w z : (- 2 ^ (w - 1) ≤ z < 2 ^ (w - 1))%Z → (1 ≤ w)%Z → wrapS w z = z.
Proof.
  intros Hz Hw. unfold wrapS. rewrite Z.mod_small; [lia|].
  assert (2 ^ w = 2 * 2 ^ (w - 1))%Z as ->; [|lia].
  rewrite <- Z.pow_succ_r by lia. f_equal. lia.
Qed.

Lemma wrapS_add_l w x y : wrapS w (wrapS w x + y) = wrapS w (x + y).
Proof.
  unfold wrapS. f_equal.
  replace ((x + 2 ^ (w - 1)) mod 2 ^ w - 2 ^ (w - 1) + y + 2 ^ (w - 1))%Z with ((x + 2 ^ (w - 1)) mod 2 ^ w + y)%Z by lia.
  rewrite Zplus_mod_idemp_l. f_equal. lia.
Qed.

Lemma wrapS_range w z : (1 ≤ w)%Z → (- 2 ^ (w - 1) ≤ wrapS w z < 2 ^ (w - 1))%Z.
Proof.
  intros Hw. unfold wrapS. pose proof (Z.mod_pos_bound (z + 2 ^ (w - 1)) (2 ^ w)) as Hm.
  assert (2 ^ w = 2 * 2 ^ (w - 1))%Z as Heq; [rewrite <- Z.pow_succ_r by lia; f_equal; lia|].
  specialize (Hm ltac:(apply Z.pow_pos_nonneg; lia)). lia.
Qed.

#[export] Hint Resolve fml_dcheck_true : engine.
Create Rewrite HintDb engine.
#[export] Hint Rewrite @bind_Ok @of_option_Ok @checked_s_Ok in_s_spec : engine.

(** ** Tactics *)

(** [run_ok] consumes a hypothesis [m ⇓ a] about a chain of binds, naming the
    intermediate values by [destruct]; [step_ok] rewrites the head of a bind
    in the goal with an equation. *)
Ltac run_ok H :=
  repeat (let a := fresh "a" in let Ha := fresh "H" in
          apply bind_Ok in H as (a & Ha & H)).

Ltac step_ok :=
  match goal with
  | H : ?m = Ok _ |- context [mbind _ ?m] => rewrite H; cbn [mbind result_bind]
  end.

Ltac case_bools :=
  repeat match goal with
  | |- context [if ?b then _ else _] => destruct b eqn:?
  | H : context [if ?b then _ else _] |- _ => destruct b eqn:?
  end.

(** ** Lists *)

Lemma filter_all {A} (P : A → Prop) `{!∀ x, Decision (P x)} (l : list A) :
  Forall P l → filter P l = l.
Proof. induction 1; [done|]. rewrite filter_cons_True by done. by f_equal. Qed.

Lemma filter_none {A} (P : A → Prop) `{!∀ x, Decision (P x)} (l : list A) :
  Forall (λ x, ¬ P x) l → filter P l = [].
Proof. induction 1; [done|]. by rewrite filter_cons_False. Qed.

Lemma Forall_filter_sub {A} (P Q : A → Prop) `{!∀ x, Decision (P x)} (l : list A) :
  Forall Q l → Forall Q (filter P l).
Proof. induction 1; [constructor|]. rewrite filter_cons. case_decide; auto. Qed.

Lemma suffix_elem_of {A} (l1 l2 : list A) : l1 `suffix_of` l2 → l1 ⊆ l2.
Proof. intros [k ->] x Hx. apply elem_of_app. by right. Qed.

Lemma sum_list_with_app {A} (f : A → nat) l1 l2 :
  sum_list_with f (l1 ++ l2) = sum_list_with f l1 + sum_list_with f l2.
Proof. induction l1; cbn; lia. Qed.
