(* ===== verification/Time.v ===== *)
(** * Time: fml/time/time_delta.h and fml/time/time_point.h

    [TimeDelta] and [TimePoint] hold one [int64_t] number of nanoseconds.
    Both are modelled by that number in [Z]; every arithmetic operation that
    C++ performs on [int64_t] goes through [checked_s 64], so leaving the
    range is the fault [UndefinedBehaviour] and not a silent wrap-around.
    The conversions through [double] ([FromSecondsF], [To...F]) are left
    out. *)

From Stdlib Require Import ZArith Lia.
From stdpp Require Import base numbers.
From S2P Require Import Prelude.

Local Open Scope Z_scope.

Module TimeDelta.

Definition t := Z.

Definition Zero : t := 0.
Definition Min : t := int64_min.
Definition Max : t := int64_max.

Definition FromNanoseconds (nanos : Z) : t := nanos.
Definition FromMicroseconds (micros : Z) : result t :=
  n ← checked_s 64 (micros * 1000); mret (FromNanoseconds n).
Definition FromMilliseconds (millis : Z) : result t :=
  u ← checked_s 64 (millis * 1000); FromMicroseconds u.
Definition FromSeconds (seconds : Z) : result t :=
  m ← checked_s 64 (seconds * 1000); FromMilliseconds m.

(** C++ integer division truncates towards zero. *)
Definition ToNanoseconds (d : t) : Z := d.
Definition ToMicroseconds (d : t) : Z := Z.quot (ToNanoseconds d) 1000.
Definition ToMilliseconds (d : t) : Z := Z.quot (ToMicroseconds d) 1000.
Definition ToSeconds (d : t) : Z := Z.quot (ToMilliseconds d) 1000.

Definition sub (a b : t) : result t := checked_s 64 (a - b).
Definition add (a b : t) : result t := checked_s 64 (a + b).
Definition mul (a : t) (multiplier : Z) : result t := checked_s 64 (a * multiplier).
(** Division and remainder by zero, and [INT64_MIN / -1], are undefined. *)
Definition div (a : t) (divisor : Z) : result t :=
  if divisor =? 0 then Fault UndefinedBehaviour else checked_s 64 (Z.quot a divisor).
Definition div_delta (a b : t) : result Z :=
  if b =? 0 then Fault UndefinedBehaviour else checked_s 64 (Z.quot a b).
Definition rem (a b : t) : result t :=
  if b =? 0 then Fault UndefinedBehaviour
  else _ ← checked_s 64 (Z.quot a b); mret (Z.rem a b).

Record timespec := Timespec { tv_sec : Z; tv_nsec : Z }.

Definition FromTimespec (ts : timespec) : result t :=
  s ← FromSeconds (tv_sec ts); add s (FromNanoseconds (tv_nsec ts)).
Definition kNanosecondsPerSecond : Z := 1000000000.
Definition ToTimespec (d : t) : timespec :=
  Timespec (ToSeconds d) (Z.rem d kNanosecondsPerSecond).

End TimeDelta.

Module TimePoint.

Definition t := Z.

Definition Min : t := int64_min.
Definition Max : t := int64_max.
Definition FromEpochDelta (ticks : TimeDelta.t) : t := TimeDelta.ToNanoseconds ticks.
Definition ToEpochDelta (p : t) : TimeDelta.t := TimeDelta.FromNanoseconds p.
Definition diff (a b : t) : result TimeDelta.t := checked_s 64 (a - b).
Definition plus (a : t) (d : TimeDelta.t) : result t := checked_s 64 (a + TimeDelta.ToNanoseconds d).
Definition minus (a : t) (d : TimeDelta.t) : result t := checked_s 64 (a - TimeDelta.ToNanoseconds d).

End TimePoint.

(** ** Conversions *)

Section conversions.
Import TimeDelta.

Lemma ToSeconds_quot d : ToSeconds d = Z.quot d kNanosecondsPerSecond.
Proof.
  unfold ToSeconds, ToMilliseconds, ToMicroseconds, ToNanoseconds.
  by rewrite !Z.quot_quot.
Qed.

Lemma checked_64 z : (- 2 ^ 63 ≤ z < 2 ^ 63) → checked_s 64 z ⇓ z.
Proof. intros. apply checked_s_in, in_s_spec. lia. Qed.

Lemma FromSeconds_Ok s :
  - 2 ^ 63 ≤ s * kNanosecondsPerSecond < 2 ^ 63 →
  FromSeconds s ⇓ s * kNanosecondsPerSecond.
Proof.
  unfold kNanosecondsPerSecond. intros Hs.
  unfold FromSeconds, FromMilliseconds, FromMicroseconds, FromNanoseconds.
  rewrite checked_64 by lia; cbn. rewrite checked_64 by lia; cbn.
  rewrite checked_64 by lia; cbn. f_equal; lia.
Qed.

Lemma FromMilliseconds_Ok m :
  - 2 ^ 63 ≤ m * 1000000 < 2 ^ 63 → FromMilliseconds m ⇓ m * 1000000.
Proof.
  intros Hm. unfold FromMilliseconds, FromMicroseconds, FromNanoseconds.
  rewrite checked_64 by lia; cbn. rewrite checked_64 by lia; cbn. f_equal; lia.
Qed.

Lemma quot_part_bound a b : 0 < b → Z.abs (b * Z.quot a b) ≤ Z.abs a.
Proof.
  intros Hb. rewrite Z.abs_mul, <- Z.quot_abs, (Z.abs_eq b) by lia.
  apply Z.mul_quot_le; lia.
Qed.

(** Every [int64_t] delta survives the trip through [timespec]: no step of
    the conversion overflows, and the parts add up to the value. *)
Theorem timespec_roundtrip d :
  in_s 64 d = true → FromTimespec (ToTimespec d) ⇓ d.
Proof.
  rewrite in_s_spec. intros Hd. unfold FromTimespec, ToTimespec; cbn [tv_sec tv_nsec].
  rewrite ToSeconds_quot.
  pose proof (Z.quot_rem' d kNanosecondsPerSecond).
  pose proof (quot_part_bound d kNanosecondsPerSecond).
  rewrite FromSeconds_Ok by (unfold kNanosecondsPerSecond in *; lia). cbn.
  unfold add, FromNanoseconds. rewrite checked_64; [f_equal; lia|lia].
Qed.

(** Milliseconds convert back exactly, and the conversion is defined exactly
    on the values whose nanosecond count fits [int64_t]. *)
Theorem milliseconds_roundtrip m d :
  FromMilliseconds m ⇓ d →
  d = m * 1000000 ∧ in_s 64 d = true ∧ ToMilliseconds d = m.
Proof.
  unfold FromMilliseconds, FromMicroseconds, FromNanoseconds.
  intros (u & [_ ->]%checked_s_Ok & H)%bind_Ok.
  apply bind_Ok in H as (n & [Hr ->]%checked_s_Ok & H). apply Ok_inj in H as <-.
  split_and!; [lia|done|].
  unfold ToMilliseconds, ToMicroseconds, ToNanoseconds.
  by rewrite !Z.quot_mul.
Qed.

End conversions.
