(* ===== verification/StdMap.v ===== *)
(** * StdMap: std::map as an ordered association list

    The engine iterates over [std::map]s, so their order is observable.  A
    map is a list of bindings in ascending key order for the comparator
    [ltb]; two keys are the same key when neither is below the other, as in
    C++.  Used for the task observers of a queue and for [EncodableMap]. *)

From stdpp Require Import base sorting gmap numbers list.
From S2P Require Import Prelude.

Module StdMap.
Section std_map.
Context {K V : Type} (ltb : K → K → bool).
Implicit Types (m : list (K * V)) (k : K) (v : V).

(** [m.find(k)] *)
Fixpoint find k m : option V :=
  match m with
  | [] => None
  | (k', v) :: m' =>
      if ltb k' k then find k m' else if ltb k k' then None else Some v
  end.

(** [m[k] = v] *)
Fixpoint assign k v m : list (K * V) :=
  match m with
  | [] => [(k, v)]
  | (k', v') :: m' =>
      if ltb k' k then (k', v') :: assign k v m'
      else if ltb k k' then (k, v) :: (k', v') :: m' else (k', v) :: m'
  end.

(** [m.emplace(k, v)]: keeps the binding a key already has. *)
Fixpoint emplace k v m : list (K * V) :=
  match m with
  | [] => [(k, v)]
  | (k', v') :: m' =>
      if ltb k' k then (k', v') :: emplace k v m'
      else if ltb k k' then (k, v) :: (k', v') :: m' else (k', v') :: m'
  end.

(** [m.erase(k)] *)
Fixpoint erase k m : list (K * V) :=
  match m with
  | [] => []
  | (k', v') :: m' =>
      if ltb k' k then (k', v') :: erase k m'
      else if ltb k k' then (k', v') :: m' else m'
  end.

(** The bindings are in strictly ascending order. *)
Fixpoint ordered m : Prop :=
  match m with
  | [] => True
  | (k, _) :: m' => Forall (λ b, ltb k b.1 = true) m' ∧ ordered m'
  end.

(** A key above every key of an ordered map is appended at its end. *)
Lemma emplace_snoc k v m :
  Forall (λ b, ltb b.1 k = true) m → emplace k v m = m ++ [(k, v)].
Proof.
  induction m as [|[k' v'] m IH]; [done|]. intros [Hk Hm]%Forall_cons. cbn in *.
  rewrite Hk. by rewrite IH.
Qed.

Lemma ordered_app m1 m2 :
  ordered (m1 ++ m2) ↔
  ordered m1 ∧ ordered m2 ∧ Forall (λ b1, Forall (λ b2, ltb b1.1 b2.1 = true) m2) m1.
Proof.
  induction m1 as [|[k v] m1 IH]; cbn; [naive_solver|].
  rewrite Forall_app, Forall_cons, IH. naive_solver.
Qed.

End std_map.
End StdMap.
