(* ===== verification/Memory.v ===== *)
(** * Memory: reference counts and weak pointers

    Models of [RefCountedThreadSafe] and [RefPtr] (fml/memory/ref_counted.h,
    ref_counted_internal.h, ref_ptr.h) and of [WeakPtr] and [WeakPtrFactory]
    (fml/memory/weak_ptr.h, weak_ptr_internal.cc).  The pointers of all threads
    are variables of one store, and what the threads do to them are operations
    that interleave: an increment or a decrement of the atomic counter is one
    operation, the deletion after the last decrement another one.  An access
    to an object that was deleted is undefined behaviour. *)

From Stdlib Require Import ZArith Lia.
From stdpp Require Import base numbers list gmap fin_maps sets relations.
From S2P Require Import Prelude.

Local Open Scope Z_scope.

(** ** Reference counts *)

(** The flags that only debug builds have are kept in all builds; only
    assertions read them. *)
Record RefCounted := mkRefCounted {
  ref_count_ : Z;
  adoption_required_ : bool;
  destruction_started_ : bool;
}.

Definition new_ref_counted : RefCounted := mkRefCounted 1 true false.

(** The objects by their addresses, the variables that are [RefPtr]s, and the
    objects that were deleted. *)
Record Memory := mkMemory {
  objects : gmap nat RefCounted;
  next_object : nat;
  pointers : gmap nat (option nat);
  destroyed : list nat;
}.

Definition set_object (p : nat) (o : RefCounted) (m : Memory) : Memory :=
  mkMemory (<[p := o]> (objects m)) (next_object m) (pointers m) (destroyed m).
Definition set_pointer (v : nat) (q : option nat) (m : Memory) : Memory :=
  mkMemory (objects m) (next_object m) (<[v := q]> (pointers m)) (destroyed m).
Definition drop_pointer (v : nat) (m : Memory) : Memory :=
  mkMemory (objects m) (next_object m) (delete v (pointers m)) (destroyed m).

Section memory.
Context `{Build}.
(** The bits of [uint_fast32_t]. *)
Context (w : Z).

Definition access (p : nat) (m : Memory) : result RefCounted := of_option UndefinedBehaviour (objects m !! p).

Definition check_usable (o : RefCounted) : result unit :=
  _ ← fml_dcheck (negb (adoption_required_ o)); fml_dcheck (negb (destruction_started_ o)).

Definition AddRef (p : nat) (m : Memory) : result Memory :=
  o ← access p m; _ ← check_usable o;
  mret (set_object p (mkRefCounted (wrapU w (ref_count_ o + 1)) (adoption_required_ o) (destruction_started_ o)) m).

Definition HasOneRef (p : nat) (m : Memory) : result bool := o ← access p m; mret (ref_count_ o =? 1).

(** [RefCountedThreadSafeBase::Release]: whether the object is to be deleted. *)
Definition Base_Release (p : nat) (m : Memory) : result (bool * Memory) :=
  o ← access p m; _ ← check_usable o;
  _ ← fml_dcheck (negb (ref_count_ o =? 0));
  let last := ref_count_ o =? 1 in
  mret (last, set_object p (mkRefCounted (wrapU w (ref_count_ o - 1)) (adoption_required_ o) (last || destruction_started_ o)) m).

Definition Adopt (p : nat) (m : Memory) : result Memory :=
  o ← access p m; _ ← fml_dcheck (adoption_required_ o);
  mret (set_object p (mkRefCounted (ref_count_ o) false (destruction_started_ o)) m).

(** [delete] with the destructor's assertions. *)
Definition delete_object (p : nat) (m : Memory) : result Memory :=
  o ← access p m;
  _ ← fml_dcheck (negb (adoption_required_ o)); _ ← fml_dcheck (destruction_started_ o);
  mret (mkMemory (delete p (objects m)) (next_object m) (pointers m) (destroyed m ++ [p])).

Definition RefCounted_Release (p : nat) (m : Memory) : result Memory :=
  '(last, m) ← Base_Release p m; if (last : bool) then delete_object p m else mret m.

(** ** RefPtr *)

Definition maybe (f : nat → Memory → result Memory) (q : option nat) (m : Memory) : result Memory :=
  match q with Some p => f p m | None => mret m end.

(** The constructors of variable [v]. *)
Definition RefPtr_null (v : nat) (m : Memory) : result Memory := mret (set_pointer v None m).
Definition RefPtr_raw (v : nat) (q : option nat) (m : Memory) : result Memory := maybe AddRef q (set_pointer v q m).
Definition RefPtr_copy (v r : nat) (m : Memory) : result Memory :=
  q ← of_option UndefinedBehaviour (pointers m !! r); maybe AddRef q (set_pointer v q m).
Definition RefPtr_move (v r : nat) (m : Memory) : result Memory :=
  q ← of_option UndefinedBehaviour (pointers m !! r); mret (set_pointer r None (set_pointer v q m)).

Definition RefPtr_destroy (v : nat) (m : Memory) : result Memory :=
  q ← of_option UndefinedBehaviour (pointers m !! v); maybe RefCounted_Release q (drop_pointer v m).

Definition RefPtr_assign (v r : nat) (m : Memory) : result Memory :=
  q ← of_option UndefinedBehaviour (pointers m !! r);
  m ← maybe AddRef q m;
  old_ptr ← of_option UndefinedBehaviour (pointers m !! v);
  maybe RefCounted_Release old_ptr (set_pointer v q m).

Definition RefPtr_swap (v r : nat) (m : Memory) : result Memory :=
  p ← of_option UndefinedBehaviour (pointers m !! v); q ← of_option UndefinedBehaviour (pointers m !! r);
  mret (set_pointer r p (set_pointer v q m)).

(** Move assignment, with the temporary [tmp]. *)
Definition RefPtr_move_assign (tmp v r : nat) (m : Memory) : result Memory :=
  m ← RefPtr_move tmp r m; m ← RefPtr_swap tmp v m; RefPtr_destroy tmp m.

(** [MakeRefCounted] into [v]. *)
Definition MakeRefCounted (v : nat) (m : Memory) : result Memory :=
  let p := next_object m in
  m ← Adopt p (mkMemory (<[p := new_ref_counted]> (objects m)) (S p) (pointers m) (destroyed m));
  mret (set_pointer v (Some p) m).

(** ** Operations of threads *)

(** The memory, and the objects that a thread is about to delete because
    [RefCountedThreadSafeBase::Release] told it so. *)
Record Threads := mkThreads {
  memory : Memory;
  deleting : list nat;
}.

(** What a thread does in one step.  [DecrementOp] is the first half of the
    destructor of a pointer: the call of [RefCountedThreadSafeBase::Release];
    [DeleteOp] is the other half, for a thread whose call answered true. *)
Inductive MemOp :=
  | MakeOp (v : nat)
  | NullOp (v : nat)
  | RawOp (v : nat) (p : nat)
  | CopyOp (v r : nat)
  | MoveOp (v r : nat)
  | SwapOp (v r : nat)
  | DecrementOp (v : nat)
  | DeleteOp (p : nat).

Definition mem_op (op : MemOp) (s : Threads) : result Threads :=
  let m := memory s in
  match op with
  | MakeOp v => m ← MakeRefCounted v m; mret (mkThreads m (deleting s))
  | NullOp v => m ← RefPtr_null v m; mret (mkThreads m (deleting s))
  | RawOp v p => m ← RefPtr_raw v (Some p) m; mret (mkThreads m (deleting s))
  | CopyOp v r => m ← RefPtr_copy v r m; mret (mkThreads m (deleting s))
  | MoveOp v r => m ← RefPtr_move v r m; mret (mkThreads m (deleting s))
  | SwapOp v r => m ← RefPtr_swap v r m; mret (mkThreads m (deleting s))
  | DecrementOp v =>
      q ← of_option UndefinedBehaviour (pointers m !! v);
      match q with
      | None => mret (mkThreads (drop_pointer v m) (deleting s))
      | Some p =>
          '(last, m) ← Base_Release p (drop_pointer v m);
          mret (mkThreads m (if (last : bool) then deleting s ++ [p] else deleting s))
      end
  | DeleteOp p => m ← delete_object p m; mret (mkThreads m (filter (λ p', p' ≠ p) (deleting s)))
  end.

Definition is_var (v : nat) (m : Memory) : bool := bool_decide (is_Some (pointers m !! v)).

(** New variables are new, used ones exist; a raw pointer is to an object that
    some [RefPtr] keeps alive; an object is deleted by a thread that was told
    to. *)
Definition allowed (op : MemOp) (s : Threads) : bool :=
  let m := memory s in
  match op with
  | MakeOp v | NullOp v => negb (is_var v m)
  | RawOp v p => negb (is_var v m) && bool_decide (map_Exists (λ _ q, q = Some p) (pointers m))
  | CopyOp v r | MoveOp v r => negb (is_var v m) && is_var r m
  | SwapOp v r => is_var v m && is_var r m
  | DecrementOp v => is_var v m
  | DeleteOp p => bool_decide (p ∈ deleting s)
  end.

Definition no_memory : Threads := mkThreads (mkMemory ∅ 0 ∅ []) [].

Inductive mem_run : Threads → Prop :=
  | run_start : mem_run no_memory
  | run_op op s s' : mem_run s → allowed op s = true → Z.of_nat (size (pointers (memory s))) < 2 ^ w - 1 →
      mem_op op s ⇓ s' → mem_run s'.
End memory.

(** ** Holders *)

(** How many of the pointers are to [p]. *)
Definition holders (p : nat) (P : gmap nat (option nat)) : Z := Z.of_nat (size (filter (λ x : nat * option nat, x.2 = Some p) P)).
Definition is_to (p : nat) (q : option nat) : Z := if decide (q = Some p) then 1 else 0.

Lemma holders_empty p : holders p ∅ = 0.
Proof. unfold holders. by rewrite map_filter_empty, map_size_empty. Qed.

Lemma holders_new p v q P : P !! v = None → holders p (<[v := q]> P) = holders p P + is_to p q.
Proof.
  intros Hv. unfold holders, is_to. destruct (decide (q = Some p)) as [Hq|Hq].
  - rewrite map_filter_insert_True by done. rewrite map_size_insert_None; [lia|]. apply map_lookup_filter_None. by left.
  - rewrite map_filter_insert_False by done. rewrite delete_id by done. lia.
Qed.

Lemma holders_set p v q q' P : P !! v = Some q → holders p (<[v := q']> P) = holders p P - is_to p q + is_to p q'.
Proof.
  intros Hv. rewrite <- (insert_id P v q Hv) at 2. rewrite <- !(insert_delete_eq P v).
  rewrite !holders_new by apply lookup_delete_eq. lia.
Qed.

Lemma holders_drop p v q P : P !! v = Some q → holders p (delete v P) = holders p P - is_to p q.
Proof.
  intros Hv. rewrite <- (insert_id P v q Hv) at 2. rewrite <- (insert_delete_eq P v).
  rewrite holders_new by apply lookup_delete_eq. lia.
Qed.

Lemma holders_bounds p P : 0 ≤ holders p P ≤ Z.of_nat (size P).
Proof.
  unfold holders. split; [lia|]. apply inj_le, map_subseteq_size, map_filter_subseteq.
Qed.

Lemma holders_pos p v P : P !! v = Some (Some p) → 1 ≤ holders p P.
Proof.
  intros Hv. rewrite <- (insert_id P v _ Hv), <- insert_delete_eq, holders_new by apply lookup_delete_eq.
  unfold is_to. rewrite decide_True by done. pose proof (holders_bounds p (delete v P)). lia.
Qed.

Lemma is_to_other p p' : p ≠ p' → is_to p (Some p') = 0.
Proof. intros Hne. unfold is_to. rewrite decide_False by congruence. done. Qed.
Lemma is_to_same p : is_to p (Some p) = 1.
Proof. unfold is_to. by rewrite decide_True. Qed.
Lemma is_to_null p : is_to p None = 0.
Proof. done. Qed.

(** ** The invariant *)

Record object_inv (p : nat) (P : gmap nat (option nat)) (o : RefCounted) : Prop := {
  object_adopted : adoption_required_ o = false;
  object_count : ref_count_ o = holders p P;
  object_dying : destruction_started_ o = (ref_count_ o =? 0);
}.

Record mem_inv (m : Memory) : Prop := {
  inv_objects p o : objects m !! p = Some o → object_inv p (pointers m) o;
  inv_pointers v p : pointers m !! v = Some (Some p) → is_Some (objects m !! p);
  inv_destroyed : NoDup (destroyed m);
  inv_lives p : (p < next_object m)%nat ↔ is_Some (objects m !! p) ∨ p ∈ destroyed m;
  inv_apart p : p ∈ destroyed m → objects m !! p = None;
}.

Section proofs.
Context `{Build} (w : Z) (Hw : 32 ≤ w).
#[local] Set Default Proof Using "Type*".

(** A live object with a holder can be used. *)
Lemma held_usable v p m :
  mem_inv m → pointers m !! v = Some (Some p) →
  ∃ o, objects m !! p = Some o ∧ check_usable o ⇓ tt ∧ 1 ≤ ref_count_ o ∧ object_inv p (pointers m) o.
Proof.
  intros Hi Hv. destruct (inv_pointers m Hi v p Hv) as [o Ho]. exists o. pose proof (inv_objects m Hi p o Ho) as [Ha Hc Hd].
  pose proof (holders_pos p v _ Hv). split_and!; [done| |lia|by split]. unfold check_usable. rewrite Ha, Hd.
  rewrite (proj2 (Z.eqb_neq _ _)) by lia. cbn. by rewrite !fml_dcheck_true.
Qed.

(** The change of one object together with the pointers. *)
Lemma mem_inv_change m p o P :
  mem_inv m → is_Some (objects m !! p) → object_inv p P o →
  (∀ p', p' ≠ p → holders p' P = holders p' (pointers m)) →
  (∀ v p', P !! v = Some (Some p') → p' = p ∨ ∃ v', pointers m !! v' = Some (Some p')) →
  mem_inv (mkMemory (<[p := o]> (objects m)) (next_object m) P (destroyed m)).
Proof.
  intros [Ho Hp Hd Hl Ha] Hs Hoi Hh HP. split; cbn; try done.
  - intros p' o'. destruct (decide (p = p')) as [->|Hne]; [rewrite lookup_insert_eq; by intros [= <-]|].
    rewrite lookup_insert_ne by done. intros Hp'. destruct (Ho p' o' Hp') as [? ? ?]. split; [done| |done]. by rewrite Hh.
  - intros v p' Hv. destruct (decide (p = p')) as [->|Hne]; [by rewrite lookup_insert_eq|]. rewrite lookup_insert_ne by done.
    destruct (HP v p' Hv) as [?|[v' Hv']]; [congruence|by eapply Hp].
  - intros p'. rewrite Hl. destruct (decide (p = p')) as [->|Hne]; [rewrite lookup_insert_eq; naive_solver|by rewrite lookup_insert_ne].
  - intros p' Hp'. rewrite lookup_insert_ne; [by apply Ha|]. intros ->. rewrite (Ha p' Hp') in Hs. by destruct Hs.
Qed.

(** A change of pointers that keeps the counts. *)
Lemma mem_inv_pointers m P :
  mem_inv m → (∀ p, holders p P = holders p (pointers m)) →
  (∀ v p, P !! v = Some (Some p) → ∃ v', pointers m !! v' = Some (Some p)) →
  mem_inv (mkMemory (objects m) (next_object m) P (destroyed m)).
Proof.
  intros [Ho Hp Hd Hl Ha] Hh HP. split; cbn; try done.
  - intros p o Hpo. destruct (Ho p o Hpo) as [? ? ?]. split; [done| |done]. by rewrite Hh.
  - intros v p Hv. destruct (HP v p Hv) as [v' Hv']. by eapply Hp.
Qed.

(** A new pointer [v] to an object that has one. *)
Lemma add_holder v r p m :
  mem_inv m → pointers m !! v = None → pointers m !! r = Some (Some p) → Z.of_nat (size (pointers m)) < 2 ^ w - 1 →
  ∃ m', AddRef w p (set_pointer v (Some p) m) ⇓ m' ∧ mem_inv m' ∧ pointers m' = <[v := Some p]> (pointers m).
Proof.
  intros Hi Hv Hr Hsize. destruct (held_usable r p m Hi Hr) as (o & Ho & Hu & Hc & [Ha Hcount Hdy]).
  unfold AddRef, access. cbn. rewrite Ho. cbn. rewrite Hu. cbn. eexists. split; [done|]. split; [|done].
  pose proof (holders_bounds p (pointers m)).
  apply (mem_inv_change m p); cbn; [done|by eexists| | |].
  - split; cbn; [done| |].
    + rewrite wrapU_id by lia. rewrite holders_new, is_to_same by done. lia.
    + rewrite wrapU_id by lia. rewrite Hdy, !(proj2 (Z.eqb_neq _ _)) by lia. done.
  - intros p' Hp'. rewrite holders_new by done. rewrite is_to_other by done. lia.
  - intros v' p' Hv'. destruct (decide (v = v')) as [->|Hne]; [rewrite lookup_insert_eq in Hv'; left; congruence|].
    rewrite lookup_insert_ne in Hv' by done. right. by exists v'.
Qed.

Lemma null_inv v m : mem_inv m → pointers m !! v = None → mem_inv (set_pointer v None m).
Proof.
  intros Hi Hv. apply (mem_inv_pointers m); [done| |].
  - intros p. rewrite holders_new, is_to_null by done. lia.
  - intros v' p Hv'. destruct (decide (v = v')) as [->|Hne]; [by rewrite lookup_insert_eq in Hv'|].
    rewrite lookup_insert_ne in Hv' by done. by exists v'.
Qed.

Lemma RefPtr_copy_ok v r m :
  mem_inv m → pointers m !! v = None → is_Some (pointers m !! r) → Z.of_nat (size (pointers m)) < 2 ^ w - 1 →
  ∃ m', RefPtr_copy w v r m ⇓ m' ∧ mem_inv m' ∧ ∃ q, pointers m !! r = Some q ∧ pointers m' = <[v := q]> (pointers m).
Proof.
  intros Hi Hv [q Hr] Hsize. unfold RefPtr_copy. rewrite Hr. cbn. destruct q as [p|]; cbn.
  - destruct (add_holder v r p m) as (m' & Hm & Hi' & Hp); try done. exists m'. split_and!; [done|done|]. by exists (Some p).
  - eexists. split; [done|]. split; [by apply null_inv|]. by exists None.
Qed.

(** Pointers that change places. *)
Lemma RefPtr_swap_ok v r m :
  mem_inv m → is_Some (pointers m !! v) → is_Some (pointers m !! r) →
  ∃ m', RefPtr_swap v r m ⇓ m' ∧ mem_inv m' ∧
    ∃ p q, pointers m !! v = Some p ∧ pointers m !! r = Some q ∧ pointers m' = <[r := p]> (<[v := q]> (pointers m)).
Proof.
  intros Hi [p Hv] [q Hr]. unfold RefPtr_swap. rewrite Hv, Hr. cbn. eexists. split; [done|]. split; [|by exists p, q].
  apply (mem_inv_pointers m); [done| |].
  - intros x. cbn. destruct (decide (v = r)) as [->|Hne].
    + rewrite insert_insert_eq, (holders_set x r q p) by done. simplify_eq. lia.
    + rewrite (holders_set x r q p) by (by rewrite lookup_insert_ne). rewrite (holders_set x v p q) by done. lia.
  - intros v' x. cbn. destruct (decide (r = v')) as [->|Hr']; [rewrite lookup_insert_eq; intros [= ->]; by exists v|].
    rewrite lookup_insert_ne by done. destruct (decide (v = v')) as [->|Hv']; [rewrite lookup_insert_eq; intros [= ->]; by exists r|].
    rewrite lookup_insert_ne by done. by exists v'.
Qed.

Lemma RefPtr_move_ok v r m :
  mem_inv m → pointers m !! v = None → is_Some (pointers m !! r) →
  ∃ m', RefPtr_move v r m ⇓ m' ∧ mem_inv m' ∧
    ∃ q, pointers m !! r = Some q ∧ pointers m' = <[r := None]> (<[v := q]> (pointers m)).
Proof.
  intros Hi Hv [q Hr]. assert (Hne : v ≠ r) by congruence. unfold RefPtr_move. rewrite Hr. cbn. eexists. split; [done|]. split; [|by exists q].
  apply (mem_inv_pointers m); [done| |].
  - intros x. cbn. rewrite (holders_set x r q None) by (by rewrite lookup_insert_ne). rewrite holders_new, is_to_null by done. lia.
  - intros v' x. cbn. destruct (decide (r = v')) as [->|Hr']; [by rewrite lookup_insert_eq|].
    rewrite lookup_insert_ne by done. destruct (decide (v = v')) as [->|Hv']; [rewrite lookup_insert_eq; intros [= ->]; by exists r|].
    rewrite lookup_insert_ne by done. by exists v'.
Qed.

(** The decrement for a pointer that is gone. *)
Lemma decrement_ok v p m :
  mem_inv m → pointers m !! v = Some (Some p) → Z.of_nat (size (pointers m)) < 2 ^ w →
  ∃ m', Base_Release w p (drop_pointer v m) ⇓ (holders p (delete v (pointers m)) =? 0, m') ∧ mem_inv m' ∧
    pointers m' = delete v (pointers m) ∧
    (holders p (delete v (pointers m)) = 0 → ∃ o, objects m' !! p = Some o ∧ ref_count_ o = 0).
Proof.
  intros Hi Hv Hsize. destruct (held_usable v p m Hi Hv) as (o & Ho & Hu & Hc & [Ha Hcount Hdy]).
  pose proof (holders_bounds p (pointers m)). pose proof (holders_drop p v _ _ Hv) as Hdrop. rewrite is_to_same in Hdrop.
  unfold Base_Release, access. cbn. rewrite Ho. cbn. rewrite Hu. cbn. rewrite (proj2 (Z.eqb_neq (ref_count_ o) 0)) by lia. cbn.
  rewrite fml_dcheck_true. cbn. replace (ref_count_ o =? 1) with (holders p (delete v (pointers m)) =? 0)
    by (apply eq_true_iff_eq; rewrite !Z.eqb_eq; lia).
  eexists. split; [done|]. rewrite wrapU_id by lia. split_and!; [|done|].
  - apply (mem_inv_change m p); cbn; [done|by eexists| | |].
    + split; cbn; [done|lia|]. rewrite Hdy, (proj2 (Z.eqb_neq (ref_count_ o) 0)) by lia. rewrite orb_false_r. f_equal. lia.
    + intros p' Hp'. rewrite (holders_drop p' v _ _ Hv), is_to_other by done. lia.
    + intros v' p' Hv'. apply lookup_delete_Some in Hv' as [_ Hv']. right. by exists v'.
  - intros Hz. cbn. rewrite lookup_insert_eq. eexists. split; [done|]. cbn. lia.
Qed.

Lemma drop_null v m : mem_inv m → pointers m !! v = Some None → mem_inv (drop_pointer v m).
Proof.
  intros Hi Hv. apply (mem_inv_pointers m); [done| |].
  - intros p. rewrite (holders_drop p v _ _ Hv), is_to_null. lia.
  - intros v' p Hv'. apply lookup_delete_Some in Hv' as [_ Hv']. by exists v'.
Qed.

(** The deletion of an object that no pointer is to. *)
Lemma delete_ok p o m :
  mem_inv m → objects m !! p = Some o → ref_count_ o = 0 →
  ∃ m', delete_object p m ⇓ m' ∧ mem_inv m' ∧ pointers m' = pointers m ∧ objects m' = delete p (objects m).
Proof.
  intros Hi Ho Hz. pose proof (inv_objects m Hi p o Ho) as [Ha Hcount Hdy].
  unfold delete_object, access. rewrite Ho. cbn. rewrite Ha, Hdy, Hz. cbn. rewrite !fml_dcheck_true. cbn.
  eexists. split; [done|]. split; [|done]. destruct Hi as [Hob Hp Hd Hl Hap].
  assert (Hfree : ∀ v, pointers m !! v ≠ Some (Some p)) by (intros v Hv%holders_pos; lia).
  split; cbn.
  - intros p' o' [_ Ho']%lookup_delete_Some. by apply Hob.
  - intros v p' Hv. destruct (decide (p = p')) as [->|Hne]; [by apply Hfree in Hv|]. rewrite lookup_delete_ne by done. by eapply Hp.
  - apply NoDup_app. split_and!; [done| |apply NoDup_singleton]. intros x Hx%Hap ->%list_elem_of_singleton. congruence.
  - intros p'. rewrite Hl, elem_of_app, list_elem_of_singleton. destruct (decide (p = p')) as [->|Hne].
    + split; [by right; right|]. by left.
    + rewrite lookup_delete_ne by done. naive_solver.
  - intros p' [Hin| ->%list_elem_of_singleton]%elem_of_app; [|apply lookup_delete_eq]. apply lookup_delete_None. right. by apply Hap.
Qed.

Lemma is_var_true v m : is_var v m = true ↔ is_Some (pointers m !! v).
Proof. apply bool_decide_eq_true. Qed.
Lemma is_var_false v m : negb (is_var v m) = true ↔ pointers m !! v = None.
Proof. unfold is_var. rewrite negb_true_iff, bool_decide_eq_false. by rewrite eq_None_not_Some. Qed.

Lemma MakeRefCounted_ok v m :
  mem_inv m → pointers m !! v = None → ∃ m', MakeRefCounted v m ⇓ m' ∧ mem_inv m'.
Proof.
  intros [Ho Hp Hd Hl Ha] Hv. set (p := next_object m).
  assert (Hnone : objects m !! p = None).
  { apply eq_None_not_Some. intros Hs. assert (p < next_object m)%nat by (apply Hl; by left). unfold p in *. lia. }
  assert (Hgone : p ∉ destroyed m).
  { intros Hs. assert (p < next_object m)%nat by (apply Hl; by right). unfold p in *. lia. }
  assert (Hfree : holders p (pointers m) = 0).
  { unfold holders. replace (filter _ _) with (∅ : gmap nat (option nat)); [done|]. symmetry. apply map_empty. intros v'.
    apply map_lookup_filter_None. right. intros q Hq. cbn. intros ->. apply Hp in Hq. rewrite Hnone in Hq. by destruct Hq. }
  unfold MakeRefCounted, Adopt, access. fold p. cbn. rewrite lookup_insert_eq. cbn. rewrite fml_dcheck_true. cbn.
  eexists. split; [done|]. unfold set_object. cbn. rewrite insert_insert_eq. split; cbn.
  - intros p' o'. destruct (decide (p = p')) as [<-|Hne].
    + rewrite lookup_insert_eq. intros [= <-]. split; cbn; [done| |done]. rewrite holders_new, is_to_same, Hfree by done. done.
    + rewrite lookup_insert_ne by done. intros Hp'. destruct (Ho p' o' Hp') as [? Hc ?]. split; [done| |done].
      rewrite holders_new, is_to_other by done. lia.
  - intros v' p'. destruct (decide (v = v')) as [->|Hne]; [rewrite lookup_insert_eq; intros [= <-]; by rewrite lookup_insert_eq|].
    rewrite lookup_insert_ne by done. intros Hq%Hp. destruct (decide (p = p')) as [<-|]; [by rewrite lookup_insert_eq|by rewrite lookup_insert_ne].
  - done.
  - intros p'. destruct (decide (p = p')) as [<-|Hne].
    + rewrite lookup_insert_eq. split; [by left|]. intros _. lia.
    + rewrite lookup_insert_ne by done. rewrite <- Hl. unfold p in *. lia.
  - intros p' Hp'. rewrite lookup_insert_ne; [by apply Ha|]. intros <-. done.
Qed.

(** ** Objects on their way out *)

Definition dying (m : Memory) (p : nat) : Prop := ∃ o, objects m !! p = Some o ∧ ref_count_ o = 0.

(** Those whose count dropped to zero are those that a thread was told to
    delete, one thread each. *)
Record threads_inv (s : Threads) : Prop := {
  inv_memory : mem_inv (memory s);
  inv_deleting p : p ∈ deleting s ↔ dying (memory s) p;
  inv_deleting_once : NoDup (deleting s);
}.

Lemma dying_holders m p : mem_inv m → dying m p ↔ is_Some (objects m !! p) ∧ holders p (pointers m) = 0.
Proof.
  intros Hi. unfold dying. split.
  - intros (o & Ho & Hz). split; [by eexists|]. by rewrite <- (object_count _ _ _ (inv_objects m Hi p o Ho)).
  - intros [[o Ho] Hz]. exists o. split; [done|]. by rewrite (object_count _ _ _ (inv_objects m Hi p o Ho)).
Qed.

(** An operation after which the same objects are held keeps who is dying. *)
Lemma keep_threads s m' :
  threads_inv s → mem_inv m' → dom (objects m') = dom (objects (memory s)) →
  (∀ p, holders p (pointers m') = 0 ↔ holders p (pointers (memory s)) = 0) → threads_inv (mkThreads m' (deleting s)).
Proof.
  intros [Hi Hd Hn] Hi' Hdom Hh. split; cbn; [done| |done]. intros p. rewrite Hd, !dying_holders by done.
  by rewrite <- !elem_of_dom, Hdom, Hh.
Qed.

Lemma AddRef_dom p m m' : AddRef w p m ⇓ m' → dom (objects m') = dom (objects m) ∧ pointers m' = pointers m.
Proof.
  unfold AddRef, access. destruct (objects m !! p) as [o|] eqn:Ho; cbn; [|done]. destruct (check_usable o); cbn; [|done].
  intros [= <-]. cbn. split; [|done]. rewrite dom_insert_L. apply elem_of_dom_2 in Ho. set_solver.
Qed.

Lemma copy_threads s v r m' :
  threads_inv s → pointers (memory s) !! v = None → is_Some (pointers (memory s) !! r) →
  RefPtr_copy w v r (memory s) ⇓ m' → mem_inv m' → threads_inv (mkThreads m' (deleting s)).
Proof.
  intros Hi Hv [q Hr] Hm Hi'. unfold RefPtr_copy in Hm. rewrite Hr in Hm. cbn in Hm.
  assert (Hdp : dom (objects m') = dom (objects (memory s)) ∧ pointers m' = <[v := q]> (pointers (memory s))).
  { destruct q as [p|]; cbn in Hm; [by apply AddRef_dom in Hm|by injection Hm as <-]. }
  destruct Hdp as [Hdom Hp]. apply keep_threads; [done..|]. intros p'. rewrite Hp, holders_new by done.
  pose proof (holders_bounds p' (pointers (memory s))). unfold is_to. destruct (decide (q = Some p')) as [->|]; [|lia].
  pose proof (holders_pos p' r _ Hr). lia.
Qed.

Lemma MakeRefCounted_threads s v m' :
  threads_inv s → pointers (memory s) !! v = None → MakeRefCounted v (memory s) ⇓ m' → mem_inv m' →
  threads_inv (mkThreads m' (deleting s)).
Proof.
  intros [Hi Hd Hn] Hv Hm Hi'. set (p := next_object (memory s)) in *.
  assert (Hnone : objects (memory s) !! p = None).
  { apply eq_None_not_Some. intros Hs. assert (p < next_object (memory s))%nat by (apply (inv_lives _ Hi); by left). unfold p in *. lia. }
  unfold MakeRefCounted, Adopt, access in Hm. fold p in Hm. cbn in Hm. rewrite lookup_insert_eq in Hm. cbn in Hm.
  rewrite fml_dcheck_true in Hm. cbn in Hm. injection Hm as <-. split; cbn; [done| |done]. intros p'. rewrite Hd. unfold dying. cbn.
  destruct (decide (p = p')) as [<-|Hne].
  - rewrite lookup_insert_eq, Hnone. naive_solver lia.
  - by rewrite !lookup_insert_ne.
Qed.

Lemma decrement_threads s v :
  threads_inv s → is_Some (pointers (memory s) !! v) → Z.of_nat (size (pointers (memory s))) < 2 ^ w →
  ∃ s', mem_op w (DecrementOp v) s ⇓ s' ∧ threads_inv s'.
Proof.
  intros Hi [q Hv] Hsize. pose proof Hi as [Hm Hd Hn]. cbn [mem_op]. rewrite Hv. cbn. destruct q as [p|].
  - destruct (decrement_ok v p (memory s) Hm Hv Hsize) as (m' & Hrel & Hi' & Hp & _). rewrite Hrel. cbn. eexists. split; [done|].
    assert (Hdom : dom (objects m') = dom (objects (memory s))).
    { unfold Base_Release, access in Hrel. cbn in Hrel. destruct (objects (memory s) !! p) as [o|] eqn:Ho; cbn in Hrel; [|done].
      destruct (check_usable o); cbn in Hrel; [|done]. destruct (fml_dcheck _); cbn in Hrel; [|done]. injection Hrel as _ <-. cbn.
      rewrite dom_insert_L. apply elem_of_dom_2 in Ho. set_solver. }
    pose proof (holders_pos p v _ Hv) as Hpos.
    assert (Hdy : ∀ p', dying m' p' ↔ dying (memory s) p' ∨ p' = p ∧ holders p (delete v (pointers (memory s))) = 0).
    { intros p'. rewrite !dying_holders by done. rewrite <- !elem_of_dom, Hdom, Hp. destruct (decide (p' = p)) as [->|Hne].
      - pose proof (inv_pointers _ Hm v p Hv) as Hs%elem_of_dom. naive_solver lia.
      - rewrite (holders_drop p' v _ _ Hv), is_to_other by done. rewrite Z.sub_0_r. naive_solver. }
    assert (Hout : p ∉ deleting s) by (rewrite Hd, dying_holders by done; lia).
    destruct (Z.eqb_spec (holders p (delete v (pointers (memory s)))) 0) as [Hz|Hz]; split; cbn; try done.
    + intros p'. rewrite elem_of_app, list_elem_of_singleton, Hd, Hdy. naive_solver.
    + apply NoDup_app. split_and!; [done| |apply NoDup_singleton]. by intros x Hx ->%list_elem_of_singleton.
    + intros p'. rewrite Hd, Hdy. naive_solver.
  - eexists. split; [done|]. apply keep_threads; [done|by apply drop_null|done|]. intros p. cbn.
    rewrite (holders_drop p v _ _ Hv), is_to_null. by rewrite Z.sub_0_r.
Qed.

Lemma delete_threads s p :
  threads_inv s → p ∈ deleting s → ∃ s', mem_op w (DeleteOp p) s ⇓ s' ∧ threads_inv s'.
Proof.
  intros [Hi Hd Hn] (o & Ho & Hz)%Hd. destruct (delete_ok p o (memory s) Hi Ho Hz) as (m' & Hm & Hi' & _ & Hobj). cbn [mem_op]. rewrite Hm. cbn.
  eexists. split; [done|]. split; cbn; [done| |by apply NoDup_filter].
  intros p'. rewrite list_elem_of_filter, Hd. unfold dying. rewrite Hobj. destruct (decide (p' = p)) as [->|Hne].
  - rewrite lookup_delete_eq. naive_solver.
  - rewrite lookup_delete_ne by done. naive_solver.
Qed.

Lemma mem_op_ok op s :
  threads_inv s → allowed op s = true → Z.of_nat (size (pointers (memory s))) < 2 ^ w - 1 →
  ∃ s', mem_op w op s ⇓ s' ∧ threads_inv s'.
Proof.
  intros Hi Hal Hsize. pose proof (inv_memory s Hi) as Hm.
  destruct op as [v|v|v p|v r|v r|v r|v|p]; cbn [allowed] in *; rewrite ?andb_true_iff, ?is_var_true, ?is_var_false in Hal;
    [cbn [mem_op]..|apply decrement_threads; [done|done|lia]|apply delete_threads; [done|by apply bool_decide_eq_true in Hal]].
  - destruct (MakeRefCounted_ok v (memory s)) as (m' & Hmk & Hi'); try done. rewrite Hmk. cbn. eexists. split; [done|].
    by eapply MakeRefCounted_threads.
  - eexists. split; [done|]. apply keep_threads; [done|by apply null_inv|done|]. intros p. cbn.
    rewrite holders_new, is_to_null by done. by rewrite Z.add_0_r.
  - destruct Hal as [Hv Hex%bool_decide_eq_true]. apply map_Exists_lookup in Hex as (r & q & Hr & ->).
    assert (Heq : RefPtr_raw w v (Some p) (memory s) = RefPtr_copy w v r (memory s)) by (unfold RefPtr_copy; by rewrite Hr).
    rewrite Heq. destruct (RefPtr_copy_ok v r (memory s)) as (m' & Hc & Hi' & _); [done|done|by eexists|done|]. rewrite Hc. cbn.
    eexists. split; [done|]. eapply (copy_threads s v r); [done|done|by eexists|done|done].
  - destruct Hal as [Hv Hr]. destruct (RefPtr_copy_ok v r (memory s)) as (m' & Hc & Hi' & _); try done. rewrite Hc. cbn.
    eexists. split; [done|]. by eapply copy_threads.
  - destruct Hal as [Hv Hr]. destruct (RefPtr_move_ok v r (memory s)) as (m' & Hc & Hi' & q & Hq & Hp); try done. rewrite Hc. cbn.
    eexists. split; [done|]. apply keep_threads; [done|done| |].
    + unfold RefPtr_move in Hc. rewrite Hq in Hc. cbn in Hc. by injection Hc as <-.
    + intros p. rewrite Hp. assert (v ≠ r) by congruence. rewrite (holders_set p r q None) by (by rewrite lookup_insert_ne).
      rewrite holders_new, is_to_null by done. lia.
  - destruct Hal as [Hv Hr]. destruct (RefPtr_swap_ok v r (memory s)) as (m' & Hc & Hi' & p & q & Hpv & Hqr & Hp); try done. rewrite Hc. cbn.
    eexists. split; [done|]. apply keep_threads; [done|done| |].
    + unfold RefPtr_swap in Hc. rewrite Hpv, Hqr in Hc. cbn in Hc. by injection Hc as <-.
    + intros x. rewrite Hp. destruct (decide (v = r)) as [->|Hne].
      * rewrite insert_insert_eq, (holders_set x r q p) by done. simplify_eq. lia.
      * rewrite (holders_set x r q p) by (by rewrite lookup_insert_ne). rewrite (holders_set x v p q) by done. lia.
Qed.

Lemma threads_run_inv s : mem_run w s → threads_inv s.
Proof.
  induction 1 as [|op s s' _ Hi Hal Hsize Hm].
  - split; cbn; [|unfold dying; cbn; set_solver|constructor]. split; cbn; try done; [constructor|].
    intros p. split; [lia|]. intros [[]|?%elem_of_nil]; done.
  - destruct (mem_op_ok op s Hi Hal Hsize) as (s2 & Hm2 & Hi2). rewrite Hm in Hm2. by injection Hm2 as <-.
Qed.

Lemma mem_run_inv s : mem_run w s → mem_inv (memory s).
Proof. intros Hr. apply threads_run_inv in Hr as [? _ _]. done. Qed.

(** C13: However the threads' uses of their [RefPtr]s interleave, no operation
    touches an object that was deleted or fails an assertion; the count of an
    object is the number of pointers to it; no object is deleted twice or while
    it has a pointer; and the call of [Release] that drops the last pointer,
    and no other one, told its thread to delete the object: an object without
    pointers was deleted, or one thread is about to delete it. *)
Theorem ref_counts_exact s :
  mem_run w s →
  (∀ op, allowed op s = true → Z.of_nat (size (pointers (memory s))) < 2 ^ w - 1 → ∃ s', mem_op w op s ⇓ s') ∧
  (∀ p o, objects (memory s) !! p = Some o → ref_count_ o = holders p (pointers (memory s))) ∧
  (∀ v p, pointers (memory s) !! v = Some (Some p) →
    is_Some (objects (memory s) !! p) ∧ (p ∉ destroyed (memory s)) ∧ p ∉ deleting s) ∧
  NoDup (destroyed (memory s) ++ deleting s) ∧
  (∀ p, (p < next_object (memory s))%nat → holders p (pointers (memory s)) = 0 → p ∈ destroyed (memory s) ++ deleting s).
Proof.
  intros Hr. pose proof (threads_run_inv s Hr) as Hi. pose proof Hi as [Hm Hd Hn]. split_and!.
  - intros op Hal Hsize. destruct (mem_op_ok op s Hi Hal Hsize) as (s' & Hs & _). by exists s'.
  - intros p o Ho. apply (inv_objects _ Hm p o Ho).
  - intros v p Hv. pose proof (inv_pointers _ Hm v p Hv) as Hs. split_and!; [done| |].
    + intros Hx%(inv_apart _ Hm). rewrite Hx in Hs. by destruct Hs.
    + rewrite Hd, dying_holders by done. pose proof (holders_pos p v _ Hv). lia.
  - apply NoDup_app. split_and!; [apply Hm| |done]. intros p Hx%(inv_apart _ Hm) (o & Ho & _)%Hd. congruence.
  - intros p Hp%(inv_lives _ Hm) Hz. apply elem_of_app. destruct Hp as [Ho|Hp]; [right|by left].
    by apply Hd, dying_holders.
Qed.

(** ** Assignments *)

Lemma Release_ok v p m :
  mem_inv m → pointers m !! v = Some (Some p) → Z.of_nat (size (pointers m)) < 2 ^ w →
  ∃ m', RefCounted_Release w p (drop_pointer v m) ⇓ m' ∧ mem_inv m' ∧ pointers m' = delete v (pointers m).
Proof.
  intros Hi Hv Hsize. destruct (decrement_ok v p m Hi Hv Hsize) as (m' & Hm & Hi' & Hp & Hz). unfold RefCounted_Release. rewrite Hm. cbn.
  destruct (Z.eqb_spec (holders p (delete v (pointers m))) 0) as [Hzero|]; [|by exists m'].
  destruct (Hz Hzero) as (o & Ho & Hc). destruct (delete_ok p o m' Hi' Ho Hc) as (m2 & Hm2 & Hi2 & Hp2 & _). exists m2. by rewrite Hp2.
Qed.

Lemma RefPtr_destroy_ok v m :
  mem_inv m → is_Some (pointers m !! v) → Z.of_nat (size (pointers m)) < 2 ^ w →
  ∃ m', RefPtr_destroy w v m ⇓ m' ∧ mem_inv m' ∧ pointers m' = delete v (pointers m).
Proof.
  intros Hi [q Hv] Hsize. unfold RefPtr_destroy. rewrite Hv. cbn. destruct q as [p|]; cbn; [by apply Release_ok|].
  eexists. split; [done|]. split; [by apply drop_null|done].
Qed.

(** A copy assignment is a copy, an exchange and a destructor. *)
Lemma RefPtr_assign_parts tmp v r m :
  pointers m !! tmp = None → is_Some (pointers m !! v) →
  RefPtr_assign w v r m = (m ← RefPtr_copy w tmp r m; m ← RefPtr_swap v tmp m; RefPtr_destroy w tmp m).
Proof.
  intros Htmp [old Hv]. assert (Hne : tmp ≠ v) by congruence. unfold RefPtr_assign, RefPtr_copy.
  destruct (pointers m !! r) as [q|] eqn:Hr; [cbn|done].
  assert (Hadd : ∀ P, maybe (AddRef w) q (mkMemory (objects m) (next_object m) P (destroyed m)) =
    (λ m', mkMemory (objects m') (next_object m') P (destroyed m')) <$> maybe (AddRef w) q m).
  { intros P. destruct q as [p|]; cbn; [|done]. unfold AddRef, access. cbn. destruct (objects m !! p) as [o|]; cbn; [|done].
    by destruct (check_usable o). }
  unfold set_pointer at 2. rewrite Hadd.
  assert (Hkeep : ∀ m', maybe (AddRef w) q m ⇓ m' → pointers m' = pointers m).
  { intros m'. destruct q as [p|]; cbn; [|by intros [= <-]]. unfold AddRef, access. destruct (objects m !! p) as [o|]; cbn; [|done].
    destruct (check_usable o); cbn; [|done]. by intros [= <-]. }
  destruct (maybe (AddRef w) q m) as [m'|e]; cbn; [|done]. rewrite (Hkeep m' eq_refl), Hv. cbn.
  unfold RefPtr_swap. cbn. rewrite lookup_insert_eq, lookup_insert_ne, Hv by done. cbn. unfold RefPtr_destroy. cbn. rewrite lookup_insert_eq. cbn.
  f_equal. unfold set_pointer, drop_pointer. cbn. f_equal. rewrite delete_insert_eq, delete_insert_ne by done. rewrite delete_insert_id by done. by rewrite (Hkeep m' eq_refl).
Qed.

(** Copy assignment, also of a pointer to itself: the pointer is then equal to
    the source, and nothing else changes. *)
Theorem copy_assignment v r s :
  let m := memory s in mem_run w s → is_Some (pointers m !! v) → is_Some (pointers m !! r) → Z.of_nat (size (pointers m)) < 2 ^ w - 1 →
  ∃ m', RefPtr_assign w v r m ⇓ m' ∧ mem_inv m' ∧ ∃ q, pointers m !! r = Some q ∧ pointers m' = <[v := q]> (pointers m).
Proof.
  intros m Hi%mem_run_inv Hv Hr Hsize. fold m in Hi. set (tmp := fresh (dom (pointers m))).
  assert (Htmp : pointers m !! tmp = None) by (apply not_elem_of_dom, is_fresh).
  rewrite (RefPtr_assign_parts tmp) by done.
  destruct (RefPtr_copy_ok tmp r m Hi Htmp Hr Hsize) as (m1 & -> & Hi1 & q & Hq & Hp1). cbn.
  destruct (RefPtr_swap_ok v tmp m1 Hi1) as (m2 & -> & Hi2 & a & b & Ha & Hb & Hp2).
  { rewrite Hp1, lookup_insert_ne; [done|]. intros <-. rewrite Htmp in Hv. by destruct Hv. }
  { rewrite Hp1, lookup_insert_eq. done. }
  cbn. rewrite Hp1, lookup_insert_eq in Hb. injection Hb as <-.
  destruct (RefPtr_destroy_ok tmp m2 Hi2) as (m3 & Hm3 & Hi3 & Hp3).
  { rewrite Hp2, lookup_insert_eq. done. }
  { rewrite Hp2, Hp1. assert (tmp ≠ v) by (intros <-; rewrite Htmp in Hv; by destruct Hv).
    rewrite map_size_insert_Some by (by rewrite lookup_insert_ne, lookup_insert_eq).
    rewrite map_size_insert_Some by (by rewrite lookup_insert_ne). rewrite map_size_insert_None by done. lia. }
  exists m3. split_and!; [done|done|]. exists q. split; [done|]. rewrite Hp3, Hp2, Hp1.
  assert (tmp ≠ v) by (intros <-; rewrite Htmp in Hv; by destruct Hv).
  rewrite delete_insert_eq, delete_insert_ne by done. by rewrite delete_insert_id.
Qed.

(** Move assignment, also of a pointer to itself, which keeps it. *)
Theorem move_assignment tmp v r s :
  let m := memory s in mem_run w s → pointers m !! tmp = None → is_Some (pointers m !! v) → is_Some (pointers m !! r) → Z.of_nat (size (pointers m)) < 2 ^ w - 1 →
  ∃ m', RefPtr_move_assign w tmp v r m ⇓ m' ∧ mem_inv m' ∧
    ∃ q, pointers m !! r = Some q ∧ pointers m' = <[v := q]> (<[r := None]> (pointers m)).
Proof.
  intros m Hi%mem_run_inv Htmp Hv Hr Hsize. fold m in Hi. unfold RefPtr_move_assign.
  assert (Hne : tmp ≠ v) by (intros ->; rewrite Htmp in Hv; by destruct Hv).
  assert (Hne' : tmp ≠ r) by (intros ->; rewrite Htmp in Hr; by destruct Hr).
  destruct (RefPtr_move_ok tmp r m Hi Htmp Hr) as (m1 & -> & Hi1 & q & Hq & Hp1). cbn.
  assert (Htmp1 : pointers m1 !! tmp = Some q) by (by rewrite Hp1, lookup_insert_ne, lookup_insert_eq).
  assert (Hv1 : is_Some (pointers m1 !! v)).
  { rewrite Hp1. destruct (decide (r = v)) as [->|?]; [by rewrite lookup_insert_eq|]. by rewrite !lookup_insert_ne. }
  destruct (RefPtr_swap_ok tmp v m1 Hi1) as (m2 & -> & Hi2 & a & b & Ha & Hb & Hp2); [done|done|].
  cbn. rewrite Htmp1 in Ha. injection Ha as <-.
  destruct (RefPtr_destroy_ok tmp m2 Hi2) as (m3 & Hm3 & Hi3 & Hp3).
  { rewrite Hp2, lookup_insert_ne, lookup_insert_eq by done. done. }
  { rewrite Hp2. rewrite map_size_insert_Some by (by rewrite lookup_insert_ne). rewrite map_size_insert_Some by done.
    rewrite Hp1, map_size_insert_Some by (by rewrite lookup_insert_ne). rewrite map_size_insert_None by done. lia. }
  exists m3. split_and!; [done|done|]. exists q. split; [done|]. rewrite Hp3, Hp2, Hp1.
  rewrite delete_insert_ne by done. rewrite delete_insert_eq, delete_insert_ne by done. by rewrite delete_insert_id.
Qed.
End proofs.

Definition memory_build : Build := {| debug := true |}.

(** Two variables share an object, one is destroyed, the other one is moved and
    destroyed: its thread is to delete the object. *)
Definition shared_moved : list MemOp := [MakeOp 0; CopyOp 1 0; DecrementOp 0; MoveOp 2 1; DecrementOp 2].

Definition memory_after (ops : list MemOp) : Threads :=
  foldl (λ s op, match @mem_op memory_build 32 op s with Ok s => s | Fault _ => s end) no_memory ops.

Lemma shared_moved_run : @mem_run memory_build 32 (memory_after shared_moved).
Proof.
  apply (@run_op memory_build 32 (DecrementOp 2) (memory_after (take 4 shared_moved))); [|by vm_compute..].
  apply (@run_op memory_build 32 (MoveOp 2 1) (memory_after (take 3 shared_moved))); [|by vm_compute..].
  apply (@run_op memory_build 32 (DecrementOp 0) (memory_after (take 2 shared_moved))); [|by vm_compute..].
  apply (@run_op memory_build 32 (CopyOp 1 0) (memory_after (take 1 shared_moved))); [|by vm_compute..].
  apply (@run_op memory_build 32 (MakeOp 0) no_memory); [apply run_start|by vm_compute..].
Qed.

Lemma ref_counts_exact_witness :
  deleting (memory_after shared_moved) = [0%nat] ∧ NoDup (destroyed (memory (memory_after shared_moved)) ++ [0%nat]) ∧
  ∃ s', @mem_op memory_build 32 (DeleteOp 0) (memory_after shared_moved) ⇓ s' ∧ destroyed (memory s') = [0%nat].
Proof.
  assert (Hdel : deleting (memory_after shared_moved) = [0%nat]) by (vm_compute; reflexivity).
  destruct (@ref_counts_exact memory_build 32 ltac:(lia) (memory_after shared_moved) shared_moved_run) as (Hop & _ & _ & Hn & _).
  rewrite Hdel in Hn. split_and!; [exact Hdel|exact Hn|].
  destruct (Hop (DeleteOp 0)) as [s' Hs]; [vm_compute; reflexivity..|]. exists s'. split; [exact Hs|].
  vm_compute in Hs. injection Hs as <-. vm_compute. reflexivity.
Defined.

(** ** Weak pointers *)

(** Factories with their object and flag, the flags that are valid or not, and
    weak pointers: the object, and the flag unless it was reset or moved. *)
Record WeakMemory := mkWeakMemory {
  factories : gmap nat (nat * nat);
  weak_flags : list bool;
  weak_ptrs : gmap nat (nat * option nat);
}.

Definition new_factory (f ptr : nat) (m : WeakMemory) : WeakMemory :=
  mkWeakMemory (<[f := (ptr, length (weak_flags m))]> (factories m)) (weak_flags m ++ [true]) (weak_ptrs m).

Section weak.
Context `{Build}.

Definition flag_is_valid (flag : nat) (m : WeakMemory) : result bool := of_option UndefinedBehaviour (weak_flags m !! flag).

Definition Invalidate (flag : nat) (m : WeakMemory) : result WeakMemory :=
  valid ← flag_is_valid flag m; _ ← fml_dcheck valid;
  mret (mkWeakMemory (factories m) (<[flag := false]> (weak_flags m)) (weak_ptrs m)).

(** [current] says whether the caller is on the thread that made the factory. *)
Definition destroy_factory (current : bool) (f : nat) (m : WeakMemory) : result WeakMemory :=
  '(_, flag) ← of_option UndefinedBehaviour (factories m !! f);
  _ ← fml_dcheck current;
  m ← Invalidate flag m;
  mret (mkWeakMemory (delete f (factories m)) (weak_flags m) (weak_ptrs m)).

Definition GetWeakPtr (f v : nat) (m : WeakMemory) : result WeakMemory :=
  '(ptr, flag) ← of_option UndefinedBehaviour (factories m !! f);
  mret (mkWeakMemory (factories m) (weak_flags m) (<[v := (ptr, Some flag)]> (weak_ptrs m))).

Definition WeakPtr_copy (v r : nat) (m : WeakMemory) : result WeakMemory :=
  x ← of_option UndefinedBehaviour (weak_ptrs m !! r);
  mret (mkWeakMemory (factories m) (weak_flags m) (<[v := x]> (weak_ptrs m))).
Definition WeakPtr_move (v r : nat) (m : WeakMemory) : result WeakMemory :=
  x ← of_option UndefinedBehaviour (weak_ptrs m !! r);
  mret (mkWeakMemory (factories m) (weak_flags m) (<[v := x]> (<[r := (x.1, None)]> (weak_ptrs m)))).
Definition WeakPtr_reset (v : nat) (m : WeakMemory) : result WeakMemory :=
  x ← of_option UndefinedBehaviour (weak_ptrs m !! v);
  mret (mkWeakMemory (factories m) (weak_flags m) (<[v := (x.1, None)]> (weak_ptrs m))).

Definition getUnsafe (v : nat) (m : WeakMemory) : result (option nat) :=
  '(ptr, flag) ← of_option UndefinedBehaviour (weak_ptrs m !! v);
  match flag with
  | None => mret None
  | Some flag => valid ← flag_is_valid flag m; mret (if (valid : bool) then Some ptr else None)
  end.
Definition WeakPtr_get (current : bool) (v : nat) (m : WeakMemory) : result (option nat) :=
  _ ← fml_dcheck current; getUnsafe v m.

Inductive WeakOp :=
  | NewFactory (f ptr : nat)
  | DestroyFactory (f : nat)
  | GetWeak (f v : nat)
  | CopyWeak (v r : nat)
  | MoveWeak (v r : nat)
  | ResetWeak (v : nat).

Definition weak_op (op : WeakOp) (m : WeakMemory) : result WeakMemory :=
  match op with
  | NewFactory f ptr => mret (new_factory f ptr m)
  | DestroyFactory f => destroy_factory true f m
  | GetWeak f v => GetWeakPtr f v m
  | CopyWeak v r => WeakPtr_copy v r m
  | MoveWeak v r => WeakPtr_move v r m
  | ResetWeak v => WeakPtr_reset v m
  end.

(** Factories and the pointers that are used exist; a new factory is new. *)
Definition weak_allowed (op : WeakOp) (m : WeakMemory) : bool :=
  match op with
  | NewFactory f _ => bool_decide (factories m !! f = None)
  | DestroyFactory f | GetWeak f _ => bool_decide (is_Some (factories m !! f))
  | CopyWeak _ r | MoveWeak _ r | ResetWeak r => bool_decide (is_Some (weak_ptrs m !! r))
  end.

Inductive weak_run : WeakMemory → Prop :=
  | weak_start : weak_run (mkWeakMemory ∅ [] ∅)
  | weak_next op m m' : weak_run m → weak_allowed op m = true → weak_op op m ⇓ m' → weak_run m'.

(** A flag is valid while a factory has it, and then one has. *)
Record weak_inv (m : WeakMemory) : Prop := {
  weak_factory f ptr flag : factories m !! f = Some (ptr, flag) → weak_flags m !! flag = Some true;
  weak_unique f f' x x' : factories m !! f = Some x → factories m !! f' = Some x' → x.2 = x'.2 → f = f';
  weak_valid flag : weak_flags m !! flag = Some true → ∃ f ptr, factories m !! f = Some (ptr, flag);
  weak_known v ptr flag : weak_ptrs m !! v = Some (ptr, Some flag) → is_Some (weak_flags m !! flag);
  weak_object v ptr flag f ptr' : weak_ptrs m !! v = Some (ptr, Some flag) → factories m !! f = Some (ptr', flag) → ptr = ptr';
}.

Lemma weak_pointers_inv m P :
  weak_inv m → (∀ v ptr flag, P !! v = Some (ptr, Some flag) → is_Some (weak_flags m !! flag) ∧
    ∀ f ptr', factories m !! f = Some (ptr', flag) → ptr = ptr') →
  weak_inv (mkWeakMemory (factories m) (weak_flags m) P).
Proof. intros [H1 H2 H3 H4 H5] HP. split; cbn; try done; naive_solver. Qed.

Lemma new_factory_inv f ptr m : weak_inv m → factories m !! f = None → weak_inv (new_factory f ptr m).
Proof.
  intros [H1 H2 H3 H4 H5] Hf. set (n := length (weak_flags m)).
  assert (Hlt : ∀ flag x, weak_flags m !! flag = Some x → (weak_flags m ++ [true]) !! flag = Some x) by (intros; by apply lookup_app_l_Some).
  assert (Hold : ∀ f' x, factories m !! f' = Some x → x.2 ≠ n).
  { intros f' [ptr' flag] Hx Heq. cbn in Heq. subst flag. apply H1, lookup_lt_Some in Hx. unfold n in Hx. lia. }
  assert (Hnew : (weak_flags m ++ [true]) !! n = Some true) by (unfold n; by rewrite lookup_app_r, Nat.sub_diag by lia).
  unfold new_factory. fold n. split; cbn.
  - intros f' ptr' flag. destruct (decide (f = f')) as [<-|Hne]; [rewrite lookup_insert_eq; by intros [= <- <-]|].
    rewrite lookup_insert_ne by done. intros Hx. eauto.
  - intros f1 f2 x1 x2. destruct (decide (f = f1)) as [<-|Hne1], (decide (f = f2)) as [<-|Hne2]; [done|..].
    + rewrite lookup_insert_eq, lookup_insert_ne by done. intros [= <-] Hx2 Heq. by apply Hold in Hx2.
    + rewrite lookup_insert_eq, lookup_insert_ne by done. intros Hx1 [= <-] Heq. by apply Hold in Hx1.
    + rewrite !lookup_insert_ne by done. apply H2.
  - intros flag [Hx|[Hge Hx]]%lookup_app_Some.
    + destruct (H3 flag Hx) as (f' & ptr' & Hf'). exists f', ptr'. rewrite lookup_insert_ne; [done|]. intros <-. congruence.
    + apply lookup_lt_Some in Hx. cbn in Hx. exists f, ptr. rewrite lookup_insert_eq. do 2 f_equal. unfold n. lia.
  - intros v ptr' flag Hv. destruct (H4 v ptr' flag Hv) as [x Hx]. exists x. by apply Hlt.
  - intros v ptr' flag f' ptr2 Hv. destruct (decide (f = f')) as [<-|Hne]; [|rewrite lookup_insert_ne by done; eauto].
    rewrite lookup_insert_eq. intros [= <- <-]. destruct (H4 v ptr' _ Hv) as [x Hx]. apply lookup_lt_Some in Hx. unfold n in Hx. lia.
Qed.

Lemma destroy_factory_ok f ptr flag m :
  weak_inv m → factories m !! f = Some (ptr, flag) → ∃ m', destroy_factory true f m ⇓ m' ∧ weak_inv m'.
Proof.
  intros [H1 H2 H3 H4 H5] Hf. pose proof (H1 _ _ _ Hf) as Hvalid. unfold destroy_factory, Invalidate, flag_is_valid. rewrite Hf. cbn.
  rewrite fml_dcheck_true, Hvalid. cbn. rewrite fml_dcheck_true. cbn. eexists. split; [done|].
  assert (Hlen : (flag < length (weak_flags m))%nat) by (by eapply lookup_lt_Some). split; cbn.
  - intros f' ptr' flag' [Hne Hf']%lookup_delete_Some. rewrite list_lookup_insert_ne; [by eapply H1|]. intros <-. by apply Hne, (H2 f f' _ _ Hf Hf').
  - intros f1 f2 x1 x2 [_ Hx1]%lookup_delete_Some [_ Hx2]%lookup_delete_Some. by apply H2.
  - intros flag' Hx. destruct (decide (flag = flag')) as [<-|Hne]; [by rewrite list_lookup_insert_eq in Hx|].
    rewrite list_lookup_insert_ne in Hx by done. destruct (H3 flag' Hx) as (f' & ptr' & Hf'). exists f', ptr'.
    rewrite lookup_delete_ne; [done|]. intros <-. congruence.
  - intros v ptr' flag' Hv. destruct (H4 v ptr' flag' Hv) as [x Hx]. destruct (decide (flag = flag')) as [<-|Hne].
    + exists false. by apply list_lookup_insert_eq.
    + exists x. by rewrite list_lookup_insert_ne.
  - intros v ptr' flag' f' ptr2 Hv [_ Hf']%lookup_delete_Some. by eapply H5.
Qed.

Lemma weak_op_ok op m : weak_inv m → weak_allowed op m = true → ∃ m', weak_op op m ⇓ m' ∧ weak_inv m'.
Proof.
  intros Hi Hal. pose proof Hi as [H1 H2 H3 H4 H5]. destruct op as [f ptr|f|f v|v r|v r|v]; cbn [weak_op weak_allowed] in *; apply bool_decide_eq_true in Hal.
  - eexists. split; [done|]. by apply new_factory_inv.
  - destruct Hal as [[ptr flag] Hf]. by eapply destroy_factory_ok.
  - destruct Hal as [[ptr flag] Hf]. unfold GetWeakPtr. rewrite Hf. cbn. eexists. split; [done|]. apply weak_pointers_inv; [done|].
    intros v' ptr' flag'. destruct (decide (v = v')) as [->|Hne]; [rewrite lookup_insert_eq; intros [= <- <-]|rewrite lookup_insert_ne by done; naive_solver].
    split; [rewrite (H1 _ _ _ Hf); done|]. intros f' ptr' Hf'. assert (f = f') as <- by (by eapply H2). congruence.
  - destruct Hal as [[ptr flag] Hr]. unfold WeakPtr_copy. rewrite Hr. cbn. eexists. split; [done|]. apply weak_pointers_inv; [done|].
    intros v' ptr' flag'. destruct (decide (v = v')) as [->|Hne]; [rewrite lookup_insert_eq; intros [= -> ->]|rewrite lookup_insert_ne by done]; naive_solver.
  - destruct Hal as [[ptr flag] Hr]. unfold WeakPtr_move. rewrite Hr. cbn. eexists. split; [done|]. apply weak_pointers_inv; [done|].
    intros v' ptr' flag'. destruct (decide (v = v')) as [->|Hne]; [rewrite lookup_insert_eq; intros [= -> ->]; naive_solver|rewrite lookup_insert_ne by done].
    destruct (decide (r = v')) as [->|Hne']; [by rewrite lookup_insert_eq|rewrite lookup_insert_ne by done]. naive_solver.
  - destruct Hal as [[ptr flag] Hr]. unfold WeakPtr_reset. rewrite Hr. cbn. eexists. split; [done|]. apply weak_pointers_inv; [done|].
    intros v' ptr' flag'. destruct (decide (v = v')) as [->|Hne]; [by rewrite lookup_insert_eq|rewrite lookup_insert_ne by done]. naive_solver.
Qed.

Lemma weak_run_inv m : weak_run m → weak_inv m.
Proof.
  induction 1 as [|op m m' _ Hi Hal Hm]; [by split|].
  destruct (weak_op_ok op m Hi Hal) as (m2 & Hm2 & Hi2). rewrite Hm in Hm2. by injection Hm2 as <-.
Qed.

(** In every run a weak pointer gives its object exactly while the factory it
    comes from is there and it was not reset or moved from; the flag that a
    factory and its pointers share is invalid by the time it is destroyed. *)
Theorem weak_pointers_valid m v ptr flag :
  weak_run m → weak_ptrs m !! v = Some (ptr, flag) →
  (∃ o, WeakPtr_get true v m ⇓ o ∧
    ∀ x, o = Some x ↔ x = ptr ∧ ∃ f n, flag = Some n ∧ factories m !! f = Some (ptr, n)) ∧
  ∀ n, (∀ f x, factories m !! f = Some x → x.2 ≠ n) → weak_flags m !! n ≠ Some true.
Proof.
  intros Hi%weak_run_inv Hv. destruct Hi as [H1 H2 H3 H4 H5]. split.
  - unfold WeakPtr_get, getUnsafe. rewrite fml_dcheck_true, Hv. cbn. destruct flag as [n|]; [|exists None; naive_solver].
    destruct (H4 v ptr n Hv) as [b Hb]. unfold flag_is_valid. rewrite Hb. cbn. eexists. split; [done|]. intros x. destruct b; split.
    + intros [= <-]. split; [done|]. destruct (H3 n Hb) as (f & ptr' & Hf). rewrite (H5 v ptr n f ptr' Hv Hf). by exists f, n.
    + by intros [-> _].
    + done.
    + intros (_ & f & n' & [= <-] & Hf). rewrite (H1 _ _ _ Hf) in Hb. done.
  - intros n Hn Hx. destruct (H3 n Hx) as (f & ptr' & Hf). by apply (Hn f _ Hf).
Qed.
End weak.
