(* ===== verification/UnrefQueue.v ===== *)
(** * UnrefQueue: graphics objects released on the IO thread

    Model of [SkiaUnrefQueue] and [SkiaGPUObject] (flow/skia_gpu_object.cc and
    .h).  Any number of threads queue objects; drains run as tasks that hold a
    reference to the queue, or are called.  A drain takes the objects under the
    lock and releases them after it, so other calls come in between. *)

From Stdlib Require Import ZArith Lia.
From stdpp Require Import base numbers list gmap sets relations.
From S2P Require Import Prelude.

Record UnrefQueue := mkUnrefQueue {
  objects_ : list nat;
  drain_pending_ : bool;
  (** Drains that are posted, and what those that run have taken. *)
  posted_drains : nat;
  running_drains : list (list nat);
  (** The [RefPtr]s to the queue besides those of the tasks. *)
  handles : nat;
  unrefed : list nat;
  deferred_cleanups : nat;
}.

Definition new_unref_queue : UnrefQueue := mkUnrefQueue [] false 0 [] 1 [] 0.

Section queue.
Context `{Build}.
(** Whether the weak pointer to the graphics context is valid. *)
Context (context_ : bool).

Definition Unref (object : nat) (q : UnrefQueue) : UnrefQueue :=
  let q := mkUnrefQueue (objects_ q ++ [object]) (drain_pending_ q) (posted_drains q) (running_drains q) (handles q) (unrefed q)
             (deferred_cleanups q) in
  if negb (drain_pending_ q) then
    mkUnrefQueue (objects_ q) true (S (posted_drains q)) (running_drains q) (handles q) (unrefed q) (deferred_cleanups q)
  else q.

(** [Drain] under the lock, and after it. *)
Definition drain_take (q : UnrefQueue) : list nat * UnrefQueue :=
  (objects_ q, mkUnrefQueue [] false (posted_drains q) (running_drains q) (handles q) (unrefed q) (deferred_cleanups q)).
Definition drain_release (skia_objects : list nat) (q : UnrefQueue) : UnrefQueue :=
  mkUnrefQueue (objects_ q) (drain_pending_ q) (posted_drains q) (running_drains q) (handles q) (unrefed q ++ skia_objects)
    (if context_ && (0 <? length skia_objects)%nat then S (deferred_cleanups q) else deferred_cleanups q).
Definition Drain (q : UnrefQueue) : UnrefQueue := let '(taken, q) := drain_take q in drain_release taken q.

Definition destroy_unref_queue (q : UnrefQueue) : result unit := fml_dcheck (bool_decide (objects_ q = [])).

(** ** Runs *)

Definition set_drains (posted : nat) (running : list (list nat)) (q : UnrefQueue) : UnrefQueue :=
  mkUnrefQueue (objects_ q) (drain_pending_ q) posted running (handles q) (unrefed q) (deferred_cleanups q).
Definition set_handles (n : nat) (q : UnrefQueue) : UnrefQueue :=
  mkUnrefQueue (objects_ q) (drain_pending_ q) (posted_drains q) (running_drains q) n (unrefed q) (deferred_cleanups q).

(** Who has a pointer to the queue can use it, copy it and drop it; a posted
    drain starts; a drain ends. *)
Inductive queue_step (all : list nat) (q : UnrefQueue) : list nat → UnrefQueue → Prop :=
  | step_Unref object : 0 < handles q → queue_step all q (all ++ [object]) (Unref object q)
  | step_call_Drain : 0 < handles q →
      queue_step all q all (let '(taken, q') := drain_take q in set_drains (posted_drains q') (taken :: running_drains q') q')
  | step_start n : posted_drains q = S n →
      queue_step all q all (let '(taken, q') := drain_take q in set_drains n (taken :: running_drains q') q')
  | step_end before taken after : running_drains q = before ++ taken :: after →
      queue_step all q all (drain_release taken (set_drains (posted_drains q) (before ++ after) q))
  | step_copy : 0 < handles q → queue_step all q all (set_handles (S (handles q)) q)
  | step_drop n : handles q = S n → queue_step all q all (set_handles n q).

Inductive queue_run : list nat → UnrefQueue → Prop :=
  | queue_start : queue_run [] new_unref_queue
  | queue_next all q all' q' : queue_run all q → queue_step all q all' q' → queue_run all' q'.

(** Nothing refers to the queue: its destructor runs. *)
Definition unreferenced (q : UnrefQueue) : Prop := handles q = 0 ∧ posted_drains q = 0 ∧ running_drains q = [].

Record queue_inv (all : list nat) (q : UnrefQueue) : Prop := {
  inv_all : unrefed q ++ concat (running_drains q) ++ objects_ q ≡ₚ all;
  inv_pending : objects_ q ≠ [] → drain_pending_ q = true;
  inv_posted : drain_pending_ q = true → 0 < posted_drains q;
}.

Lemma queue_step_inv all q all' q' : queue_inv all q → queue_step all q all' q' → queue_inv all' q'.
Proof.
  intros [Ha Hp Hq] Hs. destruct Hs as [object Hh|Hh|n Hn|before taken after Hr|Hh|n Hn]; cbn in *.
  - assert (Ha' : unrefed q ++ concat (running_drains q) ++ objects_ q ++ [object] ≡ₚ all ++ [object])
      by (rewrite <- Ha; by rewrite <- !app_assoc).
    unfold Unref. cbn. destruct (drain_pending_ q) eqn:Hd; cbn; split; cbn; try done; try lia.
  - split; cbn; try done. rewrite <- Ha, app_nil_r. f_equiv. apply Permutation_app_comm.
  - split; cbn; try done. rewrite <- Ha, app_nil_r. f_equiv. apply Permutation_app_comm.
  - split; cbn; try done. rewrite <- Ha, Hr, !concat_app. cbn. rewrite <- !app_assoc. f_equiv.
    rewrite !app_assoc. do 2 f_equiv. apply Permutation_app_comm.
  - by split.
  - by split.
Qed.

Lemma queue_run_inv all q : queue_run all q → queue_inv all q.
Proof. induction 1 as [|all q all' q' _ Hi Hs]; [by split|by eapply queue_step_inv]. Qed.

(** In every interleaving each object that was queued is released once, taken
    by a drain that runs, or still queued; while one is queued a drain is
    posted, so the queue is empty when its destructor asserts that it is. *)
Theorem unref_queue_accounts all q :
  queue_run all q →
  unrefed q ++ concat (running_drains q) ++ objects_ q ≡ₚ all ∧
  (objects_ q ≠ [] → 0 < posted_drains q) ∧
  (unreferenced q → destroy_unref_queue q ⇓ tt ∧ unrefed q ≡ₚ all).
Proof.
  intros [Ha Hp Hq]%queue_run_inv. split_and!; [done|auto|]. intros (Hh & Hd & Hr).
  assert (Hempty : objects_ q = []).
  { destruct (objects_ q) as [|x l]; [done|]. specialize (Hq (Hp ltac:(done))). lia. }
  split; [unfold destroy_unref_queue; by rewrite Hempty, bool_decide_eq_true_2, fml_dcheck_true|].
  by rewrite Hempty, Hr, app_nil_r in Ha; cbn in Ha; rewrite ?app_nil_r in Ha.
Qed.

(** ** SkiaGPUObject *)

(** The object and whether there is a queue; [released_here] are the objects
    the smart pointer releases on the calling thread. *)
Record SkiaGPUObject := mkSkiaGPUObject {
  object_ : option nat;
  queue_ : bool;
}.

Definition SkiaGPUObject_reset (o : SkiaGPUObject) (q : UnrefQueue) : result (SkiaGPUObject * UnrefQueue) :=
  let '(object, q) := match object_ o with Some x => if queue_ o then (None, Unref x q) else (Some x, q) | None => (None, q) end in
  _ ← fml_dcheck (bool_decide (object = None));
  mret (mkSkiaGPUObject object false, q).

(** The constructor, and the assignment the compiler writes: it moves the
    members, and the smart pointer releases the object it held. *)
Definition SkiaGPUObject_new (object : option nat) (queue : bool) : result SkiaGPUObject :=
  _ ← fml_dcheck (bool_decide (is_Some object)); mret (mkSkiaGPUObject object queue).
Definition SkiaGPUObject_move_assign (o source : SkiaGPUObject) : SkiaGPUObject * SkiaGPUObject * list nat :=
  (source, mkSkiaGPUObject None false, option_list (object_ o)).

(** An object with a queue is queued when it is reset or destroyed. *)
Theorem reset_queues_object o q x :
  object_ o = Some x → queue_ o = true → SkiaGPUObject_reset o q ⇓ (mkSkiaGPUObject None false, Unref x q).
Proof. intros Ho Hq. unfold SkiaGPUObject_reset. rewrite Ho, Hq. by rewrite bool_decide_eq_true_2, fml_dcheck_true. Qed.

(** Assigning over an object releases it on the calling thread, past the queue. *)
Theorem assignment_bypasses_queue o source x :
  object_ o = Some x → (SkiaGPUObject_move_assign o source).2 = [x].
Proof. intros Ho. unfold SkiaGPUObject_move_assign. by rewrite Ho. Qed.
End queue.
