(* ===== verification/TaskQueues.v ===== *)
(** * TaskQueues: fml/message_loop_task_queues.{h,cc} and fml/delayed_task.{h,cc}

    The process-wide registry of task queues: per queue a priority queue of
    delayed tasks, an ordered map of observers, a wakeable, and the merge
    links [owner_of] / [subsumed_by].  Each public method takes its queue's
    mutex for its whole duration and is modelled as one step on the
    registry.  Calls to [Wakeable::WakeUp] are appended to [wake_log].

    [TaskQueueId] is observable only through its [operator int], which is
    also what [std::map] compares, so an id is modelled by that [int]:
    [kUnmerged = ULONG_MAX] is [-1]. *)

From Stdlib Require Import ZArith Lia.
From stdpp Require Import base sorting gmap numbers list.
From S2P Require Import Prelude Time StdMap.

(** An [fml::closure] is a [std::function<void()>]: null, or some code. *)
Definition closure := option nat.

Record DelayedTask := mkDelayedTask {
  order_ : Z;
  task_ : closure;
  target_time_ : TimePoint.t;
}.

Definition GetTask (t : DelayedTask) : closure := task_ t.
Definition GetTargetTime (t : DelayedTask) : TimePoint.t := target_time_ t.

(** [DelayedTask::operator>] *)
Definition DelayedTask_gt (a b : DelayedTask) : bool :=
  if (target_time_ a =? target_time_ b)%Z then (order_ b <? order_ a)%Z
  else (target_time_ b <? target_time_ a)%Z.

(** [DelayedTaskQueue] is a [std::priority_queue] ordered by
    [std::greater<DelayedTask>]: its top is a least element.  It is kept as
    the list of its elements in the order they are popped. *)
Abbreviation DelayedTaskQueue := (list DelayedTask).

Fixpoint pq_push (t : DelayedTask) (q : DelayedTaskQueue) : DelayedTaskQueue :=
  match q with
  | [] => [t]
  | u :: q' => if DelayedTask_gt u t then t :: u :: q' else u :: pq_push t q'
  end.
Definition pq_empty (q : DelayedTaskQueue) : bool :=
  match q with [] => true | _ => false end.
(** [top] and [pop] on an empty priority queue are undefined. *)
Definition pq_top (q : DelayedTaskQueue) : result DelayedTask :=
  of_option UndefinedBehaviour (head q).
Definition pq_pop (q : DelayedTaskQueue) : result DelayedTaskQueue :=
  match q with [] => Fault UndefinedBehaviour | _ :: q' => Ok q' end.

(** ** State *)

Definition TaskQueueId := Z.
Definition make_TaskQueueId (value : Z) : TaskQueueId := wrapS 32 value.
Definition kUnmerged : TaskQueueId := make_TaskQueueId size_max.

Record TaskQueueEntry := mkEntry {
  wakeable : option nat;
  task_observers : list (Z * closure);
  delayed_tasks : DelayedTaskQueue;
  owner_of : TaskQueueId;
  subsumed_by : TaskQueueId;
}.

Definition new_entry : TaskQueueEntry := mkEntry None [] [] kUnmerged kUnmerged.

Definition with_wakeable w e := mkEntry w (task_observers e) (delayed_tasks e) (owner_of e) (subsumed_by e).
Definition with_observers o e := mkEntry (wakeable e) o (delayed_tasks e) (owner_of e) (subsumed_by e).
Definition with_tasks d e := mkEntry (wakeable e) (task_observers e) d (owner_of e) (subsumed_by e).
Definition with_owner_of o e := mkEntry (wakeable e) (task_observers e) (delayed_tasks e) o (subsumed_by e).
Definition with_subsumed_by o e := mkEntry (wakeable e) (task_observers e) (delayed_tasks e) (owner_of e) o.

Inductive FlushType := kSingle | kAll.

Record Queues := mkQueues {
  queue_entries_ : gmap TaskQueueId TaskQueueEntry;
  queue_locks_ : gset TaskQueueId;
  task_queue_id_counter_ : Z;
  order_counter_ : Z;
  wake_log : list (nat * TimePoint.t);
}.

Definition with_entries m s := mkQueues m (queue_locks_ s) (task_queue_id_counter_ s) (order_counter_ s) (wake_log s).
Definition set_entry q e s := with_entries (<[q := e]> (queue_entries_ s)) s.
Definition log_wake w t s :=
  mkQueues (queue_entries_ s) (queue_locks_ s) (task_queue_id_counter_ s) (order_counter_ s)
           (wake_log s ++ [(w, t)]).

(** The registry [GetInstance] creates. *)
Definition new_queues : Queues := mkQueues ∅ ∅ 0 0 [].

(** [queue_entries_.at(q)] and [queue_entries_[q]->...]: on a missing key the
    first throws, the second inserts a null pointer and dereferences it. *)
Definition entry_at (q : TaskQueueId) (s : Queues) : result TaskQueueEntry :=
  of_option OutOfRange (queue_entries_ s !! q).
Definition entry_deref (q : TaskQueueId) (s : Queues) : result TaskQueueEntry :=
  of_option NullDeref (queue_entries_ s !! q).
Definition lock_at (q : TaskQueueId) (s : Queues) : result unit :=
  if bool_decide (q ∈ queue_locks_ s) then Ok tt else Fault OutOfRange.

Definition CreateTaskQueue (s : Queues) : TaskQueueId * Queues :=
  let loop_id := make_TaskQueueId (task_queue_id_counter_ s) in
  (loop_id,
   mkQueues (<[loop_id := new_entry]> (queue_entries_ s))
            ({[loop_id]} ∪ queue_locks_ s)
            (wrapU 64 (task_queue_id_counter_ s + 1))
            (order_counter_ s) (wake_log s)).

Section operations.
Context `{Build}.

(** [GetMutex]: the mutexes of disposed queues stay in [queue_locks_]. *)
Definition GetMutex (q : TaskQueueId) (s : Queues) : result unit :=
  _ ← fml_dcheck (bool_decide (q ∈ queue_locks_ s) &&
                  bool_decide (is_Some (queue_entries_ s !! q)));
  lock_at q s.

Definition HasPendingTasksUnlocked (q : TaskQueueId) (s : Queues) : result bool :=
  entry ← entry_at q s;
  if negb (subsumed_by entry =? kUnmerged)%Z then mret false
  else if negb (pq_empty (delayed_tasks entry)) then mret true
  else
    let subsumed := owner_of entry in
    if (subsumed =? kUnmerged)%Z then mret false
    else e ← entry_at subsumed s; mret (negb (pq_empty (delayed_tasks e))).

(** Returns the task and the queue that holds it ([top_queue_id]). *)
Definition PeekNextTaskUnlocked (owner : TaskQueueId) (s : Queues)
    : result (DelayedTask * TaskQueueId) :=
  pending ← HasPendingTasksUnlocked owner s;
  _ ← fml_dcheck pending;
  entry ← entry_at owner s;
  let subsumed := owner_of entry in
  if (subsumed =? kUnmerged)%Z then
    t ← pq_top (delayed_tasks entry); mret (t, owner)
  else
    subsumed_entry ← entry_at subsumed s;
    let owner_tasks := delayed_tasks entry in
    let subsumed_tasks := delayed_tasks subsumed_entry in
    let subsumed_has_task := negb (pq_empty subsumed_tasks) in
    let owner_has_task := negb (pq_empty owner_tasks) in
    top_queue_id ←
      (if owner_has_task && subsumed_has_task then
         owner_task ← pq_top owner_tasks;
         subsumed_task ← pq_top subsumed_tasks;
         mret (if DelayedTask_gt owner_task subsumed_task then subsumed else owner)
       else if owner_has_task then mret owner
       else mret subsumed);
    e ← entry_at top_queue_id s;
    t ← pq_top (delayed_tasks e); mret (t, top_queue_id).

Definition GetNextWakeTimeUnlocked (q : TaskQueueId) (s : Queues) : result TimePoint.t :=
  '(t, _) ← PeekNextTaskUnlocked q s; mret (GetTargetTime t).

Definition WakeUpUnlocked (q : TaskQueueId) (time : TimePoint.t) (s : Queues) : result Queues :=
  e ← entry_at q s;
  mret (match wakeable e with Some w => log_wake w time s | None => s end).

Definition Dispose (q : TaskQueueId) (s : Queues) : result Queues :=
  _ ← GetMutex q s;
  queue_entry ← entry_at q s;
  _ ← fml_dcheck (subsumed_by queue_entry =? kUnmerged)%Z;
  let subsumed := owner_of queue_entry in
  let s1 := with_entries (delete q (queue_entries_ s)) s in
  if negb (subsumed =? kUnmerged)%Z then
    _ ← lock_at subsumed s1;
    mret (with_entries (delete subsumed (queue_entries_ s1)) s1)
  else mret s1.

Definition DisposeTasks (q : TaskQueueId) (s : Queues) : result Queues :=
  _ ← GetMutex q s;
  queue_entry ← entry_at q s;
  _ ← fml_dcheck (subsumed_by queue_entry =? kUnmerged)%Z;
  let subsumed := owner_of queue_entry in
  let s1 := set_entry q (with_tasks [] queue_entry) s in
  if negb (subsumed =? kUnmerged)%Z then
    _ ← lock_at subsumed s1;
    e ← entry_at subsumed s1;
    mret (set_entry subsumed (with_tasks [] e) s1)
  else mret s1.

(** [order_] is an [atomic_int]: it wraps, and converts to [size_t]. *)
Definition next_order (s : Queues) : Z := wrapU 64 (order_counter_ s).
Definition bump_order (s : Queues) : Queues :=
  mkQueues (queue_entries_ s) (queue_locks_ s) (task_queue_id_counter_ s)
           (wrapS 32 (order_counter_ s + 1)) (wake_log s).

Definition RegisterTask (q : TaskQueueId) (task : closure) (target_time : TimePoint.t)
    (s : Queues) : result Queues :=
  _ ← GetMutex q s;
  let order := next_order s in
  let s1 := bump_order s in
  queue_entry ← entry_deref q s1;
  let queue_entry := with_tasks
    (pq_push (mkDelayedTask order task target_time) (delayed_tasks queue_entry)) queue_entry in
  let s2 := set_entry q queue_entry s1 in
  let loop_to_wake :=
    if negb (subsumed_by queue_entry =? kUnmerged)%Z then subsumed_by queue_entry else q in
  top ← pq_top (delayed_tasks queue_entry);
  WakeUpUnlocked loop_to_wake (GetTargetTime top) s2.

Definition HasPendingTasks (q : TaskQueueId) (s : Queues) : result bool :=
  _ ← GetMutex q s; HasPendingTasksUnlocked q s.

(** The [while] loop of [GetTasksToRunNow]. *)
Fixpoint run_now_loop (fuel : nat) (q : TaskQueueId) (type : FlushType) (now : TimePoint.t)
    (invocations : list closure) (s : Queues) : result (list closure * Queues) :=
  match fuel with
  | O => Fault OutOfFuel
  | S fuel =>
      pending ← HasPendingTasksUnlocked q s;
      if pending : bool then
        '(top, top_queue) ← PeekNextTaskUnlocked q s;
        if (now <? GetTargetTime top)%Z then mret (invocations, s)
        else
          let invocations := invocations ++ [GetTask top] in
          e ← entry_deref top_queue s;
          rest ← pq_pop (delayed_tasks e);
          let s := set_entry top_queue (with_tasks rest e) s in
          match type with
          | kSingle => mret (invocations, s)
          | kAll => run_now_loop fuel q type now invocations s
          end
      else mret (invocations, s)
  end.

(** One round per task the loop can see, and one to see that none is left. *)
Definition visible_tasks (q : TaskQueueId) (s : Queues) : nat :=
  match queue_entries_ s !! q with
  | None => 0
  | Some e => length (delayed_tasks e) +
      match queue_entries_ s !! owner_of e with
      | None => 0 | Some e' => length (delayed_tasks e') end
  end.

Definition GetTasksToRunNow (q : TaskQueueId) (type : FlushType) (now : TimePoint.t)
    (invocations : list closure) (s : Queues) : result (list closure * Queues) :=
  _ ← GetMutex q s;
  pending ← HasPendingTasksUnlocked q s;
  if negb pending then mret (invocations, s)
  else
    '(invocations, s) ← run_now_loop (S (visible_tasks q s)) q type now invocations s;
    pending ← HasPendingTasksUnlocked q s;
    if negb pending then
      s ← WakeUpUnlocked q TimePoint.Max s; mret (invocations, s)
    else
      time ← GetNextWakeTimeUnlocked q s;
      s ← WakeUpUnlocked q time s; mret (invocations, s).

Definition GetNumPendingTasks (q : TaskQueueId) (s : Queues) : result nat :=
  _ ← GetMutex q s;
  queue_entry ← entry_at q s;
  if negb (subsumed_by queue_entry =? kUnmerged)%Z then mret 0
  else
    let total_tasks := length (delayed_tasks queue_entry) in
    let subsumed := owner_of queue_entry in
    if negb (subsumed =? kUnmerged)%Z then
      _ ← lock_at subsumed s;
      subsumed_entry ← entry_at subsumed s;
      mret (total_tasks + length (delayed_tasks subsumed_entry))
    else mret total_tasks.

Definition AddTaskObserver (q : TaskQueueId) (key : Z) (callback : closure)
    (s : Queues) : result Queues :=
  _ ← GetMutex q s;
  _ ← fml_dcheck (bool_decide (is_Some callback));
  e ← entry_deref q s;
  mret (set_entry q (with_observers (StdMap.assign Z.ltb key callback (task_observers e)) e) s).

Definition RemoveTaskObserver (q : TaskQueueId) (key : Z) (s : Queues) : result Queues :=
  _ ← GetMutex q s;
  e ← entry_deref q s;
  mret (set_entry q (with_observers (StdMap.erase Z.ltb key (task_observers e)) e) s).

Definition GetObserversToNotify (q : TaskQueueId) (s : Queues) : result (list closure) :=
  _ ← GetMutex q s;
  e ← entry_at q s;
  if negb (subsumed_by e =? kUnmerged)%Z then mret []
  else
    let observers := (task_observers e).*2 in
    let subsumed := owner_of e in
    if negb (subsumed =? kUnmerged)%Z then
      _ ← lock_at subsumed s;
      e' ← entry_at subsumed s;
      mret (observers ++ (task_observers e').*2)
    else mret observers.

Definition SetWakeable (q : TaskQueueId) (w : option nat) (s : Queues) : result Queues :=
  _ ← GetMutex q s;
  e ← entry_deref q s;
  _ ← fml_check (negb (bool_decide (is_Some (wakeable e))));
  e ← entry_at q s;
  mret (set_entry q (with_wakeable w e) s).

(** Wake [q] at its next task's time, when it has one. *)
Definition wake_if_pending (q : TaskQueueId) (s : Queues) : result Queues :=
  pending ← HasPendingTasksUnlocked q s;
  if pending : bool then time ← GetNextWakeTimeUnlocked q s; WakeUpUnlocked q time s
  else mret s.

Definition Merge (owner subsumed : TaskQueueId) (s : Queues) : result (bool * Queues) :=
  if (owner =? subsumed)%Z then mret (true, s)
  else
    _ ← GetMutex owner s;
    _ ← GetMutex subsumed s;
    owner_entry ← entry_at owner s;
    subsumed_entry ← entry_at subsumed s;
    if (owner_of owner_entry =? subsumed)%Z then mret (true, s)
    else
      let owner_subsumed_keys :=
        [owner_of owner_entry; subsumed_by owner_entry;
         owner_of subsumed_entry; subsumed_by subsumed_entry] in
      if existsb (λ key, negb (key =? kUnmerged)%Z) owner_subsumed_keys then mret (false, s)
      else
        let s := set_entry owner (with_owner_of subsumed owner_entry) s in
        let s := set_entry subsumed (with_subsumed_by owner subsumed_entry) s in
        s ← wake_if_pending owner s;
        mret (true, s).

Definition Unmerge (owner : TaskQueueId) (s : Queues) : result (bool * Queues) :=
  _ ← GetMutex owner s;
  owner_entry ← entry_deref owner s;
  let subsumed := owner_of owner_entry in
  if (subsumed =? kUnmerged)%Z then mret (false, s)
  else
    subsumed_entry ← entry_deref subsumed s;
    let s := set_entry subsumed (with_subsumed_by kUnmerged subsumed_entry) s in
    owner_entry ← entry_deref owner s;
    let s := set_entry owner (with_owner_of kUnmerged owner_entry) s in
    s ← wake_if_pending owner s;
    s ← wake_if_pending subsumed s;
    mret (true, s).

Definition Owns (owner subsumed : TaskQueueId) (s : Queues) : result bool :=
  _ ← GetMutex owner s;
  e ← entry_at owner s;
  mret ((subsumed =? owner_of e)%Z || (owner =? subsumed)%Z).

End operations.
