(* ===== verification/TaskOrder.v ===== *)
(** * TaskOrder: the execution order of delayed tasks

    [DelayedTask::operator>] as a total preorder, the priority queue as a
    list sorted by it, and the split of a sorted queue into the tasks that
    are due at a given time and the rest. *)

From Stdlib Require Import ZArith Lia.
From stdpp Require Import base sorting gmap numbers list.
From S2P Require Import Prelude Time StdMap TaskQueues.

(** [a] runs before [b] or ties with it. *)
Definition task_le (a b : DelayedTask) : Prop := DelayedTask_gt a b = false.

#[export] Instance task_le_dec : RelDecision task_le.
Proof. intros a b. unfold task_le. apply _. Defined.

Lemma task_le_spec a b :
  task_le a b ↔
  (target_time_ a < target_time_ b)%Z ∨
  (target_time_ a = target_time_ b ∧ order_ a ≤ order_ b)%Z.
Proof.
  unfold task_le, DelayedTask_gt.
  destruct (Z.eqb_spec (target_time_ a) (target_time_ b)); lia.
Qed.

#[export] Instance task_le_trans : Transitive task_le.
Proof. intros a b c. rewrite !task_le_spec. lia. Qed.

#[export] Instance task_le_total : Total task_le.
Proof. intros a b. rewrite !task_le_spec. lia. Qed.

Lemma task_gt_le a b : DelayedTask_gt a b = true → task_le b a.
Proof.
  rewrite task_le_spec. unfold DelayedTask_gt.
  destruct (Z.eqb_spec (target_time_ a) (target_time_ b)); lia.
Qed.

Lemma task_le_time a b : task_le a b → (target_time_ a ≤ target_time_ b)%Z.
Proof. rewrite task_le_spec. lia. Qed.

(** A queue in pop order. *)
Definition sorted_tasks (q : DelayedTaskQueue) : Prop := StronglySorted task_le q.

Lemma sorted_tasks_cons t q :
  sorted_tasks (t :: q) ↔ Forall (task_le t) q ∧ sorted_tasks q.
Proof. apply StronglySorted_cons. Qed.

Lemma sorted_tasks_suffix q q' : q' `suffix_of` q → sorted_tasks q → sorted_tasks q'.
Proof. intros [l ->]. apply StronglySorted_app_1_r. Qed.

Lemma pq_push_perm t q : pq_push t q ≡ₚ t :: q.
Proof.
  induction q as [|u q IH]; cbn; [done|]. destruct DelayedTask_gt; [done|].
  rewrite IH. apply Permutation_swap.
Qed.

Lemma pq_push_sorted t q : sorted_tasks q → sorted_tasks (pq_push t q).
Proof.
  induction q as [|u q IH]; intros Hq; cbn.
  { repeat constructor. }
  apply sorted_tasks_cons in Hq as [Hu Hq].
  destruct (DelayedTask_gt u t) eqn:Hgt; apply sorted_tasks_cons; split.
  - apply task_gt_le in Hgt. constructor; [done|].
    eapply Forall_impl; [exact Hu|]. intros. by etrans.
  - by apply sorted_tasks_cons.
  - rewrite pq_push_perm. by constructor.
  - auto.
Qed.

(** ** Due tasks *)

Definition due (now : TimePoint.t) (t : DelayedTask) : Prop := (GetTargetTime t ≤ now)%Z.

#[export] Instance due_dec now t : Decision (due now t).
Proof. unfold due. apply _. Defined.

Definition due_tasks now (q : DelayedTaskQueue) := filter (due now) q.
Definition later_tasks now (q : DelayedTaskQueue) := filter (λ t, ¬ due now t) q.

Lemma later_above now t q : ¬ due now t → Forall (task_le t) q → Forall (λ u, ¬ due now u) q.
Proof.
  intros Ht Hq. eapply Forall_impl; [exact Hq|].
  intros u Hu%task_le_time. unfold due, GetTargetTime in *. lia.
Qed.

Lemma due_tasks_none now q : Forall (λ u, ¬ due now u) q → due_tasks now q = [] ∧ later_tasks now q = q.
Proof. intros. split; [by apply filter_none|by apply filter_all]. Qed.

Lemma due_later_split now q : sorted_tasks q → q = due_tasks now q ++ later_tasks now q.
Proof.
  induction q as [|t q IH]; [done|]. intros [Ht Hq]%sorted_tasks_cons.
  unfold due_tasks, later_tasks. rewrite !filter_cons. destruct (decide (due now t)) as [Hd|Hd].
  - rewrite decide_False by naive_solver. cbn. f_equal. by apply IH.
  - rewrite decide_True by done.
    destruct (due_tasks_none now q) as [H1 H2]; [by eapply later_above|].
    unfold due_tasks, later_tasks in *. by rewrite H1, H2.
Qed.

Lemma filter_sorted (P : DelayedTask → Prop) `{!∀ x, Decision (P x)} q :
  sorted_tasks q → sorted_tasks (filter P q).
Proof.
  induction q as [|t q IH]; intros Hq; [done|]. apply sorted_tasks_cons in Hq as [Ht Hq].
  rewrite filter_cons. case_decide; [|auto]. apply sorted_tasks_cons. split; [|auto].
  by apply Forall_filter_sub.
Qed.

(** The tasks of an owner and of the queue it subsumes, in run order; ties
    go to the owner. *)
Definition run_order (own sub : DelayedTaskQueue) : DelayedTaskQueue :=
  list_merge task_le own sub.

Lemma run_order_nil_l sub : run_order [] sub = sub.
Proof. by destruct sub. Qed.

Lemma run_order_nil_r own : run_order own [] = own.
Proof. by destruct own. Qed.

Lemma run_order_cons t u own sub :
  run_order (t :: own) (u :: sub) =
    if DelayedTask_gt t u then u :: run_order (t :: own) sub else t :: run_order own (u :: sub).
Proof.
  unfold run_order at 1. cbn. case_decide as E; unfold task_le in E.
  - by rewrite E.
  - apply not_false_is_true in E. by rewrite E.
Qed.

Lemma run_order_perm own sub : run_order own sub ≡ₚ own ++ sub.
Proof. apply merge_Permutation. Qed.

Lemma run_order_sorted own sub :
  sorted_tasks own → sorted_tasks sub → sorted_tasks (run_order own sub).
Proof.
  intros H1 H2. apply Sorted_StronglySorted; [apply _|].
  apply Sorted_list_merge; [apply _|by apply StronglySorted_Sorted..].
Qed.

Lemma run_order_head_own t own sub :
  Forall (task_le t) sub → run_order (t :: own) sub = t :: run_order own sub.
Proof.
  destruct 1 as [|u sub Hu _]; [by rewrite !run_order_nil_r|].
  rewrite run_order_cons. unfold task_le in Hu. by rewrite Hu.
Qed.

Lemma run_order_head_sub u own sub :
  Forall (λ t, DelayedTask_gt t u = true) own → run_order own (u :: sub) = u :: run_order own sub.
Proof.
  destruct 1 as [|t own Ht _]; [by rewrite !run_order_nil_l|].
  rewrite run_order_cons. by rewrite Ht.
Qed.

Lemma task_gt_trans t t' u : DelayedTask_gt t u = true → task_le t t' → DelayedTask_gt t' u = true.
Proof.
  intros Hgt Hle. apply not_false_iff_true. intros Hle'. change (task_le t' u) in Hle'.
  assert (task_le t u) as Hc by (by etrans). unfold task_le in Hc. congruence.
Qed.

(** Merging commutes with selecting tasks. *)
Lemma run_order_filter (P : DelayedTask → Prop) `{!∀ x, Decision (P x)} own sub :
  sorted_tasks own → sorted_tasks sub →
  run_order (filter P own) (filter P sub) = filter P (run_order own sub).
Proof.
  intros Hown. revert sub. induction own as [|t own IHo]; intros sub Hsub.
  { rewrite !run_order_nil_l. done. }
  apply sorted_tasks_cons in Hown as [Ht Hown]. specialize (IHo Hown).
  induction sub as [|u sub IHs]; [by rewrite !run_order_nil_r|].
  apply sorted_tasks_cons in Hsub as Hsub'. destruct Hsub' as [Hu Hsub'].
  rewrite run_order_cons. destruct (DelayedTask_gt t u) eqn:Hgt.
  - rewrite (filter_cons P u (run_order _ _)), <- IHs by done. rewrite (filter_cons P u sub).
    case_decide; [|done]. rewrite run_order_head_sub; [done|].
    apply Forall_filter_sub. constructor; [done|]. eapply Forall_impl; [exact Ht|].
    intros. by eapply task_gt_trans.
  - rewrite (filter_cons P t (run_order _ _)), <- IHo by done. rewrite (filter_cons P t own).
    case_decide; [|done]. rewrite run_order_head_own; [done|].
    apply Forall_filter_sub. constructor; [done|]. eapply Forall_impl; [exact Hu|].
    intros v Hv. by trans u.
Qed.

(** When the queue must next be woken: at its first task, or never. *)
Definition next_wake (own sub : DelayedTaskQueue) : TimePoint.t :=
  match run_order own sub with [] => TimePoint.Max | t :: _ => GetTargetTime t end.

Lemma next_wake_min own sub t :
  sorted_tasks own → sorted_tasks sub → t ∈ own ++ sub →
  (next_wake own sub ≤ GetTargetTime t)%Z.
Proof.
  intros H1 H2. rewrite <- (run_order_perm own sub).
  pose proof (run_order_sorted _ _ H1 H2) as Hs. unfold next_wake.
  destruct (run_order own sub) as [|u q]; [by intros ?%elem_of_nil|].
  apply sorted_tasks_cons in Hs as [Hu _].
  intros [->|Ht]%elem_of_cons; [done|]. rewrite Forall_forall in Hu.
  by apply (task_le_time u t), Hu.
Qed.

Lemma run_order_later now own sub :
  sorted_tasks own → sorted_tasks sub →
  match run_order own sub with [] => True | t :: _ => ¬ due now t end →
  Forall (λ u, ¬ due now u) own ∧ Forall (λ u, ¬ due now u) sub.
Proof.
  intros H1 H2 Hd. rewrite <- Forall_app, <- (run_order_perm own sub).
  pose proof (run_order_sorted _ _ H1 H2) as Hs.
  destruct (run_order own sub) as [|t q]; [done|].
  apply sorted_tasks_cons in Hs as [Ht _]. constructor; [done|]. by eapply later_above.
Qed.
