(* ===== verification/TaskQueuesRun.v ===== *)
(** * TaskQueuesRun: what [GetTasksToRunNow] runs

    A queue that is not subsumed sees its own tasks and those of the queue
    it owns.  The loop of [GetTasksToRunNow] pops them in the merged order
    of [run_order]; the result is given here as an equation. *)

From Stdlib Require Import ZArith Lia.
From stdpp Require Import base sorting gmap numbers list.
From S2P Require Import Prelude Time StdMap TaskQueues TaskOrder.

(** [runnable q s own sub]: [q] is a live queue that is not subsumed, [own]
    its tasks and [sub] those of the queue it owns, if any. *)
Inductive runnable (q : TaskQueueId) (s : Queues) : DelayedTaskQueue → DelayedTaskQueue → Prop :=
  | runnable_alone e :
      queue_entries_ s !! q = Some e →
      subsumed_by e = kUnmerged → owner_of e = kUnmerged →
      runnable q s (delayed_tasks e) []
  | runnable_owner e e' :
      queue_entries_ s !! q = Some e →
      subsumed_by e = kUnmerged → owner_of e ≠ kUnmerged → owner_of e ≠ q →
      queue_entries_ s !! owner_of e = Some e' →
      runnable q s (delayed_tasks e) (delayed_tasks e').

(** [s] with the tasks visible to [q] replaced. *)
Definition put_tasks (q : TaskQueueId) (own sub : DelayedTaskQueue) (s : Queues) : Queues :=
  match queue_entries_ s !! q with
  | None => s
  | Some e =>
      let s1 := set_entry q (with_tasks own e) s in
      if (owner_of e =? kUnmerged)%Z then s1
      else match queue_entries_ s !! owner_of e with
           | None => s1
           | Some e' => set_entry (owner_of e) (with_tasks sub e') s1
           end
  end.

(** The wake-up that [WakeUpUnlocked] sends to a live queue. *)
Definition wake (q : TaskQueueId) (time : TimePoint.t) (s : Queues) : Queues :=
  match queue_entries_ s !! q ≫= wakeable with
  | Some w => log_wake w time s
  | None => s
  end.

Lemma with_tasks_id e : with_tasks (delayed_tasks e) e = e.
Proof. by destruct e. Qed.

Lemma with_tasks_with d1 d2 e : with_tasks d1 (with_tasks d2 e) = with_tasks d1 e.
Proof. done. Qed.

Lemma with_entries_id s : with_entries (queue_entries_ s) s = s.
Proof. by destruct s. Qed.

Lemma set_entry_id q e s : queue_entries_ s !! q = Some e → set_entry q e s = s.
Proof. intros. unfold set_entry. rewrite insert_id by done. apply with_entries_id. Qed.

Lemma set_entry_set q e1 e2 s : set_entry q e2 (set_entry q e1 s) = set_entry q e2 s.
Proof. unfold set_entry, with_entries; cbn. by rewrite insert_insert_eq. Qed.

Lemma set_entry_comm q1 q2 e1 e2 s :
  q1 ≠ q2 → set_entry q1 e1 (set_entry q2 e2 s) = set_entry q2 e2 (set_entry q1 e1 s).
Proof. intros. unfold set_entry, with_entries; cbn. by rewrite insert_insert_ne. Qed.

Lemma lookup_set_entry q e s : queue_entries_ (set_entry q e s) !! q = Some e.
Proof. apply lookup_insert_eq. Qed.

Lemma lookup_set_entry_ne q q' e s :
  q ≠ q' → queue_entries_ (set_entry q e s) !! q' = queue_entries_ s !! q'.
Proof. apply lookup_insert_ne. Qed.

Lemma entry_at_Some q s e : queue_entries_ s !! q = Some e → entry_at q s ⇓ e.
Proof. unfold entry_at. by intros ->. Qed.

Lemma entry_deref_Some q s e : queue_entries_ s !! q = Some e → entry_deref q s ⇓ e.
Proof. unfold entry_deref. by intros ->. Qed.

#[export] Hint Resolve entry_at_Some entry_deref_Some lookup_set_entry : engine.

Lemma runnable_live q s own sub : runnable q s own sub → is_Some (queue_entries_ s !! q).
Proof. destruct 1; eauto. Qed.

Lemma WakeUpUnlocked_live q time s :
  is_Some (queue_entries_ s !! q) → WakeUpUnlocked q time s ⇓ wake q time s.
Proof.
  intros [e He]. unfold WakeUpUnlocked, wake. rewrite (entry_at_Some _ _ _ He), He. cbn.
  by destruct (wakeable e).
Qed.

Ltac simpl_links :=
  repeat (match goal with
  | H : subsumed_by ?e = kUnmerged |- context [subsumed_by ?e] => rewrite H
  | H : owner_of ?e = kUnmerged |- context [owner_of ?e] => rewrite H
  | H : owner_of ?e ≠ kUnmerged |- context [(owner_of ?e =? kUnmerged)%Z] =>
      rewrite (proj2 (Z.eqb_neq (owner_of e) kUnmerged) H)
  | H : queue_entries_ ?s !! ?q = Some ?e |- context [entry_at ?q ?s] =>
      rewrite (entry_at_Some _ _ _ H)
  | H : queue_entries_ ?s !! ?q = Some ?e |- context [entry_deref ?q ?s] =>
      rewrite (entry_deref_Some _ _ _ H)
  | |- context [(kUnmerged =? kUnmerged)%Z] => rewrite Z.eqb_refl
  end; cbn [mbind result_bind mret result_ret negb]).

Lemma runnable_put q s own sub own' sub' :
  runnable q s own sub → (sub = [] → sub' = []) →
  runnable q (put_tasks q own' sub' s) own' sub'.
Proof.
  intros Hr Hsub. unfold put_tasks.
  destruct Hr as [e He Hs Ho|e e' He Hs Ho Hq He']; rewrite He; simpl_links.
  - rewrite Hsub by done.
    apply (runnable_alone q _ (with_tasks own' e)); [apply lookup_set_entry|done..].
  - rewrite He'. eapply (runnable_owner q _ (with_tasks own' e) (with_tasks sub' e')); try done.
    + rewrite lookup_set_entry_ne by done. apply lookup_set_entry.
    + apply lookup_set_entry.
Qed.

Lemma put_tasks_id q s own sub : runnable q s own sub → put_tasks q own sub s = s.
Proof.
  unfold put_tasks. intros [e He Hs Ho|e e' He Hs Ho Hq He']; rewrite He; simpl_links.
  - by rewrite with_tasks_id, set_entry_id.
  - rewrite He', !with_tasks_id. rewrite (set_entry_id q) by done. by apply set_entry_id.
Qed.

Lemma put_tasks_put q s own sub own1 sub1 own2 sub2 :
  runnable q s own sub →
  put_tasks q own2 sub2 (put_tasks q own1 sub1 s) = put_tasks q own2 sub2 s.
Proof.
  intros [e He Hs Ho|e e' He Hs Ho Hq He']; unfold put_tasks at 2 3; rewrite He; simpl_links.
  - unfold put_tasks. rewrite lookup_set_entry. change (owner_of (with_tasks own1 e)) with (owner_of e).
    simpl_links. by rewrite set_entry_set, with_tasks_with.
  - rewrite He'. unfold put_tasks. rewrite lookup_set_entry_ne, lookup_set_entry by done.
    change (owner_of (with_tasks own1 e)) with (owner_of e). simpl_links.
    rewrite lookup_set_entry, !with_tasks_with.
    rewrite (set_entry_comm q (owner_of e)), set_entry_set, set_entry_set by done. done.
Qed.

Lemma put_tasks_own q s e e' own' :
  queue_entries_ s !! q = Some e → owner_of e ≠ kUnmerged → owner_of e ≠ q →
  queue_entries_ s !! owner_of e = Some e' →
  put_tasks q own' (delayed_tasks e') s = set_entry q (with_tasks own' e) s.
Proof.
  intros He Ho Hq He'. unfold put_tasks. rewrite He; simpl_links. rewrite He', with_tasks_id.
  apply set_entry_id. by rewrite lookup_set_entry_ne.
Qed.

Lemma put_tasks_sub q s e e' sub' :
  queue_entries_ s !! q = Some e → owner_of e ≠ kUnmerged →
  queue_entries_ s !! owner_of e = Some e' →
  put_tasks q (delayed_tasks e) sub' s = set_entry (owner_of e) (with_tasks sub' e') s.
Proof.
  intros He Ho He'. unfold put_tasks. rewrite He; simpl_links.
  by rewrite He', with_tasks_id, (set_entry_id q).
Qed.

(** ** Peeking and popping *)
Section run.
Context `{Build}.

Lemma pending_runnable q s own sub :
  runnable q s own sub →
  HasPendingTasksUnlocked q s ⇓ negb (pq_empty (run_order own sub)).
Proof.
  unfold HasPendingTasksUnlocked.
  intros [e He Hs Ho|e e' He Hs Ho Hq He']; simpl_links.
  - destruct (delayed_tasks e); done.
  - destruct (delayed_tasks e) as [|t l]; cbn [pq_empty negb]; simpl_links.
    + by destruct (delayed_tasks e').
    + destruct (delayed_tasks e') as [|u l']; cbn; [done|]. by case_decide.
Qed.

(** [pops q s t own' sub']: popping the queue that holds the next task [t]
    leaves [own'] and [sub'] visible to [q]. *)
Lemma peek_runnable q s own sub t rest :
  runnable q s own sub → run_order own sub = t :: rest →
  ∃ tq e tasks own' sub',
    PeekNextTaskUnlocked q s ⇓ (t, tq) ∧
    queue_entries_ s !! tq = Some e ∧ pq_pop (delayed_tasks e) ⇓ tasks ∧
    set_entry tq (with_tasks tasks e) s = put_tasks q own' sub' s ∧
    run_order own' sub' = rest ∧
    ((own = t :: own' ∧ sub' = sub) ∨ (sub = t :: sub' ∧ own' = own)).
Proof.
  intros Hr Hro. pose proof (pending_runnable _ _ _ _ Hr) as Hp. rewrite Hro in Hp; cbn in Hp.
  unfold PeekNextTaskUnlocked. rewrite Hp; cbn. rewrite fml_dcheck_true; cbn.
  destruct Hr as [e He Hs Ho|e e' He Hs Ho Hq He']; simpl_links.
  - rewrite run_order_nil_r in Hro. rewrite Hro; cbn.
    exists q, e, rest, rest, []. rewrite He, Hro. split_and!; try done.
    + unfold put_tasks. rewrite He. by simpl_links.
    + apply run_order_nil_r.
    + by left.
  - destruct (delayed_tasks e) as [|t0 own0] eqn:Eo, (delayed_tasks e') as [|u0 sub0] eqn:Es;
      cbn [pq_empty negb andb pq_top head of_option mbind result_bind mret result_ret].
    + done.
    + injection Hro as -> ->. simpl_links. rewrite Es; cbn.
      exists (owner_of e), e', rest, [], rest. rewrite He', Es. split_and!; try done; [|by destruct rest|by right].
      by rewrite <- (put_tasks_sub q s e e' rest), Eo.
    + injection Hro as -> ->. simpl_links. rewrite Eo; cbn.
      exists q, e, rest, rest, []. rewrite He, Eo. split_and!; try done; [|by destruct rest|by left].
      by rewrite <- (put_tasks_own q s e e' rest), Es.
    + rewrite run_order_cons in Hro.
      destruct (DelayedTask_gt t0 u0) eqn:Hgt.
      * injection Hro as -> <-.
        simpl_links. rewrite Es; cbn.
        exists (owner_of e), e', sub0, (t0 :: own0), sub0. rewrite He', Es. split_and!; try done; [|by right].
        by rewrite <- (put_tasks_sub q s e e' sub0), Eo.
      * injection Hro as -> <-.
        simpl_links. rewrite Eo; cbn.
        exists q, e, own0, own0, (u0 :: sub0). rewrite He, Eo. split_and!; try done; [|by left].
        by rewrite <- (put_tasks_own q s e e' own0), Es.
Qed.

(** The loop runs every due task visible to [q], in run order, and leaves
    the others; the number of visible tasks is fuel enough. *)
Lemma run_now_loop_all fuel q now invocations s own sub :
  runnable q s own sub → sorted_tasks own → sorted_tasks sub →
  length own + length sub < fuel →
  run_now_loop fuel q kAll now invocations s ⇓
    (invocations ++ (GetTask <$> run_order (due_tasks now own) (due_tasks now sub)),
     put_tasks q (later_tasks now own) (later_tasks now sub) s).
Proof.
  revert invocations s own sub.
  induction fuel as [|fuel IH]; intros invocations s own sub Hr Hown Hsub Hfuel; [lia|].
  cbn [run_now_loop]. rewrite (pending_runnable _ _ _ _ Hr); cbn [mbind result_bind].
  pose proof (run_order_later now _ _ Hown Hsub) as Hlater.
  assert (Hdone : Forall (λ u, ¬ due now u) own ∧ Forall (λ u, ¬ due now u) sub →
    (invocations, s) =
    (invocations ++ (GetTask <$> run_order (due_tasks now own) (due_tasks now sub)),
     put_tasks q (later_tasks now own) (later_tasks now sub) s)).
  { intros [[H1 H2]%due_tasks_none [H3 H4]%due_tasks_none]. rewrite H1, H2, H3, H4. cbn.
    by rewrite app_nil_r, (put_tasks_id _ _ _ _ Hr). }
  destruct (run_order own sub) as [|t rest] eqn:Hro; cbn [pq_empty negb].
  { by rewrite <- Hdone by auto. }
  destruct (peek_runnable _ _ _ _ _ _ Hr Hro)
    as (tq & e & tasks & own' & sub' & Hpeek & He & Hpop & Hput & Hro' & Hcase).
  rewrite Hpeek; cbn [mbind result_bind].
  destruct (Z.ltb_spec now (GetTargetTime t)) as [Hnow|Hnow].
  { rewrite <- Hdone; [done|]. apply Hlater. unfold due. lia. }
  rewrite (entry_deref_Some _ _ _ He); cbn [mbind result_bind]. rewrite Hpop; cbn [mbind result_bind].
  rewrite Hput.
  assert (Hr' : runnable q (put_tasks q own' sub' s) own' sub').
  { eapply runnable_put; [done|]. destruct Hcase as [[_ ->]|[-> ->]]; [done|by intros]. }
  assert (Hd : due now t) by (unfold due; lia).
  assert (Hs' : sorted_tasks own' ∧ sorted_tasks sub' ∧ length own' + length sub' < fuel ∧
    later_tasks now own' = later_tasks now own ∧ later_tasks now sub' = later_tasks now sub).
  { unfold later_tasks. destruct Hcase as [[-> ->]|[-> ->]]; cbn in Hfuel;
      (apply sorted_tasks_cons in Hown as [_ Hown] || apply sorted_tasks_cons in Hsub as [_ Hsub]);
      rewrite filter_cons_False by naive_solver; split_and!; try done; cbn in *; lia. }
  destruct Hs' as (Hown' & Hsub' & Hlen & Hl1 & Hl2).
  rewrite (IH _ _ _ _ Hr') by done. rewrite (put_tasks_put q s own sub), Hl1, Hl2 by done.
  unfold due_tasks. rewrite !run_order_filter, Hro, Hro' by done.
  rewrite filter_cons_True by done. by rewrite <- (assoc_L (++)).
Qed.

(** With [kSingle] the loop stops after the first due task. *)
Lemma run_now_loop_single fuel q now invocations s own sub :
  runnable q s own sub →
  ∃ own' sub', let ran := filter (due now) (take 1 (run_order own sub)) in
    run_now_loop (S fuel) q kSingle now invocations s ⇓
      (invocations ++ (GetTask <$> ran), put_tasks q own' sub' s) ∧
    runnable q (put_tasks q own' sub' s) own' sub' ∧
    run_order own sub = ran ++ run_order own' sub' ∧
    own' `suffix_of` own ∧ sub' `suffix_of` sub.
Proof.
  intros Hr. cbn [run_now_loop]. rewrite (pending_runnable _ _ _ _ Hr); cbn [mbind result_bind].
  destruct (run_order own sub) as [|t rest] eqn:Hro; cbn [pq_empty negb take].
  { exists own, sub. cbn. rewrite (put_tasks_id _ _ _ _ Hr), app_nil_r, Hro. done. }
  destruct (peek_runnable _ _ _ _ _ _ Hr Hro)
    as (tq & e & tasks & own' & sub' & Hpeek & He & Hpop & Hput & Hro' & Hcase).
  rewrite Hpeek; cbn [mbind result_bind].
  destruct (Z.ltb_spec now (GetTargetTime t)) as [Hnow|Hnow].
  { exists own, sub. rewrite filter_cons_False by (unfold due; lia). cbn.
    rewrite (put_tasks_id _ _ _ _ Hr), app_nil_r, Hro. done. }
  rewrite (entry_deref_Some _ _ _ He); cbn [mbind result_bind]. rewrite Hpop; cbn [mbind result_bind].
  exists own', sub'. rewrite Hput, filter_cons_True by (unfold due; lia). split_and!; [done| |by rewrite Hro'|..].
  - eapply runnable_put; [done|]. destruct Hcase as [[_ ->]|[-> ->]]; [done|by intros].
  - destruct Hcase as [[-> ->]|[-> ->]]; [by apply suffix_cons_r|done].
  - destruct Hcase as [[-> ->]|[-> ->]]; [done|by apply suffix_cons_r].
Qed.
End run.
