(* ===== verification/TaskQueuesInv.v ===== *)
(** * TaskQueuesInv: the invariant of the task-queue registry

    [wf] states the comment of [TaskQueueEntry] (at most one of [owner_of]
    and [subsumed_by] is set) together with what the code relies on without
    saying it: the two links are mutual, every live queue has a mutex, ids
    are never reused, and every priority queue is in pop order.  Every
    public call that respects its documented preconditions returns, in both
    build modes, and preserves [wf]. *)

From Stdlib Require Import ZArith Lia.
From stdpp Require Import base sorting gmap numbers list.
From S2P Require Import Prelude Time StdMap TaskQueues TaskOrder TaskQueuesRun.

(** The merge links of a live queue: [owner_of] and [subsumed_by]. *)
Definition links (s : Queues) (q : TaskQueueId) : option (TaskQueueId * TaskQueueId) :=
  (λ e, (owner_of e, subsumed_by e)) <$> queue_entries_ s !! q.

Definition links_ok (s : Queues) : Prop :=
  ∀ q o b, links s q = Some (o, b) →
    (o ≠ kUnmerged → o ≠ q ∧ b = kUnmerged ∧ ∃ o', links s o = Some (o', q)) ∧
    (b ≠ kUnmerged → o = kUnmerged ∧ ∃ b', links s b = Some (q, b')).

Record wf (s : Queues) : Prop := {
  wf_counter : (0 ≤ task_queue_id_counter_ s ≤ 2 ^ 31)%Z;
  wf_locks q : q ∈ queue_locks_ s → (0 ≤ q < task_queue_id_counter_ s)%Z;
  wf_live q : is_Some (links s q) → q ∈ queue_locks_ s;
  wf_links : links_ok s;
  wf_tasks q e : queue_entries_ s !! q = Some e → sorted_tasks (delayed_tasks e);
}.

Lemma links_Some s q o b :
  links s q = Some (o, b) ↔ ∃ e, queue_entries_ s !! q = Some e ∧ owner_of e = o ∧ subsumed_by e = b.
Proof. unfold links. rewrite fmap_Some. naive_solver. Qed.

Lemma links_entry s q e : queue_entries_ s !! q = Some e → links s q = Some (owner_of e, subsumed_by e).
Proof. unfold links. by intros ->. Qed.

Lemma links_live s q : is_Some (links s q) ↔ is_Some (queue_entries_ s !! q).
Proof. unfold links. by rewrite fmap_is_Some. Qed.

Lemma kUnmerged_eq : kUnmerged = (-1)%Z.
Proof. reflexivity. Qed.

#[global] Opaque kUnmerged.

Lemma new_queues_wf : wf new_queues.
Proof.
  split; unfold links_ok, links; cbn; try setoid_rewrite lookup_empty; cbn; try done; try lia.
  all: intros q Hq; set_solver.
Qed.

Lemma live_not_unmerged s q e : wf s → queue_entries_ s !! q = Some e → q ≠ kUnmerged.
Proof.
  intros Hwf He%links_entry. pose proof (wf_live s Hwf q (mk_is_Some _ _ He)) as Hl.
  apply (wf_locks s Hwf) in Hl. rewrite kUnmerged_eq. lia.
Qed.

Lemma wf_dead s : wf s → queue_entries_ s !! kUnmerged = None.
Proof. intros Hwf. apply eq_None_not_Some. intros [e He]. by eapply live_not_unmerged. Qed.

(** Under [wf] a live queue is subsumed or runnable. *)
Lemma wf_runnable s q e :
  wf s → queue_entries_ s !! q = Some e → subsumed_by e = kUnmerged →
  ∃ sub, runnable q s (delayed_tasks e) sub ∧ sorted_tasks (delayed_tasks e) ∧ sorted_tasks sub ∧
    (owner_of e = kUnmerged → sub = []).
Proof.
  intros Hwf He Hs. pose proof (wf_links s Hwf q _ _ (links_entry _ _ _ He)) as [Ho _].
  pose proof (wf_tasks s Hwf q e He) as Ht.
  destruct (decide (owner_of e = kUnmerged)) as [Hu|Hu].
  - exists []. split_and!; [by apply runnable_alone|done|constructor|done].
  - destruct (Ho Hu) as (Hq & _ & o' & (e' & He' & _)%links_Some). exists (delayed_tasks e').
    split_and!; [by apply runnable_owner|done|by eapply wf_tasks|done].
Qed.

Lemma wf_runnable_sorted s q own sub :
  wf s → runnable q s own sub → sorted_tasks own ∧ sorted_tasks sub.
Proof.
  intros Hwf [e He Hs Ho|e e' He Hs Ho Hq He']; (split; [by eapply wf_tasks|]).
  - constructor.
  - by eapply wf_tasks.
Qed.

(** ** Updates that keep the links *)

Definition same_links (s s' : Queues) : Prop :=
  task_queue_id_counter_ s' = task_queue_id_counter_ s ∧ queue_locks_ s' = queue_locks_ s ∧
  ∀ q, links s' q = links s q.

#[export] Instance same_links_refl : Reflexive same_links.
Proof. done. Qed.

#[export] Instance same_links_trans : Transitive same_links.
Proof.
  intros s1 s2 s3 (Hc & Hl & He) (Hc' & Hl' & He'). split_and!; [congruence..|].
  intros q. by rewrite He'.
Qed.

Lemma links_set q e s q' :
  links (set_entry q e s) q' = if decide (q = q') then Some (owner_of e, subsumed_by e) else links s q'.
Proof. unfold links, set_entry; cbn. rewrite lookup_insert. by case_decide. Qed.

Lemma same_links_set q e e' s :
  queue_entries_ s !! q = Some e →
  owner_of e' = owner_of e → subsumed_by e' = subsumed_by e →
  same_links s (set_entry q e' s).
Proof.
  intros He%links_entry Ho Hs. split_and!; try done. intros q'.
  rewrite links_set. case_decide; subst; congruence.
Qed.

Lemma same_links_wake q t s : same_links s (wake q t s).
Proof. unfold wake. by destruct (_ ≫= _). Qed.

Lemma queue_entries_wake q t s : queue_entries_ (wake q t s) = queue_entries_ s.
Proof. unfold wake. by destruct (_ ≫= _). Qed.

Lemma same_links_wf s s' :
  wf s → same_links s s' →
  (∀ q e, queue_entries_ s' !! q = Some e → sorted_tasks (delayed_tasks e)) → wf s'.
Proof.
  intros Hwf (Hc & Hl & He) Ht. split; [..|done].
  - rewrite Hc. apply wf_counter, Hwf.
  - intros q. rewrite Hl, Hc. apply wf_locks, Hwf.
  - intros q. rewrite Hl, He. apply wf_live, Hwf.
  - intros q o b. rewrite He. intros [H1 H2]%(wf_links s Hwf). setoid_rewrite He. done.
Qed.

Lemma same_links_put q own sub own' sub' s :
  runnable q s own sub → same_links s (put_tasks q own' sub' s).
Proof.
  unfold put_tasks. intros [e He Hs Ho|e e' He Hs Ho Hq He']; rewrite He; simpl_links.
  - by eapply same_links_set.
  - rewrite He'. etrans; [by apply (same_links_set q e (with_tasks own' e))|].
    eapply same_links_set; [by rewrite lookup_set_entry_ne|done..].
Qed.

Lemma put_tasks_lookup q own sub own' sub' s q' e' :
  runnable q s own sub → queue_entries_ (put_tasks q own' sub' s) !! q' = Some e' →
  delayed_tasks e' = own' ∨ delayed_tasks e' = sub' ∨ queue_entries_ s !! q' = Some e'.
Proof.
  unfold put_tasks, set_entry. intros [e He Hs Ho|e e1 He Hs Ho Hq He']; rewrite He; simpl_links;
    [|rewrite He']; cbn; rewrite !lookup_insert; intros; repeat case_decide; simplify_eq; auto.
Qed.

Lemma put_tasks_wf q own sub own' sub' s :
  wf s → runnable q s own sub → sorted_tasks own' → sorted_tasks sub' →
  wf (put_tasks q own' sub' s).
Proof.
  intros Hwf Hr Ho Hs. eapply same_links_wf; [done|by eapply same_links_put|].
  intros q' e' He'. destruct (put_tasks_lookup _ _ _ _ _ _ _ _ Hr He') as [->|[->|He]]; [done..|].
  by eapply wf_tasks.
Qed.

Lemma wake_wf q t s : wf s → wf (wake q t s).
Proof.
  intros Hwf. eapply same_links_wf; [done|apply same_links_wake|].
  intros q' e. rewrite queue_entries_wake. by apply wf_tasks.
Qed.

#[export] Hint Resolve put_tasks_wf wake_wf new_queues_wf : engine.
