(* ===== verification/TaskQueuesSpec.v ===== *)
(** * TaskQueuesSpec: the contract of the task-queue registry

    The public calls as steps of a state machine, the invariant along every
    sequence of legal calls, and the functional behaviour of the calls that
    decide which tasks run, in which order, and when the loop is woken. *)

From Stdlib Require Import ZArith Lia.
From stdpp Require Import base sorting gmap numbers list.
From S2P Require Import Prelude Time StdMap TaskQueues TaskOrder TaskQueuesRun TaskQueuesInv.

(** The calls that change the registry. *)
Inductive call :=
  | CreateTaskQueueC
  | DisposeC (q : TaskQueueId)
  | DisposeTasksC (q : TaskQueueId)
  | RegisterTaskC (q : TaskQueueId) (task : closure) (target_time : TimePoint.t)
  | GetTasksToRunNowC (q : TaskQueueId) (type : FlushType) (now : TimePoint.t)
  | AddTaskObserverC (q : TaskQueueId) (key : Z) (callback : closure)
  | RemoveTaskObserverC (q : TaskQueueId) (key : Z)
  | SetWakeableC (q : TaskQueueId) (w : option nat)
  | MergeC (owner subsumed : TaskQueueId)
  | UnmergeC (owner : TaskQueueId).

Definition live (s : Queues) (q : TaskQueueId) : Prop := is_Some (queue_entries_ s !! q).

(** The preconditions the callers keep: the queue exists, it is not subsumed
    when it is disposed of, callbacks are not null, a wakeable is set once,
    and fewer than [2^31] queues are created. *)
Definition legal (c : call) (s : Queues) : Prop :=
  match c with
  | CreateTaskQueueC => (task_queue_id_counter_ s < 2 ^ 31)%Z
  | DisposeC q | DisposeTasksC q =>
      ∃ e, queue_entries_ s !! q = Some e ∧ subsumed_by e = kUnmerged
  | AddTaskObserverC q _ callback => live s q ∧ is_Some callback
  | SetWakeableC q _ => ∃ e, queue_entries_ s !! q = Some e ∧ wakeable e = None
  | MergeC owner subsumed => owner = subsumed ∨ live s owner ∧ live s subsumed
  | RegisterTaskC q _ _ | GetTasksToRunNowC q _ _ | RemoveTaskObserverC q _ | UnmergeC q => live s q
  end.

Section spec.
Context `{Build}.

Definition exec (c : call) (s : Queues) : result Queues :=
  match c with
  | CreateTaskQueueC => mret (CreateTaskQueue s).2
  | DisposeC q => Dispose q s
  | DisposeTasksC q => DisposeTasks q s
  | RegisterTaskC q task target_time => RegisterTask q task target_time s
  | GetTasksToRunNowC q type now => r ← GetTasksToRunNow q type now [] s; mret r.2
  | AddTaskObserverC q key callback => AddTaskObserver q key callback s
  | RemoveTaskObserverC q key => RemoveTaskObserver q key s
  | SetWakeableC q w => SetWakeable q w s
  | MergeC owner subsumed => r ← Merge owner subsumed s; mret r.2
  | UnmergeC owner => r ← Unmerge owner s; mret r.2
  end.

Inductive reachable : Queues → Prop :=
  | reachable_new : reachable new_queues
  | reachable_step c s s' : reachable s → legal c s → exec c s ⇓ s' → reachable s'.

(** ** Each call on a well-formed registry *)

Lemma lock_at_wf q s : wf s → live s q → lock_at q s ⇓ tt.
Proof.
  intros Hwf Hq%links_live. unfold lock_at. by rewrite bool_decide_eq_true_2 by by apply wf_live.
Qed.

Lemma GetMutex_wf q s : wf s → live s q → GetMutex q s ⇓ tt.
Proof.
  intros Hwf Hq. unfold GetMutex.
  rewrite !bool_decide_eq_true_2; [|done|by apply wf_live, links_live]. cbn.
  rewrite fml_dcheck_true. by apply lock_at_wf.
Qed.

Lemma set_entry_wf q e e' s :
  wf s → queue_entries_ s !! q = Some e →
  owner_of e' = owner_of e → subsumed_by e' = subsumed_by e → sorted_tasks (delayed_tasks e') →
  wf (set_entry q e' s).
Proof.
  intros Hwf He Ho Hs Ht. eapply same_links_wf; [done|by eapply same_links_set|].
  intros q' e1. unfold set_entry; cbn. rewrite lookup_insert. case_decide; [naive_solver|].
  by apply wf_tasks.
Qed.

Lemma Create_wf s :
  wf s → (task_queue_id_counter_ s < 2 ^ 31)%Z →
  wf (CreateTaskQueue s).2 ∧ (CreateTaskQueue s).1 = task_queue_id_counter_ s ∧
  queue_entries_ s !! (CreateTaskQueue s).1 = None.
Proof.
  intros Hwf Hc. pose proof (wf_counter s Hwf).
  assert (Hid : make_TaskQueueId (task_queue_id_counter_ s) = task_queue_id_counter_ s).
  { apply wrapS_id; lia. }
  assert (Hnone : links s (task_queue_id_counter_ s) = None).
  { apply eq_None_not_Some. intros Hl%(wf_live s Hwf)%(wf_locks s Hwf). lia. }
  assert (Hk : task_queue_id_counter_ s ≠ kUnmerged) by (rewrite kUnmerged_eq; lia).
  split_and!; cbn; [|done|rewrite Hid; unfold links in Hnone; by apply fmap_None in Hnone].
  assert (Hlinks : ∀ q, links (CreateTaskQueue s).2 q =
    if decide (task_queue_id_counter_ s = q) then Some (kUnmerged, kUnmerged) else links s q).
  { intros q. unfold links; cbn. rewrite Hid, lookup_insert. by repeat case_decide. }
  split.
  - cbn. rewrite wrapU_id; lia.
  - intros q. cbn. rewrite Hid, wrapU_id, elem_of_union, elem_of_singleton by lia.
    intros [->|Hq%(wf_locks s Hwf)]; lia.
  - intros q. rewrite Hlinks. cbn. rewrite Hid. case_decide; [set_solver|].
    intros Hq%(wf_live s Hwf). set_solver.
  - intros q o b. setoid_rewrite Hlinks.
    case_decide as Hq; [naive_solver|]. intros Hq'. pose proof (wf_links s Hwf _ _ _ Hq') as [H1 H2].
    split; intros Hu; [destruct (H1 Hu) as (? & ? & o' & Ho)|destruct (H2 Hu) as (? & b' & Hb)];
      rewrite decide_False by congruence; eauto.
  - intros q e. cbn. rewrite Hid, lookup_insert. case_decide; [|by apply wf_tasks].
    intros [= <-]. constructor.
Qed.

Lemma Register_eq q task time s e :
  wf s → queue_entries_ s !! q = Some e →
  let tasks := pq_push (mkDelayedTask (next_order s) task time) (delayed_tasks e) in
  let loop := if decide (subsumed_by e = kUnmerged) then q else subsumed_by e in
  ∃ top, head tasks = Some top ∧
  RegisterTask q task time s ⇓
    wake loop (GetTargetTime top) (set_entry q (with_tasks tasks e) (bump_order s)).
Proof.
  intros Hwf He tasks loop.
  assert (∃ top, head tasks = Some top) as [top Htop].
  { unfold tasks. destruct (delayed_tasks e); cbn; [eauto|]. case_match; eauto. }
  exists top. split; [done|]. unfold RegisterTask. rewrite GetMutex_wf by (unfold live; eauto). cbn [mbind result_bind].
  assert (queue_entries_ (bump_order s) !! q = Some e) as He' by done.
  rewrite (entry_deref_Some _ _ _ He'). cbn [mbind result_bind delayed_tasks with_tasks].
  unfold pq_top. fold tasks. rewrite Htop; cbn [of_option mbind result_bind subsumed_by with_tasks].
  assert (Hloop : (if negb (subsumed_by e =? kUnmerged)%Z then subsumed_by e else q) = loop).
  { unfold loop. case_decide as Hu; [by rewrite Hu|]. by rewrite (proj2 (Z.eqb_neq _ _) Hu). }
  rewrite Hloop. apply WakeUpUnlocked_live. unfold set_entry; cbn. rewrite lookup_insert.
  case_decide; [by eexists|]. unfold loop in *. case_decide as Hu; [done|].
  destruct (wf_links s Hwf q _ _ (links_entry _ _ _ He)) as [_ H2].
  destruct (H2 Hu) as (_ & b' & Hb). by apply links_live.
Qed.

(** ** Waking and running *)

Lemma GetNextWakeTime_runnable q s own sub :
  runnable q s own sub → run_order own sub ≠ [] →
  GetNextWakeTimeUnlocked q s ⇓ next_wake own sub.
Proof.
  intros Hr Hne. unfold GetNextWakeTimeUnlocked, next_wake.
  destruct (run_order own sub) as [|t rest] eqn:Hro; [done|].
  destruct (peek_runnable _ _ _ _ _ _ Hr Hro) as (tq & e & ? & ? & ? & Hpeek & _).
  by rewrite Hpeek.
Qed.

(** The state after [wake_if_pending]. *)
Definition wake_pending (q : TaskQueueId) (own sub : DelayedTaskQueue) (s : Queues) : Queues :=
  if pq_empty (run_order own sub) then s else wake q (next_wake own sub) s.

Lemma wake_if_pending_runnable q s own sub :
  runnable q s own sub → wake_if_pending q s ⇓ wake_pending q own sub s.
Proof.
  intros Hr. unfold wake_if_pending, wake_pending.
  rewrite (pending_runnable _ _ _ _ Hr); cbn [mbind result_bind].
  destruct (pq_empty (run_order own sub)) eqn:He; cbn; [done|].
  rewrite (GetNextWakeTime_runnable _ _ own sub) by (done || by intros Hn; rewrite Hn in He). cbn.
  by apply WakeUpUnlocked_live, (runnable_live _ _ own sub).
Qed.

Lemma wake_pending_wf q own sub s : wf s → wf (wake_pending q own sub s).
Proof. unfold wake_pending. case_match; auto with engine. Qed.

Lemma pending_subsumed q s e :
  queue_entries_ s !! q = Some e → subsumed_by e ≠ kUnmerged → HasPendingTasksUnlocked q s ⇓ false.
Proof.
  intros He Hu. unfold HasPendingTasksUnlocked. rewrite (entry_at_Some _ _ _ He); cbn.
  by rewrite (proj2 (Z.eqb_neq _ _) Hu).
Qed.

(** Both exits of [GetTasksToRunNow] wake the queue at its next task's time,
    or at [TimePoint::Max()] when none is left. *)
Lemma GetTasks_rearm q s own sub (invocations : list closure) :
  runnable q s own sub →
  (pending ← HasPendingTasksUnlocked q s;
   if negb pending then s ← WakeUpUnlocked q TimePoint.Max s; mret (invocations, s)
   else time ← GetNextWakeTimeUnlocked q s; s ← WakeUpUnlocked q time s; mret (invocations, s)) ⇓
  (invocations, wake q (next_wake own sub) s).
Proof.
  intros Hr. rewrite (pending_runnable _ _ _ _ Hr); cbn [mbind result_bind].
  pose proof (WakeUpUnlocked_live q (next_wake own sub) s (runnable_live _ _ _ _ Hr)) as Hw.
  destruct (run_order own sub) as [|t rest] eqn:Hro; cbn [pq_empty negb].
  - unfold next_wake in *. rewrite Hro in *. by rewrite Hw.
  - rewrite (GetNextWakeTime_runnable _ _ own sub) by (done || by rewrite Hro). cbn. by rewrite Hw.
Qed.

Lemma GetTasks_idle q s type now invocations :
  wf s → live s q → HasPendingTasksUnlocked q s ⇓ false →
  GetTasksToRunNow q type now invocations s ⇓ (invocations, s).
Proof. intros Hwf Hq Hp. unfold GetTasksToRunNow. by rewrite GetMutex_wf, Hp. Qed.

Lemma visible_tasks_runnable q s own sub :
  wf s → runnable q s own sub → length own + length sub ≤ visible_tasks q s.
Proof.
  intros Hwf [e He Hs Ho|e e' He Hs Ho Hq He']; unfold visible_tasks; rewrite He.
  - cbn; lia.
  - rewrite He'. done.
Qed.

Lemma GetTasks_all_eq q now invocations s own sub :
  wf s → runnable q s own sub → run_order own sub ≠ [] →
  GetTasksToRunNow q kAll now invocations s ⇓
    (invocations ++ (GetTask <$> due_tasks now (run_order own sub)),
     wake q (next_wake (later_tasks now own) (later_tasks now sub))
       (put_tasks q (later_tasks now own) (later_tasks now sub) s)).
Proof.
  intros Hwf Hr Hne. destruct (wf_runnable_sorted _ _ _ _ Hwf Hr) as [Ho Hs].
  unfold GetTasksToRunNow. rewrite GetMutex_wf by (done || by eapply runnable_live). cbn [mbind result_bind].
  rewrite (pending_runnable _ _ _ _ Hr). destruct (run_order own sub) as [|t rest] eqn:Hro; [done|].
  cbn [mbind result_bind pq_empty negb].
  rewrite (run_now_loop_all _ q now invocations s own sub) by
    (try done; pose proof (visible_tasks_runnable _ _ _ _ Hwf Hr); lia).
  cbn [mbind result_bind]. unfold due_tasks. rewrite run_order_filter, Hro by done.
  apply GetTasks_rearm. eapply runnable_put; [done|]. by intros ->.
Qed.

Lemma GetTasks_single_eq q now invocations s own sub :
  wf s → runnable q s own sub → run_order own sub ≠ [] →
  ∃ own' sub',
    let ran := filter (due now) (take 1 (run_order own sub)) in
    GetTasksToRunNow q kSingle now invocations s ⇓
      (invocations ++ (GetTask <$> ran), wake q (next_wake own' sub') (put_tasks q own' sub' s)) ∧
    run_order own sub = ran ++ run_order own' sub' ∧
    runnable q (put_tasks q own' sub' s) own' sub' ∧
    own' `suffix_of` own ∧ sub' `suffix_of` sub.
Proof.
  intros Hwf Hr Hne. destruct (wf_runnable_sorted _ _ _ _ Hwf Hr) as [Ho Hs].
  destruct (run_now_loop_single (visible_tasks q s) q now invocations s own sub Hr)
    as (own' & sub' & Hloop & Hr' & Hro' & Hsuf1 & Hsuf2).
  exists own', sub'. split_and!; eauto.
  unfold GetTasksToRunNow. rewrite GetMutex_wf by (done || by eapply runnable_live). cbn [mbind result_bind].
  rewrite (pending_runnable _ _ _ _ Hr). cbn [mbind result_bind].
  destruct (run_order own sub) as [|t rest] eqn:Hro; [done|]. cbn [pq_empty negb].
  rewrite Hloop. cbn [mbind result_bind]. by apply GetTasks_rearm.
Qed.

(** ** Merging and unmerging *)

(** The links [Merge] writes. *)
Definition link owner owner_entry subsumed subsumed_entry (s : Queues) : Queues :=
  set_entry subsumed (with_subsumed_by owner subsumed_entry)
    (set_entry owner (with_owner_of subsumed owner_entry) s).

Lemma link_wf owner subsumed oe se s :
  wf s → owner ≠ subsumed →
  queue_entries_ s !! owner = Some oe → queue_entries_ s !! subsumed = Some se →
  owner_of oe = kUnmerged → subsumed_by oe = kUnmerged →
  owner_of se = kUnmerged → subsumed_by se = kUnmerged →
  wf (link owner oe subsumed se s).
Proof.
  intros Hwf Hne Hoe Hse H1 H2 H3 H4.
  pose proof (live_not_unmerged _ _ _ Hwf Hoe). pose proof (live_not_unmerged _ _ _ Hwf Hse).
  pose proof (links_entry _ _ _ Hoe) as Hlo. pose proof (links_entry _ _ _ Hse) as Hls.
  rewrite H1, H2 in Hlo. rewrite H3, H4 in Hls.
  assert (Hl : ∀ q, links (link owner oe subsumed se s) q =
    if decide (subsumed = q) then Some (kUnmerged, owner)
    else if decide (owner = q) then Some (subsumed, kUnmerged) else links s q).
  { intros q. unfold link. rewrite !links_set. cbn. by rewrite H2, H3. }
  assert (Hlive : ∀ q l, links s q = Some l → q ≠ kUnmerged).
  { intros q [o b] (e & He & _)%links_Some. by eapply live_not_unmerged. }
  split; [apply Hwf|apply Hwf|..].
  - intros q. rewrite Hl. intros Hq. apply (wf_live s Hwf). repeat case_decide; subst; eauto.
  - intros q o b. rewrite Hl. case_decide as Hd1; [|case_decide as Hd2]; intros Hq.
    + subst q. injection Hq as <- <-. split; [done|]. intros _. split; [done|]. exists kUnmerged.
      rewrite Hl. by rewrite decide_False, decide_True.
    + subst q. injection Hq as <- <-. split; [|done]. intros _. split_and!; try done. exists kUnmerged.
      rewrite Hl. by rewrite decide_True.
    + pose proof (wf_links s Hwf _ _ _ Hq) as [Ha Hb]. pose proof (Hlive _ _ Hq).
      split; intros Hu.
      * destruct (Ha Hu) as (? & ? & o' & Ho'). split_and!; try done. exists o'. rewrite Hl.
        rewrite !decide_False; [done|intros <-; congruence..].
      * destruct (Hb Hu) as (? & b' & Hb'). split; [done|]. exists b'. rewrite Hl.
        rewrite !decide_False; [done|intros <-; congruence..].
  - intros q e. unfold link, set_entry; cbn. rewrite !lookup_insert.
    repeat case_decide; [..|apply (wf_tasks s Hwf)]; intros [= <-].
    + apply (wf_tasks s Hwf _ _ Hse).
    + apply (wf_tasks s Hwf _ _ Hoe).
Qed.

Lemma link_runnable owner subsumed oe se s :
  wf s → owner ≠ subsumed →
  queue_entries_ s !! owner = Some oe → queue_entries_ s !! subsumed = Some se →
  subsumed_by oe = kUnmerged →
  runnable owner (link owner oe subsumed se s) (delayed_tasks oe) (delayed_tasks se).
Proof.
  intros Hwf Hne Hoe Hse Hs. pose proof (live_not_unmerged _ _ _ Hwf Hse).
  apply (runnable_owner owner _ (with_owner_of subsumed oe) (with_subsumed_by owner se)); try done.
  - unfold link. rewrite lookup_set_entry_ne by done. apply lookup_set_entry.
  - apply lookup_set_entry.
Qed.

Lemma Merge_links owner subsumed oe se s :
  wf s → owner ≠ subsumed →
  queue_entries_ s !! owner = Some oe → queue_entries_ s !! subsumed = Some se →
  owner_of oe = kUnmerged → subsumed_by oe = kUnmerged →
  owner_of se = kUnmerged → subsumed_by se = kUnmerged →
  Merge owner subsumed s ⇓
    (true, wake_pending owner (delayed_tasks oe) (delayed_tasks se) (link owner oe subsumed se s)).
Proof.
  intros Hwf Hne Hoe Hse H1 H2 H3 H4. unfold Merge. rewrite (proj2 (Z.eqb_neq _ _) Hne).
  rewrite !GetMutex_wf by (unfold live; eauto). cbn [mbind result_bind].
  rewrite (entry_at_Some _ _ _ Hoe), (entry_at_Some _ _ _ Hse). cbn [mbind result_bind].
  rewrite H1, H2, H3, H4. pose proof (live_not_unmerged _ _ _ Hwf Hse) as Hk.
  rewrite (proj2 (Z.eqb_neq kUnmerged subsumed)) by congruence. cbn [existsb]. rewrite Z.eqb_refl. cbn [negb orb].
  fold (link owner oe subsumed se s).
  by rewrite (wake_if_pending_runnable _ _ _ _ (link_runnable _ _ _ _ _ Hwf Hne Hoe Hse H2)).
Qed.

Lemma Merge_again owner subsumed oe se s :
  wf s → owner ≠ subsumed →
  queue_entries_ s !! owner = Some oe → queue_entries_ s !! subsumed = Some se →
  owner_of oe = subsumed → Merge owner subsumed s ⇓ (true, s).
Proof.
  intros Hwf Hne Hoe Hse Ho. unfold Merge. rewrite (proj2 (Z.eqb_neq _ _) Hne).
  rewrite !GetMutex_wf by (unfold live; eauto). cbn [mbind result_bind].
  rewrite (entry_at_Some _ _ _ Hoe), (entry_at_Some _ _ _ Hse). cbn [mbind result_bind].
  by rewrite Ho, Z.eqb_refl.
Qed.

Lemma Merge_refused owner subsumed oe se s :
  wf s → owner ≠ subsumed →
  queue_entries_ s !! owner = Some oe → queue_entries_ s !! subsumed = Some se →
  owner_of oe ≠ subsumed →
  ¬ (owner_of oe = kUnmerged ∧ subsumed_by oe = kUnmerged ∧
     owner_of se = kUnmerged ∧ subsumed_by se = kUnmerged) →
  Merge owner subsumed s ⇓ (false, s).
Proof.
  intros Hwf Hne Hoe Hse Hno Hl. unfold Merge. rewrite (proj2 (Z.eqb_neq _ _) Hne).
  rewrite !GetMutex_wf by (unfold live; eauto). cbn [mbind result_bind].
  rewrite (entry_at_Some _ _ _ Hoe), (entry_at_Some _ _ _ Hse). cbn [mbind result_bind].
  rewrite (proj2 (Z.eqb_neq _ _) Hno).
  assert (existsb (λ key, negb (key =? kUnmerged)%Z)
    [owner_of oe; subsumed_by oe; owner_of se; subsumed_by se] = true) as ->; [|done].
  apply not_false_iff_true. intros Hf. apply Hl. cbn [existsb] in Hf.
  rewrite !orb_false_iff, !negb_false_iff, !Z.eqb_eq in Hf. tauto.
Qed.
End spec.
