(* ===== verification/TaskQueuesSafety.v ===== *)
(** * TaskQueuesSafety: every legal call returns and keeps the invariant

    The remaining calls on a well-formed registry ([Unmerge], [Dispose],
    [DisposeTasks], observers, wakeables), and the theorem over all calls. *)

From Stdlib Require Import ZArith Lia.
From stdpp Require Import base sorting gmap numbers list.
From S2P Require Import Prelude Time StdMap TaskQueues TaskOrder TaskQueuesRun TaskQueuesInv TaskQueuesSpec.

Section safety.
Context `{Build}.

Lemma links_not_unmerged s q l : wf s → links s q = Some l → q ≠ kUnmerged.
Proof. destruct l. intros Hwf (e & He & _)%links_Some. by eapply live_not_unmerged. Qed.

Lemma runnable_entries q s s' own sub :
  queue_entries_ s' = queue_entries_ s → runnable q s own sub → runnable q s' own sub.
Proof.
  intros Heq [e He Hs Ho|e e' He Hs Ho Hq He']; rewrite <- Heq in *.
  - by apply runnable_alone.
  - by apply runnable_owner.
Qed.

Lemma queue_entries_wake_pending q own sub s :
  queue_entries_ (wake_pending q own sub s) = queue_entries_ s.
Proof. unfold wake_pending. case_match; [done|apply queue_entries_wake]. Qed.

(** The links [Unmerge] resets. *)
Definition unlink owner owner_entry subsumed subsumed_entry (s : Queues) : Queues :=
  set_entry owner (with_owner_of kUnmerged owner_entry)
    (set_entry subsumed (with_subsumed_by kUnmerged subsumed_entry) s).

(** An owner and its subsumed queue, as the links describe them. *)
Definition merged s owner oe subsumed se : Prop :=
  queue_entries_ s !! owner = Some oe ∧ queue_entries_ s !! subsumed = Some se ∧
  owner_of oe = subsumed ∧ subsumed_by oe = kUnmerged ∧
  owner_of se = kUnmerged ∧ subsumed_by se = owner ∧ owner ≠ subsumed.

Lemma wf_merged s owner oe :
  wf s → queue_entries_ s !! owner = Some oe → owner_of oe ≠ kUnmerged →
  ∃ se, merged s owner oe (owner_of oe) se.
Proof.
  intros Hwf Hoe Hu. pose proof (links_entry _ _ _ Hoe) as Hl.
  destruct (proj1 (wf_links s Hwf _ _ _ Hl) Hu) as (Hne & Hs & o' & Hl').
  pose proof (proj2 (wf_links s Hwf _ _ _ Hl')) as H2.
  destruct H2 as [-> _]; [by eapply live_not_unmerged|].
  apply links_Some in Hl' as (se & Hse & ? & ?). exists se. by split_and!.
Qed.

(** No third queue is linked to a merged pair. *)
Lemma merged_unrelated s owner oe subsumed se q o b :
  wf s → merged s owner oe subsumed se → q ≠ owner → q ≠ subsumed → links s q = Some (o, b) →
  (o ≠ kUnmerged → o ≠ owner ∧ o ≠ subsumed) ∧ (b ≠ kUnmerged → b ≠ owner ∧ b ≠ subsumed).
Proof.
  intros Hwf (Hoe & Hse & H1 & H2 & H3 & H4 & Hne) Hq1 Hq2 Hq.
  pose proof (links_entry _ _ _ Hoe) as Hlo. pose proof (links_entry _ _ _ Hse) as Hls.
  pose proof (links_not_unmerged _ _ _ Hwf Hq). pose proof (wf_links s Hwf _ _ _ Hq) as [Ha Hb].
  clear Hoe Hse. split; intros Hu.
  - destruct (Ha Hu) as (_ & _ & o' & Ho'). split; intros ->; congruence.
  - destruct (Hb Hu) as (_ & b' & Hb'). split; intros ->; congruence.
Qed.

Lemma unlink_wf s owner oe subsumed se :
  wf s → merged s owner oe subsumed se → wf (unlink owner oe subsumed se s).
Proof.
  intros Hwf Hm. pose proof Hm as (Hoe & Hse & H1 & H2 & H3 & H4 & Hne).
  assert (Hl : ∀ q, links (unlink owner oe subsumed se s) q =
    if decide (owner = q) then Some (kUnmerged, kUnmerged)
    else if decide (subsumed = q) then Some (kUnmerged, kUnmerged) else links s q).
  { intros q. unfold unlink. rewrite !links_set. cbn. by rewrite H2, H3. }
  split; [apply Hwf|apply Hwf|..].
  - intros q. rewrite Hl. intros Hq. apply (wf_live s Hwf), links_live.
    repeat case_decide; subst; eauto. by apply links_live.
  - intros q o b. rewrite Hl. case_decide as Hd1; [|case_decide as Hd2]; intros Hq;
      [injection Hq as <- <-; done..|].
    destruct (merged_unrelated s owner oe subsumed se q o b) as [Ho Hb]; [congruence..|].
    pose proof (wf_links s Hwf _ _ _ Hq) as [Ha Hb']. split; intros Hu.
    + destruct (Ha Hu) as (? & ? & o' & Ho'), (Ho Hu). split_and!; try done. exists o'.
      rewrite Hl. by rewrite !decide_False.
    + destruct (Hb' Hu) as (? & b' & Ho'), (Hb Hu). split; [done|]. exists b'.
      rewrite Hl. by rewrite !decide_False.
  - intros q e. unfold unlink, set_entry; cbn. rewrite !lookup_insert.
    repeat case_decide; [..|apply (wf_tasks s Hwf)]; intros [= <-].
    + apply (wf_tasks s Hwf _ _ Hoe).
    + apply (wf_tasks s Hwf _ _ Hse).
Qed.

Lemma unlink_runnable s owner oe subsumed se :
  merged s owner oe subsumed se →
  runnable owner (unlink owner oe subsumed se s) (delayed_tasks oe) [] ∧
  runnable subsumed (unlink owner oe subsumed se s) (delayed_tasks se) [].
Proof.
  intros (Hoe & Hse & H1 & H2 & H3 & H4 & Hne). split.
  - apply (runnable_alone owner _ (with_owner_of kUnmerged oe)); [apply lookup_set_entry|done..].
  - apply (runnable_alone subsumed _ (with_subsumed_by kUnmerged se)); [|done..].
    unfold unlink. rewrite lookup_set_entry_ne by done. apply lookup_set_entry.
Qed.

Lemma Unmerge_links s owner oe subsumed se :
  wf s → merged s owner oe subsumed se →
  Unmerge owner s ⇓
    (true, wake_pending subsumed (delayed_tasks se) []
      (wake_pending owner (delayed_tasks oe) [] (unlink owner oe subsumed se s))).
Proof.
  intros Hwf Hm. destruct (unlink_runnable _ _ _ _ _ Hm) as [Hr1 Hr2].
  pose proof Hm as (Hoe & Hse & H1 & H2 & H3 & H4 & Hne).
  pose proof (live_not_unmerged _ _ _ Hwf Hse) as Hk.
  unfold Unmerge. rewrite GetMutex_wf by (unfold live; eauto). cbn [mbind result_bind].
  rewrite (entry_deref_Some _ _ _ Hoe). cbn [mbind result_bind]. rewrite H1, (proj2 (Z.eqb_neq _ _) Hk).
  rewrite (entry_deref_Some _ _ _ Hse). cbn [mbind result_bind].
  rewrite (entry_deref_Some owner _ oe) by by rewrite lookup_set_entry_ne. cbn [mbind result_bind].
  fold (unlink owner oe subsumed se s).
  rewrite (wake_if_pending_runnable _ _ _ _ Hr1). cbn [mbind result_bind].
  by rewrite (wake_if_pending_runnable subsumed _ (delayed_tasks se) []) by
    (eapply runnable_entries; [apply queue_entries_wake_pending|done]).
Qed.

Lemma Unmerge_unmerged s owner oe :
  wf s → queue_entries_ s !! owner = Some oe → owner_of oe = kUnmerged →
  Unmerge owner s ⇓ (false, s).
Proof.
  intros Hwf Hoe Hu. unfold Unmerge. rewrite GetMutex_wf by (unfold live; eauto).
  cbn [mbind result_bind]. by rewrite (entry_deref_Some _ _ _ Hoe); cbn; rewrite Hu.
Qed.

(** ** Disposal *)

Definition remove (q : TaskQueueId) (s : Queues) : Queues :=
  with_entries (delete q (queue_entries_ s)) s.

Lemma links_remove q s q' : links (remove q s) q' = if decide (q = q') then None else links s q'.
Proof. unfold links, remove; cbn. rewrite lookup_delete. by case_decide. Qed.

(** Removing queues nobody else links to keeps the invariant. *)
Lemma remove_wf (gone : gset TaskQueueId) s s' :
  wf s → task_queue_id_counter_ s' = task_queue_id_counter_ s → queue_locks_ s' = queue_locks_ s →
  (∀ q, queue_entries_ s' !! q = if decide (q ∈ gone) then None else queue_entries_ s !! q) →
  (∀ q o b, q ∉ gone → links s q = Some (o, b) →
    (o ≠ kUnmerged → o ∉ gone) ∧ (b ≠ kUnmerged → b ∉ gone)) →
  wf s'.
Proof.
  intros Hwf Hc Hlk He Hun.
  assert (Hl : ∀ q, links s' q = if decide (q ∈ gone) then None else links s q).
  { intros q. unfold links. rewrite He. by case_decide. }
  split.
  - rewrite Hc. apply Hwf.
  - rewrite Hc, Hlk. apply Hwf.
  - intros q. rewrite Hl, Hlk. case_decide; [by intros []|apply Hwf].
  - intros q o b. rewrite Hl. case_decide as Hg; [done|]. intros Hq.
    destruct (Hun _ _ _ Hg Hq) as [Ho Hb]. pose proof (wf_links s Hwf _ _ _ Hq) as [Ha Hb'].
    split; intros Hu; [destruct (Ha Hu) as (? & ? & o' & Ho')|destruct (Hb' Hu) as (? & b' & Ho')];
      setoid_rewrite Hl; rewrite decide_False by auto; eauto.
  - intros q e. rewrite He. case_decide; [done|]. apply Hwf.
Qed.

Lemma alone_unrelated s q e q' o b :
  wf s → queue_entries_ s !! q = Some e → owner_of e = kUnmerged → subsumed_by e = kUnmerged →
  links s q' = Some (o, b) → (o ≠ kUnmerged → o ≠ q) ∧ (b ≠ kUnmerged → b ≠ q).
Proof.
  intros Hwf He%links_entry H1 H2 Hq'. pose proof (links_not_unmerged _ _ _ Hwf Hq').
  pose proof (wf_links s Hwf _ _ _ Hq') as [Ha Hb]. split; intros Hu ->.
  - destruct (Ha Hu) as (_ & _ & o' & Ho'). congruence.
  - destruct (Hb Hu) as (_ & b' & Hb'). congruence.
Qed.

Lemma Dispose_ok q e s :
  wf s → queue_entries_ s !! q = Some e → subsumed_by e = kUnmerged →
  ∃ s', Dispose q s ⇓ s' ∧ wf s' ∧
    queue_entries_ s' = delete (owner_of e) (delete q (queue_entries_ s)) ∧
    order_counter_ s' = order_counter_ s.
Proof.
  intros Hwf He Hs. unfold Dispose. rewrite GetMutex_wf by (unfold live; eauto). cbn [mbind result_bind].
  rewrite (entry_at_Some _ _ _ He). cbn [mbind result_bind].
  rewrite Hs, Z.eqb_refl, fml_dcheck_true. cbn [mbind result_bind]. fold (remove q s).
  destruct (Z.eqb_spec (owner_of e) kUnmerged) as [Hu|Hu]; cbn [negb].
  - exists (remove q s). split_and!; [done| | |done].
    + apply (remove_wf {[q]} s); try done.
      * intros q'. unfold remove; cbn. rewrite lookup_delete.
        repeat case_decide; try done; set_solver.
      * intros q' o b _ Hl. destruct (alone_unrelated _ _ _ _ _ _ Hwf He Hu Hs Hl). set_solver.
    + cbn. rewrite Hu, (delete_id _ kUnmerged); [done|].
      rewrite lookup_delete_ne; [by apply wf_dead|by eapply live_not_unmerged].
  - destruct (wf_merged _ _ _ Hwf He Hu) as [se Hm].
    pose proof Hm as (_ & Hse & _ & _ & _ & _ & Hne).
    assert (lock_at (owner_of e) (remove q s) ⇓ tt) as ->.
    { change (lock_at (owner_of e) s ⇓ tt). apply lock_at_wf; [done|]. unfold live; eauto. }
    cbn [mbind result_bind]. eexists; split_and!; [done| |done..].
    apply (remove_wf {[q; owner_of e]} s); try done.
    + intros q'. cbn. rewrite !lookup_delete. repeat case_decide; try done; set_solver.
    + intros q' o b Hq' Hl.
      destruct (merged_unrelated _ _ _ _ _ q' o b Hwf Hm); set_solver.
Qed.

Lemma DisposeTasks_eq q s own sub :
  wf s → runnable q s own sub → DisposeTasks q s ⇓ put_tasks q [] [] s.
Proof.
  intros Hwf Hr. unfold DisposeTasks, put_tasks.
  rewrite GetMutex_wf by (done || by eapply runnable_live). cbn [mbind result_bind].
  destruct Hr as [e He Hs Ho|e e' He Hs Ho Hq He']; rewrite He; simpl_links;
    rewrite fml_dcheck_true; cbn [mbind result_bind]; simpl_links; [done|].
  rewrite He'. assert (lock_at (owner_of e) (set_entry q (with_tasks [] e) s) ⇓ tt) as ->.
  { change (lock_at (owner_of e) s ⇓ tt). apply lock_at_wf; [done|]. unfold live; eauto. }
  cbn [mbind result_bind]. rewrite (entry_at_Some _ _ e'); [done|]. by rewrite lookup_set_entry_ne.
Qed.

(** ** All calls *)

Lemma Run_ok q type now s :
  wf s → live s q → ∃ r, GetTasksToRunNow q type now [] s ⇓ r ∧ wf r.2.
Proof.
  intros Hwf [e He]. destruct (decide (subsumed_by e = kUnmerged)) as [Hs|Hs]; cycle 1.
  { eexists. split; [apply GetTasks_idle; [done|unfold live; eauto|by eapply pending_subsumed]|done]. }
  destruct (wf_runnable _ _ _ Hwf He Hs) as (sub & Hr & Ho & Hsub & _).
  destruct (decide (run_order (delayed_tasks e) sub = [])) as [Hn|Hn].
  { eexists. split; [apply GetTasks_idle; [done|unfold live; eauto|]|done].
    rewrite (pending_runnable _ _ _ _ Hr), Hn. done. }
  destruct type.
  - destruct (GetTasks_single_eq q now [] s _ _ Hwf Hr Hn) as (own' & sub' & Heq & _ & _ & ? & ?).
    eexists. split; [exact Heq|]. cbn. eauto using sorted_tasks_suffix with engine.
  - eexists. split; [by apply GetTasks_all_eq|]. cbn.
    apply wake_wf. eapply put_tasks_wf; [done..|by apply filter_sorted|by apply filter_sorted].
Qed.

Lemma Merge_ok owner subsumed s :
  wf s → owner = subsumed ∨ live s owner ∧ live s subsumed →
  ∃ r, Merge owner subsumed s ⇓ r ∧ wf r.2.
Proof.
  intros Hwf Hlive. destruct (decide (owner = subsumed)) as [<-|Hne].
  { exists (true, s). split; [|done]. unfold Merge. by rewrite Z.eqb_refl. }
  destruct Hlive as [|[[oe Hoe] [se Hse]]]; [done|].
  destruct (decide (owner_of oe = subsumed)) as [Ho|Ho].
  { exists (true, s). split; [by eapply Merge_again|done]. }
  destruct (decide (owner_of oe = kUnmerged ∧ subsumed_by oe = kUnmerged ∧
     owner_of se = kUnmerged ∧ subsumed_by se = kUnmerged)) as [(?&?&?&?)|Hl].
  - eexists. split; [by apply Merge_links|]. cbn. by apply wake_pending_wf, link_wf.
  - exists (false, s). split; [by eapply Merge_refused|done].
Qed.

Lemma Unmerge_ok owner s : wf s → live s owner → ∃ r, Unmerge owner s ⇓ r ∧ wf r.2.
Proof.
  intros Hwf [oe Hoe]. destruct (decide (owner_of oe = kUnmerged)) as [Hu|Hu].
  - eexists. split; [by eapply Unmerge_unmerged|done].
  - destruct (wf_merged _ _ _ Hwf Hoe Hu) as [se Hm]. eexists. split; [by apply Unmerge_links|].
    cbn. by apply wake_pending_wf, wake_pending_wf, unlink_wf.
Qed.

Lemma bump_order_wf s : wf s → wf (bump_order s).
Proof. intros Hwf. eapply same_links_wf; [done|done|apply Hwf]. Qed.

Lemma exec_legal c s : wf s → legal c s → ∃ s', exec c s ⇓ s' ∧ wf s'.
Proof.
  intros Hwf. destruct c; cbn [legal exec].
  - intros Hc. eexists. split; [done|]. by apply Create_wf.
  - intros (e & He & Hs). destruct (Dispose_ok _ _ _ Hwf He Hs) as (s' & ? & ? & _). eauto.
  - intros (e & He & Hs). destruct (wf_runnable _ _ _ Hwf He Hs) as (sub & Hr & _).
    eexists. split; [by eapply DisposeTasks_eq|]. eapply put_tasks_wf; [done..|constructor|constructor].
  - intros [e He]. destruct (Register_eq q task target_time s e Hwf He) as (top & _ & Heq).
    eexists. split; [exact Heq|]. apply wake_wf. eapply set_entry_wf; [by apply bump_order_wf|done..|].
    by eapply pq_push_sorted, wf_tasks.
  - intros Hq. destruct (Run_ok q type now s Hwf Hq) as (r & Hr & Hwf'). exists r.2. by rewrite Hr.
  - intros [[e He] Hcb]. unfold AddTaskObserver. rewrite GetMutex_wf by (unfold live; eauto).
    rewrite bool_decide_eq_true_2 by done. cbn [mbind result_bind]. rewrite fml_dcheck_true.
    cbn [mbind result_bind]. rewrite (entry_deref_Some _ _ _ He). eexists. split; [done|].
    eapply set_entry_wf; [done..|]. cbn. by eapply wf_tasks.
  - intros [e He]. unfold RemoveTaskObserver. rewrite GetMutex_wf by (unfold live; eauto).
    cbn [mbind result_bind]. rewrite (entry_deref_Some _ _ _ He). eexists. split; [done|].
    eapply set_entry_wf; [done..|]. cbn. by eapply wf_tasks.
  - intros (e & He & Hw). unfold SetWakeable. rewrite GetMutex_wf by (unfold live; eauto).
    cbn [mbind result_bind]. rewrite (entry_deref_Some _ _ _ He), (entry_at_Some _ _ _ He). cbn [mbind result_bind].
    rewrite Hw. cbn. eexists. split; [done|]. eapply set_entry_wf; [done..|]. cbn. by eapply wf_tasks.
  - intros Hl. destruct (Merge_ok owner subsumed s Hwf Hl) as (r & Hr & Hwf'). exists r.2. by rewrite Hr.
  - intros Hl. destruct (Unmerge_ok owner s Hwf Hl) as (r & Hr & Hwf'). exists r.2. by rewrite Hr.
Qed.

Lemma reachable_wf s : reachable s → wf s.
Proof.
  induction 1 as [|c s s' _ IH Hl He]; [apply new_queues_wf|].
  destruct (exec_legal c s IH Hl) as (s1 & He' & ?). rewrite He in He'. by injection He' as ->.
Qed.
End safety.
