(* ===== verification/TaskQueuesFifo.v ===== *)
(** * TaskQueuesFifo: registration order

    [order_] is an [atomic_int] that wraps at [2^31] and is converted to
    [size_t] for each task.  The conversion keeps the orders increasing
    through the wrap, up to [2^32] registrations; until then a task is queued
    behind every task whose target time is not later, and [reachable_by] ties
    every queued task to its place in the sequence of registrations. *)

From Stdlib Require Import ZArith Lia.
From stdpp Require Import base sorting gmap numbers list.
From S2P Require Import Prelude Time StdMap TaskQueues TaskOrder TaskQueuesRun TaskQueuesInv.
From S2P Require Import TaskQueuesSpec TaskQueuesSafety.

(** The order given to the registration number [n] of the process. *)
Definition nth_order (n : Z) : Z := wrapU 64 (wrapS 32 n).

Lemma nth_order_low n : (0 ≤ n < 2 ^ 31)%Z → nth_order n = n.
Proof.
  intros. unfold nth_order. rewrite wrapS_id by lia. apply wrapU_id. lia.
Qed.

Lemma nth_order_high n : (2 ^ 31 ≤ n < 2 ^ 32)%Z → nth_order n = (2 ^ 64 - 2 ^ 32 + n)%Z.
Proof.
  intros. unfold nth_order, wrapS.
  replace (n + 2 ^ (32 - 1))%Z with (n - 2 ^ 31 + 1 * 2 ^ 32)%Z by lia.
  rewrite Z.mod_add, Z.mod_small by lia. unfold wrapU.
  replace (n - 2 ^ 31 - 2 ^ (32 - 1))%Z with (2 ^ 64 - 2 ^ 32 + n + (-1) * 2 ^ 64)%Z by lia.
  rewrite Z.mod_add, Z.mod_small by lia. lia.
Qed.

Lemma nth_order_mono i j : (0 ≤ i < j)%Z → (j < 2 ^ 32)%Z → (nth_order i < nth_order j)%Z.
Proof.
  intros. destruct (decide (j < 2 ^ 31)%Z), (decide (i < 2 ^ 31)%Z);
    rewrite ?(nth_order_low i), ?(nth_order_low j), ?(nth_order_high i), ?(nth_order_high j) by lia; lia.
Qed.

(** Every task of [s'] is a task of [s] in the same queue. *)
Definition tasks_from (s s' : Queues) : Prop :=
  order_counter_ s' = order_counter_ s ∧
  ∀ q e' t, queue_entries_ s' !! q = Some e' → t ∈ delayed_tasks e' →
    ∃ e, queue_entries_ s !! q = Some e ∧ t ∈ delayed_tasks e.

Section fifo.
Context `{Build}.

Lemma tasks_from_refl s : tasks_from s s.
Proof. split; eauto. Qed.

Lemma tasks_from_set q e e' s :
  queue_entries_ s !! q = Some e → delayed_tasks e' ⊆ delayed_tasks e →
  tasks_from s (set_entry q e' s).
Proof.
  intros He Hsub. split; [done|]. intros q' e1 t. unfold set_entry; cbn.
  rewrite lookup_insert. case_decide; [|eauto]. intros [= <-] Ht. subst. eauto.
Qed.

Lemma tasks_from_same s s' s'' :
  queue_entries_ s'' = queue_entries_ s' → order_counter_ s'' = order_counter_ s' →
  tasks_from s s' → tasks_from s s''.
Proof. intros He Ho [H1 H2]. split; [congruence|]. by rewrite He. Qed.

Lemma tasks_from_wake s s' q t : tasks_from s s' → tasks_from s (wake q t s').
Proof. apply tasks_from_same; unfold wake; by destruct (_ ≫= _). Qed.

Lemma tasks_from_wake_pending s s' q own sub : tasks_from s s' → tasks_from s (wake_pending q own sub s').
Proof. unfold wake_pending. case_match; [done|apply tasks_from_wake]. Qed.

Lemma tasks_from_trans s1 s2 s3 : tasks_from s1 s2 → tasks_from s2 s3 → tasks_from s1 s3.
Proof.
  intros [Ho H1] [Ho' H2]. split; [congruence|].
  intros q e t He Ht. destruct (H2 _ _ _ He Ht) as (e2 & He2 & Ht2). eauto.
Qed.

Lemma tasks_from_put q s own sub own' sub' :
  runnable q s own sub → own' ⊆ own → sub' ⊆ sub → tasks_from s (put_tasks q own' sub' s).
Proof.
  unfold put_tasks. intros [e He Hs Ho|e e' He Hs Ho Hq He'] H1 H2; rewrite He; simpl_links.
  - by eapply tasks_from_set.
  - rewrite He'. eapply tasks_from_trans; [by eapply (tasks_from_set q e (with_tasks own' e))|].
    eapply tasks_from_set; [by rewrite lookup_set_entry_ne|done].
Qed.

Lemma filter_subseteq (P : DelayedTask → Prop) `{!∀ x, Decision (P x)} (l : DelayedTaskQueue) :
  filter P l ⊆ l.
Proof. intros x Hx%list_elem_of_filter. tauto. Qed.

Lemma Run_tasks_from q type now s r :
  wf s → live s q → GetTasksToRunNow q type now [] s ⇓ r → tasks_from s r.2.
Proof.
  intros Hwf Hq Hr. destruct Hq as [e He].
  assert (Hidle : HasPendingTasksUnlocked q s ⇓ false → tasks_from s r.2).
  { intros Hp. rewrite (GetTasks_idle q s type now []) in Hr by (done || unfold live; eauto).
    injection Hr as <-. apply tasks_from_refl. }
  destruct (decide (subsumed_by e = kUnmerged)) as [Hs|Hs]; [|by eapply Hidle, pending_subsumed].
  destruct (wf_runnable _ _ _ Hwf He Hs) as (sub & Hrun & Ho & Hsub & _).
  destruct (decide (run_order (delayed_tasks e) sub = [])) as [Hn|Hn].
  { apply Hidle. rewrite (pending_runnable _ _ _ _ Hrun), Hn. done. }
  destruct type.
  - destruct (GetTasks_single_eq q now [] s _ _ Hwf Hrun Hn) as (own' & sub' & Heq & Hro & Hrun' & ? & ?).
    rewrite Heq in Hr. injection Hr as <-. apply tasks_from_wake.
    by eapply tasks_from_put; [|apply suffix_elem_of..].
  - rewrite (GetTasks_all_eq q now [] s _ _ Hwf Hrun Hn) in Hr. injection Hr as <-.
    apply tasks_from_wake. eapply tasks_from_put; [done|apply filter_subseteq..].
Qed.

Lemma Merge_tasks_from owner subsumed s r :
  wf s → owner = subsumed ∨ live s owner ∧ live s subsumed →
  Merge owner subsumed s ⇓ r → tasks_from s r.2.
Proof.
  intros Hwf Hlive Hr. destruct (decide (owner = subsumed)) as [<-|Hne].
  { unfold Merge in Hr. rewrite Z.eqb_refl in Hr. injection Hr as <-. apply tasks_from_refl. }
  destruct Hlive as [|[[oe Hoe] [se Hse]]]; [done|].
  destruct (decide (owner_of oe = subsumed)) as [Ho|Ho].
  { rewrite (Merge_again _ _ _ _ _ Hwf Hne Hoe Hse Ho) in Hr. injection Hr as <-. apply tasks_from_refl. }
  destruct (decide (owner_of oe = kUnmerged ∧ subsumed_by oe = kUnmerged ∧
     owner_of se = kUnmerged ∧ subsumed_by se = kUnmerged)) as [(?&?&?&?)|Hl].
  - rewrite (Merge_links _ _ oe se) in Hr by done. injection Hr as <-.
    apply tasks_from_wake_pending. unfold link. cbn.
    eapply tasks_from_trans; [by eapply (tasks_from_set owner oe (with_owner_of subsumed oe))|].
    by eapply tasks_from_set; [rewrite lookup_set_entry_ne|].
  - rewrite (Merge_refused _ _ oe se) in Hr by done. injection Hr as <-. apply tasks_from_refl.
Qed.

Lemma Unmerge_tasks_from owner s r :
  wf s → live s owner → Unmerge owner s ⇓ r → tasks_from s r.2.
Proof.
  intros Hwf [oe Hoe] Hr. destruct (decide (owner_of oe = kUnmerged)) as [Hu|Hu].
  - rewrite (Unmerge_unmerged _ _ oe) in Hr by done. injection Hr as <-. apply tasks_from_refl.
  - destruct (wf_merged _ _ _ Hwf Hoe Hu) as [se Hm].
    rewrite (Unmerge_links _ _ _ _ _ Hwf Hm) in Hr. injection Hr as <-.
    apply tasks_from_wake_pending, tasks_from_wake_pending. destruct Hm as (_ & Hse & _ & _ & _ & _ & Hne).
    unfold unlink. cbn.
    eapply tasks_from_trans; [by eapply (tasks_from_set (owner_of oe) se (with_subsumed_by kUnmerged se))|].
    by eapply tasks_from_set; [rewrite lookup_set_entry_ne|].
Qed.

(** Apart from [RegisterTask], no call adds a task or draws an order. *)
Lemma exec_tasks_from c s s' :
  wf s → legal c s → exec c s ⇓ s' →
  (∀ q task time, c ≠ RegisterTaskC q task time) → tasks_from s s'.
Proof.
  intros Hwf Hl He Hc. destruct c; cbn [legal exec] in *.
  - injection He as <-. split; [done|]. intros q e t. cbn. rewrite lookup_insert.
    case_decide; [|eauto]. intros [= <-] []%elem_of_nil.
  - destruct Hl as (e & Hq & Hs). destruct (Dispose_ok _ _ _ Hwf Hq Hs) as (s1 & Hd & _ & Hent & Ho).
    rewrite He in Hd. injection Hd as <-. split; [done|]. intros q' e' t. rewrite Hent.
    intros [_ [_ ?]%lookup_delete_Some]%lookup_delete_Some. eauto.
  - destruct Hl as (e & Hq & Hs). destruct (wf_runnable _ _ _ Hwf Hq Hs) as (sub & Hr & _).
    rewrite (DisposeTasks_eq _ _ _ _ Hwf Hr) in He. injection He as <-.
    eapply tasks_from_put; [done|by intros ? ?%elem_of_nil..].
  - by destruct (Hc q task target_time).
  - apply bind_Ok in He as (r & Hr & [= <-]). by eapply Run_tasks_from.
  - unfold AddTaskObserver in He. run_ok He. injection He as <-. apply of_option_Ok in H2.
    by eapply tasks_from_set.
  - unfold RemoveTaskObserver in He. run_ok He. injection He as <-. apply of_option_Ok in H1.
    by eapply tasks_from_set.
  - unfold SetWakeable in He. run_ok He. injection He as <-. apply of_option_Ok in H3.
    by eapply tasks_from_set.
  - apply bind_Ok in He as (r & Hr & [= <-]). by eapply Merge_tasks_from.
  - apply bind_Ok in He as (r & Hr & [= <-]). by eapply Unmerge_tasks_from.
Qed.

(** [reachable_n n s]: [s] is reached with [n] registrations. *)
Inductive reachable_n : Z → Queues → Prop :=
  | reachable_n_new : reachable_n 0 new_queues
  | reachable_n_register n s q task time s' :
      reachable_n n s → legal (RegisterTaskC q task time) s →
      exec (RegisterTaskC q task time) s ⇓ s' → reachable_n (n + 1) s'
  | reachable_n_other n s c s' :
      reachable_n n s → legal c s → (∀ q task time, c ≠ RegisterTaskC q task time) →
      exec c s ⇓ s' → reachable_n n s'.

Lemma reachable_n_reachable n s : reachable_n n s → reachable s.
Proof. induction 1; eauto using reachable. Qed.

(** Every queued task was given an order below the next one. *)
Definition orders_below (n : Z) (s : Queues) : Prop :=
  order_counter_ s = wrapS 32 n ∧
  ∀ q e t, queue_entries_ s !! q = Some e → t ∈ delayed_tasks e →
    ∃ i, (0 ≤ i < n)%Z ∧ order_ t = nth_order i.

Lemma reachable_n_orders n s : reachable_n n s → (0 ≤ n)%Z ∧ orders_below n s.
Proof.
  induction 1 as [|n s q task time s' Hr [Hn [Ho IH]] Hl He|n s c s' Hr [Hn [Ho IH]] Hl Hc He].
  - split; [done|]. split; [done|]. intros q e t. cbn. by rewrite lookup_empty.
  - split; [lia|]. pose proof (reachable_wf _ (reachable_n_reachable _ _ Hr)) as Hwf.
    destruct Hl as [e Hq]. cbn [exec] in He.
    destruct (Register_eq q task time s e Hwf Hq) as (top & _ & Heq).
    rewrite He in Heq. injection Heq as ->. clear He. split.
    + unfold wake. destruct (_ ≫= _); cbn; rewrite Ho; apply wrapS_add_l.
    + intros q' e' t. rewrite queue_entries_wake. unfold set_entry; cbn. rewrite lookup_insert.
      case_decide; cycle 1.
      { intros Hq' Ht. destruct (IH _ _ _ Hq' Ht) as (i & ? & ?). exists i. split; [lia|done]. }
      intros [= <-]; cbn. rewrite pq_push_perm. intros [->|Ht]%elem_of_cons.
      * exists n. split; [lia|]. cbn. unfold next_order, nth_order. by rewrite Ho.
      * destruct (IH _ _ _ Hq Ht) as (i & ? & ?). exists i. split; [lia|done].
  - split; [done|]. pose proof (reachable_wf _ (reachable_n_reachable _ _ Hr)) as Hwf.
    destruct (exec_tasks_from c s s' Hwf Hl He Hc) as [Ho' Ht']. split; [congruence|].
    intros q e t Hq Ht. destruct (Ht' _ _ _ Hq Ht) as (e0 & He0 & Ht0). eauto.
Qed.

(** [reachable_by posts s]: [s] is reached with these registrations, in this
    order: queue, task and target time of each. *)
Inductive reachable_by : list (TaskQueueId * closure * TimePoint.t) → Queues → Prop :=
  | reachable_by_new : reachable_by [] new_queues
  | reachable_by_register posts s q task time s' :
      reachable_by posts s → legal (RegisterTaskC q task time) s →
      exec (RegisterTaskC q task time) s ⇓ s' → reachable_by (posts ++ [(q, task, time)]) s'
  | reachable_by_other posts s c s' :
      reachable_by posts s → legal c s → (∀ q task time, c ≠ RegisterTaskC q task time) →
      exec c s ⇓ s' → reachable_by posts s'.

Lemma reachable_by_n posts s : reachable_by posts s → reachable_n (Z.of_nat (length posts)) s.
Proof.
  induction 1 as [|posts s q task time s' Hr IH Hl He|]; [constructor| |by eapply reachable_n_other].
  rewrite length_app, Nat2Z.inj_add. by eapply reachable_n_register.
Qed.

(** [t] is what the registration number [i] posted. *)
Definition posted_as (posts : list (TaskQueueId * closure * TimePoint.t)) (t : DelayedTask) (i : nat) : Prop :=
  ∃ q, posts !! i = Some (q, GetTask t, GetTargetTime t).

Lemma posted_as_app posts more t i : posted_as posts t i → posted_as (posts ++ more) t i.
Proof. intros [q Hq]. exists q. by apply lookup_app_l_Some. Qed.

(** Every queued task was registered, and its order is that of its
    registration. *)
Lemma reachable_by_posted posts s q e t :
  reachable_by posts s → queue_entries_ s !! q = Some e → t ∈ delayed_tasks e →
  ∃ i, posted_as posts t i ∧ order_ t = nth_order (Z.of_nat i).
Proof.
  intros Hr. revert q e t. induction Hr as [|posts s q0 task time s' Hr IH Hl He|posts s c s' Hr IH Hl Hc He]; intros q e t.
  - cbn. by rewrite lookup_empty.
  - pose proof (reachable_by_n _ _ Hr) as Hn. destruct (reachable_n_orders _ _ Hn) as (_ & Ho & _).
    pose proof (reachable_wf _ (reachable_n_reachable _ _ Hn)) as Hwf. destruct Hl as [e0 Hq0]. cbn [exec] in He.
    destruct (Register_eq q0 task time s e0 Hwf Hq0) as (top & _ & Heq). rewrite He in Heq. injection Heq as ->. clear He.
    assert (Hold : ∀ q e, queue_entries_ s !! q = Some e → t ∈ delayed_tasks e →
      ∃ i, posted_as (posts ++ [(q0, task, time)]) t i ∧ order_ t = nth_order (Z.of_nat i)).
    { intros q1 e1 Hq1 Ht. destruct (IH _ _ _ Hq1 Ht) as (i & Hi & ?). exists i. split; [by apply posted_as_app|done]. }
    rewrite queue_entries_wake. unfold set_entry; cbn. rewrite lookup_insert. case_decide; [|by apply Hold].
    intros [= <-]; cbn. rewrite pq_push_perm. intros [->|Ht]%elem_of_cons; [|by eapply Hold].
    exists (length posts). split; [|cbn; unfold next_order, nth_order; by rewrite Ho].
    exists q0. by rewrite lookup_app_r, Nat.sub_diag by lia.
  - pose proof (reachable_wf _ (reachable_n_reachable _ _ (reachable_by_n _ _ Hr))) as Hwf.
    destruct (exec_tasks_from c s s' Hwf Hl He Hc) as [_ Ht']. intros Hq Ht. destruct (Ht' _ _ _ Hq Ht) as (e0 & He0 & Ht0). eauto.
Qed.

(** A task with its registration number runs before another: it has an earlier
    target time, or the same one and was posted earlier. *)
Definition posted_before (a b : DelayedTask * nat) : Prop :=
  (GetTargetTime a.1 < GetTargetTime b.1)%Z ∨ (GetTargetTime a.1 = GetTargetTime b.1 ∧ a.2 ≤ b.2).

(** Up to [2^32] registrations the order of a queue is that of posting. *)
Lemma sorted_posted posts l :
  (Z.of_nat (length posts) < 2 ^ 32)%Z → sorted_tasks l →
  Forall (λ t, ∃ i, posted_as posts t i ∧ order_ t = nth_order (Z.of_nat i)) l →
  ∃ ran, ran.*1 = l ∧ Forall (λ r, posted_as posts r.1 r.2) ran ∧ StronglySorted posted_before ran.
Proof.
  intros Hlen Hl Hp. assert (∃ ran, ran.*1 = l ∧ Forall (λ r, posted_as posts r.1 r.2 ∧ order_ r.1 = nth_order (Z.of_nat r.2)) ran)
    as (ran & <- & Hran).
  { clear Hl. induction Hp as [|t l (i & Hi) _ (ran & <- & Hran)]; [by exists []|]. exists ((t, i) :: ran). by split; [|constructor]. }
  exists ran. split; [done|]. split; [eapply Forall_impl; [exact Hran|]; naive_solver|]. clear Hp.
  induction Hran as [|[t i] ran [Hi Ho] Hran IH]; [constructor|]. apply sorted_tasks_cons in Hl as [Ht Hl].
  constructor; [by apply IH|]. apply Forall_forall. intros [u j] Hu. rewrite Forall_forall in Hran. destruct (Hran _ Hu) as [_ Huo].
  rewrite Forall_forall in Ht. assert (Hle : task_le t u) by (apply Ht; by apply (list_elem_of_fmap_2 fst) in Hu).
  apply task_le_spec in Hle as [|[Heq Hle]]; [by left|right]. split; [done|]. cbn in *. rewrite Ho, Huo in Hle.
  destruct (decide (i ≤ j)) as [|Hn]; [done|]. destruct Hi as [q Hi%lookup_lt_Some].
  pose proof (nth_order_mono (Z.of_nat j) (Z.of_nat i)). lia.
Qed.

(** A task with the greatest order lands behind the tasks not later than it. *)
Lemma pq_push_latest t q :
  sorted_tasks q → Forall (λ u, (order_ u < order_ t)%Z) q →
  pq_push t q = due_tasks (target_time_ t) q ++ t :: later_tasks (target_time_ t) q.
Proof.
  induction q as [|u q IH]; [done|]. intros [Hu Hq]%sorted_tasks_cons [Ho Hos]%Forall_cons. cbn [pq_push].
  destruct (DelayedTask_gt u t) eqn:Hgt.
  - assert (Hl : ¬ due (target_time_ t) u).
    { unfold due, GetTargetTime. unfold DelayedTask_gt in Hgt.
      destruct (Z.eqb_spec (target_time_ u) (target_time_ t)); lia. }
    destruct (due_tasks_none (target_time_ t) (u :: q)) as [-> ->]; [|done].
    constructor; [done|by eapply later_above].
  - assert (Hd : due (target_time_ t) u) by (by apply task_le_time in Hgt).
    unfold due_tasks, later_tasks. rewrite filter_cons_True, filter_cons_False by naive_solver.
    cbn. f_equal. by apply IH.
Qed.
End fifo.
