(* ===== verification/TaskQueuesPlay.v ===== *)
(** * TaskQueuesPlay: replaying scripts of registry calls

    Boolean preconditions and an interpreter of call scripts, with which the
    witnesses of the components above the registry build concrete reachable
    states. *)

From Stdlib Require Import ZArith Lia.
From stdpp Require Import base sorting gmap numbers list.
From S2P Require Import Prelude Time StdMap TaskQueues TaskOrder TaskQueuesRun TaskQueuesInv.
From S2P Require Import TaskQueuesSpec TaskQueuesSafety TaskQueuesFifo.

(** Deciding the preconditions, so that a script of calls can be replayed. *)
Definition entry_has (s : Queues) (P : TaskQueueEntry → bool) (q : TaskQueueId) : bool :=
  match queue_entries_ s !! q with Some e => P e | None => false end.

Lemma entry_has_true s P q :
  entry_has s P q = true → ∃ e, queue_entries_ s !! q = Some e ∧ P e = true.
Proof. unfold entry_has. case_match; [eauto|done]. Qed.

Definition legalb (c : call) (s : Queues) : bool :=
  match c with
  | CreateTaskQueueC => (task_queue_id_counter_ s <? 2 ^ 31)%Z
  | DisposeC q | DisposeTasksC q => entry_has s (λ e, subsumed_by e =? kUnmerged)%Z q
  | AddTaskObserverC q _ callback => entry_has s (λ _, bool_decide (is_Some callback)) q
  | SetWakeableC q _ => entry_has s (λ e, bool_decide (wakeable e = None)) q
  | MergeC owner subsumed =>
      (owner =? subsumed)%Z || entry_has s (λ _, true) owner && entry_has s (λ _, true) subsumed
  | RegisterTaskC q _ _ | GetTasksToRunNowC q _ _ | RemoveTaskObserverC q _ | UnmergeC q =>
      entry_has s (λ _, true) q
  end.

Lemma legalb_legal c s : legalb c s = true → legal c s.
Proof.
  destruct c; cbn [legal legalb]; unfold live.
  - lia.
  - intros (e & He & Hs%Z.eqb_eq)%entry_has_true. eauto.
  - intros (e & He & Hs%Z.eqb_eq)%entry_has_true. eauto.
  - intros (e & He & _)%entry_has_true. eauto.
  - intros (e & He & _)%entry_has_true. eauto.
  - intros (e & He & Hs%bool_decide_eq_true)%entry_has_true. eauto.
  - intros (e & He & _)%entry_has_true. eauto.
  - intros (e & He & Hs%bool_decide_eq_true)%entry_has_true. eauto.
  - intros [Hb|[(e & He & _)%entry_has_true (e' & He' & _)%entry_has_true]%andb_true_iff]%orb_true_iff.
    + left. lia.
    + right. eauto.
  - intros (e & He & _)%entry_has_true. eauto.
Qed.

Definition is_register (c : call) : bool :=
  match c with RegisterTaskC _ _ _ => true | _ => false end.

Fixpoint play `{Build} (cs : list call) (n : Z) (s : Queues) : option (Z * Queues) :=
  match cs with
  | [] => Some (n, s)
  | c :: cs =>
      if legalb c s then
        match exec c s with
        | Ok s' => play cs (if is_register c then n + 1 else n)%Z s'
        | Fault _ => None
        end
      else None
  end.

Lemma play_reachable `{Build} cs n s n' s' :
  reachable_n n s → play cs n s = Some (n', s') → reachable_n n' s'.
Proof.
  revert n s. induction cs as [|c cs IH]; cbn; intros n s Hr; [by intros [= -> ->]|].
  destruct (legalb c s) eqn:Hl; [|done]. destruct (exec c s) as [s1|] eqn:He; [|done].
  apply IH. apply legalb_legal in Hl. destruct (is_register c) eqn:Hc.
  - destruct c; try done. by eapply reachable_n_register.
  - eapply reachable_n_other; eauto. by intros ? ? ? ->.
Qed.

(** The registrations of a script. *)
Definition post_of (c : call) : option (TaskQueueId * closure * TimePoint.t) :=
  match c with RegisterTaskC q task time => Some (q, task, time) | _ => None end.

Lemma play_reachable_by `{Build} cs posts n s n' s' :
  reachable_by posts s → play cs n s = Some (n', s') → reachable_by (posts ++ omap post_of cs) s'.
Proof.
  revert posts n s. induction cs as [|c cs IH]; cbn [play]; intros posts n s Hr; [intros [= _ ->]; by rewrite app_nil_r|].
  destruct (legalb c s) eqn:Hl; [|done]. destruct (exec c s) as [s1|] eqn:He; [|done].
  apply legalb_legal in Hl. intros Hp. change (c :: cs) with ([c] ++ cs). rewrite omap_app, app_assoc. eapply IH; [|exact Hp].
  destruct c; cbn; rewrite ?app_nil_r; (eapply reachable_by_register || eapply reachable_by_other); done.
Qed.

Local Open Scope Z_scope.

Definition debug_build : Build := {| debug := true |}.

(** Two loops, one task each; then the second loop is merged into the first. *)
Definition two_loops : list call :=
  [CreateTaskQueueC; SetWakeableC 0 (Some 10%nat); CreateTaskQueueC; SetWakeableC 1 (Some 11%nat);
   RegisterTaskC 0 (Some 1%nat) 100; RegisterTaskC 1 (Some 2%nat) 50].
Definition merged_loops : list call := two_loops ++ [MergeC 0 1].

Definition played (cs : list call) : Queues :=
  match play (H := debug_build) cs 0 new_queues with Some (_, s) => s | None => new_queues end.

Lemma played_reachable_n cs n :
  play (H := debug_build) cs 0 new_queues = Some (n, played cs) →
  reachable_n (H := debug_build) n (played cs).
Proof. intros Hp. eapply play_reachable; [constructor|exact Hp]. Qed.

Lemma played_reachable cs n :
  play (H := debug_build) cs 0 new_queues = Some (n, played cs) → reachable (H := debug_build) (played cs).
Proof. intros Hp. by eapply reachable_n_reachable, played_reachable_n. Qed.

Lemma played_reachable_by cs n :
  play (H := debug_build) cs 0 new_queues = Some (n, played cs) →
  reachable_by (H := debug_build) (omap post_of cs) (played cs).
Proof. intros Hp. by eapply (play_reachable_by _ []); [constructor|]. Qed.

Lemma played_two_loops : reachable_n (H := debug_build) 2 (played two_loops).
Proof. apply (played_reachable_n two_loops). by vm_compute. Qed.

(** The entry of a queue in a replayed state. *)
Definition entry_of (q : TaskQueueId) (s : Queues) : TaskQueueEntry :=
  match queue_entries_ s !! q with Some e => e | None => new_entry end.

Lemma merged_runnable :
  runnable 0 (played merged_loops) (delayed_tasks (entry_of 0 (played merged_loops)))
    (delayed_tasks (entry_of 1 (played merged_loops))).
Proof. by apply runnable_owner; vm_compute. Qed.

