(* ===== verification/TaskQueuesTheorems.v ===== *)
(** * TaskQueuesTheorems: what the task-queue registry guarantees

    The properties of fml/message_loop_task_queues.cc over all states that
    legal calls reach, each with a concrete run that meets its hypotheses. *)

From Stdlib Require Import ZArith Lia.
From stdpp Require Import base sorting gmap numbers list.
From S2P Require Import Prelude Time StdMap TaskQueues TaskOrder TaskQueuesRun TaskQueuesInv.
From S2P Require Import TaskQueuesSpec TaskQueuesSafety TaskQueuesFifo TaskQueuesPlay.

Section theorems.
Context `{Build}.

Lemma runnable_lookup q s own sub t :
  runnable q s own sub → t ∈ own ++ sub → ∃ q' e, queue_entries_ s !! q' = Some e ∧ t ∈ delayed_tasks e.
Proof. intros [e He|e e' He _ _ _ He'] [Ht|Ht]%elem_of_app; try done; eauto. by apply elem_of_nil in Ht. Qed.

Lemma run_order_ne own sub : own ++ sub ≠ [] → run_order own sub ≠ [].
Proof.
  intros Hne Hn. apply Hne. apply Permutation_nil_r. by rewrite <- (run_order_perm own sub), Hn.
Qed.

Lemma next_wake_none own sub : own ++ sub = [] → next_wake own sub = TimePoint.Max.
Proof. by intros [-> ->]%app_eq_nil. Qed.

(** Replacing tasks keeps the wakeable; the wake-up is logged after the others. *)
Lemma wake_put_log q s own sub own' sub' e w t :
  runnable q s own sub → queue_entries_ s !! q = Some e → wakeable e = Some w →
  wake_log (wake q t (put_tasks q own' sub' s)) = wake_log s ++ [(w, t)].
Proof.
  intros Hr He Hw.
  assert (queue_entries_ (put_tasks q own' sub' s) !! q ≫= wakeable = Some w ∧
    wake_log (put_tasks q own' sub' s) = wake_log s) as [Hp1 Hp2].
  { unfold put_tasks. destruct Hr as [e0 He0 Hs0 Ho0|e0 e1 He0 Hs0 Ho0 Hq0 He1];
      rewrite He0 in He; injection He as ->; rewrite He0; simpl_links; [|rewrite He1]; split; try done.
    - by rewrite lookup_set_entry.
    - by rewrite lookup_set_entry_ne, lookup_set_entry. }
  unfold wake. rewrite Hp1. cbn. by rewrite Hp2.
Qed.

Lemma with_owner_of_id o x e : owner_of e = o → with_owner_of o (with_owner_of x e) = e.
Proof. destruct e. cbn. by intros <-. Qed.

Lemma with_subsumed_by_id o x e : subsumed_by e = o → with_subsumed_by o (with_subsumed_by x e) = e.
Proof. destruct e. cbn. by intros <-. Qed.

Lemma GetNumPendingTasks_owner owner subsumed s oe se :
  wf s → merged s owner oe subsumed se →
  GetNumPendingTasks owner s ⇓ length (delayed_tasks oe) + length (delayed_tasks se).
Proof.
  intros Hwf (Hoe & Hse & H1 & H2 & _). pose proof (live_not_unmerged _ _ _ Hwf Hse) as Hk.
  unfold GetNumPendingTasks. rewrite GetMutex_wf by (unfold live; eauto). cbn [mbind result_bind].
  rewrite (entry_at_Some _ _ _ Hoe). cbn [mbind result_bind].
  rewrite H1, H2, Z.eqb_refl, (proj2 (Z.eqb_neq _ _) Hk). cbn [negb].
  rewrite lock_at_wf by (unfold live; eauto). cbn [mbind result_bind].
  by rewrite (entry_at_Some _ _ _ Hse).
Qed.

Lemma GetNumPendingTasks_subsumed owner subsumed s oe se :
  wf s → merged s owner oe subsumed se → GetNumPendingTasks subsumed s ⇓ 0.
Proof.
  intros Hwf (Hoe & Hse & _ & _ & _ & H4 & _). pose proof (live_not_unmerged _ _ _ Hwf Hoe) as Hk.
  unfold GetNumPendingTasks. rewrite GetMutex_wf by (unfold live; eauto). cbn [mbind result_bind].
  rewrite (entry_at_Some _ _ _ Hse). cbn [mbind result_bind]. by rewrite H4, (proj2 (Z.eqb_neq _ _) Hk).
Qed.

(** C15: Starting from the empty registry, every sequence of legal public
    calls runs without a fault (no missing key, null entry, failed check or
    empty-queue access, in debug and release builds), and every state on the
    way keeps the links between owner and subsumed queues mutual and
    exclusive, the ids fresh, and each queue in execution order. *)
Theorem registry_calls_safe c s :
  reachable s → legal c s → ∃ s', exec c s ⇓ s' ∧ wf s' ∧ reachable s'.
Proof.
  intros Hr Hl. destruct (exec_legal c s (reachable_wf s Hr) Hl) as (s' & He & Hwf).
  eauto using reachable.
Qed.

(** C21: [GetTasksToRunNow] with [kAll] appends exactly the due tasks of the
    queue and of the queue it owns, those with an earlier target time first
    and those with the same target time in the order in which they were
    registered, whichever of the two queues they were posted to; the other
    tasks stay where they were, and nothing else in the registry changes but
    the wake-up it ends with.  This holds after any sequence of calls with
    fewer than [2^32] registrations, where the counter has not come round. *)
Theorem run_all_due posts q now invocations s own sub :
  reachable_by posts s → (Z.of_nat (length posts) < 2 ^ 32)%Z → runnable q s own sub → own ++ sub ≠ [] →
  ∃ (ran : list (DelayedTask * nat)) s',
    GetTasksToRunNow q kAll now invocations s ⇓ (invocations ++ (GetTask <$> ran.*1), s') ∧
    Forall (λ r, ∃ q', posts !! r.2 = Some (q', GetTask r.1, GetTargetTime r.1)) ran ∧
    StronglySorted (λ a b, (GetTargetTime a.1 < GetTargetTime b.1)%Z ∨
      (GetTargetTime a.1 = GetTargetTime b.1 ∧ a.2 ≤ b.2)) ran ∧
    ran.*1 ≡ₚ filter (λ t, GetTargetTime t ≤ now)%Z (own ++ sub) ∧
    runnable q s' (later_tasks now own) (later_tasks now sub) ∧
    queue_entries_ s' =
      queue_entries_ (put_tasks q (later_tasks now own) (later_tasks now sub) s).
Proof.
  intros Hby Hlen Hr Hne. pose proof (reachable_wf _ (reachable_n_reachable _ _ (reachable_by_n _ _ Hby))) as Hwf.
  destruct (wf_runnable_sorted _ _ _ _ Hwf Hr) as [Ho Hs]. pose proof (run_order_ne _ _ Hne) as Hne'.
  destruct (sorted_posted posts (due_tasks now (run_order own sub))) as (ran & Hran & Hposted & Hsorted); [done| | |].
  - by apply filter_sorted, run_order_sorted.
  - apply Forall_forall. intros t [_ Ht]%list_elem_of_filter. rewrite run_order_perm in Ht.
    destruct (runnable_lookup _ _ _ _ _ Hr Ht) as (q' & e & He & Hin). by eapply reachable_by_posted.
  - exists ran. eexists. split; [rewrite Hran; by apply GetTasks_all_eq|]. split_and!; [done..| | |].
    + rewrite Hran. unfold due_tasks. rewrite run_order_perm. done.
    + eapply runnable_entries; [apply queue_entries_wake|]. eapply runnable_put; [done|]. by intros ->.
    + apply queue_entries_wake.
Qed.

(** With [kSingle] at most one task runs: the first of the merged order,
    and only when it is due. *)
Theorem run_single_due q now invocations s own sub :
  reachable s → runnable q s own sub → own ++ sub ≠ [] →
  ∃ ran own' sub' s',
    GetTasksToRunNow q kSingle now invocations s ⇓ (invocations ++ (GetTask <$> ran), s') ∧
    runnable q s' own' sub' ∧
    run_order own sub = ran ++ run_order own' sub' ∧
    ((∃ t, ran = [t] ∧ due now t) ∨ (ran = [] ∧ Forall (λ t, ¬ due now t) (own ++ sub))).
Proof.
  intros Hwf%reachable_wf Hr Hne. destruct (wf_runnable_sorted _ _ _ _ Hwf Hr) as [Ho Hs].
  pose proof (run_order_ne _ _ Hne) as Hne'.
  destruct (GetTasks_single_eq q now invocations s own sub Hwf Hr Hne')
    as (own' & sub' & Heq & Hro & Hr' & _).
  eexists _, own', sub', _. split_and!; [exact Heq| |exact Hro|].
  { eapply runnable_entries; [apply queue_entries_wake|done]. }
  pose proof (run_order_later now _ _ Ho Hs) as Hl. rewrite Forall_app.
  destruct (run_order own sub) as [|t rest]; [done|]. cbn [take].
  destruct (decide (due now t)).
  - left. exists t. by rewrite filter_cons_True.
  - right. rewrite filter_cons_False by done. auto.
Qed.

(** After [GetTasksToRunNow] on a queue with tasks, the loop has been
    woken exactly once more, at a time no later than any task still visible
    to the queue, and at [TimePoint::Max()] when none is. *)
Theorem run_rearms_loop q type now invocations s own sub e w :
  reachable s → runnable q s own sub → own ++ sub ≠ [] →
  queue_entries_ s !! q = Some e → wakeable e = Some w →
  ∃ r s' own' sub' t,
    GetTasksToRunNow q type now invocations s ⇓ (r, s') ∧ runnable q s' own' sub' ∧
    wake_log s' = wake_log s ++ [(w, t)] ∧
    (∀ u, u ∈ own' ++ sub' → (t ≤ GetTargetTime u)%Z) ∧
    (own' ++ sub' = [] → t = TimePoint.Max).
Proof.
  intros Hwf%reachable_wf Hr Hne He Hw. destruct (wf_runnable_sorted _ _ _ _ Hwf Hr) as [Ho Hs].
  pose proof (run_order_ne _ _ Hne) as Hne'.
  assert (∃ r own' sub',
    GetTasksToRunNow q type now invocations s ⇓ (r, wake q (next_wake own' sub') (put_tasks q own' sub' s)) ∧
    runnable q (put_tasks q own' sub' s) own' sub' ∧ sorted_tasks own' ∧ sorted_tasks sub')
    as (r & own' & sub' & Heq & Hr' & Ho' & Hs').
  { destruct type.
    - destruct (GetTasks_single_eq q now invocations s own sub Hwf Hr Hne')
        as (own' & sub' & Heq & _ & Hr' & ? & ?).
      eexists _, own', sub'. split_and!; [exact Heq|done|by eapply sorted_tasks_suffix..].
    - eexists _, _, _. split_and!; [by apply GetTasks_all_eq| |by apply filter_sorted..].
      eapply runnable_put; [done|]. by intros ->. }
  eexists r, _, own', sub', (next_wake own' sub').
  split_and!; [exact Heq|eapply runnable_entries; [apply queue_entries_wake|done]|..].
  - by eapply wake_put_log.
  - intros. by apply next_wake_min.
  - apply next_wake_none.
Qed.

(** Up to [2^32] registrations (the [atomic_int] counter wraps on the
    way), [RegisterTask] queues a task behind every task of its queue that is
    not later and before every later one: tasks with the same target time run
    in the order they were posted. *)
Theorem register_fifo n q task time s s' e :
  reachable_n n s → (n < 2 ^ 32)%Z → queue_entries_ s !! q = Some e →
  RegisterTask q task time s ⇓ s' →
  (λ e', delayed_tasks e') <$> queue_entries_ s' !! q =
    Some (due_tasks time (delayed_tasks e) ++
          mkDelayedTask (nth_order n) task time :: later_tasks time (delayed_tasks e)).
Proof.
  intros Hn Hlt Hq Hreg. pose proof (reachable_wf _ (reachable_n_reachable _ _ Hn)) as Hwf.
  destruct (reachable_n_orders _ _ Hn) as (? & Ho & Hbelow).
  destruct (Register_eq q task time s e Hwf Hq) as (top & _ & Heq).
  rewrite Hreg in Heq. injection Heq as ->. rewrite queue_entries_wake, lookup_set_entry. cbn. f_equal.
  unfold next_order. rewrite Ho. fold (nth_order n).
  apply (pq_push_latest (mkDelayedTask (nth_order n) task time)); [by eapply wf_tasks|].
  apply Forall_forall. intros t Ht. destruct (Hbelow _ _ _ Hq Ht) as (i & ? & ->). cbn.
  by apply nth_order_mono.
Qed.

(** On a queue that is not merged, [RegisterTask] wakes the loop once, at
    the earliest target time of the queue, the new task included. *)
Theorem register_wakes_earliest q task time s e w :
  reachable s → queue_entries_ s !! q = Some e → wakeable e = Some w →
  owner_of e = kUnmerged → subsumed_by e = kUnmerged →
  ∃ s' t, RegisterTask q task time s ⇓ s' ∧ wake_log s' = wake_log s ++ [(w, t)] ∧
    (t ≤ time)%Z ∧ Forall (λ u, t ≤ GetTargetTime u)%Z (delayed_tasks e) ∧
    (t = time ∨ ∃ u, u ∈ delayed_tasks e ∧ GetTargetTime u = t).
Proof.
  intros Hwf%reachable_wf Hq Hw Ho Hs.
  destruct (Register_eq q task time s e Hwf Hq) as (top & Htop & Heq).
  rewrite decide_True in Heq by done. eexists _, (GetTargetTime top). split; [exact Heq|]. split.
  { unfold wake. rewrite lookup_set_entry. cbn. by rewrite Hw. }
  set (new := mkDelayedTask (next_order s) task time) in *.
  pose proof (pq_push_sorted new _ (wf_tasks s Hwf _ _ Hq)) as Hsort.
  pose proof (pq_push_perm new (delayed_tasks e)) as Hperm.
  destruct (pq_push new (delayed_tasks e)) as [|t l]; [done|]. injection Htop as ->.
  apply sorted_tasks_cons in Hsort as [Hle _].
  assert (Hall : Forall (λ u, GetTargetTime top ≤ GetTargetTime u)%Z (new :: delayed_tasks e)).
  { rewrite <- Hperm. constructor; [done|]. eapply Forall_impl; [exact Hle|]. apply task_le_time. }
  apply Forall_cons in Hall as [H1 H2]. split_and!; [done..|].
  assert (top ∈ new :: delayed_tasks e) as [->|Hin]%elem_of_cons by (rewrite <- Hperm; by left).
  - by left.
  - right. eauto.
Qed.

(** C24: A successful [Merge] of two unlinked queues pools their tasks under
    the owner (the subsumed queue reports none), and [Unmerge] of that owner
    then restores every queue exactly as it was. *)
Theorem merge_unmerge_roundtrip owner subsumed s oe se :
  reachable s → owner ≠ subsumed →
  queue_entries_ s !! owner = Some oe → queue_entries_ s !! subsumed = Some se →
  owner_of oe = kUnmerged → subsumed_by oe = kUnmerged →
  owner_of se = kUnmerged → subsumed_by se = kUnmerged →
  ∃ s1 s2,
    Merge owner subsumed s ⇓ (true, s1) ∧
    runnable owner s1 (delayed_tasks oe) (delayed_tasks se) ∧
    GetNumPendingTasks owner s1 ⇓ length (delayed_tasks oe) + length (delayed_tasks se) ∧
    GetNumPendingTasks subsumed s1 ⇓ 0 ∧
    Unmerge owner s1 ⇓ (true, s2) ∧ queue_entries_ s2 = queue_entries_ s.
Proof.
  intros Hwf%reachable_wf Hne Hoe Hse H1 H2 H3 H4.
  pose proof (link_wf _ _ _ _ _ Hwf Hne Hoe Hse H1 H2 H3 H4) as Hwf1.
  pose proof (wake_pending_wf owner (delayed_tasks oe) (delayed_tasks se) _ Hwf1) as Hwf1'.
  set (s1 := wake_pending owner _ _ _) in *.
  assert (He1 : queue_entries_ s1 = queue_entries_ (link owner oe subsumed se s))
    by apply queue_entries_wake_pending.
  assert (Hm : merged s1 owner (with_owner_of subsumed oe) subsumed (with_subsumed_by owner se)).
  { unfold merged. rewrite He1. unfold link. split_and!; try done; [|apply lookup_set_entry].
    rewrite lookup_set_entry_ne by done. apply lookup_set_entry. }
  exists s1. eexists. split_and!; [by apply Merge_links|..|by apply Unmerge_links|].
  - eapply runnable_entries; [exact He1|]. by apply link_runnable.
  - by apply (GetNumPendingTasks_owner owner subsumed s1 _ _ Hwf1' Hm).
  - by apply (GetNumPendingTasks_subsumed owner subsumed s1 _ _ Hwf1' Hm).
  - rewrite !queue_entries_wake_pending. unfold unlink, set_entry; cbn.
    rewrite He1. unfold link, set_entry; cbn. apply map_eq. intros q.
    rewrite !lookup_insert. repeat case_decide; subst; try done.
    + rewrite Hoe. f_equal. by apply with_owner_of_id.
    + rewrite Hse. f_equal. by apply with_subsumed_by_id.
Qed.

(** [Merge] answers [true] exactly when the two queues are the same, are
    already merged in this direction, or are both unlinked; otherwise it
    answers [false] and changes nothing. *)
Theorem merge_answer owner subsumed s oe se :
  reachable s → queue_entries_ s !! owner = Some oe → queue_entries_ s !! subsumed = Some se →
  ∃ b s', Merge owner subsumed s ⇓ (b, s') ∧ (b = false → s' = s) ∧
    (b = true ↔ owner = subsumed ∨ owner_of oe = subsumed ∨
       (owner_of oe = kUnmerged ∧ subsumed_by oe = kUnmerged ∧
        owner_of se = kUnmerged ∧ subsumed_by se = kUnmerged)).
Proof.
  intros Hwf%reachable_wf Hoe Hse. destruct (decide (owner = subsumed)) as [<-|Hne].
  { exists true, s. split; [|naive_solver]. unfold Merge. by rewrite Z.eqb_refl. }
  destruct (decide (owner_of oe = subsumed)) as [Ho|Ho].
  { exists true, s. split; [by eapply Merge_again|naive_solver]. }
  destruct (decide (owner_of oe = kUnmerged ∧ subsumed_by oe = kUnmerged ∧
     owner_of se = kUnmerged ∧ subsumed_by se = kUnmerged)) as [(?&?&?&?)|Hl].
  - eexists true, _. split; [by apply Merge_links|]. split; [done|]. naive_solver.
  - exists false, s. split; [by eapply Merge_refused|]. split; [done|]. split; [done|].
    intros [?|[?|?]]; by exfalso; eauto.
Qed.
End theorems.

(** ** Concrete runs *)

Local Open Scope Z_scope.

Lemma registry_calls_safe_witness :
  ∃ s', exec (H := debug_build) (UnmergeC 0) (played merged_loops) ⇓ s' ∧ wf s' ∧
    reachable (H := debug_build) s'.
Proof.
  apply (registry_calls_safe (H := debug_build) (UnmergeC 0) (played merged_loops)).
  - apply (played_reachable _ 2). by vm_compute.
  - apply legalb_legal. by vm_compute.
Defined.

Lemma run_all_due_witness :
  ∃ (ran : list (DelayedTask * nat)) s', GetTasksToRunNow (H := debug_build) 0 kAll 70 [] (played merged_loops) ⇓
      ([] ++ (GetTask <$> ran.*1), s') ∧
    Forall (λ r, ∃ q', omap post_of merged_loops !! r.2 = Some (q', GetTask r.1, GetTargetTime r.1)) ran ∧
    StronglySorted (λ a b, GetTargetTime a.1 < GetTargetTime b.1 ∨
      (GetTargetTime a.1 = GetTargetTime b.1 ∧ (a.2 ≤ b.2)%nat)) ran ∧
    ran.*1 ≡ₚ filter (λ t, GetTargetTime t ≤ 70) (delayed_tasks (entry_of 0 (played merged_loops)) ++
                           delayed_tasks (entry_of 1 (played merged_loops))) ∧
    runnable 0 s' (later_tasks 70 (delayed_tasks (entry_of 0 (played merged_loops))))
      (later_tasks 70 (delayed_tasks (entry_of 1 (played merged_loops)))) ∧
    queue_entries_ s' = queue_entries_ (put_tasks 0
      (later_tasks 70 (delayed_tasks (entry_of 0 (played merged_loops))))
      (later_tasks 70 (delayed_tasks (entry_of 1 (played merged_loops)))) (played merged_loops)).
Proof.
  apply (run_all_due (H := debug_build) (omap post_of merged_loops) 0 70 [] (played merged_loops)).
  - apply (played_reachable_by _ 2). by vm_compute.
  - done.
  - apply merged_runnable.
  - by vm_compute.
Defined.

Lemma run_single_due_witness :
  ∃ ran own' sub' s',
    GetTasksToRunNow (H := debug_build) 0 kSingle 70 [] (played merged_loops) ⇓
      ([] ++ (GetTask <$> ran), s') ∧ runnable 0 s' own' sub' ∧
    run_order (delayed_tasks (entry_of 0 (played merged_loops)))
      (delayed_tasks (entry_of 1 (played merged_loops))) = ran ++ run_order own' sub' ∧
    ((∃ t, ran = [t] ∧ due 70 t) ∨
     (ran = [] ∧ Forall (λ t, ¬ due 70 t) (delayed_tasks (entry_of 0 (played merged_loops)) ++
                           delayed_tasks (entry_of 1 (played merged_loops))))).
Proof.
  apply (run_single_due (H := debug_build) 0 70 [] (played merged_loops)).
  - apply (played_reachable _ 2). by vm_compute.
  - apply merged_runnable.
  - by vm_compute.
Defined.

Lemma run_rearms_loop_witness :
  ∃ r s' own' sub' t,
    GetTasksToRunNow (H := debug_build) 0 kAll 70 [] (played merged_loops) ⇓ (r, s') ∧
    runnable 0 s' own' sub' ∧ wake_log s' = wake_log (played merged_loops) ++ [(10%nat, t)] ∧
    (∀ u, u ∈ own' ++ sub' → t ≤ GetTargetTime u) ∧ (own' ++ sub' = [] → t = TimePoint.Max).
Proof.
  apply (run_rearms_loop (H := debug_build) 0 kAll 70 [] (played merged_loops) _ _
           (entry_of 0 (played merged_loops)) 10 ltac:(apply (played_reachable _ 2); by vm_compute)
           merged_runnable); by vm_compute.
Defined.

Lemma register_fifo_witness :
  (λ e', delayed_tasks e') <$> queue_entries_ (played (two_loops ++ [RegisterTaskC 0 (Some 3%nat) 100])) !! 0 =
    Some (due_tasks 100 (delayed_tasks (entry_of 0 (played two_loops))) ++
          mkDelayedTask (nth_order 2) (Some 3%nat) 100 ::
          later_tasks 100 (delayed_tasks (entry_of 0 (played two_loops)))).
Proof.
  apply (register_fifo (H := debug_build) 2 0 (Some 3%nat) 100 (played two_loops) _
           (entry_of 0 (played two_loops)) played_two_loops); by vm_compute.
Defined.

Lemma register_wakes_earliest_witness :
  ∃ s' t, RegisterTask (H := debug_build) 0 (Some 3%nat) 40 (played two_loops) ⇓ s' ∧
    wake_log s' = wake_log (played two_loops) ++ [(10%nat, t)] ∧ t ≤ 40 ∧
    Forall (λ u, t ≤ GetTargetTime u) (delayed_tasks (entry_of 0 (played two_loops))) ∧
    (t = 40 ∨ ∃ u, u ∈ delayed_tasks (entry_of 0 (played two_loops)) ∧ GetTargetTime u = t).
Proof.
  apply (register_wakes_earliest (H := debug_build) 0 (Some 3%nat) 40 (played two_loops)
           (entry_of 0 (played two_loops)) 10 ltac:(apply (played_reachable _ 2); by vm_compute));
    by vm_compute.
Defined.

Lemma merge_unmerge_roundtrip_witness :
  ∃ s1 s2, Merge (H := debug_build) 0 1 (played two_loops) ⇓ (true, s1) ∧
    runnable 0 s1 (delayed_tasks (entry_of 0 (played two_loops)))
      (delayed_tasks (entry_of 1 (played two_loops))) ∧
    GetNumPendingTasks (H := debug_build) 0 s1 ⇓ 2%nat ∧
    GetNumPendingTasks (H := debug_build) 1 s1 ⇓ 0%nat ∧
    Unmerge (H := debug_build) 0 s1 ⇓ (true, s2) ∧
    queue_entries_ s2 = queue_entries_ (played two_loops).
Proof.
  apply (merge_unmerge_roundtrip (H := debug_build) 0 1 (played two_loops)
           (entry_of 0 (played two_loops)) (entry_of 1 (played two_loops))
           ltac:(apply (played_reachable _ 2); by vm_compute)); by vm_compute.
Defined.

Lemma merge_answer_witness :
  ∃ b s', Merge (H := debug_build) 1 0 (played merged_loops) ⇓ (b, s') ∧ (b = false → s' = played merged_loops) ∧
    (b = true ↔ 1 = 0 ∨ owner_of (entry_of 1 (played merged_loops)) = 0 ∨
       (owner_of (entry_of 1 (played merged_loops)) = kUnmerged ∧
        subsumed_by (entry_of 1 (played merged_loops)) = kUnmerged ∧
        owner_of (entry_of 0 (played merged_loops)) = kUnmerged ∧
        subsumed_by (entry_of 0 (played merged_loops)) = kUnmerged)).
Proof.
  apply (merge_answer (H := debug_build) 1 0 (played merged_loops)
           (entry_of 1 (played merged_loops)) (entry_of 0 (played merged_loops))
           ltac:(apply (played_reachable _ 2); by vm_compute)); by vm_compute.
Defined.

(** On merged queues [RegisterTask] does not keep the wake-up early
    enough: it wakes the owner at the top of the queue it pushed to, although
    the other queue of the pair may hold an earlier task, which a timer
    re-armed by that wake-up then misses. *)
Theorem register_merged_wakes_late :
  ∃ s s' w t u,
    reachable (H := debug_build) s ∧
    RegisterTask (H := debug_build) 1 (Some 3%nat) 500 s ⇓ s' ∧
    last (wake_log s') = Some (w, t) ∧
    (entry_of 0 s') .(wakeable) = Some w ∧ owner_of (entry_of 0 s') = 1 ∧
    u ∈ delayed_tasks (entry_of 0 s') ∧ GetTargetTime u < t.
Proof.
  set (cs := [CreateTaskQueueC; SetWakeableC 0 (Some 10%nat); CreateTaskQueueC;
              RegisterTaskC 0 (Some 1%nat) 100; MergeC 0 1]).
  exists (played cs), (played (cs ++ [RegisterTaskC 1 (Some 3%nat) 500])), 10%nat, 500,
    (mkDelayedTask 0 (Some 1%nat) 100).
  split; [apply (played_reachable _ 1); by vm_compute|].
  split_and!; try by vm_compute. vm_compute. by left.
Qed.
