(* ===== verification/GpuThreadMerger.v ===== *)
(** * GpuThreadMerger: the lease on the merged platform and GPU threads

    Model of [fml::GpuThreadMerger] (fml/gpu_thread_merger.{h,cc}).  The
    merger is a client of the task-queue registry: it is written and proved
    against the class [MergeQueues], which states what it relies on, and
    [registry_merge_queues] shows that the registry of TaskQueues.v provides
    it.  The contract is a lease counter: the threads stay merged until the
    lease has been decremented to zero. *)

From Stdlib Require Import ZArith Lia.
From stdpp Require Import base sorting gmap numbers list.
From S2P Require Import Prelude Time StdMap TaskQueues TaskOrder TaskQueuesRun TaskQueuesInv.
From S2P Require Import TaskQueuesSpec TaskQueuesSafety TaskQueuesFifo TaskQueuesPlay.

Local Open Scope Z_scope.

(** ** What the merger needs from the queues *)

(** [api_Merge] and the rest are the registry's calls on a state [S];
    [apart s p g] says that [p] and [g] are two queues linked to nothing,
    [paired s p g] that [p] owns [g], and [bystander p g s s'] that another
    client moved the registry from [s] to [s'] without touching the links of
    [p] and [g]. *)
Class MergeQueues (S : Type) := {
  api_Merge : TaskQueueId → TaskQueueId → S → result (bool * S);
  api_Unmerge : TaskQueueId → S → result (bool * S);
  api_Owns : TaskQueueId → TaskQueueId → S → result bool;
  apart : S → TaskQueueId → TaskQueueId → Prop;
  paired : S → TaskQueueId → TaskQueueId → Prop;
  bystander : TaskQueueId → TaskQueueId → S → S → Prop;
}.

Class MergeQueuesLaws (S : Type) `{MergeQueues S} := {
  apart_Merge s p g : apart s p g → ∃ s', api_Merge p g s ⇓ (true, s') ∧ paired s' p g;
  paired_Unmerge s p g : paired s p g → ∃ s', api_Unmerge p s ⇓ (true, s') ∧ apart s' p g;
  apart_Owns s p g : apart s p g → api_Owns p g s ⇓ false;
  apart_distinct s p g : apart s p g → p ≠ g;
  paired_distinct s p g : paired s p g → p ≠ g;
  bystander_apart s s' p g : bystander p g s s' → apart s p g → apart s' p g;
  bystander_paired s s' p g : bystander p g s s' → paired s p g → paired s' p g;
}.

(** ** The merger *)

Inductive GpuThreadStatus := kRemainsMerged | kRemainsUnmerged | kUnmergedNow.

#[export] Instance GpuThreadStatus_eq_dec : EqDecision GpuThreadStatus.
Proof. solve_decision. Defined.

Definition kLeaseNotSet : Z := -1.

Record GpuThreadMerger := mkMerger {
  platform_queue_id_ : TaskQueueId;
  gpu_queue_id_ : TaskQueueId;
  lease_term_ : Z;
  is_merged_ : bool;
}.

Definition with_lease lease m :=
  mkMerger (platform_queue_id_ m) (gpu_queue_id_ m) lease (is_merged_ m).
Definition with_merged b m :=
  mkMerger (platform_queue_id_ m) (gpu_queue_id_ m) (lease_term_ m) b.

Section merger.
Context `{Build} {S : Type} `{MergeQueues S}.

Definition new_merger (platform_queue_id gpu_queue_id : TaskQueueId) (s : S)
    : result GpuThreadMerger :=
  is_merged ← api_Owns platform_queue_id gpu_queue_id s;
  mret (mkMerger platform_queue_id gpu_queue_id kLeaseNotSet is_merged).

(** [lease_term] is a [size_t]; [lease_term_] an [atomic_int]. *)
Definition MergeWithLease (lease_term : Z) (m : GpuThreadMerger) (s : S)
    : result (GpuThreadMerger * S) :=
  _ ← fml_dcheck (0 <? lease_term);
  if negb (is_merged_ m) then
    '(merged, s) ← api_Merge (platform_queue_id_ m) (gpu_queue_id_ m) s;
    mret (with_lease (wrapS 32 lease_term) (with_merged merged m), s)
  else mret (m, s).

(** The current queue is what [MessageLoop::GetCurrentTaskQueueId] returns. *)
Definition IsOnRasterizingThread (current_queue_id : TaskQueueId) (m : GpuThreadMerger) : bool :=
  if is_merged_ m then current_queue_id =? platform_queue_id_ m
  else current_queue_id =? gpu_queue_id_ m.

Definition ExtendLeaseTo (lease_term : Z) (m : GpuThreadMerger) : result GpuThreadMerger :=
  _ ← fml_dcheck (0 <? lease_term);
  if negb (lease_term_ m =? kLeaseNotSet) && (lease_term_ m <? wrapS 32 lease_term)
  then mret (with_lease (wrapS 32 lease_term) m)
  else mret m.

Definition IsMerged (m : GpuThreadMerger) : bool := is_merged_ m.

Definition DecrementLease (m : GpuThreadMerger) (s : S)
    : result (GpuThreadStatus * GpuThreadMerger * S) :=
  if negb (is_merged_ m) then mret (kRemainsUnmerged, m, s)
  else if lease_term_ m =? kLeaseNotSet then mret (kRemainsUnmerged, m, s)
  else
    _ ← fml_dcheck (0 <? lease_term_ m);
    let m := with_lease (wrapS 32 (lease_term_ m - 1)) m in
    if lease_term_ m =? 0 then
      '(success, s) ← api_Unmerge (platform_queue_id_ m) s;
      _ ← fml_check success;
      mret (kUnmergedNow, with_merged false m, s)
    else mret (kRemainsMerged, m, s).

(** ** The lease contract *)

Inductive lease := Split | Leased (n : Z).

Definition leased (a : lease) : bool := match a with Split => false | Leased _ => true end.

Inductive merger_call :=
  | MergeWithLeaseC (n : Z)
  | ExtendLeaseToC (n : Z)
  | DecrementLeaseC.

Definition lease_step (c : merger_call) (a : lease) : option GpuThreadStatus * lease :=
  match c, a with
  | MergeWithLeaseC n, Split => (None, Leased n)
  | ExtendLeaseToC n, Leased k => (None, Leased (Z.max k n))
  | DecrementLeaseC, Split => (Some kRemainsUnmerged, Split)
  | DecrementLeaseC, Leased k =>
      if k =? 1 then (Some kUnmergedNow, Split) else (Some kRemainsMerged, Leased (k - 1))
  | _, a => (None, a)
  end.

Definition merger_exec (c : merger_call) (m : GpuThreadMerger) (s : S)
    : result (option GpuThreadStatus * GpuThreadMerger * S) :=
  match c with
  | MergeWithLeaseC n => '(m, s) ← MergeWithLease n m s; mret (None, m, s)
  | ExtendLeaseToC n => m ← ExtendLeaseTo n m; mret (None, m, s)
  | DecrementLeaseC => '(r, m, s) ← DecrementLease m s; mret (Some r, m, s)
  end.

(** Lease terms fit the [int] they are stored in. *)
Definition call_ok (c : merger_call) : Prop :=
  match c with
  | MergeWithLeaseC n | ExtendLeaseToC n => 0 < n < 2 ^ 31
  | DecrementLeaseC => True
  end.

Definition merger_related (p g : TaskQueueId) (a : lease) (m : GpuThreadMerger) (s : S) : Prop :=
  platform_queue_id_ m = p ∧ gpu_queue_id_ m = g ∧
  match a with
  | Split => is_merged_ m = false ∧ apart s p g
  | Leased n => is_merged_ m = true ∧ lease_term_ m = n ∧ 0 < n < 2 ^ 31 ∧ paired s p g
  end.

(** A run of a merger: its calls in order, with other clients of the registry
    moving in between. *)
Inductive merger_run : list merger_call → GpuThreadMerger → S →
    list (option GpuThreadStatus) → GpuThreadMerger → S → Prop :=
  | run_done m s : merger_run [] m s [] m s
  | run_other cs m s s1 rs m' s' :
      bystander (platform_queue_id_ m) (gpu_queue_id_ m) s s1 →
      merger_run cs m s1 rs m' s' → merger_run cs m s rs m' s'
  | run_call c cs m s r m1 s1 rs m' s' :
      merger_exec c m s ⇓ (r, m1, s1) → merger_run cs m1 s1 rs m' s' →
      merger_run (c :: cs) m s (r :: rs) m' s'.

Fixpoint lease_run (cs : list merger_call) (a : lease) : list (option GpuThreadStatus) * lease :=
  match cs with
  | [] => ([], a)
  | c :: cs => let '(r, a) := lease_step c a in let '(rs, a) := lease_run cs a in (r :: rs, a)
  end.

Context `{!MergeQueuesLaws S}.
Set Default Proof Using "Type*".

Lemma lease_fits n : 0 < n < 2 ^ 31 → wrapS 32 n = n.
Proof. intros. apply wrapS_id; lia. Qed.

Lemma dcheck_pos n : 0 < n → fml_dcheck (0 <? n) ⇓ tt.
Proof. intros Hn. rewrite (proj2 (Z.ltb_lt _ _) Hn). apply fml_dcheck_true. Qed.

Lemma MergeWithLease_related p g a m s n :
  merger_related p g a m s → 0 < n < 2 ^ 31 →
  ∃ m' s', MergeWithLease n m s ⇓ (m', s') ∧
    merger_related p g (lease_step (MergeWithLeaseC n) a).2 m' s'.
Proof.
  intros (Hp & Hg & Hr) Hn. unfold MergeWithLease. rewrite dcheck_pos by lia. cbn [mbind result_bind].
  destruct a as [|k].
  - destruct Hr as [Hm Ha]. rewrite Hm, Hp, Hg; cbn [negb].
    destruct (apart_Merge _ _ _ Ha) as (s' & -> & Hpair). cbn.
    eexists _, _. split; [done|]. unfold merger_related; cbn. by rewrite lease_fits by done.
  - destruct Hr as (Hm & Hr). rewrite Hm; cbn [negb]. by eexists _, _.
Qed.

Lemma ExtendLeaseTo_related p g a m s n :
  merger_related p g a m s → 0 < n < 2 ^ 31 →
  ∃ m', ExtendLeaseTo n m ⇓ m' ∧ merger_related p g (lease_step (ExtendLeaseToC n) a).2 m' s.
Proof.
  intros (Hp & Hg & Hr) Hn. unfold ExtendLeaseTo. rewrite dcheck_pos by lia. cbn [mbind result_bind].
  rewrite lease_fits by done. destruct a as [|k].
  - by case_match; eexists; (split; [done|]).
  - destruct Hr as (Hm & Hk & Hrange & Hpair). rewrite Hk. unfold kLeaseNotSet.
    destruct (Z.ltb_spec k n) as [Hlt|Hlt]; rewrite ?andb_false_r, ?andb_true_r.
    + rewrite (proj2 (Z.eqb_neq _ _)) by lia. eexists. split; [done|].
      unfold merger_related; cbn. by rewrite Z.max_r by lia.
    + eexists. split; [done|]. unfold merger_related; cbn. by rewrite Z.max_l by lia.
Qed.

Lemma DecrementLease_related p g a m s :
  merger_related p g a m s →
  ∃ r m' s', DecrementLease m s ⇓ (r, m', s') ∧
    (lease_step DecrementLeaseC a).1 = Some r ∧
    merger_related p g (lease_step DecrementLeaseC a).2 m' s'.
Proof.
  unfold DecrementLease. intros (Hp & Hg & Hr). destruct a as [|k]; cbn [lease_step].
  - destruct Hr as [Hm Ha]. rewrite Hm. by eexists _, m, s.
  - destruct Hr as (Hm & Hk & Hrange & Hpair). rewrite Hm, Hk; cbn [negb]. unfold kLeaseNotSet.
    rewrite (proj2 (Z.eqb_neq _ _)), dcheck_pos by lia. cbn [mbind result_bind lease_term_ with_lease].
    rewrite wrapS_id by lia. destruct (Z.eqb_spec k 1) as [->|Hne]; cbn.
    + rewrite Hp. destruct (paired_Unmerge _ _ _ Hpair) as (s' & -> & Ha). cbn. by eexists _, _, _.
    + rewrite (proj2 (Z.eqb_neq _ _)) by lia. eexists _, _, _. split; [done|]. split; [done|].
      unfold merger_related; cbn. split_and!; (done || lia).
Qed.

Lemma merger_step_related p g c a m s :
  merger_related p g a m s → call_ok c →
  ∃ m' s', merger_exec c m s ⇓ ((lease_step c a).1, m', s') ∧
    merger_related p g (lease_step c a).2 m' s'.
Proof.
  intros Hr Hc. destruct c as [n|n|]; cbn [merger_exec].
  - destruct (MergeWithLease_related _ _ _ _ _ _ Hr Hc) as (m' & s' & -> & Hr'). cbn.
    exists m', s'. split; [by destruct a|done].
  - destruct (ExtendLeaseTo_related _ _ _ _ _ _ Hr Hc) as (m' & -> & Hr'). cbn.
    exists m', s. split; [by destruct a|done].
  - destruct (DecrementLease_related _ _ _ _ _ Hr) as (r & m' & s' & -> & -> & Hr'). cbn. eauto.
Qed.

Lemma related_other p g a m s s' :
  bystander p g s s' → merger_related p g a m s → merger_related p g a m s'.
Proof.
  intros Hb (Hp & Hg & Hr). split_and!; [done|done|]. destruct a.
  - destruct Hr as [? ?]. split; [done|]. by eapply bystander_apart.
  - destruct Hr as (? & ? & ? & ?). split_and!; try (done || lia). by eapply bystander_paired.
Qed.

Lemma merger_run_related p g cs m s rs m' s' a :
  merger_run cs m s rs m' s' → merger_related p g a m s → Forall call_ok cs →
  (lease_run cs a).1 = rs ∧ merger_related p g (lease_run cs a).2 m' s'.
Proof.
  intros Hrun. revert a.
  induction Hrun as [|cs m s s1 rs m' s' Hb _ IH|c cs m s r m1 s1 rs m' s' He _ IH]; intros a Hr Hok.
  - done.
  - apply IH; [|done]. pose proof Hr as (Hp & Hg & _). rewrite Hp, Hg in Hb. by eapply related_other.
  - apply Forall_cons in Hok as [Hc Hok].
    destruct (merger_step_related _ _ c a m s Hr Hc) as (m2 & s2 & He' & Hr'). rewrite He in He'.
    injection He' as -> -> ->. destruct (IH _ Hr' Hok) as [<- Hf]. cbn.
    destruct (lease_step c a) as [r' a']. cbn in *. by destruct (lease_run cs a').
Qed.

Lemma lease_run_drain k :
  0 < k →
  lease_run (replicate (Z.to_nat k) DecrementLeaseC) (Leased k) =
    (replicate (Z.to_nat (k - 1)) (Some kRemainsMerged) ++ [Some kUnmergedNow], Split).
Proof.
  intros Hk. pattern k. apply Zlt_lower_bound_ind with (z := 1); [|lia].
  clear k Hk. intros k IH Hk. replace (Z.to_nat k) with (Datatypes.S (Z.to_nat (k - 1))) by lia.
  cbn [replicate lease_run lease_step]. destruct (Z.eqb_spec k 1) as [->|Hne]; [done|].
  rewrite IH by lia. replace (Z.to_nat (k - 1)) with (Datatypes.S (Z.to_nat (k - 1 - 1))) by lia.
  done.
Qed.

(** ** Claims *)

(** C25: A merger refines a lease counter over its whole life.  Let it be made
    over two queues that are linked to nothing, and let any sequence of its
    calls run, with lease terms that fit an [int], interleaved with calls of
    other clients of the registry that leave the links of the two queues
    alone.  Then every call has reported what the counter reports (the unmerge
    at the decrement that takes it to zero); the threads are merged, in the
    merger's flag and in the registry, exactly while the counter runs; the
    lease is the counter's; exactly one of the two queues is the rasterizing
    one, the platform queue while the lease runs; and every further call
    returns. *)
Theorem merger_refines_lease p g cs m0 s0 rs m s :
  apart s0 p g → new_merger p g s0 ⇓ m0 → Forall call_ok cs → merger_run cs m0 s0 rs m s →
  rs = (lease_run cs Split).1 ∧
  match (lease_run cs Split).2 with
  | Split => IsMerged m = false ∧ apart s p g ∧
      IsOnRasterizingThread p m = false ∧ IsOnRasterizingThread g m = true
  | Leased n => IsMerged m = true ∧ paired s p g ∧ lease_term_ m = n ∧ 0 < n ∧
      IsOnRasterizingThread p m = true ∧ IsOnRasterizingThread g m = false
  end ∧
  ∀ c, call_ok c → ∃ r m' s', merger_exec c m s ⇓ (r, m', s').
Proof.
  intros Ha Hnew Hok Hrun. unfold new_merger in Hnew. rewrite (apart_Owns _ _ _ Ha) in Hnew. apply Ok_inj in Hnew as <-.
  apply (merger_run_related p g _ _ _ _ _ _ Split) in Hrun as [<- Hr]; [|done|done]. split; [done|]. split.
  - unfold IsMerged, IsOnRasterizingThread. destruct Hr as (-> & -> & Hr). destruct (lease_run cs Split).2 as [|k].
    + destruct Hr as [-> Ha']. pose proof (apart_distinct _ _ _ Ha'). rewrite Z.eqb_refl. split_and!; [done..| |done]. lia.
    + destruct Hr as (-> & -> & ? & Hp). pose proof (paired_distinct _ _ _ Hp). rewrite Z.eqb_refl. split_and!; try (done || lia).
  - intros c Hc. destruct (merger_step_related p g c _ m s Hr Hc) as (m' & s' & He & _). eauto.
Qed.

(** Whatever the other clients of the queues do in between, a merger
    created over two unlinked queues and merged with lease [n] reports
    [kRemainsMerged] for [n - 1] decrements and [kUnmergedNow] at the [n]-th,
    after which the queues are unlinked again. *)
Theorem lease_lifecycle p g n s m rs m' s' :
  apart s p g → new_merger p g s ⇓ m → 0 < n < 2 ^ 31 →
  merger_run (MergeWithLeaseC n :: replicate (Z.to_nat n) DecrementLeaseC) m s rs m' s' →
  rs = None :: replicate (Z.to_nat (n - 1)) (Some kRemainsMerged) ++ [Some kUnmergedNow] ∧
  IsMerged m' = false ∧ apart s' p g.
Proof.
  intros Ha Hnew Hn Hrun. unfold new_merger in Hnew. rewrite (apart_Owns _ _ _ Ha) in Hnew.
  apply Ok_inj in Hnew as <-.
  apply (merger_run_related p g _ _ _ _ _ _ Split) in Hrun; [|done|].
  - cbn [lease_run lease_step] in Hrun. rewrite lease_run_drain in Hrun by lia.
    destruct Hrun as [<- (_ & _ & ? & ?)]. done.
  - constructor; [done|]. by apply Forall_replicate.
Qed.
End merger.

(** ** The registry provides the interface *)

Section registry.
Context `{Build}.

#[export] Instance registry_merge_queues : MergeQueues Queues := {|
  api_Merge := Merge;
  api_Unmerge := Unmerge;
  api_Owns := Owns;
  apart s p g := reachable s ∧ p ≠ g ∧ links s p = Some (kUnmerged, kUnmerged) ∧
    links s g = Some (kUnmerged, kUnmerged);
  paired s p g := reachable s ∧ p ≠ g ∧ links s p = Some (g, kUnmerged) ∧
    links s g = Some (kUnmerged, p);
  bystander p g s s' := ∃ c, legal c s ∧ exec c s ⇓ s' ∧
    links s' p = links s p ∧ links s' g = links s g;
|}.

Lemma Owns_links p g s o b :
  wf s → links s p = Some (o, b) → Owns p g s ⇓ ((g =? o) || (p =? g)).
Proof.
  intros Hwf (e & He & <- & <-)%links_Some. unfold Owns.
  rewrite GetMutex_wf by (unfold live; eauto). cbn [mbind result_bind].
  by rewrite (entry_at_Some _ _ _ He).
Qed.

Lemma registry_apart_Merge s p g : apart s p g → ∃ s', Merge p g s ⇓ (true, s') ∧ paired s' p g.
Proof.
  intros (Hr & Hne & (oe & Hoe & Ho1 & Ho2)%links_Some & (se & Hse & Hs1 & Hs2)%links_Some).
  pose proof (reachable_wf s Hr) as Hwf.
  pose proof (Merge_links p g oe se s Hwf Hne Hoe Hse Ho1 Ho2 Hs1 Hs2) as Hm.
  eexists. split; [exact Hm|]. split; [|split; [done|]].
  - apply (reachable_step (MergeC p g) s); [done|right; unfold live; eauto|]. cbn. by rewrite Hm.
  - unfold links. rewrite queue_entries_wake_pending. unfold link.
    rewrite (lookup_set_entry_ne g p), !lookup_set_entry by done. cbn. by rewrite Ho2, Hs1.
Qed.

Lemma registry_paired_Unmerge s p g : paired s p g → ∃ s', Unmerge p s ⇓ (true, s') ∧ apart s' p g.
Proof.
  intros (Hr & Hne & (oe & Hoe & Ho1 & Ho2)%links_Some & (se & Hse & Hs1 & Hs2)%links_Some).
  pose proof (reachable_wf s Hr) as Hwf.
  assert (Hm : merged s p oe g se) by by split_and!.
  pose proof (Unmerge_links _ _ _ _ _ Hwf Hm) as Hun. eexists. split; [exact Hun|].
  split; [|split; [done|]].
  - apply (reachable_step (UnmergeC p) s); [done|by exists oe|]. cbn. by rewrite Hun.
  - unfold links. rewrite !queue_entries_wake_pending. unfold unlink.
    rewrite (lookup_set_entry_ne p g), !lookup_set_entry by done. cbn. by rewrite Ho2, Hs1.
Qed.

#[export] Instance registry_merge_laws : MergeQueuesLaws Queues.
Proof.
  split.
  - apply registry_apart_Merge.
  - apply registry_paired_Unmerge.
  - intros s p g (Hr%reachable_wf & Hne & Hp & Hg). cbn. rewrite (Owns_links _ _ _ _ _ Hr Hp).
    f_equal. pose proof (links_not_unmerged _ _ _ Hr Hg). lia.
  - by intros s p g (_ & ? & _).
  - by intros s p g (_ & ? & _).
  - intros s s' p g (c & Hl & He & Hp & Hg) (Hr & ?). cbn. rewrite Hp, Hg. split; [|done].
    by eapply reachable_step.
  - intros s s' p g (c & Hl & He & Hp & Hg) (Hr & ?). cbn. rewrite Hp, Hg. split; [|done].
    by eapply reachable_step.
Qed.
End registry.

(** ** Concrete runs *)

#[local] Existing Instance debug_build.

Lemma two_loops_apart : apart (played two_loops) 0 1.
Proof.
  split; [apply (played_reachable _ 2); by vm_compute|]. split; [done|]. split; by vm_compute.
Qed.

Definition split_merger : GpuThreadMerger := mkMerger 0 1 kLeaseNotSet false.

(** Merge for two frames, let another client post a task, extend, decrement. *)
Definition demo_calls : list merger_call := [MergeWithLeaseC 2; ExtendLeaseToC 3; DecrementLeaseC].

Lemma merger_refines_lease_witness :
  ∃ rs m' s', merger_run demo_calls split_merger (played two_loops) rs m' s' ∧
    rs = [None; None; Some kRemainsMerged] ∧ IsMerged m' = true ∧ lease_term_ m' = 2 ∧ paired s' 0 1.
Proof.
  assert (Hrun : ∃ rs m' s', merger_run demo_calls split_merger (played two_loops) rs m' s').
  { eexists _, _, _. eapply run_call; [by vm_compute|].
    eapply run_other.
    { exists (RegisterTaskC 1 (Some 7%nat) 60). split; [apply legalb_legal; by vm_compute|].
      split; [by vm_compute|]. split; by vm_compute. }
    eapply run_call; [by vm_compute|]. eapply run_call; [by vm_compute|]. apply run_done. }
  destruct Hrun as (rs & m' & s' & Hrun). exists rs, m', s'. split; [exact Hrun|].
  destruct (merger_refines_lease 0 1 demo_calls split_merger (played two_loops) rs m' s' two_loops_apart)
    as (Hrs & Hm & _); [by vm_compute|by repeat constructor|exact Hrun|].
  cbn in Hrs, Hm. destruct Hm as (Hm & Hp & Hl & _). by split_and!.
Defined.

(** Merge for two frames, post a task to the GPU queue, and let the lease end. *)
Lemma lease_lifecycle_witness :
  ∃ rs m' s',
    merger_run
      (MergeWithLeaseC 2 :: replicate 2 DecrementLeaseC) split_merger (played two_loops) rs m' s' ∧
    rs = None :: replicate 1 (Some kRemainsMerged) ++ [Some kUnmergedNow] ∧
    IsMerged m' = false ∧ apart s' 0 1.
Proof.
  assert (Hrun : ∃ rs m' s', merger_run
    (MergeWithLeaseC 2 :: replicate 2 DecrementLeaseC) split_merger (played two_loops) rs m' s').
  { eexists _, _, _. eapply run_call; [by vm_compute|].
    eapply run_other.
    { exists (RegisterTaskC 1 (Some 7%nat) 60). split; [apply legalb_legal; by vm_compute|].
      split; [by vm_compute|]. split; by vm_compute. }
    eapply run_call; [by vm_compute|]. eapply run_call; [by vm_compute|]. apply run_done. }
  destruct Hrun as (rs & m' & s' & Hrun). exists rs, m', s'. split; [exact Hrun|].
  apply (lease_lifecycle
           0 1 2 (played two_loops) split_merger _ _ _ two_loops_apart); [by vm_compute|lia|exact Hrun].
Defined.
