(* ===== verification/MessageLoop.v ===== *)
(** * MessageLoop: message loops and task runners

    Model of [fml::MessageLoopImpl] (fml/message_loop_impl.{h,cc}), of the
    thread-local accessors of [fml::MessageLoop] (fml/message_loop.cc) and of
    [fml::TaskRunner] (fml/task_runner.cc), on top of the task-queue registry.

    A loop is known by its address, which is also the [Wakeable] it gives the
    registry.  What a posted closure does is a parameter: [invoke c] may do
    anything to the loops and the registry.  So are the platform's [Run] and
    [Terminate], the thread's current loop, and the clock. *)

From Stdlib Require Import ZArith Lia.
From stdpp Require Import base sorting gmap numbers list.
From S2P Require Import Prelude Time StdMap TaskQueues TaskOrder TaskQueuesRun TaskQueuesInv.
From S2P Require Import TaskQueuesSpec TaskQueuesSafety TaskQueuesFifo TaskQueuesPlay.

Local Open Scope Z_scope.

Record MessageLoopImpl := mkLoop {
  queue_id_ : TaskQueueId;
  terminated_ : bool;
}.

Record World := mkWorld {
  registry : Queues;
  loops : gmap nat MessageLoopImpl;
}.

Definition with_registry s w := mkWorld s (loops w).
Definition set_terminated (l : nat) (w : World) : World :=
  mkWorld (registry w) (alter (λ loop, mkLoop (queue_id_ loop) true) l (loops w)).

Definition loop_at (l : nat) (w : World) : result MessageLoopImpl :=
  of_option NullDeref (loops w !! l).

Section loop.
Context `{Build} (invoke : nat → World → result World).

(** Calling a [std::function]. *)
Definition call_closure (c : closure) (w : World) : result World :=
  match c with Some code => invoke code w | None => Fault BadFunctionCall end.

Fixpoint call_closures (cs : list closure) (w : World) : result World :=
  match cs with
  | [] => mret w
  | c :: cs => w ← call_closure c w; call_closures cs w
  end.

(** ** [MessageLoopImpl] *)

Definition new_loop (l : nat) (w : World) : result World :=
  let '(queue_id, s) := CreateTaskQueue (registry w) in
  s ← SetWakeable queue_id (Some l) s;
  mret (mkWorld s (<[l := mkLoop queue_id false]> (loops w))).

Definition destroy_loop (l : nat) (w : World) : result World :=
  loop ← loop_at l w;
  s ← Dispose (queue_id_ loop) (registry w);
  mret (mkWorld s (delete l (loops w))).

Definition PostTask (l : nat) (task : closure) (target_time : TimePoint.t) (w : World)
    : result World :=
  loop ← loop_at l w;
  _ ← fml_dcheck (bool_decide (is_Some task));
  _ ← fml_dcheck (bool_decide (is_Some task));
  if terminated_ loop then mret w
  else s ← RegisterTask (queue_id_ loop) task target_time (registry w); mret (with_registry s w).

(** [MessageLoop::GetCurrent().GetLoopImpl()]: [current] is the loop in the
    thread-local slot. *)
Definition GetCurrent (current : option nat) : result nat :=
  _ ← fml_check (bool_decide (is_Some current)); of_option NullDeref current.

(** The observer calls are made on the loop's own thread; the condition of
    [FML_DCHECK] is evaluated in debug builds only. *)
Definition dcheck_on_loop (current : option nat) (l : nat) : result unit :=
  if debug then cur ← GetCurrent current; fml_dcheck (cur =? l)%nat else mret tt.

Definition LoopAddTaskObserver (current : option nat) (l : nat) (key : Z) (callback : closure)
    (w : World) : result World :=
  loop ← loop_at l w;
  _ ← fml_dcheck (bool_decide (is_Some callback));
  _ ← dcheck_on_loop current l;
  if bool_decide (is_Some callback)
  then s ← AddTaskObserver (queue_id_ loop) key callback (registry w); mret (with_registry s w)
  else mret w.

Definition LoopRemoveTaskObserver (current : option nat) (l : nat) (key : Z) (w : World)
    : result World :=
  loop ← loop_at l w;
  _ ← dcheck_on_loop current l;
  s ← RemoveTaskObserver (queue_id_ loop) key (registry w); mret (with_registry s w).

(** The loop over [invocations] in [FlushTasks]: the observers are read again
    after every task. *)
Fixpoint run_each (q : TaskQueueId) (invocations : list closure) (w : World) : result World :=
  match invocations with
  | [] => mret w
  | invocation :: rest =>
      w ← call_closure invocation w;
      observers ← GetObserversToNotify q (registry w);
      w ← call_closures observers w;
      run_each q rest w
  end.

Definition FlushTasks (l : nat) (type : FlushType) (now : TimePoint.t) (w : World)
    : result World :=
  loop ← loop_at l w;
  '(invocations, s) ← GetTasksToRunNow (queue_id_ loop) type now [] (registry w);
  run_each (queue_id_ loop) invocations (with_registry s w).

Definition RunExpiredTasksNow (l : nat) (now : TimePoint.t) (w : World) : result World :=
  FlushTasks l kAll now w.
Definition RunSingleExpiredTaskNow (l : nat) (now : TimePoint.t) (w : World) : result World :=
  FlushTasks l kSingle now w.

Definition DoRun (l : nat) (Run : World → result World) (now : TimePoint.t) (w : World)
    : result World :=
  loop ← loop_at l w;
  if terminated_ loop then mret w
  else
    w ← Run w;
    let w := set_terminated l w in
    w ← RunExpiredTasksNow l now w;
    loop ← loop_at l w;
    s ← DisposeTasks (queue_id_ loop) (registry w);
    mret (with_registry s w).

Definition DoTerminate (l : nat) (Terminate : World → result World) (w : World) : result World :=
  _ ← loop_at l w;
  Terminate (set_terminated l w).

Definition GetTaskQueueId (l : nat) (w : World) : result TaskQueueId :=
  loop ← loop_at l w; mret (queue_id_ loop).

(** ** [TaskRunner] *)

Definition RunnerPostTask (l : nat) (task : closure) (now : TimePoint.t) (w : World) : result World :=
  PostTask l task now w.
Definition PostTaskForTime (l : nat) (task : closure) (target_time : TimePoint.t) (w : World)
    : result World :=
  PostTask l task target_time w.
Definition PostDelayedTask (l : nat) (task : closure) (now : TimePoint.t) (delay : TimeDelta.t)
    (w : World) : result World :=
  target_time ← TimePoint.plus now delay;
  PostTask l task target_time w.

Definition GetCurrentTaskQueueId (current : option nat) (w : World) : result TaskQueueId :=
  _ ← fml_check (bool_decide (is_Some current));
  l ← of_option NullDeref current;
  GetTaskQueueId l w.

Definition RunsTasksOnCurrentThread (current : option nat) (l : nat) (w : World) : result bool :=
  if negb (bool_decide (is_Some current)) then mret false
  else
    current_queue_id ← GetCurrentTaskQueueId current w;
    loop_queue_id ← GetTaskQueueId l w;
    if current_queue_id =? loop_queue_id then mret true
    else
      b ← Owns current_queue_id loop_queue_id (registry w);
      if b : bool then mret true
      else Owns loop_queue_id current_queue_id (registry w).

Definition RunNowOrPostTask (current runner : option nat) (task : closure) (now : TimePoint.t)
    (w : World) : result World :=
  _ ← fml_dcheck (bool_decide (is_Some runner));
  l ← of_option NullDeref runner;
  b ← RunsTasksOnCurrentThread current l w;
  if b : bool then call_closure task w else RunnerPostTask l task now w.

(** ** Invariant of a loop's world *)

(** No queued closure is null: [PostTask] and [AddTaskObserver] check it. *)
Definition callable (s : Queues) : Prop :=
  ∀ q e, queue_entries_ s !! q = Some e →
    Forall (λ t, is_Some (task_ t)) (delayed_tasks e) ∧ Forall is_Some (task_observers e).*2.

(** Loop [l] has a live queue [q] that is not subsumed; [stopped] says that
    it has been terminated. *)
Record good (l : nat) (q : TaskQueueId) (stopped : bool) (w : World) : Prop := {
  good_reachable : reachable (registry w);
  good_callable : callable (registry w);
  good_loop : ∃ t, loops w !! l = Some (mkLoop q t) ∧ (stopped = true → t = true);
  good_queue : ∃ o, links (registry w) q = Some (o, kUnmerged);
}.

(** Code that returns and keeps the invariant. *)
Definition tame (l : nat) (q : TaskQueueId) (f : World → result World) : Prop :=
  ∀ stopped w, good l q stopped w → ∃ w', f w ⇓ w' ∧ good l q stopped w'.

Lemma good_runnable l q b w :
  good l q b w →
  ∃ e sub, queue_entries_ (registry w) !! q = Some e ∧ runnable q (registry w) (delayed_tasks e) sub.
Proof.
  intros Hg. destruct (good_queue _ _ _ _ Hg) as (o & (e & He & _ & Hs)%links_Some).
  destruct (wf_runnable _ _ _ (reachable_wf _ (good_reachable _ _ _ _ Hg)) He Hs) as (sub & Hr & _).
  eauto.
Qed.

Lemma callable_wake q t s : callable s → callable (wake q t s).
Proof. unfold callable. by rewrite queue_entries_wake. Qed.

Lemma callable_set q e s :
  callable s → Forall (λ t, is_Some (task_ t)) (delayed_tasks e) →
  Forall is_Some (task_observers e).*2 → callable (set_entry q e s).
Proof.
  intros Hc Ht Ho q' e'. unfold set_entry; cbn. rewrite lookup_insert. case_decide; [|apply Hc].
  by intros [= <-].
Qed.

Lemma callable_put q own sub own' sub' s :
  callable s → runnable q s own sub → own' ⊆ own → sub' ⊆ sub → callable (put_tasks q own' sub' s).
Proof.
  unfold put_tasks. intros Hc [e He Hs Ho|e e' He Hs Ho Hq He'] H1 H2; rewrite He; simpl_links.
  - destruct (Hc _ _ He) as [Ht ?]. apply callable_set; [done| |done]; cbn.
    rewrite Forall_forall in Ht |- *. auto.
  - rewrite He'. destruct (Hc _ _ He) as [Ht ?]. destruct (Hc _ _ He') as [Ht' ?].
    rewrite Forall_forall in Ht, Ht'.
    apply callable_set; [apply callable_set; [done| |done]| |done]; cbn; apply Forall_forall; auto.
Qed.

Lemma callable_run_order q own sub s :
  callable s → runnable q s own sub → Forall (λ t, is_Some (task_ t)) (run_order own sub).
Proof.
  intros Hc Hr. rewrite run_order_perm. apply Forall_app.
  destruct Hr as [e He _ _|e e' He _ _ _ He'].
  - split; [by apply (Hc _ _ He)|constructor].
  - split; [by apply (Hc _ _ He)|by apply (Hc _ _ He')].
Qed.

(** ** Running tasks *)

Lemma GetObservers_good l q b w :
  good l q b w → ∃ obs, GetObserversToNotify q (registry w) ⇓ obs ∧ Forall is_Some obs.
Proof.
  intros Hg. pose proof (reachable_wf _ (good_reachable _ _ _ _ Hg)) as Hwf.
  pose proof (good_callable _ _ _ _ Hg) as Hc.
  destruct (good_runnable _ _ _ _ Hg) as (e & sub & He & Hr).
  unfold GetObserversToNotify. rewrite GetMutex_wf by (done || by eapply runnable_live).
  cbn [mbind result_bind]. rewrite (entry_at_Some _ _ _ He). cbn [mbind result_bind].
  destruct Hr as [e1 He1 Hs Ho|e1 e' He1 Hs Ho Hq He']; rewrite He in He1; injection He1 as <-;
    simpl_links.
  - eexists. split; [done|]. by apply (Hc _ _ He).
  - rewrite lock_at_wf by (done || by exists e'). cbn [mbind result_bind].
    eexists. split; [done|]. apply Forall_app. split; [by apply (Hc _ _ He)|by apply (Hc _ _ He')].
Qed.

Lemma call_closures_good l q b cs w :
  (∀ c, tame l q (invoke c)) → Forall is_Some cs → good l q b w →
  ∃ w', call_closures cs w ⇓ w' ∧ good l q b w'.
Proof.
  intros Ht Hcs. revert w. induction Hcs as [|c cs [code ->] _ IH]; intros w Hg; [by exists w|].
  destruct (Ht code b w Hg) as (w1 & He & Hg1). cbn. rewrite He. cbn. by apply IH.
Qed.

Lemma run_each_good l q b cs w :
  (∀ c, tame l q (invoke c)) → Forall is_Some cs → good l q b w →
  ∃ w', run_each q cs w ⇓ w' ∧ good l q b w'.
Proof.
  intros Ht Hcs. revert w. induction Hcs as [|c cs [code ->] _ IH]; intros w Hg; [by exists w|].
  destruct (Ht code b w Hg) as (w1 & He & Hg1). cbn. rewrite He. cbn.
  destruct (GetObservers_good _ _ _ _ Hg1) as (obs & -> & Hobs). cbn.
  destruct (call_closures_good _ _ _ _ _ Ht Hobs Hg1) as (w2 & -> & Hg2). cbn. by apply IH.
Qed.

(** [GetTasksToRunNow(kAll)] on a loop's queue, empty or not. *)
Lemma GetTasks_all_any q now s own sub :
  wf s → runnable q s own sub →
  ∃ s', GetTasksToRunNow q kAll now [] s ⇓ (GetTask <$> due_tasks now (run_order own sub), s') ∧
    queue_entries_ s' = queue_entries_ (put_tasks q (later_tasks now own) (later_tasks now sub) s).
Proof.
  intros Hwf Hr. destruct (decide (run_order own sub = [])) as [Hn|Hn].
  - exists s. rewrite Hn. split.
    { apply GetTasks_idle; [done|by eapply runnable_live|]. by rewrite (pending_runnable _ _ _ _ Hr), Hn. }
    assert (Hnil : own ++ sub = []) by (apply Permutation_nil; rewrite <- (run_order_perm own sub); by rewrite Hn).
    apply app_eq_nil in Hnil as [-> ->].
    change (later_tasks now []) with (@nil DelayedTask). by rewrite (put_tasks_id _ _ _ _ Hr).
  - eexists. split; [by rewrite (GetTasks_all_eq _ _ _ _ _ _ Hwf Hr Hn)|]. apply queue_entries_wake.
Qed.

Lemma reachable_run q now s r s' :
  reachable s → live s q → GetTasksToRunNow q kAll now [] s ⇓ (r, s') → reachable s'.
Proof.
  intros Hr Hl He. apply (reachable_step (GetTasksToRunNowC q kAll now) s); [done|done|]. cbn. by rewrite He.
Qed.

Lemma FlushTasks_good l q b now w :
  (∀ c, tame l q (invoke c)) → good l q b w → ∃ w', FlushTasks l kAll now w ⇓ w' ∧ good l q b w'.
Proof.
  intros Ht Hg. pose proof (good_reachable _ _ _ _ Hg) as Hreach.
  pose proof (good_callable _ _ _ _ Hg) as Hc. pose proof (reachable_wf _ Hreach) as Hwf.
  destruct (good_runnable _ _ _ _ Hg) as (e & sub & He & Hr).
  destruct (GetTasks_all_any q now _ _ _ Hwf Hr) as (s' & Hrun & Hent).
  destruct (good_loop _ _ _ _ Hg) as (t & Hl & Hb). unfold FlushTasks, loop_at. rewrite Hl. cbn.
  rewrite Hrun. cbn. apply (run_each_good l q b); [done|..].
  - apply Forall_fmap. apply Forall_filter_sub. by eapply callable_run_order.
  - split; cbn.
    + eapply reachable_run; [done|by eapply runnable_live|done].
    + unfold callable. rewrite Hent. eapply callable_put; [done|done|..]; apply filter_subseteq.
    + eauto.
    + destruct (good_queue _ _ _ _ Hg) as (o & Ho). exists o. unfold links. rewrite Hent.
      rewrite <- Ho. by apply (same_links_put q _ _ _ _ _ Hr).
Qed.

Lemma good_set_terminated l q b w : good l q b w → good l q true (set_terminated l w).
Proof.
  intros [Hr Hc (t & Hl & _) Hq]. split; [done|done| |done].
  exists true. split; [|done]. cbn. by rewrite lookup_alter_eq, Hl.
Qed.

(** ** Claims *)

(** [FlushTasks(kAll)] calls exactly the tasks that were due when it
    started, in run order (target time, then posting order, over the merged
    queues), each followed by the observers registered at that moment; tasks
    posted meanwhile wait for the next flush. *)
Theorem flush_runs_due l q now w own sub :
  reachable (registry w) → (queue_id_ <$> loops w !! l) = Some q → runnable q (registry w) own sub →
  ∃ s', runnable q s' (later_tasks now own) (later_tasks now sub) ∧
    FlushTasks l kAll now w =
      run_each q (GetTask <$> due_tasks now (run_order own sub)) (with_registry s' w).
Proof.
  intros Hreach (loop & Hl & ->)%fmap_Some Hr. pose proof (reachable_wf _ Hreach) as Hwf.
  destruct (GetTasks_all_any (queue_id_ loop) now _ _ _ Hwf Hr) as (s' & Hrun & Hent). exists s'.
  split; [eapply runnable_entries; [exact Hent|eapply runnable_put; [done|by intros ->]]|].
  unfold FlushTasks, loop_at. rewrite Hl. cbn. by rewrite Hrun.
Qed.

(** Running a loop to its end: when the posted closures and the platform's
    [Run] return and leave the loop's queue in place, [DoRun] returns with the
    loop terminated and its queues empty, and every later [PostTask] is
    dropped without touching anything. *)
Theorem do_run_drains l q now w (Run : World → result World) :
  (∀ c, tame l q (invoke c)) → tame l q Run → good l q false w →
  (terminated_ <$> loops w !! l) = Some false →
  ∃ w', DoRun l Run now w ⇓ w' ∧ (terminated_ <$> loops w' !! l) = Some true ∧
    runnable q (registry w') [] [] ∧
    ∀ task time, is_Some task → PostTask l task time w' ⇓ w'.
Proof.
  intros Ht Hrun Hg (loop & Hl & Hterm)%fmap_Some.
  destruct (Hrun false w Hg) as (w1 & Hw1 & Hg1).
  destruct (FlushTasks_good l q true now _ Ht (good_set_terminated _ _ _ _ Hg1)) as (w2 & Hw2 & Hg2).
  destruct (good_loop _ _ _ _ Hg2) as (t & Hl2 & Ht2). rewrite (Ht2 eq_refl) in Hl2.
  destruct (good_runnable _ _ _ _ Hg2) as (e & sub & He & Hr).
  pose proof (reachable_wf _ (good_reachable _ _ _ _ Hg2)) as Hwf2.
  pose proof (DisposeTasks_eq _ _ _ _ Hwf2 Hr) as Hd. eexists. split; [|split; [|split]].
  - unfold DoRun, RunExpiredTasksNow, loop_at. rewrite Hl. cbn. rewrite <- Hterm. cbn. rewrite Hw1. cbn.
    rewrite Hw2. cbn. rewrite Hl2. cbn. by rewrite Hd.
  - cbn. by rewrite Hl2.
  - cbn. by eapply (runnable_put _ _ _ _ [] []).
  - intros task time Htask. unfold PostTask, loop_at. cbn. rewrite Hl2. cbn.
    rewrite bool_decide_eq_true_2, fml_dcheck_true by done. done.
Qed.

(** A runner reports that it runs on the current thread exactly when the
    thread's loop is its own, or the two loops' queues are merged in either
    direction. *)
Theorem runs_on_current_thread cur l w qc ql ec el :
  reachable (registry w) →
  (queue_id_ <$> loops w !! cur) = Some qc → (queue_id_ <$> loops w !! l) = Some ql →
  queue_entries_ (registry w) !! qc = Some ec → queue_entries_ (registry w) !! ql = Some el →
  ∃ b, RunsTasksOnCurrentThread (Some cur) l w ⇓ b ∧
    (b = true ↔ qc = ql ∨ owner_of ec = ql ∨ subsumed_by ec = ql).
Proof.
  clear invoke. intros Hreach (lc & Hlc & ->)%fmap_Some (ll & Hll & ->)%fmap_Some Hec Hel.
  pose proof (reachable_wf _ Hreach) as Hwf.
  unfold RunsTasksOnCurrentThread, GetCurrentTaskQueueId, GetTaskQueueId, loop_at.
  rewrite bool_decide_eq_true_2 by eauto. cbn. rewrite Hlc, Hll. cbn.
  destruct (Z.eqb_spec (queue_id_ lc) (queue_id_ ll)) as [Heq|Hne].
  { exists true. split; [done|]. tauto. }
  unfold Owns. rewrite !GetMutex_wf by (done || by eexists). cbn.
  rewrite (entry_at_Some _ _ _ Hec), (entry_at_Some _ _ _ Hel). cbn.
  pose proof (wf_links _ Hwf _ _ _ (links_entry _ _ _ Hec)) as [_ Hb].
  pose proof (wf_links _ Hwf _ _ _ (links_entry _ _ _ Hel)) as [Ho _].
  pose proof (live_not_unmerged _ _ _ Hwf Hec). pose proof (live_not_unmerged _ _ _ Hwf Hel).
  destruct (Z.eqb_spec (queue_id_ ll) (owner_of ec)) as [Ho1|Ho1]; cbn.
  { exists true. split; [done|]. split; [intros _|done]. right; left. done. }
  rewrite (proj2 (Z.eqb_neq _ _) Hne). cbn. eexists. split; [done|].
  rewrite (proj2 (Z.eqb_neq (queue_id_ ll) (queue_id_ lc))), orb_false_r, Z.eqb_eq by congruence.
  split.
  - intros Hc. right; right. destruct Ho as (_ & _ & o' & Hl); [congruence|].
    rewrite <- Hc, (links_entry _ _ _ Hec) in Hl. by injection Hl.
  - intros [?|[?|Hs]]; [congruence..|]. destruct Hb as (_ & b' & Hl); [congruence|].
    rewrite Hs, (links_entry _ _ _ Hel) in Hl. by injection Hl.
Qed.
End loop.

(** ** Concrete runs *)

#[local] Existing Instance debug_build.

(** The world of [two_loops]: loop 10 runs queue 0, loop 11 runs queue 1. *)
Definition two_loops_world : World :=
  mkWorld (played two_loops) {[10%nat := mkLoop 0 false; 11%nat := mkLoop 1 false]}.

(** Every task posts another one to loop 10, due at once. *)
Definition reposting (c : nat) (w : World) : result World := PostTask 10 (Some (S c)) 0 w.

Lemma reposting_tame c : tame 10 0 (reposting c).
Proof.
  intros b w Hg. pose proof Hg as [Hr Hc (t & Hl & Hb) (o & Ho)].
  pose proof Ho as (e & He & Ho1 & Ho2)%links_Some.
  unfold reposting, PostTask, loop_at. rewrite Hl. cbn [of_option mbind result_bind terminated_ queue_id_].
  rewrite bool_decide_eq_true_2, fml_dcheck_true by eauto. cbn [mbind result_bind].
  destruct t; [by eauto|].
  destruct (Register_eq 0 (Some (S c)) 0 (registry w) e (reachable_wf _ Hr) He) as (top & _ & Heq).
  rewrite Heq. cbn [mbind result_bind]. eexists. split; [done|]. split; cbn [registry with_registry loops].
  - apply (reachable_step (RegisterTaskC 0 (Some (S c)) 0) (registry w)); [done|by exists e|done].
  - apply callable_wake, callable_set; [done| |by apply (Hc _ _ He)]. cbn.
    rewrite pq_push_perm. constructor; [by eexists|by apply (Hc _ _ He)].
  - eauto.
  - exists o. unfold links. rewrite queue_entries_wake, lookup_set_entry. cbn. by rewrite Ho1, Ho2.
Qed.

Lemma two_loops_callable : callable (played two_loops).
Proof.
  change (map_Forall (λ _ e, Forall (λ t, is_Some (task_ t)) (delayed_tasks e) ∧
    Forall is_Some (task_observers e).*2) (queue_entries_ (played two_loops))).
  refine (bool_decide_unpack _ _). by vm_compute.
Qed.

Lemma do_run_drains_witness :
  ∃ w', DoRun reposting 10 mret 200 two_loops_world ⇓ w' ∧
    (terminated_ <$> loops w' !! 10%nat) = Some true ∧ runnable 0 (registry w') [] [] ∧
    ∀ task time, is_Some task → PostTask 10 task time w' ⇓ w'.
Proof.
  apply (do_run_drains reposting 10 0 200 two_loops_world mret).
  - apply reposting_tame.
  - intros b w Hg. by exists w.
  - split.
    + apply (played_reachable _ 2). by vm_compute.
    + apply two_loops_callable.
    + exists false. split; [by vm_compute|done].
    + exists kUnmerged. by vm_compute.
  - by vm_compute.
Defined.

Lemma flush_runs_due_witness :
  ∃ s', runnable 0 s' (later_tasks 70 (delayed_tasks (entry_of 0 (played merged_loops))))
      (later_tasks 70 (delayed_tasks (entry_of 1 (played merged_loops)))) ∧
    FlushTasks reposting 10 kAll 70 (with_registry (played merged_loops) two_loops_world) =
      run_each reposting 0
        (GetTask <$> due_tasks 70 (run_order (delayed_tasks (entry_of 0 (played merged_loops)))
                                     (delayed_tasks (entry_of 1 (played merged_loops)))))
        (with_registry s' (with_registry (played merged_loops) two_loops_world)).
Proof.
  apply (flush_runs_due reposting 10 0 70 (with_registry (played merged_loops) two_loops_world)).
  - apply (played_reachable _ 2). by vm_compute.
  - by vm_compute.
  - apply merged_runnable.
Defined.

Lemma runs_on_current_thread_witness :
  ∃ b, RunsTasksOnCurrentThread (Some 11%nat) 10
         (with_registry (played merged_loops) two_loops_world) ⇓ b ∧
    (b = true ↔ 1 = 0 ∨ owner_of (entry_of 1 (played merged_loops)) = 0 ∨
       subsumed_by (entry_of 1 (played merged_loops)) = 0).
Proof.
  apply (runs_on_current_thread 11 10 (with_registry (played merged_loops) two_loops_world) 1 0
           (entry_of 1 (played merged_loops)) (entry_of 0 (played merged_loops)));
    [apply (played_reachable _ 2)|..]; by vm_compute.
Defined.
