(* ===== verification/Pipeline.v ===== *)
(** * Pipeline: the frame pipeline between the UI and the GPU thread

    Model of [flutter::Pipeline<R>] and its [ProducerContinuation]
    (shell/common/pipeline.{h,cc}) and of the semaphore it counts with
    (fml/synchronization/semaphore.cc, the POSIX implementation).

    Each operation is composed of the atomic actions the source performs
    (a semaphore call, an update of [inflight_], a critical section of
    [queue_mutex_]); the step relation [pipe_step] interleaves those actions of
    any number of producers, at the back and at the front, and of consumers. *)

From Stdlib Require Import ZArith Lia.
From stdpp Require Import base sorting gmap numbers list.
From S2P Require Import Prelude.

Local Open Scope Z_scope.

(** ** [fml::Semaphore] *)

Record Semaphore := mkSem { valid_ : bool; sem_ : Z }.

(** [SEM_VALUE_MAX]: [sem_init] refuses a larger count and [sem_post] at the
    maximum fails, a result [Signal] ignores. *)
Definition sem_value_max : Z := 2 ^ 31 - 1.

Definition new_sem (count : Z) : Semaphore := mkSem (count <=? sem_value_max) count.
Definition TryWait (m : Semaphore) : bool * Semaphore :=
  if negb (valid_ m) then (false, m)
  else if 0 <? sem_ m then (true, mkSem true (sem_ m - 1)) else (false, m).
Definition Signal (m : Semaphore) : Semaphore :=
  if negb (valid_ m) then m
  else if sem_ m <? sem_value_max then mkSem true (sem_ m + 1) else m.

(** ** [Pipeline<R>] *)

Inductive PipelineConsumeResult := NoneAvailable | Done | MoreAvailable.

Section pipeline.
Context {R : Type}.

(** A [ResourcePtr] may be null; it is queued with its trace id. *)
Abbreviation Item := (option R * Z)%type.

Record Pipeline := mkPipeline {
  depth_ : Z;
  empty_ : Semaphore;
  available_ : Semaphore;
  inflight_ : Z;
  queue_ : list Item;
  last_trace_id : Z;
}.

(** Which member function [continuation_] is bound to. *)
Inductive Continuation := to_ProducerCommit | to_ProducerCommitFront.
Record ProducerContinuation := mkContinuation {
  continuation_ : option Continuation;
  trace_id_ : Z;
}.

Definition no_continuation : ProducerContinuation := mkContinuation None 0.

Definition with_empty m p := mkPipeline (depth_ p) m (available_ p) (inflight_ p) (queue_ p) (last_trace_id p).
Definition with_available m p := mkPipeline (depth_ p) (empty_ p) m (inflight_ p) (queue_ p) (last_trace_id p).
Definition with_inflight n p := mkPipeline (depth_ p) (empty_ p) (available_ p) n (queue_ p) (last_trace_id p).
Definition with_queue q p := mkPipeline (depth_ p) (empty_ p) (available_ p) (inflight_ p) q (last_trace_id p).
Definition with_trace_id n p := mkPipeline (depth_ p) (empty_ p) (available_ p) (inflight_ p) (queue_ p) n.

Definition new_pipeline (depth : Z) : Pipeline :=
  mkPipeline depth (new_sem depth) (new_sem 0) 0 [] 0.
Definition PipelineIsValid (p : Pipeline) : bool := valid_ (empty_ p) && valid_ (available_ p).

(** [GetNextPipelineTraceID]: a process-wide counter. *)
Definition GetNextPipelineTraceID (p : Pipeline) : Z * Pipeline :=
  let id := wrapU 64 (last_trace_id p + 1) in (id, with_trace_id id p).

(** The atomic actions of [Produce]: take a slot, count the frame, and draw a
    trace id for the continuation. *)
Definition produce_reserve (p : Pipeline) : bool * Pipeline :=
  let '(ok, m) := TryWait (empty_ p) in (ok, with_empty m p).
Definition produce_count (p : Pipeline) : Pipeline := with_inflight (wrapS 32 (inflight_ p + 1)) p.
Definition produce_continuation (p : Pipeline) : ProducerContinuation * Pipeline :=
  let '(id, p) := GetNextPipelineTraceID p in (mkContinuation (Some to_ProducerCommit) id, p).

Definition Produce (p : Pipeline) : ProducerContinuation * Pipeline :=
  let '(ok, p) := produce_reserve p in
  if negb ok then (no_continuation, p) else produce_continuation (produce_count p).

Definition ProduceToFront (p : Pipeline) : ProducerContinuation * Pipeline :=
  let '(id, p) := GetNextPipelineTraceID p in
  (mkContinuation (Some to_ProducerCommitFront) id, p).

(** The critical sections and semaphore calls of the operations below. *)
Definition commit_push (resource : option R) (trace_id : Z) (p : Pipeline) : Pipeline :=
  with_queue (queue_ p ++ [(resource, trace_id)]) p.
(** [while (queue_.size() > depth_) queue_.pop_back();] *)
Fixpoint pop_back_to (fuel : nat) (depth : Z) (q : list Item) : result (list Item) :=
  if Z.of_nat (length q) <=? depth then mret q
  else match fuel with
       | O => Fault OutOfFuel
       | S fuel => pop_back_to fuel depth (take (pred (length q)) q)
       end.
Definition commit_push_front (resource : option R) (trace_id : Z) (p : Pipeline) : result Pipeline :=
  let q := (resource, trace_id) :: queue_ p in
  q ← pop_back_to (length q) (depth_ p) q;
  mret (with_queue q p).
Definition commit_signal (p : Pipeline) : Pipeline := with_available (Signal (available_ p)) p.
Definition consume_acquire (p : Pipeline) : bool * Pipeline :=
  let '(ok, m) := TryWait (available_ p) in (ok, with_available m p).
(** [front] and [pop_front] of an empty deque are undefined. *)
Definition consume_pop (p : Pipeline) : result (Item * nat * Pipeline) :=
  match queue_ p with
  | [] => Fault UndefinedBehaviour
  | item :: rest => Ok (item, length rest, with_queue rest p)
  end.
Definition consume_return (p : Pipeline) : Pipeline := with_empty (Signal (empty_ p)) p.
Definition consume_uncount (p : Pipeline) : Pipeline := with_inflight (wrapS 32 (inflight_ p - 1)) p.
Definition consume_finish (p : Pipeline) : Pipeline := consume_uncount (consume_return p).

Definition ProducerCommit (resource : option R) (trace_id : Z) (p : Pipeline) : Pipeline :=
  commit_signal (commit_push resource trace_id p).
Definition ProducerCommitFront (resource : option R) (trace_id : Z) (p : Pipeline)
    : result Pipeline :=
  p ← commit_push_front resource trace_id p; mret (commit_signal p).

Definition run_continuation (c : Continuation) (resource : option R) (trace_id : Z) (p : Pipeline)
    : result Pipeline :=
  match c with
  | to_ProducerCommit => mret (ProducerCommit resource trace_id p)
  | to_ProducerCommitFront => ProducerCommitFront resource trace_id p
  end.

Definition Complete (k : ProducerContinuation) (resource : option R) (p : Pipeline)
    : result (ProducerContinuation * Pipeline) :=
  match continuation_ k with
  | Some c =>
      p ← run_continuation c resource (trace_id_ k) p; mret (mkContinuation None (trace_id_ k), p)
  | None => mret (k, p)
  end.

(** [~ProducerContinuation]: a continuation dropped on the floor commits a
    null resource. *)
Definition destroy_continuation (k : ProducerContinuation) (p : Pipeline) : result Pipeline :=
  match continuation_ k with
  | Some c => run_continuation c None (trace_id_ k) p
  | None => mret p
  end.

(** Move construction (returns the new object and what is left of [other])
    and move assignment, which swaps. *)
Definition move_construct (other : ProducerContinuation)
    : ProducerContinuation * ProducerContinuation :=
  (other, no_continuation).
Definition move_assign (this other : ProducerContinuation)
    : ProducerContinuation * ProducerContinuation :=
  (other, this).

(** [consumer] is null or acts on the caller's state [W]. *)
Definition Consume {W : Type} (consumer : option (option R → W → W)) (w : W) (p : Pipeline)
    : result (PipelineConsumeResult * W * Pipeline) :=
  match consumer with
  | None => mret (NoneAvailable, w, p)
  | Some consumer =>
      let '(ok, p) := consume_acquire p in
      if negb ok then mret (NoneAvailable, w, p)
      else
        '(item, items_count, p) ← consume_pop p;
        let w := consumer item.1 w in
        mret (if (0 <? items_count)%nat then MoreAvailable else Done, w, consume_finish p)
  end.

(** ** Interleavings *)

(** Producers and consumers between their atomic actions: producers that took
    a slot, those that also counted their frame, the continuations of
    [Produce] and of [ProduceToFront] that are held, the commits that still
    have to signal; consumers that have passed [available_] but not popped,
    those inside [consumer], and those that returned the slot but did not
    count their frame down. *)
Record Threads := mkThreads {
  reserved : nat;
  counted : nat;
  held : list ProducerContinuation;
  held_front : list ProducerContinuation;
  to_signal : nat;
  acquired : nat;
  in_consumer : list Item;
  returned : nat;
}.

(** What was pushed at the back and popped; how many frames were pushed to the
    front, and how many were dropped from the back for them. *)
Record History := mkHistory {
  pushed : list Item;
  popped : list Item;
  fronts : nat;
  dropped : nat;
}.

Record System := mkSystem { pipe : Pipeline; threads : Threads; history : History }.

Definition new_system (depth : Z) : System :=
  mkSystem (new_pipeline depth) (mkThreads 0 0 [] [] 0 0 [] 0) (mkHistory [] [] 0 0).

(** A holder completes its continuation, or drops it on the floor ([r] is
    null). *)
Inductive pipe_step : System → System → Prop :=
  | step_reserve p p' v c hs fs n a cs u h :
      produce_reserve p = (true, p') →
      pipe_step (mkSystem p (mkThreads v c hs fs n a cs u) h) (mkSystem p' (mkThreads (S v) c hs fs n a cs u) h)
  | step_count p v c hs fs n a cs u h :
      pipe_step (mkSystem p (mkThreads (S v) c hs fs n a cs u) h)
        (mkSystem (produce_count p) (mkThreads v (S c) hs fs n a cs u) h)
  | step_continuation p k p' v c hs fs n a cs u h :
      produce_continuation p = (k, p') →
      pipe_step (mkSystem p (mkThreads v (S c) hs fs n a cs u) h) (mkSystem p' (mkThreads v c (k :: hs) fs n a cs u) h)
  | step_to_front p k p' v c hs fs n a cs u h :
      ProduceToFront p = (k, p') →
      pipe_step (mkSystem p (mkThreads v c hs fs n a cs u) h) (mkSystem p' (mkThreads v c hs (k :: fs) n a cs u) h)
  | step_push p v c hs1 k hs2 fs r n a cs u pu po f d :
      pipe_step (mkSystem p (mkThreads v c (hs1 ++ k :: hs2) fs n a cs u) (mkHistory pu po f d))
        (mkSystem (commit_push r (trace_id_ k) p) (mkThreads v c (hs1 ++ hs2) fs (S n) a cs u)
           (mkHistory (pu ++ [(r, trace_id_ k)]) po f d))
  | step_push_front p p' v c hs fs1 k fs2 r n a cs u pu po f d :
      commit_push_front r (trace_id_ k) p ⇓ p' →
      pipe_step (mkSystem p (mkThreads v c hs (fs1 ++ k :: fs2) n a cs u) (mkHistory pu po f d))
        (mkSystem p' (mkThreads v c hs (fs1 ++ fs2) (S n) a cs u)
           (mkHistory pu po (S f) (d + (S (length (queue_ p)) - length (queue_ p')))))
  | step_signal p v c hs fs n a cs u h :
      pipe_step (mkSystem p (mkThreads v c hs fs (S n) a cs u) h) (mkSystem (commit_signal p) (mkThreads v c hs fs n a cs u) h)
  | step_acquire p p' v c hs fs n a cs u h :
      consume_acquire p = (true, p') →
      pipe_step (mkSystem p (mkThreads v c hs fs n a cs u) h) (mkSystem p' (mkThreads v c hs fs n (S a) cs u) h)
  | step_pop p item l p' v c hs fs n a cs u pu po f d :
      consume_pop p ⇓ (item, l, p') →
      pipe_step (mkSystem p (mkThreads v c hs fs n (S a) cs u) (mkHistory pu po f d))
        (mkSystem p' (mkThreads v c hs fs n a (item :: cs) u) (mkHistory pu (po ++ [item]) f d))
  | step_return p v c hs fs n a cs1 item cs2 u h :
      pipe_step (mkSystem p (mkThreads v c hs fs n a (cs1 ++ item :: cs2) u) h)
        (mkSystem (consume_return p) (mkThreads v c hs fs n a (cs1 ++ cs2) (S u)) h)
  | step_uncount p v c hs fs n a cs u h :
      pipe_step (mkSystem p (mkThreads v c hs fs n a cs (S u)) h) (mkSystem (consume_uncount p) (mkThreads v c hs fs n a cs u) h).

Definition pipe_reachable (depth : Z) : System → Prop := rtc pipe_step (new_system depth).

(** ** Accounting *)

Lemma pop_back_to_take fuel depth q :
  0 ≤ depth → (length q ≤ fuel)%nat → pop_back_to fuel depth q ⇓ take (Z.to_nat depth) q.
Proof.
  intros Hd. revert q. induction fuel as [|fuel IH]; intros q Hf; cbn [pop_back_to].
  - destruct q; [|cbn in *; lia]. rewrite take_nil. by rewrite (proj2 (Z.leb_le (Z.of_nat (@length Item [])) depth) Hd).
  - destruct (Z.leb_spec (Z.of_nat (length q)) depth).
    + rewrite take_ge by lia. done.
    + rewrite IH by (rewrite length_take; lia). rewrite take_take. do 2 f_equal. lia.
Qed.

Lemma commit_push_front_eq r id p :
  0 ≤ depth_ p →
  commit_push_front r id p ⇓ with_queue (take (Z.to_nat (depth_ p)) ((r, id) :: queue_ p)) p.
Proof. intros Hd. unfold commit_push_front. by rewrite pop_back_to_take. Qed.

Section accounting.
Variable depth : Z.
Implicit Types (y : System) (n : nat).

Definition frames_queued y : Z := Z.of_nat (length (queue_ (pipe y))).

(** The frames that hold a slot of [empty_], or will signal it. *)
Definition slots_taken y : Z :=
  Z.of_nat (reserved (threads y) + counted (threads y) + length (held (threads y)) + length (queue_ (pipe y)) +
    length (in_consumer (threads y))).

Record pipe_inv y : Prop := {
  inv_depth : depth_ (pipe y) = depth;
  inv_empty : valid_ (empty_ (pipe y)) = true;
  inv_available : valid_ (available_ (pipe y)) = true;
  inv_items : sem_ (available_ (pipe y)) + Z.of_nat (to_signal (threads y) + acquired (threads y)) =
    frames_queued y + Z.of_nat (dropped (history y));
  inv_slots : sem_ (empty_ (pipe y)) + slots_taken y + Z.of_nat (dropped (history y)) = depth + Z.of_nat (fronts (history y));
  inv_available_pos : 0 ≤ sem_ (available_ (pipe y));
  inv_empty_pos : 0 ≤ sem_ (empty_ (pipe y));
  inv_inflight : inflight_ (pipe y) =
    wrapS 32 (depth + Z.of_nat (returned (threads y)) - sem_ (empty_ (pipe y)) - Z.of_nat (reserved (threads y)));
  inv_drops : fronts (history y) = 0%nat → dropped (history y) = 0%nat;
  inv_order : fronts (history y) = 0%nat → popped (history y) ++ queue_ (pipe y) = pushed (history y);
}.

Lemma TryWait_true m m' : TryWait m = (true, m') → 0 < sem_ m ∧ m' = mkSem true (sem_ m - 1).
Proof. unfold TryWait. case_match; [done|]. destruct (Z.ltb_spec 0 (sem_ m)); naive_solver. Qed.

Lemma Signal_below m : valid_ m = true → sem_ m < sem_value_max → Signal m = mkSem true (sem_ m + 1).
Proof. intros Hv Hlt. unfold Signal. rewrite Hv. cbn. by rewrite (proj2 (Z.ltb_lt _ _) Hlt). Qed.

Lemma new_system_inv : 0 ≤ depth ≤ sem_value_max → pipe_inv (new_system depth).
Proof.
  unfold sem_value_max. intros Hd. split; cbn; try done; unfold frames_queued, slots_taken, sem_value_max; cbn; try lia.
  rewrite wrapS_id; lia.
Qed.

Ltac inv_split := split; unfold frames_queued, slots_taken in *; cbn in *; rewrite ?length_app in *; cbn in *; try done; try lia.

Lemma pipe_step_fronts y y' : pipe_step y y' → (fronts (history y) ≤ fronts (history y'))%nat.
Proof. destruct 1; cbn; lia. Qed.

Lemma pipe_step_inv y y' :
  0 ≤ depth → depth + Z.of_nat (fronts (history y')) ≤ sem_value_max → pipe_inv y → pipe_step y y' → pipe_inv y'.
Proof.
  unfold sem_value_max. intros Hd Hf Hi Hs. destruct Hs as
    [p p' v c hs fs n a cs u h Hp|p v c hs fs n a cs u h|p k p' v c hs fs n a cs u h Hp|p k p' v c hs fs n a cs u h Hp|
     p v c hs1 k hs2 fs r n a cs u pu po f d|p p' v c hs fs1 k fs2 r n a cs u pu po f d Hp|p v c hs fs n a cs u h|
     p p' v c hs fs n a cs u h Hp|p item l p' v c hs fs n a cs u pu po f d Hp|p v c hs fs n a cs1 item cs2 u h|
     p v c hs fs n a cs u h]; destruct Hi as [Hde He Ha Hit Hsl Hap Hep Hin Hdr Hor]; cbn in Hf, Hde, He, Ha, Hap, Hep, Hin, Hdr, Hor.
  - unfold produce_reserve in Hp. destruct (TryWait (empty_ p)) as [ok m] eqn:Ht. injection Hp as -> <-.
    apply TryWait_true in Ht as [? ->]. inv_split. rewrite Hin. f_equal. lia.
  - inv_split. rewrite Hin, wrapS_add_l. f_equal. lia.
  - injection Hp as <- <-. inv_split.
  - injection Hp as <- <-. inv_split.
  - inv_split. intros Hz. by rewrite <- (Hor Hz), app_assoc.
  - rewrite commit_push_front_eq in Hp by lia. injection Hp as <-. inv_split; rewrite ?length_take; cbn; lia.
  - assert (Signal (available_ p) = mkSem true (sem_ (available_ p) + 1)) as Hs.
    { apply Signal_below; [done|]. unfold frames_queued, slots_taken, sem_value_max in *. cbn in *. lia. }
    inv_split; rewrite ?Hs; cbn; try done; lia.
  - unfold consume_acquire in Hp. destruct (TryWait (available_ p)) as [ok m] eqn:Ht. injection Hp as -> <-.
    apply TryWait_true in Ht as [? ->]. inv_split.
  - unfold consume_pop in Hp. destruct (queue_ p) as [|i q] eqn:Hq; [done|]. injection Hp as -> <- <-.
    unfold frames_queued, slots_taken in *. cbn in *. rewrite Hq in *. inv_split. intros Hz. by rewrite <- (Hor Hz), <- app_assoc.
  - assert (Signal (empty_ p) = mkSem true (sem_ (empty_ p) + 1)) as Hs.
    { apply Signal_below; [done|]. unfold frames_queued, slots_taken, sem_value_max in *. cbn in *. rewrite length_app in *. cbn in *. lia. }
    inv_split; rewrite ?Hs; cbn; try done; try lia. rewrite Hin. f_equal. lia.
  - inv_split. rewrite Hin, <- Z.add_opp_r, wrapS_add_l. f_equal. lia.
Qed.
Lemma pipe_reachable_inv y :
  0 ≤ depth → depth + Z.of_nat (fronts (history y)) ≤ sem_value_max → pipe_reachable depth y → pipe_inv y.
Proof.
  intros Hd Hf Hr. revert Hf. pattern y. eapply rtc_ind_r; [..|exact Hr]; clear y Hr; cbn beta.
  - intros Hf. apply new_system_inv. cbn in Hf. lia.
  - intros y y' _ Hs IH Hf. eapply pipe_step_inv; [done|done| |done]. apply IH. apply pipe_step_fronts in Hs. lia.
Qed.
End accounting.

(** ** Claims *)

(** C28: The semaphores of the pipeline count its frames exactly, in every
    interleaving of the atomic actions of any number of producers, at the back
    and at the front, and of consumers.  The [available_] count, the signals
    still to come and the consumers that passed it are the queued frames and
    the frames front producers dropped; the [empty_] count and the frames that
    hold a slot or will return one, with the dropped ones, are the depth and
    the frames that were pushed to the front without a slot; and [inflight_] is
    the depth without [empty_] and the slots that are not counted yet, with
    those that are not counted down yet, as an [int].  So while front frames
    dropped nothing, a consumer that passed [available_] finds a frame, and
    without front frames the reserved, queued and consumed frames never exceed
    the depth.  The frames pushed to the front, with the depth, must fit the
    semaphore. *)
Theorem pipeline_accounting depth y :
  0 ≤ depth → depth + Z.of_nat (fronts (history y)) ≤ sem_value_max → pipe_reachable depth y →
  let p := pipe y in let t := threads y in let h := history y in
  sem_ (available_ p) + Z.of_nat (to_signal t + acquired t) = Z.of_nat (length (queue_ p) + dropped h) ∧
  sem_ (empty_ p) + Z.of_nat (reserved t + counted t + length (held t) + length (queue_ p) + length (in_consumer t) + dropped h) =
    depth + Z.of_nat (fronts h) ∧
  inflight_ p = wrapS 32 (depth + Z.of_nat (returned t) - sem_ (empty_ p) - Z.of_nat (reserved t)) ∧
  0 ≤ sem_ (available_ p) ∧ 0 ≤ sem_ (empty_ p) ∧
  (dropped h = 0%nat → (0 < acquired t)%nat → ∃ item n p', consume_pop p ⇓ (item, n, p')) ∧
  (fronts h = 0%nat →
    Z.of_nat (reserved t + counted t + length (held t) + length (queue_ p) + length (in_consumer t)) ≤ depth).
Proof.
  intros Hd Hf Hr p t h. destruct (pipe_reachable_inv depth y Hd Hf Hr) as [_ _ _ Hit Hsl Hap Hep Hin Hdr _].
  unfold frames_queued, slots_taken in *. fold p t h in Hit, Hsl, Hap, Hep, Hin, Hdr. split_and!; [lia|lia|done|done|done| |].
  - intros Hz Ha. unfold consume_pop. destruct (queue_ p); [cbn in *; lia|]. eauto.
  - intros Hz. specialize (Hdr Hz). lia.
Qed.

(** Without front frames consumers receive the committed resources in commit
    order, none lost and none twice: what they popped, followed by what is
    queued, is what producers pushed. *)
Theorem pipeline_fifo depth y :
  0 ≤ depth ≤ sem_value_max → pipe_reachable depth y → fronts (history y) = 0%nat →
  popped (history y) ++ queue_ (pipe y) = pushed (history y).
Proof. intros Hd Hr Hz. apply (inv_order depth); [|done]. apply pipe_reachable_inv; [lia|rewrite Hz; lia|done]. Qed.

(** A frame that is produced and completed is consumed after the ones
    already queued; [Consume] reports [MoreAvailable] exactly when others
    remain, and returns the slot. *)
Theorem produce_consume p r k p1 k2 p2 {W : Type} (consumer : option R → W → W) w :
  valid_ (empty_ p) = true → valid_ (available_ p) = true →
  0 < sem_ (empty_ p) ≤ sem_value_max → sem_ (available_ p) = Z.of_nat (length (queue_ p)) →
  sem_ (available_ p) < sem_value_max →
  Produce p = (k, p1) → Complete k r p1 ⇓ (k2, p2) →
  ∃ item rest p3, queue_ p ++ [(r, trace_id_ k)] = item :: rest ∧
    Consume (Some consumer) w p2 ⇓
      (if (0 <? length rest)%nat then MoreAvailable else Done, consumer item.1 w, p3) ∧
    queue_ p3 = rest ∧ empty_ p3 = empty_ p ∧ sem_ (available_ p3) = sem_ (available_ p) ∧
    destroy_continuation k2 p3 ⇓ p3.
Proof.
  intros Hve Hva He Ha Hmax HP HC. unfold Produce, produce_reserve in HP.
  destruct (empty_ p) as [ve ne] eqn:Hem. cbn in Hve, He. subst ve. unfold TryWait in HP. cbn in HP.
  rewrite (proj2 (Z.ltb_lt 0 ne)) in HP by lia. cbn in HP. injection HP as <- <-.
  unfold Complete in HC. cbn in HC. apply Ok_inj in HC. injection HC as <- <-.
  unfold Consume, consume_acquire, ProducerCommit, commit_signal. cbn.
  rewrite Signal_below by done. unfold TryWait. cbn. rewrite (proj2 (Z.ltb_lt 0 _)) by lia. cbn.
  unfold consume_pop. cbn.
  destruct (queue_ p ++ [(r, wrapU 64 (last_trace_id p + 1))]) as [|item rest] eqn:Hq.
  { by apply app_eq_nil in Hq as [_ ?]. }
  exists item, rest. eexists. split; [done|]. split; [done|]. cbn.
  rewrite (proj2 (Z.ltb_lt (ne - 1) sem_value_max)) by lia. split_and!; [done|f_equal; lia|lia|done].
Qed.

(** A resource completed through [ProduceToFront] is the next one
    consumed, and the deque stays within the pipeline's depth by dropping the
    newest ordinary frames. *)
Theorem produce_to_front_next p r k p1 k2 p2 {W : Type} (consumer : option R → W → W) w :
  valid_ (available_ p) = true → 0 ≤ sem_ (available_ p) < sem_value_max → 0 < depth_ p →
  ProduceToFront p = (k, p1) → Complete k r p1 ⇓ (k2, p2) →
  Z.of_nat (length (queue_ p2)) ≤ depth_ p ∧
  ∃ n p3, Consume (Some consumer) w p2 ⇓ (n, consumer r w, p3) ∧
    queue_ p3 = take (Z.to_nat (depth_ p - 1)) (queue_ p).
Proof.
  intros Hva Ha Hd HP HC. unfold ProduceToFront in HP. cbn in HP. injection HP as <- <-.
  unfold Complete in HC. cbn [continuation_ trace_id_ run_continuation] in HC.
  unfold ProducerCommitFront in HC. rewrite commit_push_front_eq in HC by (cbn; lia).
  cbn in HC. apply Ok_inj in HC. injection HC as _ <-.
  replace (Z.to_nat (depth_ p)) with (S (Z.to_nat (depth_ p - 1))) by lia. cbn. split.
  { rewrite length_take. lia. }
  unfold Consume, consume_acquire. cbn. rewrite Signal_below by (done || lia).
  unfold TryWait. cbn. rewrite (proj2 (Z.ltb_lt 0 _)) by lia. cbn. eexists _, _. split; [done|]. done.
Qed.
End pipeline.

(** ** Concrete runs *)

Definition drive {R} (rs : list (option R)) (p : Pipeline (R := R)) : result Pipeline :=
  foldl (λ acc r, p ← acc; let '(k, p) := Produce p in '(_, p) ← Complete k r p; mret p) (mret p) rs.

(** [ProduceToFront] signals [available_] without having taken a slot
    and [ProducerCommitFront] drops frames without taking their signal back:
    on a full pipeline of depth 2 one front frame makes the third [Consume]
    pop an empty deque, which is undefined behaviour. *)
Theorem pipeline_front_underflow :
  ∃ p k p1 k2 p2 p3 p4 (w : list nat),
    drive [Some 1%nat; Some 2%nat] (new_pipeline 2) ⇓ p ∧
    ProduceToFront p = (k, p1) ∧ Complete k (Some 3%nat) p1 ⇓ (k2, p2) ∧
    Consume (Some (λ r w, w ++ [default 0%nat r])) [] p2 ⇓ (MoreAvailable, [3%nat], p3) ∧
    Consume (Some (λ r w, w ++ [default 0%nat r])) [3%nat] p3 ⇓ (Done, w, p4) ∧
    Consume (Some (λ r w, w ++ [default 0%nat r])) w p4 ⇑ UndefinedBehaviour.
Proof. eexists _, _, _, _, _, _, _, _. repeat (split; [vm_compute; reflexivity|]). vm_compute. reflexivity. Qed.

(** A frame held by a producer, one queued for a consumer that acquired it, and
    one put back to the front. *)
Lemma busy_pipeline :
  ∃ y, pipe_reachable (R := nat) 3 y ∧ length (held (threads y)) = 1%nat ∧ length (queue_ (pipe y)) = 2%nat ∧
    acquired (threads y) = 1%nat ∧ fronts (history y) = 1%nat ∧ dropped (history y) = 0%nat.
Proof.
  eexists. split.
  - eapply rtc_l; [eapply step_reserve; by vm_compute|]. eapply rtc_l; [apply step_count|].
    eapply rtc_l; [eapply step_continuation; by vm_compute|].
    eapply rtc_l; [eapply step_reserve; by vm_compute|]. eapply rtc_l; [apply step_count|].
    eapply rtc_l; [eapply step_continuation; by vm_compute|].
    eapply rtc_l; [apply (step_push _ _ _ [_] _ [] _ (Some 5%nat))|]. cbn [app].
    eapply rtc_l; [eapply step_to_front; by vm_compute|].
    eapply rtc_l; [apply step_signal|].
    eapply rtc_l; [eapply (step_push_front _ _ _ _ _ [] _ [] (Some 6%nat)); by vm_compute|].
    eapply rtc_l; [eapply step_acquire; by vm_compute|]. apply rtc_refl.
  - by vm_compute.
Qed.

Lemma pipeline_accounting_witness :
  ∃ y, pipe_reachable (R := nat) 3 y ∧ (∃ item n p, consume_pop (pipe y) ⇓ (item, n, p)) ∧ fronts (history y) = 1%nat.
Proof.
  destruct busy_pipeline as (y & Hr & Hh & Hq & Ha & Hf & Hz). exists y. split; [done|].
  destruct (pipeline_accounting 3 y) as (_ & _ & _ & _ & _ & Hpop & _); [done|rewrite Hf; unfold sem_value_max; lia|done|].
  split; [apply Hpop; [done|lia]|done].
Defined.

Lemma pipeline_fifo_witness :
  ∃ y, pipe_reachable (R := nat) 3 y ∧ popped (history y) ++ queue_ (pipe y) = pushed (history y).
Proof.
  exists (new_system 3). split; [apply rtc_refl|]. apply (pipeline_fifo 3); [unfold sem_value_max; lia|apply rtc_refl|done].
Defined.

Definition full_pipeline : Pipeline := ltac:(let p := eval vm_compute in
  (match drive [Some 1%nat; Some 2%nat] (new_pipeline 3) with Ok p => p | _ => new_pipeline 3 end) in exact p).

Lemma produce_consume_witness :
  ∃ item rest p3, queue_ full_pipeline ++ [(Some 9%nat, 3)] = item :: rest ∧
    Consume (Some (λ r (w : list (option nat)), r :: w)) []
      (mkPipeline 3 (mkSem true 0) (mkSem true 3) 3 [(Some 1%nat, 1); (Some 2%nat, 2); (Some 9%nat, 3)] 3) ⇓
      (if (0 <? length rest)%nat then MoreAvailable else Done, [item.1], p3) ∧
    queue_ p3 = rest ∧ empty_ p3 = empty_ full_pipeline ∧
    sem_ (available_ p3) = sem_ (available_ full_pipeline) ∧
    destroy_continuation (mkContinuation None 3) p3 ⇓ p3.
Proof.
  apply (produce_consume full_pipeline (Some 9%nat) (mkContinuation (Some to_ProducerCommit) 3)
    (mkPipeline 3 (mkSem true 0) (mkSem true 2) 3 [(Some 1%nat, 1); (Some 2%nat, 2)] 3)); by vm_compute.
Defined.

Lemma produce_to_front_next_witness :
  Z.of_nat (length [(Some 9%nat, 3); (Some 1%nat, 1); (Some 2%nat, 2)]) ≤ 3 ∧
  ∃ n p3, Consume (Some (λ r (w : list (option nat)), r :: w)) []
      (mkPipeline 3 (mkSem true 1) (mkSem true 3) 2 [(Some 9%nat, 3); (Some 1%nat, 1); (Some 2%nat, 2)] 3) ⇓
      (n, [Some 9%nat], p3) ∧ queue_ p3 = take 2 (queue_ full_pipeline).
Proof.
  apply (produce_to_front_next full_pipeline (Some 9%nat) (mkContinuation (Some to_ProducerCommitFront) 3)
    (mkPipeline 3 (mkSem true 1) (mkSem true 2) 2 [(Some 1%nat, 1); (Some 2%nat, 2)] 3)
    (mkContinuation None 3)
    (mkPipeline 3 (mkSem true 1) (mkSem true 3) 2 [(Some 9%nat, 3); (Some 1%nat, 1); (Some 2%nat, 2)] 3));
    by vm_compute.
Defined.
