(* ===== verification/VsyncWaiter.v ===== *)
(** * VsyncWaiter: one vsync request per frame interval

    Model of [flutter::VsyncWaiter] (shell/common/vsync_waiter.{h,cc}).  The
    platform's [AwaitVSync] is counted in [awaited]: the vsync signals that
    have been asked for and have not fired.  [FireCallback] returns the tasks
    it posts to the UI task runner, with their target times. *)

From Stdlib Require Import ZArith Lia.
From stdpp Require Import base sorting gmap numbers list.
From S2P Require Import Prelude Time TaskQueues.

Local Open Scope Z_scope.

Section waiter.
Context `{Build} {C : Type}.

(** A [Callback] is null or some code of type [C]. *)
Record VsyncWaiter := mkWaiter {
  callback_ : option C;
  secondary_callback_ : closure;
  awaited : Z;
}.

Definition new_waiter : VsyncWaiter := mkWaiter None None 0.

Definition AwaitVSync (w : VsyncWaiter) : VsyncWaiter :=
  mkWaiter (callback_ w) (secondary_callback_ w) (awaited w + 1).

Definition AsyncWaitForVsync (callback : option C) (w : VsyncWaiter) : VsyncWaiter :=
  match callback with
  | None => w
  | Some _ =>
      match callback_ w with
      | Some _ => w
      | None =>
          let w := mkWaiter callback (secondary_callback_ w) (awaited w) in
          match secondary_callback_ w with Some _ => w | None => AwaitVSync w end
      end
  end.

(** [on_ui_thread] is [GetUITaskRunner()->RunsTasksOnCurrentThread()]. *)
Definition ScheduleSecondaryCallback (on_ui_thread : bool) (callback : closure) (w : VsyncWaiter)
    : result VsyncWaiter :=
  _ ← fml_dcheck on_ui_thread;
  mret match callback with
  | None => w
  | Some _ =>
      match secondary_callback_ w with
      | Some _ => w
      | None =>
          let w := mkWaiter (callback_ w) callback (awaited w) in
          match callback_ w with Some _ => w | None => AwaitVSync w end
      end
  end.

Inductive VsyncTask :=
  | RunCallback (c : C) (frame_start_time frame_target_time : TimePoint.t)
  | RunSecondary (code : nat).

Definition FireCallback (frame_start_time frame_target_time : TimePoint.t) (w : VsyncWaiter)
    : list (VsyncTask * TimePoint.t) * VsyncWaiter :=
  let callback := callback_ w in
  let secondary_callback := secondary_callback_ w in
  let w := mkWaiter None None (awaited w) in
  match callback, secondary_callback with
  | None, None => ([], w)
  | _, _ =>
      (match callback with
       | Some c => [(RunCallback c frame_start_time frame_target_time, frame_start_time)]
       | None => []
       end ++
       match secondary_callback with
       | Some code => [(RunSecondary code, frame_start_time)]
       | None => []
       end, w)
  end.

(** The platform fires once for every [AwaitVSync]. *)
Definition vsync (frame_start_time frame_target_time : TimePoint.t) (w : VsyncWaiter)
    : list (VsyncTask * TimePoint.t) * VsyncWaiter :=
  FireCallback frame_start_time frame_target_time
    (mkWaiter (callback_ w) (secondary_callback_ w) (awaited w - 1)).

Inductive waiter_reachable : VsyncWaiter → Prop :=
  | waiter_new : waiter_reachable new_waiter
  | waiter_async c w : waiter_reachable w → waiter_reachable (AsyncWaitForVsync c w)
  | waiter_secondary c w w' :
      waiter_reachable w → ScheduleSecondaryCallback true c w ⇓ w' → waiter_reachable w'
  | waiter_vsync t1 t2 w : waiter_reachable w → 0 < awaited w → waiter_reachable (vsync t1 t2 w).2.

Definition waiting (w : VsyncWaiter) : bool :=
  bool_decide (is_Some (callback_ w)) || bool_decide (is_Some (secondary_callback_ w)).

Definition waiter_inv (w : VsyncWaiter) : Prop := awaited w = if waiting w then 1 else 0.

Lemma AsyncWaitForVsync_inv c w : waiter_inv w → waiter_inv (AsyncWaitForVsync c w).
Proof.
  unfold waiter_inv, waiting, AsyncWaitForVsync. destruct w as [[] [] n]; cbn; try by destruct c.
  all: destruct c; cbn; intros; try done; lia.
Qed.

Lemma ScheduleSecondary_inv b c w w' :
  waiter_inv w → ScheduleSecondaryCallback b c w ⇓ w' → waiter_inv w'.
Proof.
  unfold ScheduleSecondaryCallback. intros Hi (_ & _ & <-%Ok_inj)%bind_Ok. revert Hi.
  unfold waiter_inv, waiting. destruct w as [[] [] n]; destruct c; cbn; intros; try done; lia.
Qed.

Lemma vsync_inv t1 t2 w : waiter_inv w → 0 < awaited w → waiter_inv (vsync t1 t2 w).2.
Proof. unfold waiter_inv, waiting. destruct w as [[] [] n]; cbn; intros; try done; lia. Qed.

Lemma waiter_reachable_inv w : waiter_reachable w → waiter_inv w.
Proof.
  induction 1; [done|by apply AsyncWaitForVsync_inv|by eapply ScheduleSecondary_inv|by apply vsync_inv].
Qed.

(** ** Claims *)

(** However often callbacks are scheduled, the platform has exactly one
    vsync outstanding when a callback is registered and none otherwise; when
    it fires, each registered callback is posted once, for the frame's start
    time and the primary one first, and a signal nobody asked for posts
    nothing. *)
Theorem vsync_one_request w t1 t2 :
  waiter_reachable w →
  awaited w = (if waiting w then 1 else 0) ∧
  (FireCallback t1 t2 w).1 =
    (match callback_ w with Some c => [(RunCallback c t1 t2, t1)] | None => [] end ++
     match secondary_callback_ w with Some code => [(RunSecondary code, t1)] | None => [] end) ∧
  (FireCallback t1 t2 (FireCallback t1 t2 w).2).1 = [].
Proof.
  intros Hi%waiter_reachable_inv. split; [done|]. by destruct w as [[] [] n].
Qed.
End waiter.
Arguments VsyncWaiter C : clear implicits.
Arguments VsyncTask C : clear implicits.

Lemma vsync_one_request_witness :
  let w := mkWaiter (Some 4%nat) (Some 5%nat) 1 in
  awaited w = (if waiting w then 1 else 0) ∧
  (FireCallback 100 116 w).1 = [(RunCallback 4%nat 100 116, 100); (RunSecondary 5, 100)] ∧
  (FireCallback 100 116 (FireCallback 100 116 w).2).1 = [].
Proof.
  apply (vsync_one_request (H := {| debug := true |}) (mkWaiter (Some 4%nat) (Some 5%nat) 1) 100 116).
  apply (waiter_secondary (H := {| debug := true |}) (Some 5%nat) (AsyncWaitForVsync (Some 4%nat) new_waiter));
    [apply waiter_async, waiter_new|done].
Defined.
