(* ===== verification/Animator.v ===== *)
(** * Animator: scheduling frames

    Model of [flutter::Animator] (shell/common/animator.{h,cc}) with the vsync
    waiter and the layer-tree pipeline it drives.  The shell state [Shell]
    holds the animator, the waiter, the tasks posted to the UI task runner
    (run in any order by [frame_step]) and a log of the delegate's calls.
    What the framework does inside [OnAnimatorBeginFrame] is a parameter: any
    list of calls of the animator's public methods, chosen from the state. *)

From Stdlib Require Import ZArith Lia.
From stdpp Require Import base sorting gmap numbers list.
From S2P Require Import Prelude Time TaskQueues Pipeline VsyncWaiter.

Local Open Scope Z_scope.

(** ** Data *)

(** [LayerTree], as far as the animator reads and writes it. *)
Record LayerTree := mkLayerTree {
  frame_size : Z * Z;
  build_start_ : TimePoint.t;
  build_finish_ : TimePoint.t;
}.

Definition RecordBuildTime (start now : TimePoint.t) (t : LayerTree) : LayerTree :=
  mkLayerTree (frame_size t) start now.

Record Animator := mkAnimator {
  last_begin_frame_time_ : TimePoint.t;
  dart_frame_deadline_ : Z;
  layer_tree_pipeline_ : Pipeline (R := LayerTree);
  pending_frame_semaphore_ : Semaphore;
  producer_continuation_ : ProducerContinuation;
  frame_number_ : Z;
  paused_ : bool;
  regenerate_layer_tree_ : bool;
  frame_scheduled_ : bool;
  notify_idle_task_id_ : Z;
  dimension_change_pending_ : bool;
  last_layer_tree_size_ : Z * Z;
  trace_flow_ids_ : list Z;
}.

(** The closures the animator posts; the waiter's callback is always the one
    of [AwaitVSync]. *)
Inductive UiTask :=
  | AwaitVSyncTask
  | NotifyIdleTask (notify_idle_task_id : Z) (target_time : TimePoint.t)
  | VsyncCallbackTask (frame_start_time frame_target_time : TimePoint.t)
  | SecondaryTask (code : nat).

Inductive DelegateCall :=
  | OnAnimatorBeginFrame (frame_time : TimePoint.t)
  | OnAnimatorNotifyIdle (deadline : Z)
  | OnAnimatorDraw
  | OnAnimatorDrawLastLayerTree.

Record Shell := mkShell {
  animator : Animator;
  waiter_ : VsyncWaiter unit;
  ui_tasks : list UiTask;
  delegate_log : list DelegateCall;
}.

(** Clock readings: [fml::TimePoint::Now()] and [Dart_TimelineGetMicros()]. *)
Record Clock := mkClock { fxl_now : TimePoint.t; dart_now : Z }.

Definition kNotifyIdleTaskWaitTime : result TimeDelta.t := TimeDelta.FromMilliseconds 51.

Definition new_animator (same_platform_and_gpu : bool) : Animator :=
  mkAnimator 0 0 (new_pipeline (if same_platform_and_gpu then 1 else 2)) (new_sem 1)
    no_continuation 1 false false false 0 false (0, 0) [].

Definition new_shell (same_platform_and_gpu : bool) : Shell :=
  mkShell (new_animator same_platform_and_gpu) new_waiter [] [].

(** ** Field updates *)

Definition upd_animator (f : Animator → Animator) (s : Shell) : Shell :=
  mkShell (f (animator s)) (waiter_ s) (ui_tasks s) (delegate_log s).
Definition upd_waiter (f : VsyncWaiter unit → VsyncWaiter unit) (s : Shell) : Shell :=
  mkShell (animator s) (f (waiter_ s)) (ui_tasks s) (delegate_log s).
Definition post_ui (t : UiTask) (s : Shell) : Shell :=
  mkShell (animator s) (waiter_ s) (ui_tasks s ++ [t]) (delegate_log s).
Definition call_delegate (c : DelegateCall) (s : Shell) : Shell :=
  mkShell (animator s) (waiter_ s) (ui_tasks s) (delegate_log s ++ [c]).

Definition set_times start deadline a := mkAnimator start deadline (layer_tree_pipeline_ a) (pending_frame_semaphore_ a) (producer_continuation_ a) (frame_number_ a) (paused_ a) (regenerate_layer_tree_ a) (frame_scheduled_ a) (notify_idle_task_id_ a) (dimension_change_pending_ a) (last_layer_tree_size_ a) (trace_flow_ids_ a).
Definition set_pipeline k p a := mkAnimator (last_begin_frame_time_ a) (dart_frame_deadline_ a) p (pending_frame_semaphore_ a) k (frame_number_ a) (paused_ a) (regenerate_layer_tree_ a) (frame_scheduled_ a) (notify_idle_task_id_ a) (dimension_change_pending_ a) (last_layer_tree_size_ a) (trace_flow_ids_ a).
Definition set_pending m a := mkAnimator (last_begin_frame_time_ a) (dart_frame_deadline_ a) (layer_tree_pipeline_ a) m (producer_continuation_ a) (frame_number_ a) (paused_ a) (regenerate_layer_tree_ a) (frame_scheduled_ a) (notify_idle_task_id_ a) (dimension_change_pending_ a) (last_layer_tree_size_ a) (trace_flow_ids_ a).
Definition set_paused b a := mkAnimator (last_begin_frame_time_ a) (dart_frame_deadline_ a) (layer_tree_pipeline_ a) (pending_frame_semaphore_ a) (producer_continuation_ a) (frame_number_ a) b (regenerate_layer_tree_ a) (frame_scheduled_ a) (notify_idle_task_id_ a) (dimension_change_pending_ a) (last_layer_tree_size_ a) (trace_flow_ids_ a).
Definition set_regenerate b a := mkAnimator (last_begin_frame_time_ a) (dart_frame_deadline_ a) (layer_tree_pipeline_ a) (pending_frame_semaphore_ a) (producer_continuation_ a) (frame_number_ a) (paused_ a) b (frame_scheduled_ a) (notify_idle_task_id_ a) (dimension_change_pending_ a) (last_layer_tree_size_ a) (trace_flow_ids_ a).
Definition set_scheduled b a := mkAnimator (last_begin_frame_time_ a) (dart_frame_deadline_ a) (layer_tree_pipeline_ a) (pending_frame_semaphore_ a) (producer_continuation_ a) (frame_number_ a) (paused_ a) (regenerate_layer_tree_ a) b (notify_idle_task_id_ a) (dimension_change_pending_ a) (last_layer_tree_size_ a) (trace_flow_ids_ a).
Definition set_counters frame idle a := mkAnimator (last_begin_frame_time_ a) (dart_frame_deadline_ a) (layer_tree_pipeline_ a) (pending_frame_semaphore_ a) (producer_continuation_ a) frame (paused_ a) (regenerate_layer_tree_ a) (frame_scheduled_ a) idle (dimension_change_pending_ a) (last_layer_tree_size_ a) (trace_flow_ids_ a).
Definition set_dimension b size a := mkAnimator (last_begin_frame_time_ a) (dart_frame_deadline_ a) (layer_tree_pipeline_ a) (pending_frame_semaphore_ a) (producer_continuation_ a) (frame_number_ a) (paused_ a) (regenerate_layer_tree_ a) (frame_scheduled_ a) (notify_idle_task_id_ a) b size (trace_flow_ids_ a).
Definition set_trace_flow_ids l a := mkAnimator (last_begin_frame_time_ a) (dart_frame_deadline_ a) (layer_tree_pipeline_ a) (pending_frame_semaphore_ a) (producer_continuation_ a) (frame_number_ a) (paused_ a) (regenerate_layer_tree_ a) (frame_scheduled_ a) (notify_idle_task_id_ a) (dimension_change_pending_ a) (last_layer_tree_size_ a) l.

Section animator.
Context `{Build}.

(** ** Public methods *)

Definition Stop (s : Shell) : Shell := upd_animator (set_paused true) s.

Definition SetDimensionChangePending (s : Shell) : Shell :=
  upd_animator (λ a, set_dimension true (last_layer_tree_size_ a) a) s.

Definition RequestFrame (regenerate_layer_tree : bool) (s : Shell) : Shell :=
  let s := if regenerate_layer_tree then upd_animator (set_regenerate true) s else s in
  if paused_ (animator s) && negb (dimension_change_pending_ (animator s)) then s
  else
    let '(ok, m) := TryWait (pending_frame_semaphore_ (animator s)) in
    let s := upd_animator (set_pending m) s in
    if negb ok then s
    else upd_animator (set_scheduled true) (post_ui AwaitVSyncTask s).

Definition Start (s : Shell) : Shell :=
  if negb (paused_ (animator s)) then s
  else RequestFrame true (upd_animator (set_paused false) s).

(** The body of the task [EnqueueTraceFlowId] runs or posts. *)
Definition EnqueueTraceFlowId (trace_flow_id : Z) (s : Shell) : Shell :=
  upd_animator (λ a, set_trace_flow_ids (trace_flow_ids_ a ++ [trace_flow_id]) a) s.

(** [layer_tree->frame_size()] is evaluated before the null check. *)
Definition Render (now : TimePoint.t) (layer_tree : option LayerTree) (s : Shell) : result Shell :=
  let a := animator s in
  pending ← (if dimension_change_pending_ a then
               t ← of_option NullDeref layer_tree;
               mret (bool_decide (frame_size t = last_layer_tree_size_ a))
             else mret false);
  t ← of_option NullDeref layer_tree;
  let a := set_dimension pending (frame_size t) a in
  let layer_tree := RecordBuildTime (last_begin_frame_time_ a) now <$> layer_tree in
  '(k, p) ← Complete (producer_continuation_ a) layer_tree (layer_tree_pipeline_ a);
  mret (call_delegate OnAnimatorDraw (upd_animator (λ _, set_pipeline k p a) s)).

Definition CanReuseLastLayerTree (s : Shell) : bool := negb (regenerate_layer_tree_ (animator s)).

Definition DrawLastLayerTree (s : Shell) : Shell :=
  call_delegate OnAnimatorDrawLastLayerTree
    (upd_animator (λ a, set_pending (Signal (pending_frame_semaphore_ a)) a) s).

Definition ScheduleSecondaryVsyncCallback (on_ui_thread : bool) (callback : closure) (s : Shell)
    : result Shell :=
  w ← ScheduleSecondaryCallback on_ui_thread callback (waiter_ s);
  mret (upd_waiter (λ _, w) s).

(** The calls the framework may make. *)
Inductive AnimatorCall :=
  | RequestFrameC (regenerate_layer_tree : bool)
  | RenderC (now : TimePoint.t) (layer_tree : LayerTree)
  | StartC
  | StopC
  | SetDimensionChangePendingC
  | EnqueueTraceFlowIdC (trace_flow_id : Z)
  | ScheduleSecondaryVsyncCallbackC (callback : closure).

Definition animator_exec (c : AnimatorCall) (s : Shell) : result Shell :=
  match c with
  | RequestFrameC b => mret (RequestFrame b s)
  | RenderC now t => Render now (Some t) s
  | StartC => mret (Start s)
  | StopC => mret (Stop s)
  | SetDimensionChangePendingC => mret (SetDimensionChangePending s)
  | EnqueueTraceFlowIdC id => mret (EnqueueTraceFlowId id s)
  | ScheduleSecondaryVsyncCallbackC c => ScheduleSecondaryVsyncCallback true c s
  end.

Fixpoint animator_execs (cs : list AnimatorCall) (s : Shell) : result Shell :=
  match cs with
  | [] => mret s
  | c :: cs => s ← animator_exec c s; animator_execs cs s
  end.

Context (framework : TimePoint.t → Shell → list AnimatorCall).

(** ** Frames *)

Definition FxlToDartOrEarlier (clock : Clock) (time : TimePoint.t) : result Z :=
  d ← TimePoint.diff time (fxl_now clock);
  checked_s 64 (TimeDelta.ToMicroseconds d + dart_now clock).

(** A continuation left over from a frame that was not rendered is reused. *)
Definition acquire_continuation (a : Animator) : result Animator :=
  match continuation_ (producer_continuation_ a) with
  | Some _ => mret a
  | None =>
      let '(k, p) := Produce (layer_tree_pipeline_ a) in
      let '(this, other) := move_assign (producer_continuation_ a) k in
      p ← destroy_continuation other p;
      mret (set_pipeline this p a)
  end.

(** What [BeginFrame] resets before it looks for a continuation. *)
Definition reset_frame (frame idle : Z) (a : Animator) : Animator :=
  let a := set_trace_flow_ids [] (set_counters frame idle a) in
  let a := set_regenerate false (set_scheduled false a) in
  set_pending (Signal (pending_frame_semaphore_ a)) a.

Definition BeginFrame (clock : Clock) (frame_start_time frame_target_time : TimePoint.t) (s : Shell)
    : result Shell :=
  let a := animator s in
  frame ← checked_s 64 (frame_number_ a + 1);
  idle ← checked_s 32 (notify_idle_task_id_ a + 1);
  a ← acquire_continuation (reset_frame frame idle a);
  let s := upd_animator (λ _, a) s in
  if negb (bool_decide (is_Some (continuation_ (producer_continuation_ a)))) then mret (RequestFrame true s)
  else
    _ ← fml_dcheck (bool_decide (is_Some (continuation_ (producer_continuation_ a))));
    deadline ← FxlToDartOrEarlier clock frame_target_time;
    let s := upd_animator (set_times frame_start_time deadline) s in
    let s := call_delegate (OnAnimatorBeginFrame frame_target_time) s in
    s ← animator_execs (framework frame_target_time s) s;
    if negb (frame_scheduled_ (animator s)) then
      delay ← kNotifyIdleTaskWaitTime;
      target_time ← TimePoint.plus (fxl_now clock) delay;
      mret (post_ui (NotifyIdleTask (notify_idle_task_id_ (animator s)) target_time) s)
    else mret s.

Definition AnimatorAwaitVSync (s : Shell) : Shell :=
  let s := upd_waiter (AsyncWaitForVsync (Some tt)) s in
  call_delegate (OnAnimatorNotifyIdle (dart_frame_deadline_ (animator s))) s.

(** The bodies of the posted closures. *)
Definition run_ui_task (clock : Clock) (t : UiTask) (s : Shell) : result Shell :=
  match t with
  | AwaitVSyncTask => mret (AnimatorAwaitVSync s)
  | NotifyIdleTask id _ =>
      if (id =? notify_idle_task_id_ (animator s)) && negb (frame_scheduled_ (animator s))
      then deadline ← checked_s 64 (dart_now clock + 100000);
           mret (call_delegate (OnAnimatorNotifyIdle deadline) s)
      else mret s
  | VsyncCallbackTask frame_start_time frame_target_time =>
      if CanReuseLastLayerTree s then mret (DrawLastLayerTree s)
      else BeginFrame clock frame_start_time frame_target_time s
  | SecondaryTask _ => mret s
  end.

Definition posted_task (t : VsyncTask unit * TimePoint.t) : UiTask :=
  match t.1 with
  | RunCallback _ t1 t2 => VsyncCallbackTask t1 t2
  | RunSecondary code => SecondaryTask code
  end.

(** The platform's vsync signal. *)
Definition shell_vsync (frame_start_time frame_target_time : TimePoint.t) (s : Shell) : Shell :=
  let '(posted, w) := vsync frame_start_time frame_target_time (waiter_ s) in
  mkShell (animator s) w (ui_tasks s ++ (posted_task <$> posted)) (delegate_log s).

Inductive frame_step : Shell → Shell → Prop :=
  | step_call c s s' : animator_exec c s ⇓ s' → frame_step s s'
  | step_task clock ts1 t ts2 a w log s' :
      run_ui_task clock t (mkShell a w (ts1 ++ ts2) log) ⇓ s' →
      frame_step (mkShell a w (ts1 ++ t :: ts2) log) s'
  | step_vsync t1 t2 s : 0 < awaited (waiter_ s) → frame_step s (shell_vsync t1 t2 s).

(** ** One frame request at a time *)

(** A frame request is a token: in [pending_frame_semaphore_] when no frame
    is requested, then in the posted [AwaitVSyncTask], in the waiter's
    callback, and in the posted [VsyncCallbackTask]. *)
Definition carries (t : UiTask) : nat :=
  match t with AwaitVSyncTask | VsyncCallbackTask _ _ => 1 | _ => 0 end.

Definition tokens (s : Shell) : Z :=
  sem_ (pending_frame_semaphore_ (animator s)) + Z.of_nat (sum_list_with carries (ui_tasks s)) +
  match callback_ (waiter_ s) with Some _ => 1 | None => 0 end.

Record frame_inv (k : Z) (s : Shell) : Prop := {
  inv_valid : valid_ (pending_frame_semaphore_ (animator s)) = true;
  inv_pending : 0 ≤ sem_ (pending_frame_semaphore_ (animator s));
  inv_tokens : tokens s = k;
  inv_waiter : waiter_inv (waiter_ s);
}.

(** Updates of the animator that leave the semaphore alone. *)
Lemma frame_inv_upd k f s :
  pending_frame_semaphore_ (f (animator s)) = pending_frame_semaphore_ (animator s) →
  frame_inv k s → frame_inv k (upd_animator f s).
Proof. intros Hf [Hv Hp Ht Hw]. split; cbn; rewrite ?Hf; try done. unfold tokens in *. cbn. by rewrite Hf. Qed.

Lemma frame_inv_call k c s : frame_inv k s → frame_inv k (call_delegate c s).
Proof. by intros []. Qed.

Lemma tokens_post t s : tokens (post_ui t s) = tokens s + Z.of_nat (carries t).
Proof. unfold tokens. cbn. rewrite sum_list_with_app. cbn. lia. Qed.

Lemma frame_inv_post k t s : carries t = 0%nat → frame_inv k s → frame_inv k (post_ui t s).
Proof. intros Hc []. split; try done. rewrite tokens_post. lia. Qed.

Lemma frame_inv_signal k s :
  k < sem_value_max → frame_inv k s →
  frame_inv (k + 1) (upd_animator (λ a, set_pending (Signal (pending_frame_semaphore_ a)) a) s).
Proof.
  intros Hk [Hv Hp Ht Hw]. unfold tokens in Ht.
  assert (sem_ (pending_frame_semaphore_ (animator s)) < sem_value_max) by (destruct callback_; lia).
  pose proof (Signal_below _ Hv H0) as Hs.
  split; unfold tokens; cbn; rewrite ?Hs; cbn; try done; lia.
Qed.

Lemma RequestFrame_inv k b s : frame_inv k s → frame_inv k (RequestFrame b s).
Proof.
  intros Hi. unfold RequestFrame. set (s1 := if b then _ else _).
  assert (Hi1 : frame_inv k s1) by (subst s1; destruct b; [by apply frame_inv_upd|done]).
  clearbody s1. clear Hi. case_match; [done|].
  destruct (TryWait _) as [ok m] eqn:Ht. destruct ok; cbn [negb].
  - apply TryWait_true in Ht as [Hpos ->]. destruct Hi1 as [Hv Hp Htok Hw].
    split; unfold tokens in *; cbn; try done; [lia|]. rewrite sum_list_with_app. cbn. lia.
  - unfold TryWait in Ht. rewrite (inv_valid _ _ Hi1) in Ht. cbn in Ht. case_match; [done|].
    injection Ht as <-. by apply frame_inv_upd.
Qed.

Lemma Render_inv k now t s s' : frame_inv k s → Render now t s ⇓ s' → frame_inv k s'.
Proof.
  unfold Render. intros Hi (pending & _ & Hr)%bind_Ok. apply bind_Ok in Hr as (t' & _ & Hr).
  apply bind_Ok in Hr as ([k' p] & _ & Hr). apply Ok_inj in Hr as <-.
  apply frame_inv_call. by apply frame_inv_upd.
Qed.

Lemma animator_exec_inv k c s s' : frame_inv k s → animator_exec c s ⇓ s' → frame_inv k s'.
Proof.
  intros Hi. destruct c; cbn [animator_exec]; intros He.
  - apply Ok_inj in He as <-. by apply RequestFrame_inv.
  - by eapply Render_inv.
  - apply Ok_inj in He as <-. unfold Start. case_match; [done|]. by apply RequestFrame_inv, frame_inv_upd.
  - apply Ok_inj in He as <-. by apply frame_inv_upd.
  - apply Ok_inj in He as <-. by apply frame_inv_upd.
  - apply Ok_inj in He as <-. by apply frame_inv_upd.
  - unfold ScheduleSecondaryVsyncCallback in He. apply bind_Ok in He as (w & Hw & He).
    apply Ok_inj in He as <-. pose proof (ScheduleSecondary_inv _ _ _ _ (inv_waiter _ _ Hi) Hw).
    destruct Hi as [? ? Ht ?]. split; try done. revert Ht Hw. unfold tokens, ScheduleSecondaryCallback; cbn.
    intros Ht (_ & _ & <-%Ok_inj)%bind_Ok. by destruct callback, (waiter_ s) as [[] [] ?].
Qed.

Lemma animator_execs_inv k cs s s' : frame_inv k s → animator_execs cs s ⇓ s' → frame_inv k s'.
Proof.
  revert s. induction cs as [|c cs IH]; cbn; intros s Hi; [by intros <-%Ok_inj|].
  intros (s1 & He & Hs)%bind_Ok. eapply IH; [|done]. by eapply animator_exec_inv.
Qed.

Lemma acquire_pipeline a a' :
  acquire_continuation a ⇓ a' → ∃ k p, a' = set_pipeline k p a.
Proof.
  unfold acquire_continuation. case_match.
  - intros <-%Ok_inj. exists (producer_continuation_ a), (layer_tree_pipeline_ a). by destruct a.
  - case_match. cbn [move_assign]. intros (p' & _ & <-%Ok_inj)%bind_Ok. eauto.
Qed.

Lemma BeginFrame_inv clock t1 t2 s s' :
  frame_inv 0 s → BeginFrame clock t1 t2 s ⇓ s' → frame_inv 1 s'.
Proof.
  unfold BeginFrame. intros Hi (fr & _ & Hr)%bind_Ok. apply bind_Ok in Hr as (idle & _ & Hr).
  apply bind_Ok in Hr as (a & Ha & Hr).
  assert (Hi1 : frame_inv 1 (upd_animator (λ _, a) s)).
  { destruct (acquire_pipeline _ _ Ha) as (k & p & ->).
    apply (frame_inv_upd 1 (set_pipeline k p) (upd_animator (λ _, reset_frame fr idle (animator s)) s)); [done|].
    apply (frame_inv_signal 0 (upd_animator (λ a, set_regenerate false (set_scheduled false
      (set_trace_flow_ids [] (set_counters fr idle a)))) s)); [done|]. by apply frame_inv_upd. }
  case_match; [by apply Ok_inj in Hr as <-; apply RequestFrame_inv|].
  apply bind_Ok in Hr as (_ & _ & Hr). apply bind_Ok in Hr as (dl & _ & Hr).
  apply bind_Ok in Hr as (s1 & Hs1 & Hr).
  apply (animator_execs_inv 1) in Hs1; [|by apply frame_inv_call, frame_inv_upd].
  case_match; [|by apply Ok_inj in Hr as <-]. apply bind_Ok in Hr as (d & _ & Hr).
  apply bind_Ok in Hr as (tt' & _ & <-%Ok_inj). by apply frame_inv_post.
Qed.

Lemma AwaitVSync_inv s : frame_inv 0 s → frame_inv 1 (AnimatorAwaitVSync s).
Proof.
  intros [Hv Hp Ht Hw]. pose proof (AsyncWaitForVsync_inv (Some tt) _ Hw).
  split; try done. unfold tokens in *. cbn. unfold AsyncWaitForVsync.
  rewrite <- Ht. destruct (waiter_ s) as [[] [] n]; cbn in *; lia.
Qed.

Lemma run_ui_task_inv clock t s s' :
  frame_inv (1 - Z.of_nat (carries t)) s → run_ui_task clock t s ⇓ s' → frame_inv 1 s'.
Proof.
  destruct t; cbn [carries run_ui_task]; intros Hi He.
  - apply Ok_inj in He as <-. by apply AwaitVSync_inv.
  - case_match; [|by apply Ok_inj in He as <-]. apply bind_Ok in He as (d & _ & <-%Ok_inj).
    by apply frame_inv_call.
  - case_match; [|by eapply BeginFrame_inv]. apply Ok_inj in He as <-.
    apply frame_inv_call. change 1 with (0 + 1). by apply frame_inv_signal.
  - by apply Ok_inj in He as <-.
Qed.

Lemma tokens_vsync t1 t2 s : tokens (shell_vsync t1 t2 s) = tokens s.
Proof.
  unfold tokens, shell_vsync, vsync, FireCallback. cbn.
  destruct (callback_ (waiter_ s)), (secondary_callback_ (waiter_ s)); cbn;
    rewrite sum_list_with_app; cbn; lia.
Qed.

Lemma shell_vsync_fields t1 t2 s :
  animator (shell_vsync t1 t2 s) = animator s ∧
  waiter_ (shell_vsync t1 t2 s) = (vsync t1 t2 (waiter_ s)).2.
Proof. unfold shell_vsync. by destruct (vsync t1 t2 (waiter_ s)). Qed.

Lemma frame_step_inv s s' : frame_inv 1 s → frame_step s s' → frame_inv 1 s'.
Proof.
  intros Hi Hs. destruct Hs as [c s s' He|clock ts1 t ts2 a w log s' He|t1 t2 s Hpos].
  - by eapply animator_exec_inv.
  - eapply run_ui_task_inv; [|done]. destruct Hi as [? ? Ht ?]. split; try done.
    revert Ht. unfold tokens. cbn. rewrite !sum_list_with_app. cbn. lia.
  - destruct Hi as [Hv Hp Ht Hw]. pose proof (vsync_inv t1 t2 _ Hw Hpos) as Hw'.
    destruct (shell_vsync_fields t1 t2 s) as [Ha Hww]. split.
    + by rewrite Ha.
    + by rewrite Ha.
    + by rewrite tokens_vsync.
    + by rewrite Hww.
Qed.

Lemma new_shell_inv b : frame_inv 1 (new_shell b).
Proof. by split. Qed.

Lemma frame_reachable_inv b s : rtc frame_step (new_shell b) s → frame_inv 1 s.
Proof.
  intros Hr. pose proof (new_shell_inv b) as Hi. revert Hi.
  induction Hr as [|s1 s2 s3 Hs _ IH]; [done|]. intros Hi. by eapply IH, frame_step_inv.
Qed.

(** ** Claims *)

(** However the framework, the UI tasks and the vsync signals interleave,
    exactly one place holds the frame-request token: at most one frame
    request is pending, posted, registered with the waiter or delivered, and
    the next [RequestFrame] succeeds exactly when none is. *)
Theorem one_frame_in_flight b s :
  rtc frame_step (new_shell b) s →
  sem_ (pending_frame_semaphore_ (animator s)) + Z.of_nat (sum_list_with carries (ui_tasks s)) +
    (if bool_decide (is_Some (callback_ (waiter_ s))) then 1 else 0) = 1 ∧
  0 ≤ sem_ (pending_frame_semaphore_ (animator s)) ∧
  0 ≤ awaited (waiter_ s) ≤ 1 ∧ (is_Some (callback_ (waiter_ s)) → awaited (waiter_ s) = 1).
Proof.
  intros [Hv Hp Ht Hw]%frame_reachable_inv. unfold tokens in Ht. unfold waiter_inv, waiting in Hw.
  split_and!; [|done| | |].
  - by destruct (callback_ (waiter_ s)).
  - rewrite Hw. by case_match.
  - rewrite Hw. by case_match.
  - intros [c Hc]. by rewrite Hw, Hc.
Qed.

(** Taking the front task off the UI queue. *)
Definition take_task (s : Shell) : Shell :=
  mkShell (animator s) (waiter_ s) (tail (ui_tasks s)) (delegate_log s).

Definition has_slot (a : Animator) : Prop :=
  is_Some (continuation_ (producer_continuation_ a)) ∨
  (valid_ (empty_ (layer_tree_pipeline_ a)) = true ∧ 0 < sem_ (empty_ (layer_tree_pipeline_ a))).

Lemma acquire_slot a :
  has_slot a →
  ∃ k p, acquire_continuation a ⇓ set_pipeline k p a ∧ is_Some (continuation_ k).
Proof.
  intros Hs. unfold acquire_continuation. destruct (continuation_ (producer_continuation_ a)) eqn:Hk.
  { exists (producer_continuation_ a), (layer_tree_pipeline_ a). split; [by destruct a|by eexists]. }
  destruct Hs as [[? ?]|[Hv Hpos]]; [congruence|]. unfold Produce, produce_reserve, TryWait.
  rewrite Hv, (proj2 (Z.ltb_lt _ _) Hpos). cbn. unfold destroy_continuation. rewrite Hk. cbn. by eexists _, _.
Qed.

Lemma acquire_full a :
  ¬ has_slot a → ∃ k p, acquire_continuation a ⇓ set_pipeline k p a ∧ continuation_ k = None.
Proof.
  intros Hs. unfold acquire_continuation. destruct (continuation_ (producer_continuation_ a)) eqn:Hk.
  { destruct Hs. left. rewrite Hk. by eexists. }
  unfold Produce, produce_reserve, TryWait.
  destruct (valid_ (empty_ (layer_tree_pipeline_ a))) eqn:Hv; [destruct (Z.ltb_spec 0 (sem_ (empty_ (layer_tree_pipeline_ a)))) as [Hpos|_]|].
  { destruct Hs. right. done. }
  all: cbn; unfold destroy_continuation; rewrite Hk; cbn; by eexists _, _.
Qed.

(** The state in which the framework is told to begin the frame. *)
Lemma BeginFrame_served s clock t1 t2 d fr idle delay target :
  has_slot (animator s) →
  checked_s 64 (frame_number_ (animator s) + 1) ⇓ fr →
  checked_s 32 (notify_idle_task_id_ (animator s) + 1) ⇓ idle →
  FxlToDartOrEarlier clock t2 ⇓ d →
  kNotifyIdleTaskWaitTime ⇓ delay → TimePoint.plus (fxl_now clock) delay ⇓ target →
  ∃ s4, delegate_log s4 = delegate_log s ++ [OnAnimatorBeginFrame t2] ∧
    last_begin_frame_time_ (animator s4) = t1 ∧
    is_Some (continuation_ (producer_continuation_ (animator s4))) ∧
    BeginFrame clock t1 t2 s =
      (s5 ← animator_execs (framework t2 s4) s4;
       mret (if frame_scheduled_ (animator s5) then s5
             else post_ui (NotifyIdleTask (notify_idle_task_id_ (animator s5)) target) s5)).
Proof.
  intros Hs Hfr Hidle Hd Hdelay Htarget. destruct (acquire_slot (reset_frame fr idle (animator s)) Hs) as (k & p & Hacq & Hk).
  exists (call_delegate (OnAnimatorBeginFrame t2) (upd_animator (set_times t1 d)
    (upd_animator (λ _, set_pipeline k p (reset_frame fr idle (animator s))) s))).
  split; [done|]. split; [done|]. split; [done|]. unfold BeginFrame.
  rewrite Hfr. cbn [mbind result_bind]. rewrite Hidle. cbn [mbind result_bind]. rewrite Hacq.
  cbn [mbind result_bind producer_continuation_ set_pipeline]. rewrite bool_decide_eq_true_2 by done.
  cbn [negb]. rewrite fml_dcheck_true. cbn [mbind result_bind]. rewrite Hd. cbn [mbind result_bind].
  destruct (animator_execs _ _) as [s5|]; [|done]. cbn [mbind result_bind]. destruct (frame_scheduled_ (animator s5)); [done|].
  cbn [negb]. rewrite Hdelay. cbn [mbind result_bind]. by rewrite Htarget.
Qed.

(** Without a slot the frame is asked for again. *)
Lemma BeginFrame_full s clock t1 t2 fr idle :
  ¬ has_slot (animator s) → paused_ (animator s) = false → pending_frame_semaphore_ (animator s) = mkSem true 0 →
  checked_s 64 (frame_number_ (animator s) + 1) ⇓ fr →
  checked_s 32 (notify_idle_task_id_ (animator s) + 1) ⇓ idle →
  ∃ s', BeginFrame clock t1 t2 s ⇓ s' ∧ ui_tasks s' = ui_tasks s ++ [AwaitVSyncTask] ∧ delegate_log s' = delegate_log s ∧
    frame_scheduled_ (animator s') = true ∧ regenerate_layer_tree_ (animator s') = true.
Proof.
  intros Hs Hpause Hsem Hfr Hidle. destruct (acquire_full (reset_frame fr idle (animator s)) Hs) as (k & p & Hacq & Hk).
  unfold BeginFrame. rewrite Hfr. cbn [mbind result_bind]. rewrite Hidle. cbn [mbind result_bind]. rewrite Hacq.
  cbn [mbind result_bind producer_continuation_ set_pipeline]. rewrite bool_decide_eq_false_2 by (rewrite Hk; by intros []).
  cbn [negb]. eexists. split; [reflexivity|]. unfold RequestFrame. cbn. rewrite Hpause, Hsem. by cbn.
Qed.

(** C29: A frame request is served at the next vsync.  On an animator that runs
    and has no request, task or callback outstanding, with counters and times
    that do not overflow, the posted task asks for one vsync, the vsync posts
    the frame's callback, and running it does the following, whatever the
    framework does.  If the pipeline has a slot (or the continuation of a frame
    that was not rendered is left), the delegate is told to begin the frame,
    with the vsync's target time and a continuation to render into, the calls
    of the framework follow, and the idle task is posted unless they requested
    another frame.  If the pipeline is full, the frame is requested again for
    the vsync after. *)
Theorem request_frame_served s clock t1 t2 d fr idle delay target :
  frame_inv 1 s → sem_ (pending_frame_semaphore_ (animator s)) = 1 →
  secondary_callback_ (waiter_ s) = None → ui_tasks s = [] →
  paused_ (animator s) = false →
  checked_s 64 (frame_number_ (animator s) + 1) ⇓ fr →
  checked_s 32 (notify_idle_task_id_ (animator s) + 1) ⇓ idle →
  FxlToDartOrEarlier clock t2 ⇓ d →
  kNotifyIdleTaskWaitTime ⇓ delay → TimePoint.plus (fxl_now clock) delay ⇓ target →
  ∃ s2,
    ui_tasks (RequestFrame true s) = [AwaitVSyncTask] ∧
    run_ui_task clock AwaitVSyncTask (take_task (RequestFrame true s)) ⇓ s2 ∧
    awaited (waiter_ s2) = 1 ∧
    delegate_log s2 = delegate_log s ++ [OnAnimatorNotifyIdle (dart_frame_deadline_ (animator s))] ∧
    ui_tasks (shell_vsync t1 t2 s2) = [VsyncCallbackTask t1 t2] ∧
    let ran := run_ui_task clock (VsyncCallbackTask t1 t2) (take_task (shell_vsync t1 t2 s2)) in
    (has_slot (animator s) → ∃ s4,
       delegate_log s4 = delegate_log s2 ++ [OnAnimatorBeginFrame t2] ∧
       last_begin_frame_time_ (animator s4) = t1 ∧
       is_Some (continuation_ (producer_continuation_ (animator s4))) ∧
       ran = (s5 ← animator_execs (framework t2 s4) s4;
              mret (if frame_scheduled_ (animator s5) then s5
                    else post_ui (NotifyIdleTask (notify_idle_task_id_ (animator s5)) target) s5))) ∧
    (¬ has_slot (animator s) → ∃ s', ran ⇓ s' ∧ ui_tasks s' = [AwaitVSyncTask] ∧ delegate_log s' = delegate_log s2 ∧
       frame_scheduled_ (animator s') = true ∧ regenerate_layer_tree_ (animator s') = true).
Proof.
  intros [Hv Hp Ht Hw] Hsem Hsec Hui Hpause Hfr Hidle Hd Hdelay Htarget.
  destruct s as [a w ui log]; cbn in *. subst ui.
  assert (Hcb : callback_ w = None) by (unfold tokens in Ht; cbn in Ht; destruct (callback_ w); [lia|done]).
  assert (Haw : awaited w = 0) by (unfold waiter_inv, waiting in Hw; by rewrite Hcb, Hsec in Hw).
  assert (Hreq : RequestFrame true (mkShell a w [] log) =
    mkShell (set_scheduled true (set_pending (mkSem true 0) (set_regenerate true a))) w [AwaitVSyncTask] log).
  { unfold RequestFrame. cbn. rewrite Hpause. cbn.
    destruct (pending_frame_semaphore_ a) as [v n]; cbn in *. by subst. }
  set (a1 := set_scheduled true (set_pending (mkSem true 0) (set_regenerate true a))) in *.
  destruct w as [cb sec n]; cbn in Hcb, Hsec, Haw; subst cb sec n.
  set (s3 := mkShell a1 (mkWaiter None None 0) [VsyncCallbackTask t1 t2]
    (log ++ [OnAnimatorNotifyIdle (dart_frame_deadline_ a)])).
  rewrite Hreq. exists (AnimatorAwaitVSync (mkShell a1 (mkWaiter None None 0) [] log)).
  change (shell_vsync t1 t2 (AnimatorAwaitVSync (mkShell a1 (mkWaiter None None 0) [] log))) with s3.
  do 5 (split; [done|]). split; intros Hslot.
  - destruct (BeginFrame_served (take_task s3) clock t1 t2 d fr idle delay target) as (s4 & Hlog & Hlast & Hk & Hrun); [done..|].
    exists s4. by split_and!.
  - destruct (BeginFrame_full (take_task s3) clock t1 t2 fr idle) as (s' & Hrun & Htasks & Hrest); [done..|]. by exists s'.
Qed.

(** [Render] reads [layer_tree->frame_size()] before it tests the pointer
    for null, so a null layer tree is dereferenced whatever the state. *)
Theorem render_null_faults now s : Render now None s ⇑ NullDeref.
Proof. unfold Render. by destruct (dimension_change_pending_ (animator s)). Qed.
End animator.

(** ** Concrete runs *)

#[local] Instance animator_debug_build : Build := {| debug := true |}.

Definition quiet_framework (_ : TimePoint.t) (_ : Shell) : list AnimatorCall := [].
(** A framework that renders and asks for the next frame. *)
Definition busy_framework (_ : TimePoint.t) (_ : Shell) : list AnimatorCall :=
  [RequestFrameC true; RenderC 5 (mkLayerTree (800, 600) 0 0)].

Definition run_front framework (s : Shell) : result Shell :=
  match ui_tasks s with
  | t :: _ => run_ui_task framework (mkClock 50 7) t (take_task s)
  | [] => mret s
  end.

(** From a frame request to the end of its frame, with an idle UI queue. *)
Definition whole_frame framework (b : bool) (s : Shell) : result Shell :=
  s ← run_front framework (RequestFrame b s);
  run_front framework (shell_vsync 100 116000 s).

(** [DrawLastLayerTree] ends a frame request without clearing
    [frame_scheduled_]: after a frame and a repaint of the same layer tree no
    request is in flight, yet the idle task of that frame finds a frame
    scheduled and the engine is not told that it is idle. *)
Theorem idle_notification_lost :
  ∃ s1 s2 id time,
    whole_frame quiet_framework true (new_shell false) ⇓ s1 ∧
    ui_tasks s1 = [NotifyIdleTask id time] ∧
    id = notify_idle_task_id_ (animator s1) ∧
    (s ← run_ui_task quiet_framework (mkClock 50 7) AwaitVSyncTask
           (mkShell (animator (RequestFrame false s1)) (waiter_ s1) (ui_tasks s1) (delegate_log s1));
     run_ui_task quiet_framework (mkClock 50 7) (VsyncCallbackTask 200 216000)
       (mkShell (animator s) (vsync 200 216000 (waiter_ s)).2 (ui_tasks s) (delegate_log s))) ⇓ s2 ∧
    id = notify_idle_task_id_ (animator s2) ∧
    sem_ (pending_frame_semaphore_ (animator s2)) = 1 ∧ waiting (waiter_ s2) = false ∧
    ui_tasks s2 = ui_tasks s1 ∧
    run_front quiet_framework s2 ⇓ take_task s2.
Proof. eexists _, _, _, _. repeat (split; [vm_compute; reflexivity|]). vm_compute. reflexivity. Qed.

Lemma one_frame_in_flight_witness :
  ∃ s, rtc (frame_step busy_framework) (new_shell false) s ∧
    ui_tasks s = [VsyncCallbackTask 100 116000] ∧
    sem_ (pending_frame_semaphore_ (animator s)) + Z.of_nat (sum_list_with carries (ui_tasks s)) +
      (if bool_decide (is_Some (callback_ (waiter_ s))) then 1 else 0) = 1 ∧
    0 ≤ sem_ (pending_frame_semaphore_ (animator s)) ∧
    0 ≤ awaited (waiter_ s) ≤ 1 ∧ (is_Some (callback_ (waiter_ s)) → awaited (waiter_ s) = 1).
Proof.
  assert (Hr : rtc (frame_step busy_framework) (new_shell false)
    (shell_vsync 100 116000 (AnimatorAwaitVSync (take_task (RequestFrame true (new_shell false)))))).
  { eapply rtc_l; [by apply (step_call _ (RequestFrameC true))|].
    eapply rtc_l; [by apply (step_task _ (mkClock 50 7) [] AwaitVSyncTask [])|].
    eapply rtc_l; [by apply step_vsync|]. apply rtc_refl. }
  eexists. split; [exact Hr|]. split; [by vm_compute|].
  by apply (one_frame_in_flight busy_framework false).
Defined.

Lemma request_frame_served_witness :
  ∃ s2 s6,
    ui_tasks (RequestFrame true (new_shell false)) = [AwaitVSyncTask] ∧
    run_ui_task busy_framework (mkClock 50 7) AwaitVSyncTask
      (take_task (RequestFrame true (new_shell false))) ⇓ s2 ∧
    run_ui_task busy_framework (mkClock 50 7) (VsyncCallbackTask 100 116000)
        (take_task (shell_vsync 100 116000 s2)) ⇓ s6 ∧
    delegate_log s6 = [OnAnimatorNotifyIdle 0; OnAnimatorBeginFrame 116000; OnAnimatorDraw].
Proof.
  destruct (request_frame_served busy_framework (new_shell false) (mkClock 50 7) 100 116000 122 2 1 51000000 51000050)
    as (s2 & Hui & Hrun & _ & _ & _ & Hslot & _);
    [apply new_shell_inv|done|done|done|done|by vm_compute..|].
  destruct Hslot as (s4 & Hlog & _ & _ & Heq); [right; by split|].
  exists s2. eexists. split; [exact Hui|]. split; [exact Hrun|].
  injection Hrun as <-. split; [vm_compute; reflexivity|reflexivity].
Defined.
