(* ===== verification/Bytes.v ===== *)
(** * Bytes: little-endian words in byte buffers

    Byte vectors ([std::vector<uint8_t>]) are lists of [Z] in [0, 256); a
    fixed-width integer is stored least significant byte first, as [memcpy]
    does on the little-endian targets of the engine. *)

From Stdlib Require Import ZArith Lia Ascii String.
From stdpp Require Import base sorting gmap numbers list.
From S2P Require Import Prelude.

Local Open Scope Z_scope.

Definition is_byte (b : Z) : bool := (0 <=? b) && (b <? 256).
Definition bytes_ok (l : list Z) : Prop := Forall (λ b, 0 ≤ b < 256) l.

Fixpoint le_bytes (n : nat) (z : Z) : list Z :=
  match n with
  | O => []
  | S n => z `mod` 256 :: le_bytes n (z / 256)
  end.

Fixpoint le_value (l : list Z) : Z :=
  match l with
  | [] => 0
  | b :: l => b + 256 * le_value l
  end.

Lemma length_le_bytes n z : length (le_bytes n z) = n.
Proof. revert z. induction n; cbn; auto. Qed.

Lemma le_bytes_ok n z : bytes_ok (le_bytes n z).
Proof.
  revert z. induction n as [|n IH]; intros z; [constructor|].
  constructor; [apply Z.mod_pos_bound; lia|apply IH].
Qed.

Lemma pow256_S n : 2 ^ (8 * Z.of_nat (S n)) = 256 * 2 ^ (8 * Z.of_nat n).
Proof. replace (8 * Z.of_nat (S n)) with (8 + 8 * Z.of_nat n) by lia. by rewrite Z.pow_add_r by lia. Qed.

Lemma le_value_bytes n z : le_value (le_bytes n z) = z `mod` 2 ^ (8 * Z.of_nat n).
Proof.
  revert z. induction n as [|n IH]; intros z; [by rewrite Z.mod_1_r|].
  cbn [le_bytes le_value]. rewrite IH, pow256_S, Z.rem_mul_r by lia. lia.
Qed.

Lemma le_value_range l : bytes_ok l → 0 ≤ le_value l < 2 ^ (8 * Z.of_nat (length l)).
Proof.
  induction 1 as [|b l Hb _ IH]; [cbn; lia|]. cbn [length le_value]. rewrite pow256_S. lia.
Qed.

Lemma le_bytes_value l : bytes_ok l → le_bytes (length l) (le_value l) = l.
Proof.
  induction 1 as [|b l Hb Hl IH]; [done|]. cbn [length le_value le_bytes].
  rewrite (Z.mul_comm 256), Z.mod_add, Z.div_add, Z.mod_small, Z.div_small by lia.
  rewrite Z.add_0_l. by f_equal.
Qed.

Lemma le_bytes_mod n z : le_bytes n (z `mod` 2 ^ (8 * Z.of_nat n)) = le_bytes n z.
Proof.
  rewrite <- le_value_bytes. rewrite <- (length_le_bytes n z) at 1. apply le_bytes_value, le_bytes_ok.
Qed.

(** Signed values survive the trip through their two's complement bytes. *)
Lemma le_bytes_signed n z :
  (0 < n)%nat → - 2 ^ (8 * Z.of_nat n - 1) ≤ z < 2 ^ (8 * Z.of_nat n - 1) →
  wrapS (8 * Z.of_nat n) (le_value (le_bytes n z)) = z.
Proof.
  intros Hn Hz. rewrite le_value_bytes. unfold wrapS.
  assert (Hp : 2 ^ (8 * Z.of_nat n) = 2 * 2 ^ (8 * Z.of_nat n - 1))
    by (rewrite <- Z.pow_succ_r by lia; f_equal; lia).
  rewrite Zplus_mod_idemp_l, Z.mod_small; lia.
Qed.

Lemma le_bytes_unsigned n z :
  0 ≤ z < 2 ^ (8 * Z.of_nat n) → le_value (le_bytes n z) = z.
Proof. intros Hz. rewrite le_value_bytes. by apply Z.mod_small. Qed.

Lemma bytes_ok_app l1 l2 : bytes_ok (l1 ++ l2) ↔ bytes_ok l1 ∧ bytes_ok l2.
Proof. apply Forall_app. Qed.

Lemma bytes_ok_take n l : bytes_ok l → bytes_ok (take n l).
Proof. apply Forall_take. Qed.

#[export] Hint Resolve le_bytes_ok bytes_ok_take : engine.

(** The bytes of a literal. *)
Definition str (s : String.string) : list Z := Z.of_nat ∘ Ascii.nat_of_ascii <$> String.list_ascii_of_string s.
