(* ===== verification/Utf8.v ===== *)
(** * Utf8: conversions between UTF-8 bytes and code points

    The part of [std::wstring_convert<std::codecvt_utf8<char32_t>>] the engine
    uses: strict UTF-8 of the Unicode scalar values. *)

From Stdlib Require Import ZArith Lia.
From stdpp Require Import base sorting gmap numbers list.
From S2P Require Import Prelude.

Local Open Scope Z_scope.

(** Unicode scalar values: code points that are not surrogates. *)
Definition scalar (c : Z) : bool :=
  (0 <=? c) && (c <? 0x110000) && negb ((0xd800 <=? c) && (c <? 0xe000)).

Definition utf8_encode_char (c : Z) : list Z :=
  if c <? 0x80 then [c]
  else if c <? 0x800 then [0xc0 + c / 64; 0x80 + c `mod` 64]
  else if c <? 0x10000 then [0xe0 + c / 4096; 0x80 + (c / 64) `mod` 64; 0x80 + c `mod` 64]
  else [0xf0 + c / 262144; 0x80 + (c / 4096) `mod` 64; 0x80 + (c / 64) `mod` 64; 0x80 + c `mod` 64].

(** [to_bytes]: fails on a code point that is not a scalar value. *)
Definition to_bytes (text : list Z) : option (list Z) :=
  if forallb scalar text then Some (concat (utf8_encode_char <$> text)) else None.

Definition continuation (b : Z) : bool := (0x80 <=? b) && (b <? 0xc0).

(** One character from the front of the bytes: overlong forms, surrogates and
    values above [0x10ffff] are refused. *)
Definition utf8_decode_char (bytes : list Z) : option (Z * list Z) :=
  match bytes with
  | b0 :: rest =>
      if (0 <=? b0) && (b0 <? 0x80) then Some (b0, rest)
      else if (0xc2 <=? b0) && (b0 <? 0xe0) then
        match rest with
        | b1 :: rest =>
            if continuation b1 then Some ((b0 - 0xc0) * 64 + (b1 - 0x80), rest) else None
        | _ => None
        end
      else if (0xe0 <=? b0) && (b0 <? 0xf0) then
        match rest with
        | b1 :: b2 :: rest =>
            let c := (b0 - 0xe0) * 4096 + (b1 - 0x80) * 64 + (b2 - 0x80) in
            if continuation b1 && continuation b2 && (0x800 <=? c) && scalar c
            then Some (c, rest) else None
        | _ => None
        end
      else if (0xf0 <=? b0) && (b0 <? 0xf5) then
        match rest with
        | b1 :: b2 :: b3 :: rest =>
            let c := (b0 - 0xf0) * 262144 + (b1 - 0x80) * 4096 + (b2 - 0x80) * 64 + (b3 - 0x80) in
            if continuation b1 && continuation b2 && continuation b3 && (0x10000 <=? c) && scalar c
            then Some (c, rest) else None
        | _ => None
        end
      else None
  | [] => None
  end.

Fixpoint from_bytes_fuel (fuel : nat) (bytes : list Z) : option (list Z) :=
  match bytes with
  | [] => Some []
  | _ =>
      match fuel with
      | O => None
      | S fuel =>
          '(c, rest) ← utf8_decode_char bytes; cs ← from_bytes_fuel fuel rest; Some (c :: cs)
      end
  end.

(** [from_bytes]: every character takes at least one byte. *)
Definition from_bytes (bytes : list Z) : option (list Z) := from_bytes_fuel (length bytes) bytes.

Lemma scalar_spec c :
  scalar c = true ↔ 0 ≤ c < 0x110000 ∧ ¬ (0xd800 ≤ c < 0xe000).
Proof. unfold scalar. lia. Qed.

Lemma encode_char_pos c : (0 < length (utf8_encode_char c))%nat.
Proof. unfold utf8_encode_char. repeat case_match; cbn; lia. Qed.

Lemma split64 c : c = 64 * (c / 64) + c `mod` 64 ∧ 0 ≤ c `mod` 64 < 64.
Proof. split; [apply Z.div_mod; lia|apply Z.mod_pos_bound; lia]. Qed.

(** Evaluates the comparisons of the goal that [lia] decides. *)
Ltac decide_cmp :=
  repeat match goal with
  | |- context [?a <=? ?b] =>
      first [rewrite (proj2 (Z.leb_le a b)) by lia | rewrite (proj2 (Z.leb_gt a b)) by lia]
  | |- context [?a <? ?b] =>
      first [rewrite (proj2 (Z.ltb_lt a b)) by lia | rewrite (proj2 (Z.ltb_ge a b)) by lia]
  end; cbn [andb].

Lemma decode_encode_char c rest :
  scalar c = true → utf8_decode_char (utf8_encode_char c ++ rest) = Some (c, rest).
Proof.
  intros Hs. pose proof Hs as [Hc Hsur]%scalar_spec. unfold utf8_encode_char.
  pose proof (split64 c) as [H0 R0].
  pose proof (split64 (c / 64)) as [H1 R1]. rewrite Z.div_div in H1 by lia. change (64 * 64) with 4096 in H1.
  pose proof (split64 (c / 4096)) as [H2 R2]. rewrite Z.div_div in H2 by lia. change (4096 * 64) with 262144 in H2.
  destruct (Z.ltb_spec c 0x80); [|destruct (Z.ltb_spec c 0x800); [|destruct (Z.ltb_spec c 0x10000)]];
    cbn [app utf8_decode_char].
  - decide_cmp. done.
  - unfold continuation. decide_cmp. do 2 f_equal. lia.
  - unfold continuation. set (c' := _ + _ + _). assert (c' = c) as -> by lia. rewrite Hs. by decide_cmp.
  - unfold continuation. set (c' := _ + _ + _ + _). assert (c' = c) as -> by lia. rewrite Hs. by decide_cmp.
Qed.

Lemma from_bytes_fuel_encode text fuel :
  Forall (λ c, scalar c = true) text → (length (concat (utf8_encode_char <$> text)) ≤ fuel)%nat →
  from_bytes_fuel fuel (concat (utf8_encode_char <$> text)) = Some text.
Proof.
  intros Ht. revert fuel. induction Ht as [|c text Hc _ IH]; intros fuel Hf; [by destruct fuel|].
  cbn [fmap list_fmap concat] in *. rewrite length_app in Hf. pose proof (encode_char_pos c) as Hp.
  destruct (utf8_encode_char c ++ concat (utf8_encode_char <$> text)) as [|b l] eqn:Hbl.
  { apply (f_equal length) in Hbl. rewrite length_app in Hbl. cbn in Hbl. lia. }
  destruct fuel as [|fuel]; [lia|]. cbn [from_bytes_fuel]. rewrite <- Hbl, decode_encode_char by done.
  cbn. rewrite IH by lia. done.
Qed.

(** Text survives the trip through its bytes. *)
Lemma from_to_bytes text bytes : to_bytes text = Some bytes → from_bytes bytes = Some text.
Proof.
  unfold to_bytes, from_bytes. destruct (forallb scalar text) eqn:Hs; [|done]. intros [= <-].
  apply from_bytes_fuel_encode; [|done]. rewrite forallb_forall in Hs. apply Forall_forall.
  intros c Hc. apply Hs. by apply list_elem_of_In.
Qed.

Lemma to_bytes_length text bytes : to_bytes text = Some bytes → (length text ≤ length bytes)%nat.
Proof.
  unfold to_bytes. case_match; [|done]. intros [= <-]. clear. induction text as [|c text IH]; [done|].
  cbn [fmap list_fmap concat length]. rewrite length_app. pose proof (encode_char_pos c). lia.
Qed.

(** ASCII bytes are their own code points. *)
Lemma from_bytes_ascii bytes :
  Forall (λ b, 0 ≤ b < 0x80) bytes → from_bytes bytes = Some bytes.
Proof.
  unfold from_bytes. intros Hb. induction Hb as [|b bytes Hb _ IH]; [done|].
  cbn [length from_bytes_fuel utf8_decode_char]. rewrite (proj2 (andb_true_iff _ _)) by lia. cbn. by rewrite IH.
Qed.

Lemma decode_char_shrinks bytes c rest :
  utf8_decode_char bytes = Some (c, rest) → (length rest < length bytes)%nat.
Proof.
  unfold utf8_decode_char. destruct bytes as [|b0 r]; [done|].
  repeat case_match; intros [= <- <-]; cbn; lia.
Qed.

Lemma from_bytes_fuel_length fuel bytes text :
  from_bytes_fuel fuel bytes = Some text → (length text ≤ length bytes)%nat.
Proof.
  revert bytes text. induction fuel as [|fuel IH]; intros [|b bytes] text; cbn [from_bytes_fuel];
    try (by intros [= <-]).
  destruct (utf8_decode_char (b :: bytes)) as [[c rest]|] eqn:Hd; [|done]. cbn.
  destruct (from_bytes_fuel fuel rest) as [cs|] eqn:Hr; [|done]. cbn. intros [= <-].
  apply IH in Hr. apply decode_char_shrinks in Hd. cbn in *. lia.
Qed.
