(* ===== verification/TextInputModel.v ===== *)
(** * TextInputModel: the editing state behind the desktop text input

    Model of [flutter::TextInputModel]
    (shell/platform/common/cpp/text_input_model.{h,cc}).  The iterators
    [selection_base_] and [selection_extent_] are positions in [text_].  The
    abstract view of the state is the text before the selection, the
    selection and the text after it. *)

From Stdlib Require Import ZArith Lia.
From stdpp Require Import base sorting gmap numbers list.
From S2P Require Import Prelude Utf8.

Record Model := mkModel {
  text_ : list Z;
  client_id_ : Z;
  selection_base_ : nat;
  selection_extent_ : nat;
}.

Definition new_model (client_id : Z) : Model := mkModel [] client_id 0 0.

Definition with_selection base extent m := mkModel (text_ m) (client_id_ m) base extent.

(** [text_.begin() + n] beyond [text_.end()] is undefined. *)
Definition position (text : list Z) (n : nat) : result nat :=
  if (n <=? length text)%nat then mret n else Fault UndefinedBehaviour.

(** [text_.erase(first, last)], defined on a range of the text. *)
Definition erase (first last : nat) (m : Model) : result (list Z) :=
  if (first <=? last)%nat && (last <=? length (text_ m))%nat
  then mret (take first (text_ m) ++ drop last (text_ m)) else Fault UndefinedBehaviour.

(** Bounds are compared with the size in bytes, positions are in code points. *)
Definition SetEditingState (selection_base selection_extent : nat) (text : list Z) (m : Model)
    : result (bool * Model) :=
  if (selection_extent <? selection_base)%nat then mret (false, m)
  else if (length text <? selection_extent)%nat then mret (false, m)
  else
    text ← of_option RangeError (from_bytes text);
    base ← position text selection_base;
    extent ← position text selection_extent;
    mret (true, mkModel text (client_id_ m) base extent).

Definition DeleteSelected (m : Model) : result Model :=
  text ← erase (selection_base_ m) (selection_extent_ m) m;
  mret (mkModel text (client_id_ m) (selection_base_ m) (selection_base_ m)).

Definition AddCharacter (c : Z) (m : Model) : result Model :=
  m ← (if (selection_base_ m =? selection_extent_ m)%nat then mret m else DeleteSelected m);
  at_ ← position (text_ m) (selection_extent_ m);
  let extent := S at_ in
  mret (mkModel (take at_ (text_ m) ++ c :: drop at_ (text_ m)) (client_id_ m) extent extent).

Definition Backspace (m : Model) : result (bool * Model) :=
  if negb (selection_base_ m =? selection_extent_ m)%nat then m ← DeleteSelected m; mret (true, m)
  else if negb (selection_base_ m =? 0)%nat then
    let base := pred (selection_base_ m) in
    text ← erase base (selection_base_ m) m;
    mret (true, mkModel text (client_id_ m) base base)
  else mret (false, m).

Definition Delete (m : Model) : result (bool * Model) :=
  if negb (selection_base_ m =? selection_extent_ m)%nat then m ← DeleteSelected m; mret (true, m)
  else if negb (selection_base_ m =? length (text_ m))%nat then
    text ← erase (selection_base_ m) (S (selection_base_ m)) m;
    mret (true, mkModel text (client_id_ m) (selection_base_ m) (selection_base_ m))
  else mret (false, m).

Definition MoveCursorToBeginning (m : Model) : Model := with_selection 0 0 m.
Definition MoveCursorToEnd (m : Model) : Model :=
  with_selection (length (text_ m)) (length (text_ m)) m.

Definition MoveCursorForward (m : Model) : result (bool * Model) :=
  if negb (selection_base_ m =? selection_extent_ m)%nat
  then mret (true, with_selection (selection_extent_ m) (selection_extent_ m) m)
  else if negb (selection_extent_ m =? length (text_ m))%nat then
    extent ← position (text_ m) (S (selection_extent_ m));
    base ← position (text_ m) (S (selection_base_ m));
    mret (true, with_selection base extent m)
  else mret (false, m).

Definition MoveCursorBack (m : Model) : result (bool * Model) :=
  if negb (selection_base_ m =? selection_extent_ m)%nat
  then mret (true, with_selection (selection_base_ m) (selection_base_ m) m)
  else if negb (selection_base_ m =? 0)%nat
  then mret (true, with_selection (pred (selection_base_ m)) (pred (selection_extent_ m)) m)
  else mret (false, m).

(** The fields of the JSON message that are not constants. *)
Record EditingState := mkEditingState {
  es_client_id : Z;
  es_base : Z;
  es_extent : Z;
  es_text : list Z;
}.

Definition GetState (m : Model) : result EditingState :=
  text ← of_option RangeError (to_bytes (text_ m));
  mret (mkEditingState (client_id_ m) (wrapS 32 (Z.of_nat (selection_base_ m)))
          (wrapS 32 (Z.of_nat (selection_extent_ m))) text).

(** ** Invariant and abstract view *)

Definition model_ok (m : Model) : Prop :=
  selection_base_ m ≤ selection_extent_ m ≤ length (text_ m).

(** Text before the selection, the selection, text after it. *)
Record Zipper := mkZipper { before : list Z; selected : list Z; after : list Z }.

Definition view (m : Model) : Zipper :=
  mkZipper (take (selection_base_ m) (text_ m))
    (drop (selection_base_ m) (take (selection_extent_ m) (text_ m)))
    (drop (selection_extent_ m) (text_ m)).

(** [m] shows [z]: a characterization that is easier to establish. *)
Lemma view_iff m z :
  model_ok m ∧ view m = z ↔
  text_ m = before z ++ selected z ++ after z ∧ selection_base_ m = length (before z) ∧
  selection_extent_ m = length (before z) + length (selected z).
Proof.
  destruct z as [b s a], m as [text id base extent]; unfold model_ok, view; cbn. split.
  - intros [Hok [= <- <- <-]]. rewrite length_drop, !length_take. split; [|lia].
    assert (take base text = take base (take extent text)) as ->
      by (rewrite take_take; f_equal; lia).
    by rewrite app_assoc, take_drop, take_drop.
  - intros (-> & -> & ->). rewrite !length_app. split; [lia|].
    rewrite take_app_length. f_equal.
    + rewrite take_app_ge, drop_app_length by lia.
      replace (length b + length s - length b) with (length s) by lia. apply take_app_length.
    + rewrite drop_app_ge by lia. replace (length b + length s - length b) with (length s) by lia.
      apply drop_app_length.
Qed.

Definition shows (m : Model) (z : Zipper) : Prop := model_ok m ∧ view m = z.

Lemma shows_intro id b s a :
  shows (mkModel (b ++ s ++ a) id (length b) (length b + length s)) (mkZipper b s a).
Proof. by apply view_iff. Qed.

Lemma shows_elim m z :
  shows m z → m = mkModel (before z ++ selected z ++ after z) (client_id_ m) (length (before z))
                    (length (before z) + length (selected z)).
Proof. intros (Ht & Hb & He)%view_iff. destruct m; cbn in *. by subst. Qed.

(** A cursor between two texts. *)
Lemma shows_cursor id b a : shows (mkModel (b ++ a) id (length b) (length b)) (mkZipper b [] a).
Proof. pose proof (shows_intro id b [] a) as Hs. cbn in Hs. by rewrite Nat.add_0_r in Hs. Qed.

(** ** Abstract operations *)

Inductive edit := Add (c : Z) | Bksp | Del | Home | End_ | Right_ | Left_.

#[export] Instance Zipper_eq_dec : EqDecision Zipper.
Proof. solve_decision. Defined.

Definition zip_edit (e : edit) (z : Zipper) : Zipper :=
  let '(mkZipper b s a) := z in
  match e, s with
  | Add c, _ => mkZipper (b ++ [c]) [] a
  | Home, _ => mkZipper [] [] (b ++ s ++ a)
  | End_, _ => mkZipper (b ++ s ++ a) [] []
  | (Bksp | Del), _ :: _ => mkZipper b [] a
  | Right_, _ :: _ => mkZipper (b ++ s) [] a
  | Left_, _ :: _ => mkZipper b [] (s ++ a)
  | Bksp, [] => match last b with Some _ => mkZipper (removelast b) [] a | None => z end
  | Del, [] => match a with _ :: a => mkZipper b [] a | [] => z end
  | Right_, [] => match a with c :: a => mkZipper (b ++ [c]) [] a | [] => z end
  | Left_, [] => match last b with Some c => mkZipper (removelast b) [] (c :: a) | None => z end
  end.

(** What a call returns: whether the text or the selection changed, for the
    functions that return something. *)
Definition answer (e : edit) (z : Zipper) : option bool :=
  match e with
  | Add _ | Home | End_ => None
  | Bksp | Del | Right_ | Left_ => Some (bool_decide (zip_edit e z ≠ z))
  end.

(** A call, with what it returns if it is not [void]. *)
Definition returning (m : result (bool * Model)) : result (option bool * Model) := '(b, m) ← m; mret (Some b, m).
Definition model_edit (e : edit) (m : Model) : result (option bool * Model) :=
  match e with
  | Add c => m ← AddCharacter c m; mret (None, m)
  | Bksp => returning (Backspace m)
  | Del => returning (Delete m)
  | Home => mret (None, MoveCursorToBeginning m)
  | End_ => mret (None, MoveCursorToEnd m)
  | Right_ => returning (MoveCursorForward m)
  | Left_ => returning (MoveCursorBack m)
  end.

Definition refines (e : edit) (m : Model) (z : Zipper) : Prop :=
  ∃ m', model_edit e m ⇓ (answer e z, m') ∧ shows m' (zip_edit e z).

(** The answer of a call that changed something, and of one that did not. *)
Lemma answer_changed e z z' :
  zip_edit e z = z' → length (before z') ≠ length (before z) ∨ length (selected z') ≠ length (selected z) ∨ length (after z') ≠ length (after z) →
  bool_decide (zip_edit e z ≠ z) = true.
Proof. intros -> Hl. apply bool_decide_eq_true_2. intros ->. lia. Qed.

Lemma answer_same e z : zip_edit e z = z → bool_decide (zip_edit e z ≠ z) = false.
Proof. intros ->. apply bool_decide_eq_false_2. auto. Qed.

Lemma erase_middle b s a id x y :
  erase (length b) (length b + length s) (mkModel (b ++ s ++ a) id x y) ⇓ b ++ a.
Proof.
  unfold erase. cbn [text_]. rewrite !length_app, !(proj2 (Nat.leb_le _ _)) by lia. cbn.
  rewrite take_app_length, drop_app_ge by lia.
  replace (length b + length s - length b) with (length s) by lia. by rewrite drop_app_length.
Qed.

Lemma DeleteSelected_zip b s a id :
  DeleteSelected (mkModel (b ++ s ++ a) id (length b) (length b + length s)) ⇓
    mkModel (b ++ a) id (length b) (length b).
Proof. unfold DeleteSelected. cbn. by rewrite erase_middle. Qed.

Lemma selection_nonempty (b : list Z) (c : Z) (s : list Z) : (length b =? length b + length (c :: s)) = false.
Proof. apply Nat.eqb_neq. cbn. lia. Qed.

Lemma AddCharacter_cursor c b a id :
  AddCharacter c (mkModel (b ++ a) id (length b) (length b)) ⇓
    mkModel ((b ++ [c]) ++ a) id (length (b ++ [c])) (length (b ++ [c])).
Proof.
  unfold AddCharacter. cbn. rewrite Nat.eqb_refl. cbn. unfold position.
  rewrite length_app, (proj2 (Nat.leb_le _ _)) by lia. cbn.
  rewrite take_app_length, drop_app_length, length_app, <- app_assoc. cbn. by rewrite Nat.add_1_r.
Qed.

Lemma add_refines c m z : shows m z → refines (Add c) m z.
Proof.
  intros Hm%shows_elim. destruct z as [b s a]; cbn in Hm. rewrite Hm. generalize (client_id_ m) as id.
  intros id. exists (mkModel ((b ++ [c]) ++ a) id (length (b ++ [c])) (length (b ++ [c]))).
  split; [|apply shows_cursor]. cbn [model_edit answer]. destruct s as [|x s].
  - cbn [length]. rewrite Nat.add_0_r. cbn [app]. by rewrite AddCharacter_cursor.
  - pose proof (AddCharacter_cursor c b a id) as Hadd. unfold AddCharacter in *. cbn in Hadd.
    rewrite Nat.eqb_refl in Hadd. cbn in Hadd.
    cbn [selection_base_ selection_extent_]. rewrite selection_nonempty, DeleteSelected_zip.
    cbn. by rewrite Hadd.
Qed.

Lemma delete_selection_refines e m b x s a :
  e = Bksp ∨ e = Del → shows m (mkZipper b (x :: s) a) → refines e m (mkZipper b (x :: s) a).
Proof.
  intros He Hm%shows_elim. cbn [before selected after] in Hm. rewrite Hm. generalize (client_id_ m) as id.
  intros id. exists (mkModel (b ++ a) id (length b) (length b)). split.
  - destruct He as [-> | ->]; cbn [model_edit answer]; rewrite (answer_changed _ _ (mkZipper b [] a)) by (cbn; lia || done);
      unfold returning, Backspace, Delete; cbn [selection_base_ selection_extent_]; rewrite selection_nonempty; cbn [negb];
      by rewrite DeleteSelected_zip.
  - destruct He as [-> | ->]; apply shows_cursor.
Qed.

Lemma list_snoc_case (b : list Z) : b = [] ∨ ∃ b' x, b = b' ++ [x].
Proof. induction b using rev_ind; eauto. Qed.

Lemma backspace_refines m z : shows m z → refines Bksp m z.
Proof.
  intros Hs. destruct z as [b [|x s] a]; [|by apply delete_selection_refines; [left|]].
  pose proof Hs as Hm%shows_elim. cbn [before selected after app length] in Hm. rewrite Nat.add_0_r in Hm.
  destruct (list_snoc_case b) as [->|(b' & x & ->)].
  - exists m. split; [|exact Hs]. cbn [model_edit answer]. rewrite answer_same by done. rewrite Hm. done.
  - rewrite Hm. generalize (client_id_ m) as id. intros id.
    assert (Hz : zip_edit Bksp (mkZipper (b' ++ [x]) [] a) = mkZipper b' [] a) by (cbn; by rewrite last_snoc, removelast_last).
    exists (mkModel (b' ++ a) id (length b') (length b')). unfold refines. cbn [model_edit answer].
    rewrite (answer_changed _ _ _ Hz) by (cbn; rewrite length_app; cbn; lia). rewrite Hz.
    split; [|apply shows_cursor]. unfold returning, Backspace.
    cbn [selection_base_ selection_extent_]. rewrite Nat.eqb_refl. cbn [negb].
    rewrite length_app. cbn [length]. rewrite Nat.add_1_r. cbn [Nat.eqb negb pred].
    pose proof (erase_middle b' [x] a id (S (length b')) (S (length b'))) as He.
    cbn [length] in He. rewrite Nat.add_1_r in He. rewrite <- app_assoc, He. done.
Qed.

Lemma delete_refines m z : shows m z → refines Del m z.
Proof.
  intros Hs. destruct z as [b [|x s] a]; [|by apply delete_selection_refines; [right|]].
  pose proof Hs as Hm%shows_elim. cbn [before selected after app length] in Hm. rewrite Nat.add_0_r in Hm.
  destruct a as [|x a].
  - exists m. split; [|exact Hs]. cbn [model_edit answer]. rewrite answer_same by done. rewrite Hm. unfold returning, Delete. cbn.
    by rewrite Nat.eqb_refl, app_nil_r, Nat.eqb_refl.
  - rewrite Hm. generalize (client_id_ m) as id. intros id.
    exists (mkModel (b ++ a) id (length b) (length b)). split; [|apply shows_cursor].
    cbn [model_edit answer]. rewrite (answer_changed _ _ (mkZipper b [] a)) by (cbn; lia || done). unfold returning, Delete.
    cbn [selection_base_ selection_extent_ text_].
    rewrite Nat.eqb_refl. cbn [negb]. rewrite length_app, (proj2 (Nat.eqb_neq _ _)) by (cbn; lia). cbn [negb].
    pose proof (erase_middle b [x] a id (length b) (length b)) as He.
    cbn [length app] in He. rewrite Nat.add_1_r in He. by rewrite He.
Qed.

Lemma right_refines m z : shows m z → refines Right_ m z.
Proof.
  intros Hs. destruct z as [b s a]. pose proof Hs as Hm%shows_elim. cbn [before selected after] in Hm.
  destruct s as [|x s].
  - cbn [app length] in Hm. rewrite Nat.add_0_r in Hm. destruct a as [|x a].
    + exists m. split; [|exact Hs]. cbn [model_edit answer]. rewrite answer_same by done. rewrite Hm. unfold returning, MoveCursorForward. cbn.
      by rewrite Nat.eqb_refl, app_nil_r, Nat.eqb_refl.
    + exists (mkModel ((b ++ [x]) ++ a) (client_id_ m) (length (b ++ [x])) (length (b ++ [x]))).
      split; [|apply shows_cursor]. rewrite Hm. cbn [model_edit answer].
      rewrite (answer_changed _ _ (mkZipper (b ++ [x]) [] a)) by (cbn; lia || done). unfold returning, MoveCursorForward.
      cbn [selection_base_ selection_extent_ text_]. rewrite Nat.eqb_refl. cbn [negb].
      rewrite (proj2 (Nat.eqb_neq _ _)) by (rewrite length_app; cbn; lia). cbn [negb]. unfold position.
      rewrite !(proj2 (Nat.leb_le _ _)) by (rewrite length_app; cbn; lia). cbn.
      unfold with_selection. cbn. by rewrite <- app_assoc, length_app, Nat.add_1_r.
  - exists (mkModel ((b ++ x :: s) ++ a) (client_id_ m) (length (b ++ x :: s)) (length (b ++ x :: s))).
    split; [|apply shows_cursor]. rewrite Hm. cbn [model_edit answer].
    rewrite (answer_changed _ _ (mkZipper (b ++ x :: s) [] a)) by (cbn; lia || done). unfold returning, MoveCursorForward.
    cbn [selection_base_ selection_extent_ text_]. rewrite selection_nonempty. cbn [negb].
    unfold with_selection. cbn [text_ client_id_]. by rewrite <- app_assoc, length_app.
Qed.

Lemma left_refines m z : shows m z → refines Left_ m z.
Proof.
  intros Hs. destruct z as [b s a]. pose proof Hs as Hm%shows_elim. cbn [before selected after] in Hm.
  destruct s as [|x s].
  - cbn [app length] in Hm. rewrite Nat.add_0_r in Hm. destruct (list_snoc_case b) as [->|(b' & x & ->)].
    + exists m. split; [|exact Hs]. cbn [model_edit answer]. rewrite answer_same by done. rewrite Hm. done.
    + exists (mkModel (b' ++ x :: a) (client_id_ m) (length b') (length b')).
      assert (Hz : zip_edit Left_ (mkZipper (b' ++ [x]) [] a) = mkZipper b' [] (x :: a)) by (cbn; by rewrite last_snoc, removelast_last).
      unfold refines. cbn [model_edit answer]. rewrite (answer_changed _ _ _ Hz) by (cbn; lia). rewrite Hz.
      split; [|apply shows_cursor]. rewrite Hm. unfold returning, MoveCursorBack.
      cbn [selection_base_ selection_extent_ text_]. rewrite Nat.eqb_refl. cbn [negb].
      rewrite length_app. cbn [length]. rewrite Nat.add_1_r. cbn [Nat.eqb negb pred].
      unfold with_selection. cbn [text_ client_id_]. by rewrite <- app_assoc.
  - exists (mkModel (b ++ (x :: s) ++ a) (client_id_ m) (length b) (length b)).
    split; [|apply shows_cursor]. rewrite Hm. cbn [model_edit answer].
    rewrite (answer_changed _ _ (mkZipper b [] ((x :: s) ++ a))) by (cbn; lia || done). unfold returning, MoveCursorBack.
    cbn [selection_base_ selection_extent_ text_]. by rewrite selection_nonempty.
Qed.

Lemma home_refines m z : shows m z → refines Home m z.
Proof.
  intros Hm%shows_elim. rewrite Hm. destruct z as [b s a]. eexists. split; [done|].
  cbn. apply (shows_cursor _ [] (b ++ s ++ a)).
Qed.

Lemma end_refines m z : shows m z → refines End_ m z.
Proof.
  intros Hm%shows_elim. rewrite Hm. destruct z as [b s a]. eexists. split; [done|].
  cbn. pose proof (shows_cursor (client_id_ m) (b ++ s ++ a) []) as Hc. by rewrite app_nil_r in Hc.
Qed.

(** ** Claims *)


(** What [GetState] reports, [SetEditingState] restores: the text through
    its UTF-8 bytes and the selection, from any state of the receiver. *)
Theorem editing_state_roundtrip m m0 es :
  model_ok m → length (text_ m) < 2 ^ 31 → client_id_ m0 = client_id_ m →
  GetState m ⇓ es →
  SetEditingState (Z.to_nat (es_base es)) (Z.to_nat (es_extent es)) (es_text es) m0 ⇓ (true, m).
Proof.
  intros [Hbe Hext] Hlen Hid. unfold GetState.
  intros (bytes & Hb%of_option_Ok & <-%Ok_inj)%bind_Ok. cbn [es_base es_extent es_text].
  pose proof (to_bytes_length _ _ Hb) as Hbl.
  assert (Hlen' : (Z.of_nat (length (text_ m)) < 2 ^ 31)%Z).
  { replace (2 ^ 31)%Z with (Z.of_nat (2 ^ 31)); [lia|]. by rewrite Nat2Z.inj_pow. }
  rewrite !wrapS_id, !Nat2Z.id by lia. unfold SetEditingState.
  rewrite (proj2 (Nat.ltb_ge _ _)), (proj2 (Nat.ltb_ge _ _)) by lia.
  rewrite (from_to_bytes _ _ Hb). cbn [of_option mbind result_bind]. unfold position.
  rewrite !(proj2 (Nat.leb_le _ _)) by lia. cbn. rewrite Hid. by destruct m.
Qed.

(** [SetEditingState] on ASCII text accepts exactly the selections inside
    the text, and answers [false] without a change otherwise. *)
Theorem set_editing_state_ascii base extent text m :
  Forall (λ b, 0 ≤ b < 0x80)%Z text →
  SetEditingState base extent text m ⇓
    (if (base <=? extent) && (extent <=? length text)
     then (true, mkModel text (client_id_ m) base extent) else (false, m)).
Proof.
  intros Hascii. unfold SetEditingState. rewrite (from_bytes_ascii _ Hascii).
  destruct (Nat.ltb_spec extent base).
  { by rewrite (proj2 (Nat.leb_gt _ _)). }
  rewrite (proj2 (Nat.leb_le base extent)) by done. destruct (Nat.ltb_spec (length text) extent).
  { by rewrite (proj2 (Nat.leb_gt _ _)). }
  rewrite (proj2 (Nat.leb_le extent _)) by done. cbn. unfold position.
  by rewrite !(proj2 (Nat.leb_le _ _)) by lia.
Qed.

(** ** Concrete runs *)

Definition abc : Model := mkModel [97; 98; 99]%Z 1 1 2.


(** [é€] with the cursor between the characters. *)
Lemma editing_state_roundtrip_witness :
  SetEditingState 1 1 [195; 169; 226; 130; 172]%Z (new_model 1) ⇓ (true, mkModel [233; 8364]%Z 1 1 1).
Proof.
  apply (editing_state_roundtrip (mkModel [233; 8364]%Z 1 1 1) (new_model 1)
           (mkEditingState 1 1 1 [195; 169; 226; 130; 172]%Z)).
  - unfold model_ok; cbn; lia.
  - apply Nat2Z.inj_lt. rewrite Nat2Z.inj_pow. cbn. lia.
  - done.
  - by vm_compute.
Defined.

Lemma set_editing_state_ascii_witness :
  SetEditingState 1 2 [97; 98]%Z (new_model 1) ⇓ (true, mkModel [97; 98]%Z 1 1 2).
Proof. apply (set_editing_state_ascii 1 2 [97; 98]%Z (new_model 1)). repeat constructor; cbn; lia. Defined.

(** [SetEditingState] checks the extent against the size in bytes: a
    selection that lies outside a non-ASCII text but inside its encoding
    passes the check and moves an iterator past the end of the text. *)
Theorem set_editing_state_overruns :
  SetEditingState 0 2 [195; 169]%Z (new_model 1) ⇑ UndefinedBehaviour.
Proof. reflexivity. Qed.
