(* ===== verification/Float64.v ===== *)
(** * Float64: C++ [double] values

    A [double] is kept as its 64-bit pattern, so that copying it is exact;
    comparison and subtraction decode it to the Standard Library's IEEE 754
    specification floats.  The bit pattern of a NaN produced by arithmetic
    depends on the processor: it is the member [nan_bits] of the class. *)

From Stdlib Require Import ZArith Lia SpecFloat.
From stdpp Require Import base sorting gmap numbers list.
From S2P Require Import Prelude.

Local Open Scope Z_scope.

Definition double := Z.

Class FloatEnv := { nan_bits : double }.

Definition to_sf (d : double) : spec_float :=
  let s := Z.testbit d 63 in
  let e := Z.land (Z.shiftr d 52) 2047 in
  let m := Z.land d (2 ^ 52 - 1) in
  if e =? 0 then match m with Zpos p => S754_finite s p (-1074) | _ => S754_zero s end
  else if e =? 2047 then match m with Zpos _ => S754_nan | _ => S754_infinity s end
  else match m + 2 ^ 52 with Zpos p => S754_finite s p (e - 1075) | _ => S754_nan end.

Definition of_sf `{FloatEnv} (f : spec_float) : double :=
  let sign (s : bool) := if s then 2 ^ 63 else 0 in
  match f with
  | S754_zero s => sign s
  | S754_infinity s => sign s + Z.shiftl 2047 52
  | S754_nan => nan_bits
  | S754_finite s m e =>
      if Zpos m <? 2 ^ 52 then sign s + Zpos m
      else sign s + Z.shiftl (e + 1075) 52 + (Zpos m - 2 ^ 52)
  end.

Definition double_eqb (a b : double) : bool := SFeqb (to_sf a) (to_sf b).
Definition double_sub `{FloatEnv} (a b : double) : double := of_sf (SFsub 53 1024 (to_sf a) (to_sf b)).
Definition is_nan (d : double) : bool := match to_sf d with S754_nan => true | _ => false end.

(** Some patterns used in concrete runs. *)
Definition d0 : double := 0.
Definition d1 : double := 0x3ff0000000000000.
Definition d2 : double := 0x4000000000000000.
Definition d3 : double := 0x4008000000000000.

Example sub_3_1 `{FloatEnv} : double_sub d3 d1 = d2.
Proof. reflexivity. Qed.

Example neg_zero_eq : double_eqb d0 (2 ^ 63) = true.
Proof. reflexivity. Qed.

(** Comparing a number with itself: only a NaN differs from itself. *)
Lemma SFeqb_refl f : SFeqb f f = match f with S754_nan => false | _ => true end.
Proof.
  unfold SFeqb, SFcompare. destruct f as [s|s| |s m e]; [by destruct s|by destruct s|done|].
  destruct s; rewrite Z.compare_refl, Pos.compare_cont_refl; done.
Qed.

Lemma double_eqb_refl d : double_eqb d d = negb (is_nan d).
Proof. unfold double_eqb, is_nan. rewrite SFeqb_refl. by destruct (to_sf d). Qed.
