(* ===== verification/PointerData.v ===== *)
(** * PointerData: pointer events and the packets that carry them

    Model of [flutter::PointerData] (lib/ui/window/pointer_data.{h,cc}) and of
    [flutter::PointerDataPacket] (lib/ui/window/pointer_data_packet.{h,cc}):
    28 fields of eight bytes each, copied in and out of the packet's byte
    vector. *)

From Stdlib Require Import ZArith Lia.
From stdpp Require Import base sorting gmap numbers list.
From S2P Require Import Prelude Bytes Float64.

Local Open Scope Z_scope.

(** The enumerations are backed by [int64_t]: a packet may hold any value. *)
Inductive Change := kCancel | kAdd | kRemove | kHover | kDown | kMove | kUp | Change_other (z : Z).
Inductive SignalKind := kNone | kScroll | SignalKind_other (z : Z).

#[export] Instance Change_eq_dec : EqDecision Change.
Proof. solve_decision. Defined.
#[export] Instance SignalKind_eq_dec : EqDecision SignalKind.
Proof. solve_decision. Defined.

Definition Change_of (z : Z) : Change :=
  match z with
  | 0 => kCancel | 1 => kAdd | 2 => kRemove | 3 => kHover | 4 => kDown | 5 => kMove | 6 => kUp
  | z => Change_other z
  end.
Definition Change_to (c : Change) : Z :=
  match c with
  | kCancel => 0 | kAdd => 1 | kRemove => 2 | kHover => 3 | kDown => 4 | kMove => 5 | kUp => 6
  | Change_other z => z
  end.
Definition SignalKind_of (z : Z) : SignalKind :=
  match z with 0 => kNone | 1 => kScroll | z => SignalKind_other z end.
Definition SignalKind_to (k : SignalKind) : Z :=
  match k with kNone => 0 | kScroll => 1 | SignalKind_other z => z end.

(** [kind] is the [DeviceKind], which nothing below inspects. *)
Record PointerData := mkPointerData {
  time_stamp : Z;
  change : Change;
  kind : Z;
  signal_kind : SignalKind;
  device : Z;
  pointer_identifier : Z;
  physical_x : double;
  physical_y : double;
  physical_delta_x : double;
  physical_delta_y : double;
  buttons : Z;
  obscured : Z;
  synthesized : Z;
  pressure : double;
  pressure_min : double;
  pressure_max : double;
  distance : double;
  distance_max : double;
  size : double;
  radius_major : double;
  radius_minor : double;
  radius_min : double;
  radius_max : double;
  orientation : double;
  tilt : double;
  platformData : Z;
  scroll_delta_x : double;
  scroll_delta_y : double;
}.

Definition kPointerDataFieldCount : nat := 28.
Definition kBytesPerField : nat := 8.
Definition sizeof_PointerData : nat := 224.

(** The 28 words of the structure, in declaration order. *)
Definition fields (p : PointerData) : list Z :=
  [time_stamp p; Change_to (change p); kind p; SignalKind_to (signal_kind p); device p;
   pointer_identifier p; physical_x p; physical_y p; physical_delta_x p; physical_delta_y p;
   buttons p; obscured p; synthesized p; pressure p; pressure_min p; pressure_max p; distance p;
   distance_max p; size p; radius_major p; radius_minor p; radius_min p; radius_max p; orientation p;
   tilt p; platformData p; scroll_delta_x p; scroll_delta_y p].

(** Which of the words are [double] patterns (the others are [int64_t]). *)
Definition is_double : list bool :=
  [false; false; false; false; false; false; true; true; true; true; false; false; false;
   true; true; true; true; true; true; true; true; true; true; true; true; false; true; true].

Definition of_fields (ws : list Z) : option PointerData :=
  match ws with
  | [a; b; c; d; e; f; g; h; i; j; k; l; m; n; o; p; q; r; s; t; u; v; w; x; y; z; aa; bb] =>
      Some (mkPointerData a (Change_of b) c (SignalKind_of d) e f g h i j k l m n o p q r s t u v w x y z aa bb)
  | _ => None
  end.

(** [memcpy] of the structure to and from its bytes. *)
Definition store_word (d : bool) (z : Z) : list Z := le_bytes 8 z.
Definition load_word (d : bool) (l : list Z) : Z := if d then le_value l else wrapS 64 (le_value l).

Fixpoint load_words (ds : list bool) (l : list Z) : list Z :=
  match ds with
  | [] => []
  | d :: ds => load_word d (take 8 l) :: load_words ds (drop 8 l)
  end.

Definition store_PointerData (p : PointerData) : list Z :=
  concat (zip_with store_word is_double (fields p)).
Definition load_PointerData (l : list Z) : option PointerData := of_fields (load_words is_double l).

(** [PointerData::Clear] *)
Definition Clear : option PointerData := load_PointerData (replicate sizeof_PointerData 0).

(** ** Packets *)

Definition Packet := list Z.
Definition new_packet (count : nat) : Packet := replicate (count * sizeof_PointerData) 0.

(** [memcpy(&data_[i * sizeof(PointerData)], ...)]: out of range it writes
    past the vector. *)
Definition SetPointerData (i : nat) (p : PointerData) (data : Packet) : result Packet :=
  let at_ := (i * sizeof_PointerData)%nat in
  if (at_ + sizeof_PointerData <=? length data)%nat
  then mret (take at_ data ++ store_PointerData p ++ drop (at_ + sizeof_PointerData) data)
  else Fault UndefinedBehaviour.

(** ** Round trip *)

Definition word_ok (d : bool) (z : Z) : Prop :=
  if d then 0 ≤ z < 2 ^ 64 else - 2 ^ 63 ≤ z < 2 ^ 63.
Definition PointerData_ok (p : PointerData) : Prop :=
  Forall2 word_ok is_double (fields p) ∧
  Change_of (Change_to (change p)) = change p ∧
  SignalKind_of (SignalKind_to (signal_kind p)) = signal_kind p.

Lemma load_store_word d z : word_ok d z → load_word d (store_word d z) = z.
Proof.
  unfold load_word, store_word. destruct d; intros Hz.
  - by apply le_bytes_unsigned.
  - by apply (le_bytes_signed 8); [lia|].
Qed.

Lemma load_store_words ds ws rest :
  Forall2 word_ok ds ws → load_words ds (concat (zip_with store_word ds ws) ++ rest) = ws.
Proof.
  induction 1 as [|d w ds ws Hw _ IH]; [done|]. cbn [zip_with concat load_words]. f_equal.
  - rewrite <- app_assoc, take_app_length' by (symmetry; apply length_le_bytes). by apply load_store_word.
  - rewrite <- app_assoc, drop_app_length' by (symmetry; apply length_le_bytes). apply IH.
Qed.

Lemma of_fields_fields p :
  Change_of (Change_to (change p)) = change p →
  SignalKind_of (SignalKind_to (signal_kind p)) = signal_kind p → of_fields (fields p) = Some p.
Proof. destruct p; cbn. by intros -> ->. Qed.

Lemma load_store p rest : PointerData_ok p → load_PointerData (store_PointerData p ++ rest) = Some p.
Proof.
  intros (Hf & Hc & Hs). unfold load_PointerData, store_PointerData.
  rewrite load_store_words by done. by apply of_fields_fields.
Qed.

Lemma length_store_PointerData p : length (store_PointerData p) = sizeof_PointerData.
Proof. destruct p. reflexivity. Qed.
