(* ===== verification/PointerConverter.v ===== *)
(** * PointerConverter: cleaning up the platform's pointer events

    Model of [flutter::PointerDataPacketConverter]
    (lib/ui/window/pointer_data_packet_converter.{h,cc}).  The contract is a
    protocol per device (add, hover, down, move, up or cancel, remove), which
    the converted stream follows with every event at the device's tracked
    location. *)

From Stdlib Require Import ZArith Lia.
From stdpp Require Import base sorting gmap numbers list.
From S2P Require Import Prelude Bytes Float64 PointerData.

Local Open Scope Z_scope.

Record PointerState := mkPointerState {
  ps_identifier : Z;
  isDown : bool;
  ps_x : double;
  ps_y : double;
}.

Record Converter := mkConverter {
  states_ : gmap Z PointerState;
  pointer_ : Z;
}.

Definition new_converter : Converter := mkConverter ∅ 0.

Definition set_down b st := mkPointerState (ps_identifier st) b (ps_x st) (ps_y st).
Definition set_state (d : Z) (st : PointerState) (c : Converter) : Converter :=
  mkConverter (<[d := st]> (states_ c)) (pointer_ c).

(** A copy of the event with another [change], marked as synthesized. *)
Definition synthesize (ch : Change) (p : PointerData) : PointerData :=
  mkPointerData (time_stamp p) ch (kind p) (signal_kind p) (device p) (pointer_identifier p)
    (physical_x p) (physical_y p) (physical_delta_x p) (physical_delta_y p) (buttons p) (obscured p) 1
    (pressure p) (pressure_min p) (pressure_max p) (distance p) (distance_max p) (size p)
    (radius_major p) (radius_minor p) (radius_min p) (radius_max p) (orientation p) (tilt p)
    (platformData p) (scroll_delta_x p) (scroll_delta_y p).
Definition without_signal (p : PointerData) : PointerData :=
  mkPointerData (time_stamp p) (change p) (kind p) kNone (device p) (pointer_identifier p)
    (physical_x p) (physical_y p) (physical_delta_x p) (physical_delta_y p) (buttons p) (obscured p)
    (synthesized p) (pressure p) (pressure_min p) (pressure_max p) (distance p) (distance_max p) (size p)
    (radius_major p) (radius_minor p) (radius_min p) (radius_max p) (orientation p) (tilt p)
    (platformData p) (scroll_delta_x p) (scroll_delta_y p).
Definition with_deltas (dx dy : double) (p : PointerData) : PointerData :=
  mkPointerData (time_stamp p) (change p) (kind p) (signal_kind p) (device p) (pointer_identifier p)
    (physical_x p) (physical_y p) dx dy (buttons p) (obscured p)
    (synthesized p) (pressure p) (pressure_min p) (pressure_max p) (distance p) (distance_max p) (size p)
    (radius_major p) (radius_minor p) (radius_min p) (radius_max p) (orientation p) (tilt p)
    (platformData p) (scroll_delta_x p) (scroll_delta_y p).
Definition with_identifier (id : Z) (p : PointerData) : PointerData :=
  mkPointerData (time_stamp p) (change p) (kind p) (signal_kind p) (device p) id
    (physical_x p) (physical_y p) (physical_delta_x p) (physical_delta_y p) (buttons p) (obscured p)
    (synthesized p) (pressure p) (pressure_min p) (pressure_max p) (distance p) (distance_max p) (size p)
    (radius_major p) (radius_minor p) (radius_min p) (radius_max p) (orientation p) (tilt p)
    (platformData p) (scroll_delta_x p) (scroll_delta_y p).

Section converter.
Context `{Build} `{FloatEnv}.

Definition LocationNeedsUpdate (p : PointerData) (st : PointerState) : bool :=
  negb (double_eqb (ps_x st) (physical_x p)) || negb (double_eqb (ps_y st) (physical_y p)).

Definition EnsurePointerState (p : PointerData) (c : Converter) : PointerState * Converter :=
  let st := mkPointerState 0 false (physical_x p) (physical_y p) in (st, set_state (device p) st c).

(** Updates the event, the local state and [states_]. *)
Definition UpdateDeltaAndState (p : PointerData) (st : PointerState) (c : Converter)
    : PointerData * PointerState * Converter :=
  let p := with_deltas (double_sub (physical_x p) (ps_x st)) (double_sub (physical_y p) (ps_y st)) p in
  let st := mkPointerState (ps_identifier st) (isDown st) (physical_x p) (physical_y p) in
  (p, st, set_state (device p) st c).

Definition UpdatePointerIdentifier (p : PointerData) (st : PointerState) (start_new_pointer : bool)
    (c : Converter) : result (PointerData * PointerState * Converter) :=
  if start_new_pointer then
    n ← checked_s 64 (pointer_ c + 1);
    let st := mkPointerState n (isDown st) (ps_x st) (ps_y st) in
    mret (with_identifier n p, st, set_state (device p) st (mkConverter (states_ c) n))
  else mret (with_identifier (ps_identifier st) p, st, c).

(** A synthesized event [ch] at the new location, when it differs. *)
Definition sync_location (ch : Change) (p : PointerData) (st : PointerState) (c : Converter)
    : list PointerData * PointerState * Converter :=
  if LocationNeedsUpdate p st then
    let '(e, st, c) := UpdateDeltaAndState (synthesize ch p) st c in ([e], st, c)
  else ([], st, c).

(** The state of a device, adding it when it is new. *)
Definition find_or_add (p : PointerData) (c : Converter) : list PointerData * PointerState * Converter :=
  match states_ c !! device p with
  | None =>
      let e := synthesize kAdd p in
      let '(st, c) := EnsurePointerState e c in ([e], st, c)
  | Some st => ([], st, c)
  end.

(** [iter->second] after [FML_DCHECK(iter != states_.end())]. *)
Definition existing_state (d : Z) (c : Converter) : result PointerState :=
  _ ← fml_dcheck (bool_decide (is_Some (states_ c !! d)));
  of_option UndefinedBehaviour (states_ c !! d).

(** Returns what it appends to [converted_pointers]. *)
Definition ConvertPointerData (p : PointerData) (c : Converter) : result (list PointerData * Converter) :=
  match signal_kind p with
  | kNone =>
      match change p with
      | kCancel =>
          match states_ c !! device p with
          | None => mret ([], c)
          | Some st =>
              _ ← fml_dcheck (isDown st);
              '(p, st, c) ← UpdatePointerIdentifier p st false c;
              let '(moves, st, c) := sync_location kMove p st c in
              mret (moves ++ [p], set_state (device p) (set_down false st) c)
          end
      | kAdd =>
          _ ← fml_dcheck (negb (bool_decide (is_Some (states_ c !! device p))));
          mret ([p], (EnsurePointerState p c).2)
      | kRemove =>
          st ← existing_state (device p) c;
          '(cancels, st, c) ←
            (if isDown st then
               let e := synthesize kCancel p in
               '(e, st, c) ← UpdatePointerIdentifier e st false c;
               let st := set_down false st in
               mret ([e], st, set_state (device e) st c)
             else mret ([], st, c));
          let '(hovers, st, c) := sync_location kHover p st c in
          mret (cancels ++ hovers ++ [p], mkConverter (delete (device p) (states_ c)) (pointer_ c))
      | kHover =>
          let '(adds, st, c) := find_or_add p c in
          _ ← fml_dcheck (negb (isDown st));
          if LocationNeedsUpdate p st then
            let '(p, st, c) := UpdateDeltaAndState p st c in mret (adds ++ [p], c)
          else mret (adds, c)
      | kDown =>
          let '(adds, st, c) := find_or_add p c in
          _ ← fml_dcheck (negb (isDown st));
          let '(hovers, st, c) := sync_location kHover p st c in
          '(p, st, c) ← UpdatePointerIdentifier p st true c;
          mret (adds ++ hovers ++ [p], set_state (device p) (set_down true st) c)
      | kMove =>
          st ← existing_state (device p) c;
          _ ← fml_dcheck (isDown st);
          if LocationNeedsUpdate p st then
            '(p, st, c) ← UpdatePointerIdentifier p st false c;
            let '(p, st, c) := UpdateDeltaAndState p st c in mret ([p], c)
          else mret ([], c)
      | kUp =>
          st ← existing_state (device p) c;
          _ ← fml_dcheck (isDown st);
          '(p, st, c) ← UpdatePointerIdentifier p st false c;
          let '(moves, st, c) := sync_location kMove p st c in
          mret (moves ++ [p], set_state (device p) (set_down false st) c)
      | Change_other _ => mret ([p], c)
      end
  | kScroll =>
      st ← existing_state (device p) c;
      let '(moves, st, c) :=
        (if LocationNeedsUpdate p st then
           if isDown st then
             let '(e, st, c) := UpdateDeltaAndState (synthesize kMove (without_signal p)) st c in ([e], st, c)
           else
             let '(e, st, c) := UpdateDeltaAndState (synthesize kHover (without_signal p)) st c in ([e], st, c)
         else ([], st, c)) in
      mret (moves ++ [p], c)
  | SignalKind_other _ => mret ([], c)
  end.

Fixpoint convert_all (ps : list PointerData) (c : Converter) : result (list PointerData * Converter) :=
  match ps with
  | [] => mret ([], c)
  | p :: ps =>
      '(out, c) ← ConvertPointerData p c;
      '(outs, c) ← convert_all ps c;
      mret (out ++ outs, c)
  end.

(** The events of a packet: a trailing partial record is ignored. *)
Fixpoint packet_events (n : nat) (data : Packet) : option (list PointerData) :=
  match n with
  | O => Some []
  | S n => p ← load_PointerData data; ps ← packet_events n (drop sizeof_PointerData data); Some (p :: ps)
  end.

Fixpoint write_events (i : nat) (ps : list PointerData) (data : Packet) : result Packet :=
  match ps with
  | [] => mret data
  | p :: ps => data ← SetPointerData i p data; write_events (S i) ps data
  end.

Definition Convert (packet : Packet) (c : Converter) : result (Packet * Converter) :=
  let n := (length packet / sizeof_PointerData)%nat in
  events ← of_option UndefinedBehaviour (packet_events n packet);
  '(converted, c) ← convert_all events c;
  data ← write_events 0 converted (new_packet (length converted));
  mret (data, c).

(** ** The protocol of the converted stream *)

Definition at_location (e : PointerData) (st : PointerState) : bool :=
  ((physical_x e =? ps_x st) && (physical_y e =? ps_y st)) || negb (LocationNeedsUpdate e st).
Definition moved_from (e : PointerData) (st : PointerState) : bool :=
  (physical_delta_x e =? double_sub (physical_x e) (ps_x st)) &&
  (physical_delta_y e =? double_sub (physical_y e) (ps_y st)).
Definition relocate (e : PointerData) (st : PointerState) : PointerState :=
  mkPointerState (ps_identifier st) (isDown st) (physical_x e) (physical_y e).

(** A receiver of the stream that knows the devices, whether they are down,
    where they are and the identifier of the current press, and that refuses
    every event that does not fit: a device is added once and removed while
    up; it hovers and goes down while up, moves, goes up or is cancelled
    while down; hovers and moves carry the distance from the last location,
    and the other events happen at the last location (a cancel synthesized
    by a removal excepted); each press gets a fresh identifier, which its
    moves and its end carry. *)
Definition monitor_known (e : PointerData) (st : PointerState) (c : Converter) : option Converter :=
  let d := device e in
  match change e with
  | kHover =>
      if negb (isDown st) && moved_from e st then Some (set_state d (relocate e st) c) else None
  | kMove =>
      if isDown st && moved_from e st && (pointer_identifier e =? ps_identifier st)
      then Some (set_state d (relocate e st) c) else None
  | kDown =>
      if negb (isDown st) && at_location e st && (pointer_identifier e =? pointer_ c + 1)
      then Some (set_state d (mkPointerState (pointer_ c + 1) true (ps_x st) (ps_y st))
                   (mkConverter (states_ c) (pointer_ c + 1)))
      else None
  | kUp =>
      if isDown st && at_location e st && (pointer_identifier e =? ps_identifier st)
      then Some (set_state d (set_down false st) c) else None
  | kCancel =>
      if isDown st && (at_location e st || (synthesized e =? 1)) &&
         (pointer_identifier e =? ps_identifier st)
      then Some (set_state d (set_down false st) c) else None
  | kRemove =>
      if negb (isDown st) && at_location e st
      then Some (mkConverter (delete d (states_ c)) (pointer_ c)) else None
  | _ => None
  end.

Definition monitor (e : PointerData) (c : Converter) : option Converter :=
  match signal_kind e, change e with
  | kNone, kAdd =>
      match states_ c !! device e with
      | None => Some (set_state (device e) (mkPointerState 0 false (physical_x e) (physical_y e)) c)
      | Some _ => None
      end
  | kNone, Change_other _ => Some c
  | kNone, _ => st ← states_ c !! device e; monitor_known e st c
  | kScroll, _ => st ← states_ c !! device e; if at_location e st then Some c else None
  | SignalKind_other _, _ => None
  end.

Fixpoint monitor_run (es : list PointerData) (c : Converter) : option Converter :=
  match es with
  | [] => Some c
  | e :: es => c ← monitor e c; monitor_run es c
  end.

(** The platform's events the converter is written for: what its
    [FML_DCHECK]s ask of the raw stream. *)
Definition input_ok (p : PointerData) (c : Converter) : bool :=
  match signal_kind p, change p, states_ c !! device p with
  | kNone, (kCancel | kMove | kUp), Some st => isDown st
  | kNone, kCancel, None => true
  | kNone, (kMove | kUp), None => false
  | kNone, kAdd, o => negb (bool_decide (is_Some o))
  | kNone, kRemove, o => bool_decide (is_Some o)
  | kNone, (kHover | kDown), Some st => negb (isDown st)
  | kNone, (kHover | kDown), None => true
  | kNone, Change_other _, _ => true
  | kScroll, _, o => bool_decide (is_Some o)
  | SignalKind_other _, _, _ => true
  end.

(** A scroll of a pressed device at a new location becomes a move that keeps
    the raw event's identifier. *)
Definition scroll_identified (p : PointerData) (c : Converter) : Prop :=
  ∀ st, signal_kind p = kScroll → states_ c !! device p = Some st → isDown st = true →
    LocationNeedsUpdate p st = true → pointer_identifier p = ps_identifier st.

Lemma monitor_run_app es1 es2 c :
  monitor_run (es1 ++ es2) c = monitor_run es1 c ≫= monitor_run es2.
Proof. revert c. induction es1 as [|e es1 IH]; intros c; cbn; [done|]. destruct (monitor e c); cbn; auto. Qed.

Lemma states_set_state d st c : states_ (set_state d st c) !! d = Some st.
Proof. apply lookup_insert_eq. Qed.

Lemma set_state_set d st1 st2 c : set_state d st2 (set_state d st1 c) = set_state d st2 c.
Proof. unfold set_state. cbn. by rewrite insert_insert_eq. Qed.

Lemma set_state_id d st c : states_ c !! d = Some st → set_state d st c = c.
Proof. intros Hd. unfold set_state. rewrite insert_id by done. by destruct c. Qed.

Lemma at_location_relocate e e' st :
  physical_x e = physical_x e' → physical_y e = physical_y e' → at_location e (relocate e' st) = true.
Proof. intros Hx Hy. unfold at_location; cbn. by rewrite Hx, Hy, !Z.eqb_refl. Qed.

Lemma at_location_same e st : LocationNeedsUpdate e st = false → at_location e st = true.
Proof. unfold at_location. intros ->. apply orb_true_r. Qed.

Lemma moved_from_deltas e st :
  moved_from (with_deltas (double_sub (physical_x e) (ps_x st)) (double_sub (physical_y e) (ps_y st)) e) st = true.
Proof. unfold moved_from; cbn. by rewrite !Z.eqb_refl. Qed.

(** Synthesized hovers and moves bring the receiver to the new location. *)
Lemma sync_location_monitor ch p st c l st' c' :
  sync_location ch p st c = (l, st', c') → states_ c !! device p = Some st → signal_kind p = kNone →
  (ch = kHover ∧ isDown st = false ∨
   ch = kMove ∧ isDown st = true ∧ pointer_identifier p = ps_identifier st) →
  monitor_run l c = Some c' ∧ states_ c' !! device p = Some st' ∧ pointer_ c' = pointer_ c ∧
  at_location p st' = true ∧ isDown st' = isDown st ∧ ps_identifier st' = ps_identifier st.
Proof.
  unfold sync_location. intros Hs Hst Hk Hch. destruct (LocationNeedsUpdate p st) eqn:Hn; cycle 1.
  { injection Hs as <- <- <-. split_and!; try done. by apply at_location_same. }
  cbn in Hs. injection Hs as <- <- <-. split_and!; try done.
  - cbn [monitor_run]. unfold monitor; cbn [signal_kind with_deltas synthesize change device]. rewrite Hk.
    destruct Hch as [[-> Hd]|(-> & Hd & Hid)]; rewrite Hst; cbn;
      unfold monitor_known; cbn; rewrite Hd; unfold moved_from; cbn; rewrite !Z.eqb_refl; cbn;
      rewrite ?Hid, ?Z.eqb_refl; unfold relocate; cbn; by rewrite Hd.
  - apply states_set_state.
  - by apply (at_location_relocate p p).
Qed.

(** A device that is not known is added first. *)
Lemma find_or_add_monitor p c l st c' :
  find_or_add p c = (l, st, c') → signal_kind p = kNone →
  monitor_run l c = Some c' ∧ states_ c' !! device p = Some st ∧ pointer_ c' = pointer_ c ∧
  (states_ c !! device p = None → isDown st = false) ∧
  (∀ st0, states_ c !! device p = Some st0 → st = st0).
Proof.
  unfold find_or_add. intros Hf Hk. destruct (states_ c !! device p) as [st0|] eqn:Hst.
  - injection Hf as <- <- <-. split_and!; try done. by intros ? [= ->].
  - cbn in Hf. injection Hf as <- <- <-. split_and!; try done; [|apply states_set_state].
    cbn. unfold monitor; cbn. by rewrite Hk, Hst.
Qed.

(** One case per kind of event: on the inputs the converter is written for it
    returns, and the receiver follows to the converter's own state. *)
Definition follows (p : PointerData) (c : Converter) : Prop :=
  ∃ out c', ConvertPointerData p c ⇓ (out, c') ∧ monitor_run out c = Some c' ∧
    pointer_ c ≤ pointer_ c' ≤ pointer_ c + 1.

(** The end of a press: an optional move, then [ch]. *)
Lemma end_press_follows p st c ch :
  signal_kind p = kNone → change p = ch → (ch = kUp ∨ ch = kCancel) →
  states_ c !! device p = Some st → isDown st = true →
  let p' := with_identifier (ps_identifier st) p in
  let '(moves, st', c') := sync_location kMove p' st c in
  monitor_run (moves ++ [p']) c = Some (set_state (device p) (set_down false st') c') ∧
  pointer_ c' = pointer_ c.
Proof.
  intros Hk Hch Hend Hst Hd p'. destruct (sync_location kMove p' st c) as [[moves st'] c'] eqn:Hs.
  apply sync_location_monitor in Hs as (Hm & Hst' & Hp & Hat & Hd' & Hid); [|done|done|by right].
  split; [|done]. rewrite monitor_run_app, Hm. cbn [mbind option_bind monitor_run].
  unfold monitor. cbn [signal_kind change device with_identifier p'].
  change (device p') with (device p) in Hst'. rewrite Hk, Hch.
  destruct Hend as [-> | ->]; cbn [p']; rewrite Hst'; cbn [mbind option_bind];
    unfold monitor_known; cbn [change with_identifier p']; rewrite Hch, Hd', Hd, Hat; cbn;
    rewrite Hid, Z.eqb_refl; done.
Qed.

Lemma cancel_follows p c :
  signal_kind p = kNone → change p = kCancel → input_ok p c = true → follows p c.
Proof.
  unfold follows, input_ok, ConvertPointerData. intros Hk Hc. rewrite Hk, Hc.
  destruct (states_ c !! device p) as [st|] eqn:Hst; [|intros; eexists _, _; split; [done|]; split; [done|lia]].
  intros Hd. pose proof (end_press_follows p st c kCancel Hk Hc (or_intror eq_refl) Hst Hd) as Hm.
  rewrite Hd, fml_dcheck_true. cbn. cbn zeta in Hm.
  destruct (sync_location kMove _ st c) as [[moves st'] c']. destruct Hm as [Hm Hp].
  eexists _, _. split; [done|]. split; [exact Hm|]. cbn. lia.
Qed.

Lemma existing_state_Some d c st : states_ c !! d = Some st → existing_state d c ⇓ st.
Proof. unfold existing_state. intros ->. by rewrite bool_decide_eq_true_2, fml_dcheck_true by eauto. Qed.

Lemma up_follows p c :
  signal_kind p = kNone → change p = kUp → input_ok p c = true → follows p c.
Proof.
  unfold follows, input_ok, ConvertPointerData. intros Hk Hc. rewrite Hk, Hc.
  destruct (states_ c !! device p) as [st|] eqn:Hst; [|done].
  intros Hd. pose proof (end_press_follows p st c kUp Hk Hc (or_introl eq_refl) Hst Hd) as Hm.
  rewrite (existing_state_Some _ _ _ Hst). cbn [mbind result_bind]. rewrite Hd, fml_dcheck_true. cbn.
  cbn zeta in Hm. destruct (sync_location kMove _ st c) as [[moves st'] c']. destruct Hm as [Hm Hp].
  eexists _, _. split; [done|]. split; [exact Hm|]. cbn. lia.
Qed.

Lemma add_follows p c :
  signal_kind p = kNone → change p = kAdd → input_ok p c = true → follows p c.
Proof.
  unfold follows, input_ok, ConvertPointerData. intros Hk Hc. rewrite Hk, Hc.
  destruct (states_ c !! device p) as [st|] eqn:Hst; [done|]. intros _. cbn. rewrite fml_dcheck_true. cbn.
  eexists _, _. split; [done|]. cbn. unfold monitor. rewrite Hk, Hc, Hst. cbn. split; [done|lia].
Qed.

Lemma move_follows p c :
  signal_kind p = kNone → change p = kMove → input_ok p c = true → follows p c.
Proof.
  unfold follows, input_ok, ConvertPointerData. intros Hk Hc. rewrite Hk, Hc.
  destruct (states_ c !! device p) as [st|] eqn:Hst; [|done]. intros Hd.
  rewrite (existing_state_Some _ _ _ Hst). cbn [mbind result_bind]. rewrite Hd, fml_dcheck_true. cbn.
  destruct (LocationNeedsUpdate p st).
  - eexists _, _. split; [done|]. split; [|cbn; lia]. cbn [monitor_run].
    unfold monitor. cbn [signal_kind change device with_deltas with_identifier]. rewrite Hk, Hc, Hst.
    cbn [mbind option_bind]. unfold monitor_known. cbn [change with_deltas with_identifier].
    rewrite Hc, Hd. unfold moved_from. cbn. rewrite !Z.eqb_refl. cbn. unfold relocate. cbn. by rewrite Hd.
  - eexists _, _. split; [done|]. split; [done|cbn; lia].
Qed.

Lemma hover_follows p c :
  signal_kind p = kNone → change p = kHover → input_ok p c = true → follows p c.
Proof.
  unfold follows, input_ok, ConvertPointerData. intros Hk Hc. rewrite Hk, Hc. intros Hok.
  destruct (find_or_add p c) as [[adds st] c1] eqn:Hf.
  apply find_or_add_monitor in Hf as (Hm & Hst & Hp & Hnew & Hold); [|done].
  assert (Hd : isDown st = false).
  { destruct (states_ c !! device p) as [st0|]; [|by apply Hnew]. rewrite (Hold _ eq_refl).
    by destruct (isDown st0). }
  rewrite Hd. cbn [negb]. rewrite fml_dcheck_true. cbn [mbind result_bind].
  destruct (LocationNeedsUpdate p st) eqn:Hn; cbn.
  - eexists _, _. split; [done|]. split; [|cbn; lia]. rewrite monitor_run_app, Hm.
    cbn [mbind option_bind monitor_run]. unfold monitor. cbn [signal_kind change device with_deltas].
    rewrite Hk, Hc, Hst. cbn [mbind option_bind]. unfold monitor_known. cbn [change with_deltas].
    rewrite Hc, Hd. unfold moved_from. cbn. by rewrite !Z.eqb_refl; unfold relocate; cbn; rewrite Hd.
  - eexists _, _. split; [done|]. split; [done|]. lia.
Qed.

Lemma down_follows p c :
  signal_kind p = kNone → change p = kDown → input_ok p c = true →
  - 2 ^ 63 ≤ pointer_ c < 2 ^ 63 - 1 → follows p c.
Proof.
  unfold follows, input_ok, ConvertPointerData. intros Hk Hc. rewrite Hk, Hc. intros Hok Hroom.
  destruct (find_or_add p c) as [[adds st] c1] eqn:Hf.
  apply find_or_add_monitor in Hf as (Hm & Hst & Hp & Hnew & Hold); [|done].
  assert (Hd : isDown st = false).
  { destruct (states_ c !! device p) as [st0|]; [|by apply Hnew]. rewrite (Hold _ eq_refl).
    by destruct (isDown st0). }
  rewrite Hd. cbn [negb]. rewrite fml_dcheck_true. cbn [mbind result_bind].
  destruct (sync_location kHover p st c1) as [[hovers st2] c2] eqn:Hs.
  apply sync_location_monitor in Hs as (Hm2 & Hst2 & Hp2 & Hat & Hd2 & Hid); [|done|done|by left].
  unfold UpdatePointerIdentifier. rewrite checked_s_in by (apply in_s_spec; lia).
  cbn [mbind result_bind]. eexists _, _. split; [done|]. split; [|cbn; lia].
  rewrite monitor_run_app, Hm. cbn [mbind option_bind].
  rewrite monitor_run_app, Hm2. cbn [mbind option_bind monitor_run].
  unfold monitor. cbn [signal_kind change device with_identifier]. rewrite Hk, Hc, Hst2.
  cbn [mbind option_bind]. unfold monitor_known. cbn [change with_identifier].
  rewrite Hc, Hd2, Hd. unfold at_location, LocationNeedsUpdate in *. cbn in *. rewrite Hat. cbn.
  rewrite Z.eqb_refl. cbn. by rewrite set_state_set.
Qed.

Lemma remove_follows p c :
  signal_kind p = kNone → change p = kRemove → input_ok p c = true → follows p c.
Proof.
  unfold follows, input_ok, ConvertPointerData. intros Hk Hc. rewrite Hk, Hc.
  intros [st Hst]%bool_decide_eq_true. rewrite (existing_state_Some _ _ _ Hst). cbn [mbind result_bind].
  set (start := if isDown st then _ else _).
  assert (Hstart : ∃ cancels st1 c1, start ⇓ (cancels, st1, c1) ∧ monitor_run cancels c = Some c1 ∧
    states_ c1 !! device p = Some st1 ∧ isDown st1 = false ∧ pointer_ c1 = pointer_ c).
  { subst start. destruct (isDown st) eqn:Hd; [|by eexists _, _, _].
    eexists _, _, _. split; [done|]. split; [|split; [apply states_set_state|done]].
    cbn [monitor_run]. unfold monitor. cbn [signal_kind change device with_identifier synthesize]. rewrite Hk, Hst.
    cbn [mbind option_bind]. unfold monitor_known. cbn. by rewrite Hd, orb_true_r, Z.eqb_refl. }
  destruct Hstart as (cancels & st1 & c1 & -> & Hm & Hst1 & Hd1 & Hp1). cbn [mbind result_bind].
  destruct (sync_location kHover p st1 c1) as [[hovers st2] c2] eqn:Hs.
  apply sync_location_monitor in Hs as (Hm2 & Hst2 & Hp2 & Hat & Hd2 & Hid); [|done|done|by left].
  eexists _, _. split; [done|]. split; [|cbn; lia].
  rewrite monitor_run_app, Hm. cbn [mbind option_bind].
  rewrite monitor_run_app, Hm2. cbn [mbind option_bind monitor_run].
  unfold monitor. rewrite Hk, Hc, Hst2. cbn [mbind option_bind]. unfold monitor_known.
  by rewrite Hc, Hd2, Hd1, Hat.
Qed.

Lemma scroll_follows p c :
  signal_kind p = kScroll → input_ok p c = true → scroll_identified p c → follows p c.
Proof.
  unfold follows, input_ok, ConvertPointerData. intros Hk. rewrite Hk.
  assert (Hin : match change p with | _ => bool_decide (is_Some (states_ c !! device p)) end = true →
    is_Some (states_ c !! device p)) by (destruct (change p); apply bool_decide_eq_true).
  intros Hok Hid. destruct (states_ c !! device p) as [st|] eqn:Hst; [|by destruct (change p)].
  rewrite (existing_state_Some _ _ _ Hst). cbn [mbind result_bind].
  set (sync := if LocationNeedsUpdate p st then _ else _).
  assert (Hsync : ∃ moves st1 c1, sync = (moves, st1, c1) ∧ monitor_run moves c = Some c1 ∧
    states_ c1 !! device p = Some st1 ∧ at_location p st1 = true ∧ pointer_ c1 = pointer_ c).
  { subst sync. destruct (LocationNeedsUpdate p st) eqn:Hn; cycle 1.
    { eexists _, _, _. split; [done|]. split_and!; try done. by apply at_location_same. }
    pose proof (sync_location_monitor (if isDown st then kMove else kHover) (without_signal p) st c) as Hs.
    unfold sync_location in Hs. change (LocationNeedsUpdate (without_signal p) st) with (LocationNeedsUpdate p st) in Hs.
    rewrite Hn in Hs. destruct (isDown st) eqn:Hd; cbn in Hs |- *;
      (edestruct Hs as (? & ? & ? & ? & _); [done|done|done| |]).
    - right. split_and!; [done|done|]. by apply (Hid st).
    - eexists _, _, _. by split_and!.
    - by left.
    - eexists _, _, _. by split_and!. }
  destruct Hsync as (moves & st1 & c1 & -> & Hm & Hst1 & Hat & Hp).
  eexists _, _. split; [done|]. split; [|lia]. rewrite monitor_run_app, Hm. cbn [mbind option_bind monitor_run].
  unfold monitor. rewrite Hk. destruct (change p); rewrite Hst1; cbn; by rewrite Hat.
Qed.

Lemma convert_follows p c :
  input_ok p c = true → scroll_identified p c → - 2 ^ 63 ≤ pointer_ c < 2 ^ 63 - 1 → follows p c.
Proof.
  intros Hok Hscroll Hroom. destruct (signal_kind p) eqn:Hk.
  - destruct (change p) eqn:Hc.
    + by apply cancel_follows.
    + by apply add_follows.
    + by apply remove_follows.
    + by apply hover_follows.
    + by apply down_follows.
    + by apply move_follows.
    + by apply up_follows.
    + unfold follows, ConvertPointerData. rewrite Hk, Hc. eexists _, _. split; [done|].
      cbn. unfold monitor. rewrite Hk, Hc. split; [done|lia].
  - by apply scroll_follows.
  - unfold follows, ConvertPointerData. rewrite Hk. eexists _, _. split; [done|]. split; [done|lia].
Qed.

Fixpoint inputs_ok (ps : list PointerData) (c : Converter) : Prop :=
  match ps with
  | [] => True
  | p :: ps => input_ok p c = true ∧ scroll_identified p c ∧
      ∀ out c', ConvertPointerData p c ⇓ (out, c') → inputs_ok ps c'
  end.

(** ** Packets *)

Definition packet_of (ps : list PointerData) : Packet := concat (store_PointerData <$> ps).

Lemma length_packet_of ps : length (packet_of ps) = (length ps * sizeof_PointerData)%nat.
Proof.
  induction ps as [|p ps IH]; [done|]. unfold packet_of in *. cbn [fmap list_fmap concat].
  rewrite length_app, length_store_PointerData, IH. cbn [length]. lia.
Qed.

Lemma packet_events_of ps rest :
  Forall PointerData_ok ps → packet_events (length ps) (packet_of ps ++ rest) = Some ps.
Proof.
  induction 1 as [|p ps Hp _ IH]; [done|]. cbn [length packet_events].
  unfold packet_of. cbn [fmap list_fmap concat]. rewrite <- app_assoc, load_store by done.
  cbn [mbind option_bind]. rewrite drop_app_length' by by rewrite length_store_PointerData.
  unfold packet_of in IH. by rewrite IH.
Qed.

Lemma write_events_packet ps done_ tail i :
  length done_ = (i * sizeof_PointerData)%nat → length tail = (length ps * sizeof_PointerData)%nat →
  write_events i ps (done_ ++ tail) ⇓ done_ ++ packet_of ps.
Proof.
  revert i done_ tail. induction ps as [|p ps IH]; intros i done_ tail Hd Ht; cbn [write_events].
  - destruct tail; [done|]. cbn in Ht. lia.
  - unfold SetPointerData. rewrite length_app, Hd, Ht. cbn [length].
    rewrite (proj2 (Nat.leb_le _ _)) by lia. cbn [mbind result_bind].
    rewrite take_app_length' by done.
    rewrite drop_app_ge by lia. rewrite Hd.
    replace (i * sizeof_PointerData + sizeof_PointerData - i * sizeof_PointerData)%nat
      with sizeof_PointerData by lia.
    cbn [mret result_ret mbind result_bind]. rewrite (app_assoc done_ (store_PointerData p)), IH.
    + unfold packet_of. cbn [fmap list_fmap concat]. by rewrite app_assoc.
    + rewrite length_app, length_store_PointerData. lia.
    + rewrite length_drop, Ht. cbn [length]. lia.
Qed.

(** Conversion of acceptable events returns what a receiver accepts. *)
Lemma convert_all_clean ps c :
  inputs_ok ps c → - 2 ^ 63 ≤ pointer_ c → pointer_ c + Z.of_nat (length ps) < 2 ^ 63 →
  ∃ out c', convert_all ps c ⇓ (out, c') ∧ monitor_run out c = Some c'.
Proof.
  revert c. induction ps as [|p ps IH]; intros c Hok Hlo Hhi; [by exists [], c|].
  destruct Hok as (Hp & Hs & Hrest). cbn [length] in Hhi.
  destruct (convert_follows p c Hp Hs) as (out & c1 & He & Hm & Hptr); [lia|].
  destruct (IH c1) as (outs & c2 & He2 & Hm2); [by eapply Hrest|lia|lia|].
  exists (out ++ outs), c2. split.
  - cbn [convert_all]. rewrite He. cbn [mbind result_bind]. by rewrite He2.
  - by rewrite monitor_run_app, Hm.
Qed.

(** ** Claims *)

(** On every packet whose events satisfy the preconditions the converter
    asserts, conversion returns, and the converted stream follows the pointer
    protocol: a receiver that checks it event by event (transitions,
    locations, deltas, fresh identifiers) accepts all of it and ends in the
    converter's own state. *)
Theorem pointer_stream_clean ps c :
  inputs_ok ps c → - 2 ^ 63 ≤ pointer_ c → pointer_ c + Z.of_nat (length ps) < 2 ^ 63 →
  ∃ out c', convert_all ps c ⇓ (out, c') ∧ monitor_run out c = Some c'.
Proof. apply convert_all_clean. Qed.

(** [Convert] is the conversion of the events its packet encodes: reading
    the events from the bytes, converting them in order and writing the
    result loses and reorders nothing. *)
Theorem convert_packet ps c out c' :
  Forall PointerData_ok ps → convert_all ps c ⇓ (out, c') →
  Convert (packet_of ps) c ⇓ (packet_of out, c') ∧
  (Forall PointerData_ok out → packet_events (length out) (packet_of out) = Some out).
Proof.
  intros Hps Hout. split.
  - unfold Convert. rewrite length_packet_of, Nat.div_mul by done.
    pose proof (packet_events_of ps [] Hps) as He. rewrite app_nil_r in He. rewrite He.
    cbn [of_option mbind result_bind]. rewrite Hout. cbn [mbind result_bind].
    pose proof (write_events_packet out [] (new_packet (length out)) 0) as Hw. cbn [app] in Hw.
    rewrite Hw; [done|done|]. unfold new_packet. by rewrite length_replicate.
  - intros Ho. pose proof (packet_events_of out [] Ho) as He. by rewrite app_nil_r in He.
Qed.
End converter.

(** ** Concrete runs *)

#[local] Instance pointer_debug_build : Build := {| debug := true |}.
#[local] Instance pointer_float_env : FloatEnv := {| nan_bits := 0x7ff8000000000000 |}.

Definition event (ch : Change) (k : SignalKind) (dev : Z) (x y : double) : PointerData :=
  mkPointerData 0 ch 0 k dev 0 x y 0 0 1 0 0 0 0 0 0 0 0 0 0 0 0 0 0 0 0 0.

(** A press that starts without an add, jumps, and ends with a removal while
    the device is still down. *)
Definition rough_gesture : list PointerData :=
  [event kDown kNone 7 d1 d1; event kMove kNone 7 d3 d1; event kRemove kNone 7 d3 d2].

Definition last_converter (ps : list PointerData) : Converter :=
  match convert_all ps new_converter with Ok (_, c) => c | Fault _ => new_converter end.
Definition converted (ps : list PointerData) : list PointerData :=
  match convert_all ps new_converter with Ok (out, _) => out | Fault _ => [] end.

Lemma pointer_stream_clean_witness :
  ∃ out c', convert_all rough_gesture new_converter ⇓ (out, c') ∧
    monitor_run out new_converter = Some c'.
Proof.
  apply pointer_stream_clean; [|done|done].
  split; [done|]. split; [by intros ?|]. intros out c' [= <- <-].
  split; [done|]. split; [by intros ?|]. intros out c' [= <- <-].
  split; [done|]. split; [by intros ?|]. done.
Defined.

Lemma convert_packet_witness :
  Convert (packet_of rough_gesture) new_converter ⇓
    (packet_of (converted rough_gesture), last_converter rough_gesture) ∧
  (Forall PointerData_ok (converted rough_gesture) →
   packet_events (length (converted rough_gesture)) (packet_of (converted rough_gesture)) =
     Some (converted rough_gesture)).
Proof.
  apply convert_packet; [|by vm_compute].
  repeat constructor; vm_compute; congruence.
Defined.

(** A scroll while the device is down, at a new location, is preceded by
    a synthesized move that carries the raw event's identifier instead of the
    press's, so the receiver refuses the stream. *)
Theorem scroll_move_wrong_identifier :
  ∃ c mv rest c',
    c = last_converter [event kDown kNone 7 d1 d1] ∧
    ConvertPointerData (event kCancel kScroll 7 d2 d1) c ⇓ (mv :: rest, c') ∧
    change mv = kMove ∧ signal_kind mv = kNone ∧ pointer_identifier mv = 0 ∧
    ps_identifier <$> states_ c !! 7 = Some 1 ∧
    monitor_run (mv :: rest) c = None.
Proof. eexists _, _, _, _. repeat (split; [vm_compute; reflexivity|]). vm_compute. reflexivity. Qed.
