(* ===== verification/PointerDispatcher.v ===== *)
(** * PointerDispatcher: smoothing pointer packets over vsyncs

    Model of [flutter::DefaultPointerDataDispatcher] and
    [flutter::SmoothPointerDataDispatcher]
    (shell/common/pointer_data_dispatcher.{h,cc}).  The delegate's
    [DoDispatchPacket] is the log [sent]; its [ScheduleSecondaryVsyncCallback]
    goes to the vsync waiter, whose signal posts the callback to the UI
    thread. *)

From Stdlib Require Import ZArith Lia.
From stdpp Require Import base sorting gmap numbers list.
From S2P Require Import Prelude Time TaskQueues VsyncWaiter.

Local Open Scope Z_scope.

Section dispatcher.
Context `{Build} {P : Type}.

(** [pending_trace_flow_id_] is an [int], although the ids are [uint64_t]. *)
Record Smooth := mkSmooth {
  pending_packet_ : option P;
  pending_trace_flow_id_ : Z;
  is_pointer_data_in_progress_ : bool;
  vsync_waiter : VsyncWaiter unit;
  posted : nat;
  sent : list (P * Z);
}.

Definition new_smooth : Smooth := mkSmooth None (-1) false new_waiter 0 [].

Definition DefaultDispatchPacket (packet : P) (trace_flow_id : Z) (s : Smooth) : Smooth :=
  mkSmooth (pending_packet_ s) (pending_trace_flow_id_ s) (is_pointer_data_in_progress_ s)
    (vsync_waiter s) (posted s) (sent s ++ [(packet, wrapU 64 trace_flow_id)]).

Definition set_pending (packet : option P) (id : Z) (s : Smooth) : Smooth :=
  mkSmooth packet id (is_pointer_data_in_progress_ s) (vsync_waiter s) (posted s) (sent s).
Definition set_in_progress (b : bool) (s : Smooth) : Smooth :=
  mkSmooth (pending_packet_ s) (pending_trace_flow_id_ s) b (vsync_waiter s) (posted s) (sent s).
Definition set_waiter (w : VsyncWaiter unit) (n : nat) (s : Smooth) : Smooth :=
  mkSmooth (pending_packet_ s) (pending_trace_flow_id_ s) (is_pointer_data_in_progress_ s) w n (sent s).

(** The closure is the same each time: it is given the code 0. *)
Definition SmoothScheduleSecondary (s : Smooth) : result Smooth :=
  w ← ScheduleSecondaryCallback true (Some 0%nat) (vsync_waiter s);
  mret (set_waiter w (posted s) s).

Definition DispatchPendingPacket (s : Smooth) : result Smooth :=
  _ ← fml_dcheck (bool_decide (is_Some (pending_packet_ s)));
  _ ← fml_dcheck (is_pointer_data_in_progress_ s);
  packet ← of_option NullDeref (pending_packet_ s);
  SmoothScheduleSecondary (set_pending None (-1)
    (DefaultDispatchPacket packet (pending_trace_flow_id_ s) s)).

Definition SmoothDispatchPacket (packet : P) (trace_flow_id : Z) (s : Smooth) : result Smooth :=
  s ← (if is_pointer_data_in_progress_ s then
         s ← (if bool_decide (is_Some (pending_packet_ s)) then DispatchPendingPacket s else mret s);
         mret (set_pending (Some packet) (wrapS 32 trace_flow_id) s)
       else
         _ ← fml_dcheck (negb (bool_decide (is_Some (pending_packet_ s))));
         mret (DefaultDispatchPacket packet trace_flow_id s));
  SmoothScheduleSecondary (set_in_progress true s).

(** The scheduled closure. *)
Definition on_secondary_vsync (s : Smooth) : result Smooth :=
  if is_pointer_data_in_progress_ s then
    if bool_decide (is_Some (pending_packet_ s)) then DispatchPendingPacket s
    else mret (set_in_progress false s)
  else mret s.

(** A vsync signal posts the closure; the UI thread runs it. *)
Definition smooth_vsync (t1 t2 : TimePoint.t) (s : Smooth) : Smooth :=
  let '(tasks, w) := vsync t1 t2 (vsync_waiter s) in
  set_waiter w (posted s + length tasks) s.

Definition run_posted (s : Smooth) : result Smooth :=
  match posted s with
  | O => mret s
  | S n => on_secondary_vsync (set_waiter (vsync_waiter s) n s)
  end.

(** Runs of the dispatcher, with the packets it has been given. *)
Inductive smooth_reachable : list P → Smooth → Prop :=
  | smooth_new : smooth_reachable [] new_smooth
  | smooth_dispatch ps s p id s' :
      smooth_reachable ps s → SmoothDispatchPacket p id s ⇓ s' → smooth_reachable (ps ++ [p]) s'
  | smooth_signal ps s t1 t2 :
      smooth_reachable ps s → 0 < awaited (vsync_waiter s) → smooth_reachable ps (smooth_vsync t1 t2 s)
  | smooth_run ps s s' : smooth_reachable ps s → run_posted s ⇓ s' → smooth_reachable ps s'.

(** ** Invariant *)

Record smooth_inv (ps : list P) (s : Smooth) : Prop := {
  inv_order : (sent s).*1 ++ option_list (pending_packet_ s) = ps;
  inv_pending : is_Some (pending_packet_ s) → is_pointer_data_in_progress_ s = true;
  inv_scheduled : is_pointer_data_in_progress_ s = true →
    is_Some (secondary_callback_ (vsync_waiter s)) ∨ (0 < posted s)%nat;
  inv_waiter : waiter_inv (vsync_waiter s) ∧ callback_ (vsync_waiter s) = None;
}.

Lemma schedule_ok s :
  waiter_inv (vsync_waiter s) → callback_ (vsync_waiter s) = None →
  ∃ w, SmoothScheduleSecondary s ⇓ set_waiter w (posted s) s ∧
    is_Some (secondary_callback_ w) ∧ waiter_inv w ∧ callback_ w = None.
Proof.
  intros Hw Hc. unfold SmoothScheduleSecondary, ScheduleSecondaryCallback. rewrite fml_dcheck_true.
  cbn [mbind result_bind]. eexists. split; [done|].
  unfold waiter_inv, waiting in *. destruct (vsync_waiter s) as [cb [c|] n]; cbn in *; subst cb; cbn in *.
  - split_and!; [by eexists|done|done].
  - split_and!; [by eexists|lia|done].
Qed.

Lemma DispatchPending_inv ps s :
  smooth_inv ps s → is_Some (pending_packet_ s) →
  ∃ s', DispatchPendingPacket s ⇓ s' ∧ smooth_inv ps s' ∧ pending_packet_ s' = None ∧
    is_pointer_data_in_progress_ s' = true.
Proof.
  intros [Ho Hp Hs [Hw Hc]] Hsome. pose proof (Hp Hsome) as Hprog. destruct Hsome as [p Hpk].
  unfold DispatchPendingPacket. rewrite bool_decide_eq_true_2, Hprog, !fml_dcheck_true by eauto.
  cbn [mbind result_bind]. rewrite Hpk. cbn [of_option mbind result_bind].
  edestruct schedule_ok as (w & He & Hsec & Hw' & Hc'); [| |rewrite He].
  - exact Hw.
  - exact Hc.
  - eexists. split; [done|]. split; [|split; [done|exact Hprog]]. split; cbn.
    + rewrite fmap_app. cbn. rewrite app_nil_r. by rewrite <- Ho, Hpk.
    + by intros [? ?].
    + auto.
    + auto.
Qed.

Lemma Dispatch_inv ps s p id :
  smooth_inv ps s → ∃ s', SmoothDispatchPacket p id s ⇓ s' ∧ smooth_inv (ps ++ [p]) s'.
Proof.
  intros Hi. unfold SmoothDispatchPacket.
  set (first := if is_pointer_data_in_progress_ s then _ else _).
  assert (Hfirst : ∃ s1, first ⇓ s1 ∧ (sent s1).*1 ++ option_list (pending_packet_ s1) = ps ++ [p] ∧
    waiter_inv (vsync_waiter s1) ∧ callback_ (vsync_waiter s1) = None).
  { subst first. destruct (is_pointer_data_in_progress_ s) eqn:Hprog.
    - destruct (decide (is_Some (pending_packet_ s))) as [Hsome|Hnone].
      + rewrite bool_decide_eq_true_2 by done.
        destruct (DispatchPending_inv ps s Hi Hsome) as (s1 & -> & [Ho _ _ Hw] & Hnil & _).
        eexists. split; [done|]. split; [|exact Hw]. cbn. rewrite Hnil in Ho. cbn in Ho.
        by rewrite app_nil_r in Ho; rewrite Ho.
      + rewrite bool_decide_eq_false_2 by done. destruct Hi as [Ho _ _ Hw].
        eexists. split; [done|]. split; [|exact Hw]. cbn.
        apply eq_None_not_Some in Hnone. rewrite Hnone in Ho. cbn in Ho. by rewrite app_nil_r in Ho; rewrite Ho.
    - destruct Hi as [Ho Hp _ Hw]. assert (Hnone : pending_packet_ s = None).
      { apply eq_None_not_Some. intros Hsome. by rewrite Hp in Hprog. }
      rewrite Hnone in Ho |- *. cbn. rewrite fml_dcheck_true. cbn. eexists. split; [done|].
      split; [|exact Hw]. cbn. rewrite Hnone, fmap_app. cbn in *. rewrite app_nil_r in Ho |- *. by rewrite Ho. }
  destruct Hfirst as (s1 & -> & Ho & Hw & Hc). cbn [mbind result_bind].
  edestruct (schedule_ok (set_in_progress true s1)) as (w & He & Hsec & Hw' & Hc'); [done|done|].
  rewrite He. eexists. split; [done|]. split; cbn; auto.
Qed.

Lemma secondary_inv ps s :
  smooth_inv ps s → ((0 < posted s)%nat) → ∃ s', run_posted s ⇓ s' ∧ smooth_inv ps s' ∧
    (is_pointer_data_in_progress_ s = true → pending_packet_ s = None →
     is_pointer_data_in_progress_ s' = false) ∧
    pending_packet_ s' = None ∧ (is_Some (pending_packet_ s) → is_pointer_data_in_progress_ s' = true) ∧
    (is_pointer_data_in_progress_ s = false → is_pointer_data_in_progress_ s' = false).
Proof.
  intros Hi Hpos. unfold run_posted. destruct (posted s) as [|n] eqn:Hn; [lia|].
  unfold on_secondary_vsync. cbn [is_pointer_data_in_progress_ set_waiter pending_packet_].
  destruct Hi as [Ho Hp Hs [Hw Hc]]. destruct (is_pointer_data_in_progress_ s) eqn:Hprog.
  - destruct (decide (is_Some (pending_packet_ s))) as [Hsome|Hnone].
    + rewrite bool_decide_eq_true_2 by done. destruct Hsome as [p Hpk].
      unfold DispatchPendingPacket. cbn. rewrite Hpk, bool_decide_eq_true_2, Hprog, !fml_dcheck_true by eauto.
      cbn [mbind result_bind of_option].
      edestruct schedule_ok as (w & He & Hsec & Hw' & Hc'); [| |rewrite He].
      * exact Hw.
      * exact Hc.
      * eexists. split; [done|]. split_and!; try done. split; cbn.
        -- rewrite fmap_app. cbn. rewrite app_nil_r. by rewrite <- Ho, Hpk.
        -- by intros [? ?].
        -- auto.
        -- auto.
    + rewrite bool_decide_eq_false_2 by done. apply eq_None_not_Some in Hnone.
      eexists. split; [done|]. split_and!; try done. 2: by rewrite Hnone; intros [? ?].
      split; cbn; [done| |done|done]. rewrite Hnone. by intros [? ?].
  - assert (Hnone : pending_packet_ s = None).
    { apply eq_None_not_Some. intros Hsome. specialize (Hp Hsome). congruence. }
    eexists. split; [done|]. split_and!; try done; cbn.
    + split; cbn; [done| | |done]; rewrite ?Hprog; [|done]. rewrite Hnone. by intros [? ?].
    + rewrite Hnone. by intros [? ?].
Qed.

Lemma smooth_vsync_inv ps s t1 t2 :
  smooth_inv ps s → 0 < awaited (vsync_waiter s) →
  smooth_inv ps (smooth_vsync t1 t2 s) ∧ (0 < posted (smooth_vsync t1 t2 s))%nat ∧
  pending_packet_ (smooth_vsync t1 t2 s) = pending_packet_ s ∧
  is_pointer_data_in_progress_ (smooth_vsync t1 t2 s) = is_pointer_data_in_progress_ s.
Proof.
  intros [Ho Hp Hs [Hw Hc]] Hpos. pose proof (vsync_inv t1 t2 _ Hw Hpos) as Hw'.
  unfold smooth_vsync, vsync, FireCallback in *. rewrite Hc in *. cbn in *.
  assert (Hsec : is_Some (secondary_callback_ (vsync_waiter s))).
  { unfold waiter_inv, waiting in Hw. rewrite Hc in Hw. cbn in Hw.
    destruct (secondary_callback_ (vsync_waiter s)); [by eexists|]. cbn in Hw. lia. }
  destruct Hsec as [code Hcode]. rewrite Hcode in *. cbn in *.
  split_and!; [|lia|done|done]. split; cbn; [done|done|lia|done].
Qed.

Lemma smooth_reachable_inv ps s : smooth_reachable ps s → smooth_inv ps s.
Proof.
  induction 1 as [|ps s p id s' _ IH He|ps s t1 t2 _ IH Hpos|ps s s' _ IH He].
  - split; cbn; [done|by intros [? ?]|done|done].
  - destruct (Dispatch_inv ps s p id IH) as (s1 & He1 & Hi). rewrite He in He1. by injection He1 as ->.
  - by apply smooth_vsync_inv.
  - destruct (decide (0 < posted s)%nat) as [Hpos|Hz].
    + destruct (secondary_inv ps s IH Hpos) as (s1 & He1 & Hi & _). rewrite He in He1. by injection He1 as ->.
    + unfold run_posted in He. destruct (posted s); [|lia]. by injection He as <-.
Qed.

(** What happens next without further input: a posted closure runs; else the
    vsync that was asked for arrives first. *)
Definition next_round (t1 t2 : TimePoint.t) (s : Smooth) : result Smooth :=
  if (0 <? posted s)%nat then run_posted s
  else if 0 <? awaited (vsync_waiter s) then run_posted (smooth_vsync t1 t2 s)
  else mret s.

Lemma next_round_ok ps s t1 t2 :
  smooth_inv ps s →
  ∃ s', next_round t1 t2 s ⇓ s' ∧ smooth_inv ps s' ∧ pending_packet_ s' = None ∧
    (pending_packet_ s = None → is_pointer_data_in_progress_ s' = false).
Proof.
  intros Hi. unfold next_round. destruct (Nat.ltb_spec 0 (posted s)) as [Hpos|Hz].
  - destruct (secondary_inv ps s Hi Hpos) as (s' & He & Hi' & H1 & H2 & _ & H3). exists s'.
    split_and!; try done. intros Hn. destruct (is_pointer_data_in_progress_ s); auto.
  - destruct (Z.ltb_spec 0 (awaited (vsync_waiter s))) as [Ha|Ha].
    + destruct (smooth_vsync_inv ps s t1 t2 Hi Ha) as (Hi1 & Hpos & Hpk & Hpr).
      destruct (secondary_inv ps _ Hi1 Hpos) as (s' & He & Hi' & H1 & H2 & _ & H3). exists s'.
      rewrite Hpk, Hpr in *. split_and!; try done. intros Hn. destruct (is_pointer_data_in_progress_ s); auto.
    + assert (Hidle : is_pointer_data_in_progress_ s = false).
      { destruct (is_pointer_data_in_progress_ s) eqn:Hpr; [|done]. destruct Hi as [_ _ Hs [Hw Hc]].
        destruct (Hs Hpr) as [[code Hcode]|?]; [|lia]. unfold waiter_inv, waiting in Hw.
        rewrite Hc, Hcode in Hw. cbn in Hw. lia. }
      exists s. split_and!; try done. destruct (pending_packet_ s) eqn:Hpk; [|done].
      rewrite (inv_pending _ _ Hi) in Hidle; [done|]. by rewrite Hpk.
Qed.

(** ** Claims *)

(** The smoothing dispatcher neither drops, duplicates nor reorders
    packets: those delivered, followed by the one pending, are those it was
    given; and while data is in progress a secondary vsync callback is
    registered or posted, so a pending packet is never stranded. *)
Theorem smooth_in_order ps s :
  smooth_reachable ps s →
  (sent s).*1 ++ option_list (pending_packet_ s) = ps ∧
  (is_Some (pending_packet_ s) →
   is_Some (secondary_callback_ (vsync_waiter s)) ∨ (0 < posted s)%nat).
Proof. intros [Ho Hp Hs _]%smooth_reachable_inv. auto. Qed.

(** Without further input two rounds (a vsync and the run of its closure
    each) deliver everything and end the smoothing. *)
Theorem smooth_drains ps s t1 t2 t3 t4 :
  smooth_reachable ps s →
  ∃ s1 s2, next_round t1 t2 s ⇓ s1 ∧ next_round t3 t4 s1 ⇓ s2 ∧ (sent s2).*1 = ps ∧
    pending_packet_ s2 = None ∧ is_pointer_data_in_progress_ s2 = false.
Proof.
  intros Hi%smooth_reachable_inv. destruct (next_round_ok ps s t1 t2 Hi) as (s1 & He1 & Hi1 & Hn1 & _).
  destruct (next_round_ok ps s1 t3 t4 Hi1) as (s2 & He2 & Hi2 & Hn2 & Hidle). exists s1, s2.
  split_and!; try done; [|by apply Hidle]. pose proof (inv_order _ _ Hi2) as Ho.
  rewrite Hn2 in Ho. cbn in Ho. by rewrite app_nil_r in Ho.
Qed.
End dispatcher.
Arguments Smooth P : clear implicits.

(** ** Concrete runs *)

#[local] Instance dispatcher_debug_build : Build := {| debug := true |}.

Definition three_packets : result (Smooth nat) :=
  s ← SmoothDispatchPacket 1%nat 11 new_smooth;
  s ← SmoothDispatchPacket 2%nat 12 s;
  SmoothDispatchPacket 3%nat 13 s.

Lemma three_packets_reachable s : three_packets ⇓ s → smooth_reachable [1; 2; 3]%nat s.
Proof.
  unfold three_packets. intros (s1 & H1 & Hr)%bind_Ok. apply bind_Ok in Hr as (s2 & H2 & H3).
  apply (smooth_dispatch [1; 2]%nat s2 3%nat 13); [|done].
  apply (smooth_dispatch [1]%nat s1 2%nat 12); [|done].
  apply (smooth_dispatch [] new_smooth 1%nat 11); [constructor|done].
Qed.

Definition three_packets_state : Smooth nat :=
  match three_packets with Ok s => s | Fault _ => new_smooth end.

Lemma three_packets_ok : three_packets ⇓ three_packets_state.
Proof. vm_compute. reflexivity. Qed.

Lemma smooth_in_order_witness :
  (sent three_packets_state).*1 ++ option_list (pending_packet_ three_packets_state) = [1; 2; 3]%nat ∧
  (is_Some (pending_packet_ three_packets_state) →
   is_Some (secondary_callback_ (vsync_waiter three_packets_state)) ∨ (0 < posted three_packets_state)%nat).
Proof. apply smooth_in_order. exact (three_packets_reachable _ three_packets_ok). Defined.

Lemma smooth_drains_witness :
  ∃ s1 s2, next_round 100 116 three_packets_state ⇓ s1 ∧ next_round 200 216 s1 ⇓ s2 ∧
    (sent s2).*1 = [1; 2; 3]%nat ∧
    pending_packet_ s2 = None ∧ is_pointer_data_in_progress_ s2 = false.
Proof. apply smooth_drains. exact (three_packets_reachable _ three_packets_ok). Defined.

(** A packet held back for smoothing loses the upper bits of its trace
    flow id, which is kept in an [int]: id [2^32 + 5] is delivered as 5. *)
Theorem smooth_trace_id_truncated :
  ∃ s1 s2 s3, SmoothDispatchPacket 1%nat 11 new_smooth ⇓ s1 ∧
    SmoothDispatchPacket 2%nat (2 ^ 32 + 5) s1 ⇓ s2 ∧ next_round 100 116 s2 ⇓ s3 ∧
    sent s3 = [(1%nat, 11); (2%nat, 5)].
Proof. eexists _, _, _. repeat (split; [vm_compute; reflexivity|]). vm_compute. reflexivity. Qed.
