(* ===== verification/EncodableValue.v ===== *)
(** * EncodableValue: the values of the standard codec

    Model of [flutter::EncodableValue]
    (shell/platform/common/cpp/client_wrapper/include/flutter/encodable_value.h):
    the tagged union, its accessors and the order that makes it a map key.
    A [std::map] is the list of its pairs in key order. *)

From Stdlib Require Import ZArith Lia SpecFloat.
From stdpp Require Import base sorting gmap numbers list.
From S2P Require Import Prelude StdMap Float64.

Local Open Scope Z_scope.

#[local] Set Warnings "-register-all".

Inductive EncodableValue :=
  | EVNull
  | EVBool (b : bool)
  | EVInt (z : Z)
  | EVLong (z : Z)
  | EVDouble (d : double)
  | EVString (s : list Z)
  | EVByteList (l : list Z)
  | EVIntList (l : list Z)
  | EVLongList (l : list Z)
  | EVDoubleList (l : list double)
  | EVList (l : list EncodableValue)
  | EVMap (m : list (EncodableValue * EncodableValue)).

Abbreviation EncodableList := (list EncodableValue).
Abbreviation EncodableMap := (list (EncodableValue * EncodableValue)).

(** [EncodableValue::Type] *)
Inductive EVType :=
  | TNull | TBool | TInt | TLong | TDouble | TString | TByteList | TIntList | TLongList
  | TDoubleList | TList | TMap.

#[export] Instance EVType_eq_dec : EqDecision EVType.
Proof. solve_decision. Defined.

Definition type_of (v : EncodableValue) : EVType :=
  match v with
  | EVNull => TNull | EVBool _ => TBool | EVInt _ => TInt | EVLong _ => TLong
  | EVDouble _ => TDouble | EVString _ => TString | EVByteList _ => TByteList
  | EVIntList _ => TIntList | EVLongList _ => TLongList | EVDoubleList _ => TDoubleList
  | EVList _ => TList | EVMap _ => TMap
  end.

(** The constructor from a [Type]. *)
Definition default_value (t : EVType) : EncodableValue :=
  match t with
  | TNull => EVNull | TBool => EVBool false | TInt => EVInt 0 | TLong => EVLong 0
  | TDouble => EVDouble d0 | TString => EVString [] | TByteList => EVByteList []
  | TIntList => EVIntList [] | TLongList => EVLongList [] | TDoubleList => EVDoubleList []
  | TList => EVList [] | TMap => EVMap []
  end.

(** ** Accessors: reading another member of the union is undefined *)

Definition BoolValue (v : EncodableValue) : result bool :=
  match v with EVBool b => mret b | _ => Fault UndefinedBehaviour end.
Definition IntValue (v : EncodableValue) : result Z :=
  match v with EVInt z => mret z | _ => Fault UndefinedBehaviour end.
Definition LongValue (v : EncodableValue) : result Z :=
  match v with EVLong z => mret z | EVInt z => mret z | _ => Fault UndefinedBehaviour end.
Definition DoubleValue (v : EncodableValue) : result double :=
  match v with EVDouble d => mret d | _ => Fault UndefinedBehaviour end.
Definition StringValue (v : EncodableValue) : result (list Z) :=
  match v with EVString s => mret s | _ => Fault UndefinedBehaviour end.
Definition ByteListValue (v : EncodableValue) : result (list Z) :=
  match v with EVByteList l => mret l | _ => Fault UndefinedBehaviour end.
Definition IntListValue (v : EncodableValue) : result (list Z) :=
  match v with EVIntList l => mret l | _ => Fault UndefinedBehaviour end.
Definition LongListValue (v : EncodableValue) : result (list Z) :=
  match v with EVLongList l => mret l | _ => Fault UndefinedBehaviour end.
Definition DoubleListValue (v : EncodableValue) : result (list double) :=
  match v with EVDoubleList l => mret l | _ => Fault UndefinedBehaviour end.
Definition ListValue (v : EncodableValue) : result EncodableList :=
  match v with EVList l => mret l | _ => Fault UndefinedBehaviour end.
Definition MapValue (v : EncodableValue) : result EncodableMap :=
  match v with EVMap m => mret m | _ => Fault UndefinedBehaviour end.
Definition IsString (v : EncodableValue) : bool := bool_decide (type_of v = TString).

(** ** Order *)

(** [type_ < other.type_] compares the enumerators. *)
Definition type_rank (t : EVType) : Z :=
  match t with
  | TNull => 0 | TBool => 1 | TInt => 2 | TLong => 3 | TDouble => 4 | TString => 5
  | TByteList => 6 | TIntList => 7 | TLongList => 8 | TDoubleList => 9 | TList => 10 | TMap => 11
  end.

(** [std::string::operator<]: by unsigned bytes, a proper prefix first. *)
Fixpoint string_ltb (a b : list Z) : bool :=
  match a, b with
  | _, [] => false
  | [], _ :: _ => true
  | x :: a, y :: b => if x <? y then true else if y <? x then false else string_ltb a b
  end.

Section order.
(** Collections compare by address, which their value does not determine. *)
Context (addr_lt : EncodableValue → EncodableValue → bool).

Definition ev_ltb (v w : EncodableValue) : bool :=
  if negb (bool_decide (type_of v = type_of w)) then type_rank (type_of v) <? type_rank (type_of w)
  else
    match v, w with
    | EVNull, _ => false
    | EVBool a, EVBool b => negb a && b
    | EVInt a, EVInt b => a <? b
    | EVLong a, EVLong b => a <? b
    | EVDouble a, EVDouble b => SFltb (to_sf a) (to_sf b)
    | EVString a, EVString b => string_ltb a b
    | _, _ => addr_lt v w
    end.

(** [std::map::emplace]. *)
Definition map_emplace (key value : EncodableValue) (m : EncodableMap) : EncodableMap :=
  StdMap.emplace ev_ltb key value m.
End order.

(** ** Induction through the nested collections *)

Section induction.
Context (P : EncodableValue → Prop).
Context (Hscalar : ∀ v, (∀ l, v ≠ EVList l) → (∀ m, v ≠ EVMap m) → P v).
Context (Hlist : ∀ l, Forall P l → P (EVList l)).
Context (Hmap : ∀ m, Forall (λ kv, P kv.1 ∧ P kv.2) m → P (EVMap m)).

Fixpoint EncodableValue_nested_ind (v : EncodableValue) : P v.
Proof using Hscalar Hlist Hmap.
  destruct v as [| | | | | | | | | |l|m]; try (apply Hscalar; congruence).
  - apply Hlist. induction l as [|v l IH]; constructor; [apply EncodableValue_nested_ind|apply IH].
  - apply Hmap. induction m as [|[k v] m IH]; constructor; [|apply IH].
    split; apply EncodableValue_nested_ind.
Qed.
End induction.
