(* ===== verification/StandardCodec.v ===== *)
(** * StandardCodec: the standard message and method codecs

    Model of [StandardCodecSerializer], [StandardMessageCodec] and
    [StandardMethodCodec]
    (shell/platform/common/cpp/client_wrapper/standard_codec.cc) over the byte
    streams of byte_stream_wrappers.h.  A writer is its buffer; a reader is
    the bytes and the read location.  What the allocator can give is a
    parameter, and so is the order of collections as keys, which the code
    compares by address: it may differ from map to map.  [ReadValue] recurses on nested
    collections: its fuel bounds the nesting, and [read_fuel] (one more than
    the bytes left) is always enough. *)

From Stdlib Require Import ZArith Lia.
From stdpp Require Import base sorting gmap numbers list.
From S2P Require Import Prelude StdMap Bytes Float64 EncodableValue.

Local Open Scope Z_scope.

(** ** Byte streams *)

Record Reader := mkReader { bytes_ : list Z; location_ : nat }.

(** A read past the end returns 0 and stays; [bytes_[location_]] of a location
    outside the buffer would be out of bounds. *)
Definition ReadByte (r : Reader) : result (Z * Reader) :=
  if (length (bytes_ r) <=? location_ r)%nat then mret (0, r)
  else
    byte ← of_option OutOfBounds (bytes_ r !! location_ r);
    mret (byte, mkReader (bytes_ r) (S (location_ r))).

(** [memcpy] of [n] bytes from [offset]. *)
Definition memcpy_from (bytes : list Z) (offset : nat) (n : Z) : result (list Z) :=
  if Z.of_nat (length bytes) <? Z.of_nat offset + n then Fault OutOfBounds
  else mret (take (Z.to_nat n) (drop offset bytes)).

(** A read past the end leaves the caller's buffer as it is ([None]).
    [location_ + length] does not wrap: no caller asks for [2^36] bytes. *)
Definition ReadBytes (n : Z) (r : Reader) : result (option (list Z) * Reader) :=
  if Z.of_nat (length (bytes_ r)) <? Z.of_nat (location_ r) + n then mret (None, r)
  else
    buffer ← memcpy_from (bytes_ r) (location_ r) n;
    mret (Some buffer, mkReader (bytes_ r) (location_ r + Z.to_nat n)).

Definition ReadAlignment (alignment : nat) (r : Reader) : Reader :=
  let mod_ := (location_ r mod alignment)%nat in
  if (mod_ =? 0)%nat then r else mkReader (bytes_ r) (location_ r + (alignment - mod_)).

Section codec.
(** [addr_lt n] compares the addresses of a key that is inserted when the reader
    is at [n] and of a key in the map; [can_allocate] says whether memory for so
    many bytes can be had. *)
Context `{Build} (addr_lt : nat → EncodableValue → EncodableValue → bool) (can_allocate : Z → bool).

(** [resize] and [reserve]: no memory is an exception. *)
Definition allocate (bytes : Z) : result unit :=
  if (bytes =? 0) || can_allocate bytes then mret tt else Fault BadAlloc.

Definition sizeof_EncodableValue : Z := 16.

Definition WriteByte (byte : Z) (buffer : list Z) : list Z := buffer ++ [byte].
(** [assert(length > 0)] *)
Definition WriteBytes (bytes : list Z) (buffer : list Z) : result (list Z) :=
  _ ← fml_dcheck (0 <? length bytes)%nat; mret (buffer ++ bytes).
Definition WriteAlignment (alignment : nat) (buffer : list Z) : list Z :=
  let mod_ := (length buffer mod alignment)%nat in
  if (mod_ =? 0)%nat then buffer else buffer ++ replicate (alignment - mod_) 0.

(** ** [StandardCodecSerializer] *)

Definition kNullT : Z := 0.
Definition kTrueT : Z := 1.
Definition kFalseT : Z := 2.
Definition kInt32T : Z := 3.
Definition kInt64T : Z := 4.
Definition kLargeIntT : Z := 5.
Definition kFloat64T : Z := 6.
Definition kStringT : Z := 7.
Definition kUInt8ListT : Z := 8.
Definition kInt32ListT : Z := 9.
Definition kInt64ListT : Z := 10.
Definition kFloat64ListT : Z := 11.
Definition kListT : Z := 12.
Definition kMapT : Z := 13.

Definition EncodedTypeForValue (v : EncodableValue) : Z :=
  match v with
  | EVNull => kNullT
  | EVBool b => if b then kTrueT else kFalseT
  | EVInt _ => kInt32T
  | EVLong _ => kInt64T
  | EVDouble _ => kFloat64T
  | EVString _ => kStringT
  | EVByteList _ => kUInt8ListT
  | EVIntList _ => kInt32ListT
  | EVLongList _ => kInt64ListT
  | EVDoubleList _ => kFloat64ListT
  | EVList _ => kListT
  | EVMap _ => kMapT
  end.

Definition WriteSize (size : Z) (buffer : list Z) : result (list Z) :=
  if size <? 254 then mret (WriteByte size buffer)
  else if size <=? 0xffff then WriteBytes (le_bytes 2 size) (WriteByte 254 buffer)
  else WriteBytes (le_bytes 4 size) (WriteByte 255 buffer).

(** The two- and four-byte sizes are read into uninitialized variables: when
    the bytes are missing, the value used is indeterminate. *)
Definition ReadSize (r : Reader) : result (Z * Reader) :=
  '(byte, r) ← ReadByte r;
  if byte <? 254 then mret (byte, r)
  else
    '(bytes, r) ← ReadBytes (if byte =? 254 then 2 else 4) r;
    value ← of_option UndefinedBehaviour bytes;
    mret (le_value value, r).

(** The element types of the typed lists. *)
Inductive Elem := U8 | I32 | I64 | F64.
Definition elem_size (t : Elem) : nat := match t with U8 => 1 | I32 => 4 | I64 | F64 => 8 end.
Definition elem_load (t : Elem) (l : list Z) : Z :=
  match t with U8 | F64 => le_value l | I32 => wrapS 32 (le_value l) | I64 => wrapS 64 (le_value l) end.
Definition elem_list (t : Elem) (l : list Z) : EncodableValue :=
  match t with U8 => EVByteList l | I32 => EVIntList l | I64 => EVLongList l | F64 => EVDoubleList l end.

Fixpoint elem_loads (t : Elem) (n : nat) (l : list Z) : list Z :=
  match n with
  | O => []
  | S n => elem_load t (take (elem_size t) l) :: elem_loads t n (drop (elem_size t) l)
  end.

Definition elem_stores (t : Elem) (l : list Z) : list Z := concat (le_bytes (elem_size t) <$> l).

(** [ReadVector<T>]: the vector is resized (to zeros) before it is read. *)
Definition ReadVector (t : Elem) (r : Reader) : result (EncodableValue * Reader) :=
  '(count, r) ← ReadSize r;
  _ ← allocate (count * Z.of_nat (elem_size t));
  let r := if (1 <? elem_size t)%nat then ReadAlignment (elem_size t) r else r in
  '(bytes, r) ← ReadBytes (count * Z.of_nat (elem_size t)) r;
  mret (elem_list t (match bytes with
                     | Some l => elem_loads t (Z.to_nat count) l
                     | None => replicate (Z.to_nat count) 0
                     end), r).

Definition WriteVector (t : Elem) (l : list Z) (buffer : list Z) : result (list Z) :=
  buffer ← WriteSize (Z.of_nat (length l)) buffer;
  if (length l =? 0)%nat then mret buffer
  else
    let buffer := if (1 <? elem_size t)%nat then WriteAlignment (elem_size t) buffer else buffer in
    WriteBytes (elem_stores t l) buffer.

Fixpoint WriteValue (v : EncodableValue) (buffer : list Z) : result (list Z) :=
  let buffer := WriteByte (EncodedTypeForValue v) buffer in
  match v with
  | EVNull | EVBool _ => mret buffer
  | EVInt z => WriteBytes (le_bytes 4 z) buffer
  | EVLong z => WriteBytes (le_bytes 8 z) buffer
  | EVDouble d => WriteBytes (le_bytes 8 d) (WriteAlignment 8 buffer)
  | EVString s =>
      buffer ← WriteSize (Z.of_nat (length s)) buffer;
      if (0 <? length s)%nat then WriteBytes s buffer else mret buffer
  | EVByteList l => WriteVector U8 l buffer
  | EVIntList l => WriteVector I32 l buffer
  | EVLongList l => WriteVector I64 l buffer
  | EVDoubleList l => WriteVector F64 l buffer
  | EVList l =>
      buffer ← WriteSize (Z.of_nat (length l)) buffer;
      (fix write_items (l : EncodableList) (buffer : list Z) : result (list Z) :=
         match l with
         | [] => mret buffer
         | item :: l => buffer ← WriteValue item buffer; write_items l buffer
         end) l buffer
  | EVMap m =>
      buffer ← WriteSize (Z.of_nat (length m)) buffer;
      (fix write_pairs (m : EncodableMap) (buffer : list Z) : result (list Z) :=
         match m with
         | [] => mret buffer
         | (k, v) :: m =>
             buffer ← WriteValue k buffer; buffer ← WriteValue v buffer; write_pairs m buffer
         end) m buffer
  end.

(** Zero when the bytes are missing: the variables are initialized. *)
Definition read_int (w : Z) (n : Z) (r : Reader) : result (Z * Reader) :=
  '(bytes, r) ← ReadBytes n r;
  mret (match bytes with Some l => wrapS w (le_value l) | None => 0 end, r).

(** The loops over the items of a list and the pairs of a map. *)
Fixpoint read_items (read : Reader → result (EncodableValue * Reader)) (n : nat) (l : EncodableList)
    (r : Reader) : result (EncodableList * Reader) :=
  match n with
  | O => mret (l, r)
  | S n => '(v, r) ← read r; read_items read n (l ++ [v]) r
  end.
Fixpoint read_pairs (read : Reader → result (EncodableValue * Reader)) (n : nat) (m : EncodableMap)
    (r : Reader) : result (EncodableMap * Reader) :=
  match n with
  | O => mret (m, r)
  | S n =>
      '(key, r) ← read r; '(value, r) ← read r;
      read_pairs read n (map_emplace (addr_lt (location_ r)) key value m) r
  end.

Definition ReadString (r : Reader) : result (EncodableValue * Reader) :=
  '(size, r) ← ReadSize r;
  _ ← allocate size;
  '(bytes, r) ← ReadBytes size r;
  mret (EVString (match bytes with Some l => l | None => replicate (Z.to_nat size) 0 end), r).

Fixpoint ReadValue (fuel : nat) (r : Reader) : result (EncodableValue * Reader) :=
  match fuel with
  | O => Fault OutOfFuel
  | S fuel =>
      '(type, r) ← ReadByte r;
      match type with
      | 0 => mret (EVNull, r)
      | 1 => mret (EVBool true, r)
      | 2 => mret (EVBool false, r)
      | 3 => '(z, r) ← read_int 32 4 r; mret (EVInt z, r)
      | 4 => '(z, r) ← read_int 64 8 r; mret (EVLong z, r)
      | 6 =>
          '(bytes, r) ← ReadBytes 8 (ReadAlignment 8 r);
          mret (EVDouble (match bytes with Some l => le_value l | None => 0 end), r)
      | 5 | 7 => ReadString r
      | 8 => ReadVector U8 r
      | 9 => ReadVector I32 r
      | 10 => ReadVector I64 r
      | 11 => ReadVector F64 r
      | 12 =>
          '(length, r) ← ReadSize r;
          _ ← allocate (length * sizeof_EncodableValue);
          '(l, r) ← read_items (ReadValue fuel) (Z.to_nat length) [] r;
          mret (EVList l, r)
      | 13 =>
          '(length, r) ← ReadSize r;
          '(m, r) ← read_pairs (ReadValue fuel) (Z.to_nat length) [] r;
          mret (EVMap m, r)
      | _ => mret (EVNull, r)
      end
  end.

(** Enough for every nesting the remaining bytes can hold. *)
Definition read_fuel (r : Reader) : nat := S (length (bytes_ r) - location_ r).

(** ** [StandardMessageCodec] *)

Definition DecodeMessageInternal (message : list Z) : result EncodableValue :=
  let r := mkReader message 0 in
  '(v, _) ← ReadValue (read_fuel r) r; mret v.
Definition EncodeMessageInternal (message : EncodableValue) : result (list Z) := WriteValue message [].

(** ** [StandardMethodCodec] *)

Record MethodCall := mkMethodCall { method_name : list Z; arguments : option EncodableValue }.

Definition DecodeMethodCallInternal (message : list Z) : result (option MethodCall) :=
  let r := mkReader message 0 in
  '(name, r) ← ReadValue (read_fuel r) r;
  if negb (IsString name) then mret None
  else
    '(args, _) ← ReadValue (read_fuel r) r;
    name ← StringValue name;
    mret (Some (mkMethodCall name (Some args))).

(** A missing value is written as null. *)
Definition write_optional (v : option EncodableValue) (buffer : list Z) : result (list Z) :=
  match v with Some v => WriteValue v buffer | None => WriteValue EVNull buffer end.

Definition EncodeMethodCallInternal (c : MethodCall) : result (list Z) :=
  buffer ← WriteValue (EVString (method_name c)) []; write_optional (arguments c) buffer.

Definition EncodeSuccessEnvelopeInternal (result_ : option EncodableValue) : result (list Z) :=
  write_optional result_ (WriteByte 0 []).

Definition EncodeErrorEnvelopeInternal (error_code error_message : list Z)
    (error_details : option EncodableValue) : result (list Z) :=
  buffer ← WriteValue (EVString error_code) (WriteByte 1 []);
  buffer ← (match error_message with
            | [] => WriteValue EVNull buffer
            | _ => WriteValue (EVString error_message) buffer
            end);
  write_optional error_details buffer.
End codec.
