(* ===== verification/StandardCodecProofs.v ===== *)
(** * StandardCodecProofs: the standard codec, its format and its round trips

    [wire] is the format of a message, independent of the reader: decoding
    follows it on every message that starts with it, encoding produces it, and
    on any other bytes decoding ends with a value or one of two named faults. *)

From Stdlib Require Import ZArith Lia.
From stdpp Require Import base sorting gmap numbers list.
From S2P Require Import Prelude StdMap Bytes Float64 EncodableValue StandardCodec.

Local Open Scope Z_scope.
#[local] Set Warnings "-register-all".

(** ** A reader between what it has read and what is left *)

Definition rd (pre rest : list Z) : Reader := mkReader (pre ++ rest) (length pre).

Lemma rd_app pre l rest : mkReader (pre ++ l ++ rest) (length pre + length l) = rd (pre ++ l) rest.
Proof. unfold rd. by rewrite length_app, <- app_assoc. Qed.

Lemma ReadByte_rd pre b rest : ReadByte (rd pre (b :: rest)) ⇓ (b, rd (pre ++ [b]) rest).
Proof.
  unfold ReadByte, rd. cbn [bytes_ location_]. rewrite length_app. cbn [length].
  destruct (Nat.leb_spec (length pre + S (length rest)) (length pre)); [lia|].
  rewrite lookup_app_r, Nat.sub_diag by lia. cbn. rewrite length_app, <- app_assoc. cbn. by rewrite Nat.add_1_r.
Qed.

Lemma ReadBytes_rd n pre l rest :
  n = Z.of_nat (length l) → ReadBytes n (rd pre (l ++ rest)) ⇓ (Some l, rd (pre ++ l) rest).
Proof.
  intros ->. unfold ReadBytes, memcpy_from. rewrite Nat2Z.id. cbn [bytes_ location_ rd].
  rewrite !length_app. destruct (Z.ltb_spec (Z.of_nat (length pre + (length l + length rest)))
    (Z.of_nat (length pre) + Z.of_nat (length l))); [lia|].
  cbn [mbind result_bind mret result_ret]. by rewrite drop_app_length, take_app_length, rd_app.
Qed.

Definition pad (alignment : nat) (pre : list Z) : list Z :=
  if (length pre mod alignment =? 0)%nat then []
  else replicate (alignment - length pre mod alignment) 0.

Lemma WriteAlignment_pad a pre : WriteAlignment a pre = pre ++ pad a pre.
Proof. unfold WriteAlignment, pad. case_match; [by rewrite app_nil_r|done]. Qed.

(** The bytes up to the next multiple of [alignment]. *)
Definition padding (alignment pos : nat) : nat :=
  if (pos mod alignment =? 0)%nat then 0 else alignment - pos mod alignment.

Lemma length_pad a pre : length (pad a pre) = padding a (length pre).
Proof. unfold pad, padding. case_match; [done|]. apply length_replicate. Qed.

Lemma ReadAlignment_rd a pre p rest :
  length p = padding a (length pre) → ReadAlignment a (rd pre (p ++ rest)) = rd (pre ++ p) rest.
Proof.
  unfold ReadAlignment, padding. cbn [location_ bytes_ rd]. case_match; intros Hp.
  - destruct p; [|done]. by rewrite app_nil_r.
  - by rewrite <- rd_app, Hp.
Qed.

(** ** What can be encoded *)

Definition size_ok {A} (l : list A) : Prop := Z.of_nat (length l) < 2 ^ 32.

Definition elem_ok (t : Elem) (z : Z) : Prop :=
  match t with
  | U8 => 0 ≤ z < 256 | I32 => - 2 ^ 31 ≤ z < 2 ^ 31 | I64 => - 2 ^ 63 ≤ z < 2 ^ 63
  | F64 => 0 ≤ z < 2 ^ 64
  end.

Section proofs.
Context `{Build} (addr_lt : nat → EncodableValue → EncodableValue → bool) (can_allocate : Z → bool).
Local Abbreviation ReadValue := (StandardCodec.ReadValue addr_lt can_allocate).
Local Abbreviation DecodeMessageInternal := (StandardCodec.DecodeMessageInternal addr_lt can_allocate).

(** Memory for so many bytes can be had. *)
Definition room (bytes : Z) : Prop := bytes = 0 ∨ can_allocate bytes = true.

Lemma allocate_room bytes : room bytes → allocate can_allocate bytes ⇓ tt.
Proof. unfold allocate. intros [-> | ->]; [done|]. by rewrite orb_true_r. Qed.

(** Values of the declared widths, collections of less than [2^32] items that
    memory can be had for, maps in key order (also where keys are collections,
    which compare by the addresses the decoder's keys will have), and no empty
    list of multi-byte elements. *)
Inductive codable : EncodableValue → Prop :=
  | codable_null : codable EVNull
  | codable_bool b : codable (EVBool b)
  | codable_int z : - 2 ^ 31 ≤ z < 2 ^ 31 → codable (EVInt z)
  | codable_long z : - 2 ^ 63 ≤ z < 2 ^ 63 → codable (EVLong z)
  | codable_double d : 0 ≤ d < 2 ^ 64 → codable (EVDouble d)
  | codable_string s : size_ok s → room (Z.of_nat (length s)) → codable (EVString s)
  | codable_vector t l : size_ok l → room (Z.of_nat (length l) * Z.of_nat (elem_size t)) → Forall (elem_ok t) l → (t = U8 ∨ l ≠ []) → codable (elem_list t l)
  | codable_list l : size_ok l → room (Z.of_nat (length l) * sizeof_EncodableValue) → Forall codable l → codable (EVList l)
  | codable_map m :
      size_ok m → Forall (λ kv, codable kv.1 ∧ codable kv.2) m →
      (∀ n, StdMap.ordered (ev_ltb (addr_lt n)) m) → codable (EVMap m).

(** [v] has the encoding [enc] after [pre], and reads back. *)
Definition encodes (v : EncodableValue) (pre enc : list Z) : Prop :=
  WriteValue v pre ⇓ pre ++ enc ∧ (0 < length enc)%nat ∧
  ∀ fuel rest, (length enc ≤ fuel)%nat →
    ReadValue fuel (rd pre (enc ++ rest)) ⇓ (v, rd (pre ++ enc) rest).

Lemma WriteBytes_ok l pre : (0 < length l)%nat → WriteBytes l pre ⇓ pre ++ l.
Proof. intros Hl. unfold WriteBytes. by rewrite (proj2 (Nat.ltb_lt _ _) Hl), fml_dcheck_true. Qed.

(** ** Sizes *)

Definition size_enc (n : Z) : list Z :=
  if n <? 254 then [n] else if n <=? 0xffff then 254 :: le_bytes 2 n else 255 :: le_bytes 4 n.

Lemma size_enc_pos n : (0 < length (size_enc n))%nat.
Proof. unfold size_enc. repeat case_match; cbn; lia. Qed.

Lemma WriteSize_enc n pre : WriteSize n pre ⇓ pre ++ size_enc n.
Proof.
  unfold WriteSize, size_enc, WriteByte. case_match; [done|].
  case_match; rewrite WriteBytes_ok by (rewrite length_le_bytes; lia); by rewrite <- app_assoc.
Qed.

Lemma ReadSize_enc n pre rest :
  0 ≤ n < 2 ^ 32 → ReadSize (rd pre (size_enc n ++ rest)) ⇓ (n, rd (pre ++ size_enc n) rest).
Proof.
  intros Hn. unfold ReadSize, size_enc. destruct (Z.ltb_spec n 254).
  { cbn [app]. rewrite ReadByte_rd. cbn [mbind result_bind]. by rewrite (proj2 (Z.ltb_lt _ _)). }
  destruct (Z.leb_spec n 0xffff); cbn [app]; rewrite ReadByte_rd; cbn [mbind result_bind Z.ltb Z.compare];
    cbn -[ReadBytes le_bytes app rd mbind]; cbn [mbind result_bind].
  - rewrite ReadBytes_rd by (by rewrite length_le_bytes). cbn -[le_bytes app rd le_value].
    rewrite le_bytes_unsigned, <- app_assoc by (cbn; lia). done.
  - rewrite ReadBytes_rd by (by rewrite length_le_bytes). cbn -[le_bytes app rd le_value].
    rewrite le_bytes_unsigned, <- app_assoc by (cbn; lia). done.
Qed.

(** ** Typed lists *)

Lemma elem_load_store t z : elem_ok t z → elem_load t (le_bytes (elem_size t) z) = z.
Proof.
  destruct t; cbn [elem_ok elem_load elem_size]; intros Hz.
  - apply le_bytes_unsigned. cbn. lia.
  - apply (le_bytes_signed 4); [lia|done].
  - apply (le_bytes_signed 8); [lia|done].
  - apply le_bytes_unsigned. cbn. lia.
Qed.

Lemma elem_loads_stores t l : Forall (elem_ok t) l → elem_loads t (length l) (elem_stores t l) = l.
Proof.
  induction 1 as [|z l Hz _ IH]; [done|]. unfold elem_stores in *. cbn [length fmap list_fmap concat elem_loads].
  rewrite take_app_length', drop_app_length' by (by rewrite length_le_bytes).
  by rewrite elem_load_store, IH.
Qed.

Lemma length_elem_stores t l : length (elem_stores t l) = (length l * elem_size t)%nat.
Proof.
  induction l as [|z l IH]; [done|]. unfold elem_stores in *. cbn [fmap list_fmap concat length].
  rewrite length_app, length_le_bytes, IH. lia.
Qed.

Lemma elem_size_pos t : (0 < elem_size t)%nat.
Proof. destruct t; cbn; lia. Qed.

(** What [WriteVector] emits after the size. *)
Definition vector_pad (t : Elem) (pre : list Z) : list Z :=
  if (1 <? elem_size t)%nat then pad (elem_size t) pre else [].

Lemma WriteVector_enc t l pre :
  l ≠ [] →
  let p := pre ++ size_enc (Z.of_nat (length l)) in
  WriteVector t l pre ⇓ p ++ vector_pad t p ++ elem_stores t l.
Proof.
  intros Hl p. unfold WriteVector. rewrite WriteSize_enc. cbn [mbind result_bind]. fold p.
  destruct l as [|z l]; [done|]. cbn [length Nat.eqb]. unfold vector_pad. case_match.
  - rewrite WriteAlignment_pad, WriteBytes_ok; [by rewrite <- app_assoc|].
    rewrite length_elem_stores. pose proof (elem_size_pos t). cbn. lia.
  - rewrite WriteBytes_ok; [done|]. rewrite length_elem_stores. pose proof (elem_size_pos t). cbn. lia.
Qed.

Lemma ReadVector_enc t l pre rest :
  size_ok l → room (Z.of_nat (length l) * Z.of_nat (elem_size t)) → Forall (elem_ok t) l →
  let p := pre ++ size_enc (Z.of_nat (length l)) in
  ReadVector can_allocate t (rd pre (size_enc (Z.of_nat (length l)) ++ vector_pad t p ++ elem_stores t l ++ rest)) ⇓
    (elem_list t l, rd (p ++ vector_pad t p ++ elem_stores t l) rest).
Proof.
  intros Hs Hroom He p. unfold ReadVector. unfold size_ok in Hs. rewrite ReadSize_enc by lia.
  cbn [mbind result_bind]. rewrite allocate_room by done. cbn [mbind result_bind]. fold p.
  set (r := if (1 <? elem_size t)%nat then _ else _).
  assert (Hr : r = rd (p ++ vector_pad t p) (elem_stores t l ++ rest)).
  { subst r. unfold vector_pad. case_match; [apply ReadAlignment_rd, length_pad|by rewrite app_nil_r]. }
  rewrite Hr, ReadBytes_rd by (rewrite length_elem_stores; lia). cbn [mbind result_bind mret result_ret].
  by rewrite Nat2Z.id, elem_loads_stores, <- app_assoc.
Qed.

Lemma WriteValue_vector t l pre :
  WriteValue (elem_list t l) pre = WriteVector t l (WriteByte (EncodedTypeForValue (elem_list t l)) pre).
Proof. by destruct t. Qed.

Lemma ReadValue_vector t l fuel pre rest :
  ReadValue (S fuel) (rd pre (EncodedTypeForValue (elem_list t l) :: rest)) =
  ReadVector can_allocate t (rd (pre ++ [EncodedTypeForValue (elem_list t l)]) rest).
Proof. cbn [StandardCodec.ReadValue]. rewrite ReadByte_rd. cbn [mbind result_bind]. by destruct t. Qed.

Lemma encodes_vector t l pre :
  size_ok l → room (Z.of_nat (length l) * Z.of_nat (elem_size t)) → Forall (elem_ok t) l → (t = U8 ∨ l ≠ []) → ∃ enc, encodes (elem_list t l) pre enc.
Proof.
  intros Hs Hroom He Hne. set (ty := EncodedTypeForValue (elem_list t l)).
  set (p := (pre ++ [ty]) ++ size_enc (Z.of_nat (length l))).
  exists ([ty] ++ size_enc (Z.of_nat (length l)) ++ vector_pad t p ++ elem_stores t l). split_and!.
  - rewrite WriteValue_vector. unfold WriteByte. fold ty.
    destruct l as [|z l].
    + destruct Hne as [->|?]; [|done]. unfold WriteVector. rewrite WriteSize_enc. cbn.
      by rewrite <- app_assoc.
    + rewrite WriteVector_enc by done. fold p. subst p. by rewrite <- !app_assoc.
  - cbn. lia.
  - intros [|fuel] rest Hf; [cbn in Hf; lia|]. cbn [app]. rewrite <- !app_assoc. fold ty.
    rewrite (ReadValue_vector t l). fold ty. pose proof (ReadVector_enc t l (pre ++ [ty]) rest Hs Hroom He) as Hr.
    cbn zeta in Hr. fold p in Hr. rewrite Hr. subst p. by rewrite <- !app_assoc.
Qed.

(** ** Scalars *)

Lemma encodes_scalar v pre :
  codable v → (∀ l, v ≠ EVList l) → (∀ m, v ≠ EVMap m) → ∃ enc, encodes v pre enc.
Proof.
  intros Hv Hl Hm. destruct Hv as [|b|z Hz|z Hz|d Hd|s Hs Hroom|t l Hs Hroom He Hne|l Hs _ _|m Hs _ _].
  - exists [kNullT]. split_and!; [done|cbn; lia|]. intros [|fuel] rest Hf; [cbn in Hf; lia|].
    cbn [app StandardCodec.ReadValue]. by rewrite ReadByte_rd.
  - exists [if b then kTrueT else kFalseT]. split_and!; [done|cbn; lia|].
    intros [|fuel] rest Hf; [cbn in Hf; lia|]. cbn [app StandardCodec.ReadValue]. rewrite ReadByte_rd. cbn [mbind result_bind]. by destruct b.
  - exists (kInt32T :: le_bytes 4 z). split_and!; [|cbn; lia|].
    { cbn [WriteValue]. rewrite WriteBytes_ok by (rewrite length_le_bytes; lia).
      unfold WriteByte. by rewrite <- app_assoc. }
    intros [|fuel] rest Hf; [cbn in Hf; lia|]. cbn [app StandardCodec.ReadValue]. rewrite ReadByte_rd. cbn [mbind result_bind].
    cbn [kInt32T]. unfold read_int. rewrite ReadBytes_rd by (by rewrite length_le_bytes). cbn [mbind result_bind mret result_ret].
    rewrite (le_bytes_signed 4) by (lia || done). by rewrite <- app_assoc.
  - exists (kInt64T :: le_bytes 8 z). split_and!; [|cbn; lia|].
    { cbn [WriteValue]. rewrite WriteBytes_ok by (rewrite length_le_bytes; lia).
      unfold WriteByte. by rewrite <- app_assoc. }
    intros [|fuel] rest Hf; [cbn in Hf; lia|]. cbn [app StandardCodec.ReadValue]. rewrite ReadByte_rd. cbn [mbind result_bind].
    cbn [kInt64T]. unfold read_int. rewrite ReadBytes_rd by (by rewrite length_le_bytes). cbn [mbind result_bind mret result_ret].
    rewrite (le_bytes_signed 8) by (lia || done). by rewrite <- app_assoc.
  - set (p := pre ++ [kFloat64T]). exists (kFloat64T :: pad 8 p ++ le_bytes 8 d). split_and!; [|cbn; lia|].
    { cbn [WriteValue EncodedTypeForValue]. unfold WriteByte. fold p.
      rewrite WriteAlignment_pad, WriteBytes_ok by (rewrite length_le_bytes; lia).
      subst p. by rewrite <- !app_assoc. }
    intros [|fuel] rest Hf; [cbn in Hf; lia|]. cbn [app StandardCodec.ReadValue]. rewrite ReadByte_rd. cbn [mbind result_bind]. fold p.
    cbn [kFloat64T]. rewrite <- app_assoc, ReadAlignment_rd by apply length_pad. rewrite ReadBytes_rd by (by rewrite length_le_bytes).
    cbn [mbind result_bind].
    rewrite (le_bytes_unsigned 8) by done. subst p. by rewrite <- !app_assoc.
  - exists (kStringT :: size_enc (Z.of_nat (length s)) ++ s). split_and!; [|cbn; lia|].
    { cbn [WriteValue EncodedTypeForValue]. rewrite WriteSize_enc. cbn [mbind result_bind]. unfold WriteByte.
      case_match eqn:Hlen.
      - apply Nat.ltb_lt in Hlen. rewrite WriteBytes_ok by done. by rewrite <- !app_assoc.
      - destruct s; [|done]. rewrite app_nil_r, <- app_assoc. done. }
    intros [|fuel] rest Hf; [cbn in Hf; lia|]. cbn [app StandardCodec.ReadValue]. rewrite ReadByte_rd. cbn [mbind result_bind].
    cbn [kStringT]. unfold ReadString, size_ok in *. rewrite <- app_assoc, ReadSize_enc by lia.
    cbn [mbind result_bind]. rewrite allocate_room by done. cbn [mbind result_bind]. rewrite ReadBytes_rd by done.
    cbn [mbind result_bind]. by rewrite <- !app_assoc.
  - by apply encodes_vector.
  - by destruct (Hl l).
  - by destruct (Hm m).
Qed.

(** ** Collections *)

Lemma encodes_items l pre :
  Forall (λ v, ∀ pre, ∃ enc, encodes v pre enc) l →
  ∃ enc,
    (fix write_items (l : EncodableList) (buffer : list Z) : result (list Z) :=
       match l with
       | [] => mret buffer
       | item :: l => buffer ← WriteValue item buffer; write_items l buffer
       end) l pre ⇓ pre ++ enc ∧
    ∀ fuel acc rest, (length enc ≤ fuel)%nat →
      read_items (ReadValue fuel) (length l) acc (rd pre (enc ++ rest)) ⇓
        (acc ++ l, rd (pre ++ enc) rest).
Proof.
  intros Hl. revert pre. induction Hl as [|v l Hv _ IH]; intros pre.
  - exists []. rewrite app_nil_r. split; [done|]. intros. by rewrite app_nil_r.
  - destruct (Hv pre) as (e1 & Hw1 & _ & Hr1). destruct (IH (pre ++ e1)) as (e2 & Hw2 & Hr2).
    exists (e1 ++ e2). split.
    + rewrite Hw1. cbn [mbind result_bind]. rewrite Hw2. by rewrite <- app_assoc.
    + intros fuel acc rest Hf. rewrite length_app in Hf. cbn [length read_items].
      rewrite <- app_assoc, Hr1 by lia. cbn [mbind result_bind]. rewrite Hr2 by lia.
      by rewrite <- !app_assoc.
Qed.

Lemma encodes_pairs m pre :
  Forall (λ kv, (∀ pre, ∃ enc, encodes kv.1 pre enc) ∧ (∀ pre, ∃ enc, encodes kv.2 pre enc)) m →
  ∃ enc,
    (fix write_pairs (m : EncodableMap) (buffer : list Z) : result (list Z) :=
       match m with
       | [] => mret buffer
       | (k, v) :: m =>
           buffer ← WriteValue k buffer; buffer ← WriteValue v buffer; write_pairs m buffer
       end) m pre ⇓ pre ++ enc ∧
    ∀ fuel acc rest, (length enc ≤ fuel)%nat → (∀ n, StdMap.ordered (ev_ltb (addr_lt n)) (acc ++ m)) →
      read_pairs addr_lt (ReadValue fuel) (length m) acc (rd pre (enc ++ rest)) ⇓
        (acc ++ m, rd (pre ++ enc) rest).
Proof.
  intros Hm. revert pre. induction Hm as [|[k v] m [Hk Hv] _ IH]; intros pre.
  - exists []. rewrite app_nil_r. split; [done|]. intros. by rewrite app_nil_r.
  - cbn in Hk, Hv. destruct (Hk pre) as (e1 & Hw1 & _ & Hr1). destruct (Hv (pre ++ e1)) as (e2 & Hw2 & _ & Hr2).
    destruct (IH ((pre ++ e1) ++ e2)) as (e3 & Hw3 & Hr3). exists (e1 ++ e2 ++ e3). split.
    + rewrite Hw1. cbn [mbind result_bind]. rewrite Hw2. cbn [mbind result_bind]. rewrite Hw3.
      by rewrite <- !app_assoc.
    + intros fuel acc rest Hf Hord. rewrite !length_app in Hf. cbn [length read_pairs].
      rewrite <- !app_assoc, Hr1 by lia. cbn [mbind result_bind]. rewrite Hr2 by lia. cbn [mbind result_bind].
      unfold map_emplace. rewrite StdMap.emplace_snoc.
      * rewrite Hr3; [by rewrite <- !app_assoc|lia|intros n; by rewrite <- app_assoc].
      * match goal with |- Forall (λ b, ev_ltb (addr_lt ?n) _ _ = _) _ => specialize (Hord n) | _ => specialize (Hord 0%nat) end.
        apply StdMap.ordered_app in Hord as (_ & _ & Hall). eapply Forall_impl; [exact Hall|].
        intros b Hb. by apply Forall_cons in Hb as [? _].
Qed.

Lemma encodes_list l pre :
  size_ok l → room (Z.of_nat (length l) * sizeof_EncodableValue) → Forall (λ v, ∀ pre, ∃ enc, encodes v pre enc) l →
  ∃ enc, encodes (EVList l) pre enc.
Proof.
  intros Hs Hroom Hl. set (sz := size_enc (Z.of_nat (length l))).
  destruct (encodes_items l ((pre ++ [kListT]) ++ sz) Hl) as (enc & Hw & Hr).
  exists (kListT :: sz ++ enc). split_and!; [|cbn; lia|].
  - cbn [WriteValue EncodedTypeForValue]. unfold WriteByte. rewrite WriteSize_enc. cbn [mbind result_bind].
    fold sz. rewrite Hw. by rewrite <- !app_assoc.
  - intros [|fuel] rest Hf; [cbn in Hf; lia|]. cbn [app StandardCodec.ReadValue]. rewrite ReadByte_rd. cbn [mbind result_bind]. cbn [kListT].
    unfold size_ok in Hs. rewrite <- app_assoc. unfold sz at 1. rewrite ReadSize_enc by lia.
    cbn [mbind result_bind]. rewrite allocate_room by done. cbn [mbind result_bind]. fold sz. rewrite Nat2Z.id, Hr.
    + cbn [mbind result_bind]. by rewrite <- !app_assoc.
    + cbn in Hf. rewrite length_app in Hf. lia.
Qed.

Lemma encodes_map m pre :
  size_ok m → Forall (λ kv, (∀ pre, ∃ enc, encodes kv.1 pre enc) ∧ (∀ pre, ∃ enc, encodes kv.2 pre enc)) m →
  (∀ n, StdMap.ordered (ev_ltb (addr_lt n)) m) → ∃ enc, encodes (EVMap m) pre enc.
Proof.
  intros Hs Hm Hord. set (sz := size_enc (Z.of_nat (length m))).
  destruct (encodes_pairs m ((pre ++ [kMapT]) ++ sz) Hm) as (enc & Hw & Hr).
  exists (kMapT :: sz ++ enc). split_and!; [|cbn; lia|].
  - cbn [WriteValue EncodedTypeForValue]. unfold WriteByte. rewrite WriteSize_enc. cbn [mbind result_bind].
    fold sz. rewrite Hw. by rewrite <- !app_assoc.
  - intros [|fuel] rest Hf; [cbn in Hf; lia|]. cbn [app StandardCodec.ReadValue]. rewrite ReadByte_rd. cbn [mbind result_bind]. cbn [kMapT].
    unfold size_ok in Hs. rewrite <- app_assoc. unfold sz at 1. rewrite ReadSize_enc by lia.
    cbn [mbind result_bind]. fold sz. rewrite Nat2Z.id, Hr.
    + cbn [mbind result_bind]. by rewrite <- !app_assoc.
    + cbn in Hf. rewrite length_app in Hf. lia.
    + done.
Qed.

Lemma codable_encodes v pre : codable v → ∃ enc, encodes v pre enc.
Proof.
  revert pre. induction v as [v Hl Hm|l IH|m IH] using EncodableValue_nested_ind; intros pre Hv.
  - by apply encodes_scalar.
  - inversion Hv as [| | | | | |t l' Hs Hroom He Hne Heq|l' Hs Hroom Hc|]; [by destruct t|]. subst l'.
    apply encodes_list; [done|done|]. rewrite Forall_forall in IH, Hc |- *. auto.
  - inversion Hv as [| | | | | |t l' Hs Hroom He Hne Heq| |m' Hs Hc Hord]; [by destruct t|]. subst m'.
    apply encodes_map; [done| |done]. rewrite Forall_forall in IH, Hc |- *. intros kv Hkv.
    destruct (IH kv Hkv), (Hc kv Hkv). auto.
Qed.

Lemma read_fuel_rd pre enc rest : (length enc ≤ read_fuel (rd pre (enc ++ rest)))%nat.
Proof. unfold read_fuel, rd; cbn. rewrite !length_app. lia. Qed.

Lemma encodes_read v pre enc rest :
  encodes v pre enc →
  ReadValue (read_fuel (rd pre (enc ++ rest))) (rd pre (enc ++ rest)) ⇓ (v, rd (pre ++ enc) rest).
Proof. intros (_ & _ & Hr). apply Hr, read_fuel_rd. Qed.

(** ** Every message *)

Definition remaining (r : Reader) : nat := length (bytes_ r) - location_ r.

(** A two- or four-byte size is cut off by the end of the message. *)
Definition cut_off (bytes : list Z) : Prop :=
  ∃ i b, bytes !! i = Some b ∧ 254 ≤ b ∧ (length bytes < S i + (if (b =? 254)%Z then 2 else 4))%nat.

(** A read that returns without moving backwards, or stops at a size that is
    cut off, or for want of memory. *)
Definition steady {A} (r : Reader) (m : result (A * Reader)) : Prop :=
  (∃ a r', m ⇓ (a, r') ∧ bytes_ r' = bytes_ r ∧ (remaining r' ≤ remaining r)%nat) ∨
  (m ⇑ UndefinedBehaviour ∧ cut_off (bytes_ r)) ∨ (m ⇑ BadAlloc ∧ ∃ n, can_allocate n = false).

Lemma ReadByte_steady r :
  ∃ b r', ReadByte r ⇓ (b, r') ∧ bytes_ r' = bytes_ r ∧ (remaining r' ≤ remaining r)%nat ∧
    (b ≠ 0 → bytes_ r !! location_ r = Some b ∧ location_ r' = S (location_ r) ∧ (remaining r' < remaining r)%nat).
Proof.
  unfold ReadByte, remaining. destruct (Nat.leb_spec (length (bytes_ r)) (location_ r)) as [|Hlt]; [by eexists _, _|].
  destruct (lookup_lt_is_Some_2 (bytes_ r) (location_ r) Hlt) as [b Hb]. rewrite Hb. eexists _, _. split; [reflexivity|]. cbn.
  split; [done|]. split; [lia|]. intros _. split; [done|]. split; [done|lia].
Qed.

Lemma ReadBytes_steady n r :
  ∃ o r', ReadBytes n r ⇓ (o, r') ∧ bytes_ r' = bytes_ r ∧ (remaining r' ≤ remaining r)%nat ∧
    (o = None → Z.of_nat (length (bytes_ r)) < Z.of_nat (location_ r) + n).
Proof.
  unfold ReadBytes, memcpy_from, remaining. destruct (Z.ltb_spec (Z.of_nat (length (bytes_ r))) (Z.of_nat (location_ r) + n)) as [Hlt|Hge].
  - by eexists _, _.
  - eexists _, _. split; [reflexivity|]. cbn. split; [done|]. split; [lia|done].
Qed.

Lemma ReadAlignment_steady a r : bytes_ (ReadAlignment a r) = bytes_ r ∧ (remaining (ReadAlignment a r) ≤ remaining r)%nat.
Proof. unfold ReadAlignment, remaining. case_match; cbn; [done|]. split; [done|lia]. Qed.

Lemma steady_bind {A B} r (m : result (A * Reader)) (f : A → Reader → result (B * Reader)) :
  steady r m → (∀ a r', bytes_ r' = bytes_ r → (remaining r' ≤ remaining r)%nat → steady r' (f a r')) →
  steady r ('(a, r') ← m; f a r').
Proof.
  intros [(a & r' & -> & Hb & Hr)|[[-> ?]|[-> ?]]] Hf; [|by right; left|by right; right]. cbn.
  destruct (Hf a r' Hb Hr) as [(b & r2 & He & Hb2 & Hr2)|[[He Hc]|He]]; [left|right; left|right; right; done].
  - exists b, r2. split; [done|]. split; [congruence|lia].
  - split; [done|]. by rewrite <- Hb.
Qed.

Lemma steady_ret {A} r r' (a : A) : bytes_ r' = bytes_ r → (remaining r' ≤ remaining r)%nat → steady r (mret (a, r')).
Proof. left. by eexists _, _. Qed.

Lemma steady_from {A} r r' (m : result (A * Reader)) :
  bytes_ r' = bytes_ r → (remaining r' ≤ remaining r)%nat → steady r' m → steady r m.
Proof.
  intros Hb Hr [(a & r2 & -> & Hb2 & Hr2)|[[-> Hc]|Ha]]; [left|right; left|right; by right].
  - eexists _, _. split; [done|]. split; [congruence|lia].
  - split; [done|]. by rewrite <- Hb.
Qed.

Lemma steady_allocate {B} r n (m : result (B * Reader)) : steady r m → steady r (_ ← allocate can_allocate n; m).
Proof.
  intros Hm. unfold allocate. destruct ((n =? 0) || can_allocate n) eqn:Ha; [done|]. right. right. split; [done|].
  apply orb_false_iff in Ha as [_ Ha]. by exists n.
Qed.

Lemma steady_ReadBytes n r : steady r (ReadBytes n r).
Proof. destruct (ReadBytes_steady n r) as (o & r' & -> & Hb & Hr & _). by apply steady_ret. Qed.

Lemma ReadSize_steady r : steady r (ReadSize r).
Proof.
  unfold ReadSize. destruct (ReadByte_steady r) as (b & r1 & -> & Hb & Hle & Hn). cbn [mbind result_bind].
  destruct (Z.ltb_spec b 254) as [|Hge]; [by apply steady_ret|]. destruct Hn as (Hi & Hl & _); [lia|].
  destruct (ReadBytes_steady (if b =? 254 then 2 else 4) r1) as (o & r2 & -> & Hb2 & Hr2 & Hnone). cbn [mbind result_bind].
  destruct o as [l|]; cbn; [apply steady_ret; [congruence|lia]|]. right. left. split; [done|]. exists (location_ r), b.
  split; [done|]. split; [done|]. specialize (Hnone eq_refl). rewrite Hb, Hl in Hnone. by case_match; lia.
Qed.

Lemma ReadVector_steady t r : steady r (ReadVector can_allocate t r).
Proof.
  unfold ReadVector. apply steady_bind; [apply ReadSize_steady|]. intros count r1 Hb1 Hr1. apply steady_allocate.
  set (r2 := if (1 <? elem_size t)%nat then _ else _).
  assert (bytes_ r2 = bytes_ r1 ∧ remaining r2 ≤ remaining r1)%nat as [Hb2 Hr2]
    by (subst r2; case_match; [apply ReadAlignment_steady|done]).
  apply (steady_from r1 r2); [done|done|]. apply steady_bind; [apply steady_ReadBytes|]. intros. by apply steady_ret.
Qed.

Lemma ReadString_steady r : steady r (ReadString can_allocate r).
Proof.
  unfold ReadString. apply steady_bind; [apply ReadSize_steady|]. intros size r1 Hb1 Hr1. apply steady_allocate.
  apply steady_bind; [apply steady_ReadBytes|]. intros. by apply steady_ret.
Qed.

Lemma read_items_steady read n acc r :
  (∀ r', (remaining r' ≤ remaining r)%nat → steady r' (read r')) → steady r (read_items read n acc r).
Proof.
  revert acc r. induction n as [|n IH]; intros acc r Hread; cbn [read_items]; [by apply steady_ret|].
  apply steady_bind; [by apply Hread|]. intros v r' Hb' Hr'. apply IH. intros r2 Hr2. apply Hread. lia.
Qed.

Lemma read_pairs_steady read n acc r :
  (∀ r', (remaining r' ≤ remaining r)%nat → steady r' (read r')) → steady r (read_pairs addr_lt read n acc r).
Proof.
  revert acc r. induction n as [|n IH]; intros acc r Hread; cbn [read_pairs]; [by apply steady_ret|].
  apply steady_bind; [by apply Hread|]. intros k r1 Hb1 Hr1.
  apply steady_bind; [apply Hread; lia|]. intros v r2 Hb2 Hr2. apply IH. intros r3 Hr3. apply Hread. lia.
Qed.

Lemma ReadValue_steady fuel r : (remaining r < fuel)%nat → steady r (ReadValue fuel r).
Proof.
  revert r. induction fuel as [|fuel IH]; intros r Hf; [lia|]. cbn [StandardCodec.ReadValue].
  destruct (ReadByte_steady r) as (ty & r1 & -> & Hb & Hle & Hn). cbn [mbind result_bind].
  apply (steady_from r r1); [done|done|].
  assert (Hcoll : ty ≠ 0 → ∀ r', (remaining r' ≤ remaining r1)%nat → steady r' (ReadValue fuel r')).
  { intros Hty r' Hr'. apply IH. destruct (Hn Hty) as (_ & _ & ?). lia. }
  assert (Hdone : ∀ v : EncodableValue, steady r1 (mret (v, r1))) by (intros v; by apply steady_ret).
  assert (Hint : ∀ w n (c : Z → EncodableValue), steady r1 ('(z, r) ← read_int w n r1; mret (c z, r))).
  { intros w n c. apply steady_bind; [|intros; by apply steady_ret]. unfold read_int.
    apply steady_bind; [apply steady_ReadBytes|]. intros. by apply steady_ret. }
  assert (Hlist : ty ≠ 0 → steady r1 ('(length, r) ← ReadSize r1; _ ← allocate can_allocate (length * sizeof_EncodableValue);
    '(l, r) ← read_items (ReadValue fuel) (Z.to_nat length) [] r; mret (EVList l, r))).
  { intros Hty. apply steady_bind; [apply ReadSize_steady|]. intros n r2 Hb2 Hr2. apply steady_allocate.
    apply steady_bind; [apply read_items_steady; intros; apply Hcoll; [done|lia]|]. intros. by apply steady_ret. }
  assert (Hmap : ty ≠ 0 → steady r1 ('(length, r) ← ReadSize r1;
    '(m, r) ← read_pairs addr_lt (ReadValue fuel) (Z.to_nat length) [] r; mret (EVMap m, r))).
  { intros Hty. apply steady_bind; [apply ReadSize_steady|]. intros n r2 Hb2 Hr2.
    apply steady_bind; [apply read_pairs_steady; intros; apply Hcoll; [done|lia]|]. intros. by apply steady_ret. }
  assert (Hdbl : steady r1 ('(bytes, r) ← ReadBytes 8 (ReadAlignment 8 r1);
    mret (EVDouble (match bytes with Some l => le_value l | None => 0 end), r))).
  { destruct (ReadAlignment_steady 8 r1) as [Hb8 Hr8]. apply (steady_from r1 (ReadAlignment 8 r1)); [done|done|].
    apply steady_bind; [apply steady_ReadBytes|]. intros. by apply steady_ret. }
  pose proof (ReadString_steady r1) as Hstr. pose proof (λ t, ReadVector_steady t r1) as Hvec.
  clear Hcoll Hn. destruct ty as [|ty|ty]; [apply Hdone| |apply Hdone].
  do 4 (try (destruct ty as [ty|ty|])).
  all: first [apply Hdone|apply (Hint 32 4 EVInt)|apply (Hint 64 8 EVLong)|exact Hdbl|exact Hstr|
              apply Hvec|by apply Hlist|by apply Hmap].
Qed.

(** ** The format *)

(** The encodings of a size. *)
Inductive wire_size : Z → list Z → Prop :=
  | wire_size1 n : 0 ≤ n < 254 → wire_size n [n]
  | wire_size2 b : length b = 2%nat → wire_size (le_value b) (254 :: b)
  | wire_size4 b : length b = 4%nat → wire_size (le_value b) (255 :: b).

(** [wire pos v w]: the bytes [w], at the position [pos] of a message, stand
    for [v].  Sizes may be wider than they need to be, padding is arbitrary,
    unknown types stand for null, and of the pairs of a map with the same key
    the first one counts. *)
Inductive wire : nat → EncodableValue → list Z → Prop :=
  | wire_null pos : wire pos EVNull [0]
  | wire_true pos : wire pos (EVBool true) [1]
  | wire_false pos : wire pos (EVBool false) [2]
  | wire_int pos b : length b = 4%nat → wire pos (EVInt (wrapS 32 (le_value b))) (3 :: b)
  | wire_long pos b : length b = 8%nat → wire pos (EVLong (wrapS 64 (le_value b))) (4 :: b)
  | wire_double pos p b : length p = padding 8 (S pos) → length b = 8%nat → wire pos (EVDouble (le_value b)) (6 :: p ++ b)
  | wire_string pos ty sz b :
      ty = 5 ∨ ty = 7 → wire_size (Z.of_nat (length b)) sz → room (Z.of_nat (length b)) →
      wire pos (EVString b) (ty :: sz ++ b)
  | wire_vector pos t n sz p b :
      let count := Z.of_nat n in
      wire_size count sz → room (count * Z.of_nat (elem_size t)) →
      length p = (if (1 <? elem_size t)%nat then padding (elem_size t) (S pos + length sz) else 0)%nat →
      length b = (n * elem_size t)%nat →
      wire pos (elem_list t (elem_loads t n b)) (EncodedTypeForValue (elem_list t []) :: sz ++ p ++ b)
  | wire_list pos sz l w :
      wire_size (Z.of_nat (length l)) sz → room (Z.of_nat (length l) * sizeof_EncodableValue) →
      wire_items (S pos + length sz) l w → wire pos (EVList l) (12 :: sz ++ w)
  | wire_map pos n sz m w :
      wire_size (Z.of_nat n) sz → wire_pairs (S pos + length sz) [] n m w → wire pos (EVMap m) (13 :: sz ++ w)
  | wire_unknown pos ty : 14 ≤ ty → wire pos EVNull [ty]
with wire_items : nat → EncodableList → list Z → Prop :=
  | wire_nil pos : wire_items pos [] []
  | wire_cons pos v w l ws : wire pos v w → wire_items (pos + length w) l ws → wire_items pos (v :: l) (w ++ ws)
with wire_pairs : nat → EncodableMap → nat → EncodableMap → list Z → Prop :=
  | wire_no_pairs pos m : wire_pairs pos m 0 m []
  | wire_pair pos m k wk v wv n m' ws :
      wire pos k wk → wire (pos + length wk) v wv →
      wire_pairs (pos + length wk + length wv) (map_emplace (addr_lt (pos + length wk + length wv)) k v m) n m' ws →
      wire_pairs pos m (S n) m' (wk ++ wv ++ ws).

Scheme wire_mut := Minimality for wire Sort Prop
  with wire_items_mut := Minimality for wire_items Sort Prop
  with wire_pairs_mut := Minimality for wire_pairs Sort Prop.

Lemma ReadSize_wire n sz pre rest : wire_size n sz → ReadSize (rd pre (sz ++ rest)) ⇓ (n, rd (pre ++ sz) rest).
Proof.
  intros Hn. unfold ReadSize. destruct Hn as [n Hn|b Hb|b Hb]; cbn [app]; rewrite ReadByte_rd; cbn [mbind result_bind].
  - by rewrite (proj2 (Z.ltb_lt _ _)) by lia.
  - cbn -[ReadBytes rd app mbind le_value]. rewrite ReadBytes_rd by lia. cbn [mbind result_bind of_option]. by rewrite <- app_assoc.
  - cbn -[ReadBytes rd app mbind le_value]. rewrite ReadBytes_rd by lia. cbn [mbind result_bind of_option]. by rewrite <- app_assoc.
Qed.

(** [v] is what is read where [w] stands. *)
Definition reads (pos : nat) (v : EncodableValue) (w : list Z) : Prop :=
  (0 < length w)%nat ∧ ∀ pre rest fuel, length pre = pos → (length w ≤ fuel)%nat →
    ReadValue fuel (rd pre (w ++ rest)) ⇓ (v, rd (pre ++ w) rest).
Definition reads_items (pos : nat) (l : EncodableList) (w : list Z) : Prop :=
  ∀ pre rest fuel acc, length pre = pos → (length w ≤ fuel)%nat →
    read_items (ReadValue fuel) (length l) acc (rd pre (w ++ rest)) ⇓ (acc ++ l, rd (pre ++ w) rest).
Definition reads_pairs (pos : nat) (m : EncodableMap) (n : nat) (m' : EncodableMap) (w : list Z) : Prop :=
  ∀ pre rest fuel, length pre = pos → (length w ≤ fuel)%nat →
    read_pairs addr_lt (ReadValue fuel) n m (rd pre (w ++ rest)) ⇓ (m', rd (pre ++ w) rest).

(** One byte for the type, then the rest. *)
Lemma reads_type pos v ty w :
  (∀ pre rest fuel, length pre = S pos → (length w ≤ fuel)%nat → last pre = Some ty →
    ReadValue (S fuel) (mkReader (pre ++ w ++ rest) pos) ⇓ (v, rd (pre ++ w) rest)) →
  reads pos v (ty :: w).
Proof.
  intros Hr. split; [cbn; lia|]. intros pre rest [|fuel] Hpos Hf; [cbn in Hf; lia|].
  assert (Hl : length (pre ++ [ty]) = S pos) by (rewrite length_app; cbn; lia). cbn in Hf.
  assert (Heq : rd pre ((ty :: w) ++ rest) = mkReader ((pre ++ [ty]) ++ w ++ rest) pos)
    by (unfold rd; rewrite Hpos, <- app_assoc; done).
  rewrite Heq, (Hr (pre ++ [ty]) rest fuel Hl) by (lia || apply last_snoc). by rewrite <- app_assoc.
Qed.

Lemma ReadByte_type pre ty rest pos :
  length pre = S pos → last pre = Some ty → ReadByte (mkReader (pre ++ rest) pos) ⇓ (ty, rd pre rest).
Proof.
  intros Hl Hty. destruct pre as [|x pre _] using rev_ind; [done|]. rewrite last_snoc in Hty. injection Hty as ->.
  rewrite length_app in Hl. cbn in Hl. assert (length pre = pos) as <- by lia.
  rewrite <- app_assoc. change (mkReader (pre ++ [ty] ++ rest) (length pre)) with (rd pre (ty :: rest)). apply ReadByte_rd.
Qed.

Ltac after_type :=
  apply reads_type; intros pre rest fuel Hpos Hf Hty; cbn [StandardCodec.ReadValue];
  rewrite (ReadByte_type _ _ _ _ Hpos Hty); cbn [mbind result_bind].

Lemma reads_vector pos t n sz p b :
  wire_size (Z.of_nat n) sz → room (Z.of_nat n * Z.of_nat (elem_size t)) →
  length p = (if (1 <? elem_size t)%nat then padding (elem_size t) (S pos + length sz) else 0)%nat →
  length b = (n * elem_size t)%nat →
  reads pos (elem_list t (elem_loads t n b)) (EncodedTypeForValue (elem_list t []) :: sz ++ p ++ b).
Proof.
  intros Hsz Hroom Hp Hb. after_type.
  assert (Hv : ReadVector can_allocate t (rd pre ((sz ++ p ++ b) ++ rest)) ⇓
    (elem_list t (elem_loads t n b), rd (pre ++ sz ++ p ++ b) rest)).
  { unfold ReadVector. rewrite <- !app_assoc, (ReadSize_wire _ _ _ _ Hsz). cbn [mbind result_bind].
    rewrite allocate_room by done. cbn [mbind result_bind]. set (r := if (1 <? elem_size t)%nat then _ else _).
    assert (r = rd ((pre ++ sz) ++ p) (b ++ rest)) as ->.
    { subst r. destruct (1 <? elem_size t)%nat; [apply ReadAlignment_rd; by rewrite Hp, length_app, Hpos|].
      destruct p; [|done]. by rewrite app_nil_r. }
    rewrite ReadBytes_rd by (rewrite Hb; lia). cbn [mbind result_bind]. by rewrite Nat2Z.id, <- !app_assoc. }
  destruct t; exact Hv.
Qed.

Lemma wire_reads pos v w : wire pos v w → reads pos v w.
Proof.
  apply (wire_mut reads reads_items reads_pairs); clear.
  - intros pos. after_type. by rewrite app_nil_r.
  - intros pos. after_type. by rewrite app_nil_r.
  - intros pos. after_type. by rewrite app_nil_r.
  - intros pos b Hb. after_type. unfold read_int. rewrite ReadBytes_rd by lia. done.
  - intros pos b Hb. after_type. unfold read_int. rewrite ReadBytes_rd by lia. done.
  - intros pos p b Hp Hb. after_type. rewrite <- app_assoc, ReadAlignment_rd by (by rewrite Hpos). rewrite ReadBytes_rd by lia.
    cbn [mbind result_bind]. by rewrite <- app_assoc.
  - intros pos ty sz b Hty' Hsz Hroom. after_type.
    assert (Hs : ReadString can_allocate (rd pre ((sz ++ b) ++ rest)) ⇓ (EVString b, rd (pre ++ sz ++ b) rest)).
    { unfold ReadString. rewrite <- app_assoc, (ReadSize_wire _ _ _ _ Hsz). cbn [mbind result_bind].
      rewrite allocate_room by done. cbn [mbind result_bind]. rewrite ReadBytes_rd by done. cbn. by rewrite <- app_assoc. }
    destruct Hty' as [-> | ->]; exact Hs.
  - intros. by apply reads_vector.
  - intros pos sz l w Hsz Hroom _ Hl. after_type. rewrite <- app_assoc, (ReadSize_wire _ _ _ _ Hsz). cbn [mbind result_bind].
    rewrite allocate_room by done. cbn [mbind result_bind].
    rewrite Nat2Z.id, Hl by (rewrite ?length_app in *; lia). cbn [mbind result_bind]. by rewrite <- app_assoc.
  - intros pos n sz m w Hsz _ Hm. after_type. rewrite <- app_assoc, (ReadSize_wire _ _ _ _ Hsz). cbn [mbind result_bind].
    rewrite Nat2Z.id, Hm by (rewrite ?length_app in *; lia). cbn [mbind result_bind]. by rewrite <- app_assoc.
  - intros pos ty Hge. after_type. rewrite app_nil_r. destruct ty as [|ty|ty]; try lia.
    do 4 (try (destruct ty as [ty|ty|])); first [done|lia].
  - intros pos pre rest fuel acc _ _. cbn. by rewrite !app_nil_r.
  - intros pos v w l ws _ [_ Hv] _ Hl pre rest fuel acc Hpos Hf. rewrite length_app in Hf. cbn [length read_items].
    rewrite <- app_assoc, Hv by (done || lia). cbn [mbind result_bind].
    rewrite Hl by (rewrite ?length_app; lia). by rewrite <- !app_assoc.
  - intros pos m pre rest fuel _ _. cbn. by rewrite app_nil_r.
  - intros pos m k wk v wv n m' ws _ [_ Hk] _ [_ Hv] _ Hm pre rest fuel Hpos Hf. rewrite !length_app in Hf. cbn [read_pairs].
    rewrite <- !app_assoc, Hk by (done || lia). cbn [mbind result_bind].
    rewrite Hv by (rewrite ?length_app; lia). cbn [mbind result_bind]. cbn [location_ rd].
    rewrite !length_app, Hpos. rewrite Hm by (rewrite ?length_app; lia). by rewrite <- !app_assoc.
Qed.

(** ** Claims *)

(** C1: Every encodable value survives the trip through its bytes: encoding
    returns (no assertion fails) and decoding the bytes gives the value back,
    through nested lists and maps, alignment padding and all three widths of
    sizes. *)
Theorem message_roundtrip v :
  codable v → ∃ bytes, EncodeMessageInternal v ⇓ bytes ∧ DecodeMessageInternal bytes ⇓ v.
Proof.
  intros Hv. destruct (codable_encodes v [] Hv) as (enc & He). exists enc.
  split; [apply He|]. unfold DecodeMessageInternal.
  pose proof (encodes_read v [] enc [] He) as Hr. rewrite app_nil_r in Hr.
  change (mkReader enc 0) with (rd [] enc). by rewrite Hr.
Qed.

(** A method call survives the trip through its bytes, with missing
    arguments arriving as null. *)
Theorem method_call_roundtrip name args :
  size_ok name → room (Z.of_nat (length name)) → (∀ v, args = Some v → codable v) →
  ∃ bytes, EncodeMethodCallInternal (mkMethodCall name args) ⇓ bytes ∧
    DecodeMethodCallInternal addr_lt can_allocate bytes ⇓ Some (mkMethodCall name (Some (default EVNull args))).
Proof.
  intros Hn Hroom Ha. destruct (codable_encodes (EVString name) [] (codable_string _ Hn Hroom)) as (e1 & He1).
  destruct (codable_encodes (default EVNull args) e1) as (e2 & He2).
  { destruct args as [v|]; [by apply Ha|constructor]. }
  exists (e1 ++ e2). split.
  - unfold EncodeMethodCallInternal. cbn [method_name arguments]. destruct He1 as [-> _].
    cbn [mbind result_bind app]. unfold write_optional. destruct args; apply He2.
  - unfold DecodeMethodCallInternal. change (mkReader (e1 ++ e2) 0) with (rd [] (e1 ++ e2)).
    rewrite (encodes_read _ _ _ _ He1). cbn [mbind result_bind app].
    change (IsString (EVString name)) with true. cbn [negb].
    pose proof (encodes_read _ _ _ [] He2) as Hr. rewrite app_nil_r in Hr. rewrite Hr. done.
Qed.

(** C32: Decoding follows the format on every message, however malformed.  A
    message that starts with bytes of the format, with sizes wider than needed,
    any padding, unknown types or repeated keys, and anything after them,
    decodes to the value they stand for.  On any message at all, decoding ends:
    with a value; at a two- or four-byte size that the end of the message cuts
    off, which is read into an uninitialized variable; or for want of the
    memory a size asks for.  It never reads outside the message, and no other
    fault occurs. *)
Theorem decode_total message :
  (∀ v w rest, message = w ++ rest → wire 0 v w → DecodeMessageInternal message ⇓ v) ∧
  ((∃ v, DecodeMessageInternal message ⇓ v) ∨
   (DecodeMessageInternal message ⇑ UndefinedBehaviour ∧ cut_off message) ∨
   (DecodeMessageInternal message ⇑ BadAlloc ∧ ∃ n, can_allocate n = false)).
Proof.
  unfold StandardCodec.DecodeMessageInternal. split.
  - intros v w rest -> [_ Hr]%wire_reads. change (mkReader (w ++ rest) 0) with (rd [] (w ++ rest)).
    by rewrite (Hr [] rest _ eq_refl (read_fuel_rd [] w rest)).
  - set (r := mkReader message 0).
    destruct (ReadValue_steady (read_fuel r) r) as [(v & r' & -> & _)|[[-> Hc]|[-> Ha]]];
      [unfold read_fuel, remaining; lia|left; by eexists|right; by left|right; by right].
Qed.
End proofs.

(** ** Concrete runs *)

#[local] Instance codec_debug_build : Build := {| debug := true |}.
Definition no_addr (_ : nat) (_ _ : EncodableValue) : bool := false.
Definition enough_memory (_ : Z) : bool := true.

(** [{false: [1, 2.0], "k": Int32List[7, -1]}] *)
Definition sample : EncodableValue :=
  EVMap [(EVBool false, EVList [EVInt 1; EVDouble d2]); (EVString [107], EVIntList [7; -1])].

Lemma sample_codable : codable no_addr enough_memory sample.
Proof.
  apply codable_map; [unfold size_ok; cbn; lia| |intros n; vm_compute; repeat constructor].
  constructor; [|constructor; [|constructor]]; cbn [fst snd]; split.
  - apply codable_bool.
  - apply codable_list; [unfold size_ok; cbn; lia|by right|].
    constructor; [apply codable_int; lia|]. constructor; [|constructor].
    apply codable_double. unfold d2. lia.
  - apply codable_string; [unfold size_ok; cbn; lia|by right].
  - apply (codable_vector no_addr enough_memory I32); [unfold size_ok; cbn; lia|by right|repeat constructor; lia|by right].
Qed.

Lemma message_roundtrip_witness :
  ∃ bytes, EncodeMessageInternal sample ⇓ bytes ∧ DecodeMessageInternal no_addr enough_memory bytes ⇓ sample.
Proof. apply (message_roundtrip no_addr enough_memory sample). apply sample_codable. Defined.

Lemma method_call_roundtrip_witness :
  ∃ bytes, EncodeMethodCallInternal (mkMethodCall [112; 111; 112] (Some sample)) ⇓ bytes ∧
    DecodeMethodCallInternal no_addr enough_memory bytes ⇓
      Some (mkMethodCall [112; 111; 112] (Some (default EVNull (Some sample)))).
Proof.
  apply (method_call_roundtrip no_addr enough_memory); [unfold size_ok; cbn; lia|by right|]. intros v [= <-]. apply sample_codable.
Defined.

(** A list with a size of four bytes, an unknown type and a double after
    padding that is not zero. *)
Definition odd_message : list Z := [12; 255; 2; 0; 0; 0; 200; 6] ++ le_bytes 8 d2.

Lemma decode_total_witness : DecodeMessageInternal no_addr enough_memory (odd_message ++ [9; 9]) ⇓ EVList [EVNull; EVDouble d2].
Proof.
  destruct (decode_total no_addr enough_memory (odd_message ++ [9; 9])) as [Hwire _].
  apply (Hwire _ odd_message [9; 9]); [reflexivity|].
  apply (wire_list no_addr enough_memory 0 [255; 2; 0; 0; 0] [EVNull; EVDouble d2] ([200] ++ [6] ++ le_bytes 8 d2)).
  - apply (wire_size4 [2; 0; 0; 0]). reflexivity.
  - by right.
  - apply (wire_cons no_addr enough_memory _ EVNull [200]); [apply wire_unknown; lia|].
    apply (wire_cons no_addr enough_memory _ (EVDouble d2) ([6] ++ le_bytes 8 d2) [] []); [|apply wire_nil].
    apply (wire_double no_addr enough_memory _ [] (le_bytes 8 d2)); reflexivity.
Defined.

(** An empty typed list breaks the stream: [WriteVector] returns before it
    aligns, [ReadVector] aligns all the same and swallows bytes of the next
    value, so [Int32List[]] followed by an integer does not round trip. *)
Theorem empty_vector_misread :
  ∃ bytes v,
    EncodeMessageInternal (EVList [EVBool true; EVIntList []; EVInt 5]) ⇓ bytes ∧
    DecodeMessageInternal no_addr enough_memory bytes ⇓ v ∧ v = EVList [EVBool true; EVIntList []; EVNull].
Proof. eexists _, _. repeat (split; [vm_compute; reflexivity|]). vm_compute. reflexivity. Qed.

(** A message that ends inside a two-byte size makes [ReadSize] return an
    uninitialized variable. *)
Theorem truncated_size_indeterminate :
  DecodeMessageInternal no_addr enough_memory [kStringT; 254] ⇑ UndefinedBehaviour.
Proof. reflexivity. Qed.

(** The size of a list is reserved before any item is read: six bytes ask for
    64 gigabytes, and the exception is not caught. *)
Theorem hostile_size_throws :
  DecodeMessageInternal no_addr (λ n, n <=? 2 ^ 35) [kListT; 255; 255; 255; 255; 255] ⇑ BadAlloc.
Proof. reflexivity. Qed.
