(* ===== verification/CommandLine.v ===== *)
(** * CommandLine: parsing and printing of command lines

    Model of [fml::CommandLine] (fml/command_line.{h,cc}).  Strings are lists
    of bytes.  A [std::string_view] is a pointer into a buffer and a length:
    [HasOption] converts [name.data()] to a [std::string] and so reads up to
    the first NUL of the buffer, whatever the length says. *)

From Stdlib Require Import ZArith Lia String.
From stdpp Require Import base sorting gmap numbers list.
From S2P Require Import Prelude Bytes.

Abbreviation bytes := (list Z).

(** [buffer] is what can be read from [data()] on. *)
Record StringView := mkView { view_buffer : bytes; view_size : nat }.

(** The view of a whole [std::string], whose buffer ends in a NUL. *)
Definition view_of (s : bytes) : StringView := mkView (s ++ [0%Z]) (length s).
Definition view_string (v : StringView) : bytes := take (view_size v) (view_buffer v).

(** [std::string(v.data())]: undefined when the buffer has no NUL. *)
Fixpoint c_string (buffer : bytes) : result bytes :=
  match buffer with
  | [] => Fault UndefinedBehaviour
  | c :: buffer => if (c =? 0)%Z then mret [] else s ← c_string buffer; mret (c :: s)
  end.

Record Option_ := mkOption { opt_name : bytes; opt_value : bytes }.

Record CommandLine := mkCommandLine {
  has_argv0_ : bool;
  argv0_ : bytes;
  options_ : list Option_;
  positional_args_ : list bytes;
  option_index_ : gmap bytes nat;
}.

Definition empty_command_line : CommandLine := mkCommandLine false [] [] [] ∅.

Fixpoint index_from (i : nat) (options : list Option_) (m : gmap bytes nat) : gmap bytes nat :=
  match options with
  | [] => m
  | o :: options => index_from (S i) options (<[opt_name o := i]> m)
  end.

Definition new_command_line (argv0 : bytes) (options : list Option_) (positional_args : list bytes)
    : CommandLine :=
  mkCommandLine true argv0 options positional_args (index_from 0 options ∅).

(** [operator==] of options and of command lines: the index is not compared. *)
Definition Option_eqb (o other : Option_) : bool :=
  bool_decide (opt_name o = opt_name other) && bool_decide (opt_value o = opt_value other).

Fixpoint options_eqb (l other : list Option_) : bool :=
  match l, other with
  | [], [] => true
  | o :: l, o' :: other => Option_eqb o o' && options_eqb l other
  | _, _ => false
  end.

Definition CommandLine_eqb (cl other : CommandLine) : bool :=
  eqb (has_argv0_ cl) (has_argv0_ other) && bool_decide (argv0_ cl = argv0_ other) &&
  options_eqb (options_ cl) (options_ other) &&
  bool_decide (positional_args_ cl = positional_args_ other).

Definition HasOption (name : StringView) (cl : CommandLine) : result (option nat) :=
  name ← c_string (view_buffer name); mret (option_index_ cl !! name).

Definition GetOptionValue (name : StringView) (cl : CommandLine) : result (option bytes) :=
  index ← HasOption name cl;
  match index with
  | None => mret None
  | Some index =>
      o ← of_option UndefinedBehaviour (options_ cl !! index); mret (Some (opt_value o))
  end.

Definition GetOptionValues (name : StringView) (cl : CommandLine) : list bytes :=
  opt_value <$> filter (λ o, opt_name o = view_string name) (options_ cl).

Definition GetOptionValueWithDefault (name default_value : StringView) (cl : CommandLine)
    : result bytes :=
  index ← HasOption name cl;
  match index with
  | None => mret (view_string default_value)
  | Some index => o ← of_option UndefinedBehaviour (options_ cl !! index); mret (opt_value o)
  end.

(** ** The builder *)

Record Builder := mkBuilder {
  b_has_argv0 : bool;
  b_argv0 : bytes;
  b_options : list Option_;
  b_positional : list bytes;
  b_started : bool;
}.

Definition new_builder : Builder := mkBuilder false [] [] [] false.

Definition dash : Z := 45.
Definition equals : Z := 61.
Definition dashes : bytes := [dash; dash].

(** [s.find(c, pos)] *)
Definition find_from (c : Z) (pos : nat) (s : bytes) : option nat :=
  (λ r, pos + r.1) <$> list_find (.= c) (drop pos s).

Definition is_option (arg : bytes) : bool :=
  match arg with a0 :: a1 :: _ => (a0 =? dash)%Z && (a1 =? dash)%Z | _ => false end.

Definition is_nil {A} (l : list A) : bool := match l with [] => true | _ => false end.

Definition parse_option (arg : bytes) : Option_ :=
  match find_from equals 3 arg with
  | None => mkOption (drop 2 arg) []
  | Some equals_pos => mkOption (take (equals_pos - 2) (drop 2 arg)) (drop (equals_pos + 1) arg)
  end.

Definition ProcessArg (arg : bytes) (b : Builder) : bool * Builder :=
  let '(mkBuilder has_argv0 argv0 options positional started) := b in
  if negb has_argv0 then (false, mkBuilder true arg options positional started)
  else if started then
    (is_nil positional, mkBuilder has_argv0 argv0 options (positional ++ [arg]) started)
  else if negb (is_option arg) then
    (is_nil positional, mkBuilder has_argv0 argv0 options (positional ++ [arg]) true)
  else if (length arg =? 2)%nat then (false, mkBuilder has_argv0 argv0 options positional true)
  else (false, mkBuilder has_argv0 argv0 (options ++ [parse_option arg]) positional started).

Definition Build (b : Builder) : CommandLine :=
  if b_has_argv0 b then new_command_line (b_argv0 b) (b_options b) (b_positional b)
  else empty_command_line.

(** The loop of [CommandLineFromIteratorsFindFirstPositionalArg] at position
    [i] of the arguments. *)
Fixpoint process_args (i : nat) (args : list bytes) (first_positional : nat) (b : Builder)
    : nat * Builder :=
  match args with
  | [] => (first_positional, b)
  | arg :: args =>
      let '(first, b) := ProcessArg arg b in
      process_args (S i) args (if first then i else first_positional) b
  end.

Definition CommandLineFromIteratorsFindFirstPositionalArg (argv : list bytes) : CommandLine * nat :=
  let '(first_positional, b) := process_args 0 argv (length argv) new_builder in
  (Build b, first_positional).

Definition CommandLineFromIterators (argv : list bytes) : CommandLine :=
  (CommandLineFromIteratorsFindFirstPositionalArg argv).1.

Definition CommandLineFromIteratorsWithArgv0 (argv0 : bytes) (args : list bytes) : CommandLine :=
  Build (process_args 0 args (length args) (ProcessArg argv0 new_builder).2).2.

Definition print_option (o : Option_) : bytes :=
  if is_nil (opt_value o) then dashes ++ opt_name o
  else dashes ++ opt_name o ++ [equals] ++ opt_value o.

Definition CommandLineToArgv (cl : CommandLine) : list bytes :=
  if negb (has_argv0_ cl) then []
  else
    argv0_ cl :: (print_option <$> options_ cl) ++
    match positional_args_ cl with
    | [] => []
    | arg :: _ => (if is_option arg then [dashes] else []) ++ positional_args_ cl
    end.

(** ** Lookup: the last occurrence of an option wins *)

Fixpoint last_occurrence (n : bytes) (os : list Option_) : option nat :=
  match os with
  | [] => None
  | o :: os =>
      match last_occurrence n os with
      | Some j => Some (S j)
      | None => if decide (opt_name o = n) then Some 0 else None
      end
  end.

Lemma index_from_lookup i os m n :
  index_from i os m !! n =
  match last_occurrence n os with Some j => Some (i + j) | None => m !! n end.
Proof.
  revert i m. induction os as [|o os IH]; intros i m; [done|]. cbn. rewrite IH.
  destruct (last_occurrence n os); [f_equal; lia|].
  case_decide as Hn; [rewrite Hn, lookup_insert_eq; f_equal; lia|by rewrite lookup_insert_ne].
Qed.

Lemma last_occurrence_spec n os :
  match last_occurrence n os with
  | Some i =>
      ∃ o, os !! i = Some o ∧ opt_name o = n ∧
           last (opt_value <$> filter (λ o, opt_name o = n) os) = Some (opt_value o) ∧
           ∀ j o', i < j → os !! j = Some o' → opt_name o' ≠ n
  | None => filter (λ o, opt_name o = n) os = [] ∧ n ∉ opt_name <$> os
  end.
Proof.
  induction os as [|o os IH]; cbn [last_occurrence]; [split; [done|set_solver]|].
  destruct (last_occurrence n os) as [i|].
  - destruct IH as (o' & Ho & Hn & Hlast & Hafter). exists o'. split_and!; [done|done| |].
    + rewrite filter_cons. case_decide; [|done]. by rewrite fmap_cons, last_cons, Hlast.
    + intros [|j] o'' Hj; [lia|]. apply Hafter. lia.
  - destruct IH as [Hnil Hnot]. rewrite filter_cons. case_decide as Hn.
    + exists o. rewrite Hnil. split_and!; [done..|]. intros [|j] o' Hj; [lia|]. cbn.
      intros Ho' He. apply Hnot. apply list_elem_of_fmap. exists o'. split; [done|].
      by eapply list_elem_of_lookup_2.
    + split; [done|set_solver].
Qed.

Lemma c_string_view s : 0%Z ∉ s → c_string (view_buffer (view_of s)) ⇓ s.
Proof.
  cbn. induction s as [|c s IH]; intros Hs; [done|]. cbn.
  rewrite (proj2 (Z.eqb_neq c 0)) by set_solver. by rewrite IH by set_solver.
Qed.

Lemma view_string_of s : view_string (view_of s) = s.
Proof. unfold view_string. cbn. apply take_app_length. Qed.

(** ** Printing and parsing *)

(** Options that the parser can produce. *)
Definition option_ok (o : Option_) : Prop := opt_name o ≠ [] ∧ equals ∉ drop 1 (opt_name o).

Lemma list_find_none_drop (c : Z) l : list_find (.= c) l = None ↔ c ∉ l.
Proof. rewrite list_find_None, Forall_forall. set_solver. Qed.

Lemma parse_option_ok arg :
  is_option arg = true → length arg ≠ 2 → option_ok (parse_option arg).
Proof.
  destruct arg as [|a0 [|a1 [|a2 arg]]]; try done. intros _ _. unfold parse_option, find_from. cbn.
  rewrite drop_0.
  destruct (list_find (.= equals) arg) as [[i c]|] eqn:Hfind; cbn.
  - apply list_find_Some in Hfind as (_ & _ & Hbefore). cbn. split; [done|]. cbn. rewrite ?Nat.sub_0_r. intros (j & Hj)%list_elem_of_lookup_1. apply lookup_take_Some in Hj as [Hj Hlt].
    by apply (Hbefore j equals).
  - split; [done|]. cbn. by apply list_find_none_drop.
Qed.

Lemma parse_print_option o : option_ok o → parse_option (print_option o) = o.
Proof.
  destruct o as [n v]. intros [Hn He]. cbn in *. destruct n as [|n0 n]; [done|]. cbn in He. rewrite drop_0 in He.
  unfold parse_option, print_option, find_from. cbn. destruct v as [|v0 v]; cbn; rewrite drop_0.
  - by rewrite (proj2 (list_find_none_drop _ _) He).
  - rewrite (proj2 (list_find_Some (.= equals) (n ++ equals :: v0 :: v) (length n) equals)).
    + cbn. f_equal; [f_equal; by rewrite take_app_length|].
      rewrite drop_app_ge by lia. by replace (length n + 1 - length n) with 1 by lia.
    + split_and!; [by rewrite list_lookup_middle|done|]. intros j y Hj Hlt ->.
      rewrite lookup_app_l in Hj by done. apply He. by eapply list_elem_of_lookup_2.
Qed.

Lemma print_option_parsed o :
  option_ok o → is_option (print_option o) = true ∧ length (print_option o) ≠ 2.
Proof.
  destruct o as [[|n0 n] v]; intros [Hn _]; [done|]. unfold print_option. by destruct v.
Qed.

Lemma process_args_app i l1 l2 fp b :
  process_args i (l1 ++ l2) fp b =
  let '(fp, b) := process_args i l1 fp b in process_args (i + length l1) l2 fp b.
Proof.
  revert i fp b. induction l1 as [|arg l1 IH]; intros i fp b; cbn; [by rewrite Nat.add_0_r|].
  destruct (ProcessArg arg b). rewrite IH. by rewrite Nat.add_succ_r.
Qed.

Lemma process_args_options i a os0 os fp :
  Forall option_ok os →
  process_args i (print_option <$> os) fp (mkBuilder true a os0 [] false) =
  (fp, mkBuilder true a (os0 ++ os) [] false).
Proof.
  intros Hos. revert i os0. induction Hos as [|o os Ho _ IH]; intros i os0; cbn.
  { by rewrite app_nil_r. }
  destruct (print_option_parsed o Ho) as [-> ->%Nat.eqb_neq]. cbn.
  by rewrite (parse_print_option o Ho), IH, <- app_assoc.
Qed.

Lemma process_args_started i a os p args fp :
  (process_args i args fp (mkBuilder true a os p true)).2 = mkBuilder true a os (p ++ args) true.
Proof.
  revert i p fp. induction args as [|arg args IH]; intros i p fp; cbn; [by rewrite app_nil_r|].
  by rewrite IH, <- app_assoc.
Qed.

Lemma process_args_positional i a os p fp :
  (process_args i match p with [] => [] | arg :: _ => (if is_option arg then [dashes] else []) ++ p end
     fp (mkBuilder true a os [] false)).2 =
  mkBuilder true a os p (negb (is_nil p)).
Proof.
  destruct p as [|arg p]; [done|]. destruct (is_option arg) eqn:Harg; cbn.
  - by rewrite process_args_started.
  - rewrite Harg. cbn. by rewrite process_args_started.
Qed.

Lemma parse_printed a os p :
  Forall option_ok os →
  CommandLineFromIterators (CommandLineToArgv (new_command_line a os p)) = new_command_line a os p.
Proof.
  intros Hos. unfold CommandLineFromIterators, CommandLineFromIteratorsFindFirstPositionalArg.
  cbn -[process_args]. generalize (S (length ((print_option <$> os) ++
    match p with [] => [] | arg :: _ => (if is_option arg then [dashes] else []) ++ p end))) as fp.
  intros fp. cbn [process_args ProcessArg new_builder negb].
  rewrite process_args_app, process_args_options by done.
  set (i := 1 + length _). pose proof (process_args_positional i a os p fp) as Hp.
  destruct (process_args i _ fp _) as [fp' b]. cbn in Hp. by rewrite Hp.
Qed.

Lemma process_args_ok i args fp b :
  Forall option_ok (b_options b) → Forall option_ok (b_options (process_args i args fp b).2).
Proof.
  revert i fp b. induction args as [|arg args IH]; intros i fp b Hb; [done|]. cbn.
  destruct (ProcessArg arg b) as [r b'] eqn:Hp. apply IH. destruct b as [h a os p s]. cbn in *.
  case_bools; simplify_eq; cbn; try done. apply Forall_app. split; [done|]. constructor; [|done].
  apply parse_option_ok; [|by apply Nat.eqb_neq]. by destruct is_option.
Qed.

Lemma ProcessArg_positional arg b r b1 :
  ProcessArg arg b = (r, b1) →
  (b_positional b ≠ [] → b_has_argv0 b = true ∧ b_started b = true) →
  (r = false ∧ b_positional b1 = b_positional b ∧ b_positional b = []) ∨
  (r = is_nil (b_positional b) ∧ b_positional b1 = b_positional b ++ [arg] ∧
   b_has_argv0 b1 = true ∧ b_started b1 = true).
Proof.
  destruct b as [h a os p s]. cbn. intros Hp Hst.
  assert (Hnil : h = false ∨ s = false → p = []) by (destruct p; [done|]; destruct Hst; naive_solver).
  destruct h; cbn in Hp; [|simplify_eq; left; auto].
  destruct s; cbn in Hp; [simplify_eq; right; auto|].
  destruct (is_option arg); cbn in Hp; [|simplify_eq; right; auto].
  destruct (length arg =? 2); simplify_eq; left; auto.
Qed.

(** Where the first positional argument is, for the arguments still to come. *)
Lemma process_args_first i args fp b fp' b' :
  process_args i args fp b = (fp', b') →
  (b_positional b ≠ [] → b_has_argv0 b = true ∧ b_started b = true) →
  if is_nil (b_positional b)
  then (b_positional b' = [] ∧ fp' = fp) ∨ ∃ k, fp' = i + k ∧ b_positional b' = drop k args
  else fp' = fp ∧ b_positional b' = b_positional b ++ args.
Proof.
  revert i fp b. induction args as [|arg args IH]; intros i fp b; cbn.
  { intros [= <- <-] _. destruct (b_positional b); cbn; [by left|by rewrite app_nil_r]. }
  destruct (ProcessArg arg b) as [r b1] eqn:Hp. intros Hrest Hst. specialize (IH _ _ _ Hrest).
  assert (Hb1 : (r = false ∧ b_positional b1 = b_positional b ∧ b_positional b = []) ∨
                (r = is_nil (b_positional b) ∧ b_positional b1 = b_positional b ++ [arg] ∧
                 b_has_argv0 b1 = true ∧ b_started b1 = true)).
  { by apply (ProcessArg_positional arg b). }
  destruct Hb1 as [(-> & Hpos & Hnil)|(-> & Hpos & Hh & Hs)].
  - rewrite Hpos, Hnil in IH. rewrite Hnil. cbn in *. destruct IH as [IH|(k & -> & ->)]; [done|by left|].
    right. exists (S k). split; [lia|done].
  - rewrite Hpos in IH. destruct (b_positional b) as [|x p]; cbn in *.
    + destruct IH as [-> ->]; [done|]. right. exists 0. by rewrite Nat.add_0_r.
    + destruct IH as [-> ->]; [done|]. by rewrite <- app_assoc.
Qed.

(** ** Claims *)

(** Parsing, printing and parsing again is parsing: for every argument
    list, the arguments [CommandLineToArgv] prints are read back as the same
    command line. *)
Theorem command_line_reparse argv :
  CommandLineFromIterators (CommandLineToArgv (CommandLineFromIterators argv)) =
  CommandLineFromIterators argv.
Proof.
  remember (CommandLineFromIterators argv) as cl eqn:Hcl.
  unfold CommandLineFromIterators, CommandLineFromIteratorsFindFirstPositionalArg in Hcl.
  pose proof (process_args_ok 0 argv (length argv) new_builder (Forall_nil_2 _)) as Hok.
  destruct (process_args 0 argv _ new_builder) as [fp b]. cbn in Hcl, Hok. subst cl.
  unfold Build. destruct (b_has_argv0 b); [|done]. by apply parse_printed.
Qed.

(** A command line put together from its parts survives printing and
    parsing when its option names could have been parsed: not empty, and
    without [=] after the first character. *)
Theorem command_line_roundtrip argv0 options positional_args :
  Forall option_ok options →
  let cl := new_command_line argv0 options positional_args in
  CommandLineFromIterators (CommandLineToArgv cl) = cl.
Proof. apply parse_printed. Qed.

(** The first positional argument reported is where the positional
    arguments of the command line start: they are exactly the arguments from
    there on. *)
Theorem first_positional_arg argv cl first :
  CommandLineFromIteratorsFindFirstPositionalArg argv = (cl, first) →
  positional_args_ cl = drop first argv.
Proof.
  unfold CommandLineFromIteratorsFindFirstPositionalArg.
  destruct (process_args 0 argv (length argv) new_builder) as [fp b] eqn:Hp. intros [= <- <-].
  pose proof (process_args_first _ _ _ _ _ _ Hp (λ H, False_ind _ (H eq_refl))) as Hfirst. cbn in Hfirst.
  destruct argv as [|arg argv]; [cbn in Hp; by simplify_eq|].
  assert (Hh : b_has_argv0 b = true).
  { cbn in Hp. apply (f_equal snd) in Hp. cbn in Hp. rewrite <- Hp. clear.
    assert (∀ l i fp b, b_has_argv0 b = true → b_has_argv0 (process_args i l fp b).2 = true) as H;
      [|by apply H].
    induction l as [|x l IH]; intros i fp [h a os p s] Hb; [done|]. cbn in *. subst h. cbn.
    case_bools; by apply IH. }
  unfold Build. rewrite Hh. cbn [positional_args_ new_command_line].
  destruct Hfirst as [[-> ->]|(k & -> & ->)]; [by rewrite drop_all|done].
Qed.

(** Looking up an option by a NUL-free name finds its last occurrence:
    the index is the last one with the name, the value is the last of
    [GetOptionValues], and the default is used exactly when there is none. *)
Theorem option_last_wins s default_value argv0 options positional_args :
  0%Z ∉ s →
  let cl := new_command_line argv0 options positional_args in
  let values := GetOptionValues (view_of s) cl in
  GetOptionValue (view_of s) cl ⇓ last values ∧
  GetOptionValueWithDefault (view_of s) default_value cl ⇓
    default (view_string default_value) (last values) ∧
  ∃ index, HasOption (view_of s) cl ⇓ index ∧
    match index with
    | Some i => (opt_name <$> options !! i) = Some s ∧
                ∀ j o, i < j → options !! j = Some o → opt_name o ≠ s
    | None => s ∉ opt_name <$> options
    end.
Proof.
  intros Hs cl values.
  assert (Hv : values = opt_value <$> filter (λ o, opt_name o = s) options).
  { unfold values, GetOptionValues. by rewrite view_string_of. }
  clearbody values. unfold GetOptionValue, GetOptionValueWithDefault, HasOption.
  rewrite (c_string_view s Hs). cbn. rewrite index_from_lookup, lookup_empty.
  rewrite Hv. pose proof (last_occurrence_spec s options) as Hlast.
  destruct (last_occurrence s options) as [i|]; cbn.
  - destruct Hlast as (o & Ho & Hn & Hval & Hafter). rewrite Hval, Ho. cbn. split_and!; [done..|].
    exists (Some i). rewrite Ho. cbn. by rewrite Hn.
  - destruct Hlast as [-> Hnot]. cbn. split_and!; [done..|]. by exists None.
Qed.

(** ** Concrete runs *)

Definition app_argv : list bytes := str <$> ["app"; "--a=1"; "--a=2"; "run"; "--b"]%string.

Lemma command_line_roundtrip_witness :
  let cl := new_command_line (str "app") [mkOption (str "a") (str "x=y")] [str "--b"] in
  CommandLineToArgv cl = str <$> ["app"; "--a=x=y"; "--"; "--b"]%string ∧
  CommandLineFromIterators (CommandLineToArgv cl) = cl.
Proof.
  split; [reflexivity|]. apply (command_line_roundtrip (str "app") [mkOption (str "a") (str "x=y")]).
  constructor; [|constructor]. split; [done|]. apply not_elem_of_nil.
Defined.

Lemma first_positional_arg_witness :
  positional_args_ (CommandLineFromIterators app_argv) = drop 3 app_argv.
Proof. apply (first_positional_arg app_argv _ 3). reflexivity. Defined.

Lemma option_last_wins_witness :
  GetOptionValue (view_of (str "a")) (CommandLineFromIterators app_argv) ⇓ Some (str "2").
Proof.
  apply (option_last_wins (str "a") (view_of []) (str "app")
           [mkOption (str "a") (str "1"); mkOption (str "a") (str "2")] [str "run"; str "--b"]).
  vm_compute. intros H. by inversion H as [|? ? ? H']; inversion H'.
Defined.

(** [HasOption] ignores the length of the view: asked for the first
    character of a longer name, it looks up the longer name, while
    [GetOptionValues] honours the length. *)
Theorem has_option_reads_past_view :
  let cl := new_command_line (str "app") [mkOption (str "ab") (str "1")] [] in
  let a := mkView (str "ab" ++ [0%Z]) 1 in
  HasOption a cl ⇓ Some 0 ∧ GetOptionValues a cl = [].
Proof. by vm_compute. Qed.
