(* ===== verification/Base32.v ===== *)
(** * Base32: the bit converter and the Base32 codec

    Model of fml/base32.{h,cc}.  [BitConverter<from, to, 16>] keeps its bits at
    the top of a 16-bit window of an [int]; the reference definitions below
    regroup the bits of the whole input.  A [char] is signed or unsigned
    depending on the target, which [Char] records. *)

From Stdlib Require Import ZArith Lia String.
From stdpp Require Import base sorting gmap numbers list.
From S2P Require Import Prelude Bytes.

Local Open Scope Z_scope.

Class Char := { char_signed : bool }.

Definition char_value `{Char} (b : Z) : Z := if char_signed then wrapS 8 b else b.

Record BitConverter := mkConverter { buffer_ : Z; lower_free_bits_ : Z }.

Definition buffer_length : Z := 16.
Definition new_bit_converter : BitConverter := mkConverter 0 buffer_length.

Section bit_converter.
Context `{Build} (from_length to_length : Z).

Definition mask_ : Z := Z.shiftl 1 buffer_length - 1.

Definition BitsAvailable (c : BitConverter) : Z := buffer_length - lower_free_bits_ c.
Definition CanAppend (c : BitConverter) : bool := from_length <=? lower_free_bits_ c.
Definition CanExtract (c : BitConverter) : bool := to_length <=? BitsAvailable c.
Definition Peek (c : BitConverter) : Z := Z.shiftr (buffer_ c) (buffer_length - to_length).

(** Shifting a negative value, or by a negative amount, is undefined. *)
Definition Append (bits : Z) (c : BitConverter) : result BitConverter :=
  _ ← fml_dcheck (bits <? Z.shiftl 1 from_length);
  _ ← fml_dcheck (CanAppend c);
  let free := lower_free_bits_ c - from_length in
  if (bits <? 0) || (free <? 0) then Fault UndefinedBehaviour
  else mret (mkConverter (Z.lor (buffer_ c) (Z.shiftl bits free)) free).

Definition Extract (c : BitConverter) : result (Z * BitConverter) :=
  _ ← fml_dcheck (CanExtract c);
  mret (Peek c, mkConverter (Z.land (Z.shiftl (buffer_ c) to_length) mask_)
                  (lower_free_bits_ c + to_length)).
End bit_converter.

Definition kEncoding : list Z := str "ABCDEFGHIJKLMNOPQRSTUVWXYZ234567".

Definition kDecodeMap : list Z :=
  [26; 27; 28; 29; 30; 31; -1; -1; -1; -1; -1; -1; -1; -1;
   -1; 0; 1; 2; 3; 4; 5; 6; 7; 8; 9; 10; 11; 12;
   13; 14; 15; 16; 17; 18; 19; 20; 21; 22; 23; 24; 25].

(** [a[i]] on an array; out of range is undefined. *)
Definition array_at (a : list Z) (i : Z) : result Z :=
  if i <? 0 then Fault UndefinedBehaviour
  else of_option UndefinedBehaviour (a !! Z.to_nat i).

Section codec.
Context `{Build, Char}.

(** The [while] loop: [rest] is the input from [next_byte_index] on. *)
Fixpoint encode_loop (fuel : nat) (c : BitConverter) (rest output : list Z)
    : result (BitConverter * list Z) :=
  match fuel with
  | O => Fault OutOfFuel
  | S fuel =>
      if CanExtract 5 c then
        r ← Extract 5 c;
        let '(i, c) := (r : Z * BitConverter) in
        x ← array_at kEncoding i;
        match CanAppend 8 c, rest with
        | true, b :: rest => c ← Append 8 b c; encode_loop fuel c rest (output ++ [x])
        | _, _ => encode_loop fuel c rest (output ++ [x])
        end
      else mret (c, output)
  end.

Definition Base32Encode (input : list Z) : result (bool * list Z) :=
  match input with
  | [] => mret (true, [])
  | b :: rest =>
      if size_max / 8 <? Z.of_nat (length input) then mret (false, [])
      else
        c ← Append 8 (char_value b) new_bit_converter;
        r ← encode_loop (2 * length input + 1) c rest [];
        let '(c, output) := (r : BitConverter * list Z) in
        if 0 <? BitsAvailable c then x ← array_at kEncoding (Peek 5 c); mret (true, output ++ [x])
        else mret (true, output)
  end.

(** One turn of the decoding loop: the converter and the result so far, or
    the early return. *)
Fixpoint decode_loop (c : BitConverter) (input res : list Z) : result (option BitConverter * list Z) :=
  match input with
  | [] => mret (Some c, res)
  | ch :: input =>
      let map_index := char_value ch - 50 in
      if (map_index <? 0) || (Z.of_nat (length kDecodeMap) <=? map_index) then mret (None, res)
      else
        d ← array_at kDecodeMap map_index;
        if d =? -1 then mret (None, res)
        else
          c ← Append 5 d c;
          if CanExtract 8 c then
            r ← Extract 8 c;
            let '(b, c) := (r : Z * BitConverter) in decode_loop c input (res ++ [wrapU 8 b])
          else decode_loop c input res
  end.

Definition Base32Decode (input : list Z) : result (bool * list Z) :=
  r ← decode_loop new_bit_converter input [];
  match (r : option BitConverter * list Z) with
  | (None, res) => mret (false, res)
  | (Some c, res) => if Peek 8 c =? 0 then mret (true, res) else mret (false, res)
  end.
End codec.

(** ** Bits *)

(** Most significant bit first. *)
Fixpoint bits (w : nat) (z : Z) : list bool :=
  match w with O => [] | S w => Z.odd (z / 2 ^ Z.of_nat w) :: bits w z end.

Fixpoint value (l : list bool) : Z :=
  match l with [] => 0 | b :: l => Z.b2z b * 2 ^ Z.of_nat (length l) + value l end.

Lemma length_bits w z : length (bits w z) = w.
Proof. induction w; cbn; lia. Qed.

Lemma value_range l : 0 ≤ value l < 2 ^ Z.of_nat (length l).
Proof.
  induction l as [|b l IH]; [cbn; lia|]. cbn [value length].
  rewrite Nat2Z.inj_succ, Z.pow_succ_r by lia. destruct b; cbn [Z.b2z]; lia.
Qed.

Lemma value_app l1 l2 : value (l1 ++ l2) = value l1 * 2 ^ Z.of_nat (length l2) + value l2.
Proof.
  induction l1 as [|b l1 IH]; [cbn; lia|]. cbn [value app]. rewrite IH, length_app, Nat2Z.inj_add.
  rewrite Z.pow_add_r by lia. ring.
Qed.

Lemma value_bits w z : value (bits w z) = z `mod` 2 ^ Z.of_nat w.
Proof.
  induction w as [|w IH]; [by rewrite Z.mod_1_r|]. cbn [bits value].
  rewrite IH, length_bits, Nat2Z.inj_succ, Z.pow_succ_r by lia.
  rewrite (Z.mul_comm 2), Z.rem_mul_r by lia. rewrite Zmod_odd. destruct (Z.odd _); cbn [Z.b2z]; lia.
Qed.

Lemma bits_high n m x y : (m ≤ n)%nat → bits m (x * 2 ^ Z.of_nat n + y) = bits m y.
Proof.
  induction m as [|m IH]; intros Hm; [done|]. cbn [bits]. rewrite IH by lia. f_equal.
  replace (x * 2 ^ Z.of_nat n) with (x * 2 ^ Z.of_nat (n - m) * 2 ^ Z.of_nat m).
  - rewrite Z.div_add_l by lia. rewrite Z.odd_add, Z.odd_mul.
    replace (n - m)%nat with (S (n - m - 1)) by lia.
    rewrite Nat2Z.inj_succ, Z.pow_succ_r, Z.odd_mul by lia. cbn [Z.odd].
    by rewrite andb_false_l, andb_false_r, xorb_false_l.
  - rewrite <- Z.mul_assoc, <- Z.pow_add_r by lia. do 2 f_equal. lia.
Qed.

Lemma bits_value l : bits (length l) (value l) = l.
Proof.
  induction l as [|b l IH]; [done|]. cbn [length bits value].
  assert (Hl := value_range l). f_equal; [|by rewrite bits_high, IH].
  rewrite Z.div_add_l, Z.div_small by lia. by destruct b.
Qed.

Lemma value_inj l1 l2 : length l1 = length l2 → value l1 = value l2 → l1 = l2.
Proof. intros Hl Hv. by rewrite <- (bits_value l1), <- (bits_value l2), Hl, Hv. Qed.

(** ** The converter holds a list of bits *)

Definition conv (l : list bool) : BitConverter :=
  let free := 16 - Z.of_nat (length l) in mkConverter (value l * 2 ^ free) free.

Lemma lor_disjoint a b k : 0 ≤ k → 0 ≤ b < 2 ^ k → Z.lor (a * 2 ^ k) b = a * 2 ^ k + b.
Proof.
  intros Hk Hb. symmetry. apply Z.add_nocarry_lor, Z.bits_inj'. intros n Hn.
  rewrite Z.land_spec, Z.bits_0, <- Z.shiftl_mul_pow2 by lia. destruct (Z.lt_ge_cases n k).
  - by rewrite Z.shiftl_spec_low.
  - rewrite <- (Z.mod_small b (2 ^ k)), Z.mod_pow2_bits_high, andb_false_r by lia. done.
Qed.

Section converter_lemmas.
Context `{Build}.

Lemma Append_conv w b l :
  0 ≤ b < 2 ^ Z.of_nat w → (length l + w ≤ 16)%nat →
  Append (Z.of_nat w) b (conv l) ⇓ conv (l ++ bits w b).
Proof.
  intros Hb Hl. unfold Append, CanAppend. cbn [lower_free_bits_ buffer_ conv].
  rewrite Z.shiftl_1_l, (proj2 (Z.ltb_lt b (2 ^ _))), (proj2 (Z.leb_le _ _)) by lia.
  rewrite !fml_dcheck_true. cbn [mbind result_bind].
  rewrite (proj2 (Z.ltb_ge b 0)), (proj2 (Z.ltb_ge _ 0)) by lia. cbn [orb].
  f_equal. unfold conv. rewrite length_app, length_bits, value_app, value_bits, length_bits.
  set (free := 16 - Z.of_nat (length l) - Z.of_nat w). f_equal; [|lia].
  replace (16 - Z.of_nat (length l)) with (Z.of_nat w + free) by lia.
  replace (16 - Z.of_nat (length l + w)) with free by lia.
  rewrite Z.pow_add_r, Z.shiftl_mul_pow2, Z.mod_small by lia.
  rewrite Z.mul_assoc.
  replace (value l * 2 ^ Z.of_nat w * 2 ^ free) with (value l * 2 ^ (Z.of_nat w + free))
    by (rewrite Z.pow_add_r by lia; ring).
  rewrite lor_disjoint; rewrite ?Z.pow_add_r by lia; [ring|lia|].
  split; [lia|]. apply Z.mul_lt_mono_pos_r; lia.
Qed.

Lemma conv_split w l :
  (w ≤ length l ≤ 16)%nat →
  buffer_ (conv l) =
    value (take w l) * 2 ^ (16 - Z.of_nat w) +
    value (drop w l) * 2 ^ (16 - Z.of_nat (length l)) ∧
  0 ≤ value (drop w l) * 2 ^ (16 - Z.of_nat (length l)) < 2 ^ (16 - Z.of_nat w).
Proof.
  intros Hw. cbn [conv buffer_]. assert (Hr := value_range (drop w l)).
  rewrite length_drop in Hr. replace (16 - Z.of_nat w) with
    (Z.of_nat (length l - w) + (16 - Z.of_nat (length l))) by lia.
  rewrite Z.pow_add_r by lia. split.
  - rewrite <- (take_drop w l) at 1. rewrite value_app, length_drop. ring.
  - split; [lia|]. apply Z.mul_lt_mono_pos_r; lia.
Qed.

Lemma Peek_conv w l : (w ≤ length l ≤ 16)%nat → Peek (Z.of_nat w) (conv l) = value (take w l).
Proof.
  intros Hw. unfold Peek, buffer_length. destruct (conv_split w l Hw) as [-> Hr].
  rewrite Z.shiftr_div_pow2, Z.div_add_l, Z.div_small by lia. lia.
Qed.

Lemma Peek_conv_short w l :
  (length l ≤ w ≤ 16)%nat →
  Peek (Z.of_nat w) (conv l) = value l * 2 ^ (Z.of_nat w - Z.of_nat (length l)).
Proof.
  intros Hw. unfold Peek, buffer_length. cbn [buffer_ conv]. rewrite Z.shiftr_div_pow2 by lia.
  replace (16 - Z.of_nat (length l)) with
    ((Z.of_nat w - Z.of_nat (length l)) + (16 - Z.of_nat w)) by lia.
  rewrite Z.pow_add_r, Z.mul_assoc, Z.div_mul by lia. done.
Qed.

Lemma Extract_conv w l :
  (w ≤ length l ≤ 16)%nat →
  Extract (Z.of_nat w) (conv l) ⇓ (value (take w l), conv (drop w l)).
Proof.
  intros Hw. unfold Extract, CanExtract, BitsAvailable, buffer_length. cbn [lower_free_bits_ conv].
  rewrite (proj2 (Z.leb_le _ _)), fml_dcheck_true by lia. cbn [mbind result_bind].
  rewrite Peek_conv by done. f_equal. f_equal. destruct (conv_split w l Hw) as [Hb Hr].
  rewrite Hb. unfold conv. cbn [lower_free_bits_]. rewrite length_drop. f_equal; [|lia].
  unfold mask_, buffer_length. change (Z.shiftl 1 16 - 1) with (Z.ones 16).
  rewrite Z.land_ones, Z.shiftl_mul_pow2, Z.mul_add_distr_r by lia.
  replace (value (take w l) * 2 ^ (16 - Z.of_nat w) * 2 ^ Z.of_nat w) with (value (take w l) * 2 ^ 16).
  - rewrite Z.add_comm, Z.mod_add by lia. rewrite Z.mod_small.
    + rewrite <- Z.mul_assoc, <- Z.pow_add_r by lia. do 2 f_equal. lia.
    + split; [lia|]. replace 16 with ((16 - Z.of_nat w) + Z.of_nat w) at 2 by lia.
      rewrite (Z.pow_add_r 2 (16 - Z.of_nat w)) by lia. apply Z.mul_lt_mono_pos_r; lia.
  - rewrite <- Z.mul_assoc, <- Z.pow_add_r by lia. do 2 f_equal. lia.
Qed.

Lemma CanExtract_conv w l : CanExtract (Z.of_nat w) (conv l) = (w <=? length l)%nat.
Proof.
  unfold CanExtract, BitsAvailable, buffer_length. cbn [lower_free_bits_ conv].
  destruct (Nat.leb_spec w (length l)); [apply Z.leb_le|apply Z.leb_gt]; lia.
Qed.

Lemma CanAppend_conv w l : (length l ≤ 16)%nat → CanAppend (Z.of_nat w) (conv l) = (length l + w <=? 16)%nat.
Proof.
  intros. unfold CanAppend. cbn [lower_free_bits_ conv].
  destruct (Nat.leb_spec (length l + w) 16); [apply Z.leb_le|apply Z.leb_gt]; lia.
Qed.
End converter_lemmas.

(** ** Reference: regrouping the bits of the whole input *)

Definition bit_string (w : nat) (l : list Z) : list bool := concat (bits w <$> l).

Fixpoint quintets (l : list bool) : list Z :=
  match l with
  | [] => []
  | a :: b :: c :: d :: e :: l => value [a; b; c; d; e] :: quintets l
  | _ => [value l * 2 ^ (5 - Z.of_nat (length l))]
  end.

(** The whole octets of a bit string, and the bits left over. *)
Fixpoint octets (l : list bool) : list Z :=
  match l with
  | a :: b :: c :: d :: e :: f :: g :: h :: l => value [a; b; c; d; e; f; g; h] :: octets l
  | _ => []
  end.

Fixpoint left_over (l : list bool) : list bool :=
  match l with
  | _ :: _ :: _ :: _ :: _ :: _ :: _ :: _ :: l => left_over l
  | _ => l
  end.

Definition letter (x : Z) : Z := nth (Z.to_nat x) kEncoding 0.

Ltac split_list l n :=
  lazymatch n with
  | O => idtac
  | S ?n => destruct l as [|? l]; [cbn in *; lia|split_list l n]
  end.

Lemma quintets_app g l : length g = 5%nat → quintets (g ++ l) = value g :: quintets l.
Proof. intros Hg. split_list g 5%nat. by destruct g. Qed.

Lemma quintets_short l : (0 < length l < 5)%nat → quintets l = [value l * 2 ^ (5 - Z.of_nat (length l))].
Proof. intros Hl. do 5 (destruct l as [|? l]; [cbn in *; first [lia|done]|]). cbn in Hl. lia. Qed.

Lemma octets_app g l : length g = 8%nat → octets (g ++ l) = value g :: octets l.
Proof. intros Hg. split_list g 8%nat. by destruct g. Qed.

Lemma left_over_app g l : length g = 8%nat → left_over (g ++ l) = left_over l.
Proof. intros Hg. split_list g 8%nat. by destruct g. Qed.

Lemma octets_short l : (length l < 8)%nat → octets l = [] ∧ left_over l = l.
Proof. intros Hl. do 8 (destruct l as [|? l]; [done|]). cbn in Hl. lia. Qed.

Lemma octets_bytes s l :
  bytes_ok s → (length l < 8)%nat →
  octets (bit_string 8 s ++ l) = s ∧ left_over (bit_string 8 s ++ l) = l.
Proof.
  intros Hs Hl. induction Hs as [|b s Hb _ [IH1 IH2]]; [by apply octets_short|].
  unfold bit_string. cbn [fmap list_fmap concat]. rewrite <- app_assoc.
  rewrite octets_app, left_over_app by done. split; [|done].
  f_equal; [|done]. rewrite value_bits. by apply Z.mod_small.
Qed.

Lemma value_padding l : ∀ k, value (l ++ replicate k false) = value l * 2 ^ Z.of_nat k.
Proof.
  intros k. rewrite value_app, length_replicate. replace (value (replicate k false)) with 0; [lia|].
  induction k as [|k IH]; [done|]. cbn [replicate value]. rewrite <- IH. cbn. lia.
Qed.

(** The groups of five, written out again, are the bits and a zero padding. *)
Lemma quintets_bits n l :
  (length l ≤ n)%nat →
  Forall (λ x, 0 ≤ x < 32) (quintets l) ∧
  ∃ k, (k < 5)%nat ∧ bit_string 5 (quintets l) = l ++ replicate k false.
Proof.
  revert l. induction n as [n IH] using lt_wf_ind. intros l Hl.
  destruct (decide (5 ≤ length l)%nat) as [H5|H5].
  - rewrite <- (take_drop 5 l), quintets_app by (rewrite length_take; lia).
    assert (Hg : length (take 5 l) = 5%nat) by (rewrite length_take; lia).
    destruct (IH (n - 5)%nat ltac:(lia) (drop 5 l)) as (Hq & k & Hk & Hb).
    { rewrite length_drop. lia. }
    assert (Hr := value_range (take 5 l)). rewrite Hg in Hr. split; [by constructor|].
    exists k. split; [done|]. unfold bit_string in *. cbn [fmap list_fmap concat]. rewrite Hb.
    rewrite <- app_assoc. f_equal. rewrite <- Hg at 1. apply bits_value.
  - destruct (decide (length l = 0%nat)) as [->%nil_length_inv|].
    { split; [constructor|]. exists 0%nat. split; [lia|done]. }
    assert (Hr := value_range (l ++ replicate (5 - length l) false)).
    assert (Hlen : length (l ++ replicate (5 - length l) false) = 5%nat)
      by (rewrite length_app, length_replicate; lia).
    rewrite Hlen in Hr. rewrite quintets_short by lia.
    replace (5 - Z.of_nat (length l)) with (Z.of_nat (5 - length l)) by lia.
    rewrite <- value_padding. split; [constructor; [exact Hr|constructor]|].
    exists (5 - length l)%nat. split; [lia|]. unfold bit_string. cbn [fmap list_fmap concat].
    rewrite app_nil_r. rewrite <- Hlen at 1. by rewrite bits_value.
Qed.

(** A property of the thirty-two groups is checked on each of them. *)
Lemma quintet_cases (P : Z → Prop) : Forall P (Z.of_nat <$> seq 0 32) → ∀ x, 0 ≤ x < 32 → P x.
Proof.
  intros HP x Hx. rewrite Forall_forall in HP. apply HP, list_elem_of_fmap.
  exists (Z.to_nat x). rewrite elem_of_seq. lia.
Qed.

Lemma letter_at x : 0 ≤ x < 32 → array_at kEncoding x ⇓ letter x.
Proof.
  revert x. apply quintet_cases. repeat (apply Forall_cons; split; [by vm_compute|]). apply Forall_nil_2.
Qed.

(** The two tables are inverse to each other. *)
Lemma letter_range `{Char} x :
  0 ≤ x < 32 →
  0 ≤ char_value (letter x) - 50 < Z.of_nat (length kDecodeMap) ∧
  array_at kDecodeMap (char_value (letter x) - 50) ⇓ x.
Proof.
  unfold char_value. revert x. apply quintet_cases.
  destruct char_signed; repeat (apply Forall_cons; split; [by vm_compute|]); apply Forall_nil_2.
Qed.

Section codec_lemmas.
Context `{Build, Char}.

Lemma encode_loop_spec fuel l rest output :
  bytes_ok rest → (length l ≤ 16)%nat → (rest ≠ [] → 5 ≤ length l)%nat →
  (length l + 8 * length rest < 5 * fuel)%nat →
  ∃ m output', encode_loop fuel (conv l) rest output ⇓ (conv m, output') ∧ (length m < 5)%nat ∧
    output' ++ (letter <$> quintets m) = output ++ (letter <$> quintets (l ++ bit_string 8 rest)).
Proof.
  revert l rest output. induction fuel as [|fuel IH]; intros l rest output Hrest Hl Hne Hfuel; [lia|].
  cbn [encode_loop]. rewrite (CanExtract_conv 5). destruct (Nat.leb_spec 5 (length l)) as [H5|H5].
  - rewrite (Extract_conv 5) by lia. cbn [mbind result_bind].
    assert (Hg : length (take 5 l) = 5%nat) by (rewrite length_take; lia).
    assert (Hd : length (drop 5 l) = (length l - 5)%nat) by apply length_drop.
    assert (Hr := value_range (take 5 l)). rewrite Hg in Hr.
    rewrite (letter_at _ Hr). cbn [mbind result_bind]. rewrite (CanAppend_conv 8) by lia.
    assert (Hstep : ∀ r, letter <$> quintets (l ++ r) =
                         [letter (value (take 5 l))] ++ (letter <$> quintets (drop 5 l ++ r))).
    { intros r. rewrite <- (take_drop 5 l) at 1. by rewrite <- app_assoc, quintets_app. }
    rewrite Hstep. setoid_rewrite app_assoc.
    destruct (Nat.leb_spec (length (drop 5 l) + 8) 16) as [H8|H8]; destruct rest as [|b rest].
    + apply IH; [done|lia|done|lia].
    + apply Forall_cons in Hrest as [Hb Hrest]. rewrite (Append_conv 8) by done. cbn [mbind result_bind].
      destruct (IH (drop 5 l ++ bits 8 b) rest (output ++ [letter (value (take 5 l))]))
        as (m & output' & He & Hm & Ho); [done|rewrite length_app, length_bits; cbn in *; lia..|].
      exists m, output'. split_and!; [done..|]. rewrite Ho. unfold bit_string.
      cbn [fmap list_fmap concat]. by rewrite <- (app_assoc (drop 5 l)).
    + apply IH; [done|lia|done|lia].
    + apply IH; [done|lia|lia|cbn in *; lia].
  - destruct rest; [|destruct (Nat.lt_irrefl 4); specialize (Hne ltac:(done)); lia].
    exists l, output. unfold bit_string. cbn. by rewrite app_nil_r.
Qed.

Lemma decode_loop_spec l q res :
  (length l < 8)%nat → Forall (λ x, 0 ≤ x < 32) q →
  decode_loop (conv l) (letter <$> q) res ⇓
    (Some (conv (left_over (l ++ bit_string 5 q))), res ++ octets (l ++ bit_string 5 q)).
Proof.
  intros Hl Hq. revert l res Hl. induction Hq as [|x q Hx _ IH]; intros l res Hl.
  { unfold bit_string. cbn. rewrite app_nil_r. destruct (octets_short l Hl) as [-> ->].
    by rewrite app_nil_r. }
  cbn [decode_loop fmap list_fmap]. destruct (letter_range x Hx) as (Hi & ->).
  rewrite (proj2 (Z.ltb_ge _ _)), (proj2 (Z.leb_gt _ _)) by lia. cbn [orb mbind result_bind].
  rewrite (proj2 (Z.eqb_neq _ _)) by lia. rewrite (Append_conv 5) by (done || lia).
  cbn [mbind result_bind]. unfold bit_string. cbn [fmap list_fmap concat]. rewrite app_assoc.
  fold (bit_string 5 q). set (l' := l ++ bits 5 x).
  assert (Hl' : length l' = (length l + 5)%nat) by (unfold l'; by rewrite length_app, length_bits).
  rewrite (CanExtract_conv 8). destruct (Nat.leb_spec 8 (length l')) as [H8|H8]; [|by apply IH].
  rewrite (Extract_conv 8) by lia. cbn [mbind result_bind].
  assert (Hg : length (take 8 l') = 8%nat) by (rewrite length_take; lia).
  assert (Hr := value_range (take 8 l')). rewrite Hg in Hr.
  rewrite wrapU_id, IH by (done || (rewrite length_drop; lia)).
  assert (Hsplit : l' ++ bit_string 5 q = take 8 l' ++ drop 8 l' ++ bit_string 5 q)
    by (by rewrite app_assoc, take_drop).
  rewrite Hsplit, (octets_app (take 8 l')), (left_over_app (take 8 l')) by done. by rewrite <- (app_assoc res).
Qed.

(** The first byte goes through a plain [char]. *)
Definition encodable (s : list Z) : Prop :=
  bytes_ok s ∧ Z.of_nat (length s) ≤ size_max / 8 ∧
  match s with b :: _ => char_signed = false ∨ b < 128 | [] => True end.

Lemma char_value_first b : 0 ≤ b < 256 → char_signed = false ∨ b < 128 → char_value b = b.
Proof.
  intros Hb Hc. unfold char_value. destruct char_signed; [|done]. destruct Hc as [|Hc]; [done|].
  apply wrapS_id; cbn; lia.
Qed.

Lemma Base32Encode_spec s :
  encodable s → Base32Encode s ⇓ (true, letter <$> quintets (bit_string 8 s)).
Proof.
  intros (Hs & Hlen & Hfirst). destruct s as [|b s]; [done|]. unfold Base32Encode.
  rewrite (proj2 (Z.ltb_ge _ _)) by done. apply Forall_cons in Hs as [Hb Hs].
  rewrite char_value_first by done. change new_bit_converter with (conv []).
  rewrite (Append_conv 8) by (cbn; done || lia). cbn [mbind result_bind app].
  destruct (encode_loop_spec (2 * length (b :: s) + 1) (bits 8 b) s []) as (m & out & -> & Hm & Hout);
    [done|cbn; lia..|].
  cbn [mbind result_bind]. unfold BitsAvailable, buffer_length. cbn [conv lower_free_bits_].
  unfold bit_string at 1. cbn [fmap list_fmap concat]. fold (bit_string 8 s). cbn [app] in Hout.
  rewrite <- Hout. destruct (Z.ltb_spec 0 (16 - (16 - Z.of_nat (length m)))) as [Hpos|Hpos].
  - assert (Hq := proj1 (quintets_bits _ m (Nat.le_refl _))).
    rewrite quintets_short in Hq |- * by lia. apply Forall_cons in Hq as [Hq _].
    pose proof (Peek_conv_short 5 m ltac:(lia)) as Hp. cbn [conv] in Hp.
    change (Z.of_nat 5) with 5 in Hp. rewrite Hp. by rewrite (letter_at _ Hq).
  - assert (m = []) as -> by (apply nil_length_inv; lia). cbn. by rewrite app_nil_r.
Qed.
End codec_lemmas.

(** ** Claims *)

(** [Base32Encode] regroups the bits of the whole input in fives, most
    significant bit first and padded with zeros, and writes one letter of the
    alphabet for each group; it terminates and no check fails.  Where [char]
    is signed the first byte has to be ASCII. *)
Theorem base32_encode_ref `{Build, Char} s :
  encodable s → Base32Encode s ⇓ (true, letter <$> quintets (bit_string 8 s)).
Proof. apply Base32Encode_spec. Qed.

(** Base32 round trip: what [Base32Encode] writes, [Base32Decode] accepts
    and decodes to the same bytes. *)
Theorem base32_roundtrip `{Build, Char} s :
  encodable s → ∃ text, Base32Encode s ⇓ (true, text) ∧ Base32Decode text ⇓ (true, s).
Proof.
  intros Hs. exists (letter <$> quintets (bit_string 8 s)). split; [by apply Base32Encode_spec|].
  destruct (quintets_bits _ (bit_string 8 s) (Nat.le_refl _)) as (Hq & k & Hk & Hbits).
  unfold Base32Decode. change new_bit_converter with (conv []).
  rewrite decode_loop_spec by (done || (cbn; lia)). cbn [mbind result_bind app]. rewrite Hbits.
  destruct (octets_bytes s (replicate k false)) as [-> ->]; [apply Hs|rewrite length_replicate; lia|].
  pose proof (Peek_conv_short 8 (replicate k false)) as Hp. change (Z.of_nat 8) with 8 in Hp.
  rewrite Hp by (rewrite length_replicate; lia).
  pose proof (value_padding [] k) as Hz. cbn in Hz. by rewrite Hz.
Qed.

(** ** Concrete runs *)

#[local] Instance checked_build : Build := {| debug := true |}.
#[local] Instance signed_char : Char := {| char_signed := true |}.

Lemma base32_encode_ref_witness : Base32Encode (str "hi") ⇓ (true, str "NBUQ").
Proof.
  apply (base32_encode_ref (str "hi")). unfold encodable. cbn. split_and!; [|done|by right].
  repeat constructor; cbn; lia.
Defined.

Lemma base32_roundtrip_witness :
  ∃ text, Base32Encode [104; 255; 0] ⇓ (true, text) ∧ Base32Decode text ⇓ (true, [104; 255; 0]).
Proof.
  apply (base32_roundtrip [104; 255; 0]). unfold encodable. cbn. split_and!; [|done|by right].
  repeat constructor; cbn; lia.
Defined.

(** The first byte is not converted to [uint8_t] like the others: where
    [char] is signed, an input that starts with a byte above 127 shifts a
    negative number. *)
Theorem base32_encode_signed : Base32Encode [255] ⇑ UndefinedBehaviour.
Proof. by vm_compute. Qed.
