(* ===== verification/Paths.v ===== *)
(** * Paths: file paths and file URIs

    Model of fml/paths.cc and fml/platform/posix/paths_posix.cc.  Strings are
    lists of bytes; the current directory is what [getcwd] gives, if it does.
    The unescaping of URIs is compared with a reference decoder, and undoes
    every escaping of a path. *)

From Stdlib Require Import ZArith Lia String.
From stdpp Require Import base sorting gmap numbers list.
From S2P Require Import Prelude Bytes Base32.

Local Open Scope Z_scope.

(** ** Characters *)

Definition slash : Z := 47.
Definition percent : Z := 37.

(** The value of a hexadecimal digit. *)
Definition hex_value (c : Z) : option Z :=
  if (48 <=? c) && (c <=? 57) then Some (c - 48)
  else if (65 <=? c) && (c <=? 70) then Some (c - 55)
  else if (97 <=? c) && (c <=? 102) then Some (c - 87)
  else None.

Definition hex_digit (upper : bool) (d : Z) : Z := if d <? 10 then 48 + d else if upper then 55 + d else 87 + d.

(** [isxdigit] of a [char], which has no meaning for a negative one. *)
Definition isxdigit `{Char} (c : Z) : result bool :=
  if char_value c <? 0 then Fault UndefinedBehaviour else mret (bool_decide (is_Some (hex_value c))).

(** [str[i]], which at the end of the string is its terminator. *)
Definition string_at (s : list Z) (i : Z) : result Z :=
  if i =? Z.of_nat (length s) then mret 0 else array_at s i.

(** ** fml/paths.cc *)

Fixpoint JoinPaths (components : list (list Z)) : list Z :=
  match components with
  | [] => []
  | [component] => component
  | component :: components => component ++ slash :: JoinPaths components
  end.

(** The loop at [i], with what it has read so far. *)
Fixpoint sanitize_loop `{Char} (fuel : nat) (s : list Z) (i : Z) (res : list Z) : result (list Z) :=
  match fuel with
  | O => Fault OutOfFuel
  | S fuel =>
      if i <? Z.of_nat (length s) then
        c ← string_at s i;
        if c =? percent then
          if wrapU 64 (Z.of_nat (length s) - 3) <? i then mret []
          else
            c1 ← string_at s (i + 1); x1 ← isxdigit c1;
            if negb x1 then mret []
            else
              c2 ← string_at s (i + 2); x2 ← isxdigit c2;
              if negb x2 then mret []
              else
                let v := 16 * default 0 (hex_value c1) + default 0 (hex_value c2) in
                if v =? 0 then mret [] else sanitize_loop fuel s (i + 3) (res ++ [v])
        else sanitize_loop fuel s (i + 1) (res ++ [c])
      else mret res
  end.

Definition SanitizeURIEscapedCharacters `{Char} (s : list Z) : result (list Z) := sanitize_loop (S (length s)) s 0 [].

(** ** fml/platform/posix/paths_posix.cc *)

Definition kFileURLPrefix : list Z := str "file://".

Definition FromURI `{Char} (uri : list Z) : result (list Z) :=
  if negb (bool_decide (take (length kFileURLPrefix) uri = kFileURLPrefix)) then mret uri
  else SanitizeURIEscapedCharacters (drop (length kFileURLPrefix) uri).

Definition GetCurrentDirectory (getcwd : option (list Z)) : result (list Z) := of_option CheckFailed getcwd.

Definition AbsolutePath (getcwd : option (list Z)) (path : list Z) : result (list Z) :=
  if 0 <? Z.of_nat (length path) then
    c ← string_at path 0;
    if c =? slash then mret path
    else cwd ← GetCurrentDirectory getcwd; mret (cwd ++ slash :: path)
  else GetCurrentDirectory getcwd.

(** [rfind]: the last position of a character. *)
Fixpoint rfind (c : Z) (s : list Z) : option nat :=
  match s with
  | [] => None
  | x :: s => match rfind c s with Some i => Some (S i) | None => if x =? c then Some 0%nat else None end
  end.

Definition GetDirectoryName (path : list Z) : list Z :=
  match rfind slash path with
  | Some 0%nat => [slash]
  | None => []
  | Some separator => take separator path
  end.

(** ** The reference decoder *)

Fixpoint decode_uri (s : list Z) : option (list Z) :=
  match s with
  | [] => Some []
  | c :: s =>
      if c =? percent then
        match s with
        | c1 :: c2 :: s =>
            h1 ← hex_value c1; h2 ← hex_value c2;
            if 16 * h1 + h2 =? 0 then None else (16 * h1 + h2 ::.) <$> decode_uri s
        | _ => None
        end
      else (c ::.) <$> decode_uri s
  end.

(** Characters that [escaped] picks, and the percent sign, as escapes. *)
Definition escape_uri (escaped : Z → bool) (upper : bool) (s : list Z) : list Z :=
  s ≫= λ c, if escaped c || (c =? percent) then [percent; hex_digit upper (c / 16); hex_digit upper (c `mod` 16)] else [c].

(** ** Proofs *)

Lemma hex_value_digit upper d : 0 ≤ d < 16 → hex_value (hex_digit upper d) = Some d.
Proof. intros Hd. unfold hex_value, hex_digit. destruct upper; case_bools; f_equal; lia. Qed.

Lemma hex_value_zero : hex_value 0 = None.
Proof. done. Qed.

Lemma hex_value_range c h : hex_value c = Some h → 48 ≤ c ≤ 102 ∧ 0 ≤ h < 16.
Proof. unfold hex_value. intros Hc. case_bools; simplify_eq; lia. Qed.

Lemma decode_escape escaped upper s :
  Forall (λ c, 0 < c < 256) s → decode_uri (escape_uri escaped upper s) = Some s.
Proof.
  unfold escape_uri. induction 1 as [|c s Hc _ IH]; [done|]. cbn [mbind list_bind].
  destruct (escaped c || (c =? percent)) eqn:He.
  - cbn [app decode_uri]. pose proof (Z.div_mod c 16). pose proof (Z.mod_pos_bound c 16).
    rewrite Z.eqb_refl, !hex_value_digit by lia. cbn [mbind option_bind]. replace (16 * (c / 16) + c `mod` 16) with c by lia.
    rewrite (proj2 (Z.eqb_neq c 0)) by lia. by rewrite IH.
  - apply orb_false_iff in He as [_ Hp]. cbn [app decode_uri]. by rewrite Hp, IH.
Qed.

(** The text is such that [isxdigit] has a meaning. *)
Definition plain_chars `{Char} (s : list Z) : Prop := Forall (λ c, 0 ≤ c < 256 ∧ (char_signed = true → c < 128)) s.

Section paths.
Context `{Char}.

Lemma isxdigit_plain c : 0 ≤ c < 256 → (char_signed = true → c < 128) → isxdigit c ⇓ bool_decide (is_Some (hex_value c)).
Proof.
  intros Hc Hs. unfold isxdigit, char_value. destruct char_signed eqn:Hsig; [rewrite wrapS_id by (cbn; specialize (Hs eq_refl); lia)|];
    by rewrite (proj2 (Z.ltb_ge c 0)) by lia.
Qed.

Lemma string_at_app s c t : string_at (s ++ c :: t) (Z.of_nat (length s)) ⇓ c.
Proof.
  unfold string_at, array_at. rewrite length_app. cbn [length].
  rewrite (proj2 (Z.eqb_neq _ _)) by lia. rewrite (proj2 (Z.ltb_ge _ _)) by lia. by rewrite Nat2Z.id, list_lookup_middle.
Qed.

Lemma string_at_end s : string_at s (Z.of_nat (length s)) ⇓ 0.
Proof. unfold string_at. by rewrite Z.eqb_refl. Qed.

(** The characters after a position of the string. *)
Lemma string_at_next pre c rest i :
  i = Z.of_nat (length pre) → string_at (pre ++ c :: rest) (i + 1) ⇓ match rest with [] => 0 | c1 :: _ => c1 end.
Proof.
  intros ->. replace (Z.of_nat (length pre) + 1) with (Z.of_nat (length (pre ++ [c]))) by (rewrite length_app; cbn; lia).
  replace (pre ++ c :: rest) with ((pre ++ [c]) ++ rest) by (by rewrite <- app_assoc).
  destruct rest; [rewrite app_nil_r; apply string_at_end|apply string_at_app].
Qed.

Lemma sanitize_loop_decode fuel s pre rest res :
  s = pre ++ rest → (length rest < fuel)%nat → Z.of_nat (length s) < 2 ^ 64 → plain_chars s →
  sanitize_loop fuel s (Z.of_nat (length pre)) res ⇓ match decode_uri rest with Some d => res ++ d | None => [] end.
Proof.
  intros Hs Hf Hlen Hok. revert pre rest res Hs Hf. induction fuel as [|fuel IH]; intros pre rest res Hs Hf; [lia|].
  cbn [sanitize_loop]. destruct rest as [|c rest].
  { rewrite app_nil_r in Hs. subst pre. rewrite Z.ltb_irrefl. cbn. by rewrite app_nil_r. }
  assert (Hlt : Z.of_nat (length pre) < Z.of_nat (length s)) by (rewrite Hs, length_app; cbn; lia).
  rewrite (proj2 (Z.ltb_lt _ _)) by done. rewrite Hs at 1. rewrite string_at_app. cbn [mbind result_bind decode_uri].
  destruct (c =? percent) eqn:Hp; last first.
  { replace (Z.of_nat (length pre) + 1) with (Z.of_nat (length (pre ++ [c]))) by (rewrite length_app; cbn; lia).
    rewrite (IH (pre ++ [c]) rest); [|by rewrite Hs, <- app_assoc|cbn in Hf; lia].
    destruct (decode_uri rest); cbn; [by rewrite <- app_assoc|done]. }
  assert (Hguard : (wrapU 64 (Z.of_nat (length s) - 3) <? Z.of_nat (length pre)) =
    (3 <=? Z.of_nat (length s)) && (Z.of_nat (length rest) <? 2)).
  { rewrite Hs, length_app in *. cbn [length] in *. destruct (Z.leb_spec 3 (Z.of_nat (length pre + S (length rest)))) as [Hge|Hlt3].
    - rewrite wrapU_id by lia. cbn. apply eq_true_iff_eq. rewrite !Z.ltb_lt. lia.
    - cbn. unfold wrapU. rewrite <- (Z.mod_add _ 1) by lia. rewrite Z.mod_small by lia. apply Z.ltb_ge. lia. }
  rewrite Hguard. clear Hguard.
  assert (Hplain : ∀ x, x ∈ 0 :: rest → isxdigit x ⇓ bool_decide (is_Some (hex_value x))).
  { intros x Hx. assert (0 ≤ x < 256 ∧ (char_signed = true → x < 128)) as [??]; [|by apply isxdigit_plain].
    apply elem_of_cons in Hx as [->|Hx]; [lia|]. unfold plain_chars in Hok. rewrite Forall_forall in Hok. apply Hok.
    rewrite Hs. set_solver. }
  rewrite Hs at 2. rewrite (string_at_next pre c rest _ eq_refl).
  destruct rest as [|c1 [|c2 rest]].
  - destruct (3 <=? Z.of_nat (length s)); [done|]. cbn [length Z.of_nat Z.ltb Z.compare andb mbind result_bind].
    by rewrite (Hplain 0) by set_solver.
  - destruct (Z.leb_spec 3 (Z.of_nat (length s))) as [|Hsmall]; [done|]. cbn [andb mbind result_bind].
    rewrite (Hplain c1) by set_solver. cbn [mbind result_bind]. case_bool_decide; [|done]. cbn [negb].
    replace (Z.of_nat (length pre) + 2) with (Z.of_nat (length s)) by (rewrite Hs, length_app in *; cbn in *; lia).
    rewrite string_at_end. cbn [mbind result_bind]. by rewrite (Hplain 0) by set_solver.
  - rewrite andb_comm. replace (Z.of_nat (length (c1 :: c2 :: rest)) <? 2) with false by (symmetry; apply Z.ltb_ge; cbn; lia).
    cbn [andb mbind result_bind]. rewrite (Hplain c1) by set_solver. cbn [mbind result_bind].
    destruct (hex_value c1) as [h1|] eqn:H1; [|rewrite bool_decide_eq_false_2 by (by intros [? ?]); done]. rewrite bool_decide_eq_true_2 by done. cbn [negb].
    replace (Z.of_nat (length pre) + 2) with (Z.of_nat (length (pre ++ [c])) + 1) by (rewrite length_app; cbn; lia).
    rewrite Hs at 1. replace (pre ++ c :: c1 :: c2 :: rest) with ((pre ++ [c]) ++ c1 :: c2 :: rest) by (by rewrite <- app_assoc).
    rewrite (string_at_next _ c1 _ _ eq_refl). cbn [mbind result_bind]. rewrite (Hplain c2) by set_solver. cbn [mbind result_bind].
    destruct (hex_value c2) as [h2|] eqn:H2; [|rewrite bool_decide_eq_false_2 by (by intros [? ?]); done]. rewrite bool_decide_eq_true_2 by done. cbn [negb default mbind option_bind].
    cbn [id]. destruct (16 * h1 + h2 =? 0); [done|].
    replace (Z.of_nat (length pre) + 3) with (Z.of_nat (length (pre ++ [c; c1; c2]))) by (rewrite length_app; cbn; lia).
    rewrite (IH (pre ++ [c; c1; c2]) rest); [|by rewrite Hs, <- app_assoc|cbn in Hf; lia].
    destruct (decode_uri rest); cbn; [by rewrite <- app_assoc|done].
Qed.

(** The index loop, whose guard wraps around for strings of fewer than three
    characters, never reads past the terminator and is the reference decoder. *)
Theorem sanitize_decodes s :
  Z.of_nat (length s) < 2 ^ 64 → plain_chars s → SanitizeURIEscapedCharacters s ⇓ default [] (decode_uri s).
Proof.
  intros Hlen Hok. unfold SanitizeURIEscapedCharacters.
  rewrite (sanitize_loop_decode _ s [] s []); [by destruct (decode_uri s)|done|lia|done|done].
Qed.

Lemma escape_plain escaped upper s :
  Forall (λ c, 0 < c < 256) s → (∀ c, 128 ≤ c → escaped c = true) → plain_chars (escape_uri escaped upper s).
Proof.
  intros Hs Hesc. assert (Hd : ∀ d, 0 ≤ d < 16 → 0 ≤ hex_digit upper d < 128).
  { intros d Hd. unfold hex_digit. destruct upper; case_bools; lia. }
  induction Hs as [|c s Hc _ IH]; [constructor|]. unfold escape_uri in *. cbn [mbind list_bind].
  apply Forall_app. split; [|done]. destruct (escaped c || (c =? percent)) eqn:He.
  - pose proof (Z.div_mod c 16). pose proof (Z.mod_pos_bound c 16).
    pose proof (Hd (c / 16)). pose proof (Hd (c `mod` 16)). repeat constructor; unfold percent; lia.
  - repeat constructor; try lia. intros _. destruct (Z.lt_ge_cases c 128) as [|Hge]; [done|]. by rewrite (Hesc c Hge) in He.
Qed.

(** Every path without a null character is read back from each of its file
    URIs, whichever characters these escape besides the percent sign and the
    characters beyond ASCII, in lower or upper case. *)
Theorem file_uri_roundtrip escaped upper path :
  Forall (λ c, 0 < c < 256) path → (∀ c, 128 ≤ c → escaped c = true) →
  Z.of_nat (length (escape_uri escaped upper path)) < 2 ^ 64 →
  FromURI (kFileURLPrefix ++ escape_uri escaped upper path) ⇓ path.
Proof.
  intros Hp Hesc Hlen. unfold FromURI. rewrite take_app_length, bool_decide_eq_true_2, drop_app_length by done. cbn [negb].
  rewrite sanitize_decodes; [|done|by apply escape_plain]. by rewrite decode_escape.
Qed.
End paths.

(** ** Directories *)

Lemma rfind_none c s : rfind c s = None ↔ c ∉ s.
Proof.
  induction s as [|x s IH]; cbn; [set_solver|]. destruct (rfind c s) as [i|] eqn:Hr.
  - split; [done|]. intros Hn. exfalso. assert (c ∉ s) as Hc by set_solver. by apply IH in Hc.
  - destruct (Z.eqb_spec x c); [set_solver|]. split; [|done]. intros _. assert (c ∉ s) by (by apply IH). set_solver.
Qed.

Lemma rfind_last c s t : c ∉ t → rfind c (s ++ c :: t) = Some (length s).
Proof.
  intros Ht%rfind_none. induction s as [|x s IH]; cbn; [by rewrite Ht, Z.eqb_refl|]. by rewrite IH.
Qed.

(** The directory of a file in a directory is that directory. *)
Theorem directory_of_joined directory file :
  slash ∉ file → GetDirectoryName (JoinPaths [directory; file]) = if decide (directory = []) then [slash] else directory.
Proof.
  intros Hf. unfold GetDirectoryName. cbn [JoinPaths]. rewrite rfind_last by done.
  destruct directory as [|c directory]; [done|]. by rewrite decide_False, take_app_length.
Qed.

Theorem absolute_path_absolute cwd path p :
  head cwd = Some slash → AbsolutePath (Some cwd) path ⇓ p →
  head p = Some slash ∧ AbsolutePath (Some cwd) p ⇓ p.
Proof.
  intros Hcwd Hr. assert (Hhead : head p = Some slash).
  { revert Hr. unfold AbsolutePath. destruct path as [|c path]; [by intros [= <-]|].
    change (string_at (c :: path) 0) with (Ok c). rewrite (proj2 (Z.ltb_lt _ _)) by (cbn; lia). cbn.
    destruct (Z.eqb_spec c slash) as [->|]; intros Hr; apply Ok_inj in Hr; subst p; [done|]. by destruct cwd. }
  split; [done|]. destruct p as [|c p]; [done|]. cbn in Hhead. by injection Hhead as ->.
Qed.

(** ** Examples *)

#[local] Instance signed_char : Char := {| char_signed := true |}.

Lemma file_uri_roundtrip_witness : FromURI (str "file:///a%20b%c3%a9") ⇓ [47; 97; 32; 98; 195; 169].
Proof.
  refine (file_uri_roundtrip (λ c, (c =? 32) || (128 <=? c)) false [47; 97; 32; 98; 195; 169] _ _ _).
  - by repeat constructor.
  - intros c Hc. by rewrite (proj2 (Z.leb_le 128 c) Hc), orb_true_r.
  - reflexivity.
Defined.

Example sanitize_tests :
  SanitizeURIEscapedCharacters (str "hello") ⇓ str "hello" ∧ SanitizeURIEscapedCharacters (str "hello%20world") ⇓ str "hello world" ∧
  SanitizeURIEscapedCharacters (str "%5Chello%5cworld%20foo%20bar%21") ⇓ str "\hello\world foo bar!" ∧
  SanitizeURIEscapedCharacters (str "%2") ⇓ [].
Proof. by vm_compute. Qed.

(** Where [char] is signed, a character beyond ASCII after a percent sign is
    passed to [isxdigit] as a negative number. *)
Theorem sanitize_negative_char : SanitizeURIEscapedCharacters [47; 97; percent; 195; 169] ⇑ UndefinedBehaviour.
Proof. by vm_compute. Qed.
