(* ===== verification/RasterCache.v ===== *)
(** * RasterCache: images of pictures and layers kept across frames

    Model of [flutter::RasterCache] (flow/raster_cache.{h,cc} and
    flow/raster_cache_key.h).  Skia is a parameter: its matrices, rectangles,
    pictures and surfaces are what the class [Skia] says.  Drawing is the list
    of canvas operations that reach the surface, and every surface requested
    from Skia is reported by the call that requests it.  The decomposition of
    the matrix (flow/matrix_decomposition.cc) enters through [matrix_valid].

    The caches are [std::unordered_map]s under the keys' [Equal]; they are
    association lists here.  Comparing matrices compares floats, so [Equal] is
    symmetric and transitive but not reflexive on a matrix with a NaN. *)

From Stdlib Require Import ZArith Lia.
From stdpp Require Import base sorting gmap numbers list.
From S2P Require Import Prelude.

Local Open Scope Z_scope.

Class Skia := {
  SkScalar : Type;
  SkMatrix : Type;
  SkRect : Type;
  SkImage : Type;
  SkPicture : Type;
  SkSurface : Type;
  GrContext : Type;
  SkColorSpace : Type;
  getTranslateX : SkMatrix → SkScalar;
  getTranslateY : SkMatrix → SkScalar;
  setTranslateX : SkScalar → SkMatrix → SkMatrix;
  setTranslateY : SkScalar → SkMatrix → SkMatrix;
  SkScalarFraction : SkScalar → SkScalar;
  scalar_is_zero : SkScalar → bool;
  matrix_eqb : SkMatrix → SkMatrix → bool;
  matrix_valid : SkMatrix → bool;
  rect_isEmpty : SkRect → bool;
  rect_isFinite : SkRect → bool;
  cullRect : SkPicture → SkRect;
  approximateOpCount : SkPicture → Z;
  uniqueID : SkPicture → Z;
  (** [mapRect] and [roundOut]: left, top, width and height. *)
  device_bounds : SkRect → SkMatrix → Z * Z * Z * Z;
  MakeRenderTarget : GrContext → Z → Z → SkColorSpace → option SkSurface;
  MakeRaster : Z → Z → SkColorSpace → option SkSurface;
  image_width : SkImage → Z;
  image_height : SkImage → Z;
}.

(** [SUPPORT_FRACTIONAL_TRANSLATION] and [FLUTTER_RELEASE]. *)
Class CacheBuild := { fractional_translation : bool; flutter_release : bool }.

Section raster_cache.
Context `{Build, CacheBuild, Skia}.

(** The part of a layer the cache uses (flow/layers/layer.h). *)
Record Layer := mkLayer {
  layer_unique_id : Z;
  paint_bounds : SkRect;
  needs_painting : bool;
}.

Inductive CanvasOp :=
  | CanvasClear
  | CanvasTranslate (dx dy : Z)
  | CanvasConcat (m : SkMatrix)
  | CanvasDrawPicture (p : SkPicture)
  | CanvasPaintLayer (l : Layer) (with_raster_cache : bool)
  | CanvasCheckerboard (r : SkRect).

(** [surface->makeImageSnapshot()] after the operations on its canvas. *)
Context (makeImageSnapshot : SkSurface → list CanvasOp → option SkImage).

Record RasterCacheResult := mkResult {
  image_ : option SkImage;
  logical_rect_ : option SkRect;
}.

Definition no_result : RasterCacheResult := mkResult None None.
Definition is_valid (r : RasterCacheResult) : bool := bool_decide (is_Some (image_ r)).
Definition image_dimensions (r : RasterCacheResult) : Z * Z :=
  match image_ r with Some i => (image_width i, image_height i) | None => (0, 0) end.

Definition GetDeviceBounds (rect : SkRect) (ctm : SkMatrix) : Z * Z * Z * Z := device_bounds rect ctm.

(** The keys of both caches: [RasterCacheKey<ID>]. *)
Record RasterCacheKey := mkKey { key_id : Z; key_matrix : SkMatrix }.

Definition new_key (id : Z) (ctm : SkMatrix) : result RasterCacheKey :=
  let m := setTranslateX (SkScalarFraction (getTranslateX ctm)) ctm in
  let m := setTranslateY (SkScalarFraction (getTranslateY ctm)) m in
  _ ← (if fractional_translation then mret tt
       else fml_dcheck (scalar_is_zero (getTranslateX m) && scalar_is_zero (getTranslateY m)));
  mret (mkKey id m).

Definition key_eqb (lhs rhs : RasterCacheKey) : bool :=
  (key_id lhs =? key_id rhs) && matrix_eqb (key_matrix lhs) (key_matrix rhs).

Record Entry := mkEntry {
  used_this_frame : bool;
  access_count : Z;
  entry_image : RasterCacheResult;
}.

Definition new_entry : Entry := mkEntry false 0 no_result.
Abbreviation Cache := (list (RasterCacheKey * Entry)).

Fixpoint cache_find (k : RasterCacheKey) (c : Cache) : option Entry :=
  match c with
  | [] => None
  | (k', e) :: c => if key_eqb k' k then Some e else cache_find k c
  end.

(** [Entry& entry = cache[k]]: [entry_of] is the entry the reference denotes,
    and [cache_put] the cache once the entry has been assigned to. *)
Definition entry_of (k : RasterCacheKey) (c : Cache) : Entry := default new_entry (cache_find k c).

Fixpoint cache_put (k : RasterCacheKey) (entry : Entry) (c : Cache) : Cache :=
  match c with
  | [] => [(k, entry)]
  | (k', e) :: c => if key_eqb k' k then (k', entry) :: c else (k', e) :: cache_put k entry c
  end.

Record RasterCache := mkRasterCache {
  access_threshold_ : Z;
  picture_cache_limit_per_frame_ : Z;
  picture_cached_this_frame_ : Z;
  picture_cache_ : Cache;
  layer_cache_ : Cache;
  checkerboard_images_ : bool;
}.

Definition kDefaultPictureCacheLimitPerFrame : Z := 3.

Definition new_cache (access_threshold picture_cache_limit_per_frame : Z) : RasterCache :=
  mkRasterCache access_threshold picture_cache_limit_per_frame 0 [] [] false.

Definition with_pictures (n : Z) (p : Cache) (c : RasterCache) : RasterCache :=
  mkRasterCache (access_threshold_ c) (picture_cache_limit_per_frame_ c) n p (layer_cache_ c)
    (checkerboard_images_ c).
Definition with_layers (l : Cache) (c : RasterCache) : RasterCache :=
  mkRasterCache (access_threshold_ c) (picture_cache_limit_per_frame_ c) (picture_cached_this_frame_ c)
    (picture_cache_ c) l (checkerboard_images_ c).

Definition CanRasterizePicture (picture : option SkPicture) : bool :=
  match picture with
  | None => false
  | Some p =>
      if rect_isEmpty (cullRect p) then false
      else if negb (rect_isFinite (cullRect p)) then false
      else true
  end.

Definition IsPictureWorthRasterizing (picture : option SkPicture) (will_change is_complex : bool) : bool :=
  if will_change then false
  else if negb (CanRasterizePicture picture) then false
  else if is_complex then true
  else match picture with Some p => 5 <? approximateOpCount p | None => false end.

(** A surface asked of Skia: its size. *)
Record Request := mkRequest { requested_width : Z; requested_height : Z }.

Definition Rasterize (context : option GrContext) (ctm : SkMatrix) (dst_color_space : SkColorSpace)
    (checkerboard : bool) (logical_rect : SkRect) (draw : list CanvasOp) : RasterCacheResult * Request :=
  let '(x, y, width, height) := GetDeviceBounds logical_rect ctm in
  let surface := match context with
                 | Some context => MakeRenderTarget context width height dst_color_space
                 | None => MakeRaster width height dst_color_space
                 end in
  (match surface with
   | None => no_result
   | Some surface =>
       let ops := [CanvasClear; CanvasTranslate (- x) (- y); CanvasConcat ctm] ++ draw ++
                  (if checkerboard then [CanvasCheckerboard logical_rect] else []) in
       mkResult (makeImageSnapshot surface ops) (Some logical_rect)
   end, mkRequest width height).

Definition RasterizePicture (picture : SkPicture) (context : option GrContext) (ctm : SkMatrix)
    (dst_color_space : SkColorSpace) (checkerboard : bool) : RasterCacheResult * Request :=
  Rasterize context ctm dst_color_space checkerboard (cullRect picture) [CanvasDrawPicture picture].

Definition ClampSize (value min max : Z) : Z :=
  if max <? value then max else if value <? min then min else value.

(** [entry.access_count = ClampSize(entry.access_count + 1, 0, threshold)] on
    [size_t], and [entry.used_this_frame = true]. *)
Definition touch (threshold : Z) (e : Entry) : Entry :=
  mkEntry true (ClampSize (wrapU 64 (access_count e + 1)) 0 threshold) (entry_image e).

Definition set_image (i : RasterCacheResult) (e : Entry) : Entry :=
  mkEntry (used_this_frame e) (access_count e) i.

(** The fields of [PrerollContext] that reach the rasterization of a layer. *)
Record PrerollContext := mkPreroll {
  gr_context : option GrContext;
  dst_color_space : SkColorSpace;
  has_platform_view : bool;
  has_raster_cache : bool;
}.

Definition PrepareLayer (context : PrerollContext) (layer : Layer) (ctm : SkMatrix) (c : RasterCache)
    : result (RasterCache * list Request) :=
  k ← new_key (layer_unique_id layer) ctm;
  let entry := touch (access_threshold_ c) (entry_of k (layer_cache_ c)) in
  if is_valid (entry_image entry) then mret (with_layers (cache_put k entry (layer_cache_ c)) c, [])
  else
    let draw := if needs_painting layer
                then [CanvasPaintLayer layer (negb (has_platform_view context) && has_raster_cache context)]
                else [] in
    let '(image, request) := Rasterize (gr_context context) ctm (dst_color_space context)
                               (checkerboard_images_ c) (paint_bounds layer) draw in
    mret (with_layers (cache_put k (set_image image entry) (layer_cache_ c)) c, [request]).

Definition PreparePicture (context : option GrContext) (picture : option SkPicture) (ctm : SkMatrix)
    (dst_color_space : SkColorSpace) (is_complex will_change : bool) (c : RasterCache)
    : result (bool * RasterCache * list Request) :=
  if picture_cache_limit_per_frame_ c <=? picture_cached_this_frame_ c then mret (false, c, [])
  else if negb (IsPictureWorthRasterizing picture will_change is_complex) then mret (false, c, [])
  else if negb (matrix_valid ctm) then mret (false, c, [])
  else
    picture ← of_option NullDeref picture;
    k ← new_key (uniqueID picture) ctm;
    let entry := touch (access_threshold_ c) (entry_of k (picture_cache_ c)) in
    let put n entry := with_pictures n (cache_put k entry (picture_cache_ c)) c in
    let n := picture_cached_this_frame_ c in
    if (access_count entry <? access_threshold_ c) || (access_threshold_ c =? 0)
    then mret (false, put n entry, [])
    else if is_valid (entry_image entry) then mret (true, put n entry, [])
    else
      let '(image, request) := RasterizePicture picture context ctm dst_color_space
                                 (checkerboard_images_ c) in
      mret (true, put (wrapU 64 (n + 1)) (set_image image entry), [request]).

Definition GetPicture (picture : SkPicture) (ctm : SkMatrix) (c : RasterCache) : result RasterCacheResult :=
  k ← new_key (uniqueID picture) ctm;
  mret (match cache_find k (picture_cache_ c) with None => no_result | Some e => entry_image e end).

Definition GetLayer (layer : Layer) (ctm : SkMatrix) (c : RasterCache) : result RasterCacheResult :=
  k ← new_key (layer_unique_id layer) ctm;
  mret (match cache_find k (layer_cache_ c) with None => no_result | Some e => entry_image e end).

Definition unuse (e : Entry) : Entry := mkEntry false (access_count e) (entry_image e).

(** The dead entries are those not used; every flag is reset. *)
Definition SweepOneCacheAfterFrame (c : Cache) : Cache :=
  (λ ke, (ke.1, unuse ke.2)) <$> filter (λ ke, used_this_frame ke.2 = true) c.

(** The counters of one cache: [int] products added up in a [size_t]. *)
Fixpoint cache_stats (c : Cache) (count bytes : Z) : result (Z * Z) :=
  match c with
  | [] => mret (count, bytes)
  | (_, e) :: c =>
      let '(w, h) := image_dimensions (entry_image e) in
      area ← checked_s 32 (w * h);
      size ← checked_s 32 (area * 4);
      cache_stats c (wrapU 64 (count + 1)) (wrapU 64 (bytes + size))
  end.

Definition TraceStatsToTimeline (c : RasterCache) : result (Z * Z * Z * Z) :=
  if flutter_release then mret (0, 0, 0, 0)
  else
    l ← cache_stats (layer_cache_ c) 0 0;
    p ← cache_stats (picture_cache_ c) 0 0;
    mret (l.1, l.2, p.1, p.2).

Definition SweepAfterFrame (c : RasterCache) : result RasterCache :=
  let c := with_pictures (picture_cached_this_frame_ c) (SweepOneCacheAfterFrame (picture_cache_ c)) c in
  let c := with_layers (SweepOneCacheAfterFrame (layer_cache_ c)) c in
  let c := with_pictures 0 (picture_cache_ c) c in
  _ ← TraceStatsToTimeline c; mret c.

Definition Clear (c : RasterCache) : RasterCache :=
  with_layers [] (with_pictures (picture_cached_this_frame_ c) [] c).

Definition GetCachedEntriesCount (c : RasterCache) : Z :=
  Z.of_nat (length (layer_cache_ c)) + Z.of_nat (length (picture_cache_ c)).

Definition SetCheckboardCacheImages (checkerboard : bool) (c : RasterCache) : RasterCache :=
  if eqb (checkerboard_images_ c) checkerboard then c
  else Clear (mkRasterCache (access_threshold_ c) (picture_cache_limit_per_frame_ c)
                (picture_cached_this_frame_ c) (picture_cache_ c) (layer_cache_ c) checkerboard).
End raster_cache.
