(* ===== verification/RasterCacheProofs.v ===== *)
(** * RasterCacheProofs: what the raster cache promises over whole frames

    A frame is the calls made while a frame is prepared, followed by
    [SweepAfterFrame].  The theorems bound the work per frame, say which
    entries survive the sweep, and when a picture gets its image. *)

From Stdlib Require Import ZArith Lia.
From stdpp Require Import base sorting gmap numbers list.
From S2P Require Import Prelude RasterCache.

Local Open Scope Z_scope.

(** Comparing matrices of floats is a partial equivalence. *)
Class SkiaLaws `{Skia} := {
  matrix_eqb_sym a b : matrix_eqb a b = true → matrix_eqb b a = true;
  matrix_eqb_trans a b c : matrix_eqb a b = true → matrix_eqb b c = true → matrix_eqb a c = true;
}.

Section keyed.
Context {sk : Skia} {laws : SkiaLaws}.
#[local] Set Default Proof Using "Type*".

Lemma key_eqb_sym a b : key_eqb a b = true → key_eqb b a = true.
Proof.
  unfold key_eqb. rewrite !andb_true_iff, !Z.eqb_eq. intros [-> Hm]. auto using matrix_eqb_sym.
Qed.

Lemma key_eqb_trans a b c : key_eqb a b = true → key_eqb b c = true → key_eqb a c = true.
Proof.
  unfold key_eqb. rewrite !andb_true_iff, !Z.eqb_eq. intros [-> H1] [-> H2].
  eauto using matrix_eqb_trans.
Qed.

Lemma key_eqb_false_l k k0 k' :
  key_eqb k k' = false → key_eqb k0 k = true → key_eqb k0 k' = false.
Proof.
  intros Hne Heq. destruct (key_eqb k0 k') eqn:Hk; [|done].
  by rewrite (key_eqb_trans k k0 k' (key_eqb_sym _ _ Heq) Hk) in Hne.
Qed.

Lemma cache_find_equiv k k' (c : list (RasterCacheKey * Entry)) :
  key_eqb k k' = true → cache_find k c = cache_find k' c.
Proof.
  intros Hk. induction c as [|[k0 e] c IH]; [done|]. cbn.
  destruct (key_eqb k0 k) eqn:H0; [by rewrite (key_eqb_trans _ _ _ H0 Hk)|].
  destruct (key_eqb k0 k') eqn:H1; [|done].
  by rewrite (key_eqb_trans _ _ _ H1 (key_eqb_sym _ _ Hk)) in H0.
Qed.

Lemma cache_find_put k e0 (c : list (RasterCacheKey * Entry)) :
  key_eqb k k = true → cache_find k (cache_put k e0 c) = Some e0.
Proof.
  intros Hk. induction c as [|[k0 e] c IH]; cbn; [by rewrite Hk|].
  destruct (key_eqb k0 k) eqn:H0; cbn; by rewrite H0.
Qed.

Lemma cache_find_put_ne k k' e0 (c : list (RasterCacheKey * Entry)) :
  key_eqb k k' = false → cache_find k' (cache_put k e0 c) = cache_find k' c.
Proof.
  intros Hk. induction c as [|[k0 e] c IH]; cbn; [by rewrite Hk|].
  destruct (key_eqb k0 k) eqn:H0; cbn; [by rewrite (key_eqb_false_l k k0 k')|by rewrite IH].
Qed.

Fixpoint distinct (c : list (RasterCacheKey * Entry)) : Prop :=
  match c with
  | [] => True
  | (k, _) :: c => cache_find k c = None ∧ distinct c
  end.

Lemma distinct_put k e0 c : distinct c → distinct (cache_put k e0 c).
Proof.
  induction c as [|[k0 e] c IH]; [done|]. intros [H0 Hc]. cbn.
  destruct (key_eqb k0 k) eqn:Hk; [done|]. cbn. split; [|auto].
  rewrite cache_find_put_ne; [done|]. destruct (key_eqb k k0) eqn:Hs; [|done].
  by rewrite (key_eqb_sym _ _ Hs) in Hk.
Qed.

Lemma cache_find_sweep k c :
  distinct c →
  cache_find k (SweepOneCacheAfterFrame c) =
  e ← cache_find k c; if used_this_frame e then Some (unuse e) else None.
Proof.
  unfold SweepOneCacheAfterFrame. induction c as [|[k0 e] c IH]; [done|]. intros [H0 Hc].
  specialize (IH Hc). rewrite filter_cons. cbn [snd cache_find].
  destruct (decide (used_this_frame e = true)) as [He|He].
  - cbn. rewrite IH. destruct (key_eqb k0 k); [cbn; by rewrite He|done].
  - rewrite IH. destruct (key_eqb k0 k) eqn:Hk; [|done].
    rewrite <- (cache_find_equiv _ _ c Hk), H0. cbn. by destruct (used_this_frame e).
Qed.

Lemma distinct_sweep c : distinct c → distinct (SweepOneCacheAfterFrame c).
Proof.
  induction c as [|[k0 e] c IH]; [done|]. intros [H0 Hc].
  pose proof (cache_find_sweep k0 c Hc) as Hf. rewrite H0 in Hf. cbn in Hf.
  unfold SweepOneCacheAfterFrame in *. rewrite filter_cons. case_decide; [|auto]. cbn. auto.
Qed.

(** The entries in use are those of the keys in [ks]. *)
Definition used_are (ks : list RasterCacheKey) (c : list (RasterCacheKey * Entry)) : Prop :=
  ∀ k, (∃ e, cache_find k c = Some e ∧ used_this_frame e = true) ↔ ∃ k', k' ∈ ks ∧ key_eqb k' k = true.

Lemma used_are_put k e0 ks c :
  used_this_frame e0 = true → used_are ks c → used_are (k :: ks) (cache_put k e0 c).
Proof.
  intros Hf Hu k'. destruct (key_eqb k k') eqn:Hk.
  - assert (Hkk : key_eqb k k = true) by (eapply key_eqb_trans; eauto using key_eqb_sym).
    rewrite <- (cache_find_equiv _ _ (cache_put k e0 c) Hk), cache_find_put by done.
    split; [intros _; exists k; split; [left|done]|eauto].
  - rewrite cache_find_put_ne by done. rewrite (Hu k'). split.
    + intros (k0 & Hin & H0). exists k0. split; [by right|done].
    + intros (k0 & [->|Hin]%elem_of_cons & H0); [congruence|eauto].
Qed.

Lemma used_are_sweep ks c :
  distinct c → used_are ks c → used_are [] (SweepOneCacheAfterFrame c) ∧
  ∀ k, is_Some (cache_find k (SweepOneCacheAfterFrame c)) ↔ ∃ k', k' ∈ ks ∧ key_eqb k' k = true.
Proof.
  intros Hd Hu. split; intros k.
  - rewrite cache_find_sweep by done. split; [|intros (? & ?%not_elem_of_nil & _); done].
    intros (e & He & Hused). destruct (cache_find k c) as [e0|]; cbn in He; [|done].
    by destruct (used_this_frame e0); simplify_eq.
  - rewrite <- (Hu k), cache_find_sweep by done. destruct (cache_find k c) as [e|]; cbn.
    + destruct (used_this_frame e) eqn:He; [naive_solver|].
      split; [intros [? ?]; done|intros (? & ? & ?); congruence].
    + split; [intros [? ?]; done|intros (? & ? & ?); done].
Qed.
End keyed.

(** ** Frames *)

Section frames.
Context {build : Build} {cb : CacheBuild} {sk : Skia} {laws : SkiaLaws}.
Context (snapshot : SkSurface → list CanvasOp → option SkImage).
#[local] Set Default Proof Using "Type*".

Inductive call :=
  | CallLayer (context : PrerollContext) (layer : Layer) (ctm : SkMatrix)
  | CallPicture (context : option GrContext) (picture : option SkPicture) (ctm : SkMatrix)
      (cs : SkColorSpace) (is_complex will_change : bool)
  | CallClear
  | CallCheckerboard (b : bool).

(** The matrix a key is made of, and when making the key passes its check. *)
Definition raster_matrix (ctm : SkMatrix) : SkMatrix :=
  setTranslateY (SkScalarFraction (getTranslateY ctm))
    (setTranslateX (SkScalarFraction (getTranslateX ctm)) ctm).
Definition ctm_ok (ctm : SkMatrix) : bool :=
  fractional_translation || negb debug ||
  (scalar_is_zero (getTranslateX (raster_matrix ctm)) && scalar_is_zero (getTranslateY (raster_matrix ctm))).
Definition call_ok (x : call) : bool :=
  match x with CallLayer _ _ m | CallPicture _ _ m _ _ _ => ctm_ok m | _ => true end.

Lemma new_key_ok id ctm : ctm_ok ctm = true → new_key id ctm ⇓ mkKey id (raster_matrix ctm).
Proof.
  unfold ctm_ok, new_key, fml_dcheck, raster_matrix. destruct fractional_translation, debug; cbn; try done.
  by intros ->.
Qed.

(** The state of a frame: the cache, how many surfaces were requested for
    pictures, and the keys whose entries were touched. *)
Record Frame := mkFrame {
  f_cache : RasterCache;
  f_rendered : nat;
  f_pictures : list RasterCacheKey;
  f_layers : list RasterCacheKey;
}.

Definition passes (c : RasterCache) (picture : option SkPicture) (ctm : SkMatrix)
    (is_complex will_change : bool) : bool :=
  negb (picture_cache_limit_per_frame_ c <=? picture_cached_this_frame_ c) &&
  IsPictureWorthRasterizing picture will_change is_complex && matrix_valid ctm.

Definition exec (x : call) (f : Frame) : result Frame :=
  let '(mkFrame c n ps ls) := f in
  match x with
  | CallLayer context layer ctm =>
      r ← PrepareLayer snapshot context layer ctm c;
      mret (mkFrame r.1 n ps (mkKey (layer_unique_id layer) (raster_matrix ctm) :: ls))
  | CallPicture context picture ctm cs is_complex will_change =>
      r ← PreparePicture snapshot context picture ctm cs is_complex will_change c;
      let touched := match picture with
                     | Some p => if passes c picture ctm is_complex will_change
                                 then [mkKey (uniqueID p) (raster_matrix ctm)] else []
                     | None => []
                     end in
      mret (mkFrame r.1.2 (n + length r.2) (touched ++ ps) ls)
  | CallClear => mret (mkFrame (Clear c) n [] [])
  | CallCheckerboard b =>
      let same := eqb (checkerboard_images_ c) b in
      mret (mkFrame (SetCheckboardCacheImages b c) n (if same then ps else []) (if same then ls else []))
  end.

Fixpoint exec_all (xs : list call) (f : Frame) : result Frame :=
  match xs with
  | [] => mret f
  | x :: xs => f ← exec x f; exec_all xs f
  end.

Definition run_frame (xs : list call) (c : RasterCache) : result (RasterCache * Frame) :=
  f ← exec_all xs (mkFrame c 0 [] []);
  c ← SweepAfterFrame (f_cache f);
  mret (c, f).

(** The cache after whole frames, and the surfaces each of them requested for
    pictures. *)
Fixpoint run_frames (xss : list (list call)) (c : RasterCache) : result (RasterCache * list nat) :=
  match xss with
  | [] => mret (c, [])
  | xs :: xss =>
      r ← run_frame xs c;
      r' ← run_frames xss r.1;
      mret (r'.1, f_rendered r.2 :: r'.2)
  end.

(** ** Invariants *)

Definition limits_ok (c : RasterCache) : Prop := 0 ≤ picture_cache_limit_per_frame_ c < 2 ^ 64.

Record frame_inv (f : Frame) : Prop := {
  fi_limits : limits_ok (f_cache f);
  fi_count : picture_cached_this_frame_ (f_cache f) = Z.of_nat (f_rendered f);
  fi_limit : Z.of_nat (f_rendered f) ≤ picture_cache_limit_per_frame_ (f_cache f);
  fi_pictures : distinct (picture_cache_ (f_cache f));
  fi_layers : distinct (layer_cache_ (f_cache f));
  fi_used_pictures : used_are (f_pictures f) (picture_cache_ (f_cache f));
  fi_used_layers : used_are (f_layers f) (layer_cache_ (f_cache f));
}.

(** Between frames nothing is in use and nothing was rendered. *)
Definition settled (c : RasterCache) : Prop := frame_inv (mkFrame c 0 [] []).

Lemma used_are_nil : used_are [] [].
Proof. intros k. split; [intros (? & ? & ?); done|intros (? & ?%not_elem_of_nil & _); done]. Qed.

Lemma settled_new t lim : 0 ≤ lim < 2 ^ 64 → settled (new_cache t lim).
Proof. intros Hl. split; cbn; auto using used_are_nil. lia. Qed.

Lemma PrepareLayer_Ok context layer ctm c :
  ctm_ok ctm = true →
  ∃ e reqs, PrepareLayer snapshot context layer ctm c ⇓
    (with_layers (cache_put (mkKey (layer_unique_id layer) (raster_matrix ctm)) e (layer_cache_ c)) c, reqs) ∧
    used_this_frame e = true.
Proof.
  intros Hok. unfold PrepareLayer. rewrite new_key_ok by done. cbn [mbind result_bind].
  destruct is_valid; [by do 2 eexists|]. destruct Rasterize. by do 2 eexists.
Qed.

(** Both outcomes of [PreparePicture]: refused at the guards, or the entry of
    the key is touched and at most one surface is requested. *)
Lemma PreparePicture_Ok context picture ctm cs is_complex will_change c :
  ctm_ok ctm = true →
  if passes c picture ctm is_complex will_change
  then ∃ p e b reqs, picture = Some p ∧ used_this_frame e = true ∧ (length reqs ≤ 1)%nat ∧
    PreparePicture snapshot context picture ctm cs is_complex will_change c ⇓
      (b, with_pictures (match reqs with
                         | [] => picture_cached_this_frame_ c
                         | _ => wrapU 64 (picture_cached_this_frame_ c + 1)
                         end)
            (cache_put (mkKey (uniqueID p) (raster_matrix ctm)) e (picture_cache_ c)) c, reqs)
  else PreparePicture snapshot context picture ctm cs is_complex will_change c ⇓ (false, c, []).
Proof.
  intros Hok. unfold passes, PreparePicture. destruct (_ <=? _); [done|].
  destruct (IsPictureWorthRasterizing picture will_change is_complex) eqn:Hw; [|done].
  destruct (matrix_valid ctm); [|done]. destruct picture as [p|]; [|by destruct will_change].
  cbn [negb andb of_option mbind result_bind]. rewrite new_key_ok by done. cbn [mbind result_bind].
  set (e := touch _ _). exists p.
  destruct (_ || _); [exists e, false, []; split_and!; [done..|cbn; lia|done]|].
  destruct is_valid; [exists e, true, []; split_and!; [done..|cbn; lia|done]|].
  destruct RasterizePicture as [image request]. by exists (set_image image e), true, [request].
Qed.

Lemma exec_inv x f :
  call_ok x = true → frame_inv f → ∃ f', exec x f ⇓ f' ∧ frame_inv f' ∧
  picture_cache_limit_per_frame_ (f_cache f') = picture_cache_limit_per_frame_ (f_cache f).
Proof.
  intros Hx Hf. destruct f as [c n ps ls]. destruct Hf as [Hlim Hcount Hle Hp Hl Hup Hul]. cbn in *.
  destruct x as [context layer ctm|context picture ctm cs cx wc| |b]; cbn in Hx |- *.
  - destruct (PrepareLayer_Ok context layer ctm c Hx) as (e & reqs & -> & He). cbn. eexists.
    split; [done|]. split; [|done]. split; cbn; auto using distinct_put, used_are_put.
  - pose proof (PreparePicture_Ok context picture ctm cs cx wc c Hx) as Hprep.
    destruct (passes c picture ctm cx wc) eqn:Hpass.
    + destruct Hprep as (p & e & b & reqs & -> & He & Hreqs & ->). cbn. eexists. split; [done|].
      split; [|done]. unfold limits_ok in *. unfold passes in Hpass. rewrite !andb_true_iff, negb_true_iff, Z.leb_gt in Hpass.
      destruct Hpass as [[Hlt _] _].
      split; cbn; auto using distinct_put, used_are_put; destruct reqs as [|? [|? ?]]; cbn in *; try lia.
      rewrite wrapU_id by lia. lia.
    + rewrite Hprep. cbn. eexists. split; [done|]. split; [|done]. rewrite Nat.add_0_r.
      by split; cbn; try destruct picture.
  - eexists. split; [done|]. split; [|done]. split; cbn; auto using used_are_nil.
  - eexists. split; [done|]. unfold SetCheckboardCacheImages. destruct eqb; [done|].
    split; [|done]. split; cbn; auto using used_are_nil.
Qed.

Lemma exec_all_inv xs f :
  Forall (λ x, call_ok x = true) xs → frame_inv f → ∃ f', exec_all xs f ⇓ f' ∧ frame_inv f' ∧
  picture_cache_limit_per_frame_ (f_cache f') = picture_cache_limit_per_frame_ (f_cache f).
Proof.
  intros Hxs. revert f. induction Hxs as [|x xs Hx _ IH]; intros f Hf; [by eexists|].
  destruct (exec_inv x f Hx Hf) as (f1 & He & Hf1 & Hl1). cbn. rewrite He. cbn.
  destruct (IH f1 Hf1) as (f2 & He2 & Hf2 & Hl2). exists f2. split_and!; [done..|congruence].
Qed.

(** The statistics of the timeline multiply the sides of an image in [int]. *)
Definition stats_ok : Prop :=
  flutter_release = true ∨
  ∀ i : SkImage, in_s 32 (image_width i * image_height i) = true ∧
                 in_s 32 (image_width i * image_height i * 4) = true.

Lemma cache_stats_Ok c count bytes : stats_ok → flutter_release = false → ∃ r, cache_stats c count bytes ⇓ r.
Proof.
  intros [->|Hs] Hr; [done|]. revert count bytes. induction c as [|[k e] c IH]; intros count bytes; cbn; [eauto|].
  unfold image_dimensions. destruct (image_ (entry_image e)) as [i|]; cbn; [|apply IH].
  destruct (Hs i) as [H1 H2]. rewrite (checked_s_in _ _ H1). cbn. rewrite (checked_s_in _ _ H2). apply IH.
Qed.

Lemma TraceStatsToTimeline_Ok c : stats_ok → ∃ r, TraceStatsToTimeline c ⇓ r.
Proof.
  intros Hs. unfold TraceStatsToTimeline. destruct flutter_release eqn:Hr; [eauto|].
  destruct (cache_stats_Ok (layer_cache_ c) 0 0 Hs Hr) as [r1 ->]. cbn.
  destruct (cache_stats_Ok (picture_cache_ c) 0 0 Hs Hr) as [r2 ->]. cbn. eauto.
Qed.

Lemma run_frame_inv xs c :
  stats_ok → Forall (λ x, call_ok x = true) xs → settled c →
  ∃ c' f, run_frame xs c ⇓ (c', f) ∧ frame_inv f ∧ settled c' ∧
    picture_cache_limit_per_frame_ c' = picture_cache_limit_per_frame_ c ∧
    picture_cache_limit_per_frame_ (f_cache f) = picture_cache_limit_per_frame_ c ∧
    picture_cache_ c' = SweepOneCacheAfterFrame (picture_cache_ (f_cache f)) ∧
    layer_cache_ c' = SweepOneCacheAfterFrame (layer_cache_ (f_cache f)).
Proof.
  intros Hstats Hxs Hc. unfold run_frame.
  destruct (exec_all_inv xs _ Hxs Hc) as (f & -> & Hf & Hl). cbn [mbind result_bind f_cache] in *.
  unfold SweepAfterFrame. set (c' := with_pictures 0 _ _).
  destruct (TraceStatsToTimeline_Ok c' Hstats) as [r ->]. cbn [mbind result_bind]. exists c', f.
  destruct Hf as [Hlim Hcount Hle Hp Hly Hup Hul].
  split_and!; try done. split; cbn; try done; try (by apply distinct_sweep).
  - apply Hlim.
  - by eapply used_are_sweep.
  - by eapply used_are_sweep.
Qed.

(** ** One picture prepared in every frame *)

Section one_picture.
Context (context : option GrContext) (p : SkPicture) (ctm : SkMatrix) (cs : SkColorSpace).
Context (is_complex : bool) (t lim : Z) (img : RasterCacheResult).
Context (Hstats : stats_ok) (Hctm : ctm_ok ctm = true).
Context (Hworth : IsPictureWorthRasterizing (Some p) false is_complex = true).
Context (Hvalid : matrix_valid ctm = true).
Context (Hrefl : matrix_eqb (raster_matrix ctm) (raster_matrix ctm) = true).
Context (Ht : 1 ≤ t < 2 ^ 64 - 1) (Hlim : 1 ≤ lim < 2 ^ 64).
Context (Hrast : (RasterizePicture snapshot p context ctm cs false).1 = img) (Himg : is_valid img = true).

Fixpoint prepare_frames (n : nat) (c : RasterCache) : result (list bool * RasterCache) :=
  match n with
  | O => mret ([], c)
  | S n =>
      r ← PreparePicture snapshot context (Some p) ctm cs is_complex false c;
      c ← SweepAfterFrame r.1.2;
      r' ← prepare_frames n c;
      mret (r.1.1 :: r'.1, r'.2)
  end.

(** The cache after [i] frames. *)
Definition after_frames (i : nat) : RasterCache :=
  let k := mkKey (uniqueID p) (raster_matrix ctm) in
  let image := if t <=? Z.of_nat i then img else no_result in
  mkRasterCache t lim 0
    (match i with O => [] | _ => [(k, mkEntry false (Z.min (Z.of_nat i) t) image)] end) [] false.

Lemma prepare_frame i :
  ∃ r, PreparePicture snapshot context (Some p) ctm cs is_complex false (after_frames i) ⇓ r ∧
       r.1.1 = (t <=? Z.of_nat (S i)) ∧ SweepAfterFrame r.1.2 ⇓ after_frames (S i).
Proof.
  set (k := mkKey (uniqueID p) (raster_matrix ctm)).
  assert (Hkk : key_eqb k k = true) by (unfold key_eqb; cbn; by rewrite Z.eqb_refl).
  unfold PreparePicture. rewrite Hworth, Hvalid. cbn [picture_cache_limit_per_frame_ picture_cached_this_frame_
    after_frames access_threshold_ picture_cache_ checkerboard_images_]. rewrite (proj2 (Z.leb_gt _ _)) by lia.
  cbn [negb of_option mbind result_bind]. rewrite new_key_ok by done. cbn [mbind result_bind]. fold k.
  set (old := match i with O => [] | _ => _ end).
  assert (Hentry : touch t (entry_of k old) =
                   mkEntry true (Z.min (Z.of_nat (S i)) t) (if t <=? Z.of_nat i then img else no_result)).
  { unfold touch, ClampSize, old, entry_of.
    destruct i as [|i]; cbn [cache_find default]; rewrite ?Hkk; cbn [new_entry access_count entry_image from_option id].
    - rewrite wrapU_id, (proj2 (Z.leb_gt t _)) by lia. f_equal.
      destruct (Z.ltb_spec t (0 + 1)), (Z.ltb_spec (0 + 1) 0); lia.
    - rewrite wrapU_id by lia. f_equal. set (a := Z.min _ t).
      destruct (Z.ltb_spec t (a + 1)), (Z.ltb_spec (a + 1) 0); lia. }
  assert (Hput : ∀ e, cache_put k e old = [(k, e)]).
  { intros e. unfold old. destruct i; [done|]. cbn [cache_put]. by rewrite Hkk. }
  assert (Hsweep : ∀ n image, SweepAfterFrame (with_pictures n
             (cache_put k (mkEntry true (Z.min (Z.of_nat (S i)) t) image) old) (after_frames i)) ⇓
           mkRasterCache t lim 0 [(k, mkEntry false (Z.min (Z.of_nat (S i)) t) image)] [] false).
  { intros n image. rewrite Hput. set (c' := mkRasterCache t lim 0 _ [] false).
    transitivity (_ ← TraceStatsToTimeline c'; mret c'); [done|].
    by destruct (TraceStatsToTimeline_Ok c' Hstats) as [r ->]. }
  rewrite Hentry. cbn [access_count entry_image]. rewrite (proj2 (Z.eqb_neq t 0)), orb_false_r by lia.
  change (after_frames (S i)) with (mkRasterCache t lim 0 [(k, mkEntry false (Z.min (Z.of_nat (S i)) t)
    (if t <=? Z.of_nat (S i) then img else no_result))] [] false).
  destruct (Z.ltb_spec (Z.min (Z.of_nat (S i)) t) t) as [Hlt|Hge].
  - eexists. split; [done|]. cbn [fst snd]. rewrite Hsweep, !(proj2 (Z.leb_gt _ _)) by lia. done.
  - rewrite (proj2 (Z.leb_le t (Z.of_nat (S i)))) by lia. destruct (Z.leb_spec t (Z.of_nat i)).
    + rewrite Himg. eexists. split; [done|]. cbn [fst snd]. by rewrite Hsweep.
    + cbn [is_valid no_result image_ bool_decide is_Some_dec decide_rel decide]. cbn.
      destruct RasterizePicture as [image request] eqn:Hr. cbn in Hrast. subst image.
      eexists. split; [done|]. cbn [fst snd]. unfold set_image. cbn. by rewrite Hsweep.
Qed.

Lemma prepare_frames_from n i :
  prepare_frames n (after_frames i) ⇓
    ((λ j, t <=? Z.of_nat (S j)) <$> seq i n, after_frames (i + n)).
Proof.
  revert i. induction n as [|n IH]; intros i; cbn [prepare_frames]; [by rewrite Nat.add_0_r|].
  destruct (prepare_frame i) as (r & -> & Hr & Hs). cbn [mbind result_bind]. rewrite Hs.
  cbn [mbind result_bind]. rewrite IH, Hr, Nat.add_succ_r. done.
Qed.

Lemma get_after_frames n :
  (0 < n)%nat → GetPicture p ctm (after_frames n) ⇓ if t <=? Z.of_nat n then img else no_result.
Proof.
  intros Hn. destruct n; [lia|]. unfold GetPicture. rewrite new_key_ok by done.
  cbn [mbind result_bind picture_cache_ after_frames cache_find]. unfold key_eqb. cbn [key_id key_matrix].
  by rewrite Z.eqb_refl, Hrefl.
Qed.
End one_picture.
End frames.

(** ** Claims *)

(** C39: However many pictures are prepared, no frame requests more than
    [picture_cache_limit_per_frame] surfaces for them: for every sequence of
    frames on a new cache every call returns, and the count of each frame
    respects the limit. *)
Theorem raster_frame_limit `{Build, CacheBuild, Skia, !SkiaLaws} snapshot t lim xss :
  stats_ok → 0 ≤ lim < 2 ^ 64 → Forall (Forall (λ x, call_ok x = true)) xss →
  ∃ c counts, run_frames snapshot xss (new_cache t lim) ⇓ (c, counts) ∧
    length counts = length xss ∧ Forall (λ n, Z.of_nat n ≤ lim) counts.
Proof.
  intros Hs Hlim Hxss. pose proof (settled_new snapshot t lim Hlim) as Hc.
  assert (Hl : picture_cache_limit_per_frame_ (new_cache t lim) = lim) by done.
  revert Hc Hl. generalize (new_cache t lim) as c. induction Hxss as [|xs xss Hxs _ IH]; intros c Hc Hl.
  { exists c, []. by split_and!. }
  destruct (run_frame_inv snapshot xs c Hs Hxs Hc) as (c1 & f & Hrun & Hf & Hc1 & Hl1 & Hlf & _ & _).
  destruct (IH c1 Hc1) as (c2 & counts & Hrest & Hlen & Hcounts); [congruence|].
  exists c2, (f_rendered f :: counts). cbn. rewrite Hrun. cbn. rewrite Hrest. cbn.
  split_and!; [done|congruence|]. constructor; [|done]. pose proof (fi_limit _ Hf). congruence.
Qed.

(** After a frame the cache holds exactly the entries the frame touched: a
    picture is found if and only if a [Prepare] of the frame for an equal key
    got past its guards since the last [Clear], and a layer if and only if it
    was prepared. *)
Theorem sweep_keeps_touched `{Build, CacheBuild, Skia, !SkiaLaws} snapshot t lim xss c counts xs :
  stats_ok → 0 ≤ lim < 2 ^ 64 → Forall (Forall (λ x, call_ok x = true)) xss →
  Forall (λ x, call_ok x = true) xs →
  run_frames snapshot xss (new_cache t lim) ⇓ (c, counts) →
  ∃ c' f, run_frame snapshot xs c ⇓ (c', f) ∧ ∀ k,
    (is_Some (cache_find k (picture_cache_ c')) ↔ ∃ k', k' ∈ f_pictures f ∧ key_eqb k' k = true) ∧
    (is_Some (cache_find k (layer_cache_ c')) ↔ ∃ k', k' ∈ f_layers f ∧ key_eqb k' k = true).
Proof.
  intros Hs Hlim Hxss Hxs Hrun. assert (Hc : settled c).
  { revert counts Hrun. pose proof (settled_new snapshot t lim Hlim) as Hc. revert Hc.
    generalize (new_cache t lim) as c0. induction Hxss as [|ys xss Hys _ IH]; intros c0 Hc counts Hrun.
    - by injection Hrun as <- _.
    - destruct (run_frame_inv snapshot ys c0 Hs Hys Hc) as (c1 & f & Hr & _ & Hc1 & _). cbn in Hrun.
      rewrite Hr in Hrun. cbn in Hrun. apply bind_Ok in Hrun as ([c2 n2] & Hrest & [= -> _]). eauto. }
  destruct (run_frame_inv snapshot xs c Hs Hxs Hc) as (c' & f & Hf & Hfi & _ & _ & _ & Hp & Hl).
  exists c', f. split; [done|]. intros k. rewrite Hp, Hl.
  split; apply used_are_sweep; apply Hfi.
Qed.

(** A picture prepared once in every frame is rasterized in the frame
    that reaches the access threshold: [Prepare] answers [true] from that
    frame on and never before, and [Get] then finds the image, swept frames
    notwithstanding. *)
Theorem picture_cached_at_threshold `{Build, CacheBuild, Skia, !SkiaLaws} snapshot
    context p ctm cs is_complex t lim img n :
  stats_ok → ctm_ok ctm = true → IsPictureWorthRasterizing (Some p) false is_complex = true →
  matrix_valid ctm = true → matrix_eqb (raster_matrix ctm) (raster_matrix ctm) = true →
  1 ≤ t < 2 ^ 64 - 1 → 1 ≤ lim < 2 ^ 64 →
  (RasterizePicture snapshot p context ctm cs false).1 = img → is_valid img = true →
  ∃ c, prepare_frames snapshot context p ctm cs is_complex (S n) (new_cache t lim) ⇓
         ((λ i, t <=? Z.of_nat (S i)) <$> seq 0 (S n), c) ∧
       GetPicture p ctm c ⇓ if t <=? Z.of_nat (S n) then img else no_result.
Proof.
  intros Hs Hctm Hw Hv Hrefl Ht Hlim Hr Hi. exists (after_frames p ctm t lim img (S n)).
  change (new_cache t lim) with (after_frames p ctm t lim img 0). split.
  - by apply (prepare_frames_from snapshot context p ctm cs is_complex t lim img).
  - apply (get_after_frames snapshot context p ctm cs is_complex t lim img); done || lia.
Qed.

(** ** Concrete runs *)

(** Pictures are their unique ids, matrices their translations. *)
#[local] Instance toy_skia : Skia := {|
  SkScalar := Z; SkMatrix := Z * Z; SkRect := Z; SkImage := Z; SkPicture := Z; SkSurface := unit;
  GrContext := unit; SkColorSpace := unit;
  getTranslateX := fst; getTranslateY := snd;
  setTranslateX x m := (x, m.2); setTranslateY y m := (m.1, y);
  SkScalarFraction _ := 0; scalar_is_zero x := x =? 0;
  matrix_eqb m m' := (m.1 =? m'.1) && (m.2 =? m'.2); matrix_valid _ := true;
  rect_isEmpty _ := false; rect_isFinite _ := true;
  cullRect p := p; approximateOpCount _ := 10; uniqueID p := p;
  device_bounds r m := (m.1, m.2, 10, 10);
  MakeRenderTarget _ _ _ _ := Some tt; MakeRaster _ _ _ := Some tt;
  image_width _ := 10; image_height _ := 10 |}.

#[local] Instance toy_laws : SkiaLaws.
Proof.
  split; intros *; cbn; rewrite !andb_true_iff, !Z.eqb_eq; intuition congruence.
Defined.

#[local] Instance debug_build : Build := {| debug := true |}.
#[local] Instance debug_cache : CacheBuild := {| fractional_translation := false; flutter_release := false |}.

Definition take_snapshot (_ : SkSurface) (ops : list CanvasOp) : option SkImage := Some (Z.of_nat (length ops)).
Definition origin : SkMatrix := (0, 0) : Z * Z.
Definition show_picture (p : Z) : call := CallPicture None (Some p) origin tt false false.

Definition toy_image (ops p : Z) : @RasterCacheResult toy_skia := @mkResult toy_skia (Some ops) (Some p).

Lemma toy_stats : stats_ok.
Proof. right. intros i. by vm_compute. Defined.

Definition two_frames : list (list call) := [[show_picture 1; show_picture 2]; [show_picture 2; show_picture 1]].

Lemma raster_frame_limit_witness :
  ∃ c counts, run_frames take_snapshot two_frames (new_cache 1 1) ⇓ (c, counts) ∧
    length counts = 2%nat ∧ Forall (λ n, Z.of_nat n ≤ 1) counts.
Proof.
  apply (raster_frame_limit take_snapshot 1 1 two_frames toy_stats); [lia|]. repeat constructor.
Defined.

Lemma sweep_keeps_touched_witness :
  ∃ c' f, run_frame take_snapshot [show_picture 1] (new_cache 1 1) ⇓ (c', f) ∧ ∀ k,
    (is_Some (cache_find k (picture_cache_ c')) ↔ ∃ k', k' ∈ f_pictures f ∧ key_eqb k' k = true) ∧
    (is_Some (cache_find k (layer_cache_ c')) ↔ ∃ k', k' ∈ f_layers f ∧ key_eqb k' k = true).
Proof.
  apply (sweep_keeps_touched take_snapshot 1 1 [] (new_cache 1 1) [] [show_picture 1] toy_stats);
    [lia|constructor|repeat constructor|reflexivity].
Defined.

Lemma picture_cached_at_threshold_witness :
  ∃ c, prepare_frames take_snapshot None 7 origin tt false 4 (new_cache 3 3) ⇓ ([false; false; true; true], c) ∧
       GetPicture 7 origin c ⇓ toy_image 4 7.
Proof.
  apply (picture_cached_at_threshold take_snapshot None 7 origin tt false 3 3
           (toy_image 4 7) 3 toy_stats); (reflexivity || lia).
Defined.

(** The limit is checked before an entry is marked as used: when another
    picture uses up the limit of a frame, a picture whose image was already
    cached is refused without a mark and the sweep drops its image. *)
Theorem limit_evicts_cached :
  ∃ c, run_frames take_snapshot [[show_picture 1]; [show_picture 2; show_picture 1]] (new_cache 1 1) ⇓ (c, [1; 1]%nat) ∧
       GetPicture 1 origin c ⇓ no_result ∧
       ∃ c1, run_frames take_snapshot [[show_picture 1]] (new_cache 1 1) ⇓ (c1, [1%nat]) ∧
             GetPicture 1 origin c1 ⇓ toy_image 4 1.
Proof. eexists. split; [vm_compute; reflexivity|]. split; [reflexivity|]. eexists. by split; [vm_compute|]. Qed.
