(* ===== verification/WaitableEvent.v ===== *)
(** * WaitableEvent: auto-reset and manual-reset events, and the latch

    Model of fml/synchronization/waitable_event.{h,cc} and
    count_down_latch.{h,cc}.  Every critical section of the mutex is one step.
    A thread that blocks in [cv_.wait] is in [waiters]; [notify_one] and
    [notify_all] mark blocked threads as notified.  A blocked thread may wake
    up without a notification, and a timed wait may report a timeout even
    when the thread was notified, as [std::condition_variable] allows. *)

From Stdlib Require Import ZArith Lia.
From stdpp Require Import base sorting gmap numbers list.
From S2P Require Import Prelude Time.

Local Open Scope Z_scope.

(** The locals of a thread inside [WaitWithTimeout]. *)
Record Timed := mkTimed { timeout : TimeDelta.t; start : TimePoint.t; wait_remaining : TimeDelta.t }.

Record Waiter := mkWaiter {
  notified : bool;
  last_signal_id : Z;
  timed : option Timed;
}.

Record Event := mkEvent {
  signaled_ : bool;
  signal_id_ : Z;
  waiters : gmap nat Waiter;
}.

Definition new_event : Event := mkEvent false 0 ∅.

(** What a step of a waiting thread does: block (again), or return from the
    call, with the answer of the timed variants ([true] is a timeout). *)
Inductive outcome := Blocked | Returned (timed_out : bool).

Definition set_waiter (w : Waiter) : Waiter := mkWaiter true (last_signal_id w) (timed w).

Definition notify_all (e : Event) : Event :=
  mkEvent (signaled_ e) (signal_id_ e) (set_waiter <$> waiters e).

(** [notify_one] unblocks [pick], one of the threads not yet notified; it
    does nothing when there is none. *)
Definition notify_one (pick : option nat) (e : Event) : Event :=
  match pick with
  | Some t => mkEvent (signaled_ e) (signal_id_ e) (alter set_waiter t (waiters e))
  | None => e
  end.

Definition asleep (e : Event) (t : nat) : bool :=
  match waiters e !! t with Some w => negb (notified w) | None => false end.

Definition pick_ok (pick : option nat) (e : Event) : Prop :=
  match pick with
  | Some t => asleep e t = true
  | None => ∀ t, asleep e t = false
  end.

Definition set_signaled (b : bool) (e : Event) : Event := mkEvent b (signal_id_ e) (waiters e).
Definition block (t : nat) (w : Waiter) (e : Event) : Event :=
  mkEvent (signaled_ e) (signal_id_ e) (<[t := w]> (waiters e)).
Definition leave (t : nat) (e : Event) : Event :=
  mkEvent (signaled_ e) (signal_id_ e) (delete t (waiters e)).

(** The part of both timed loops after the condition was found false. *)
Definition still_waiting `{Build} (now : TimePoint.t) (d : Timed) : result (option Timed) :=
  _ ← fml_dcheck (start d <=? now);
  elapsed ← TimePoint.diff now (start d);
  if timeout d <=? elapsed then mret None
  else
    remaining ← TimeDelta.sub (timeout d) elapsed;
    mret (Some (mkTimed (timeout d) (start d) remaining)).

(** How a thread comes out of [cv_.wait] or [cv_.wait_for]. *)
Inductive wake := NoTimeout (now : TimePoint.t) | CvTimeout.

(** ** AutoResetWaitableEvent *)

Definition AutoSignal (pick : option nat) (e : Event) : Event := notify_one pick (set_signaled true e).
Definition AutoReset (e : Event) : Event := set_signaled false e.

Definition AutoWait (t : nat) (e : Event) : outcome * Event :=
  if signaled_ e then (Returned false, set_signaled false e)
  else (Blocked, block t (mkWaiter false 0 None) e).

Definition AutoWaitWithTimeout (t : nat) (timeout : TimeDelta.t) (now : TimePoint.t) (e : Event)
    : outcome * Event :=
  if signaled_ e then (Returned false, set_signaled false e)
  else (Blocked, block t (mkWaiter false 0 (Some (mkTimed timeout now timeout))) e).

(** A thread blocked in [Wait] or [WaitWithTimeout] wakes up. *)
Definition AutoWake `{Build} (t : nat) (how : wake) (e : Event) : result (outcome * Event) :=
  w ← of_option OutOfRange (waiters e !! t);
  match timed w, how with
  | Some _, CvTimeout => mret (Returned true, leave t e)
  | None, _ =>
      if signaled_ e then mret (Returned false, set_signaled false (leave t e))
      else mret (Blocked, block t (mkWaiter false 0 None) e)
  | Some d, NoTimeout now =>
      if signaled_ e then mret (Returned false, set_signaled false (leave t e))
      else
        d ← still_waiting now d;
        match d with
        | None => mret (Returned true, leave t e)
        | Some d => mret (Blocked, block t (mkWaiter false 0 (Some d)) e)
        end
  end.

(** ** ManualResetWaitableEvent *)

Definition ManualSignal (e : Event) : Event :=
  notify_all (mkEvent true (wrapU 32 (signal_id_ e + 1)) (waiters e)).
Definition ManualReset (e : Event) : Event := set_signaled false e.

Definition ManualWait (t : nat) (e : Event) : outcome * Event :=
  if signaled_ e then (Returned false, e)
  else (Blocked, block t (mkWaiter false (signal_id_ e) None) e).

(** The condition the timed wait hands to [WaitWithTimeoutImpl]. *)
Definition manual_condition (last_signal_id : Z) (e : Event) : bool :=
  signaled_ e || negb (signal_id_ e =? last_signal_id).

Definition ManualWaitWithTimeout (t : nat) (timeout : TimeDelta.t) (now : TimePoint.t) (e : Event)
    : outcome * Event :=
  if manual_condition (signal_id_ e) e then (Returned false, e)
  else (Blocked, block t (mkWaiter false (signal_id_ e) (Some (mkTimed timeout now timeout))) e).

(** [WaitWithTimeoutImpl] when the thread comes out of [wait_for]. *)
Definition WaitWithTimeoutImpl `{Build} (condition : bool) (how : wake) (d : Timed)
    : result (option Timed * bool) :=
  match how with
  | CvTimeout => mret (None, true)
  | NoTimeout now =>
      if condition then mret (None, false)
      else
        d ← still_waiting now d;
        match d with None => mret (None, true) | Some d => mret (Some d, false) end
  end.

Definition ManualWake `{Build} (t : nat) (how : wake) (e : Event) : result (outcome * Event) :=
  w ← of_option OutOfRange (waiters e !! t);
  match timed w with
  | None =>
      if signal_id_ e =? last_signal_id w
      then mret (Blocked, block t (mkWaiter false (last_signal_id w) None) e)
      else mret (Returned false, leave t e)
  | Some d =>
      let condition := manual_condition (last_signal_id w) e in
      r ← WaitWithTimeoutImpl condition how d;
      match (r : option Timed * bool) with
      | (Some d, _) => mret (Blocked, block t (mkWaiter false (last_signal_id w) (Some d)) e)
      | (None, rv) => _ ← fml_dcheck (rv || condition); mret (Returned rv, leave t e)
      end
  end.

Definition IsSignaledForTest (e : Event) : bool := signaled_ e.

(** ** CountDownLatch *)

Record Latch := mkLatch { count_ : Z; waitable_event_ : Event }.

Definition new_latch (count : Z) : Latch :=
  mkLatch count (if count =? 0 then ManualSignal new_event else new_event).

Definition LatchWait (t : nat) (l : Latch) : outcome * Latch :=
  let '(o, e) := ManualWait t (waitable_event_ l) in (o, mkLatch (count_ l) e).

Definition LatchWake `{Build} (t : nat) (l : Latch) : result (outcome * Latch) :=
  r ← ManualWake t CvTimeout (waitable_event_ l);
  let '(o, e) := (r : outcome * Event) in mret (o, mkLatch (count_ l) e).

(** [if (--count_ == 0) waitable_event_.Signal()]: the decrement of the atomic
    counter and the signal are two steps; other threads may run in between. *)
Definition CountDown_decrement (l : Latch) : bool * Latch :=
  let count := wrapU 64 (count_ l - 1) in (count =? 0, mkLatch count (waitable_event_ l)).
Definition CountDown_signal (l : Latch) : Latch := mkLatch (count_ l) (ManualSignal (waitable_event_ l)).

Definition CountDown (l : Latch) : Latch :=
  let '(zero, l) := CountDown_decrement l in if zero then CountDown_signal l else l.

(** ** Runs of an auto-reset event *)

Inductive auto_call :=
  | ASignal (pick : option nat)
  | AReset
  | AWait (t : nat)
  | ATimedWait (t : nat) (timeout : TimeDelta.t) (now : TimePoint.t)
  | AWake (t : nat) (how : wake).

Definition auto_exec `{Build} (x : auto_call) (e : Event) : result (option outcome * Event) :=
  match x with
  | ASignal pick => mret (None, AutoSignal pick e)
  | AReset => mret (None, AutoReset e)
  | AWait t => let '(o, e) := AutoWait t e in mret (Some o, e)
  | ATimedWait t timeout now => let '(o, e) := AutoWaitWithTimeout t timeout now e in mret (Some o, e)
  | AWake t how => r ← AutoWake t how e; mret (Some r.1, r.2)
  end.

(** A thread does one thing at a time. *)
Definition auto_ok (x : auto_call) (e : Event) : Prop :=
  match x with
  | ASignal pick => pick_ok pick e
  | AReset => True
  | AWait t | ATimedWait t _ _ => waiters e !! t = None
  | AWake t _ => is_Some (waiters e !! t)
  end.

Definition signals_of (x : auto_call) : nat := match x with ASignal _ => 1 | _ => 0 end.
Definition releases_of (o : option outcome) : nat :=
  match o with Some (Returned false) => 1 | _ => 0 end.

(** [AutoRun timed s r e]: after some calls on a new event, [s] of them
    signals and [r] of them releases of a waiter, the event is [e]; the flag
    says whether timed waits were allowed. *)
Inductive AutoRun `{Build} (timed_waits : bool) : nat → nat → Event → Prop :=
  | auto_new : AutoRun timed_waits 0 0 new_event
  | auto_step s r e x o e' :
      AutoRun timed_waits s r e → auto_ok x e →
      (match x with ATimedWait _ _ _ => timed_waits = true | _ => True end) →
      auto_exec x e ⇓ (o, e') →
      AutoRun timed_waits (signals_of x + s) (releases_of o + r) e'.

Section auto.
Context `{Build}.

Lemma auto_exec_signaled x e o e' :
  auto_exec x e ⇓ (o, e') →
  (releases_of o + Nat.b2n (signaled_ e') ≤ signals_of x + Nat.b2n (signaled_ e))%nat.
Proof.
  destruct x as [[t|]| |t|t d now|t how]; cbn.
  1-3: intros [= <- <-]; cbn; destruct (signaled_ e); cbn; lia.
  1-2: unfold AutoWait, AutoWaitWithTimeout; destruct (signaled_ e) eqn:Hs; intros [= <- <-]; cbn; rewrite ?Hs; done.
  intros ([o1 e1] & Hw & [= <- <-])%bind_Ok. unfold AutoWake in Hw.
  apply bind_Ok in Hw as (w & _ & Hw). cbn [fst snd].
  destruct (timed w) as [d|], how as [now|]; destruct (signaled_ e) eqn:Hs;
    try (injection Hw as <- <-; cbn; rewrite ?Hs; cbn; lia).
  apply bind_Ok in Hw as ([d'|] & _ & [= <- <-]); cbn; by rewrite Hs.
Qed.

Lemma auto_releases timed_waits s r e :
  AutoRun timed_waits s r e → (r + Nat.b2n (signaled_ e) ≤ s)%nat.
Proof. induction 1 as [|s r e x o e' _ IH _ _ Hx%auto_exec_signaled]; cbn; lia. Qed.

(** Without timed waits a signal that is not consumed has its notification. *)
Definition untimed (e : Event) : Prop := ∀ t w, waiters e !! t = Some w → timed w = None.
Definition heard (e : Event) : Prop :=
  signaled_ e = true → waiters e ≠ ∅ → ∃ t w, waiters e !! t = Some w ∧ notified w = true.

Lemma untimed_block t w e : timed w = None → untimed e → untimed (block t w e).
Proof. intros Hw He t' w' Ht. cbn in Ht. apply lookup_insert_Some in Ht as [[_ <-]|[_ Ht]]; eauto. Qed.

Lemma untimed_signal pick e : untimed e → untimed (AutoSignal pick e).
Proof.
  intros He. destruct pick as [t|]; [|done]. intros t' w Ht. cbn in Ht.
  destruct (decide (t = t')) as [->|Hne].
  - rewrite lookup_alter_eq in Ht. apply fmap_Some in Ht as (w0 & Hw0 & ->). cbn. eauto.
  - rewrite lookup_alter_ne in Ht by done. eauto.
Qed.

Lemma heard_signal pick e : pick_ok pick e → heard (AutoSignal pick e).
Proof.
  intros Hp _ Hne. destruct pick as [t|]; cbn in *.
  - unfold asleep in Hp. destruct (waiters e !! t) as [w|] eqn:Hw; [|done].
    exists t, (set_waiter w). by rewrite lookup_alter_eq, Hw.
  - apply map_choose in Hne as (t & w & Hw). exists t, w. split; [done|].
    specialize (Hp t). unfold asleep in Hp. rewrite Hw in Hp. by destruct (notified w).
Qed.

Lemma auto_untimed s r e : AutoRun false s r e → untimed e ∧ heard e.
Proof.
  induction 1 as [|s r e x o e' _ [Hu Hh] Hok Hx He]; [by split; intros ?|].
  destruct x as [pick| |t|t d now|t how]; cbn in *; [..|done|].
  - injection He as <- <-. auto using untimed_signal, heard_signal.
  - injection He as <- <-. by split.
  - unfold AutoWait in He. destruct (signaled_ e) eqn:Hs; injection He as <- <-; [by split|].
    split; [by apply untimed_block|]. unfold heard. cbn. congruence.
  - apply bind_Ok in He as ([o1 e1] & Hw & [= <- <-]). unfold AutoWake in Hw.
    apply bind_Ok in Hw as (w & Hlook%of_option_Ok & Hw). rewrite (Hu _ _ Hlook) in Hw. cbn [snd].
    destruct (signaled_ e) eqn:Hs; injection Hw as <- <-.
    + split; [|done]. intros t' w' Ht. cbn in Ht. apply lookup_delete_Some in Ht as [_ Ht]. eauto.
    + split; [by apply untimed_block|]. unfold heard. cbn. congruence.
Qed.
End auto.

(** ** Runs of a manual-reset event *)

Inductive manual_call :=
  | MSignal
  | MReset
  | MWait (t : nat)
  | MTimedWait (t : nat) (timeout : TimeDelta.t) (now : TimePoint.t)
  | MWake (t : nat) (how : wake).

Definition manual_exec `{Build} (x : manual_call) (e : Event) : result (option outcome * Event) :=
  match x with
  | MSignal => mret (None, ManualSignal e)
  | MReset => mret (None, ManualReset e)
  | MWait t => let '(o, e) := ManualWait t e in mret (Some o, e)
  | MTimedWait t timeout now => let '(o, e) := ManualWaitWithTimeout t timeout now e in mret (Some o, e)
  | MWake t how => r ← ManualWake t how e; mret (Some r.1, r.2)
  end.

Definition by_thread (t : nat) (x : manual_call) : bool :=
  match x with MWait t' | MTimedWait t' _ _ | MWake t' _ => (t =? t')%nat | _ => false end.

Fixpoint manual_run `{Build} (xs : list manual_call) (e : Event) : result Event :=
  match xs with
  | [] => mret e
  | x :: xs => r ← manual_exec x e; manual_run xs r.2
  end.

Fixpoint manual_signals (xs : list manual_call) : nat :=
  match xs with [] => 0 | MSignal :: xs => S (manual_signals xs) | _ :: xs => manual_signals xs end.

Section manual.
Context `{Build}.

(** What the calls of other threads do to a blocked thread and to the counter. *)
Lemma manual_exec_other t w x e o e' :
  by_thread t x = false → waiters e !! t = Some w → manual_exec x e ⇓ (o, e') →
  waiters e' !! t = Some (match x with MSignal => set_waiter w | _ => w end) ∧
  signal_id_ e' = match x with MSignal => wrapU 32 (signal_id_ e + 1) | _ => signal_id_ e end.
Proof.
  destruct x as [| |t'|t' d now|t' how]; cbn; intros Ht Hw He.
  - injection He as <- <-. cbn. by rewrite lookup_fmap, Hw.
  - by injection He as <- <-.
  - apply Nat.eqb_neq in Ht. unfold ManualWait in He.
    destruct (signaled_ e); injection He as <- <-; cbn; [done|]. by rewrite lookup_insert_ne.
  - apply Nat.eqb_neq in Ht. unfold ManualWaitWithTimeout in He.
    destruct manual_condition; injection He as <- <-; cbn; [done|]. by rewrite lookup_insert_ne.
  - apply Nat.eqb_neq in Ht. apply bind_Ok in He as ([o1 e1] & He & [= <- <-]). cbn [snd].
    unfold ManualWake in He. apply bind_Ok in He as (w' & _ & He). destruct (timed w') as [d|].
    + apply bind_Ok in He as ([[d'|] rv] & _ & He).
      * injection He as <- <-. cbn. by rewrite lookup_insert_ne.
      * apply bind_Ok in He as (_ & _ & [= <- <-]). cbn. by rewrite lookup_delete_ne.
    + destruct (_ =? _); injection He as <- <-; cbn; [by rewrite lookup_insert_ne|by rewrite lookup_delete_ne].
Qed.

Definition notified_by (k : nat) (w : Waiter) : Waiter := match k with O => w | _ => set_waiter w end.

Lemma notified_by_set k w : notified_by k (set_waiter w) = set_waiter w.
Proof. by destruct k. Qed.

Lemma manual_run_other t w xs e e' :
  Forall (λ x, by_thread t x = false) xs → waiters e !! t = Some w → manual_run xs e ⇓ e' →
  waiters e' !! t = Some (notified_by (manual_signals xs) w) ∧
  wrapU 32 (signal_id_ e') = wrapU 32 (signal_id_ e + Z.of_nat (manual_signals xs)).
Proof.
  intros Hxs. revert w e. induction Hxs as [|x xs Hx _ IH]; intros w e Hw Hrun.
  { injection Hrun as <-. cbn. by rewrite Z.add_0_r. }
  cbn in Hrun. apply bind_Ok in Hrun as ([o e1] & He & Hrun).
  destruct (manual_exec_other t w x e o e1 Hx Hw He) as [Hw1 Hid1].
  destruct (IH _ _ Hw1 Hrun) as [Hw' Hid]. rewrite Hw', Hid, Hid1.
  destruct x; cbn [manual_signals]; try done. rewrite notified_by_set. split; [done|].
  unfold wrapU. rewrite Zplus_mod_idemp_l. f_equal. lia.
Qed.

Lemma manual_run_id xs e e' :
  manual_run xs e ⇓ e' → in_u 32 (signal_id_ e) = true → in_u 32 (signal_id_ e') = true.
Proof.
  revert e. induction xs as [|x xs IH]; intros e; cbn; [by intros [= <-]|].
  intros ([o e1] & Hx & Hrun)%bind_Ok Hid. apply (IH e1 Hrun). clear IH Hrun.
  destruct x as [| |t|t d now|t how]; cbn in Hx.
  - injection Hx as <- <-. apply in_u_spec, wrapU_range. lia.
  - by injection Hx as <- <-.
  - unfold ManualWait in Hx. destruct (signaled_ e); by injection Hx as <- <-.
  - unfold ManualWaitWithTimeout in Hx. destruct manual_condition; by injection Hx as <- <-.
  - apply bind_Ok in Hx as ([o1 e2] & He & [= <- <-]). unfold ManualWake in He.
    apply bind_Ok in He as (w & _ & He). destruct (timed w); cbn [snd].
    + apply bind_Ok in He as ([[d'|] rv] & _ & He); [by injection He as <- <-|].
      by apply bind_Ok in He as (_ & _ & [= <- <-]).
    + by destruct (_ =? _); injection He as <- <-.
Qed.

(** The two ways to start waiting. *)
Definition starts_waiting (t : nat) (e e1 : Event) : Prop :=
  ManualWait t e = (Blocked, e1) ∨ ∃ d now, ManualWaitWithTimeout t d now e = (Blocked, e1).

Lemma starts_waiting_inv t e e1 :
  starts_waiting t e e1 →
  ∃ d, e1 = block t (mkWaiter false (signal_id_ e) d) e.
Proof.
  intros [Hw|(d & now & Hw)].
  - unfold ManualWait in Hw. destruct (signaled_ e); simplify_eq. eauto.
  - unfold ManualWaitWithTimeout in Hw. destruct manual_condition; simplify_eq. eauto.
Qed.
End manual.

(** ** Runs of a latch *)

Inductive latch_call := LWait (t : nat) | LWake (t : nat) | LDecrement | LSignal.

(** [signalling]: threads between the decrement that reached zero and the
    signal. *)
Record LatchRun := mkLatchRun { latch : Latch; signalling : nat; counted : nat }.

Definition latch_exec `{Build} (x : latch_call) (s : LatchRun) : result (option outcome * LatchRun) :=
  let '(mkLatchRun l n d) := s in
  match x with
  | LWait t => let '(o, l) := LatchWait t l in mret (Some o, mkLatchRun l n d)
  | LWake t => r ← LatchWake t l; mret (Some r.1, mkLatchRun r.2 n d)
  | LDecrement =>
      let '(zero, l) := CountDown_decrement l in mret (None, mkLatchRun l (if zero then S n else n) (S d))
  | LSignal =>
      match n with O => Fault OutOfRange | S n => mret (None, mkLatchRun (CountDown_signal l) n d) end
  end.

Fixpoint latch_run `{Build} (xs : list latch_call) (s : LatchRun) : result LatchRun :=
  match xs with
  | [] => mret s
  | x :: xs => r ← latch_exec x s; latch_run xs r.2
  end.

Definition latch_open (s : LatchRun) : bool := signaled_ (waitable_event_ (latch s)).

Section latch.
Context `{Build} (count : Z) (Hcount : 0 ≤ count < 2 ^ 64).

(** Before the last count down nobody signals; after it one thread does. *)
Record latch_inv (s : LatchRun) : Prop := {
  li_count : count_ (latch s) = wrapU 64 (count - Z.of_nat (counted s));
  li_open : latch_open s = negb (Z.of_nat (counted s) <? count) && (signalling s =? 0)%nat;
  li_id : signal_id_ (waitable_event_ (latch s)) = Z.b2z (latch_open s);
  li_waiters : ∀ t w, waiters (waitable_event_ (latch s)) !! t = Some w →
                      last_signal_id w = 0 ∧ timed w = None;
  li_signalling : Z.of_nat (signalling s) ≤ if Z.of_nat (counted s) <? count then 0 else 1;
  li_zero : count = 0 → signalling s = 0%nat;
}.

Lemma latch_inv_new : latch_inv (mkLatchRun (new_latch count) 0 0).
Proof using Hcount.
  unfold new_latch. destruct (Z.eqb_spec count 0) as [Hz|Hne].
  - split; cbn; rewrite ?Hz; done.
  - assert (Hlt : (Z.of_nat 0 <? count) = true) by (apply Z.ltb_lt; lia).
    split; cbn; rewrite ?Hlt; cbn; try done.
    rewrite Z.sub_0_r. by rewrite wrapU_id.
Qed.

Lemma latch_decrement_inv l n d l' zero :
  latch_inv (mkLatchRun l n d) → Z.of_nat (S d) < 2 ^ 64 → CountDown_decrement l = (zero, l') →
  latch_inv (mkLatchRun l' (if zero then S n else n) (S d)).
Proof using Hcount.
  intros [Hc Ho Hid Hw Hs Hz] Hd. unfold CountDown_decrement, latch_open in *.
  cbn [latch signalling counted count_ waitable_event_] in *. rewrite Hc. intros [= <- <-].
  assert (Hwrap : wrapU 64 (wrapU 64 (count - Z.of_nat d) - 1) = wrapU 64 (count - Z.of_nat (S d))).
  { unfold wrapU. rewrite Zminus_mod_idemp_l. f_equal. lia. }
  assert (Hzero : (wrapU 64 (count - Z.of_nat (S d)) =? 0) = (count =? Z.of_nat (S d))).
  { destruct (Z.eqb_spec count (Z.of_nat (S d))) as [->|Hne]; [by rewrite Z.sub_diag|].
    apply Z.eqb_neq. unfold wrapU. intros [q Hq]%Z.mod_divide; [|lia].
    assert (q = 0 ∨ q ≤ -1 ∨ 1 ≤ q) as [->|[Hq'|Hq']] by lia; nia. }
  rewrite Hwrap, Hzero. destruct (Z.eqb_spec count (Z.of_nat (S d))) as [He|He].
  - assert (Hlt : (Z.of_nat d <? count) = true) by (apply Z.ltb_lt; lia).
    rewrite Hlt in *. cbn [negb andb] in *. assert (n = 0%nat) as -> by lia.
    split; unfold latch_open; cbn [latch signalling counted count_ waitable_event_]; try done.
    + rewrite Ho. by rewrite andb_false_r.
    + rewrite (proj2 (Z.ltb_ge _ _)); lia.
    + lia.
  - assert (Hlt : (Z.of_nat (S d) <? count) = (Z.of_nat d <? count)).
    { destruct (Z.ltb_spec (Z.of_nat (S d)) count), (Z.ltb_spec (Z.of_nat d) count); (done || lia). }
    split; unfold latch_open; cbn [latch signalling counted count_ waitable_event_]; rewrite ?Hlt; done.
Qed.

Lemma latch_signal_inv l n d :
  latch_inv (mkLatchRun l (S n) d) → latch_inv (mkLatchRun (CountDown_signal l) n d).
Proof using Hcount.
  intros [Hc Ho Hid Hw Hs Hz]. unfold latch_open in *.
  cbn [latch signalling counted count_ waitable_event_] in *. rewrite andb_false_r in Ho. rewrite Ho in Hid.
  destruct (Z.of_nat d <? count) eqn:Hd; [lia|]. assert (n = 0%nat) as -> by lia.
  split; unfold latch_open; cbn; rewrite ?Hd, ?Hid; try done.
  intros t w. rewrite lookup_fmap. intros (w0 & Hw0 & ->)%fmap_Some. cbn. eauto.
Qed.

Lemma LatchWait_outcome t l :
  (LatchWait t l).1 = if signaled_ (waitable_event_ l) then Returned false else Blocked.
Proof. unfold LatchWait, ManualWait. by destruct signaled_. Qed.

Lemma LatchWake_outcome t w s :
  latch_inv s → waiters (waitable_event_ (latch s)) !! t = Some w →
  ∃ l, LatchWake t (latch s) ⇓ (if latch_open s then Returned false else Blocked, l).
Proof.
  intros Hs Hw. destruct (li_waiters _ Hs t w Hw) as [Hlast Htimed].
  unfold LatchWake, ManualWake. rewrite Hw. cbn [of_option mbind result_bind].
  rewrite Htimed, Hlast, (li_id _ Hs). destruct latch_open; cbn; eauto.
Qed.

Lemma latch_wait_inv t l n d :
  latch_inv (mkLatchRun l n d) → latch_inv (mkLatchRun (LatchWait t l).2 n d).
Proof.
  intros [Hc Ho Hid Hw Hs Hz]. unfold latch_open, LatchWait, ManualWait in *.
  cbn [latch signalling counted count_ waitable_event_] in *.
  destruct (signaled_ (waitable_event_ l)) eqn:Hsig.
  - split; unfold latch_open; cbn; rewrite ?Hsig; done.
  - split; unfold latch_open; cbn; rewrite ?Hsig, ?Hid; try done.
    intros t' w' [[_ <-]|[_ Hw']]%lookup_insert_Some; [done|eauto].
Qed.

Lemma latch_wake_inv t l n d r :
  latch_inv (mkLatchRun l n d) → LatchWake t l ⇓ r → latch_inv (mkLatchRun r.2 n d).
Proof.
  intros [Hc Ho Hid Hw Hs Hz]. unfold LatchWake, ManualWake, latch_open in *.
  cbn [latch signalling counted count_ waitable_event_] in *.
  intros ([o e] & (w & Hlook%of_option_Ok & He)%bind_Ok & [= <-])%bind_Ok.
  destruct (Hw _ _ Hlook) as [Hlast Htimed]. rewrite Htimed in He. cbn [snd].
  destruct (signal_id_ (waitable_event_ l) =? last_signal_id w); injection He as <- <-;
    split; unfold latch_open; cbn; try done.
  - intros t' w' [[_ <-]|[_ Hw']]%lookup_insert_Some; [done|eauto].
  - intros t' w' [_ Hw']%lookup_delete_Some. eauto.
Qed.

Lemma latch_exec_counted x s o s1 : latch_exec x s ⇓ (o, s1) → (counted s ≤ counted s1)%nat.
Proof.
  destruct s as [l n d], x as [t|t| |]; cbn [latch_exec counted]; intros Hx.
  - destruct LatchWait. by injection Hx as _ <-.
  - by apply bind_Ok in Hx as (? & _ & [= _ <-]).
  - destruct CountDown_decrement. injection Hx as _ <-. apply Nat.le_succ_diag_r.
  - destruct n; [done|]. by injection Hx as _ <-.
Qed.

Lemma latch_run_counted xs s s' : latch_run xs s ⇓ s' → (counted s ≤ counted s')%nat.
Proof.
  revert s. induction xs as [|x xs IH]; intros s; cbn; [by intros [= <-]|].
  intros ([o s1] & Hx%latch_exec_counted & Hrun%IH)%bind_Ok. cbn [snd] in Hrun. by etrans.
Qed.

Lemma latch_run_inv xs s s' :
  latch_inv s → latch_run xs s ⇓ s' → Z.of_nat (counted s') < 2 ^ 64 → latch_inv s'.
Proof using Hcount.
  revert s. induction xs as [|x xs IH]; intros s Hs; [by intros [= <-] _|].
  cbn. intros ([o s1] & Hx & Hrun)%bind_Ok Hd. cbn [snd] in Hrun.
  apply (IH s1); [|done|done]. apply latch_run_counted in Hrun as Hmono.
  destruct s as [l n d], x as [t|t| |]; cbn [latch_exec] in Hx.
  - pose proof (latch_wait_inv t _ _ _ Hs) as Hs1. destruct LatchWait. by injection Hx as _ <-.
  - apply bind_Ok in Hx as (r & Hr & [= _ <-]). by eapply latch_wake_inv.
  - destruct (CountDown_decrement l) as [zero l'] eqn:Hdec. injection Hx as _ <-.
    cbn [counted] in Hmono. eapply latch_decrement_inv; [done|lia|done].
  - destruct n; [done|]. injection Hx as _ <-. by apply latch_signal_inv.
Qed.
End latch.

(** ** Claims *)

(** An auto-reset event releases at most one waiter per signal, whatever
    the interleaving of signals, resets, waits, spurious wake-ups and timeouts. *)
Theorem auto_reset_one_release `{Build} timed_waits signals releases e :
  AutoRun timed_waits signals releases e → (releases ≤ signals)%nat.
Proof. intros Hr%auto_releases. lia. Qed.

(** C40: An auto-reset event without timed waits never loses a wake-up: while
    it is signaled and threads wait, one of them has been notified, and when
    it wakes up it returns and consumes the signal. *)
Theorem auto_reset_no_lost_wakeup `{Build} signals releases e :
  AutoRun false signals releases e → signaled_ e = true → waiters e ≠ ∅ →
  ∃ t w, waiters e !! t = Some w ∧ notified w = true ∧
    ∀ how, AutoWake t how e ⇓ (Returned false, set_signaled false (leave t e)).
Proof.
  intros [Hu Hh]%auto_untimed Hs Hne. destruct (Hh Hs Hne) as (t & w & Hw & Hn).
  exists t, w. split_and!; [done..|]. intros how. unfold AutoWake.
  rewrite Hw. cbn [of_option mbind result_bind]. by rewrite (Hu _ _ Hw), Hs.
Qed.

(** A manual-reset event releases everyone who waits when it is signaled,
    even when it is reset before they run: a thread that blocked has been
    notified, and returns without a timeout, after between one and [2^32 - 1]
    signals. *)
Theorem manual_reset_releases_all `{Build} t e e1 xs e2 now :
  in_u 32 (signal_id_ e) = true → starts_waiting t e e1 →
  Forall (λ x, by_thread t x = false) xs → manual_run xs e1 ⇓ e2 →
  0 < Z.of_nat (manual_signals xs) < 2 ^ 32 →
  (∃ w, waiters e2 !! t = Some w ∧ notified w = true) ∧
  ManualWake t (NoTimeout now) e2 ⇓ (Returned false, leave t e2).
Proof.
  intros Hid (d & ->)%starts_waiting_inv Hxs Hrun Hk.
  pose proof (manual_run_id _ _ _ Hrun Hid) as Hid2. rewrite in_u_spec in Hid, Hid2.
  destruct (manual_run_other t (mkWaiter false (signal_id_ e) d) xs _ _ Hxs (lookup_insert_eq _ _ _) Hrun)
    as [Hw Hsig]. destruct (manual_signals xs) as [|k] eqn:Hsigs; [lia|]. cbn [notified_by] in Hw.
  split; [by eexists|]. cbn [signal_id_ block] in Hsig.
  assert (Hne : (signal_id_ e2 =? signal_id_ e) = false).
  { apply Z.eqb_neq. intros Heq. rewrite Heq in Hsig. unfold wrapU in Hsig.
    rewrite (Z.mod_small (signal_id_ e)) in Hsig by done.
    pose proof (Z.div_mod (signal_id_ e + Z.of_nat (S k)) (2 ^ 32) ltac:(lia)) as Hdm.
    rewrite <- Hsig in Hdm. nia. }
  unfold ManualWake. rewrite Hw. cbn [of_option mbind result_bind set_waiter timed last_signal_id].
  destruct d as [d|]; [|by rewrite Hne]. unfold manual_condition. rewrite Hne, orb_true_r. cbn.
  by rewrite fml_dcheck_true.
Qed.

(** A latch of [count] opens exactly when the last of [count] count downs
    has signaled: in every interleaving, waiting and waking return if and
    only if the latch is open, and it is open if and only if at least [count]
    count downs have happened and none of them still has to signal. *)
Theorem latch_opens `{Build} count xs s :
  0 ≤ count < 2 ^ 64 → latch_run xs (mkLatchRun (new_latch count) 0 0) ⇓ s →
  Z.of_nat (counted s) < 2 ^ 64 →
  latch_open s = negb (Z.of_nat (counted s) <? count) && (signalling s =? 0)%nat ∧
  (∀ t, (LatchWait t (latch s)).1 = if latch_open s then Returned false else Blocked) ∧
  (∀ t, is_Some (waiters (waitable_event_ (latch s)) !! t) →
     ∃ l, LatchWake t (latch s) ⇓ (if latch_open s then Returned false else Blocked, l)).
Proof.
  intros Hc Hrun Hd. assert (Hs : latch_inv count s).
  { eapply latch_run_inv; [done| |done|done]. by apply latch_inv_new. }
  split_and!; [by apply Hs|intros t; apply LatchWait_outcome|].
  intros t [w Hw]. by eapply LatchWake_outcome.
Qed.

(** ** Concrete runs *)

#[local] Instance event_build : Build := {| debug := true |}.

Definition wait_then_signal : Event := AutoSignal (Some 1%nat) (AutoWait 1 new_event).2.

Lemma wait_then_signal_run timed_waits : AutoRun timed_waits 1 0 wait_then_signal.
Proof.
  apply (auto_step timed_waits 0 0 (AutoWait 1 new_event).2 (ASignal (Some 1%nat)) None); [|done..].
  by apply (auto_step timed_waits 0 0 new_event (AWait 1) (Some Blocked)); [constructor|..].
Defined.

Lemma auto_reset_one_release_witness : (0 ≤ 1)%nat.
Proof. apply (auto_reset_one_release true 1 0 wait_then_signal), wait_then_signal_run. Defined.

Lemma auto_reset_no_lost_wakeup_witness :
  ∃ t w, waiters wait_then_signal !! t = Some w ∧ notified w = true ∧
    ∀ how, AutoWake t how wait_then_signal ⇓ (Returned false, set_signaled false (leave t wait_then_signal)).
Proof.
  apply (auto_reset_no_lost_wakeup 1 0 wait_then_signal); [apply wait_then_signal_run|reflexivity|].
  intros He. apply (f_equal (lookup 1%nat)) in He. discriminate.
Defined.

Lemma manual_reset_releases_all_witness :
  let e1 := (ManualWait 1 new_event).2 in
  let e2 := ManualReset (ManualSignal e1) in
  (∃ w, waiters e2 !! 1%nat = Some w ∧ notified w = true) ∧
  ManualWake 1 (NoTimeout 0) e2 ⇓ (Returned false, leave 1 e2).
Proof.
  apply (manual_reset_releases_all 1 new_event (ManualWait 1 new_event).2 [MSignal; MReset]);
    [reflexivity|by left|repeat constructor|reflexivity|cbn; lia].
Defined.

Lemma latch_opens_witness :
  ∃ s, latch_run [LWait 1; LDecrement; LDecrement; LSignal] (mkLatchRun (new_latch 2) 0 0) ⇓ s ∧
       latch_open s = true ∧
       ∃ l, LatchWake 1 (latch s) ⇓ (Returned false, l).
Proof.
  eexists. split; [reflexivity|].
  edestruct (latch_opens 2 [LWait 1; LDecrement; LDecrement; LSignal]) as (Ho & _ & Hw);
    [lia|reflexivity|cbn; lia|].
  split; [exact Ho|]. apply (Hw 1%nat). eexists. reflexivity.
Defined.

(** A timed wait reports a timeout without looking at [signaled_]: when
    the notified thread reports a timeout, the event stays signaled while
    another thread sleeps, and no notification is left. *)
Theorem timed_wait_loses_wakeup :
  ∃ e, AutoRun true 1 0 e ∧ signaled_ e = true ∧ asleep e 2 = true ∧
       ∀ t w, waiters e !! t = Some w → notified w = false.
Proof.
  set (e1 := (AutoWaitWithTimeout 1 5 0 new_event).2). set (e2 := (AutoWait 2 e1).2).
  set (e3 := AutoSignal (Some 1%nat) e2). exists (leave 1 e3). split_and!; [|done|done|].
  - apply (auto_step true 1 0 e3 (AWake 1 CvTimeout) (Some (Returned true))); [|by eexists|done|done].
    apply (auto_step true 0 0 e2 (ASignal (Some 1%nat)) None); [|done..].
    apply (auto_step true 0 0 e1 (AWait 2) (Some Blocked)); [|done..].
    by apply (auto_step true 0 0 new_event (ATimedWait 1 5 0) (Some Blocked)); [constructor|..].
  - intros t w Hw. assert (Ht : t = 2%nat ∨ t ≠ 2%nat) by lia. destruct Ht as [->|Ht].
    + vm_compute in Hw. by injection Hw as <-.
    + cbn [leave waiters] in Hw. apply lookup_delete_Some in Hw as [Hne Hw]. unfold e3, AutoSignal, notify_one in Hw. cbn in Hw.
      rewrite lookup_alter_ne, lookup_insert_ne, lookup_insert_ne in Hw by done. done.
Qed.
