(* ===== verification/ConcurrentLoop.v ===== *)
(** * ConcurrentLoop: the worker pool

    Model of [fml::ConcurrentMessageLoop] and [fml::ConcurrentTaskRunner]
    (fml/concurrent_message_loop.{h,cc}).  A critical section of
    [tasks_mutex_] is one step; [notify_one] after the lock was released is a
    step of its own; a worker that runs a task is between two steps.  Tasks
    are identified by numbers, and a posted task that itself posts tasks is
    one of the callers of [PostTask]. *)

From Stdlib Require Import ZArith Lia.
From stdpp Require Import base sorting gmap numbers list.
From S2P Require Import Prelude.

Abbreviation closure := nat.

(** A worker at the top of its loop, blocked in [tasks_condition_.wait],
    running a task, or out of [WorkerMain]. *)
Inductive worker :=
  | AtTop
  | Asleep (notified : bool)
  | Running (task : closure)
  | Exited.

Record ConcurrentMessageLoop := mkLoop {
  worker_count_ : nat;
  workers_ : list worker;
  tasks_ : list closure;
  shutdown_ : bool;
}.

Definition new_loop (worker_count : nat) : ConcurrentMessageLoop :=
  let n := Nat.max worker_count 1 in mkLoop n (replicate n AtTop) [] false.

Definition GetWorkerCount (l : ConcurrentMessageLoop) : nat := worker_count_ l.

Definition with_workers ws l := mkLoop (worker_count_ l) ws (tasks_ l) (shutdown_ l).
Definition with_tasks ts l := mkLoop (worker_count_ l) (workers_ l) ts (shutdown_ l).

(** What [PostTask] does with a task: nothing (an empty closure), run it on the
    calling thread, or queue it; the caller then still has to notify. *)
Inductive posting := Ignored | RunInline (task : closure) | Queued.

Definition PostTask (task : option closure) (l : ConcurrentMessageLoop) : posting * ConcurrentMessageLoop :=
  match task with
  | None => (Ignored, l)
  | Some task =>
      if shutdown_ l then (RunInline task, l)
      else (Queued, with_tasks (tasks_ l ++ [task]) l)
  end.

Definition wake_worker (w : worker) : worker := match w with Asleep _ => Asleep true | w => w end.

(** [tasks_condition_.notify_one()]: [pick] is the worker it unblocks. *)
Definition notify_one (pick : option nat) (l : ConcurrentMessageLoop) : ConcurrentMessageLoop :=
  match pick with Some i => with_workers (alter wake_worker i (workers_ l)) l | None => l end.

(** A worker takes the lock, at the top of the loop or waking up inside
    [wait]: it sleeps (again), leaves the loop, or takes the front task. *)
Definition WorkerMain_step `{Build} (i : nat) (l : ConcurrentMessageLoop)
    : result (option closure * ConcurrentMessageLoop) :=
  w ← of_option OutOfRange (workers_ l !! i);
  match w with
  | Running _ | Exited => Fault OutOfRange
  | AtTop | Asleep _ =>
      match tasks_ l with
      | [] =>
          if shutdown_ l then
            _ ← fml_dcheck (shutdown_ l);
            mret (None, with_workers (<[i := Exited]> (workers_ l)) l)
          else mret (None, with_workers (<[i := Asleep false]> (workers_ l)) l)
      | task :: tasks =>
          mret (Some task, with_workers (<[i := Running task]> (workers_ l)) (with_tasks tasks l))
      end
  end.

(** The task of a worker returns. *)
Definition WorkerMain_done (i : nat) (l : ConcurrentMessageLoop) : result ConcurrentMessageLoop :=
  match workers_ l !! i with
  | Some (Running _) => mret (with_workers (<[i := AtTop]> (workers_ l)) l)
  | _ => Fault OutOfRange
  end.

Definition Terminate (l : ConcurrentMessageLoop) : ConcurrentMessageLoop :=
  mkLoop (worker_count_ l) (wake_worker <$> workers_ l) (tasks_ l) true.

(** The destructor joins every worker. *)
Definition joined (l : ConcurrentMessageLoop) : Prop := Forall (λ w, w = Exited) (workers_ l).

(** [ConcurrentTaskRunner::PostTask]: the loop may have died. *)
Definition RunnerPostTask (task : option closure) (weak_loop : option ConcurrentMessageLoop)
    : posting * option ConcurrentMessageLoop :=
  match task with
  | None => (Ignored, weak_loop)
  | Some t =>
      match weak_loop with
      | Some loop => let '(p, loop) := PostTask task loop in (p, Some loop)
      | None => (RunInline t, None)
      end
  end.

(** ** Runs *)

Inductive loop_call :=
  | CPost (task : closure)
  | CNotify (pick : option nat)
  | CStep (i : nat)
  | CDone (i : nat)
  | CTerminate.

(** The loop with what happened so far: tasks queued, tasks started by
    workers, tasks run inline, and callers that still have to notify. *)
Record Pool := mkPool {
  loop : ConcurrentMessageLoop;
  queued : list closure;
  started : list closure;
  inlined : list closure;
  notifiers : nat;
}.

Definition new_pool (n : nat) : Pool := mkPool (new_loop n) [] [] [] 0.

Definition pick_ok (pick : option nat) (l : ConcurrentMessageLoop) : Prop :=
  match pick with
  | Some i => workers_ l !! i = Some (Asleep false)
  | None => Asleep false ∉ workers_ l
  end.

Inductive pool_step `{Build} : Pool → loop_call → Pool → Prop :=
  | step_post l q s n k t p l' :
      PostTask (Some t) l = (p, l') →
      pool_step (mkPool l q s n k) (CPost t)
        (match p with Queued => mkPool l' (q ++ [t]) s n (S k) | _ => mkPool l' q s (n ++ [t]) k end)
  | step_notify l q s n k pick :
      pick_ok pick l →
      pool_step (mkPool l q s n (S k)) (CNotify pick) (mkPool (notify_one pick l) q s n k)
  | step_worker l q s n k i t l' :
      WorkerMain_step i l ⇓ (t, l') →
      pool_step (mkPool l q s n k) (CStep i) (mkPool l' q (s ++ option_list t) n k)
  | step_done l q s n k i l' :
      WorkerMain_done i l ⇓ l' →
      pool_step (mkPool l q s n k) (CDone i) (mkPool l' q s n k)
  | step_terminate l q s n k :
      pool_step (mkPool l q s n k) CTerminate (mkPool (Terminate l) q s n k).

Inductive pool_reachable `{Build} (n : nat) : Pool → Prop :=
  | pool_new : pool_reachable n (new_pool n)
  | pool_next p x p' : pool_reachable n p → pool_step p x p' → pool_reachable n p'.

(** Awake: will look at the queue without being notified. *)
Definition awake (w : worker) : Prop := w = AtTop ∨ w = Asleep true ∨ ∃ t, w = Running t.

Record pool_inv (p : Pool) : Prop := {
  pi_fifo : started p ++ tasks_ (loop p) = queued p;
  pi_size : workers_ (loop p) ≠ [];
  pi_exited : Exited ∈ workers_ (loop p) → shutdown_ (loop p) = true ∧ tasks_ (loop p) = [];
  pi_shutdown : shutdown_ (loop p) = true → Asleep false ∉ workers_ (loop p);
  pi_awake : tasks_ (loop p) ≠ [] → notifiers p = 0%nat → Exists awake (workers_ (loop p));
}.

Lemma Exists_insert_awake i w (ws : list worker) : i < length ws → awake w → Exists awake (<[i := w]> ws).
Proof.
  intros Hi Hw. apply Exists_exists. exists w. split; [|done].
  apply list_elem_of_lookup_2 with i. by apply list_lookup_insert_eq.
Qed.

Lemma elem_of_insert_ne x i w (ws : list worker) : x ≠ w → x ∈ <[i := w]> ws → x ∈ ws.
Proof.
  intros Hne (j & Hj)%list_elem_of_lookup_1. destruct (decide (i = j)) as [->|Hij].
  - apply list_lookup_insert_Some in Hj as [(_ & -> & _)|(? & _)]; done.
  - rewrite list_lookup_insert_ne in Hj by done. by eapply list_elem_of_lookup_2.
Qed.

Lemma not_asleep_awake (ws : list worker) :
  ws ≠ [] → Asleep false ∉ ws → Exited ∉ ws → Exists awake ws.
Proof.
  destruct ws as [|w ws]; [done|]. intros _ Hs He. left. unfold awake.
  destruct w as [|[]|t|]; [auto|auto|set_solver|eauto|set_solver].
Qed.

Section pool.
Context `{Build}.

Lemma pool_inv_new n : pool_inv (new_pool n).
Proof.
  assert (Hn : ∀ w, w ∈ replicate (Nat.max n 1) AtTop → w = AtTop)
    by (intros w [-> _]%elem_of_replicate; done).
  split; cbn; try done.
  - destruct (Nat.max n 1) eqn:Hm; [lia|done].
  - by intros ?%Hn.
Qed.

Lemma worker_step_inv l q s n k i t l' :
  pool_inv (mkPool l q s n k) → WorkerMain_step i l ⇓ (t, l') →
  pool_inv (mkPool l' q (s ++ option_list t) n k).
Proof.
  intros [Hf Hz He Hs Ha] Hw. unfold WorkerMain_step in Hw. cbn in *.
  apply bind_Ok in Hw as (w & Hw%of_option_Ok & Hstep). pose proof (lookup_lt_Some _ _ _ Hw) as Hi.
  assert (Hne : ∀ v, <[i := v]> (workers_ l) ≠ []).
  { intros v Hnil. apply (f_equal length) in Hnil. rewrite length_insert in Hnil. cbn in Hnil. lia. }
  assert (Hrun : match tasks_ l with
      | [] => if shutdown_ l
              then _ ← fml_dcheck (shutdown_ l); mret (None, with_workers (<[i := Exited]> (workers_ l)) l)
              else mret (None, with_workers (<[i := Asleep false]> (workers_ l)) l)
      | task :: tasks =>
          mret (Some task, with_workers (<[i := Running task]> (workers_ l)) (with_tasks tasks l))
      end ⇓ (t, l')) by (by destruct w).
  clear Hstep. destruct (tasks_ l) as [|task tasks] eqn:Ht; [destruct (shutdown_ l) eqn:Hsh|].
  - apply bind_Ok in Hrun as (_ & _ & [= <- <-]). split; cbn; rewrite ?Ht, ?app_nil_r in *; try done.
    intros _ Hin%elem_of_insert_ne; [|done]. by apply Hs.
  - injection Hrun as <- <-. split; cbn; rewrite ?Ht, ?app_nil_r in *; try done; [|congruence].
    intros Hin%elem_of_insert_ne; [|done]. rewrite Hsh. by apply He.
  - injection Hrun as <- <-. split; cbn; try done.
    + by rewrite <- app_assoc.
    + intros [_ ?]%elem_of_insert_ne%He; done.
    + intros Hsh Hin%elem_of_insert_ne; [|done]. by apply Hs.
    + intros _ _. apply Exists_insert_awake; [done|]. right. right. eauto.
Qed.

Lemma wake_workers_keep x (ws ws' : list worker) :
  (∀ b, x ≠ Asleep b) → Forall2 (λ w w', w' = w ∨ w' = wake_worker w) ws ws' → x ∈ ws' → x ∈ ws.
Proof.
  intros Hx. induction 1 as [|w w' ws ws' Hw _ IH]; [done|].
  intros [->|Hin]%elem_of_cons; [|right; auto]. destruct Hw as [->|Hw]; [left|].
  destruct w; cbn in Hw; subst; try left. by destruct (Hx true).
Qed.

Lemma alter_wake i (ws : list worker) : Forall2 (λ w w', w' = w ∨ w' = wake_worker w) ws (alter wake_worker i ws).
Proof.
  revert i. induction ws as [|w ws IH]; intros [|i]; cbn; constructor; auto.
  clear. induction ws; constructor; auto.
Qed.

Lemma notify_inv l q s n k pick :
  pool_inv (mkPool l q s n (S k)) → pick_ok pick l → pool_inv (mkPool (notify_one pick l) q s n k).
Proof.
  intros [Hf Hz He Hs Ha] Hp. cbn in *. destruct pick as [i|]; cbn in Hp.
  - split; cbn; try done.
    + intros Hnil. apply Hz. apply (f_equal length) in Hnil. rewrite length_alter in Hnil. by apply nil_length_inv.
    + intros Hin. apply He. by eapply wake_workers_keep; [|apply alter_wake|].
    + intros Hsh. exfalso. apply (Hs Hsh). by eapply list_elem_of_lookup_2.
    + intros _ _. apply Exists_exists. exists (Asleep true). split; [|unfold awake; auto].
      apply list_elem_of_lookup_2 with i. by rewrite list_lookup_alter_eq, Hp.
  - split; cbn; try done. intros Ht Hk. apply not_asleep_awake; [done..|].
    intros Hex. by destruct (He Hex).
Qed.

Lemma terminate_inv l q s n k : pool_inv (mkPool l q s n k) → pool_inv (mkPool (Terminate l) q s n k).
Proof.
  intros [Hf Hz He Hs Ha]. cbn in *. split; cbn; try done.
  - by intros ?%fmap_nil_inv.
  - intros ([] & Hw & Hin)%list_elem_of_fmap; try done. split; [done|]. by apply He.
  - intros _ ([] & Hw & Hin)%list_elem_of_fmap; done.
  - intros Ht Hk. apply Exists_fmap. eapply Exists_impl; [by apply Ha|].
    unfold awake. intros w [->|[->|(t & ->)]]; cbn; eauto.
Qed.

Lemma done_inv l q s n k i l' :
  pool_inv (mkPool l q s n k) → WorkerMain_done i l ⇓ l' → pool_inv (mkPool l' q s n k).
Proof.
  intros [Hf Hz He Hs Ha] Hd. unfold WorkerMain_done in Hd. cbn in *.
  destruct (workers_ l !! i) as [[| |t|]|] eqn:Hw; try done. injection Hd as <-.
  pose proof (lookup_lt_Some _ _ _ Hw) as Hi. split; cbn; try done.
  - intros Hnil. apply (f_equal length) in Hnil. rewrite length_insert in Hnil. cbn in Hnil. lia.
  - intros Hin%elem_of_insert_ne; auto.
  - intros Hsh Hin%elem_of_insert_ne; [|done]. by apply Hs.
  - intros _ _. apply Exists_insert_awake; [done|by left].
Qed.

Lemma post_inv l q s n k t p l' :
  pool_inv (mkPool l q s n k) → PostTask (Some t) l = (p, l') →
  pool_inv (match p with Queued => mkPool l' (q ++ [t]) s n (S k) | _ => mkPool l' q s (n ++ [t]) k end).
Proof.
  intros [Hf Hz He Hs Ha]. unfold PostTask. cbn in *.
  destruct (shutdown_ l) eqn:Hsh; intros [= <- <-]; split; cbn; rewrite ?Hsh; try done.
  - by rewrite app_assoc, Hf.
  - intros Hin. by destruct (He Hin).
Qed.

Lemma pool_reachable_inv n p : pool_reachable n p → pool_inv p.
Proof.
  induction 1 as [|p x p' _ IH Hstep]; [apply pool_inv_new|].
  destruct Hstep; eauto using post_inv, notify_inv, worker_step_inv, done_inv, terminate_inv.
Qed.

(** ** After shutdown *)

Definition weight (w : worker) : nat := match w with Exited => 0 | Running _ => 2 | _ => 1 end.
Definition work_left (l : ConcurrentMessageLoop) : nat :=
  3 * length (tasks_ l) + sum_list (weight <$> workers_ l).

Lemma sum_weight_insert i w w0 (ws : list worker) :
  ws !! i = Some w0 →
  (sum_list (weight <$> <[i := w]> ws) + weight w0 = sum_list (weight <$> ws) + weight w)%nat.
Proof.
  revert i. induction ws as [|x ws IH]; intros [|i] Hi; [done..| |].
  - injection Hi as ->. cbn. lia.
  - specialize (IH i Hi). change (<[S i := w]> (x :: ws)) with (x :: <[i := w]> ws).
    rewrite !fmap_cons. cbn [sum_list]. lia.
Qed.

Lemma step_decreases i l t l' :
  shutdown_ l = true → WorkerMain_step i l ⇓ (t, l') → (work_left l' < work_left l)%nat.
Proof.
  intros Hsh Hw. unfold WorkerMain_step in Hw. apply bind_Ok in Hw as (w & Hw%of_option_Ok & Hstep).
  rewrite Hsh in Hstep. unfold work_left.
  destruct w as [|b|u|]; try done; destruct (tasks_ l) as [|task tasks] eqn:Ht;
    try (apply bind_Ok in Hstep as (_ & _ & [= <- <-])); try injection Hstep as <- <-; cbn; rewrite ?Ht;
    pose proof (sum_weight_insert i Exited _ _ Hw);
    try pose proof (sum_weight_insert i (Running task) _ _ Hw); cbn in *; lia.
Qed.

Lemma done_decreases i l l' : WorkerMain_done i l ⇓ l' → (work_left l' < work_left l)%nat.
Proof.
  unfold WorkerMain_done. destruct (workers_ l !! i) as [[| |t|]|] eqn:Hw; try done.
  intros [= <-]. unfold work_left. cbn. pose proof (sum_weight_insert i AtTop _ _ Hw). cbn in *. lia.
Qed.

Lemma unfinished_can_step l :
  shutdown_ l = true → ¬ joined l →
  ∃ i, (∃ r, WorkerMain_step i l ⇓ r) ∨ ∃ l', WorkerMain_done i l ⇓ l'.
Proof.
  intros Hsh Hj. unfold joined in Hj. apply not_Forall_Exists in Hj; [|intros w; destruct w; [right|right|right|left]; done].
  apply Exists_exists in Hj as (w & (i & Hi)%list_elem_of_lookup_1 & Hw). exists i.
  unfold WorkerMain_step, WorkerMain_done. rewrite Hi, Hsh. cbn.
  destruct w; [left|left|right; eauto|by destruct Hw]; destruct (tasks_ l); rewrite ?fml_dcheck_true; eauto.
Qed.
End pool.

(** ** Claims *)

(** Queued tasks are started exactly once and in the order they were
    posted: in every interleaving the tasks started so far followed by the
    tasks still in the queue are the tasks queued. *)
Theorem concurrent_loop_fifo `{Build} n p :
  pool_reachable n p → started p ++ tasks_ (loop p) = queued p.
Proof. intros Hp%pool_reachable_inv. apply Hp. Qed.

(** Shutdown drops nothing: once a worker has left its loop the queue is
    empty and stays closed, so that when every worker was joined all queued
    tasks have been started. *)
Theorem shutdown_drains `{Build} n p :
  pool_reachable n p → joined (loop p) →
  shutdown_ (loop p) = true ∧ tasks_ (loop p) = [] ∧ started p = queued p.
Proof.
  intros Hp%pool_reachable_inv Hj. destruct Hp as [Hf Hz He _ _]. unfold joined in Hj.
  assert (Hex : Exited ∈ workers_ (loop p)).
  { destruct (workers_ (loop p)) as [|w ws]; [done|]. apply Forall_cons in Hj as [-> _]. left. }
  destruct (He Hex) as [Hsh Ht]. rewrite Ht, app_nil_r in Hf. done.
Qed.

(** No wake-up is lost: when tasks are queued and no caller of [PostTask]
    still has to notify, some worker is awake or has been notified; after
    [Terminate] no worker sleeps. *)
Theorem worker_is_awake `{Build} n p :
  pool_reachable n p →
  (tasks_ (loop p) ≠ [] → notifiers p = 0%nat → Exists awake (workers_ (loop p))) ∧
  (shutdown_ (loop p) = true → Asleep false ∉ workers_ (loop p)).
Proof. intros Hp%pool_reachable_inv. split; apply Hp. Qed.

(** The joins of the destructor return: after [Terminate] every step of a
    worker and every return of a task decreases a measure, and as long as a
    worker is left one of them can take a step. *)
Theorem shutdown_terminates `{Build} l :
  shutdown_ l = true →
  (∀ i t l', WorkerMain_step i l ⇓ (t, l') → work_left l' < work_left l ∧ shutdown_ l' = true) ∧
  (∀ i l', WorkerMain_done i l ⇓ l' → work_left l' < work_left l ∧ shutdown_ l' = true) ∧
  (¬ joined l → ∃ i, (∃ r, WorkerMain_step i l ⇓ r) ∨ ∃ l', WorkerMain_done i l ⇓ l').
Proof.
  intros Hsh. split_and!; [| |by apply unfinished_can_step].
  - intros i t l' Hw. split; [by eapply step_decreases|]. unfold WorkerMain_step in Hw.
    apply bind_Ok in Hw as (w & _ & Hw). destruct w; try done; destruct (tasks_ l);
      rewrite ?Hsh, ?fml_dcheck_true in Hw; by injection Hw as <- <-.
  - intros i l' Hd. split; [by eapply done_decreases|]. unfold WorkerMain_done in Hd.
    destruct (workers_ l !! i) as [[]|]; try done. by injection Hd as <-.
Qed.

(** ** Concrete runs *)

#[local] Instance pool_build : Build := {| debug := true |}.

Definition shut_down_pool : Pool := mkPool (mkLoop 1 [Exited] [] true) [7] [7] [] 0.

(** Post a task, notify nobody, terminate; the worker runs the task and leaves. *)
Lemma shut_down_pool_reachable : pool_reachable 1 shut_down_pool.
Proof.
  apply (pool_next 1 (mkPool (mkLoop 1 [AtTop] [] true) [7] [7] [] 0) (CStep 0)).
  2: exact (step_worker (mkLoop 1 [AtTop] [] true) [7] [7] [] 0 0 None _ eq_refl).
  apply (pool_next 1 (mkPool (mkLoop 1 [Running 7] [] true) [7] [7] [] 0) (CDone 0)).
  2: exact (step_done (mkLoop 1 [Running 7] [] true) [7] [7] [] 0 0 _ eq_refl).
  apply (pool_next 1 (mkPool (mkLoop 1 [AtTop] [7] true) [7] [] [] 0) (CStep 0)).
  2: exact (step_worker (mkLoop 1 [AtTop] [7] true) [7] [] [] 0 0 (Some 7) _ eq_refl).
  apply (pool_next 1 (mkPool (mkLoop 1 [AtTop] [7] false) [7] [] [] 0) CTerminate).
  2: exact (step_terminate (mkLoop 1 [AtTop] [7] false) [7] [] [] 0).
  apply (pool_next 1 (mkPool (mkLoop 1 [AtTop] [7] false) [7] [] [] 1) (CNotify None)).
  2: apply (step_notify (mkLoop 1 [AtTop] [7] false) [7] [] [] 0 None); cbn; set_solver.
  apply (pool_next 1 (new_pool 1) (CPost 7)); [constructor|].
  exact (step_post (mkLoop 1 [AtTop] [] false) [] [] [] 0 7 Queued _ eq_refl).
Defined.

Lemma concurrent_loop_fifo_witness : started shut_down_pool ++ [] = [7].
Proof. apply (concurrent_loop_fifo 1 shut_down_pool), shut_down_pool_reachable. Defined.

Lemma shutdown_drains_witness :
  shutdown_ (loop shut_down_pool) = true ∧ tasks_ (loop shut_down_pool) = [] ∧
  started shut_down_pool = queued shut_down_pool.
Proof.
  apply (shutdown_drains 1 shut_down_pool); [apply shut_down_pool_reachable|by repeat constructor].
Defined.

Lemma worker_is_awake_witness :
  (tasks_ (loop (new_pool 2)) ≠ [] → notifiers (new_pool 2) = 0%nat →
     Exists awake (workers_ (loop (new_pool 2)))) ∧
  (shutdown_ (loop (new_pool 2)) = true → Asleep false ∉ workers_ (loop (new_pool 2))).
Proof. apply (worker_is_awake 2 (new_pool 2)). constructor. Defined.

Lemma shutdown_terminates_witness :
  ∃ i, (∃ r, WorkerMain_step i (Terminate (new_loop 2)) ⇓ r) ∨ ∃ l', WorkerMain_done i (Terminate (new_loop 2)) ⇓ l'.
Proof.
  apply (shutdown_terminates (Terminate (new_loop 2)) eq_refl). intros Hj. by inversion Hj.
Defined.
