(* ===== verification/Instrumentation.v ===== *)
(** * Instrumentation: stopwatches, counters and the texture registry

    Model of flow/instrumentation.{h,cc} (without the drawing of the graphs)
    and of [TextureRegistry] (flow/texture.{h,cc}).  A stopwatch keeps its
    last 120 laps in a ring buffer; the registry maps texture ids to texture
    objects and forwards the life cycle of the GPU context to them. *)

From Stdlib Require Import ZArith Lia.
From stdpp Require Import base sorting gmap numbers list.
From S2P Require Import Prelude Time StdMap.

Local Open Scope Z_scope.

(** ** Stopwatch *)

Definition kMaxSamples : nat := 120.

Record Stopwatch := mkStopwatch {
  start_ : TimePoint.t;
  laps_ : list TimeDelta.t;
  current_sample_ : nat;
}.

Definition new_stopwatch (now : TimePoint.t) : Stopwatch :=
  mkStopwatch now (replicate kMaxSamples TimeDelta.Zero) 0.

Definition next_sample (i : nat) : nat := ((i + 1) mod kMaxSamples)%nat.

Definition Start (now : TimePoint.t) (w : Stopwatch) : Stopwatch :=
  mkStopwatch now (laps_ w) (next_sample (current_sample_ w)).
Definition Stop (now : TimePoint.t) (w : Stopwatch) : result Stopwatch :=
  lap ← TimePoint.diff now (start_ w);
  mret (mkStopwatch (start_ w) (<[current_sample_ w := lap]> (laps_ w)) (current_sample_ w)).
Definition SetLapTime (delta : TimeDelta.t) (w : Stopwatch) : Stopwatch :=
  let i := next_sample (current_sample_ w) in
  mkStopwatch (start_ w) (<[i := delta]> (laps_ w)) i.

(** [laps_[(current_sample_ - 1) % kMaxSamples]]: the subtraction is one of
    [size_t]. *)
Definition last_lap_index (w : Stopwatch) : nat :=
  Z.to_nat (wrapU 64 (Z.of_nat (current_sample_ w) - 1) `mod` Z.of_nat kMaxSamples).
Definition LastLap (w : Stopwatch) : result TimeDelta.t :=
  of_option UndefinedBehaviour (laps_ w !! last_lap_index w).
Definition CurrentLap (now : TimePoint.t) (w : Stopwatch) : result TimeDelta.t := TimePoint.diff now (start_ w).

(** The loops over the buffer. *)
Definition MaxDelta (w : Stopwatch) : TimeDelta.t :=
  foldl (λ m lap, if m <? lap then lap else m) TimeDelta.Zero (laps_ w).
Definition AverageDelta (w : Stopwatch) : result TimeDelta.t :=
  sum ← foldl (λ sum lap, sum ← sum; TimeDelta.add sum lap) (mret TimeDelta.Zero) (laps_ w);
  TimeDelta.div sum (Z.of_nat kMaxSamples).

(** ** Counters *)

Definition Increment (by_ count : Z) : Z := wrapU 64 (count + by_).

Record CounterValues := mkValues { values_ : list Z; value_sample_ : nat }.

Definition new_counter_values : CounterValues := mkValues (replicate kMaxSamples 0) (kMaxSamples - 1).
Definition AddValue (value : Z) (v : CounterValues) : CounterValues :=
  let i := next_sample (value_sample_ v) in mkValues (<[i := value]> (values_ v)) i.
Definition GetCurrentValue (v : CounterValues) : result Z :=
  of_option UndefinedBehaviour (values_ v !! value_sample_ v).
Definition GetMaxValue (v : CounterValues) : Z := foldl Z.max int64_min (values_ v).
Definition GetMinValue (v : CounterValues) : Z := foldl Z.min int64_max (values_ v).

(** ** Textures *)

(** What a texture object is told. *)
Inductive TextureCall :=
  | TextureContextCreated (texture : Z)
  | TextureContextDestroyed (texture : Z)
  | TextureUnregistered (texture : Z).

(** [std::map] from ids to texture objects, and the calls made to them. *)
Record TextureRegistry := mkRegistry {
  mapping_ : list (Z * Z);
  texture_calls : list TextureCall;
}.

Definition new_texture_registry : TextureRegistry := mkRegistry [] [].
Definition RegisterTexture (id texture : Z) (r : TextureRegistry) : TextureRegistry :=
  mkRegistry (StdMap.assign Z.ltb id texture (mapping_ r)) (texture_calls r).
(** [mapping_[id]] inserts a null pointer for an unknown id. *)
Definition UnregisterTexture (id : Z) (r : TextureRegistry) : result TextureRegistry :=
  texture ← of_option NullDeref (StdMap.find Z.ltb id (mapping_ r));
  mret (mkRegistry (StdMap.erase Z.ltb id (mapping_ r)) (texture_calls r ++ [TextureUnregistered texture])).
Definition GetTexture (id : Z) (r : TextureRegistry) : option Z := StdMap.find Z.ltb id (mapping_ r).
(** Iteration in the order of the ids. *)
Definition TexturesOnGrContextCreated (r : TextureRegistry) : TextureRegistry :=
  mkRegistry (mapping_ r) (texture_calls r ++ (TextureContextCreated ∘ snd <$> mapping_ r)).
Definition TexturesOnGrContextDestroyed (r : TextureRegistry) : TextureRegistry :=
  mkRegistry (mapping_ r) (texture_calls r ++ (TextureContextDestroyed ∘ snd <$> mapping_ r)).

(** ** The laps of a stopwatch *)

Definition laps_after (now : TimePoint.t) (ds : list TimeDelta.t) : Stopwatch :=
  foldl (λ w d, SetLapTime d w) (new_stopwatch now) ds.

(** The buffer from the oldest lap to the newest. *)
Definition oldest_first (w : Stopwatch) : list TimeDelta.t :=
  drop (S (current_sample_ w)) (laps_ w) ++ take (S (current_sample_ w)) (laps_ w).

Lemma SetLapTime_window w d :
  length (laps_ w) = kMaxSamples → (current_sample_ w < kMaxSamples)%nat →
  oldest_first (SetLapTime d w) = tail (oldest_first w) ++ [d] ∧
  length (laps_ (SetLapTime d w)) = kMaxSamples ∧ (current_sample_ (SetLapTime d w) < kMaxSamples)%nat.
Proof.
  intros Hl Hi. unfold SetLapTime. cbn [laps_ current_sample_].
  split; [|split; [by rewrite length_insert|apply Nat.mod_upper_bound; done]].
  destruct w as [st laps i]; cbn [laps_ current_sample_] in *. unfold oldest_first, next_sample; cbn [laps_ current_sample_].
  destruct (decide (S i < kMaxSamples)%nat) as [Hlt|Hge].
  - rewrite Nat.mod_small by lia. rewrite Nat.add_1_r.
    rewrite drop_insert_lt by lia. rewrite (take_S_r _ (S i) d) by (apply list_lookup_insert_eq; lia).
    rewrite take_insert_ge by lia. rewrite app_assoc. f_equal.
    assert (drop (S (S i)) laps = drop 1 (drop (S i) laps)) as -> by (rewrite drop_drop; f_equal; lia).
    destruct (drop (S i) laps) as [|x xs] eqn:E; [|done].
    apply (f_equal length) in E. rewrite length_drop in E. cbn in E. lia.
  - assert (S i = kMaxSamples) as Hi' by lia. replace (i + 1)%nat with kMaxSamples by lia.
    rewrite Nat.Div0.mod_same, Hi'. destruct laps as [|x laps]; [done|].
    by rewrite (drop_ge (x :: laps) kMaxSamples), (take_ge (x :: laps) kMaxSamples) by lia.
Qed.

Lemma laps_after_window now ds :
  oldest_first (laps_after now ds) = drop (length ds) (replicate kMaxSamples TimeDelta.Zero ++ ds) ∧
  length (laps_ (laps_after now ds)) = kMaxSamples ∧ (current_sample_ (laps_after now ds) < kMaxSamples)%nat.
Proof.
  induction ds as [|d ds IH] using rev_ind; [by vm_compute; repeat split; lia|].
  unfold laps_after. rewrite foldl_app. cbn [foldl]. fold (laps_after now ds).
  destruct IH as (Hw & Hl & Hi). destruct (SetLapTime_window _ d Hl Hi) as (-> & Hl' & Hi').
  split; [|done]. rewrite Hw, app_assoc, length_app, Nat.add_1_r.
  set (l := replicate kMaxSamples TimeDelta.Zero ++ ds).
  assert (length ds < length l)%nat by (unfold l; rewrite length_app, length_replicate; unfold kMaxSamples; lia).
  rewrite (drop_app_le l) by lia.
  f_equal. destruct l as [|x l']; [cbn in *; lia|].
  change (drop (S (length ds)) (x :: l')) with (drop (length ds) l').
  revert x l' H. generalize (length ds). induction n as [|n IH]; intros x l' Hn; [done|].
  destruct l' as [|y l']; [cbn in *; lia|]. apply (IH y l'). cbn in *; lia.
Qed.

Lemma oldest_first_perm w : oldest_first w ≡ₚ laps_ w.
Proof. unfold oldest_first. rewrite (comm (++)). by rewrite take_drop. Qed.

Lemma foldr_Zmax_perm l l' : l ≡ₚ l' → foldr Z.max 0 l = foldr Z.max 0 l'.
Proof. induction 1; cbn; lia. Qed.

Lemma foldr_Zadd_perm l l' : l ≡ₚ l' → foldr Z.add 0 l = foldr Z.add 0 l'.
Proof. induction 1; cbn; lia. Qed.

Lemma foldr_Zmax_pos (l : list Z) : 0 ≤ foldr Z.max 0 l.
Proof. induction l; cbn; lia. Qed.

Lemma foldr_Zadd_bound (l : list Z) b : Forall (λ d, 0 ≤ d ≤ b) l → 0 ≤ foldr Z.add 0 l ≤ Z.of_nat (length l) * b.
Proof. induction 1; cbn [foldr length]; lia. Qed.

Lemma max_loop l m : 0 ≤ m → foldl (λ m lap, if m <? lap then lap else m) m l = Z.max m (foldr Z.max 0 l).
Proof.
  revert m. induction l as [|x l IH]; intros m Hm; cbn; [lia|].
  destruct (Z.ltb_spec m x); rewrite IH by lia; lia.
Qed.

Lemma sum_loop l acc : Forall (λ d, 0 ≤ d ≤ 2 ^ 56) l → 0 ≤ acc → acc + Z.of_nat (length l) * 2 ^ 56 < 2 ^ 63 →
  foldl (λ sum lap, sum ← sum; TimeDelta.add sum lap) (mret acc) l ⇓ acc + foldr Z.add 0 l.
Proof.
  revert acc. induction l as [|x l IH]; intros acc Hl Ha Hs; [cbn; do 2 f_equal; lia|].
  apply Forall_cons in Hl as [Hx Hl]. cbn [foldl foldr mbind result_bind mret result_ret] in *.
  unfold TimeDelta.add at 2. rewrite checked_64 by (cbn [length] in Hs; lia). change (Ok (acc + x)) with (mret (M := result) (acc + x)).
  rewrite IH by (done || (cbn [length] in Hs; lia)). f_equal. lia.
Qed.

(** After any laps the buffer holds the last 120 of them, oldest first after
    the current sample, with zeros for the laps there have not been; [MaxDelta]
    is the largest of these, and [AverageDelta] their average. *)
Theorem stopwatch_window now ds :
  let w := laps_after now ds in
  let window := drop (length ds) (replicate kMaxSamples TimeDelta.Zero ++ ds) in
  oldest_first w = window ∧ MaxDelta w = foldr Z.max 0 window ∧
  (Forall (λ d, 0 ≤ d ≤ 2 ^ 56) ds → AverageDelta w ⇓ Z.quot (foldr Z.add 0 window) 120).
Proof.
  intros w window. destruct (laps_after_window now ds) as (Hw & Hl & _).
  pose proof (oldest_first_perm w) as Hp. unfold w in Hp at 1. rewrite Hw in Hp. fold window in Hp.
  split; [done|]. split; [|intros Hds].
  - unfold MaxDelta. rewrite max_loop by done. rewrite (foldr_Zmax_perm _ _ Hp).
    pose proof (foldr_Zmax_pos (laps_ w)). fold w. unfold TimeDelta.Zero. lia.
  - assert (Forall (λ d, 0 ≤ d ≤ 2 ^ 56) (laps_ w)) as Hf.
    { rewrite <- Hp. apply Forall_drop, Forall_app. split; [|done]. apply Forall_replicate. unfold TimeDelta.Zero. lia. }
    assert (Z.of_nat (@length Z (laps_ w)) = 120) as Hl' by exact (f_equal Z.of_nat Hl).
    unfold AverageDelta, TimeDelta.Zero. rewrite sum_loop by (done || lia).
    cbn [mbind result_bind]. rewrite Z.add_0_l, (foldr_Zadd_perm _ _ Hp). fold w.
    pose proof (foldr_Zadd_bound (laps_ w) _ Hf) as Hb.
    rewrite Hl' in Hb.
    unfold TimeDelta.div. rewrite (proj2 (Z.eqb_neq (Z.of_nat kMaxSamples) 0)) by done. apply checked_64.
    change (Z.of_nat kMaxSamples) with 120. rewrite Z.quot_div_nonneg by lia.
    split; [pose proof (Z.div_pos (foldr Z.add 0 (laps_ w)) 120); lia|].
    apply Z.div_lt_upper_bound; lia.
Qed.

(** When the current sample is the first of the buffer, the lap before it is
    the last of the buffer, but [LastLap] answers with the sixteenth. *)
Theorem last_lap_wraps_wrong :
  let w := laps_after 0 (Z.of_nat <$> seq 1 120) in
  current_sample_ w = 0%nat ∧ laps_ w !! 119%nat = Some 119 ∧ LastLap w ⇓ 15.
Proof. vm_compute. repeat split. Qed.

(** ** The registry is a finite map *)

Section z_map.
Context {V : Type}.
Implicit Types (m : list (Z * V)) (k : Z) (v : V).
Local Abbreviation find := (StdMap.find Z.ltb).
Local Abbreviation assign := (StdMap.assign Z.ltb).
Local Abbreviation erase := (StdMap.erase Z.ltb).
Local Abbreviation ordered := (StdMap.ordered Z.ltb).

Lemma Forall_assign (P : Z * V → Prop) k v m : Forall P m → P (k, v) → Forall P (assign k v m).
Proof.
  intros Hm Hk. induction Hm as [|[k1 v1] m H1 Hm IH]; cbn; [by constructor|].
  repeat case_match; repeat constructor; try done. assert (k1 = k) as -> by lia. done.
Qed.

Lemma Forall_erase (P : Z * V → Prop) k m : Forall P m → Forall P (erase k m).
Proof. induction 1 as [|[k1 v1] m H1 Hm IH]; cbn; [done|]. repeat case_match; auto. Qed.

Lemma ordered_assign k v m : ordered m → ordered (assign k v m).
Proof.
  induction m as [|[k1 v1] m IH]; cbn; [done|]. intros [H1 Hm].
  destruct (Z.ltb_spec k1 k); [|destruct (Z.ltb_spec k k1)]; cbn.
  - split; [|by apply IH]. apply Forall_assign; [done|cbn; lia].
  - split; [|done]. constructor; [cbn; lia|]. eapply Forall_impl; [exact H1|]. cbn. intros; lia.
  - assert (k1 = k) as -> by lia. done.
Qed.

Lemma ordered_erase k m : ordered m → ordered (erase k m).
Proof.
  induction m as [|[k1 v1] m IH]; cbn; [done|]. intros [H1 Hm].
  repeat case_match; cbn; try done. split; [by apply Forall_erase|by apply IH].
Qed.

Lemma find_below k m : Forall (λ b, (k <? b.1) = true) m → find k m = None.
Proof. destruct m as [|[k1 v1] m]; [done|]. intros [H1 _]%Forall_cons. cbn in *. repeat case_match; try done; lia. Qed.

Lemma find_assign k v k' m : find k' (assign k v m) = if k =? k' then Some v else find k' m.
Proof.
  induction m as [|[k1 v1] m IH]; cbn; [repeat case_match; try done; lia|].
  destruct (Z.ltb_spec k1 k); [|destruct (Z.ltb_spec k k1)]; cbn; rewrite ?IH; repeat case_match; try done; lia.
Qed.

Lemma find_erase k k' m : ordered m → find k' (erase k m) = if k =? k' then None else find k' m.
Proof.
  induction m as [|[k1 v1] m IH]; cbn; [by case_match|]. intros [H1 Hm].
  destruct (Z.ltb_spec k1 k); [|destruct (Z.ltb_spec k k1)]; cbn; rewrite ?IH by done;
    repeat case_match; try done; try lia.
  - assert (k1 = k') as -> by lia. by apply find_below.
  - destruct (find_below k' m); [|done]. eapply Forall_impl; [exact H1|]. cbn. intros; lia.
Qed.
End z_map.

(** Calls on a registry, and what they mean for a finite map. *)
Inductive texture_call := CallRegister (id texture : Z) | CallUnregister (id : Z).

Definition texture_exec (c : texture_call) (r : TextureRegistry) : result TextureRegistry :=
  match c with
  | CallRegister id texture => mret (RegisterTexture id texture r)
  | CallUnregister id => UnregisterTexture id r
  end.

Fixpoint texture_run (cs : list texture_call) (r : TextureRegistry) : result TextureRegistry :=
  match cs with [] => mret r | c :: cs => r ← texture_exec c r; texture_run cs r end.

(** [None] when an id that is not registered is unregistered. *)
Fixpoint texture_model (cs : list texture_call) (g : gmap Z Z) : option (gmap Z Z) :=
  match cs with
  | [] => Some g
  | CallRegister id texture :: cs => texture_model cs (<[id := texture]> g)
  | CallUnregister id :: cs => match g !! id with Some _ => texture_model cs (delete id g) | None => None end
  end.

Lemma texture_run_model cs r g :
  StdMap.ordered Z.ltb (mapping_ r) → (∀ id, GetTexture id r = g !! id) →
  match texture_model cs g with
  | Some g' => ∃ r', texture_run cs r ⇓ r' ∧ StdMap.ordered Z.ltb (mapping_ r') ∧ (∀ id, GetTexture id r' = g' !! id)
  | None => texture_run cs r ⇑ NullDeref
  end.
Proof.
  revert r g. induction cs as [|[id texture|id] cs IH]; intros r g Ho Hg; cbn; [by exists r| |].
  - apply (IH (RegisterTexture id texture r)); [by apply ordered_assign|]. intros id'.
    unfold GetTexture; cbn. rewrite find_assign. unfold GetTexture in Hg. rewrite Hg.
    destruct (Z.eqb_spec id id') as [->|]; by simplify_map_eq.
  - unfold UnregisterTexture. unfold GetTexture in Hg. rewrite Hg. destruct (g !! id) as [t|]; [|done].
    apply (IH (mkRegistry _ _)); [by apply ordered_erase|]. intros id'. unfold GetTexture; cbn.
    rewrite find_erase, Hg by done. destruct (Z.eqb_spec id id') as [->|]; by simplify_map_eq.
Qed.

(** The texture registry is a finite map from ids to textures: after any calls
    [GetTexture] finds what was registered last and not unregistered since;
    unregistering an id that is not registered dereferences a null pointer. *)
Theorem texture_registry_map cs :
  match texture_model cs ∅ with
  | Some g => ∃ r, texture_run cs new_texture_registry ⇓ r ∧ ∀ id, GetTexture id r = g !! id
  | None => texture_run cs new_texture_registry ⇑ NullDeref
  end.
Proof.
  pose proof (texture_run_model cs new_texture_registry ∅ I (λ id, eq_sym (lookup_empty id))) as H.
  destruct (texture_model cs ∅); [|done]. destruct H as (r & E & _ & Hg). by exists r.
Qed.
