(* ===== verification/Layers.v ===== *)
(** * Layers: preroll of the layer tree

    Model of flow/layers: every layer class of the engine (outside Fuchsia) as
    one node of a tree, and [Preroll], which computes the bounds of the layers
    from the leaves up, fills the raster cache, and tells the embedder about
    platform views.  Preroll updates the layers in place, so the model returns
    the updated layer together with the updated context.  Painting is in
    LayersPaint.v.  Geometry is Skia's: the class [Geometry] names what the
    layers use of it, and nothing is assumed about it. *)

From Stdlib Require Import ZArith Lia.
From stdpp Require Import base sorting gmap numbers list.
From S2P Require Import Prelude Time RasterCache.

Local Open Scope Z_scope.
#[local] Set Warnings "-register-all".

Class Geometry `{Skia} := {
  SkPath : Type;
  SkRRect : Type;
  SkColorFilter : Type;
  SkImageFilter : Type;
  SkShader : Type;
  SkBlendMode : Type;
  SkColor : Type;
  scalar_zero : SkScalar;
  scalar_minus_one : SkScalar;
  scalar_add : SkScalar → SkScalar → SkScalar;
  scalar_sub : SkScalar → SkScalar → SkScalar;
  scalar_ltb : SkScalar → SkScalar → bool;
  SkScalarRoundToScalar : SkScalar → SkScalar;
  matrix_identity : SkMatrix;
  matrix_concat : SkMatrix → SkMatrix → SkMatrix;
  matrix_postTranslate : SkScalar → SkScalar → SkMatrix → SkMatrix;
  matrix_preTranslate : SkScalar → SkScalar → SkMatrix → SkMatrix;
  MakeTrans : SkScalar → SkScalar → SkMatrix;
  matrix_isFinite : SkMatrix → bool;
  matrix_hasPerspective : SkMatrix → bool;
  matrix_invert : SkMatrix → option SkMatrix;
  mapRect : SkMatrix → SkRect → SkRect;
  kGiantRect : SkRect;
  rect_empty : SkRect;
  rect_join : SkRect → SkRect → SkRect;
  (** [None] when the rectangles do not intersect. *)
  rect_intersect : SkRect → SkRect → option SkRect;
  rect_Intersects : SkRect → SkRect → bool;
  rect_makeOffset : SkScalar → SkScalar → SkRect → SkRect;
  MakeXYWH : SkScalar → SkScalar → SkScalar → SkScalar → SkRect;
  (** [SkRect::Make] of a size. *)
  MakeSize : Z * Z → SkRect;
  rect_left : SkRect → SkScalar;
  rect_top : SkRect → SkScalar;
  rect_width : SkRect → SkScalar;
  rect_height : SkRect → SkScalar;
  rect_roundOut : SkRect → SkRect;
  SkColorGetA : SkColor → Z;
  path_getBounds : SkPath → SkRect;
  rrect_getBounds : SkRRect → SkRect;
  ComputeShadowBounds : SkRect → SkScalar → SkScalar → SkRect;
}.

(** Skia's documented behaviour of the translation of a matrix. *)
Class TranslateLaws `{sk : Skia} : Prop := {
  getX_setX m x : getTranslateX (setTranslateX x m) = x;
  getX_setY m y : getTranslateX (setTranslateY y m) = getTranslateX m;
  getY_setY m y : getTranslateY (setTranslateY y m) = y;
  getY_setX m x : getTranslateY (setTranslateX x m) = getTranslateY m;
}.

Inductive Clip := Clip_none | hardEdge | antiAlias | antiAliasWithSaveLayer.

#[export] Instance Clip_eq_dec : EqDecision Clip.
Proof. solve_decision. Defined.

Definition UsesSaveLayer (clip_behavior : Clip) : bool := bool_decide (clip_behavior = antiAliasWithSaveLayer).

Section layers.
Context `{Build, CacheBuild, Geometry}.
Context (makeImageSnapshot : SkSurface → list CanvasOp → option SkImage).

(** ** The mutators stack (flow/embedded_views.{h,cc}) *)

Inductive Mutator :=
  | clip_rect (r : SkRect)
  | clip_rrect (r : SkRRect)
  | clip_path (p : SkPath)
  | transform (m : SkMatrix)
  | opacity (alpha : Z).

(** [vector_]; the bottom of the stack comes first. *)
Abbreviation MutatorsStack := (list Mutator).

Definition Push (m : Mutator) (s : MutatorsStack) : MutatorsStack := s ++ [m].
(** [pop_back] of an empty vector is undefined. *)
Definition Pop (s : MutatorsStack) : result MutatorsStack :=
  match s with [] => Fault UndefinedBehaviour | _ => mret (take (pred (length s)) s) end.

(** What the embedder is told about a platform view, under an [int] id. *)
Record EmbeddedViewParams := mkParams {
  offsetPixels : SkScalar * SkScalar;
  sizePoints : SkScalar * SkScalar;
  mutatorsStack : MutatorsStack;
}.

Record Context_ := mkContext {
  raster_cache : option RasterCache;
  gr_context_ : option GrContext;
  (** The embedder, as the views it was told about. *)
  view_embedder : option (list (Z * EmbeddedViewParams));
  mutators_stack : MutatorsStack;
  dst_color_space_ : SkColorSpace;
  cull_rect : SkRect;
  surface_needs_readback : bool;
  frame_physical_depth : SkScalar;
  frame_device_pixel_ratio : SkScalar;
  total_elevation : SkScalar;
  has_platform_view_ : bool;
  is_opaque : bool;
}.

Definition set_raster_cache x c := mkContext x (gr_context_ c) (view_embedder c) (mutators_stack c)
  (dst_color_space_ c) (cull_rect c) (surface_needs_readback c) (frame_physical_depth c)
  (frame_device_pixel_ratio c) (total_elevation c) (has_platform_view_ c) (is_opaque c).
Definition set_view_embedder x c := mkContext (raster_cache c) (gr_context_ c) x (mutators_stack c)
  (dst_color_space_ c) (cull_rect c) (surface_needs_readback c) (frame_physical_depth c)
  (frame_device_pixel_ratio c) (total_elevation c) (has_platform_view_ c) (is_opaque c).
Definition set_mutators_stack x c := mkContext (raster_cache c) (gr_context_ c) (view_embedder c) x
  (dst_color_space_ c) (cull_rect c) (surface_needs_readback c) (frame_physical_depth c)
  (frame_device_pixel_ratio c) (total_elevation c) (has_platform_view_ c) (is_opaque c).
Definition set_cull_rect x c := mkContext (raster_cache c) (gr_context_ c) (view_embedder c) (mutators_stack c)
  (dst_color_space_ c) x (surface_needs_readback c) (frame_physical_depth c)
  (frame_device_pixel_ratio c) (total_elevation c) (has_platform_view_ c) (is_opaque c).
Definition set_surface_needs_readback x c := mkContext (raster_cache c) (gr_context_ c) (view_embedder c)
  (mutators_stack c) (dst_color_space_ c) (cull_rect c) x (frame_physical_depth c)
  (frame_device_pixel_ratio c) (total_elevation c) (has_platform_view_ c) (is_opaque c).
Definition set_total_elevation x c := mkContext (raster_cache c) (gr_context_ c) (view_embedder c)
  (mutators_stack c) (dst_color_space_ c) (cull_rect c) (surface_needs_readback c) (frame_physical_depth c)
  (frame_device_pixel_ratio c) x (has_platform_view_ c) (is_opaque c).
Definition set_has_platform_view x c := mkContext (raster_cache c) (gr_context_ c) (view_embedder c)
  (mutators_stack c) (dst_color_space_ c) (cull_rect c) (surface_needs_readback c) (frame_physical_depth c)
  (frame_device_pixel_ratio c) (total_elevation c) x (is_opaque c).
Definition set_is_opaque x c := mkContext (raster_cache c) (gr_context_ c) (view_embedder c)
  (mutators_stack c) (dst_color_space_ c) (cull_rect c) (surface_needs_readback c) (frame_physical_depth c)
  (frame_device_pixel_ratio c) (total_elevation c) (has_platform_view_ c) x.

Definition push_mutator (m : Mutator) (c : Context_) : Context_ := set_mutators_stack (Push m (mutators_stack c)) c.
Definition pop_mutator (c : Context_) : result Context_ :=
  s ← Pop (mutators_stack c); mret (set_mutators_stack s c).

(** ** Layers *)

(** The members of [Layer], and the ones the clip layers and the elevated
    container add. *)
Record LayerState := mkState {
  unique_id_ : Z;
  paint_bounds_ : SkRect;
  needs_system_composite_ : bool;
  children_inside_clip_ : bool;
  parent_elevation_ : SkScalar;
  clamped_elevation_ : SkScalar;
}.

Inductive Node :=
  | ContainerLayer
  | OpacityLayer (alpha : Z) (offset : SkScalar * SkScalar)
  | TransformLayer (transform : SkMatrix)
  | ClipRectLayer (clip_rect : SkRect) (clip_behavior : Clip)
  | ClipRRectLayer (clip_rrect : SkRRect) (clip_behavior : Clip)
  | ClipPathLayer (clip_path : SkPath) (clip_behavior : Clip)
  | ColorFilterLayer (filter : SkColorFilter)
  | ImageFilterLayer (filter : SkImageFilter)
  | BackdropFilterLayer (filter : option SkImageFilter)
  | ShaderMaskLayer (shader : SkShader) (mask_rect : SkRect) (blend_mode : SkBlendMode)
  | PhysicalShapeLayer (color shadow_color : SkColor) (elevation : SkScalar) (path : SkPath)
      (clip_behavior : Clip)
  | PictureLayer (offset : SkScalar * SkScalar) (picture : option SkPicture) (is_complex will_change : bool)
  | TextureLayer (offset size : SkScalar * SkScalar) (texture_id : Z) (freeze : bool)
  | PlatformViewLayer (offset size : SkScalar * SkScalar) (view_id : Z)
  | PerformanceOverlayLayer (options : Z).

Inductive layer := mkLayerT (state : LayerState) (node : Node) (layers : list layer).

Definition state_of (l : layer) : LayerState := let '(mkLayerT s _ _) := l in s.
Definition layers_of (l : layer) : list layer := let '(mkLayerT _ _ ls) := l in ls.
Definition layer_bounds (l : layer) : SkRect := paint_bounds_ (state_of l).
Definition layer_needs_painting (l : layer) : bool := negb (rect_isEmpty (layer_bounds l)).

Definition new_state (id : Z) : LayerState := mkState id rect_empty false false scalar_zero scalar_zero.

Definition set_paint_bounds r s := mkState (unique_id_ s) r (needs_system_composite_ s)
  (children_inside_clip_ s) (parent_elevation_ s) (clamped_elevation_ s).
Definition set_needs_system_composite b s := mkState (unique_id_ s) (paint_bounds_ s) b
  (children_inside_clip_ s) (parent_elevation_ s) (clamped_elevation_ s).
Definition set_children_inside_clip b s := mkState (unique_id_ s) (paint_bounds_ s) (needs_system_composite_ s)
  b (parent_elevation_ s) (clamped_elevation_ s).
Definition set_elevation parent clamped s := mkState (unique_id_ s) (paint_bounds_ s) (needs_system_composite_ s)
  (children_inside_clip_ s) parent clamped.

(** [OpacityLayer]'s constructor and [Add]: children go to its only child. *)
Definition new_opacity_layer (id container_id alpha : Z) (offset : SkScalar * SkScalar) : layer :=
  mkLayerT (new_state id) (OpacityLayer alpha offset) [mkLayerT (new_state container_id) ContainerLayer []].
(** [ContainerLayer::Add] and [OpacityLayer::Add]. *)
Definition Add (l child : layer) : result layer :=
  let '(mkLayerT s n ls) := l in
  match n, ls with
  | OpacityLayer _ _, [mkLayerT s' n' ls'] => mret (mkLayerT s n [mkLayerT s' n' (ls' ++ [child])])
  | OpacityLayer _ _, _ => Fault DCheckFailed
  | _, _ => mret (mkLayerT s n (ls ++ [child]))
  end.
(** [TransformLayer]'s constructor replaces an invalid matrix. *)
Definition new_transform_layer (id : Z) (m : SkMatrix) : result layer :=
  _ ← fml_dcheck (matrix_isFinite m);
  mret (mkLayerT (new_state id) (TransformLayer (if matrix_isFinite m then m else matrix_identity)) []).

(** [Layer::NextUniqueID] on the counter; zero is skipped. *)
Definition NextUniqueID (next : Z) : Z * Z :=
  let after := wrapU 64 (next + 1) in
  if next =? 0 then (after, wrapU 64 (after + 1)) else (next, after).

(** ** Preroll *)

(** [AutoPrerollSaveLayerState]: the flag on entry and after the children. *)
Definition save_layer_enter (active : bool) (c : Context_) : Context_ :=
  if active then set_surface_needs_readback false c else c.
Definition save_layer_leave (active performs_readback prev : bool) (c : Context_) : Context_ :=
  if active then set_surface_needs_readback (prev || performs_readback) c else c.

(** [RasterCache::GetIntegralTransCTM], used unless fractional translations
    are supported. *)
Definition GetIntegralTransCTM (ctm : SkMatrix) : SkMatrix :=
  setTranslateY (SkScalarRoundToScalar (getTranslateY ctm))
    (setTranslateX (SkScalarRoundToScalar (getTranslateX ctm)) ctm).
Definition raster_ctm (ctm : SkMatrix) : SkMatrix :=
  if fractional_translation then ctm else GetIntegralTransCTM ctm.

(** The view of a layer the raster cache has. *)
Definition cached_layer (s : LayerState) : Layer :=
  mkLayer (unique_id_ s) (paint_bounds_ s) (negb (rect_isEmpty (paint_bounds_ s))).

(** [raster_cache->Prepare(context, layer, ctm)] of a layer with bounds
    [bounds], when there is a cache, no platform view and something to see. *)
Definition prepare_layer (s : LayerState) (bounds : SkRect) (ctm : SkMatrix) (c : Context_) : result Context_ :=
  match raster_cache c with
  | Some cache =>
      if negb (has_platform_view_ c) && rect_Intersects (cull_rect c) bounds then
        r ← PrepareLayer makeImageSnapshot
              (mkPreroll (gr_context_ c) (dst_color_space_ c) (has_platform_view_ c) true)
              (cached_layer s) (raster_ctm ctm) cache;
        mret (set_raster_cache (Some r.1) c)
      else mret c
  | None => mret c
  end.

(** What [PrerollChildren] returns: the children, their joined bounds, and
    whether one of them needs system compositing. *)
Abbreviation children_result := (list layer * SkRect * bool * Context_)%type.

(** The loop over the children; [views] is [child_has_platform_view]. *)
Fixpoint preroll_loop (preroll : layer → SkMatrix → Context_ → result (layer * Context_))
    (ls : list layer) (m : SkMatrix) (bounds : SkRect) (composite views : bool) (c : Context_)
    : result (list layer * SkRect * bool * bool * Context_) :=
  match ls with
  | [] => mret ([], bounds, composite, views, c)
  | l :: ls =>
      r ← preroll l m (set_has_platform_view false c);
      let '(l, c) := (r : layer * Context_) in
      r ← preroll_loop preroll ls m (rect_join bounds (layer_bounds l))
            (composite || needs_system_composite_ (state_of l)) (views || has_platform_view_ c) c;
      let '(ls, bounds, composite, views, c) := (r : list layer * SkRect * bool * bool * Context_) in
      mret (l :: ls, bounds, composite, views, c)
  end.

Definition PrerollChildren (preroll : layer → SkMatrix → Context_ → result (layer * Context_))
    (ls : list layer) (composite : bool) (m : SkMatrix) (c : Context_) : result children_result :=
  _ ← fml_dcheck (negb (has_platform_view_ c));
  r ← preroll_loop preroll ls m rect_empty composite false c;
  let '(ls, bounds, composite, views, c) := (r : list layer * SkRect * bool * bool * Context_) in
  mret (ls, bounds, composite, set_has_platform_view views c).

(** The methods below take [children], the call of [PrerollChildren] on the
    layers of the node. *)
Abbreviation children_call := (bool → SkMatrix → Context_ → result children_result).

Definition Container_Preroll (children : children_call) (s : LayerState) (m : SkMatrix) (c : Context_)
    : result (LayerState * list layer * Context_) :=
  '(ls, bounds, composite, c) ← children (needs_system_composite_ s) m c;
  mret (set_paint_bounds bounds (set_needs_system_composite composite s), ls, c).

Definition OpacityBase_Preroll (children : children_call) (alpha : Z) (s : LayerState) (m : SkMatrix)
    (c : Context_) : result (LayerState * list layer * Context_) :=
  let parent_is_opaque := is_opaque c in
  let c := push_mutator (opacity alpha) c in
  let c := set_is_opaque (parent_is_opaque && (alpha =? 255)) c in
  '(s, ls, c) ← Container_Preroll children s m c;
  c ← pop_mutator (set_is_opaque parent_is_opaque c);
  mret (s, ls, c).

(** The cached layer is the child container, with the bounds it has just got. *)
Definition Opacity_Preroll (children : children_call) (alpha : Z) (offset : SkScalar * SkScalar)
    (layers : list layer) (s : LayerState) (m : SkMatrix) (c : Context_)
    : result (LayerState * list layer * Context_) :=
  _ ← fml_dcheck (length layers =? 1)%nat;
  container ← of_option UndefinedBehaviour (head layers);
  _ ← fml_dcheck (negb (bool_decide (layers_of container = [])));
  let child_matrix := matrix_postTranslate offset.1 offset.2 m in
  let c := push_mutator (transform (MakeTrans offset.1 offset.2)) c in
  let prev := surface_needs_readback c in
  let c := save_layer_enter true c in
  '(s, ls, c) ← OpacityBase_Preroll children alpha s child_matrix c;
  c ← pop_mutator c;
  let s := set_paint_bounds (rect_makeOffset offset.1 offset.2 (paint_bounds_ s)) s in
  container ← of_option UndefinedBehaviour (head ls);
  c ← prepare_layer (state_of container) (paint_bounds_ s) child_matrix c;
  mret (s, ls, save_layer_leave true false prev c).

Definition Transform_Preroll (children : children_call) (t : SkMatrix) (s : LayerState) (m : SkMatrix)
    (c : Context_) : result (LayerState * list layer * Context_) :=
  let child_matrix := matrix_concat m t in
  let c := push_mutator (transform t) c in
  let previous_cull_rect := cull_rect c in
  let c := set_cull_rect
             (if matrix_hasPerspective t then kGiantRect
              else match matrix_invert t with
                   | Some inverse => mapRect inverse (cull_rect c)
                   | None => kGiantRect
                   end) c in
  '(ls, bounds, composite, c) ← children (needs_system_composite_ s) child_matrix c;
  let s := set_paint_bounds (mapRect t bounds) (set_needs_system_composite composite s) in
  c ← pop_mutator (set_cull_rect previous_cull_rect c);
  mret (s, ls, c).

(** The three clip layers: [clip_bounds] is the rectangle, or the bounds of the
    rounded rectangle or path.  Without an intersection the children are left
    alone and the paint bounds stay what they were. *)
Definition Clip_Preroll (children : children_call) (mutator : Mutator) (clip_bounds : SkRect)
    (clip_behavior : Clip) (layers : list layer) (s : LayerState) (m : SkMatrix) (c : Context_)
    : result (LayerState * list layer * Context_) :=
  let previous_cull_rect := cull_rect c in
  match rect_intersect (cull_rect c) clip_bounds with
  | None => mret (set_children_inside_clip false s, layers, set_cull_rect previous_cull_rect c)
  | Some cull =>
      let s := set_children_inside_clip true s in
      let c := set_cull_rect cull c in
      let prev := surface_needs_readback c in
      let c := push_mutator mutator (save_layer_enter (UsesSaveLayer clip_behavior) c) in
      '(ls, bounds, composite, c) ← children (needs_system_composite_ s) m c;
      let s := set_needs_system_composite composite s in
      let s := match rect_intersect bounds clip_bounds with
               | Some bounds => set_paint_bounds bounds s
               | None => s
               end in
      c ← pop_mutator c;
      let c := save_layer_leave (UsesSaveLayer clip_behavior) false prev c in
      mret (s, ls, set_cull_rect previous_cull_rect c)
  end.

Definition ClipRect_Preroll (children : children_call) (r : SkRect) :=
  Clip_Preroll children (clip_rect r) r.
Definition ClipRRect_Preroll (children : children_call) (r : SkRRect) :=
  Clip_Preroll children (clip_rrect r) (rrect_getBounds r).
Definition ClipPath_Preroll (children : children_call) (p : SkPath) :=
  Clip_Preroll children (clip_path p) (path_getBounds p).

(** Color filter, shader mask and backdrop filter: a container in a save layer. *)
Definition SaveLayer_Preroll (children : children_call) (performs_readback : bool) (s : LayerState)
    (m : SkMatrix) (c : Context_) : result (LayerState * list layer * Context_) :=
  let prev := surface_needs_readback c in
  '(s, ls, c) ← Container_Preroll children s m (save_layer_enter true c);
  mret (s, ls, save_layer_leave true performs_readback prev c).

Definition ColorFilter_Preroll (children : children_call) := SaveLayer_Preroll children false.
Definition ShaderMask_Preroll (children : children_call) := SaveLayer_Preroll children false.
Definition BackdropFilter_Preroll (children : children_call) (filter : option SkImageFilter) :=
  SaveLayer_Preroll children (bool_decide (is_Some filter)).

Definition ImageFilter_Preroll (children : children_call) (s : LayerState) (m : SkMatrix) (c : Context_)
    : result (LayerState * list layer * Context_) :=
  let prev := surface_needs_readback c in
  '(s, ls, c) ← Container_Preroll children s m (save_layer_enter true c);
  c ← prepare_layer s (paint_bounds_ s) m c;
  mret (s, ls, save_layer_leave true false prev c).

Definition ClampElevation (elevation parent_elevation max_elevation : SkScalar) : SkScalar :=
  if scalar_ltb scalar_minus_one max_elevation &&
     scalar_ltb max_elevation (scalar_add parent_elevation elevation)
  then scalar_sub max_elevation parent_elevation else elevation.

Definition Elevated_Preroll (children : children_call) (elevation : SkScalar) (s : LayerState)
    (m : SkMatrix) (c : Context_) : result (LayerState * list layer * Context_) :=
  let parent := total_elevation c in
  let clamped := ClampElevation elevation parent (frame_physical_depth c) in
  let s := set_elevation parent clamped s in
  '(s, ls, c) ← Container_Preroll children s m (set_total_elevation (scalar_add parent clamped) c);
  mret (s, ls, set_total_elevation (parent_elevation_ s) c).

Definition PhysicalShape_Preroll (children : children_call) (elevation : SkScalar) (path : SkPath)
    (clip_behavior : Clip) (s : LayerState) (m : SkMatrix) (c : Context_)
    : result (LayerState * list layer * Context_) :=
  let prev := surface_needs_readback c in
  let c := save_layer_enter (UsesSaveLayer clip_behavior) c in
  '(s, ls, c) ← Elevated_Preroll children elevation s m c;
  let bounds := if scalar_is_zero (clamped_elevation_ s) then path_getBounds path
                else ComputeShadowBounds (path_getBounds path) (clamped_elevation_ s)
                       (frame_device_pixel_ratio c) in
  mret (set_paint_bounds bounds s, ls, save_layer_leave (UsesSaveLayer clip_behavior) false prev c).

Definition Picture_Preroll (offset : SkScalar * SkScalar) (picture : option SkPicture)
    (is_complex will_change : bool) (s : LayerState) (m : SkMatrix) (c : Context_)
    : result (LayerState * Context_) :=
  c ← (match raster_cache c with
       | Some cache =>
           r ← PreparePicture makeImageSnapshot (gr_context_ c) picture
                 (raster_ctm (matrix_postTranslate offset.1 offset.2 m)) (dst_color_space_ c)
                 is_complex will_change cache;
           mret (set_raster_cache (Some r.1.2) c)
       | None => mret c
       end);
  picture ← of_option NullDeref picture;
  mret (set_paint_bounds (rect_makeOffset offset.1 offset.2 (cullRect picture)) s, c).

Definition PlatformView_Preroll (offset size : SkScalar * SkScalar) (view_id : Z) (s : LayerState)
    (m : SkMatrix) (c : Context_) : LayerState * Context_ :=
  let s := set_paint_bounds (MakeXYWH offset.1 offset.2 size.1 size.2) s in
  match view_embedder c with
  | None => (s, c)
  | Some views =>
      let c := set_has_platform_view true c in
      let params := mkParams (getTranslateX m, getTranslateY m) size (mutators_stack c) in
      (s, set_view_embedder (Some (views ++ [(wrapS 32 view_id, params)])) c)
  end.

Definition Texture_Preroll (offset size : SkScalar * SkScalar) (s : LayerState) : LayerState :=
  set_paint_bounds (MakeXYWH offset.1 offset.2 size.1 size.2) s.

(** [layer->Preroll]: dispatch on the class of the layer. *)
Fixpoint Preroll (l : layer) (m : SkMatrix) (c : Context_) {struct l} : result (layer * Context_) :=
  let '(mkLayerT s n layers) := l in
  let children := PrerollChildren Preroll layers in
  let node r := '(s, ls, c) ← (r : result (LayerState * list layer * Context_)); mret (mkLayerT s n ls, c) in
  match n with
  | ContainerLayer => node (Container_Preroll children s m c)
  | OpacityLayer alpha offset => node (Opacity_Preroll children alpha offset layers s m c)
  | TransformLayer t => node (Transform_Preroll children t s m c)
  | ClipRectLayer r b => node (ClipRect_Preroll children r b layers s m c)
  | ClipRRectLayer r b => node (ClipRRect_Preroll children r b layers s m c)
  | ClipPathLayer p b => node (ClipPath_Preroll children p b layers s m c)
  | ColorFilterLayer _ => node (ColorFilter_Preroll children s m c)
  | ShaderMaskLayer _ _ _ => node (ShaderMask_Preroll children s m c)
  | BackdropFilterLayer f => node (BackdropFilter_Preroll children f s m c)
  | ImageFilterLayer _ => node (ImageFilter_Preroll children s m c)
  | PhysicalShapeLayer _ _ e p b => node (PhysicalShape_Preroll children e p b s m c)
  | PictureLayer offset p is_complex will_change =>
      '(s, c) ← Picture_Preroll offset p is_complex will_change s m c; mret (mkLayerT s n layers, c)
  | TextureLayer offset size _ _ =>
      mret (mkLayerT (Texture_Preroll offset size s) n layers, c)
  | PlatformViewLayer offset size id =>
      let '(s, c) := PlatformView_Preroll offset size id s m c in mret (mkLayerT s n layers, c)
  | PerformanceOverlayLayer _ => mret (l, c)
  end.

(** ** The layer tree (flow/layers/layer_tree.{h,cc}) *)

Record LayerTree := mkTree {
  root_layer_ : option layer;
  frame_size_ : Z * Z;
  tree_physical_depth_ : SkScalar;
  tree_device_pixel_ratio_ : SkScalar;
  rasterizer_tracing_threshold_ : Z;
  checkerboard_raster_cache_images_ : bool;
  checkerboard_offscreen_layers_ : bool;
  build_start_ : TimePoint.t;
  build_finish_ : TimePoint.t;
}.

(** A [TimePoint] starts at zero. *)
Definition new_layer_tree (size : Z * Z) (depth ratio : SkScalar) : LayerTree :=
  mkTree None size depth ratio 0 false false 0 0.
Definition build_time (t : LayerTree) : result TimeDelta.t := TimePoint.diff (build_finish_ t) (build_start_ t).
Definition RecordBuildTime (start now : TimePoint.t) (t : LayerTree) : LayerTree :=
  mkTree (root_layer_ t) (frame_size_ t) (tree_physical_depth_ t) (tree_device_pixel_ratio_ t)
    (rasterizer_tracing_threshold_ t) (checkerboard_raster_cache_images_ t) (checkerboard_offscreen_layers_ t)
    start now.
Definition set_root_layer (root : option layer) (t : LayerTree) : LayerTree :=
  mkTree root (frame_size_ t) (tree_physical_depth_ t) (tree_device_pixel_ratio_ t)
    (rasterizer_tracing_threshold_ t) (checkerboard_raster_cache_images_ t) (checkerboard_offscreen_layers_ t)
    (build_start_ t) (build_finish_ t).

(** The context a preroll of a whole tree starts with. *)
Definition root_context (t : LayerTree) (cache : option RasterCache) (gr : option GrContext)
    (embedder : option (list (Z * EmbeddedViewParams))) (color_space : SkColorSpace) : Context_ :=
  mkContext cache gr embedder [] color_space kGiantRect false (tree_physical_depth_ t)
    (tree_device_pixel_ratio_ t) scalar_zero false true.

(** The members of the frame that [LayerTree::Preroll] reads. *)
Definition LayerTree_Preroll (t : LayerTree) (cache : RasterCache) (gr : option GrContext)
    (embedder : option (list (Z * EmbeddedViewParams))) (color_space : SkColorSpace)
    (root_surface_transformation : SkMatrix) (ignore_raster_cache : bool)
    : result (bool * LayerTree * RasterCache * option (list (Z * EmbeddedViewParams))) :=
  match root_layer_ t with
  | None => mret (false, t, cache, embedder)
  | Some root =>
      let cache := SetCheckboardCacheImages (checkerboard_raster_cache_images_ t) cache in
      let context := root_context t (if ignore_raster_cache then None else Some cache) gr embedder color_space in
      r ← Preroll root root_surface_transformation context;
      let '(root, context) := (r : layer * Context_) in
      mret (surface_needs_readback context, set_root_layer (Some root) t,
            default cache (raster_cache context), view_embedder context)
  end.
End layers.
