(* ===== verification/IntGeometry.v ===== *)
(** * IntGeometry: integer geometry for examples

    An executable instance of the classes [Skia], [Geometry] and
    [TranslateLaws]: scalars are integers, a matrix is a positive scale
    followed by a translation, a rectangle is left, top, right and bottom, a
    picture is its bounds, op count and id.  The witnesses and the examples of
    the layer files evaluate the model on it. *)

From Stdlib Require Import ZArith Lia.
From stdpp Require Import base sorting gmap numbers list.
From S2P Require Import Prelude RasterCache Layers.

Local Open Scope Z_scope.

Record IMatrix := mkI { sc : Z; tx : Z; ty : Z }.
Record IRect := mkR { left_ : Z; top_ : Z; right_ : Z; bottom_ : Z }.

Definition i_empty (r : IRect) : bool := (right_ r <=? left_ r) || (bottom_ r <=? top_ r).
Definition i_meet (a b : IRect) : IRect :=
  mkR (Z.max (left_ a) (left_ b)) (Z.max (top_ a) (top_ b))
      (Z.min (right_ a) (right_ b)) (Z.min (bottom_ a) (bottom_ b)).
Definition i_join (a b : IRect) : IRect :=
  if i_empty b then a else if i_empty a then b else
  mkR (Z.min (left_ a) (left_ b)) (Z.min (top_ a) (top_ b))
      (Z.max (right_ a) (right_ b)) (Z.max (bottom_ a) (bottom_ b)).
Definition i_map (m : IMatrix) (r : IRect) : IRect :=
  mkR (sc m * left_ r + tx m) (sc m * top_ r + ty m) (sc m * right_ r + tx m) (sc m * bottom_ r + ty m).

Definition int_skia : Skia := {|
  SkScalar := Z; SkMatrix := IMatrix; SkRect := IRect; SkImage := Z * Z; SkPicture := IRect * Z * Z;
  SkSurface := Z * Z; GrContext := unit; SkColorSpace := unit;
  getTranslateX := tx; getTranslateY := ty;
  setTranslateX x m := mkI (sc m) x (ty m); setTranslateY y m := mkI (sc m) (tx m) y;
  SkScalarFraction _ := 0; scalar_is_zero x := x =? 0;
  matrix_eqb a b := (sc a =? sc b) && (tx a =? tx b) && (ty a =? ty b);
  matrix_valid _ := true; rect_isEmpty := i_empty; rect_isFinite _ := true;
  cullRect p := p.1.1; approximateOpCount p := p.1.2; uniqueID p := p.2;
  device_bounds r m := let r := i_map m r in (left_ r, top_ r, right_ r - left_ r, bottom_ r - top_ r);
  MakeRenderTarget _ w h _ := Some (w, h); MakeRaster w h _ := Some (w, h);
  image_width := fst; image_height := snd;
|}.
#[local] Existing Instance int_skia.

Definition int_geometry : Geometry := {|
  SkPath := IRect; SkRRect := IRect; SkColorFilter := unit; SkImageFilter := unit; SkShader := unit;
  SkBlendMode := unit; SkColor := Z; scalar_zero := 0; scalar_minus_one := -1; scalar_add := Z.add;
  scalar_sub := Z.sub; scalar_ltb := Z.ltb; SkScalarRoundToScalar x := x;
  matrix_identity := mkI 1 0 0;
  matrix_concat m n := mkI (sc m * sc n) (sc m * tx n + tx m) (sc m * ty n + ty m);
  matrix_postTranslate dx dy m := mkI (sc m) (tx m + dx) (ty m + dy);
  matrix_preTranslate dx dy m := mkI (sc m) (sc m * dx + tx m) (sc m * dy + ty m);
  MakeTrans dx dy := mkI 1 dx dy; matrix_isFinite _ := true; matrix_hasPerspective _ := false;
  matrix_invert m := if sc m =? 1 then Some (mkI 1 (- tx m) (- ty m)) else None;
  mapRect := i_map; kGiantRect := mkR (-1000000000) (-1000000000) 1000000000 1000000000;
  rect_empty := mkR 0 0 0 0; rect_join := i_join;
  rect_intersect a b := if i_empty (i_meet a b) then None else Some (i_meet a b);
  rect_Intersects a b := negb (i_empty (i_meet a b));
  rect_makeOffset dx dy r := mkR (left_ r + dx) (top_ r + dy) (right_ r + dx) (bottom_ r + dy);
  MakeXYWH x y w h := mkR x y (x + w) (y + h); MakeSize s := mkR 0 0 s.1 s.2;
  rect_left := left_; rect_top := top_;
  rect_width r := right_ r - left_ r; rect_height r := bottom_ r - top_ r; rect_roundOut r := r;
  SkColorGetA c := c;
  path_getBounds p := p; rrect_getBounds r := r; ComputeShadowBounds r _ _ := r;
|}.
#[local] Existing Instance int_geometry.

Lemma int_translate : TranslateLaws.
Proof. by split. Qed.

Definition int_snapshot (s : Z * Z) (_ : list CanvasOp) : option (Z * Z) := Some s.
Definition int_debug : Build := {| debug := true |}.
Definition int_cache : CacheBuild := {| fractional_translation := false; flutter_release := false |}.

(** ** Example trees *)

Definition node (id : Z) (n : Node) (ls : list layer) : layer := mkLayerT (new_state id) n ls.
Definition pic (id : Z) (w h : Z) : layer :=
  node id (PictureLayer (0, 0) (Some (mkR 0 0 w h, 10, id)) true false) [].
Definition view (id x y : Z) : layer := node id (PlatformViewLayer (x, y) (50, 50) id) [].

(** A view below a transform and an opacity layer, a backdrop filter next to
    them, and a view outside the clip that hides it. *)
Definition scene : layer :=
  node 1 ContainerLayer
    [node 2 (TransformLayer (mkI 1 10 20))
       [node 3 (OpacityLayer 128 (5, 5)) [node 4 ContainerLayer [pic 5 100 100; view 6 0 0]]];
     node 7 (ClipRectLayer (mkR 0 0 100 100) hardEdge) [pic 8 40 40; view 9 0 0];
     node 10 (ClipRectLayer (mkR 0 0 0 0) hardEdge) [view 11 0 0];
     node 12 (BackdropFilterLayer (Some tt)) [pic 13 10 10]].
