(* ===== verification/LayersProofs.v ===== *)
(** * LayersProofs: what preroll leaves behind

    The reference definitions walk the tree from the root with the matrix, the
    cull rectangle and the mutators of the ancestors as arguments, where the
    code pushes and pops them on the shared [PrerollContext].  The theorem at
    the end says that both agree: preroll returns, restores every field of the
    context it changed on the way, reports to the embedder the views of the
    walk, and leaves [surface_needs_readback] and [has_platform_view] as the
    walk says. *)

From Stdlib Require Import ZArith Lia.
From stdpp Require Import base sorting gmap numbers list.
From S2P Require Import Prelude RasterCache Layers IntGeometry.

#[local] Set Default Proof Using "Type*".
#[local] Set Warnings "-register-all".

Section reference.
Context `{bd : Build} `{cb : CacheBuild} `{sk : Skia} {ge : Geometry}.

(** ** The walk *)

Definition is_leaf (n : Node) : bool :=
  match n with
  | PictureLayer _ _ _ _ | TextureLayer _ _ _ _ | PlatformViewLayer _ _ _ | PerformanceOverlayLayer _ => true
  | _ => false
  end.

(** What a layer applies to its children: matrix, mutators, cull rectangle. *)
Definition child_matrix (n : Node) (m : SkMatrix) : SkMatrix :=
  match n with
  | OpacityLayer _ o => matrix_postTranslate o.1 o.2 m
  | TransformLayer t => matrix_concat m t
  | _ => m
  end.

Definition child_mutators (n : Node) : list Mutator :=
  match n with
  | OpacityLayer alpha o => [transform (MakeTrans o.1 o.2); opacity alpha]
  | TransformLayer t => [transform t]
  | ClipRectLayer r _ => [clip_rect r]
  | ClipRRectLayer r _ => [clip_rrect r]
  | ClipPathLayer p _ => [clip_path p]
  | _ => []
  end.

(** [None]: the children are not visited. *)
Definition child_cull (n : Node) (cull : SkRect) : option SkRect :=
  match n with
  | TransformLayer t =>
      Some (if matrix_hasPerspective t then kGiantRect
            else match matrix_invert t with Some i => mapRect i cull | None => kGiantRect end)
  | ClipRectLayer r _ => rect_intersect cull r
  | ClipRRectLayer r _ => rect_intersect cull (rrect_getBounds r)
  | ClipPathLayer p _ => rect_intersect cull (path_getBounds p)
  | _ => Some cull
  end.

(** Whether the children are drawn into a layer of their own, and whether the
    layer itself reads the surface below it. *)
Definition uses_save_layer (n : Node) : bool :=
  match n with
  | OpacityLayer _ _ | ColorFilterLayer _ | ImageFilterLayer _ | BackdropFilterLayer _
  | ShaderMaskLayer _ _ _ => true
  | ClipRectLayer _ b | ClipRRectLayer _ b | ClipPathLayer _ b | PhysicalShapeLayer _ _ _ _ b => UsesSaveLayer b
  | _ => false
  end.
Definition reads_surface (n : Node) : bool :=
  match n with BackdropFilterLayer f => bool_decide (is_Some f) | _ => false end.

(** The views below a layer, each with the offset of its matrix, its size and
    the mutators of its ancestors, outermost first. *)
Fixpoint views (l : layer) (m : SkMatrix) (cull : SkRect) (stack : list Mutator)
    : list (Z * EmbeddedViewParams) :=
  let '(mkLayerT _ n ls) := l in
  match n with
  | PlatformViewLayer _ size id => [(wrapS 32 id, mkParams (getTranslateX m, getTranslateY m) size stack)]
  | _ =>
      if is_leaf n then []
      else match child_cull n cull with
           | Some cull => concat ((λ l, views l (child_matrix n m) cull (stack ++ child_mutators n)) <$> ls)
           | None => []
           end
  end.

(** Whether something below reads the surface the layer is drawn on. *)
Fixpoint reads_back (l : layer) (cull : SkRect) : bool :=
  let '(mkLayerT _ n ls) := l in
  if is_leaf n then false
  else match child_cull n cull with
       | Some cull => if uses_save_layer n then reads_surface n else existsb (λ l, reads_back l cull) ls
       | None => false
       end.

(** The keys of the raster cache are made of integral translations; rounding
    gives one unless the translation is not finite. *)
Definition integral_key (m : SkMatrix) : bool :=
  fractional_translation ||
  (scalar_is_zero (SkScalarFraction (SkScalarRoundToScalar (getTranslateX m))) &&
   scalar_is_zero (SkScalarFraction (SkScalarRoundToScalar (getTranslateY m)))).

Definition node_ok (n : Node) (ls : list layer) (m : SkMatrix) : bool :=
  match n with
  | OpacityLayer _ _ =>
      match ls with
      | [mkLayerT _ ContainerLayer (_ :: _)] => integral_key (child_matrix n m)
      | _ => false
      end
  | ImageFilterLayer _ => integral_key m
  | PictureLayer o p _ _ => bool_decide (is_Some p) && integral_key (matrix_postTranslate o.1 o.2 m)
  | _ => true
  end.

(** What preroll relies on: opacity layers are not empty and
    pictures are present; and the matrices of cached layers are finite. *)
Fixpoint tree_ok (l : layer) (m : SkMatrix) : bool :=
  let '(mkLayerT _ n ls) := l in
  node_ok n ls m && (is_leaf n || forallb (λ l, tree_ok l (child_matrix n m)) ls).

(** The tree without what preroll computes. *)
Fixpoint skeleton (l : layer) : layer :=
  let '(mkLayerT s n ls) := l in mkLayerT (new_state (unique_id_ s)) n (skeleton <$> ls).

(** The context after a preroll that told the embedder about [vs]. *)
Definition after (c : Context_) (vs : list (Z * EmbeddedViewParams)) (readback views : bool)
    (cache : option RasterCache) : Context_ :=
  mkContext cache (gr_context_ c) ((λ old, old ++ vs) <$> view_embedder c) (mutators_stack c)
    (dst_color_space_ c) (cull_rect c) (surface_needs_readback c || readback) (frame_physical_depth c)
    (frame_device_pixel_ratio c) (total_elevation c) views (is_opaque c).

Definition found (c : Context_) (vs : list (Z * EmbeddedViewParams)) : bool :=
  bool_decide (is_Some (view_embedder c)) && negb (bool_decide (vs = [])).

Lemma after_after c v1 r1 h1 k1 v2 r2 h2 k2 :
  after (after c v1 r1 h1 k1) v2 r2 h2 k2 = after c (v1 ++ v2) (r1 || r2) h2 k2.
Proof.
  unfold after; cbn; f_equal; [|by rewrite orb_assoc].
  destruct (view_embedder c); cbn; [by rewrite app_assoc|done].
Qed.

Lemma after_refl c : c = after c [] false (has_platform_view_ c) (raster_cache c).
Proof. destruct c as [? ? [?|]]; unfold after; cbn; rewrite ?app_nil_r, orb_false_r; done. Qed.

Lemma layer_ind' (P : layer → Prop)
    (IH : ∀ s n ls, Forall P ls → P (mkLayerT s n ls)) : ∀ l, P l.
Proof.
  fix rec 1. intros [s n ls]. apply IH. induction ls; constructor; [apply rec|assumption].
Qed.
End reference.

Section proofs.
Context `{bd : Build} `{cb : CacheBuild} `{sk : Skia} {ge : Geometry} {tl : TranslateLaws}.
Context (snap : SkSurface → list CanvasOp → option SkImage).
Local Abbreviation Preroll := (Preroll snap).

(** ** The raster cache never stops a preroll *)

Lemma new_key_returns id m : integral_key m = true → ∃ k, new_key id (raster_ctm m) = Ok k.
Proof.
  unfold integral_key, new_key, raster_ctm, GetIntegralTransCTM.
  destruct fractional_translation; cbn; [by eexists|].
  rewrite !getX_setY, !getX_setX, !getY_setY. repeat rewrite ?getY_setX, ?getY_setY.
  intros ->. rewrite fml_dcheck_true. by eexists.
Qed.

(** The cache after some layers and pictures were prepared. *)
Inductive prepared : RasterCache → RasterCache → Prop :=
  | prepared_layer pre l m cache cache' reqs :
      PrepareLayer snap pre l m cache ⇓ (cache', reqs) → prepared cache cache'
  | prepared_picture g p m cs a b cache ok cache' reqs :
      PreparePicture snap g p m cs a b cache ⇓ (ok, cache', reqs) → prepared cache cache'.

Definition cache_grows (k k' : option RasterCache) : Prop :=
  match k, k' with
  | Some cache, Some cache' => rtc prepared cache cache'
  | None, None => True
  | _, _ => False
  end.

Lemma cache_grows_refl k : cache_grows k k.
Proof. destruct k; [apply rtc_refl|done]. Qed.
#[local] Hint Resolve cache_grows_refl : core.

Lemma cache_grows_trans k1 k2 k3 : cache_grows k1 k2 → cache_grows k2 k3 → cache_grows k1 k3.
Proof. destruct k1, k2, k3; cbn; try done. intros; by etrans. Qed.

(** A step that may only change the raster cache. *)
Definition cache_step (c : Context_) (r : result Context_) : Prop :=
  ∃ cache, r = Ok (set_raster_cache cache c) ∧ cache_grows (raster_cache c) cache.

Lemma cache_step_none c : cache_step c (mret c).
Proof. exists (raster_cache c). split; [by destruct c|apply cache_grows_refl]. Qed.

Lemma prepare_layer_returns pre l m cache (Hm : integral_key m = true) :
  ∃ r, PrepareLayer snap pre l (raster_ctm m) cache = Ok r.
Proof.
  unfold PrepareLayer. destruct (new_key_returns (layer_unique_id l) m Hm) as [k ->]. cbn.
  case_match; [by eexists|]. case_match. by eexists.
Qed.

Lemma prepare_layer_step s b m c (Hm : integral_key m = true) : cache_step c (prepare_layer snap s b m c).
Proof.
  unfold prepare_layer. destruct (raster_cache c) as [cache|] eqn:Hc; [|apply cache_step_none].
  case_match; [|apply cache_step_none].
  match goal with |- context [PrepareLayer _ ?pre ?l _ ?k] =>
    destruct (prepare_layer_returns pre l m k Hm) as [[cache' reqs] E] end.
  rewrite E. exists (Some cache'). rewrite Hc. split; [done|]. apply rtc_once. by eapply prepared_layer.
Qed.

Lemma prepare_picture_returns g p m cs a b cache (Hm : integral_key m = true) :
  ∃ r, PreparePicture snap g p (raster_ctm m) cs a b cache = Ok r.
Proof.
  unfold PreparePicture. case_match; [by eexists|].
  destruct p as [p|]; [|cbn; destruct b; cbn; by eexists].
  case_match; [by eexists|]. case_match; [by eexists|]. cbn.
  destruct (new_key_returns (uniqueID p) m Hm) as [k ->]. cbn.
  repeat case_match; by eexists.
Qed.

(** ** Views found and stacks popped *)

Lemma found_nil c : found c [] = false.
Proof. unfold found. apply andb_false_r. Qed.

Lemma after_nothing c (Hc : has_platform_view_ c = false) : c = after c [] false (found c []) (raster_cache c).
Proof.
  rewrite found_nil.
  trans (after c [] false (has_platform_view_ c) (raster_cache c)); [apply after_refl|by rewrite Hc].
Qed.

Lemma found_app c v1 v2 : found c (v1 ++ v2) = found c v1 || found c v2.
Proof. unfold found. destruct v1; cbn; repeat case_bool_decide; naive_solver. Qed.

Lemma found_after c v r h k vs : found (after c v r h k) vs = found c vs.
Proof.
  unfold found. f_equal. apply bool_decide_ext. unfold after; cbn.
  by rewrite fmap_is_Some.
Qed.

Lemma pop_push c stack mu (Hs : mutators_stack c = stack ++ [mu]) :
  pop_mutator c = Ok (set_mutators_stack stack c).
Proof.
  unfold pop_mutator, Pop. rewrite Hs.
  destruct (stack ++ [mu]) eqn:E; [by destruct stack|]. rewrite <- E, length_app, Nat.add_1_r.
  cbn [pred length]. by rewrite take_app_length.
Qed.

(** ** Children *)

(** What a preroll leaves of its context: everything that describes the parent
    is restored; what the layer reports to it is added. *)
Record prerolled_context (l : layer) (m : SkMatrix) (c c' : Context_) : Prop := {
  pc_gr_context : gr_context_ c' = gr_context_ c;
  pc_color_space : dst_color_space_ c' = dst_color_space_ c;
  pc_mutators : mutators_stack c' = mutators_stack c;
  pc_cull_rect : cull_rect c' = cull_rect c;
  pc_depth : frame_physical_depth c' = frame_physical_depth c;
  pc_ratio : frame_device_pixel_ratio c' = frame_device_pixel_ratio c;
  pc_elevation : total_elevation c' = total_elevation c;
  pc_opaque : is_opaque c' = is_opaque c;
  pc_readback : surface_needs_readback c' = surface_needs_readback c || reads_back l (cull_rect c);
  pc_embedder : view_embedder c' = (λ told, told ++ views l m (cull_rect c) (mutators_stack c)) <$> view_embedder c;
  pc_platform_view : has_platform_view_ c' =
    bool_decide (is_Some (view_embedder c)) && negb (bool_decide (views l m (cull_rect c) (mutators_stack c) = []));
  pc_cache : cache_grows (raster_cache c) (raster_cache c');
}.

Definition preroll_spec (l : layer) : Prop :=
  ∀ m c, tree_ok l m = true → has_platform_view_ c = false →
  let vs := views l m (cull_rect c) (mutators_stack c) in
  ∃ l' cache, Preroll l m c ⇓ (l', after c vs (reads_back l (cull_rect c)) (found c vs) cache) ∧
    cache_grows (raster_cache c) cache ∧ skeleton l' = skeleton l.

Definition children_views (ls : list layer) (m : SkMatrix) (c : Context_) :=
  concat ((λ l, views l m (cull_rect c) (mutators_stack c)) <$> ls).
Definition children_read_back (ls : list layer) (c : Context_) : bool :=
  existsb (λ l, reads_back l (cull_rect c)) ls.

Lemma preroll_loop_ok ls m : Forall preroll_spec ls → forallb (λ l, tree_ok l m) ls = true →
  ∀ b k h c, ∃ ls' b' k' h' cache,
    preroll_loop Preroll ls m b k h c ⇓
      (ls', b', k', h || found c (children_views ls m c),
       after c (children_views ls m c) (children_read_back ls c) h' cache) ∧
    cache_grows (raster_cache c) cache ∧ skeleton <$> ls' = skeleton <$> ls.
Proof.
  induction 1 as [|l ls Hl _ IH]; cbn; intros Hok b k h c.
  { exists [], b, k, (has_platform_view_ c), (raster_cache c). split; [|done].
    rewrite found_nil, orb_false_r. do 2 f_equal. apply after_refl. }
  apply andb_true_iff in Hok as [Hok Hoks].
  destruct (Hl m (set_has_platform_view false c) Hok eq_refl) as (l' & k1 & -> & Hk1 & Hsk). cbn.
  edestruct (IH Hoks) as (ls' & b' & k' & h' & k2 & -> & Hk2 & Hsk'). cbn.
  do 5 eexists. split; [do 2 f_equal|].
  - f_equal. by rewrite found_after, found_app, orb_assoc.
  - exact (after_after c _ _ _ _ _ _ _ _).
  - split; [|cbn; congruence]. by eapply cache_grows_trans.
Qed.

Definition children_ok (children : bool → SkMatrix → Context_ → result (list layer * SkRect * bool * Context_)) (ls : list layer) (m : SkMatrix) : Prop :=
  ∀ k c, has_platform_view_ c = false → ∃ ls' b' k' cache,
    children k m c ⇓ (ls', b', k', after c (children_views ls m c) (children_read_back ls c)
                                     (found c (children_views ls m c)) cache) ∧
    cache_grows (raster_cache c) cache ∧ skeleton <$> ls' = skeleton <$> ls.

Lemma preroll_children_ok ls m : Forall preroll_spec ls → forallb (λ l, tree_ok l m) ls = true →
  children_ok (PrerollChildren Preroll ls) ls m.
Proof.
  intros Hls Hok k c Hc. unfold PrerollChildren. rewrite Hc, fml_dcheck_true. cbn.
  destruct (preroll_loop_ok ls m Hls Hok rect_empty k false c) as (ls' & b' & k' & h' & cache & -> & Hk & Hsk).
  cbn. by exists ls', b', k', cache.
Qed.

(** ** The layer classes *)

Section nodes.
Context (children : bool → SkMatrix → Context_ → result (list layer * SkRect * bool * Context_)).
Context (ls : list layer) (m : SkMatrix) (Hch : children_ok children ls m).

(** [r] is the outcome of a node whose children were visited in context [c']
    and that leaves [c] as it was. *)
Definition node_outcome (s : LayerState) (c : Context_) vs rb
    (r : result (LayerState * list layer * Context_)) : Prop :=
  ∃ s' ls' cache, r ⇓ (s', ls', after c vs rb (found c vs) cache) ∧
    cache_grows (raster_cache c) cache ∧ unique_id_ s' = unique_id_ s ∧
    skeleton <$> ls' = skeleton <$> ls.

Lemma container_detail s c (Hc : has_platform_view_ c = false) : ∃ b k ls' cache,
  Container_Preroll children s m c ⇓
    (set_paint_bounds b (set_needs_system_composite k s), ls',
     after c (children_views ls m c) (children_read_back ls c) (found c (children_views ls m c)) cache) ∧
  cache_grows (raster_cache c) cache ∧ skeleton <$> ls' = skeleton <$> ls.
Proof.
  destruct (Hch (needs_system_composite_ s) c Hc) as (ls' & b & k & cache & E & Hk & Hsk).
  unfold Container_Preroll. rewrite E. cbn. by do 4 eexists.
Qed.

Lemma container_ok s c (Hc : has_platform_view_ c = false) :
  node_outcome s c (children_views ls m c) (children_read_back ls c) (Container_Preroll children s m c).
Proof. destruct (container_detail s c Hc) as (b & k & ls' & cache & -> & Hk & Hs). by do 3 eexists. Qed.

Lemma save_layer_ok s c p (Hc : has_platform_view_ c = false) :
  node_outcome s c (children_views ls m c) p (SaveLayer_Preroll children p s m c).
Proof.
  unfold SaveLayer_Preroll.
  destruct (container_ok s (save_layer_enter true c) Hc) as (s' & ls' & k & -> & Hk & Hs). cbn.
  by exists s', ls', k.
Qed.

Lemma image_filter_ok s c (Hc : has_platform_view_ c = false) (Hm : integral_key m = true) :
  node_outcome s c (children_views ls m c) false (ImageFilter_Preroll snap children s m c).
Proof.
  unfold ImageFilter_Preroll.
  destruct (container_ok s (save_layer_enter true c) Hc) as (s' & ls' & k & -> & Hk & Hs). cbn.
  match goal with |- context [prepare_layer _ ?s ?b _ ?x] =>
    destruct (prepare_layer_step s b m x Hm) as (k' & -> & Hk') end.
  cbn. exists s', ls', k'. split; [done|]. split; [|done]. by eapply cache_grows_trans.
Qed.

Lemma elevated_ok e s c (Hc : has_platform_view_ c = false) :
  node_outcome s c (children_views ls m c) (children_read_back ls c) (Elevated_Preroll children e s m c).
Proof.
  unfold Elevated_Preroll.
  match goal with |- context [Container_Preroll _ ?s _ ?x] =>
    destruct (container_detail s x Hc) as (b & k & ls' & cache & -> & Hk & Hs) end.
  by do 3 eexists.
Qed.

Lemma physical_shape_ok e p b s c (Hc : has_platform_view_ c = false) :
  node_outcome s c (children_views ls m c) (if UsesSaveLayer b then false else children_read_back ls c)
    (PhysicalShape_Preroll children e p b s m c).
Proof.
  unfold PhysicalShape_Preroll, save_layer_enter.
  destruct (UsesSaveLayer b); cbn.
  - destruct (elevated_ok e s (set_surface_needs_readback false c) Hc) as (s' & ls' & k & -> & Hk & Hs).
    cbn. by do 3 eexists.
  - destruct (elevated_ok e s c Hc) as (s' & ls' & k & -> & Hk & Hs). cbn. by do 3 eexists.
Qed.

Lemma opacity_base_ok alpha s c (Hc : has_platform_view_ c = false) :
  node_outcome s c (children_views ls m (push_mutator (opacity alpha) c)) (children_read_back ls c)
    (OpacityBase_Preroll children alpha s m c).
Proof.
  unfold OpacityBase_Preroll.
  match goal with |- context [Container_Preroll _ ?s _ ?x] =>
    destruct (container_ok s x Hc) as (s' & ls' & k & -> & Hk & Hs) end.
  cbn. rewrite (pop_push _ (mutators_stack c) (opacity alpha)) by done. cbn. by do 3 eexists.
Qed.
End nodes.

Lemma transform_ok children ls t m s c cull (Hc : has_platform_view_ c = false)
    (Hcull : child_cull (TransformLayer t) (cull_rect c) = Some cull)
    (Hch : children_ok children ls (matrix_concat m t)) :
  let c' := push_mutator (transform t) (set_cull_rect cull c) in
  node_outcome ls s c (children_views ls (matrix_concat m t) c') (children_read_back ls c')
    (Transform_Preroll children t s m c).
Proof.
  intros c'. injection Hcull as Hcull. unfold Transform_Preroll. cbn [cull_rect push_mutator set_mutators_stack].
  rewrite Hcull.
  edestruct (Hch (needs_system_composite_ s) c' Hc) as (ls' & b & k & cache & E & Hk & Hs).
  change (set_cull_rect cull (push_mutator (transform t) c)) with c'. rewrite E. cbn.
  rewrite (pop_push _ (mutators_stack c) (transform t)) by done. cbn. by do 3 eexists.
Qed.

Lemma clip_ok children ls mu r b m s c (Hc : has_platform_view_ c = false) (Hch : children_ok children ls m) :
  let c' cull := push_mutator mu (set_cull_rect cull c) in
  node_outcome ls s c
    (match rect_intersect (cull_rect c) r with Some cull => children_views ls m (c' cull) | None => [] end)
    (match rect_intersect (cull_rect c) r with
     | Some cull => if UsesSaveLayer b then false else children_read_back ls (c' cull)
     | None => false
     end)
    (Clip_Preroll children mu r b ls s m c).
Proof.
  intros c'. unfold Clip_Preroll. destruct rect_intersect as [cull|].
  2:{ exists (set_children_inside_clip false s), ls, (raster_cache c). split; [|done].
      do 2 f_equal. trans c; [by destruct c|]. by apply after_nothing. }
  unfold save_layer_enter, save_layer_leave. destruct (UsesSaveLayer b);
    match goal with |- context [children ?k m ?x] =>
      destruct (Hch k x Hc) as (ls' & bs & k' & cache & -> & Hk & Hs) end;
    cbn; rewrite (pop_push _ (mutators_stack c) mu) by done; cbn;
    do 3 eexists; (split; [done|]); (split; [done|]); (split; [by case_match|done]).
Qed.

Lemma opacity_shape alpha o ls m : node_ok (OpacityLayer alpha o) ls m = true →
  ∃ container, ls = [container] ∧ layers_of container ≠ [] ∧ integral_key (matrix_postTranslate o.1 o.2 m) = true.
Proof. destruct ls as [|[? [] [|x xs]] [|]]; try discriminate. cbn. intros ->. by eexists. Qed.

Lemma opacity_ok children alpha o ls m s c (Hc : has_platform_view_ c = false)
    (Hok : node_ok (OpacityLayer alpha o) ls m = true)
    (Hch : children_ok children ls (matrix_postTranslate o.1 o.2 m)) :
  let c' := push_mutator (opacity alpha) (push_mutator (transform (MakeTrans o.1 o.2)) c) in
  node_outcome ls s c (children_views ls (matrix_postTranslate o.1 o.2 m) c') false
    (Opacity_Preroll snap children alpha o ls s m c).
Proof.
  intros c'. destruct (opacity_shape _ _ _ _ Hok) as (container & Els & Hne & Hm). unfold Opacity_Preroll.
  assert ((length ls =? 1)%nat = true ∧ head ls = Some container) as [-> ->] by by rewrite Els.
  rewrite fml_dcheck_true. cbn [mbind result_bind of_option].
  rewrite bool_decide_false by done. cbn [negb]. rewrite fml_dcheck_true. cbn [mbind result_bind].
  edestruct (opacity_base_ok children _ _ Hch alpha s
    (save_layer_enter true (push_mutator (transform (MakeTrans o.1 o.2)) c)) Hc) as (s' & ls' & k & -> & Hk & Hu & Hs).
  cbn [mbind result_bind].
  rewrite (pop_push _ (mutators_stack c) (transform (MakeTrans o.1 o.2))) by done. cbn [mbind result_bind].
  destruct ls' as [|l' ls']; [by rewrite Els in Hs|]. cbn [head of_option mbind result_bind].
  match goal with |- context [prepare_layer _ ?s ?b ?m ?x] =>
    destruct (prepare_layer_step s b m x Hm) as (k' & -> & Hk') end.
  cbn in Hk', Hk |- *. do 3 eexists. split; [done|]. split; [by eapply cache_grows_trans|done].
Qed.

Lemma picture_step o p a b s m c (Hok : node_ok (PictureLayer o p a b) [] m = true) :
  ∃ s' cache, Picture_Preroll snap o p a b s m c ⇓ (s', set_raster_cache cache c) ∧
    cache_grows (raster_cache c) cache ∧ unique_id_ s' = unique_id_ s.
Proof.
  apply andb_true_iff in Hok as [[p' ->]%bool_decide_eq_true Hm]. unfold Picture_Preroll.
  destruct (raster_cache c) as [cache|] eqn:Hk.
  - match goal with |- context [PreparePicture _ ?g ?p _ ?cs ?a ?b ?k] =>
      destruct (prepare_picture_returns g p _ cs a b k Hm) as [[[ok cache'] reqs] E] end.
    rewrite E. cbn. eexists _, _. split; [reflexivity|].
    split; [|done]. apply rtc_once. by eapply prepared_picture.
  - assert (set_raster_cache None c = c) as Ec by (destruct c; cbn in *; by subst).
    cbn. eexists _, None. rewrite Ec. by split.
Qed.

Lemma platform_view_ok o size id s ls m c (Hc : has_platform_view_ c = false) :
  let vs := [(wrapS 32 id, mkParams (getTranslateX m, getTranslateY m) size (mutators_stack c))] in
  let n := PlatformViewLayer o size id in
  ∃ l' cache,
    (let '(s, c) := PlatformView_Preroll o size id s m c in mret (mkLayerT s n ls, c)) ⇓
      (l', after c vs false (found c vs) cache) ∧
    cache_grows (raster_cache c) cache ∧ skeleton l' = skeleton (mkLayerT s n ls).
Proof.
  intros vs n. unfold PlatformView_Preroll, found. destruct c as [? ? [old|]]; unfold after; cbn in *;
    rewrite orb_false_r, ?Hc; by do 2 eexists.
Qed.

(** ** Preroll follows the walk *)

Lemma node_outcome_layer s n ls c vs rb r (Hr : node_outcome ls s c vs rb r) :
  ∃ l' cache,
    ('(s, ls, c) ← r; mret (mkLayerT s n ls, c)) ⇓ (l', after c vs rb (found c vs) cache) ∧
    cache_grows (raster_cache c) cache ∧ skeleton l' = skeleton (mkLayerT s n ls).
Proof.
  destruct Hr as (s' & ls' & cache & -> & Hk & Hu & Hs). cbn. do 2 eexists. split; [done|].
  split; [done|]. cbn. by rewrite Hu, Hs.
Qed.

Lemma preroll_walk_all l : preroll_spec l.
Proof.
  induction l as [s n ls IH] using layer_ind'. intros m c [Hn Hls]%andb_true_iff Hc.
  assert (is_leaf n = false → children_ok (PrerollChildren Preroll ls) ls (child_matrix n m)) as Hch.
  { intros Hleaf. rewrite Hleaf in Hls. by apply preroll_children_ok. }
  destruct n; cbn [Layers.Preroll views reads_back is_leaf child_cull child_mutators child_matrix
    uses_save_layer reads_surface]; try specialize (Hch eq_refl); rewrite ?app_nil_r; cbn zeta.
  - by apply node_outcome_layer, container_ok.
  - rewrite cons_middle, app_assoc. by apply node_outcome_layer, opacity_ok.
  - apply node_outcome_layer. by apply transform_ok.
  - apply node_outcome_layer. by apply clip_ok.
  - apply node_outcome_layer. by apply clip_ok.
  - apply node_outcome_layer. by apply clip_ok.
  - by apply node_outcome_layer, save_layer_ok.
  - by apply node_outcome_layer, image_filter_ok.
  - by apply node_outcome_layer, save_layer_ok.
  - by apply node_outcome_layer, save_layer_ok.
  - by apply node_outcome_layer, physical_shape_ok.
  - destruct (picture_step offset picture is_complex will_change s m c Hn) as (s' & k & -> & Hk & Hu).
    cbn. do 2 eexists. split; [do 2 f_equal|cbn; by rewrite Hu].
    rewrite (after_nothing c Hc) at 1. done.
  - do 2 eexists. split; [do 2 f_equal; by apply after_nothing|done].
  - by apply platform_view_ok.
  - do 2 eexists. split; [do 2 f_equal; by apply after_nothing|done].
Qed.

Lemma layer_tree_preroll t root m cache gr embedder cs ignore
    (Hroot : root_layer_ t = Some root) (Hok : tree_ok root m = true) :
  let cache0 := SetCheckboardCacheImages (checkerboard_raster_cache_images_ t) cache in
  ∃ root' cache',
    LayerTree_Preroll snap t cache gr embedder cs m ignore ⇓
      (reads_back root kGiantRect, set_root_layer (Some root') t, cache',
       (λ old, old ++ views root m kGiantRect []) <$> embedder) ∧
    skeleton root' = skeleton root ∧ rtc prepared cache0 cache' ∧ (ignore = true → cache' = cache0).
Proof.
  intros cache0. unfold LayerTree_Preroll. rewrite Hroot.
  match goal with |- context [Layers.Preroll snap root m ?c] =>
    destruct (preroll_walk_all root m c Hok eq_refl) as (root' & k & -> & Hk & Hs) end.
  cbn. exists root', (default cache0 k). split; [done|]. split; [done|]. cbn in Hk.
  destruct ignore, k; try done; split; try done; apply rtc_refl.
Qed.
(** C35: Take a tree whose opacity layers are not empty, whose pictures are
    present and whose cached layers have finite matrices ([tree_ok]).
    Prerolling any such layer, below any context that has not met a platform
    view yet, returns: the mutators stack, the cull rectangle, the elevation,
    the opaqueness and the rest of what the context says of the ancestors are
    what they were; the embedder, if there is one, is told in addition about
    exactly the views of the layer that are not clipped away, in paint order,
    each with the translation of its matrix and the mutators of its ancestors,
    outermost first; a platform view is reported if there is one; a readback
    is reported if a backdrop filter outside every save layer reads the
    surface.  Prerolling the layer tree does this from an empty stack and the
    giant cull rectangle, answers with the readback and keeps the layers; the
    raster cache only had layers and pictures of the tree prepared in it, none
    when it is ignored. *)
Theorem tree_preroll_walk t root m cache gr embedder cs ignore
    (Hroot : root_layer_ t = Some root) (Hok : tree_ok root m = true) :
  let cache0 := SetCheckboardCacheImages (checkerboard_raster_cache_images_ t) cache in
  (∀ l m c, tree_ok l m = true → has_platform_view_ c = false →
     ∃ l' c', Preroll l m c ⇓ (l', c') ∧ skeleton l' = skeleton l ∧ prerolled_context l m c c') ∧
  ∃ root' cache',
    LayerTree_Preroll snap t cache gr embedder cs m ignore ⇓
      (reads_back root kGiantRect, set_root_layer (Some root') t, cache',
       (λ old, old ++ views root m kGiantRect []) <$> embedder) ∧
    skeleton root' = skeleton root ∧ rtc prepared cache0 cache' ∧ (ignore = true → cache' = cache0).
Proof.
  intros cache0. split; [|exact (layer_tree_preroll t root m cache gr embedder cs ignore Hroot Hok)].
  intros l m' c Hl Hc. destruct (preroll_walk_all l m' c Hl Hc) as (l' & k & -> & Hk & Hs).
  do 2 eexists. split; [done|]. split; [done|]. by split.
Qed.
End proofs.

(** ** Examples *)

Local Open Scope Z_scope.

#[local] Existing Instances int_skia int_geometry int_translate int_debug int_cache.

Lemma tree_preroll_walk_witness :
  let t := set_root_layer (Some scene) (new_layer_tree (800, 600) 0 1) in
  let mutators := [transform (mkI 1 10 20); transform (mkI 1 5 5); opacity 128] in
  let told := [(6, mkParams (15, 25) (50, 50) mutators);
               (9, mkParams (0, 0) (50, 50) [clip_rect (mkR 0 0 100 100)])] in
  ∃ root' cache', LayerTree_Preroll int_snapshot t (new_cache 1 3) None (Some []) tt (mkI 1 0 0) false ⇓
    (true, set_root_layer (Some root') t, cache', Some told) ∧ skeleton root' = skeleton scene.
Proof.
  intros t mutators told.
  destruct (@tree_preroll_walk int_debug int_cache int_skia int_geometry int_translate int_snapshot t scene (mkI 1 0 0) (new_cache 1 3) None (Some []) tt false
              eq_refl eq_refl) as (_ & root' & cache' & E & Hs & _ & _).
  exists root', cache'. split; [exact E|exact Hs].
Defined.
