(* ===== verification/LayersPaint.v ===== *)
(** * LayersPaint: painting the layer tree

    Model of the [Paint] methods of flow/layers.  A canvas is its stack of
    states (matrix and clips) between [save] and [restore], and what is drawn
    is a list of events.  Container layers draw through the N-way canvas of
    [LayerTree::Paint], which applies every call to all canvases; leaves draw
    on the current one, which a platform view replaces by the canvas the
    embedder returns.  [SkAutoCanvasRestore] and [AutoSaveLayer] are a pair of
    operations around the body of their scope, on every path out of it. *)

From Stdlib Require Import ZArith Lia.
From stdpp Require Import base sorting gmap numbers list.
From S2P Require Import Prelude RasterCache Layers.

Local Open Scope Z_scope.
#[local] Set Warnings "-register-all".

Section paint.
Context `{bd : Build} `{cb : CacheBuild} `{sk : Skia} {ge : Geometry}.

(** ** Canvases *)

Inductive ClipOp :=
  | OpClipRect (r : SkRect) (aa : bool)
  | OpClipRRect (r : SkRRect) (aa : bool)
  | OpClipPath (p : SkPath) (aa : bool).

(** The paint of a [saveLayer]. *)
Inductive LayerPaint :=
  | NoPaint
  | PaintAlpha (alpha : Z)
  | PaintColorFilter (f : SkColorFilter)
  | PaintImageFilter (f : SkImageFilter)
  | PaintBackdrop (f : option SkImageFilter)
  | PaintSrc.

Inductive DrawOp :=
  | DrawClear
  | DrawPicture (p : SkPicture)
  | DrawImage (image : SkImage) (x y : Z) (alpha : option Z)
  | DrawShadow (path : SkPath) (color : SkColor) (elevation : SkScalar) (transparent : bool) (dpr : SkScalar)
  | DrawPath (path : SkPath) (color : SkColor)
  | DrawPaint (color : SkColor)
  | DrawMask (rect : SkRect) (shader : SkShader) (mode : SkBlendMode)
  | DrawTexture (id : Z) (bounds : SkRect) (freeze : bool)
  | DrawCheckerboard (rect : SkRect)
  | DrawStopwatch (engine : bool) (bounds : SkRect) (graph labels : bool).

Record Frame := mkFrame {
  matrix : SkMatrix;
  clips : list (SkMatrix * ClipOp);
  is_layer : bool;
}.

Record Canvas := mkCanvas { top : Frame; below : list Frame }.

Inductive Event :=
  | Draw (m : SkMatrix) (clips : list (SkMatrix * ClipOp)) (op : DrawOp)
  | BeginLayer (m : SkMatrix) (clips : list (SkMatrix * ClipOp)) (bounds : SkRect) (p : LayerPaint)
  | EndLayer.

Abbreviation canvas_op := (Canvas → Canvas * list Event).

Definition getTotalMatrix (c : Canvas) : SkMatrix := matrix (top c).
Definition getSaveCount (c : Canvas) : nat := S (length (below c)).

Definition push (layer : bool) (c : Canvas) : Canvas :=
  mkCanvas (mkFrame (matrix (top c)) (clips (top c)) layer) (top c :: below c).
Definition save : canvas_op := λ c, (push false c, []).
Definition saveLayer (bounds : SkRect) (p : LayerPaint) : canvas_op := λ c,
  (push true c, [BeginLayer (matrix (top c)) (clips (top c)) bounds p]).
(** Restoring the last state does nothing. *)
Definition restore : canvas_op := λ c,
  match below c with
  | [] => (c, [])
  | f :: fs => (mkCanvas f fs, if is_layer (top c) then [EndLayer] else [])
  end.
Definition setMatrix (m : SkMatrix) : canvas_op := λ c,
  (mkCanvas (mkFrame m (clips (top c)) (is_layer (top c))) (below c), []).
Definition concat_ (m : SkMatrix) : canvas_op := λ c, setMatrix (matrix_concat (getTotalMatrix c) m) c.
Definition translate (dx dy : SkScalar) : canvas_op := λ c,
  setMatrix (matrix_preTranslate dx dy (getTotalMatrix c)) c.
Definition clip (op : ClipOp) : canvas_op := λ c,
  (mkCanvas (mkFrame (matrix (top c)) (clips (top c) ++ [(matrix (top c), op)]) (is_layer (top c))) (below c), []).
Definition draw (op : DrawOp) : canvas_op := λ c, (c, [Draw (matrix (top c)) (clips (top c)) op]).

(** ** The painting state *)

(** The canvases of the N-way canvas, the state of the N-way canvas itself,
    the current canvas of the leaves and what was drawn on which canvas. *)
Record Painting := mkPainting {
  canvases : list Canvas;
  internal_nodes : Canvas;
  leaf_nodes : option nat;
  events : list (nat * Event);
}.

(** [internal_nodes_canvas->op]: the canvases take the call in order. *)
Definition on_internal (f : canvas_op) (p : Painting) : Painting :=
  mkPainting ((λ c, (f c).1) <$> canvases p) (f (internal_nodes p)).1 (leaf_nodes p)
    (events p ++ concat (imap (λ i c, (i,.) <$> (f c).2) (canvases p))).

(** The N-way canvas forwards a restore only when it has a state to restore. *)
Definition internal_restore (p : Painting) : Painting :=
  match below (internal_nodes p) with [] => p | _ => on_internal restore p end.
Definition internal_restoreToCount (n : nat) (p : Painting) : Painting :=
  Nat.iter (getSaveCount (internal_nodes p) - n) internal_restore p.

Definition canvas_at (i : option nat) (p : Painting) : result Canvas :=
  i ← of_option NullDeref i; of_option UndefinedBehaviour (canvases p !! i).

Definition on_canvas (i : option nat) (f : Canvas → result (Canvas * list Event)) (p : Painting)
    : result Painting :=
  c ← canvas_at i p;
  r ← f c;
  let i := default O i in
  mret (mkPainting (<[i := r.1]> (canvases p)) (internal_nodes p) (leaf_nodes p) (events p ++ ((i,.) <$> r.2))).

(** [leaf_nodes_canvas->op]. *)
Definition on_leaf (f : canvas_op) (p : Painting) : result Painting := on_canvas (leaf_nodes p) (mret ∘ f) p.

(** [SkAutoCanvasRestore] on the N-way canvas, and on a canvas of its own:
    the latter remembers the canvas it saved. *)
Definition with_internal_save (body : Painting → result Painting) (p : Painting) : result Painting :=
  let count := getSaveCount (internal_nodes p) in
  p ← body (on_internal save p);
  mret (internal_restoreToCount count p).

Definition restoreToCount (n : nat) (c : Canvas) : Canvas * list Event :=
  Nat.iter (getSaveCount c - n) (λ r, let '(c, es) := restore r.1 in (c, r.2 ++ es)) (c, []).

Definition with_leaf_save (body : Painting → result Painting) (p : Painting) : result Painting :=
  c ← canvas_at (leaf_nodes p) p;
  let saved := leaf_nodes p in
  p ← on_leaf save p;
  p ← body p;
  on_canvas saved (λ c', mret (restoreToCount (getSaveCount c) c')) p.

(** What the layers read of [PaintContext]. *)
Record PaintContext := mkPaintContext {
  paint_raster_cache : option RasterCache;
  (** [CompositeEmbeddedView]; the embedder answers with a canvas or null. *)
  paint_view_embedder : option (Z → option nat);
  paint_textures : Z → bool;
  checkerboard_offscreen_layers : bool;
  paint_device_pixel_ratio : SkScalar;
}.

Section methods.
Context (context : PaintContext).

(** [Layer::AutoSaveLayer] around [body]. *)
Definition with_save_layer (bounds : SkRect) (paint : LayerPaint) (body : Painting → result Painting)
    (p : Painting) : result Painting :=
  p ← body (on_internal (saveLayer bounds paint) p);
  let p := if checkerboard_offscreen_layers context then on_internal (draw (DrawCheckerboard bounds)) p else p in
  mret (internal_restore p).

(** [RasterCacheResult::draw]. *)
Definition draw_result (r : RasterCacheResult) (alpha : option Z) (c : Canvas) : result (Canvas * list Event) :=
  image ← of_option NullDeref (image_ r);
  rect ← of_option UndefinedBehaviour (logical_rect_ r);
  let saved := (save c).1 in
  let '(x, y, w, h) := GetDeviceBounds rect (getTotalMatrix saved) in
  _ ← fml_dcheck ((w =? image_width image) && (h =? image_height image));
  let reset := (setMatrix matrix_identity saved).1 in
  let '(drawn, es) := draw (DrawImage image x y alpha) reset in
  let '(c, es') := restore drawn in
  mret (c, es ++ es').

(** [setMatrix(GetIntegralTransCTM(leaf_nodes_canvas->getTotalMatrix()))]. *)
Definition integral_matrix (p : Painting) : result SkMatrix :=
  c ← canvas_at (leaf_nodes p) p; mret (GetIntegralTransCTM (getTotalMatrix c)).

(** [raster_cache->Get] at the matrix of the current canvas, drawn if valid;
    otherwise [miss]. *)
Definition draw_cached (get : SkMatrix → RasterCache → result RasterCacheResult) (alpha : option Z)
    (miss : Painting → result Painting) (p : Painting) : result Painting :=
  match paint_raster_cache context with
  | None => miss p
  | Some cache =>
      c ← canvas_at (leaf_nodes p) p;
      r ← get (getTotalMatrix c) cache;
      if is_valid r then on_canvas (leaf_nodes p) (draw_result r alpha) p else miss p
  end.

(** ** The layer classes *)

Abbreviation body := (Painting → result Painting).

Fixpoint paint_children (paint : layer → body) (ls : list layer) (p : Painting) : result Painting :=
  match ls with
  | [] => mret p
  | l :: ls =>
      p ← (if layer_needs_painting l then paint l p else mret p);
      paint_children paint ls p
  end.

Definition PaintChildren (paint : layer → body) (needs_painting : bool) (ls : list layer) (p : Painting)
    : result Painting :=
  _ ← fml_dcheck needs_painting;
  paint_children paint ls p.

Definition Opacity_Paint (children : body) (alpha : Z) (offset : SkScalar * SkScalar) (l : layer)
    (p : Painting) : result Painting :=
  with_internal_save (λ p,
    let p := on_internal (translate offset.1 offset.2) p in
    p ← (if fractional_translation then mret p
         else m ← integral_matrix p; mret (on_internal (setMatrix m) p));
    let miss := with_save_layer
                  (rect_roundOut (rect_makeOffset (scalar_sub scalar_zero offset.1)
                     (scalar_sub scalar_zero offset.2) (layer_bounds l)))
                  (PaintAlpha alpha) children in
    draw_cached (λ ctm cache,
      _ ← fml_dcheck (length (layers_of l) =? 1)%nat;
      container ← of_option UndefinedBehaviour (head (layers_of l));
      GetLayer (cached_layer (state_of container)) ctm cache) (Some alpha) miss p) p.

Definition Transform_Paint (children : body) (t : SkMatrix) : body :=
  with_internal_save (λ p, children (on_internal (concat_ t) p)).

Definition Clip_Paint (children : body) (op : ClipOp) (clip_behavior : Clip) (layer_rect : SkRect)
    (l : layer) (p : Painting) : result Painting :=
  if negb (children_inside_clip_ (state_of l)) then mret p
  else
    with_internal_save (λ p,
      let p := on_internal (clip op) p in
      if UsesSaveLayer clip_behavior then
        p ← children (on_internal (saveLayer layer_rect NoPaint) p);
        mret (internal_restore p)
      else children p) p.

Definition antialias (clip_behavior : Clip) : bool := negb (bool_decide (clip_behavior = hardEdge)).

Definition ClipRect_Paint (children : body) (r : SkRect) (b : Clip) : layer → body :=
  Clip_Paint children (OpClipRect r (antialias b)) b r.
Definition ClipRRect_Paint (children : body) (r : SkRRect) (b : Clip) (l : layer) : body :=
  Clip_Paint children (OpClipRRect r (antialias b)) b (layer_bounds l) l.
Definition ClipPath_Paint (children : body) (path : SkPath) (b : Clip) (l : layer) : body :=
  Clip_Paint children (OpClipPath path (antialias b)) b (layer_bounds l) l.

Definition ColorFilter_Paint (children : body) (f : SkColorFilter) (l : layer) : body :=
  with_save_layer (layer_bounds l) (PaintColorFilter f) children.
Definition BackdropFilter_Paint (children : body) (f : option SkImageFilter) (l : layer) : body :=
  with_save_layer (layer_bounds l) (PaintBackdrop f) children.

Definition ShaderMask_Paint (children : body) (shader : SkShader) (mask_rect : SkRect) (mode : SkBlendMode)
    (l : layer) : body :=
  with_save_layer (layer_bounds l) NoPaint (λ p,
    p ← children p;
    p ← on_leaf (translate (rect_left mask_rect) (rect_top mask_rect)) p;
    on_leaf (draw (DrawMask (MakeXYWH scalar_zero scalar_zero (rect_width mask_rect) (rect_height mask_rect))
                     shader mode)) p).

Definition ImageFilter_Paint (children : body) (f : SkImageFilter) (l : layer) (p : Painting) : result Painting :=
  let body := draw_cached (GetLayer (cached_layer (state_of l))) None
                (with_save_layer (layer_bounds l) (PaintImageFilter f) children) in
  if fractional_translation then body p
  else with_leaf_save (λ p, m ← integral_matrix p; p ← on_leaf (setMatrix m) p; body p) p.

(** From [save] to [restoreToCount], and the whole method. *)
Definition PhysicalShape_inside (children : body) (color : SkColor) (path : SkPath) (clip_behavior : Clip)
    (l : layer) : body :=
  with_internal_save (λ p,
    let p := match clip_behavior with
             | hardEdge => on_internal (clip (OpClipPath path false)) p
             | antiAlias => on_internal (clip (OpClipPath path true)) p
             | antiAliasWithSaveLayer =>
                 on_internal (saveLayer (layer_bounds l) NoPaint) (on_internal (clip (OpClipPath path true)) p)
             | Clip_none => p
             end in
    p ← (if UsesSaveLayer clip_behavior then on_leaf (draw (DrawPaint color)) p else mret p);
    children p).

Definition PhysicalShape_Paint (children : body) (color shadow_color : SkColor) (path : SkPath)
    (clip_behavior : Clip) (l : layer) (p : Painting) : result Painting :=
  let elevation := clamped_elevation_ (state_of l) in
  p ← (if scalar_is_zero elevation then mret p
       else on_leaf (draw (DrawShadow path shadow_color elevation (negb (SkColorGetA color =? 255))
                             (paint_device_pixel_ratio context))) p);
  p ← (if UsesSaveLayer clip_behavior then mret p else on_leaf (draw (DrawPath path color)) p);
  PhysicalShape_inside children color path clip_behavior l p.

Definition Picture_Paint (offset : SkScalar * SkScalar) (picture : option SkPicture) (p : Painting)
    : result Painting :=
  _ ← fml_dcheck (bool_decide (is_Some picture));
  with_leaf_save (λ p,
    p ← on_leaf (translate offset.1 offset.2) p;
    p ← (if fractional_translation then mret p else m ← integral_matrix p; on_leaf (setMatrix m) p);
    picture ← of_option NullDeref picture;
    draw_cached (GetPicture picture) None (on_leaf (draw (DrawPicture picture))) p) p.

Definition Texture_Paint (id : Z) (freeze : bool) (l : layer) (p : Painting) : result Painting :=
  if paint_textures context id then on_leaf (draw (DrawTexture id (layer_bounds l) freeze)) p else mret p.

Definition PlatformView_Paint (view_id : Z) (p : Painting) : Painting :=
  match paint_view_embedder context with
  | None => p
  | Some composite =>
      mkPainting (canvases p) (internal_nodes p) (composite (wrapS 32 view_id)) (events p)
  end.

Definition kDisplayRasterizerStatistics : Z := 1.
Definition kVisualizeRasterizerStatistics : Z := 2.
Definition kDisplayEngineStatistics : Z := 4.
Definition kVisualizeEngineStatistics : Z := 8.

Definition PerformanceOverlay_Paint (options : Z) (l : layer) (p : Painting) : result Painting :=
  if options =? 0 then mret p
  else
    let has flag := negb (Z.land options flag =? 0) in
    with_leaf_save (λ p,
      p ← on_leaf (draw (DrawStopwatch false (layer_bounds l) (has kVisualizeRasterizerStatistics)
                           (has kDisplayRasterizerStatistics))) p;
      on_leaf (draw (DrawStopwatch true (layer_bounds l) (has kVisualizeEngineStatistics)
                       (has kDisplayEngineStatistics))) p) p.

(** [layer->Paint(context)]. *)
Fixpoint Paint (l : layer) (p : Painting) {struct l} : result Painting :=
  let '(mkLayerT s n ls) := l in
  let children := PaintChildren Paint (layer_needs_painting l) ls in
  let checked (b : body) := _ ← fml_dcheck (layer_needs_painting l); b p in
  match n with
  | ContainerLayer => checked children
  | OpacityLayer alpha offset => checked (Opacity_Paint children alpha offset l)
  | TransformLayer t => checked (Transform_Paint children t)
  | ClipRectLayer r b => checked (ClipRect_Paint children r b l)
  | ClipRRectLayer r b => checked (ClipRRect_Paint children r b l)
  | ClipPathLayer c b => checked (ClipPath_Paint children c b l)
  | ColorFilterLayer f => checked (ColorFilter_Paint children f l)
  | BackdropFilterLayer f => checked (BackdropFilter_Paint children f l)
  | ShaderMaskLayer shader r mode => checked (ShaderMask_Paint children shader r mode l)
  | ImageFilterLayer f => checked (ImageFilter_Paint children f l)
  | PhysicalShapeLayer color shadow _ path b => checked (PhysicalShape_Paint children color shadow path b l)
  | PictureLayer offset picture _ _ => checked (Picture_Paint offset picture)
  | TextureLayer _ _ id freeze => Texture_Paint id freeze l p
  | PlatformViewLayer _ _ id => mret (PlatformView_Paint id p)
  | PerformanceOverlayLayer options => PerformanceOverlay_Paint options l p
  end.
End methods.

(** ** The tree *)

Definition new_canvas (m : SkMatrix) : Canvas := mkCanvas (mkFrame m [] false) [].

(** [LayerTree::Paint] on the root canvas and the overlay canvases of the
    embedder. *)
Definition LayerTree_Paint (context : PaintContext) (t : LayerTree) (root_canvas : Canvas)
    (overlays : list Canvas) : result (list Canvas * list (nat * Event)) :=
  match root_layer_ t with
  | None => mret (root_canvas :: overlays, [])
  | Some root =>
      let p := mkPainting (root_canvas :: overlays) (new_canvas matrix_identity) (Some O) [] in
      p ← (if layer_needs_painting root then Paint context root p else mret p);
      mret (canvases p, events p)
  end.

(** [LayerTree::Flatten]: preroll and paint on a recording canvas, without
    raster cache and embedder.  [canvas] is whether the recorder gave a canvas;
    without one there is no picture.  The events are the picture, which is
    empty without a root layer. *)
Definition Flatten (makeImageSnapshot : SkSurface → list CanvasOp → option SkImage) (no_color_space : SkColorSpace)
    (canvas : bool) (t : LayerTree) : result (LayerTree * option (list (nat * Event))) :=
  if negb canvas then mret (t, None)
  else match root_layer_ t with
  | None => mret (t, Some [])
  | Some root =>
      r ← Preroll makeImageSnapshot root matrix_identity (root_context t None None None no_color_space);
      let root := r.1 in
      let p := mkPainting [new_canvas matrix_identity] (new_canvas matrix_identity) (Some O) [] in
      let context := mkPaintContext None None (λ _, false) false (tree_device_pixel_ratio_ t) in
      p ← (if layer_needs_painting root then Paint context root p else mret p);
      mret (set_root_layer (Some root) t, Some (events p))
  end.
End paint.
