(* ===== verification/LayersPaintProofs.v ===== *)
(** * LayersPaintProofs: painting is balanced

    The reference passes the state of every canvas down the tree as an
    environment, without [save] and [restore].  Painting is shown equal to it:
    every canvas is left exactly as it was found, on all paths through every
    layer class, the assertions that a painted layer needs painting never
    fail, and the events are those of the reference.  [Flatten] is compared
    with the render path. *)

From Stdlib Require Import ZArith Lia.
From stdpp Require Import base sorting gmap numbers list.
From S2P Require Import Prelude RasterCache Layers IntGeometry LayersProofs LayersPaint.

#[local] Set Default Proof Using "Type*".
#[local] Set Warnings "-register-all".

Section reference.
Context `{bd : Build} `{cb : CacheBuild} `{sk : Skia} {ge : Geometry}.
Context (context : PaintContext).

(** The matrix and the clips of every canvas. *)
Abbreviation state := (SkMatrix * list (SkMatrix * ClipOp))%type.
Abbreviation environment := (list state).

(** An event on every canvas, and the answer of a reference: the events and
    the canvas of the leaves that follow. *)
Definition everywhere (f : state → Event) (E : environment) : list (nat * Event) :=
  imap (λ i e, (i, f e)) E.
Abbreviation answer := (result (list (nat * Event) * nat)).

Definition state_at (E : environment) (leaf : nat) : state := default (matrix_identity, []) (E !! leaf).
Definition add_clip (op : ClipOp) (e : state) : state := (e.1, e.2 ++ [(e.1, op)]).
Definition moved (o : SkScalar * SkScalar) (e : state) : state := (matrix_preTranslate o.1 o.2 e.1, e.2).
Definition integral (e : state) : state := (if fractional_translation then e.1 else GetIntegralTransCTM e.1, e.2).
Definition draws (op : DrawOp) (e : state) : Event := Draw e.1 e.2 op.

(** A save layer; [at_end] is the state in which the checkerboard is drawn. *)
Definition ref_layer (checker : bool) (bounds : SkRect) (pt : LayerPaint) (E : environment)
    (at_end : nat → environment) (body : answer) : answer :=
  '(es, leaf) ← body;
  mret (everywhere (λ e, BeginLayer e.1 e.2 bounds pt) E ++ es ++
        (if checker then everywhere (draws (DrawCheckerboard bounds)) (at_end leaf) else []) ++
        everywhere (λ _, EndLayer) E, leaf).

Definition ref_cached (get : SkMatrix → RasterCache → result RasterCacheResult) (alpha : option Z)
    (e : state) (leaf : nat) (miss : answer) : answer :=
  match paint_raster_cache context with
  | None => miss
  | Some cache =>
      r ← get e.1 cache;
      if is_valid r then
        image ← of_option NullDeref (image_ r);
        rect ← of_option UndefinedBehaviour (logical_rect_ r);
        let '(x, y, w, h) := GetDeviceBounds rect e.1 in
        _ ← fml_dcheck ((w =? image_width image)%Z && (h =? image_height image)%Z);
        mret ([(leaf, draws (DrawImage image x y alpha) (matrix_identity, e.2))], leaf)
      else miss
  end.

Fixpoint ref_children (paint : layer → nat → answer) (ls : list layer) (leaf : nat) : answer :=
  match ls with
  | [] => mret ([], leaf)
  | l :: ls =>
      '(es, leaf) ← (if layer_needs_painting l then paint l leaf else mret ([], leaf));
      '(es', leaf) ← ref_children paint ls leaf;
      mret (es ++ es', leaf)
  end.

Definition ref_clip (children : environment → nat → answer) (op : ClipOp) (b : Clip) (rect : SkRect)
    (inside : bool) (E : environment) (leaf : nat) : answer :=
  if inside then
    let E := add_clip op <$> E in
    if UsesSaveLayer b then ref_layer false rect NoPaint E (λ _, E) (children E leaf) else children E leaf
  else mret ([], leaf).

Definition ref_shape_inside (children : environment → nat → answer) (color : SkColor) (path : SkPath) (b : Clip)
    (l : layer) (E : environment) (leaf : nat) : answer :=
  match b with
  | Clip_none => children E leaf
  | hardEdge => children (add_clip (OpClipPath path false) <$> E) leaf
  | antiAlias => children (add_clip (OpClipPath path true) <$> E) leaf
  | antiAliasWithSaveLayer =>
      let E := add_clip (OpClipPath path true) <$> E in
      ref_layer false (layer_bounds l) NoPaint E (λ _, E)
        ('(es, leaf') ← children E leaf; mret ((leaf, draws (DrawPaint color) (state_at E leaf)) :: es, leaf'))
  end.

Definition ref_draw_if (b : bool) (op : DrawOp) (rest : environment → nat → answer) (E : environment) (leaf : nat)
    : answer :=
  if b then '(es, leaf') ← rest E leaf; mret ((leaf, draws op (state_at E leaf)) :: es, leaf') else rest E leaf.

(** Shadow, shape, and the clipped children. *)
Definition ref_shape (children : environment → nat → answer) (color shadow : SkColor) (path : SkPath) (b : Clip)
    (l : layer) : environment → nat → answer :=
  let elevation := clamped_elevation_ (state_of l) in
  ref_draw_if (negb (scalar_is_zero elevation))
    (DrawShadow path shadow elevation (negb (SkColorGetA color =? 255)%Z) (paint_device_pixel_ratio context))
    (ref_draw_if (negb (UsesSaveLayer b)) (DrawPath path color) (ref_shape_inside children color path b l)).

Fixpoint paint_ref (l : layer) (E : environment) (leaf : nat) {struct l} : answer :=
  let '(mkLayerT s n ls) := l in
  let children E leaf := ref_children (λ l leaf, paint_ref l E leaf) ls leaf in
  let checker := checkerboard_offscreen_layers context in
  match n with
  | ContainerLayer => children E leaf
  | OpacityLayer alpha o =>
      let E := moved o <$> E in
      let E := if fractional_translation then E else (λ e, (GetIntegralTransCTM (state_at E leaf).1, e.2)) <$> E in
      ref_cached (GetLayer (cached_layer (state_of (default l (head ls))))) (Some alpha) (state_at E leaf) leaf
        (ref_layer checker
           (rect_roundOut (rect_makeOffset (scalar_sub scalar_zero o.1) (scalar_sub scalar_zero o.2) (layer_bounds l)))
           (PaintAlpha alpha) E (λ _, E) (children E leaf))
  | TransformLayer t => children ((λ e, (matrix_concat e.1 t, e.2)) <$> E) leaf
  | ClipRectLayer r b => ref_clip children (OpClipRect r (antialias b)) b r (children_inside_clip_ s) E leaf
  | ClipRRectLayer r b =>
      ref_clip children (OpClipRRect r (antialias b)) b (layer_bounds l) (children_inside_clip_ s) E leaf
  | ClipPathLayer c b =>
      ref_clip children (OpClipPath c (antialias b)) b (layer_bounds l) (children_inside_clip_ s) E leaf
  | ColorFilterLayer f => ref_layer checker (layer_bounds l) (PaintColorFilter f) E (λ _, E) (children E leaf)
  | BackdropFilterLayer f => ref_layer checker (layer_bounds l) (PaintBackdrop f) E (λ _, E) (children E leaf)
  | ShaderMaskLayer shader r mode =>
      ref_layer checker (layer_bounds l) NoPaint E (λ leaf, alter (moved (rect_left r, rect_top r)) leaf E)
        ('(es, leaf) ← children E leaf;
         mret (es ++ [(leaf, draws (DrawMask (MakeXYWH scalar_zero scalar_zero (rect_width r) (rect_height r))
                                      shader mode) (moved (rect_left r, rect_top r) (state_at E leaf)))], leaf))
  | ImageFilterLayer f =>
      let E := if fractional_translation then E else alter integral leaf E in
      ref_cached (GetLayer (cached_layer s)) None (state_at E leaf) leaf
        (ref_layer checker (layer_bounds l) (PaintImageFilter f) E (λ _, E) (children E leaf))
  | PhysicalShapeLayer color shadow _ path b => ref_shape children color shadow path b l E leaf
  | PictureLayer o picture _ _ =>
      picture ← of_option NullDeref picture;
      let e := integral (moved o (state_at E leaf)) in
      ref_cached (GetPicture picture) None e leaf (mret ([(leaf, draws (DrawPicture picture) e)], leaf))
  | TextureLayer _ _ id freeze =>
      mret (if paint_textures context id
            then [(leaf, draws (DrawTexture id (layer_bounds l) freeze) (state_at E leaf))] else [], leaf)
  | PlatformViewLayer _ _ id =>
      match paint_view_embedder context with
      | Some composite => mret ([], default leaf (composite (wrapS 32 id)))
      | None => mret ([], leaf)
      end
  | PerformanceOverlayLayer options =>
      let has flag := negb (Z.land options flag =? 0)%Z in
      let both := [DrawStopwatch false (layer_bounds l) (has kVisualizeRasterizerStatistics)
                     (has kDisplayRasterizerStatistics);
                   DrawStopwatch true (layer_bounds l) (has kVisualizeEngineStatistics)
                     (has kDisplayEngineStatistics)] in
      mret (if (options =? 0)%Z then [] else (λ op, (leaf, draws op (state_at E leaf))) <$> both, leaf)
  end.

(** The part of the scene builder's guarantees that painting relies on. *)
Fixpoint shaped (l : layer) : bool :=
  let '(mkLayerT _ n ls) := l in
  match n with
  | OpacityLayer _ _ => (length ls =? 1)%nat
  | PictureLayer _ p _ _ => bool_decide (is_Some p)
  | _ => true
  end && (is_leaf n || forallb shaped ls).
End reference.

Section proofs.
Context `{bd : Build} `{cb : CacheBuild} `{sk : Skia} {ge : Geometry}.
Context (context : PaintContext).

(** ** States of canvases *)

Definition st (c : Canvas) : SkMatrix * list (SkMatrix * ClipOp) := (matrix (top c), clips (top c)).
Definition env_of (cs : list Canvas) := st <$> cs.

#[local] Arguments everywhere : simpl never.
#[local] Arguments env_of : simpl never.
#[local] Arguments state_at : simpl never.
#[local] Arguments restoreToCount : simpl never.

(** Operations on the internal canvas that only change the current state. *)
Definition apply_st (g : SkMatrix * list (SkMatrix * ClipOp) → SkMatrix * list (SkMatrix * ClipOp)) (c : Canvas) : Canvas :=
  mkCanvas (mkFrame (g (st c)).1 (g (st c)).2 (is_layer (top c))) (below c).

Lemma st_apply g c : st (apply_st g c) = g (st c).
Proof. unfold st at 1. cbn. by destruct (g (st c)). Qed.

Lemma everywhere_concat ev (E : list (SkMatrix * list (SkMatrix * ClipOp))) :
  concat (imap (λ i e, (i,.) <$> [ev e]) E) = everywhere ev E.
Proof.
  unfold everywhere. rewrite (imap_ext _ (λ i e, [(i, ev e)])) by done.
  set (f := λ (i : nat) e, (i, ev e)). change (λ i e, [(i, ev e)]) with (λ i e, [f i e]).
  clearbody f. revert f. induction E as [|e E IH]; intros f; [done|]. cbn. f_equal. apply (IH (f ∘ S)).
Qed.

Lemma silent_concat {A} (cs : list A) : concat (imap (λ i _, (i,.) <$> ([] : list Event)) cs) = [].
Proof.
  set (f := λ (i : nat) (_ : A), (i,.) <$> ([] : list Event)).
  assert (∀ i c, f i c = []) as Hf by done. clearbody f. revert f Hf.
  induction cs as [|c cs IH]; intros f Hf; [done|]. cbn. rewrite Hf. apply IH. intros i. apply (Hf (S i)).
Qed.

Lemma on_internal_results f (r : Canvas → Canvas * list Event) cs ic lf ev (Hf : ∀ c, f c = r c) :
  on_internal f (mkPainting cs ic lf ev) =
  mkPainting ((r <$> cs).*1) (r ic).1 lf (ev ++ concat (imap (λ i x, (i,.) <$> x) (r <$> cs).*2)).
Proof.
  unfold on_internal; cbn. rewrite Hf. f_equal.
  - rewrite <- list_fmap_compose. apply list_fmap_ext. intros. cbn. by rewrite Hf.
  - f_equal. f_equal. rewrite !imap_fmap. apply imap_ext. intros; cbn. by rewrite Hf.
Qed.

Lemma on_internal_silent f h p (Hf : ∀ c, f c = (h c, [])) :
  on_internal f p = mkPainting (h <$> canvases p) (h (internal_nodes p)) (leaf_nodes p) (events p).
Proof.
  destruct p as [cs ic lf ev]. rewrite (on_internal_results f (λ c, (h c, []))) by done. cbn.
  f_equal; [by rewrite <- list_fmap_compose|]. rewrite <- list_fmap_compose, imap_fmap.
  etrans; [|apply app_nil_r]. f_equal. apply (silent_concat cs).
Qed.

Lemma on_internal_event f h ev p (Hf : ∀ c, f c = (h c, [ev (st c)])) :
  on_internal f p = mkPainting (h <$> canvases p) (h (internal_nodes p)) (leaf_nodes p)
                      (events p ++ everywhere ev (env_of (canvases p))).
Proof.
  destruct p as [cs ic lf es]. rewrite (on_internal_results f (λ c, (h c, [ev (st c)]))) by done. cbn.
  f_equal; [by rewrite <- list_fmap_compose|]. f_equal.
  rewrite <- everywhere_concat. unfold env_of. by rewrite <- list_fmap_compose, !imap_fmap.
Qed.

(** ** Frames on top of a painting *)

(** [cs] and [ic] have one frame more than the canvases of [p]. *)
Definition lifted (b : bool) (cs : list Canvas) (ic : Canvas) (p : Painting) : Prop :=
  Forall2 (λ c' c, below c' = top c :: below c ∧ is_layer (top c') = b) cs (canvases p) ∧
  below ic = top (internal_nodes p) :: below (internal_nodes p).

Lemma restore_lifted (b : bool) c' c (Hb : below c' = top c :: below c) (Hl : is_layer (top c') = b) :
  restore c' = (c, if b then [EndLayer] else []).
Proof. unfold restore. rewrite Hb, Hl. by destruct c. Qed.

Lemma lifted_map b (h : Canvas → Canvas) p
    (Hh : ∀ c, below (h c) = top c :: below c ∧ is_layer (top (h c)) = b) :
  lifted b (h <$> canvases p) (h (internal_nodes p)) p.
Proof. split; [|apply Hh]. apply Forall2_fmap_l, Forall_Forall2_diag, Forall_true. intros; apply Hh. Qed.

Lemma internal_restore_lifted b cs ic lf ev p (Hl : lifted b cs ic p) :
  internal_restore (mkPainting cs ic lf ev) =
  mkPainting (canvases p) (internal_nodes p) lf
    (ev ++ if b then everywhere (λ _, EndLayer) (env_of (canvases p)) else []).
Proof.
  destruct Hl as [Hcs Hic]. unfold internal_restore. cbn. rewrite Hic.
  rewrite (on_internal_results _ restore) by done.
  assert (restore <$> cs = (λ c, (c, if b then [EndLayer] else [])) <$> canvases p) as ->.
  { induction Hcs as [|c' c cs' cs'' [H1 H2] _ IH]; [done|]. cbn. rewrite IH. f_equal.
    by apply restore_lifted. }
  f_equal.
  - rewrite <- list_fmap_compose. apply list_fmap_id.
  - unfold restore. rewrite Hic. by destruct (internal_nodes p).
  - f_equal. rewrite <- list_fmap_compose, imap_fmap. destruct b.
    + rewrite <- everywhere_concat. unfold env_of. by rewrite imap_fmap.
    + apply (silent_concat (canvases p)).
Qed.

Lemma restore_to_count_lifted b cs ic lf ev p (Hl : lifted b cs ic p) :
  internal_restoreToCount (getSaveCount (internal_nodes p)) (mkPainting cs ic lf ev) =
  internal_restore (mkPainting cs ic lf ev).
Proof.
  unfold internal_restoreToCount, getSaveCount. destruct Hl as [_ Hic]. cbn [internal_nodes].
  rewrite Hic. cbn [length]. by replace (_ - _) with 1 by lia.
Qed.

Lemma save_scope body p cs ic lf ev
    (Hbody : body (on_internal save p) ⇓ mkPainting cs ic lf ev) (Hl : lifted false cs ic p) :
  with_internal_save body p ⇓ mkPainting (canvases p) (internal_nodes p) lf ev.
Proof.
  unfold with_internal_save. rewrite Hbody. cbn [mbind result_bind].
  rewrite (restore_to_count_lifted false) by done.
  rewrite (internal_restore_lifted false _ _ _ _ p) by done. by rewrite app_nil_r.
Qed.

(** A save layer with or without the checkerboard of [AutoSaveLayer]. *)
Definition layer_around (checker : bool) bounds pt (body : Painting → result Painting) (p : Painting) : result Painting :=
  p ← body (on_internal (saveLayer bounds pt) p);
  let p := if checker then on_internal (draw (DrawCheckerboard bounds)) p else p in
  mret (internal_restore p).

Lemma layer_scope checker bounds pt body p cs ic lf ev
    (Hbody : body (on_internal (saveLayer bounds pt) p) ⇓ mkPainting cs ic lf ev) (Hl : lifted true cs ic p) :
  layer_around checker bounds pt body p ⇓
    mkPainting (canvases p) (internal_nodes p) lf
      (ev ++ (if checker then everywhere (draws (DrawCheckerboard bounds)) (env_of cs) else []) ++
       everywhere (λ _, EndLayer) (env_of (canvases p))).
Proof.
  unfold layer_around. rewrite Hbody. cbn [mbind result_bind]. do 2 f_equal. destruct checker.
  - rewrite (on_internal_event _ id (draws (DrawCheckerboard bounds))) by done.
    cbn [canvases internal_nodes leaf_nodes events]. rewrite list_fmap_id.
    rewrite (internal_restore_lifted true _ _ _ _ p) by done. by rewrite <- app_assoc.
  - by rewrite (internal_restore_lifted true _ _ _ _ p).
Qed.

(** ** Bodies that leave the canvases alone *)

Context (n : nat).

Definition ready (p : Painting) (leaf : nat) : Prop :=
  length (canvases p) = n ∧ (leaf < n)%nat ∧ leaf_nodes p = Some leaf.

Definition finish (p : Painting) (a : result (list (nat * Event) * nat)) : result Painting :=
  '(es, leaf) ← a; mret (mkPainting (canvases p) (internal_nodes p) (Some leaf) (events p ++ es)).

Definition in_range (a : result (list (nat * Event) * nat)) : Prop :=
  match a with Ok (_, leaf) => (leaf < n)%nat | Fault _ => True end.

Definition paints (b : Painting → result Painting) (a : result (list (nat * Event) * nat)) (p : Painting) : Prop :=
  b p = finish p a ∧ in_range a.

(** [p] with a frame more on every canvas. *)
Definition raise (h : Canvas → Canvas) (es : list (nat * Event)) (p : Painting) : Painting :=
  mkPainting (h <$> canvases p) (h (internal_nodes p)) (leaf_nodes p) (events p ++ es).

Lemma raise_ready h es p leaf : ready p leaf → ready (raise h es p) leaf.
Proof. unfold ready, raise; cbn. by rewrite length_fmap. Qed.

Lemma save_paints body p h a (Hh : ∀ c, below (h c) = top c :: below c ∧ is_layer (top (h c)) = false) :
  body (on_internal save p) = finish (raise h [] p) a → with_internal_save body p = finish p a.
Proof.
  destruct a as [[es leaf]|f]; cbn [finish mbind result_bind]; intros Hb.
  - erewrite save_scope; [|exact Hb|by apply lifted_map]. cbn. by rewrite app_nil_r.
  - unfold with_internal_save. by rewrite Hb.
Qed.

Lemma layer_paints checker bounds pt b p leaf a (Hp : ready p leaf)
    (Hb : ∀ es, paints b a (raise (push true) es p)) :
  paints (layer_around checker bounds pt b)
    (ref_layer checker bounds pt (env_of (canvases p)) (λ _, env_of (canvases p)) a) p.
Proof.
  destruct (Hb (everywhere (λ e, BeginLayer e.1 e.2 bounds pt) (env_of (canvases p)))) as [E Ha].
  assert (on_internal (saveLayer bounds pt) p = raise (push true) (everywhere (λ e, BeginLayer e.1 e.2 bounds pt) (env_of (canvases p))) p) as Hs
    by exact (on_internal_event _ (push true) (λ e, BeginLayer e.1 e.2 bounds pt) p (λ _, eq_refl)).
  destruct a as [[es leaf']|f]; cbn in E, Ha |- *.
  - split; [|done]. erewrite layer_scope; [|by rewrite Hs, E|by apply lifted_map]. cbn. do 2 f_equal.
    rewrite <- !app_assoc. do 2 f_equal. f_equal. destruct checker; [|done]. do 2 f_equal.
    unfold env_of. by rewrite <- list_fmap_compose.
  - split; [|done]. unfold layer_around. by rewrite Hs, E.
Qed.

(** ** Leaf operations *)

Lemma ready_canvas p leaf (Hp : ready p leaf) : ∃ c, canvases p !! leaf = Some c ∧
  state_at (env_of (canvases p)) leaf = st c ∧ canvas_at (leaf_nodes p) p ⇓ c.
Proof.
  destruct Hp as (Hn & Hl & ->). destruct (lookup_lt_is_Some_2 (canvases p) leaf) as [c Hc]; [lia|].
  exists c. split; [done|]. split; [|cbn; by rewrite Hc].
  unfold state_at, env_of. by rewrite list_lookup_fmap, Hc.
Qed.

Lemma on_canvas_same i f p c es (Hc : canvases p !! i = Some c) (Hf : f c ⇓ (c, es)) :
  on_canvas (Some i) f p ⇓ mkPainting (canvases p) (internal_nodes p) (leaf_nodes p) (events p ++ ((i,.) <$> es)).
Proof. unfold on_canvas. cbn. rewrite Hc. cbn. rewrite Hf. cbn. by rewrite list_insert_id. Qed.

Lemma leaf_draw op p leaf (Hp : ready p leaf) :
  on_leaf (draw op) p ⇓ mkPainting (canvases p) (internal_nodes p) (Some leaf)
                          (events p ++ [(leaf, draws op (state_at (env_of (canvases p)) leaf))]).
Proof.
  destruct (ready_canvas p leaf Hp) as (c & Hc & -> & _). destruct Hp as (_ & _ & Hl). unfold on_leaf. rewrite Hl.
  rewrite (on_canvas_same _ _ _ c [draws op (st c)]) by done. by rewrite Hl.
Qed.

Lemma draw_result_ok r alpha c :
  draw_result r alpha c =
    (image ← of_option NullDeref (image_ r);
     rect ← of_option UndefinedBehaviour (logical_rect_ r);
     let '(x, y, w, h) := GetDeviceBounds rect (matrix (top c)) in
     _ ← fml_dcheck ((w =? image_width image)%Z && (h =? image_height image)%Z);
     mret (c, [draws (DrawImage image x y alpha) (matrix_identity, clips (top c))])).
Proof.
  unfold draw_result. destruct (image_ r); [|done]. destruct (logical_rect_ r); [|done]. cbn.
  destruct (GetDeviceBounds _ _) as [[[x y] w] h]. destruct (fml_dcheck _); [|done]. by destruct c.
Qed.

Lemma cached_paints get alpha miss a p leaf (Hp : ready p leaf) (Hmiss : paints miss a p) :
  paints (draw_cached context get alpha miss)
    (ref_cached context get alpha (state_at (env_of (canvases p)) leaf) leaf a) p.
Proof.
  unfold draw_cached, ref_cached. destruct paint_raster_cache as [cache|]; [|done].
  destruct (ready_canvas p leaf Hp) as (c & Hc & -> & Hat). destruct Hp as (Hn & Hl & Hleaf).
  split; [rewrite Hat; cbn [mbind result_bind]|].
  - cbn [st fst snd]. unfold getTotalMatrix. destruct (get (matrix (top c)) cache) as [r|]; [|done].
    cbn [mbind result_bind]. destruct (is_valid r); [|apply Hmiss]. rewrite Hleaf. unfold on_canvas. cbn. rewrite Hc.
    cbn. rewrite draw_result_ok. destruct (image_ r); [|done]. destruct (logical_rect_ r); [|done]. cbn.
    destruct (GetDeviceBounds _ _) as [[[x y] w] h]. destruct (fml_dcheck _); [|done]. cbn.
    by rewrite list_insert_id, Hleaf.
  - destruct (get _ _) as [r|]; [|done]. cbn [mbind result_bind]. destruct (is_valid r); [|apply Hmiss].
    destruct (image_ r); [|done]. destruct (logical_rect_ r); [|done]. cbn.
    destruct (GetDeviceBounds _ _) as [[[x y] w] h]. by destruct (fml_dcheck _).
Qed.

(** The body of [with_leaf_save] starts with a frame more on the current
    canvas, and may change the state of that frame. *)
Lemma leaf_save_paints body p leaf c c' a (Hp : ready p leaf) (Hc : canvases p !! leaf = Some c)
    (Hb : below c' = top c :: below c) (Hl : is_layer (top c') = false) :
  (body (mkPainting (<[leaf := push false c]> (canvases p)) (internal_nodes p) (Some leaf) (events p)) =
   '(es, leaf') ← a; mret (mkPainting (<[leaf := c']> (canvases p)) (internal_nodes p) (Some leaf') (events p ++ es))) →
  with_leaf_save body p = finish p a.
Proof.
  intros E. destruct Hp as (Hn & Hlt & Hleaf). unfold with_leaf_save, on_leaf. rewrite Hleaf. cbn. rewrite Hc. cbn.
  unfold on_canvas. cbn. rewrite app_nil_r, Hleaf, E. destruct a as [[es leaf']|f]; [|done]. cbn.
  rewrite list_lookup_insert_eq by lia. cbn.
  assert (restoreToCount (getSaveCount c) c' = (c, [])) as ->.
  { unfold restoreToCount, getSaveCount. rewrite Hb. cbn [length]. replace (_ - _) with 1 by lia. cbn.
    by rewrite (restore_lifted false c' c). }
  cbn. by rewrite list_insert_insert_eq, list_insert_id, app_nil_r by done.
Qed.

Lemma on_canvas_apply leaf c p g f (Hc : canvases p !! leaf = Some c) (Hl : leaf_nodes p = Some leaf)
    (Hf : ∀ c, f c = (apply_st g c, [])) :
  on_leaf f p ⇓ mkPainting (<[leaf := apply_st g c]> (canvases p)) (internal_nodes p) (leaf_nodes p) (events p).
Proof. unfold on_leaf, on_canvas. rewrite Hl. cbn. rewrite Hc. cbn. by rewrite Hf, app_nil_r. Qed.

(** ** The layer classes *)

Definition balanced (b : Painting → result Painting)
    (r : list (SkMatrix * list (SkMatrix * ClipOp)) → nat → result (list (nat * Event) * nat)) : Prop :=
  ∀ p leaf, ready p leaf → paints b (r (env_of (canvases p)) leaf) p.

Lemma finish_ready p es leaf : ready p leaf → ∀ leaf', (leaf' < n)%nat →
  ready (mkPainting (canvases p) (internal_nodes p) (Some leaf') (events p ++ es)) leaf'.
Proof. intros (? & _ & _) leaf' ?. done. Qed.

(** Doing one thing after another. *)
Lemma paints_seq b1 b2 a1 (a2 : nat → result (list (nat * Event) * nat)) p leaf (Hp : ready p leaf)
    (H1 : paints b1 a1 p)
    (H2 : ∀ es leaf', ready (mkPainting (canvases p) (internal_nodes p) (Some leaf') (events p ++ es)) leaf' →
          paints b2 (a2 leaf') (mkPainting (canvases p) (internal_nodes p) (Some leaf') (events p ++ es))) :
  paints (λ p, p ← b1 p; b2 p)
    ('(es, leaf) ← a1; '(es', leaf) ← a2 leaf; mret (es ++ es', leaf)) p.
Proof.
  destruct H1 as [E1 R1]. unfold paints. rewrite E1. destruct a1 as [[es leaf']|f]; [|done]. cbn.
  destruct (H2 es leaf' (finish_ready p es leaf Hp leaf' R1)) as [E2 R2]. rewrite E2.
  destruct (a2 leaf') as [[es' leaf'']|f]; [|done]. cbn. by rewrite <- app_assoc.
Qed.

Lemma paints_ret p leaf (Hp : ready p leaf) : paints mret (mret ([], leaf)) p.
Proof.
  destruct Hp as (_ & ? & Hl). split; [|done]. cbn. rewrite app_nil_r, <- Hl. by destruct p.
Qed.

Lemma children_balanced ls
    (Hls : Forall (λ l, layer_needs_painting l = true → balanced (Paint context l) (paint_ref context l)) ls) :
  balanced (paint_children (Paint context) ls)
    (λ E leaf, ref_children (λ l leaf, paint_ref context l E leaf) ls leaf).
Proof.
  induction Hls as [|l ls Hl _ IH]; intros p leaf Hp; cbn [paint_children ref_children]; [by apply paints_ret|].
  apply (paints_seq (λ p, if layer_needs_painting l then Paint context l p else mret p)
           (paint_children (Paint context) ls)
           (if layer_needs_painting l then paint_ref context l _ leaf else mret ([], leaf))
           (ref_children (λ l leaf, paint_ref context l (env_of (canvases p)) leaf) ls) p leaf Hp).
  - destruct (layer_needs_painting l); [by apply Hl|by apply paints_ret].
  - intros es leaf' Hp'. exact (IH _ leaf' Hp').
Qed.

Lemma env_raise h es g p : (∀ c, st (h c) = g (st c)) → env_of (canvases (raise h es p)) = g <$> env_of (canvases p).
Proof.
  intros Hh. unfold env_of; cbn. rewrite <- !list_fmap_compose. apply list_fmap_ext. intros; apply Hh.
Qed.

Lemma internal_save p : on_internal save p = raise (push false) [] p.
Proof. rewrite (on_internal_silent _ (push false)) by done. unfold raise. by rewrite app_nil_r. Qed.

Lemma raise_silent f g h es p : (∀ c, f c = (g c, [])) →
  on_internal f (raise h es p) = raise (g ∘ h) es p.
Proof. intros Hf. rewrite (on_internal_silent _ g) by done. unfold raise; cbn. by rewrite list_fmap_compose. Qed.

Section nodes.
Context (children : Painting → result Painting).
Context (r : list (SkMatrix * list (SkMatrix * ClipOp)) → nat → result (list (nat * Event) * nat)).
Context (Hch : balanced children r).

(** A scope of the internal canvas whose state is changed by [g] on entry. *)
Lemma scope_balanced op g p leaf (Hp : ready p leaf) (Hop : ∀ c, op c = (apply_st g c, [])) :
  paints (with_internal_save (λ p, children (on_internal op p))) (r (g <$> env_of (canvases p)) leaf) p.
Proof.
  set (h := apply_st g ∘ push false).
  destruct (Hch (raise h [] p) leaf (raise_ready _ _ _ _ Hp)) as [E R].
  rewrite (env_raise h [] g) in E, R by (intros c; exact (st_apply g (push false c))). split; [|done].
  apply (save_paints _ _ h); [done|]. by rewrite internal_save, (raise_silent _ _ _ _ _ Hop).
Qed.

Lemma layer_balanced checker bounds pt :
  balanced (layer_around checker bounds pt children)
    (λ E leaf, ref_layer checker bounds pt E (λ _, E) (r E leaf)).
Proof.
  intros p leaf Hp. eapply layer_paints; [done|]. intros es.
  destruct (Hch (raise (push true) es p) leaf (raise_ready _ _ _ _ Hp)) as [E R].
  rewrite (env_raise _ es id), list_fmap_id in E, R by done. done.
Qed.
End nodes.

Lemma transform_balanced children r t (Hch : balanced children r) :
  balanced (Transform_Paint children t) (λ E leaf, r ((λ e, (matrix_concat e.1 t, e.2)) <$> E) leaf).
Proof. intros p leaf Hp. by apply (scope_balanced children r Hch (concat_ t) (λ e, (matrix_concat e.1 t, e.2))). Qed.

Lemma clip_balanced children r op b rect l (Hch : balanced children r) :
  balanced (Clip_Paint children op b rect l) (ref_clip r op b rect (children_inside_clip_ (state_of l))).
Proof.
  intros p leaf Hp. unfold paints, Clip_Paint, ref_clip. destruct (children_inside_clip_ _); cbn [negb].
  2:{ by apply paints_ret. }
  destruct (UsesSaveLayer b).
  - by apply (scope_balanced (layer_around false rect NoPaint children)
               (λ E leaf, ref_layer false rect NoPaint E (λ _, E) (r E leaf))
               (layer_balanced children r Hch false rect NoPaint) (clip op) (add_clip op)).
  - by apply (scope_balanced children r Hch (clip op) (add_clip op)).
Qed.

Lemma draw_cached_ext get get' alpha miss p (Hg : ∀ m cache, get m cache = get' m cache) :
  draw_cached context get alpha miss p = draw_cached context get' alpha miss p.
Proof.
  unfold draw_cached. destruct paint_raster_cache as [cache|]; [|done]. destruct (canvas_at _ _); [|done].
  cbn. by rewrite Hg.
Qed.

Lemma integral_matrix_ok p leaf (Hp : ready p leaf) :
  integral_matrix p ⇓ GetIntegralTransCTM (state_at (env_of (canvases p)) leaf).1.
Proof.
  destruct (ready_canvas p leaf Hp) as (c & _ & -> & Hat). unfold integral_matrix. by rewrite Hat.
Qed.

(** The state of every canvas in an opacity layer. *)
Definition opacity_env (o : SkScalar * SkScalar) (E : list (SkMatrix * list (SkMatrix * ClipOp))) (leaf : nat) :=
  let E := moved o <$> E in
  if fractional_translation then E else (λ e, (GetIntegralTransCTM (state_at E leaf).1, e.2)) <$> E.

Lemma opacity_enter o p leaf (Hp : ready p leaf) : ∃ h,
  (∀ c, below (h c) = top c :: below c ∧ is_layer (top (h c)) = false) ∧
  env_of (canvases (raise h [] p)) = opacity_env o (env_of (canvases p)) leaf ∧
  (let p := on_internal (translate o.1 o.2) (on_internal save p) in
   if fractional_translation then mret p else m ← integral_matrix p; mret (on_internal (setMatrix m) p)) ⇓
    raise h [] p.
Proof.
  unfold opacity_env. cbn zeta. rewrite internal_save, (raise_silent _ (apply_st (moved o))) by done.
  set (h1 := apply_st (moved o) ∘ push false).
  assert (env_of (canvases (raise h1 [] p)) = moved o <$> env_of (canvases p)) as E1
    by (apply env_raise; intros c; exact (st_apply (moved o) (push false c))).
  destruct fractional_translation; [by exists h1|]. rewrite (integral_matrix_ok _ leaf) by by apply raise_ready.
  cbn [mbind result_bind]. rewrite E1. set (m := GetIntegralTransCTM _).
  exists (apply_st (λ e, (m, e.2)) ∘ h1). split; [done|]. split.
  - rewrite <- E1. unfold env_of; cbn. by rewrite <- !list_fmap_compose.
  - by rewrite (raise_silent _ (apply_st (λ e, (m, e.2)))).
Qed.

Lemma opacity_balanced children r alpha o l x (Hl : layers_of l = [x]) (Hch : balanced children r) :
  balanced (Opacity_Paint context children alpha o l)
    (λ E leaf, let E := opacity_env o E leaf in
       ref_cached context (GetLayer (cached_layer (state_of x))) (Some alpha) (state_at E leaf) leaf
         (ref_layer (checkerboard_offscreen_layers context)
            (rect_roundOut (rect_makeOffset (scalar_sub scalar_zero o.1) (scalar_sub scalar_zero o.2) (layer_bounds l)))
            (PaintAlpha alpha) E (λ _, E) (r E leaf))).
Proof.
  intros p leaf Hp. destruct (opacity_enter o p leaf Hp) as (h & Hh & <- & Hin). cbn zeta.
  pose proof (raise_ready h [] p leaf Hp) as Hr.
  set (rect := rect_roundOut _). set (checker := checkerboard_offscreen_layers context).
  destruct (cached_paints (GetLayer (cached_layer (state_of x))) (Some alpha) (layer_around checker rect (PaintAlpha alpha) children)
              _ (raise h [] p) leaf Hr (layer_balanced children r Hch checker rect (PaintAlpha alpha) _ leaf Hr)) as [E R].
  split; [|done]. apply (save_paints _ _ h); [done|]. rewrite <- E.
  change ((let p := on_internal (translate o.1 o.2) (on_internal save p) in
          p ← (if fractional_translation then mret p else m ← integral_matrix p; mret (on_internal (setMatrix m) p));
          draw_cached context (λ ctm cache,
            _ ← fml_dcheck (length (layers_of l) =? 1)%nat;
            container ← of_option UndefinedBehaviour (head (layers_of l));
            GetLayer (cached_layer (state_of container)) ctm cache) (Some alpha)
            (layer_around checker rect (PaintAlpha alpha) children) p) =
          draw_cached context (GetLayer (cached_layer (state_of x))) (Some alpha)
            (layer_around checker rect (PaintAlpha alpha) children) (raise h [] p)).
  cbn zeta in Hin |- *. rewrite Hin. cbn [mbind result_bind]. apply draw_cached_ext. intros m cache.
  rewrite Hl. cbn [length Nat.eqb]. by rewrite fml_dcheck_true.
Qed.

Lemma env_insert i cs c c' g (Hc : cs !! i = Some c) (Hs : st c' = g (st c)) :
  env_of (<[i := c']> cs) = alter g i (env_of cs).
Proof.
  unfold env_of. rewrite list_fmap_insert, Hs. apply list_eq. intros j. destruct (decide (j = i)) as [->|].
  - rewrite list_lookup_alter_eq, list_lookup_fmap, Hc.
    apply list_lookup_insert_eq. rewrite length_fmap. by eapply lookup_lt_Some.
  - by rewrite list_lookup_insert_ne, list_lookup_alter_ne by done.
Qed.

(** [p] with the current canvas replaced. *)
Definition put (leaf : nat) (c : Canvas) (p : Painting) : Painting :=
  mkPainting (<[leaf := c]> (canvases p)) (internal_nodes p) (Some leaf) (events p).

Lemma put_ready leaf c p : ready p leaf → ready (put leaf c p) leaf.
Proof. unfold ready, put; cbn. rewrite length_insert. by intros (? & ? & _). Qed.

Lemma put_state leaf c p : ready p leaf → state_at (env_of (canvases (put leaf c p))) leaf = st c.
Proof.
  intros (Hn & Hl & _). unfold state_at, env_of. cbn.
  by rewrite list_lookup_fmap, list_lookup_insert_eq by lia.
Qed.

Lemma put_apply leaf c p f g (Hp : ready p leaf) (Hf : ∀ c, f c = (apply_st g c, [])) :
  on_leaf f (put leaf c p) ⇓ put leaf (apply_st g c) p.
Proof.
  rewrite (on_canvas_apply leaf c _ g) by (done || apply list_lookup_insert_eq; destruct Hp; lia).
  unfold put; cbn. by rewrite list_insert_insert_eq.
Qed.

Lemma put_integral leaf c p (Hp : ready p leaf) :
  (if fractional_translation then mret (put leaf c p)
   else m ← integral_matrix (put leaf c p); on_leaf (setMatrix m) (put leaf c p)) ⇓ put leaf (apply_st integral c) p.
Proof.
  unfold apply_st, integral. destruct fractional_translation eqn:F.
  - cbn. by destruct c as [[] ?].
  - rewrite (integral_matrix_ok _ leaf), put_state by (done || by apply put_ready). cbn [mbind result_bind].
    by apply (put_apply _ _ _ _ (λ e, (GetIntegralTransCTM (st c).1, e.2))).
Qed.

Lemma picture_balanced o picture pic (Hpic : picture = Some pic) :
  balanced (Picture_Paint context o picture)
    (λ E leaf, let e := integral (moved o (state_at E leaf)) in
       ref_cached context (GetPicture pic) None e leaf (mret ([(leaf, draws (DrawPicture pic) e)], leaf))).
Proof.
  intros p leaf Hp. destruct (ready_canvas p leaf Hp) as (c & Hc & -> & _). subst picture. cbn zeta.
  set (c' := apply_st integral (apply_st (moved o) (push false c))).
  assert (st c' = integral (moved o (st c))) as Hst by (unfold c'; by rewrite !st_apply).
  destruct (cached_paints (GetPicture pic) None (on_leaf (draw (DrawPicture pic)))
    (mret ([(leaf, draws (DrawPicture pic) (integral (moved o (st c))))], leaf)) (put leaf c' p) leaf
    (put_ready _ _ _ Hp)) as [E R].
  { split; [|apply Hp]. rewrite <- Hst, <- (put_state leaf c' p) by done. by apply leaf_draw, put_ready. }
  rewrite put_state, Hst in E, R by done. split; [|done]. unfold Picture_Paint.
  rewrite bool_decide_true by done. rewrite fml_dcheck_true. cbn [mbind result_bind].
  apply (leaf_save_paints _ _ leaf c c'); [done..|]. fold (put leaf (push false c) p).
  rewrite (put_apply _ _ _ _ (moved o)) by done. cbn [mbind result_bind].
  rewrite put_integral by done. exact E.
Qed.

Lemma overlay_balanced options l :
  balanced (PerformanceOverlay_Paint options l) (paint_ref context (mkLayerT (state_of l) (PerformanceOverlayLayer options) [])).
Proof.
  intros p leaf Hp. unfold PerformanceOverlay_Paint. cbn [paint_ref]. unfold paints.
  destruct (options =? 0)%Z; [by apply paints_ret|]. split; [|apply Hp].
  destruct (ready_canvas p leaf Hp) as (c & Hc & -> & _).
  apply (leaf_save_paints _ _ leaf c (push false c)); [done..|].
  fold (put leaf (push false c) p).
  pose proof (put_ready leaf (push false c) p Hp) as Hp'.
  rewrite (leaf_draw _ _ leaf) by done. cbn [mbind result_bind].
  rewrite (leaf_draw _ _ leaf) by done. 
  change (canvases (mkPainting _ _ _ _)) with (canvases (put leaf (push false c) p)).
  rewrite put_state by done. cbn. by rewrite <- app_assoc.
Qed.

Lemma image_filter_balanced children r f l (Hch : balanced children r) :
  balanced (ImageFilter_Paint context children f l)
    (λ E leaf, let E := if fractional_translation then E else alter integral leaf E in
       ref_cached context (GetLayer (cached_layer (state_of l))) None (state_at E leaf) leaf
         (ref_layer (checkerboard_offscreen_layers context) (layer_bounds l) (PaintImageFilter f) E (λ _, E) (r E leaf))).
Proof.
  intros p leaf Hp. unfold ImageFilter_Paint, paints. set (checker := checkerboard_offscreen_layers context).
  assert (∀ q, ready q leaf → let E := env_of (canvases q) in
    paints (draw_cached context (GetLayer (cached_layer (state_of l))) None
              (layer_around checker (layer_bounds l) (PaintImageFilter f) children))
      (ref_cached context (GetLayer (cached_layer (state_of l))) None (state_at E leaf) leaf
         (ref_layer checker (layer_bounds l) (PaintImageFilter f) E (λ _, E) (r E leaf))) q) as Hbody.
  { intros q Hq E. apply cached_paints; [done|]. by apply layer_balanced. }
  destruct fractional_translation eqn:F; [by apply Hbody|].
  destruct (ready_canvas p leaf Hp) as (c & Hc & _ & _).
  set (c' := apply_st integral (push false c)).
  assert (env_of (canvases (put leaf c' p)) = alter integral leaf (env_of (canvases p))) as <-
    by (apply (env_insert _ _ c); [done|]; unfold c'; by rewrite st_apply).
  destruct (Hbody (put leaf c' p) (put_ready _ _ _ Hp)) as [E R]. split; [|done].
  apply (leaf_save_paints _ _ leaf c c'); [done..|]. fold (put leaf (push false c) p).
  etrans; [|exact E]. pose proof (put_integral leaf (push false c) p Hp) as Hint. rewrite F in Hint.
  destruct (integral_matrix _) as [m|]; [|discriminate]. cbn [mbind result_bind] in Hint |- *. by rewrite Hint.
Qed.

Lemma shader_mask_balanced children r shader rect mode l (Hch : balanced children r) :
  balanced (ShaderMask_Paint context children shader rect mode l)
    (λ E leaf, ref_layer (checkerboard_offscreen_layers context) (layer_bounds l) NoPaint E
       (λ leaf, alter (moved (rect_left rect, rect_top rect)) leaf E)
       ('(es, leaf) ← r E leaf;
        mret (es ++ [(leaf, draws (DrawMask (MakeXYWH scalar_zero scalar_zero (rect_width rect) (rect_height rect))
                                     shader mode) (moved (rect_left rect, rect_top rect) (state_at E leaf)))], leaf))).
Proof.
  intros p leaf Hp. set (o := (rect_left rect, rect_top rect)). set (op := DrawMask _ _ _).
  set (begins := everywhere (λ e, BeginLayer e.1 e.2 (layer_bounds l) NoPaint) (env_of (canvases p))).
  destruct (Hch (raise (push true) begins p) leaf (raise_ready _ _ _ _ Hp)) as [E R].
  rewrite (env_raise _ begins id), list_fmap_id in E, R by done.
  assert (on_internal (saveLayer (layer_bounds l) NoPaint) p = raise (push true) begins p) as Hs
    by exact (on_internal_event _ (push true) (λ e, BeginLayer e.1 e.2 (layer_bounds l) NoPaint) p (λ _, eq_refl)).
  unfold paints. destruct (r (env_of (canvases p)) leaf) as [[es leaf']|f]; cbn in R.
  2:{ split; [|done]. unfold ShaderMask_Paint, with_save_layer. by rewrite Hs, E. }
  split; [|done]. set (p1 := raise (push true) begins p) in *.
  set (q := mkPainting (canvases p1) (internal_nodes p1) (Some leaf') (events p1 ++ es)).
  assert (ready q leaf') as Hq by (destruct (raise_ready (push true) begins p leaf Hp); done).
  destruct (lookup_lt_is_Some_2 (canvases p) leaf') as [c Hc]; [destruct Hp; lia|].
  assert (canvases q !! leaf' = Some (push true c)) as Hcq by (cbn; by rewrite list_lookup_fmap, Hc).
  set (c' := apply_st (moved o) (push true c)).
  assert (st c' = moved o (st c)) as Hst by (unfold c'; by rewrite st_apply).
  unfold ShaderMask_Paint.
  change (with_save_layer context) with (layer_around (checkerboard_offscreen_layers context)).
  erewrite (layer_scope (checkerboard_offscreen_layers context)); cycle 1.
  - rewrite Hs, E. lazymatch goal with |- _ = ?x => change (on_leaf (translate o.1 o.2) q ≫= on_leaf (draw op) = x) end.
    rewrite (on_canvas_apply leaf' (push true c) q (moved o)) by done. fold c'. cbn [mbind result_bind].
    apply (leaf_draw _ (put leaf' c' q) leaf'). by apply put_ready.
  - split; [|done]. destruct (lifted_map true (push true) p ltac:(done)) as [HF _].
    apply (Forall2_insert _ _ _ c' c leaf') in HF; [|done]. by rewrite (list_insert_id (canvases p)) in HF.
  - assert (state_at (env_of (canvases p)) leaf' = st c) as Hs1
      by (unfold state_at, env_of; by rewrite list_lookup_fmap, Hc).
    assert (env_of (<[leaf' := c']> (push true <$> canvases p)) = alter (moved o) leaf' (env_of (canvases p))) as Henv.
    { rewrite (env_insert _ _ (push true c) _ (moved o)) by done. f_equal. unfold env_of.
      by rewrite <- list_fmap_compose. }
    rewrite put_state, Hst by done. cbn. by rewrite Hs1, Henv, <- !app_assoc.
Qed.

Lemma draw_first b r op (Hb : balanced b r) :
  balanced (λ p, p ← on_leaf (draw op) p; b p)
    (λ E leaf, '(es, leaf') ← r E leaf; mret ((leaf, draws op (state_at E leaf)) :: es, leaf')).
Proof.
  intros p leaf Hp. unfold paints. rewrite (leaf_draw _ _ leaf) by done. cbn [mbind result_bind].
  set (q := mkPainting _ _ _ _).
  assert (ready q leaf) as Hq by (destruct Hp as (? & ? & _); done).
  destruct (Hb q leaf Hq) as [E R]. change (canvases q) with (canvases p) in E, R. rewrite E.
  destruct (r _ leaf) as [[es leaf']|f]; [|done]. cbn. by rewrite <- app_assoc.
Qed.

Lemma restore_to_count_step count q (Hq : (0 < count < getSaveCount (internal_nodes q))%nat) :
  internal_restoreToCount count q = internal_restoreToCount count (internal_restore q).
Proof.
  unfold internal_restoreToCount, internal_restore, getSaveCount in *.
  destruct (below (internal_nodes q)) as [|fr fs] eqn:Hb; cbn [length] in *; [lia|].
  assert (internal_nodes (on_internal restore q) = mkCanvas fr fs) as -> by (cbn; unfold restore; by rewrite Hb).
  cbn [below]. replace (S (S (length fs)) - count) with (S (S (length fs) - count)) by lia.
  rewrite Nat.iter_succ_r. by rewrite Hb.
Qed.

(** A layer that is closed by the scope around it. *)
Lemma nested_layer op g bounds b r (Hop : ∀ c, op c = (apply_st g c, [])) (Hb : balanced b r) :
  balanced (with_internal_save (λ p, b (on_internal (saveLayer bounds NoPaint) (on_internal op p))))
    (λ E leaf, let E := g <$> E in ref_layer false bounds NoPaint E (λ _, E) (r E leaf)).
Proof.
  intros p leaf Hp.
  destruct (scope_balanced (layer_around false bounds NoPaint b) _ (layer_balanced b r Hb false bounds NoPaint)
              op g p leaf Hp Hop) as [E R].
  split; [|done]. cbn zeta. rewrite <- E. clear E R. unfold with_internal_save, layer_around. cbn zeta.
  rewrite internal_save, (raise_silent _ (apply_st g)) by done.
  set (p1 := raise _ [] p). set (p2 := on_internal (saveLayer bounds NoPaint) p1).
  assert (ready p2 leaf) as Hp2.
  { unfold p2. rewrite (on_internal_event _ (push true) (λ e, BeginLayer e.1 e.2 bounds NoPaint)) by done.
    apply (raise_ready (push true) _ p1), raise_ready, Hp. }
  destruct (Hb p2 leaf Hp2) as [E R]. rewrite E. destruct (r _ leaf) as [[es leaf']|f]; [|done].
  cbn [finish mbind result_bind mret result_ret]. f_equal. apply restore_to_count_step.
  unfold getSaveCount; cbn. lia.
Qed.

Lemma save_balanced b r (Hb : balanced b r) : balanced (with_internal_save b) r.
Proof.
  intros p leaf Hp. destruct (Hb (raise (push false) [] p) leaf (raise_ready _ _ _ _ Hp)) as [E R].
  rewrite (env_raise _ [] id), list_fmap_id in E, R by done. split; [|done].
  apply (save_paints _ _ (push false)); [done|]. by rewrite internal_save.
Qed.

Lemma shape_inside_balanced children r color path b l (Hch : balanced children r) :
  balanced (PhysicalShape_inside children color path b l) (ref_shape_inside r color path b l).
Proof.
  destruct b.
  - by apply save_balanced.
  - intros p leaf Hp. by apply (scope_balanced children r Hch (clip (OpClipPath path false))).
  - intros p leaf Hp. by apply (scope_balanced children r Hch (clip (OpClipPath path true))).
  - by apply (nested_layer (clip (OpClipPath path true)) (add_clip (OpClipPath path true)) _ _ _ (λ _, eq_refl)
                (draw_first _ _ (DrawPaint color) Hch)).
Qed.

Lemma shape_balanced children r color shadow path b l (Hch : balanced children r) :
  balanced (PhysicalShape_Paint context children color shadow path b l)
    (ref_shape context r color shadow path b l).
Proof.
  pose proof (shape_inside_balanced children r color path b l Hch) as Hin.
  unfold PhysicalShape_Paint, ref_shape, ref_draw_if. cbn zeta.
  destruct (scalar_is_zero _), (UsesSaveLayer b); cbn [negb].
  - exact Hin.
  - by apply draw_first.
  - exact (draw_first _ _ _ Hin).
  - exact (draw_first _ _ _ (draw_first _ _ _ Hin)).
Qed.

(** ** Paint follows the reference *)

Context (Hembed : ∀ composite id, paint_view_embedder context = Some composite →
           ∃ i, composite id = Some i ∧ (i < n)%nat).

Lemma platform_view_balanced o size id s ls :
  balanced (λ p, mret (PlatformView_Paint context id p)) (paint_ref context (mkLayerT s (PlatformViewLayer o size id) ls)).
Proof.
  intros p leaf Hp. unfold PlatformView_Paint. cbn [paint_ref]. unfold paints.
  destruct (paint_view_embedder context) as [composite|]; [|by apply paints_ret].
  destruct (Hembed composite (wrapS 32 id) eq_refl) as (i & -> & Hi). split; [|done]. cbn. by rewrite app_nil_r.
Qed.

Lemma texture_balanced id freeze o size s ls :
  balanced (Texture_Paint context id freeze (mkLayerT s (TextureLayer o size id freeze) ls))
    (paint_ref context (mkLayerT s (TextureLayer o size id freeze) ls)).
Proof.
  intros p leaf Hp. unfold Texture_Paint. cbn [paint_ref]. unfold paints.
  destruct (paint_textures context id); [|by apply paints_ret]. split; [by apply leaf_draw|apply Hp].
Qed.

Lemma checked_balanced b r (c : bool) (Hc : c = true) (Hb : balanced b r) :
  balanced (λ p, _ ← fml_dcheck c; b p) r.
Proof. intros p leaf Hp. unfold paints. rewrite Hc, fml_dcheck_true. by apply Hb. Qed.

Lemma paint_balanced l : shaped l = true → layer_needs_painting l = true →
  balanced (Paint context l) (paint_ref context l).
Proof.
  induction l as [s nd ls IH] using layer_ind'. intros [Hn Hls]%andb_true_iff Hp.
  assert (is_leaf nd = false → balanced (PaintChildren (Paint context) true ls)
            (λ E leaf, ref_children (λ l leaf, paint_ref context l E leaf) ls leaf)) as Hch.
  { intros Hleaf. rewrite Hleaf, orb_false_l in Hls. apply checked_balanced, children_balanced; [done|].
    apply Forall_forall. intros x Hx. rewrite Forall_forall in IH. apply IH; [done|]. rewrite forallb_forall in Hls. by apply Hls, list_elem_of_In. }
  rewrite <- Hp in Hch.
  destruct nd; cbn [Paint]; try specialize (Hch eq_refl); first [apply (checked_balanced _ _ _ Hp)|idtac].
  - exact Hch.
  - destruct ls as [|x [|]]; try discriminate Hn. exact (opacity_balanced _ _ _ _ (mkLayerT s _ [x]) x eq_refl Hch).
  - exact (transform_balanced _ _ _ Hch).
  - exact (clip_balanced _ _ _ _ _ _ Hch).
  - exact (clip_balanced _ _ _ _ _ _ Hch).
  - exact (clip_balanced _ _ _ _ _ _ Hch).
  - exact (layer_balanced _ _ Hch _ _ _).
  - exact (image_filter_balanced _ _ _ _ Hch).
  - exact (layer_balanced _ _ Hch _ _ _).
  - exact (shader_mask_balanced _ _ _ _ _ _ Hch).
  - exact (shape_balanced _ _ _ _ _ _ _ Hch).
  - destruct picture as [pic|]; [|discriminate]. exact (picture_balanced _ _ _ eq_refl).
  - exact (texture_balanced _ _ _ _ _ _).
  - exact (platform_view_balanced _ _ _ _ _).
  - exact (overlay_balanced _ _).
Qed.
End proofs.

Section theorems.
Context `{bd : Build} `{cb : CacheBuild} `{sk : Skia} {ge : Geometry}.

(** ** Painting returns *)

Definition returns {A} (m : result A) : Prop := ∃ a, m ⇓ a.

(** Cached images come with the rectangle they were made for. *)
Definition drawable (r : RasterCacheResult) : Prop := is_Some (image_ r) → is_Some (logical_rect_ r).
Definition cache_drawable (k : RasterCache) : Prop :=
  Forall (λ ke, drawable (entry_image ke.2)) (picture_cache_ k) ∧
  Forall (λ ke, drawable (entry_image ke.2)) (layer_cache_ k).

Lemma no_result_drawable : drawable no_result.
Proof. by intros [? [=]]. Qed.

Lemma cache_find_drawable k c e :
  Forall (λ ke, drawable (entry_image ke.2)) c → cache_find k c = Some e → drawable (entry_image e).
Proof.
  induction 1 as [|[k' e'] c He Hc IH]; cbn; [done|]. destruct (key_eqb k' k); [|done]. by intros [= <-].
Qed.

Lemma entry_of_drawable k c :
  Forall (λ ke, drawable (entry_image ke.2)) c → drawable (entry_image (entry_of k c)).
Proof.
  intros Hc. unfold entry_of. destruct (cache_find k c) as [e|] eqn:E; cbn; [by eapply cache_find_drawable|].
  apply no_result_drawable.
Qed.

Lemma cache_put_drawable k e c :
  Forall (λ ke, drawable (entry_image ke.2)) c → drawable (entry_image e) →
  Forall (λ ke, drawable (entry_image ke.2)) (cache_put k e c).
Proof.
  induction 1 as [|[k' e'] c He Hc IH]; cbn; intros H; [by repeat constructor|].
  destruct (key_eqb k' k); constructor; auto.
Qed.

Lemma rasterize_drawable snap g m cs b rect ops : drawable (Rasterize snap g m cs b rect ops).1.
Proof.
  unfold Rasterize. destruct (GetDeviceBounds rect m) as [[[x y] w] h]. cbn [fst].
  match goal with |- drawable (match ?s with _ => _ end) => destruct s end; [intros _; by eexists|].
  apply no_result_drawable.
Qed.

Lemma prepared_drawable snap k k' : prepared snap k k' → cache_drawable k → cache_drawable k'.
Proof.
  intros Hp [HP HL]. destruct Hp as [pre l m k k' reqs E|g p m cs a b k ok k' reqs E].
  - unfold PrepareLayer in E. destruct (new_key _ _) as [key|]; [|done]. cbn in E.
    destruct (is_valid _); [|destruct (Rasterize _ _ _ _ _ _ _) as [image req] eqn:R];
      injection E as <- <-; split; try done; apply cache_put_drawable; try done; cbn; try by apply entry_of_drawable.
    pose proof (rasterize_drawable snap (gr_context pre) m (dst_color_space pre) (checkerboard_images_ k) (paint_bounds l)
      (if needs_painting l then [CanvasPaintLayer l (negb (has_platform_view pre) && has_raster_cache pre)] else [])) as Hd.
    by rewrite R in Hd.
  - unfold PreparePicture in E.
    destruct (_ <=? _)%Z; [by injection E as <- <- <-|]. destruct (negb _); [by injection E as <- <- <-|].
    destruct (negb _); [by injection E as <- <- <-|]. destruct p as [p|]; [|done]. cbn in E.
    destruct (new_key _ _) as [key|]; [|done]. cbn in E.
    destruct (_ || _); [|destruct (is_valid _)]; [injection E as <- <- <-..|].
    1,2: split; [|done]; apply cache_put_drawable; [done|]; cbn; by apply entry_of_drawable.
    pose proof (rasterize_drawable snap g m cs (checkerboard_images_ k) (cullRect p) [CanvasDrawPicture p]) as Hd.
    unfold RasterizePicture in E. destruct (Rasterize _ _ _ _ _ _ _) as [image req] eqn:R.
    injection E as <- <- <-. split; [|done]. by apply cache_put_drawable.
Qed.

(** Assertions about cached images are compiled out, or there are none. *)
Definition cache_draws (context : PaintContext) : Prop :=
  ∀ cache, paint_raster_cache context = Some cache → debug = false ∧ cache_drawable cache.

Lemma new_key_release id m : debug = false → returns (new_key id m).
Proof.
  intros Hd. unfold new_key, fml_dcheck. rewrite Hd. destruct fractional_translation; by eexists.
Qed.

Lemma ref_cached_returns context get alpha e leaf a :
  cache_draws context →
  (∀ m cache, cache_drawable cache → debug = false → ∃ r, get m cache ⇓ r ∧ drawable r) →
  returns a → returns (ref_cached context get alpha e leaf a).
Proof.
  intros Hc Hget Ha. unfold ref_cached. destruct (paint_raster_cache context) as [cache|] eqn:E; [|done].
  destruct (Hc cache E) as [Hd Hk]. destruct (Hget e.1 cache Hk Hd) as (r & -> & Hr). cbn.
  destruct (is_valid r) eqn:Hv; [|done]. apply bool_decide_eq_true in Hv as [image Hi].
  destruct (Hr (mk_is_Some _ _ Hi)) as [rect ->]. rewrite Hi. cbn.
  destruct (GetDeviceBounds rect e.1) as [[[x y] w] h]. unfold fml_dcheck. rewrite Hd. by eexists.
Qed.

Lemma get_layer_drawable l m cache : cache_drawable cache → debug = false → ∃ r, GetLayer l m cache ⇓ r ∧ drawable r.
Proof.
  intros [_ HL] Hd. unfold GetLayer. destruct (new_key_release (layer_unique_id l) m Hd) as [k ->]. cbn.
  eexists. split; [done|]. destruct (cache_find k _) eqn:E; [by eapply cache_find_drawable|apply no_result_drawable].
Qed.

Lemma get_picture_drawable p m cache : cache_drawable cache → debug = false → ∃ r, GetPicture p m cache ⇓ r ∧ drawable r.
Proof.
  intros [HP _] Hd. unfold GetPicture. destruct (new_key_release (uniqueID p) m Hd) as [k ->]. cbn.
  eexists. split; [done|]. destruct (cache_find k _) eqn:E; [by eapply cache_find_drawable|apply no_result_drawable].
Qed.

Lemma ref_layer_returns checker bounds pt E E' (a : result (list (nat * Event) * nat)) :
  returns a → returns (ref_layer checker bounds pt E E' a).
Proof. intros [[es leaf] ->]. by eexists. Qed.

Lemma ref_draw_returns b op r E leaf : (∀ E leaf, returns (r E leaf)) → returns (ref_draw_if b op r E leaf).
Proof. intros Hr. unfold ref_draw_if. destruct b; [|done]. destruct (Hr E leaf) as [[es leaf'] ->]. by eexists. Qed.

Lemma ref_children_returns paint ls leaf :
  Forall (λ l, ∀ leaf, returns (paint l leaf)) ls → returns (ref_children paint ls leaf).
Proof.
  intros Hls. revert leaf. induction Hls as [|l ls Hl _ IH]; intros leaf; [by eexists|]. cbn.
  assert (returns (if layer_needs_painting l then paint l leaf else mret ([], leaf))) as [[es leaf'] ->]
    by (destruct layer_needs_painting; [done|by eexists]).
  cbn. destruct (IH leaf') as [[es' leaf''] ->]. by eexists.
Qed.

Lemma ref_clip_returns r op b rect inside E leaf :
  (∀ E leaf, returns (r E leaf)) → returns (ref_clip r op b rect inside E leaf).
Proof.
  intros Hr. unfold ref_clip. destruct inside; [|by eexists]. cbn zeta.
  destruct (UsesSaveLayer b); [by apply ref_layer_returns|done].
Qed.

Lemma ref_shape_returns context r color shadow path b l E leaf :
  (∀ E leaf, returns (r E leaf)) → returns (ref_shape context r color shadow path b l E leaf).
Proof.
  intros Hr. apply ref_draw_returns. intros E' leaf'. apply ref_draw_returns. intros E'' leaf''.
  unfold ref_shape_inside. destruct b; try apply Hr. apply ref_layer_returns.
  edestruct Hr as [[es x] ->]. by eexists.
Qed.

Lemma paint_ref_returns context l E leaf (Hc : cache_draws context) :
  shaped l = true → returns (paint_ref context l E leaf).
Proof.
  revert E leaf. induction l as [s nd ls IH] using layer_ind'. intros E leaf [Hn Hls]%andb_true_iff.
  assert (is_leaf nd = false → ∀ E leaf, returns (ref_children (λ l leaf, paint_ref context l E leaf) ls leaf)) as Hch.
  { intros Hleaf E' leaf'. rewrite Hleaf, orb_false_l in Hls. apply ref_children_returns. apply Forall_forall. intros x Hx leaf''.
    rewrite Forall_forall in IH. apply IH; [done|]. rewrite forallb_forall in Hls. by apply Hls, list_elem_of_In. }
  destruct nd; try specialize (Hch eq_refl); cbn [paint_ref];
    auto using ref_layer_returns, ref_clip_returns, ref_shape_returns, ref_cached_returns, get_layer_drawable;
    try by eexists.
  - apply ref_layer_returns. destruct (Hch E leaf) as [[es x] ->]. by eexists.
  - destruct picture as [p|]; [|discriminate]. apply ref_cached_returns; [done|apply get_picture_drawable|by eexists].
  - destruct paint_view_embedder; by eexists.
Qed.

(** ** Trees that can be prerolled can be painted *)

Lemma tree_ok_shaped l m : tree_ok l m = true → shaped l = true.
Proof.
  revert m. induction l as [s nd ls IH] using layer_ind'. intros m [Hn Hls]%andb_true_iff. cbn.
  apply andb_true_iff. split.
  - destruct nd; try done; [|by apply andb_true_iff in Hn as [-> _]].
    by destruct ls as [|[? [] [|]] [|]].
  - destruct (is_leaf nd); [done|]. rewrite orb_false_l in Hls |- *. rewrite forallb_forall in Hls |- *.
    rewrite Forall_forall in IH. intros x Hx. apply (IH x (proj2 (list_elem_of_In _ _) Hx) (child_matrix nd m)).
    by apply Hls.
Qed.

Lemma shaped_skeleton l : shaped (skeleton l) = shaped l.
Proof.
  induction l as [s nd ls IH] using layer_ind'. cbn. f_equal; [destruct nd; try done; by rewrite length_fmap|].
  destruct (is_leaf nd); [done|]. rewrite !orb_false_l. induction IH as [|x xs Hx _ IH]; [done|]. cbn. by rewrite Hx, IH.
Qed.

Lemma layer_tree_paint context t root canvas overlays
    (Hroot : root_layer_ t = Some root) (Hshape : shaped root = true)
    (Hembed : ∀ composite id, paint_view_embedder context = Some composite →
       ∃ i, composite id = Some i ∧ (i < S (length overlays))%nat) :
  LayerTree_Paint context t canvas overlays =
    ('(es, _) ← (if layer_needs_painting root then paint_ref context root (env_of (canvas :: overlays)) 0
                 else mret ([], 0));
     mret (canvas :: overlays, es)).
Proof.
  unfold LayerTree_Paint. rewrite Hroot. cbn zeta. destruct (layer_needs_painting root) eqn:Hp; [|done].
  set (p := mkPainting _ _ _ _).
  destruct (paint_balanced context (S (length overlays)) Hembed root Hshape Hp p 0) as [-> _].
  { repeat split; cbn; lia. }
  cbn [canvases p]. by destruct (paint_ref _ _ _ _) as [[es leaf]|f].
Qed.

(** C36: Painting a tree leaves every canvas, the root canvas and the overlays of
    the embedder, with the matrix, the clips and the saved states it had, for
    every layer class and every path out of its Paint method; no assertion
    that a painted layer needs painting fails; and what is drawn is what the
    walk draws that passes the state of the canvases down the tree instead of
    saving and restoring it.  The embedder has to answer with one of its
    canvases; a fault can only come from the raster cache. *)
Theorem tree_paint_balanced context t root canvas overlays
    (Hroot : root_layer_ t = Some root) (Hshape : shaped root = true)
    (Hembed : ∀ composite id, paint_view_embedder context = Some composite →
       ∃ i, composite id = Some i ∧ (i < S (length overlays))%nat) :
  LayerTree_Paint context t canvas overlays =
    ('(es, _) ← (if layer_needs_painting root then paint_ref context root (env_of (canvas :: overlays)) 0
                 else mret ([], 0));
     mret (canvas :: overlays, es)).
Proof. exact (layer_tree_paint context t root canvas overlays Hroot Hshape Hembed). Qed.

(** Painting on a blank canvas without raster cache and embedder. *)
Lemma blank_paint context t root (Hroot : root_layer_ t = Some root) (Hshape : shaped root = true)
    (Hcache : paint_raster_cache context = None) (Hembed : paint_view_embedder context = None) :
  let blank := new_canvas matrix_identity in
  ∃ es, LayerTree_Paint context t blank [] ⇓ ([blank], es) ∧
    if layer_needs_painting root then ∃ leaf, paint_ref context root [(matrix_identity, [])] 0 ⇓ (es, leaf)
    else es = [].
Proof.
  intros blank. rewrite (layer_tree_paint context t root blank [] Hroot Hshape) by (by rewrite Hembed).
  destruct (layer_needs_painting root); [|by eexists].
  destruct (paint_ref_returns context root (env_of [blank]) 0) as [[es leaf] E]; [|done|].
  - intros cache. by rewrite Hcache.
  - rewrite E. exists es. split; [done|]. by exists leaf.
Qed.

End theorems.

(** ** Examples *)

Local Open Scope Z_scope.
#[local] Existing Instances int_skia int_geometry int_translate int_debug int_cache.

(** The scene after its preroll, and a context with an embedder that paints
    on the overlay after a view. *)
Definition prerolled (t : LayerTree) : LayerTree :=
  match LayerTree_Preroll int_snapshot t (new_cache 1 3) None (Some []) tt (mkI 1 0 0) true with
  | Ok (_, t, _, _) => t
  | Fault _ => t
  end.
Definition tree_of (root : layer) : LayerTree := set_root_layer (Some root) (new_layer_tree (800, 600) 0 1).
Definition blank : Canvas := new_canvas matrix_identity.
Definition overlay_context : PaintContext := mkPaintContext None (Some (λ _, Some 1%nat)) (λ _, false) false 1.

Lemma tree_paint_balanced_witness :
  match LayerTree_Paint overlay_context (prerolled (tree_of scene)) blank [blank] with
  | Ok (cs, es) => cs = [blank; blank] ∧ length es = 11%nat
  | Fault _ => False
  end.
Proof.
  rewrite (@tree_paint_balanced int_debug int_cache int_skia int_geometry overlay_context (prerolled (tree_of scene))
    (default scene (root_layer_ (prerolled (tree_of scene)))) blank [blank]).
  - exact (conj (eq_refl [blank; blank]) (eq_refl 11%nat)).
  - reflexivity.
  - reflexivity.
  - intros composite id [= <-]. exists 1%nat. split; [reflexivity|cbn; lia].
Defined.

Lemma scene_prerolled :
  match Preroll int_snapshot scene matrix_identity (root_context (tree_of scene) None None None tt) with
  | Ok (root, _) => layer_needs_painting root = true
  | Fault _ => False
  end.
Proof. vm_compute. reflexivity. Qed.

Lemma scene_picture :
  match Flatten int_snapshot tt true (tree_of scene) with Ok (_, Some es) => length es = 7%nat | _ => False end.
Proof. vm_compute. reflexivity. Qed.


(** An opacity layer with an offset below a scale: the platform view is
    reported at the unscaled offset, while the picture next to it is drawn at
    the scaled one. *)
Theorem opacity_offset_unscaled :
  let root := node 1 (TransformLayer (mkI 2 0 0))
                [node 2 (OpacityLayer 255 (10, 0)) [node 3 ContainerLayer [pic 4 5 5; view 5 0 0]]] in
  let t := tree_of root in
  ((λ r, fst <$> (offsetPixels ∘ snd <$> default [] r.2)) <$>
     match LayerTree_Preroll int_snapshot t (new_cache 1 3) None (Some []) tt (mkI 1 0 0) true with
     | Ok r => Some r | Fault _ => None end) = Some [10] ∧
  match LayerTree_Paint (mkPaintContext None None (λ _, false) false 1) (prerolled t) blank [] with
  | Ok (_, [(_, BeginLayer m _ _ _); (_, Draw m' _ _); _]) => tx m = 20 ∧ tx m' = 20
  | _ => False
  end.
Proof. vm_compute. repeat split. Qed.

(** A clip layer whose children left the cull rectangle keeps the bounds of
    the previous preroll. *)
Theorem clip_keeps_stale_bounds :
  let clip := node 1 (ClipRectLayer (mkR 0 0 100 100) hardEdge) [pic 2 50 50] in
  let c cull := set_cull_rect cull (root_context (tree_of clip) None None None tt) in
  match Preroll int_snapshot clip (mkI 1 0 0) (c kGiantRect) with
  | Ok (l, _) =>
      match Preroll int_snapshot l (mkI 1 0 0) (c (mkR 500 500 600 600)) with
      | Ok (l, _) => layer_needs_painting l = true ∧ children_inside_clip_ (state_of l) = false
      | Fault _ => False
      end
  | Fault _ => False
  end.
Proof. vm_compute. split; reflexivity. Qed.

(** With [checkerboard_offscreen_layers] a shader mask draws the checkerboard
    of its save layer shifted by the origin of the mask. *)
Theorem shader_mask_checkerboard_shifted :
  let root := node 1 (ShaderMaskLayer tt (mkR 7 0 20 20) tt) [pic 2 50 50] in
  let context := mkPaintContext None None (λ _, false) true 1 in
  match LayerTree_Paint context (prerolled (tree_of root)) blank [] with
  | Ok (_, [(_, BeginLayer m _ b _); _; _; (_, Draw m' _ (DrawCheckerboard b')); _]) =>
      b = b' ∧ tx m = 0 ∧ tx m' = 7
  | _ => False
  end.
Proof. vm_compute. repeat split. Qed.
