(* ===== verification/Compositor.v ===== *)
(** * Compositor: one frame of the layer tree

    Model of [CompositorContext] and its [ScopedFrame]
    (flow/compositor_context.{h,cc}): a frame prerolls the tree, lets the view
    embedder act on the platform views it was told about, and paints.  The
    embedder is platform code: the record [Embedder] is its interface, as far
    as a frame uses it.  Of the embedder of iOS the part between preroll and
    painting is modelled, with the state of its controller that it uses
    (FlutterPlatformViews.mm). *)

From Stdlib Require Import ZArith Lia.
From stdpp Require Import base sorting gmap numbers list.
From S2P Require Import Prelude Time TaskQueues GpuThreadMerger Instrumentation RasterCache Layers LayersPaint.

Local Open Scope Z_scope.

Inductive RasterStatus := kSuccess | kResubmit | kEnqueuePipeline | kFailed.
Inductive PostPrerollResult := kResubmitFrame | kPostPrerollSuccess.

#[export] Instance RasterStatus_eq_dec : EqDecision RasterStatus.
Proof. solve_decision. Defined.

Section compositor.
Context `{bd : Build} `{cb : CacheBuild} `{sk : Skia} {ge : Geometry} {S : Type}.
Context (makeImageSnapshot : SkSurface → list CanvasOp → option SkImage).

(** [ExternalViewEmbedder]: its answers may depend on the views it was told
    about in this frame.  A root canvas of its own comes with its color space. *)
Record Embedder := mkEmbedder {
  GetRootCanvas : option (Canvas * SkColorSpace);
  PostPrerollAction : list (Z * EmbeddedViewParams) → GpuThreadMerger → S →
    result (PostPrerollResult * GpuThreadMerger * S);
  GetCurrentCanvases : list (Z * EmbeddedViewParams) → list Canvas;
  CompositeEmbeddedView : list (Z * EmbeddedViewParams) → Z → option nat;
}.

Record CompositorContext := mkCompositor {
  raster_cache_ : RasterCache;
  texture_registry_ : TextureRegistry;
  frame_count_ : Z;
  raster_time_ : Stopwatch;
  ui_time_ : Stopwatch;
}.

Definition new_compositor (now1 now2 : TimePoint.t) : CompositorContext :=
  mkCompositor (new_cache 3 kDefaultPictureCacheLimitPerFrame) new_texture_registry 0
    (new_stopwatch now1) (new_stopwatch now2).

Definition set_cache k c := mkCompositor k (texture_registry_ c) (frame_count_ c) (raster_time_ c) (ui_time_ c).
Definition set_textures t c := mkCompositor (raster_cache_ c) t (frame_count_ c) (raster_time_ c) (ui_time_ c).
Definition set_raster_time w c := mkCompositor (raster_cache_ c) (texture_registry_ c) (frame_count_ c) w (ui_time_ c).
Definition set_ui_time w c := mkCompositor (raster_cache_ c) (texture_registry_ c) (frame_count_ c) (raster_time_ c) w.
Definition set_frame_count n c := mkCompositor (raster_cache_ c) (texture_registry_ c) n (raster_time_ c) (ui_time_ c).

Definition CompositorBeginFrame (enable_instrumentation : bool) (now : TimePoint.t) (c : CompositorContext)
    : CompositorContext :=
  if enable_instrumentation
  then set_raster_time (Start now (raster_time_ c)) (set_frame_count (Increment 1 (frame_count_ c)) c)
  else c.

Definition CompositorEndFrame (enable_instrumentation : bool) (now : TimePoint.t) (c : CompositorContext)
    : result CompositorContext :=
  cache ← SweepAfterFrame (raster_cache_ c);
  let c := set_cache cache c in
  if enable_instrumentation then w ← Stop now (raster_time_ c); mret (set_raster_time w c) else mret c.

Definition OnGrContextCreated (c : CompositorContext) : CompositorContext :=
  let c := set_textures (TexturesOnGrContextCreated (texture_registry_ c)) c in
  set_cache (Clear (raster_cache_ c)) c.
Definition OnGrContextDestroyed (c : CompositorContext) : CompositorContext :=
  let c := set_textures (TexturesOnGrContextDestroyed (texture_registry_ c)) c in
  set_cache (Clear (raster_cache_ c)) c.

(** ** A frame *)

Record ScopedFrame := mkFrame_ {
  frame_gr_context : option GrContext;
  frame_canvas : option Canvas;
  (** That of the canvas, or null. *)
  frame_color_space : SkColorSpace;
  frame_view_embedder : option Embedder;
  root_surface_transformation_ : SkMatrix;
  instrumentation_enabled_ : bool;
  surface_supports_readback_ : bool;
}.

(** The context for [LayerTree::Paint]; the overlay canvases follow the root
    canvas. *)
Definition paint_context (f : ScopedFrame) (views : list (Z * EmbeddedViewParams)) (t : LayerTree)
    (ignore_raster_cache : bool) (c : CompositorContext) : PaintContext :=
  mkPaintContext (if ignore_raster_cache then None else Some (raster_cache_ c))
    ((λ e, CompositeEmbeddedView e views) <$> frame_view_embedder f)
    (λ id, bool_decide (is_Some (GetTexture id (texture_registry_ c))))
    (checkerboard_offscreen_layers_ t) (tree_device_pixel_ratio_ t).

(** What a frame leaves behind. *)
Record Outcome := mkOutcome {
  out_status : RasterStatus;
  out_tree : LayerTree;
  out_compositor : CompositorContext;
  out_merger : option GpuThreadMerger;
  out_queues : S;
  (** The canvas after the frame, and what was drawn on which canvas. *)
  out_canvas : option Canvas;
  out_events : list (nat * Event);
}.

(** From [canvas()->clear] to the end of [Raster]: painting on the canvas. *)
Definition paint_frame (f : ScopedFrame) (needs_save_layer : bool) (views : list (Z * EmbeddedViewParams))
    (t : LayerTree) (ignore_raster_cache : bool) (c : CompositorContext)
    : result (option Canvas * list (nat * Event)) :=
  let on_root op (canvas : Canvas) := let '(canvas, es) := op canvas in (canvas, (0%nat,.) <$> es) in
  match frame_canvas f with
  | None =>
      (* [LayerTree::Paint] dereferences the canvas when there is a root layer *)
      match root_layer_ t with None => mret (None, []) | Some _ => Fault NullDeref end
  | Some canvas =>
      let '(canvas, es1) :=
        if needs_save_layer then on_root (saveLayer (MakeSize (frame_size_ t)) PaintSrc) canvas else (canvas, []) in
      let '(canvas, es2) := on_root (draw DrawClear) canvas in
      let overlays := match frame_view_embedder f with Some e => GetCurrentCanvases e views | None => [] end in
      '(canvases, es3) ← LayerTree_Paint (paint_context f views t ignore_raster_cache c) t canvas overlays;
      canvas ← of_option UndefinedBehaviour (head canvases);
      let '(canvas, es4) := if needs_save_layer then on_root restore canvas else (canvas, []) in
      mret (Some canvas, es1 ++ es2 ++ es3 ++ es4)
  end.

Definition Raster (f : ScopedFrame) (t : LayerTree) (ignore_raster_cache : bool) (c : CompositorContext)
    (merger : option GpuThreadMerger) (s : S) : result Outcome :=
  '(root_needs_readback, t, cache, views) ←
    LayerTree_Preroll makeImageSnapshot t (raster_cache_ c) (frame_gr_context f) ((λ _, []) <$> frame_view_embedder f)
      (frame_color_space f) (root_surface_transformation_ f) ignore_raster_cache;
  let c := set_cache cache c in
  let needs_save_layer := root_needs_readback && negb (surface_supports_readback_ f) in
  let views := default [] views in
  '(post_preroll_result, merger, s) ←
    (match frame_view_embedder f, merger with
     | Some e, Some m => '(r, m, s) ← PostPrerollAction e views m s; mret (r, Some m, s)
     | _, _ => mret (kPostPrerollSuccess, merger, s)
     end);
  match post_preroll_result with
  | kResubmitFrame => mret (mkOutcome kResubmit t c merger s (frame_canvas f) [])
  | kPostPrerollSuccess =>
      '(canvas, es) ← paint_frame f needs_save_layer views t ignore_raster_cache c;
      mret (mkOutcome kSuccess t c merger s canvas es)
  end.

(** [AcquireFrame], [Raster] and the destructor of the frame. *)
Definition raster_frame (f : ScopedFrame) (t : LayerTree) (ignore_raster_cache : bool) (begin_ end_ : TimePoint.t)
    (c : CompositorContext) (merger : option GpuThreadMerger) (s : S) : result Outcome :=
  let c := CompositorBeginFrame (instrumentation_enabled_ f) begin_ c in
  o ← Raster f t ignore_raster_cache c merger s;
  c ← CompositorEndFrame (instrumentation_enabled_ f) end_ (out_compositor o);
  mret (mkOutcome (out_status o) (out_tree o) c (out_merger o) (out_queues o) (out_canvas o) (out_events o)).
End compositor.

(** ** The embedder of platform views on iOS *)

(** [operator==] of Skia's values. *)
Class SkiaEquality `{sk : Skia} {ge : Geometry} := {
  scalar_eqb : SkScalar → SkScalar → bool;
  rect_eqb : SkRect → SkRect → bool;
  rrect_eqb : SkRRect → SkRRect → bool;
  path_eqb : SkPath → SkPath → bool;
}.

Section view_params.
Context `{sk : Skia} {ge : Geometry} {eq : SkiaEquality}.

Definition Mutator_eqb (a b : Mutator) : bool :=
  match a, b with
  | clip_rect r, clip_rect r' => rect_eqb r r'
  | clip_rrect r, clip_rrect r' => rrect_eqb r r'
  | clip_path p, clip_path p' => path_eqb p p'
  | transform m, transform m' => matrix_eqb m m'
  | opacity alpha, opacity alpha' => alpha =? alpha'
  | _, _ => false
  end.
Fixpoint MutatorsStack_eqb (a b : list Mutator) : bool :=
  match a, b with
  | [], [] => true
  | m :: a, m' :: b => Mutator_eqb m m' && MutatorsStack_eqb a b
  | _, _ => false
  end.
Definition EmbeddedViewParams_eqb (a b : EmbeddedViewParams) : bool :=
  scalar_eqb (offsetPixels a).1 (offsetPixels b).1 && scalar_eqb (offsetPixels a).2 (offsetPixels b).2 &&
  scalar_eqb (sizePoints a).1 (sizePoints b).1 && scalar_eqb (sizePoints a).2 (sizePoints b).2 &&
  MutatorsStack_eqb (mutatorsStack a) (mutatorsStack b).

(** [FlutterPlatformViewsController], what decides whether operations on views
    are pending; [SubmitFrame] and [CompositeEmbeddedView], which run later in
    a frame and change UIKit's views, are not modelled. *)
Record PlatformViews := mkPlatformViews {
  pv_composition_order_ : list Z;
  pv_active_composition_order_ : list Z;
  pv_current_composition_params_ : gmap Z EmbeddedViewParams;
  pv_views_to_recomposite_ : gset Z;
}.
Definition no_platform_views : PlatformViews := mkPlatformViews [] [] ∅ ∅.

Definition PlatformViews_CancelFrame (c : PlatformViews) : PlatformViews :=
  mkPlatformViews [] (pv_active_composition_order_ c) (pv_current_composition_params_ c) (pv_views_to_recomposite_ c).

Definition HasPendingViewOperations (c : PlatformViews) : bool :=
  if negb (bool_decide (pv_views_to_recomposite_ c = ∅)) then true
  else negb (bool_decide (pv_active_composition_order_ c = pv_composition_order_ c)).

Definition PlatformViews_PrerollCompositeEmbeddedView (c : PlatformViews) (view : Z * EmbeddedViewParams) : PlatformViews :=
  let '(view_id, params) := view in
  let c := mkPlatformViews (pv_composition_order_ c ++ [view_id]) (pv_active_composition_order_ c)
             (pv_current_composition_params_ c) (pv_views_to_recomposite_ c) in
  if match pv_current_composition_params_ c !! view_id with Some old => EmbeddedViewParams_eqb old params | None => false end
  then c
  else mkPlatformViews (pv_composition_order_ c) (pv_active_composition_order_ c)
         (<[view_id := params]> (pv_current_composition_params_ c)) ({[view_id]} ∪ pv_views_to_recomposite_ c).
End view_params.

Section platform_views.
Context `{bd : Build} `{sk : Skia} {ge : Geometry} {eq : SkiaEquality} {S : Type} `{mq : MergeQueues S}.

Definition kDefaultMergedLeaseDuration : Z := 10.

Definition PlatformViews_PostPrerollAction (c : PlatformViews) (m : GpuThreadMerger) (s : S)
    : result (PostPrerollResult * GpuThreadMerger * (PlatformViews * S)) :=
  let uiviews_mutated := HasPendingViewOperations c in
  if uiviews_mutated then
    if IsMerged m then m ← ExtendLeaseTo kDefaultMergedLeaseDuration m; mret (kPostPrerollSuccess, m, (c, s))
    else
      let c := PlatformViews_CancelFrame c in
      '(m, s) ← MergeWithLease kDefaultMergedLeaseDuration m s;
      mret (kResubmitFrame, m, (c, s))
  else mret (kPostPrerollSuccess, m, (c, s)).

(** The controller is told the views during the preroll, and then acts. *)
Definition PlatformViewsPostPreroll (views : list (Z * EmbeddedViewParams)) (m : GpuThreadMerger) (s : PlatformViews * S)
    : result (PostPrerollResult * GpuThreadMerger * (PlatformViews * S)) :=
  PlatformViews_PostPrerollAction (foldl PlatformViews_PrerollCompositeEmbeddedView s.1 views) m s.2.
End platform_views.

(** The queues beside the state of the controller. *)
#[export] Hint Mode MergeQueues ! : typeclass_instances.
#[export] Instance beside_merge_queues {V S} `{MergeQueues S} : MergeQueues (V * S) := {|
  api_Merge p g s := '(b, q) ← api_Merge p g s.2; mret (b, (s.1, q));
  api_Unmerge p s := '(b, q) ← api_Unmerge p s.2; mret (b, (s.1, q));
  api_Owns p g s := api_Owns p g s.2;
  apart s p g := apart s.2 p g;
  paired s p g := paired s.2 p g;
  bystander p g s s' := bystander p g s.2 s'.2;
|}.

#[export] Instance beside_merge_laws {V S} `{MergeQueuesLaws S} : MergeQueuesLaws (V * S).
Proof.
  split; cbn.
  - intros [v s] p g (q & -> & Hp)%apart_Merge. by eexists.
  - intros [v s] p g (q & -> & Hp)%paired_Unmerge. by eexists.
  - intros s p g. apply apart_Owns.
  - intros s p g. apply apart_distinct.
  - intros s p g. apply paired_distinct.
  - intros s s' p g. apply bystander_apart.
  - intros s s' p g. apply bystander_paired.
Qed.

Arguments Embedder {sk ge} S.
Arguments ScopedFrame {sk ge} S.
Arguments Outcome {sk ge} S.
