(* ===== verification/Rasterizer.v ===== *)
(** * Rasterizer: frames from the pipeline to the surface

    Model of [flutter::Rasterizer] (shell/common/rasterizer.{h,cc}) and of the
    [SurfaceFrame] it draws on (shell/common/surface.cc).  It composes the
    frame pipeline, the compositor, the layer tree and the GPU thread merger.
    The surface, the pictures it serializes and the clock are parameters; what
    the rasterizer tells others is a list of calls. *)

From Stdlib Require Import ZArith Lia.
From stdpp Require Import base sorting gmap numbers list.
From S2P Require Import Prelude Time TaskQueues GpuThreadMerger Pipeline Instrumentation RasterCache.
From S2P Require Import Layers LayersPaint Compositor.

Local Open Scope Z_scope.

Inductive ScreenshotType := SkiaPicture | UncompressedImage | CompressedImage.

(** [FrameTiming]: the four phases of a frame. *)
Record FrameTiming := mkTiming {
  kBuildStart : TimePoint.t;
  kBuildFinish : TimePoint.t;
  kRasterStart : TimePoint.t;
  kRasterFinish : TimePoint.t;
}.

Section rasterizer.
Context `{bd : Build} `{cb : CacheBuild} `{sk : Skia} {ge : Geometry} {S : Type} `{mq : MergeQueues S}.
Context (makeImageSnapshot : SkSurface → list CanvasOp → option SkImage).

(** ** Surfaces *)

(** A frame of the surface: its canvas if it has one, and what the submit
    callback answers for a canvas. *)
Record SurfaceFrame := mkSurfaceFrame {
  SkiaCanvas : option Canvas;
  canvas_color_space : SkColorSpace;
  supports_readback_ : bool;
  submit_callback_ : bool;
}.

(** [resource_limits] are those of its GPU context: resources and bytes. *)
Record Surface := mkSurface {
  GetContext : option GrContext;
  GetExternalViewEmbedder : option (Embedder S);
  GetRootTransformation : SkMatrix;
  AcquireFrame : Z * Z → option SurfaceFrame;
  resource_limits : Z * Z;
}.

Definition set_limits limits s :=
  mkSurface (GetContext s) (GetExternalViewEmbedder s) (GetRootTransformation s) (AcquireFrame s) limits.

(** What the rasterizer calls, in order. *)
Inductive RasterCall :=
  | EmbedderBeginFrame (size : Z * Z)
  | FrameSubmitted (drawn : list (nat * Event))
  | FrameDropped
  | EmbedderSubmitFrame
  | NextFrameCallback (callback : Z)
  | DeferredCleanup
  | FrameRasterized (timing : FrameTiming)
  | FreeGpuResources
  | DumpSkp
  | PostDraw.

Record Rasterizer := mkRasterizer {
  surface_ : option Surface;
  last_layer_tree_ : option LayerTree;
  resubmitted_layer_tree_ : option LayerTree;
  compositor_context_ : CompositorContext;
  gpu_thread_merger_ : option GpuThreadMerger;
  next_frame_callback_ : option Z;
  max_cache_bytes_ : option Z;
  user_override_resource_cache_bytes_ : bool;
  queues_ : S;
  clock_reads : nat;
  calls : list RasterCall;
}.

Definition new_rasterizer (c : CompositorContext) (s : S) : Rasterizer :=
  mkRasterizer None None None c None None None false s 0 [].

Definition set_surface x r := mkRasterizer x (last_layer_tree_ r) (resubmitted_layer_tree_ r)
  (compositor_context_ r) (gpu_thread_merger_ r) (next_frame_callback_ r) (max_cache_bytes_ r)
  (user_override_resource_cache_bytes_ r) (queues_ r) (clock_reads r) (calls r).
Definition set_last_layer_tree x r := mkRasterizer (surface_ r) x (resubmitted_layer_tree_ r)
  (compositor_context_ r) (gpu_thread_merger_ r) (next_frame_callback_ r) (max_cache_bytes_ r)
  (user_override_resource_cache_bytes_ r) (queues_ r) (clock_reads r) (calls r).
Definition set_resubmitted x r := mkRasterizer (surface_ r) (last_layer_tree_ r) x
  (compositor_context_ r) (gpu_thread_merger_ r) (next_frame_callback_ r) (max_cache_bytes_ r)
  (user_override_resource_cache_bytes_ r) (queues_ r) (clock_reads r) (calls r).
Definition set_compositor x r := mkRasterizer (surface_ r) (last_layer_tree_ r) (resubmitted_layer_tree_ r)
  x (gpu_thread_merger_ r) (next_frame_callback_ r) (max_cache_bytes_ r)
  (user_override_resource_cache_bytes_ r) (queues_ r) (clock_reads r) (calls r).
Definition set_merger x s r := mkRasterizer (surface_ r) (last_layer_tree_ r) (resubmitted_layer_tree_ r)
  (compositor_context_ r) x (next_frame_callback_ r) (max_cache_bytes_ r)
  (user_override_resource_cache_bytes_ r) s (clock_reads r) (calls r).
Definition set_next_frame_callback x r := mkRasterizer (surface_ r) (last_layer_tree_ r) (resubmitted_layer_tree_ r)
  (compositor_context_ r) (gpu_thread_merger_ r) x (max_cache_bytes_ r)
  (user_override_resource_cache_bytes_ r) (queues_ r) (clock_reads r) (calls r).
Definition set_max_cache_bytes x user r := mkRasterizer (surface_ r) (last_layer_tree_ r) (resubmitted_layer_tree_ r)
  (compositor_context_ r) (gpu_thread_merger_ r) (next_frame_callback_ r) x user (queues_ r) (clock_reads r) (calls r).
Definition call (c : RasterCall) r := mkRasterizer (surface_ r) (last_layer_tree_ r) (resubmitted_layer_tree_ r)
  (compositor_context_ r) (gpu_thread_merger_ r) (next_frame_callback_ r) (max_cache_bytes_ r)
  (user_override_resource_cache_bytes_ r) (queues_ r) (clock_reads r) (calls r ++ [c]).
Definition call_if (b : bool) (c : RasterCall) r := if b then call c r else r.

(** [fml::TimePoint::Now]. *)
Context (clock : nat → TimePoint.t).
Definition Now (r : Rasterizer) : TimePoint.t * Rasterizer :=
  (clock (clock_reads r),
   mkRasterizer (surface_ r) (last_layer_tree_ r) (resubmitted_layer_tree_ r) (compositor_context_ r)
     (gpu_thread_merger_ r) (next_frame_callback_ r) (max_cache_bytes_ r)
     (user_override_resource_cache_bytes_ r) (queues_ r) (Datatypes.S (clock_reads r)) (calls r)).

(** ** Set up and resource limits *)

Definition SetResourceCacheMaxBytes (max_bytes : Z) (from_user : bool) (r : Rasterizer) : Rasterizer :=
  let user := user_override_resource_cache_bytes_ r || from_user in
  let r := set_max_cache_bytes (max_cache_bytes_ r) user r in
  if negb from_user && user then r
  else
    let r := set_max_cache_bytes (Some max_bytes) user r in
    match surface_ r with
    | None => r
    | Some s =>
        match GetContext s with
        | Some _ => set_surface (Some (set_limits (fst (resource_limits s), max_bytes) s)) r
        | None => r
        end
    end.

Definition GetResourceCacheMaxBytes (r : Rasterizer) : option Z :=
  s ← surface_ r; _ ← GetContext s; Some (snd (resource_limits s)).

Definition Setup (platform_id gpu_id : TaskQueueId) (surface : Surface) (r : Rasterizer) : result Rasterizer :=
  let r := set_surface (Some surface) r in
  let r := match max_cache_bytes_ r with
           | Some bytes => SetResourceCacheMaxBytes bytes (user_override_resource_cache_bytes_ r) r
           | None => r
           end in
  let r := set_compositor (OnGrContextCreated (compositor_context_ r)) r in
  match GetExternalViewEmbedder surface with
  | Some _ => m ← new_merger platform_id gpu_id (queues_ r); mret (set_merger (Some m) (queues_ r) r)
  | None => mret r
  end.

Definition Teardown (r : Rasterizer) : Rasterizer :=
  let r := set_compositor (OnGrContextDestroyed (compositor_context_ r)) r in
  set_last_layer_tree None (set_surface None r).

Definition NotifyLowMemoryWarning (r : Rasterizer) : Rasterizer :=
  match surface_ r with
  | None => r
  | Some s => match GetContext s with None => r | Some _ => call FreeGpuResources r end
  end.

(** ** Drawing *)

(** The callback that a next-frame callback sets while it runs. *)
Context (set_by_callback : Z → option Z).

Definition SetNextFrameCallback (callback : option Z) (r : Rasterizer) : Rasterizer :=
  set_next_frame_callback callback r.
Definition FireNextFrameCallbackIfPresent (r : Rasterizer) : Rasterizer :=
  match next_frame_callback_ r with
  | None => r
  | Some callback => call (NextFrameCallback callback) (set_next_frame_callback (set_by_callback callback) r)
  end.

Definition surface_scoped_frame (s : Surface) (frame : SurfaceFrame) : ScopedFrame S :=
  let embedder_root_canvas := e ← GetExternalViewEmbedder s; GetRootCanvas e in
  mkFrame_ (GetContext s)
    (match embedder_root_canvas with Some (c, _) => Some c | None => SkiaCanvas frame end)
    (match embedder_root_canvas with Some (_, cs) => cs | None => canvas_color_space frame end)
    (GetExternalViewEmbedder s)
    (match embedder_root_canvas with Some _ => matrix_identity | None => GetRootTransformation s end)
    true (supports_readback_ frame).

(** The frame is submitted whenever the tree was not refused; the compositor's
    frame ends and the surface's frame is dropped, if its submission failed,
    when the method returns. *)
Definition DrawToSurface (t : LayerTree) (r : Rasterizer) : result (RasterStatus * LayerTree * Rasterizer) :=
  _ ← fml_dcheck (bool_decide (is_Some (surface_ r)));
  s ← of_option NullDeref (surface_ r);
  match AcquireFrame s (frame_size_ t) with
  | None => mret (kFailed, t, r)
  | Some frame =>
      lap ← build_time t;
      let r := set_compositor (set_ui_time (SetLapTime lap (ui_time_ (compositor_context_ r))) (compositor_context_ r)) r in
      let embedder := bool_decide (is_Some (GetExternalViewEmbedder s)) in
      let r := call_if embedder (EmbedderBeginFrame (frame_size_ t)) r in
      let f := surface_scoped_frame s frame in
      let '(now, r) := Now r in
      o ← Raster makeImageSnapshot f t false (CompositorBeginFrame true now (compositor_context_ r))
            (gpu_thread_merger_ r) (queues_ r);
      let r := set_merger (out_merger o) (out_queues o) (set_compositor (out_compositor o) r) in
      let refused := bool_decide (out_status o = kFailed) in
      let r := if refused then r
               else
                 let r := call (FrameSubmitted (out_events o)) r in
                 let r := call_if embedder EmbedderSubmitFrame r in
                 let r := FireNextFrameCallbackIfPresent r in
                 call_if (bool_decide (is_Some (GetContext s))) DeferredCleanup r in
      let '(now, r) := Now r in
      c ← CompositorEndFrame true now (compositor_context_ r);
      let r := set_compositor c r in
      mret (out_status o, out_tree o, call_if (refused || negb (submit_callback_ frame)) FrameDropped r)
  end.

Definition DrawLastLayerTree (r : Rasterizer) : result Rasterizer :=
  match last_layer_tree_ r, surface_ r with
  | Some t, Some _ => '(_, t, r) ← DrawToSurface t r; mret (set_last_layer_tree (Some t) r)
  | _, _ => mret r
  end.

(** ** Screenshots *)

(** Serialized pictures, encoded images and their Base64 form are Skia's. *)
Context {SkData : Type}.
Context (serialize_picture : list (nat * Event) → option SkData).
Context (encode_image : SkSurface → list (nat * Event) → bool → option SkData).
Context (Base64Encode : SkData → SkData).
(** A null color space, and that of [SkColorSpace::MakeSRGB]. *)
Context (no_color_space MakeSRGB : SkColorSpace).

(** The frame of a screenshot on [canvas]: no embedder, no instrumentation. *)
Definition screenshot_frame (context : option GrContext) (canvas : Canvas) (cs : SkColorSpace) : ScopedFrame S :=
  mkFrame_ context (Some canvas) cs None matrix_identity false true.

Definition ScreenshotLayerTreeAsPicture (t : LayerTree) (r : Rasterizer)
    : result (option SkData * LayerTree * Rasterizer) :=
  let f := screenshot_frame None (new_canvas matrix_identity) no_color_space in
  o ← raster_frame makeImageSnapshot f t true 0 0 (compositor_context_ r) None (queues_ r);
  mret (serialize_picture (out_events o), out_tree o, set_compositor (out_compositor o) r).

Definition CreateSnapshotSurface (context : option GrContext) (size : Z * Z) : option SkSurface :=
  match context with
  | Some context => MakeRenderTarget context size.1 size.2 MakeSRGB
  | None => MakeRaster size.1 size.2 MakeSRGB
  end.

Definition ScreenshotLayerTreeAsImage (context : option GrContext) (compressed : bool) (t : LayerTree) (r : Rasterizer)
    : result (option SkData * LayerTree * Rasterizer) :=
  match CreateSnapshotSurface context (frame_size_ t) with
  | None => mret (None, t, r)
  | Some surface =>
      let canvas := new_canvas matrix_identity in
      let f := screenshot_frame context canvas MakeSRGB in
      o ← raster_frame makeImageSnapshot f t true 0 0 (compositor_context_ r) None (queues_ r);
      let events := ((0%nat,.) <$> (draw DrawClear canvas).2) ++ out_events o in
      mret (encode_image surface events compressed, out_tree o, set_compositor (out_compositor o) r)
  end.

(** [None] is the screenshot without data. *)
Definition ScreenshotLastLayerTree (type : ScreenshotType) (base64_encode : bool) (r : Rasterizer)
    : result (option (SkData * (Z * Z)) * Rasterizer) :=
  match last_layer_tree_ r with
  | None => mret (None, r)
  | Some t =>
      let context : option GrContext := s ← surface_ r; GetContext s in
      let shot : result (option SkData * LayerTree * Rasterizer) :=
        match type with
        | SkiaPicture => ScreenshotLayerTreeAsPicture t r
        | UncompressedImage => ScreenshotLayerTreeAsImage context false t r
        | CompressedImage => ScreenshotLayerTreeAsImage context true t r
        end in
      taken ← shot;
      let '(data, t, r) := (taken : option SkData * LayerTree * Rasterizer) in
      let r := set_last_layer_tree (Some t) r in
      mret ((λ data, (if base64_encode then Base64Encode data else data, frame_size_ t)) <$> data, r)
  end.

(** ** Frames from the pipeline *)

(** The persistent cache of shaders, which is global: whether pictures are
    dumped and whether the frame stored new shaders. *)
Record ShaderCache := mkShaders { IsDumpingSkp : bool; StoredNewShaders : bool }.

(** [on_gpu_runner] is [GetGPUTaskRunner()->RunsTasksOnCurrentThread()]. *)
Definition DoDraw (on_gpu_runner : bool) (shaders : ShaderCache) (layer_tree : option LayerTree) (r : Rasterizer)
    : result (RasterStatus * Rasterizer) :=
  _ ← fml_dcheck on_gpu_runner;
  match layer_tree, surface_ r with
  | Some t, Some _ =>
      let '(raster_start, r) := Now r in
      '(status, t', r) ← DrawToSurface t r;
      if bool_decide (status = kResubmit) then mret (status, set_resubmitted (Some t') r)
      else
        let r := if bool_decide (status = kSuccess) then set_last_layer_tree (Some t') r else r in
        r ← (if IsDumpingSkp shaders && StoredNewShaders shaders then
               '(screenshot, r) ← ScreenshotLastLayerTree SkiaPicture false r;
               _ ← of_option NullDeref screenshot;
               mret (call DumpSkp r)
             else mret r);
        let '(raster_finish, r) := Now r in
        let r := call (FrameRasterized (mkTiming (build_start_ t) (build_finish_ t) raster_start raster_finish)) r in
        match gpu_thread_merger_ r with
        | Some m =>
            '(lease, m, s) ← DecrementLease m (queues_ r);
            let r := set_merger (Some m) s r in
            mret (if bool_decide (lease = kUnmergedNow) then kEnqueuePipeline else status, r)
        | None => mret (status, r)
        end
  | _, _ => mret (kFailed, r)
  end.

(** [current_queue_id] is the queue of the calling thread. *)
Definition Draw (current_queue_id : TaskQueueId) (on_gpu_runner : bool) (shaders : ShaderCache)
    (pipeline : Pipeline (R := LayerTree)) (r : Rasterizer) : result (Pipeline (R := LayerTree) * Rasterizer) :=
  if match gpu_thread_merger_ r with Some m => negb (IsOnRasterizingThread current_queue_id m) | None => false end
  then mret (pipeline, r)
  else
    _ ← fml_dcheck on_gpu_runner;
    let consumer tree (w : result (RasterStatus * Rasterizer)) := w ← w; DoDraw on_gpu_runner shaders tree w.2 in
    '(consume_result, w, pipeline) ← Consume (Some consumer) (mret (kFailed, r)) pipeline;
    '(raster_status, r) ← (w : result (RasterStatus * Rasterizer));
    '(consume_result, pipeline, r) ←
      (match raster_status with
       | kResubmit =>
           let '(front_continuation, pipeline) := ProduceToFront pipeline in
           '(front_continuation, pipeline) ← Complete front_continuation (resubmitted_layer_tree_ r) pipeline;
           pipeline ← destroy_continuation front_continuation pipeline;
           mret (MoreAvailable, pipeline, set_resubmitted None r)
       | kEnqueuePipeline => mret (MoreAvailable, pipeline, r)
       | _ => mret (consume_result, pipeline, r)
       end);
    mret (pipeline, match consume_result with MoreAvailable => call PostDraw r | _ => r end).
End rasterizer.
