(* ===== verification/RasterizerProofs.v ===== *)
(** * RasterizerProofs: what a frame does

    In a release build, a frame whose tree could be built is drawn: the
    theorems say what the pipeline, the rasterizer and the merger look like
    after it, when the frame was painted and when the view embedder asked for
    it again because the threads had to be merged first. *)

From Stdlib Require Import ZArith Lia.
From stdpp Require Import base sorting gmap numbers list.
From S2P Require Import Prelude Time TaskQueues TaskQueuesSpec TaskQueuesFifo TaskQueuesPlay GpuThreadMerger Pipeline Instrumentation RasterCache RasterCacheProofs.
From S2P Require Import Layers IntGeometry LayersProofs LayersPaint LayersPaintProofs Compositor Rasterizer.

Local Open Scope Z_scope.
#[local] Set Default Proof Using "Type*".

Lemma tree_ok_skeleton `{cb : CacheBuild} `{sk : Skia} {ge : Geometry} l m : tree_ok (skeleton l) m = tree_ok l m.
Proof.
  revert m. induction l as [s nd ls IH] using layer_ind'. intros m. cbn. f_equal.
  - destruct nd; try done. cbn. destruct ls as [|[s1 n1 [|x ls1]] [|]]; try done; by destruct n1.
  - f_equal. induction IH as [|x xs Hx _ IH']; [done|]. cbn. by rewrite Hx, IH'.
Qed.

Section frame.
Context `{bd : Build} `{cb : CacheBuild} `{sk : Skia} {ge : Geometry} {tl : TranslateLaws} {S : Type}.
Context (snap : SkSurface → list CanvasOp → option SkImage).
Context (Hdebug : debug = false).

Lemma checkboard_drawable b k : cache_drawable k → cache_drawable (SetCheckboardCacheImages b k).
Proof. intros Hk. unfold SetCheckboardCacheImages. by case_match. Qed.

Lemma rtc_prepared_drawable k k' : rtc (prepared snap) k k' → cache_drawable k → cache_drawable k'.
Proof. induction 1; [done|]. eauto using prepared_drawable. Qed.

(** The embedder answers with one of its canvases. *)
Definition composites (e : Embedder S) : Prop :=
  ∀ vs id, ∃ i, CompositeEmbeddedView e vs id = Some i ∧ (i < Datatypes.S (length (GetCurrentCanvases e vs)))%nat.

Lemma paint_frame_returns f t root canvas needs_save_layer vs ignore c
    (Hroot : root_layer_ t = Some root) (Hshape : shaped root = true)
    (Hcanvas : frame_canvas f = Some canvas) (Hc : cache_drawable (raster_cache_ c))
    (He : ∀ e, frame_view_embedder f = Some e → composites e) :
  ∃ es, paint_frame f needs_save_layer vs t ignore c ⇓ (Some canvas, es).
Proof.
  unfold paint_frame. rewrite Hcanvas.
  set (overlays := match frame_view_embedder f with Some e => GetCurrentCanvases e vs | None => [] end).
  set (context := paint_context f vs t ignore c).
  assert (∀ cv, ∃ es, LayerTree_Paint context t cv overlays ⇓ (cv :: overlays, es)) as Hpaint.
  { intros cv. rewrite (layer_tree_paint context t root cv overlays Hroot Hshape).
    2:{ unfold context, overlays. cbn. intros composite id Hcomp.
        destruct (frame_view_embedder f) as [e|] eqn:Ee; [|done]. injection Hcomp as <-. by apply (He e). }
    destruct (layer_needs_painting root); [|by eexists].
    destruct (paint_ref_returns context root (env_of (cv :: overlays)) 0%nat) as [[es leaf] ->]; [|done|by eexists].
    intros cache. unfold context; cbn. destruct ignore; [done|]. by intros [= <-]. }
  destruct needs_save_layer; cbn [saveLayer draw].
  - match goal with |- context [LayerTree_Paint context t ?cv overlays] => destruct (Hpaint cv) as [es ->] end.
    cbn. destruct canvas. by eexists.
  - destruct (Hpaint canvas) as [es ->]. cbn. by eexists.
Qed.

(** What the embedder answers after the preroll. *)
Definition post_preroll (f : ScopedFrame S) (root : layer) (merger : option GpuThreadMerger) (s : S)
    : result (PostPrerollResult * option GpuThreadMerger * S) :=
  match frame_view_embedder f, merger with
  | Some e, Some m =>
      '(r, m, s) ← PostPrerollAction e (views root (root_surface_transformation_ f) kGiantRect []) m s; mret (r, Some m, s)
  | _, _ => mret (kPostPrerollSuccess, merger, s)
  end.

(** [t'] is what the preroll of [t] for the frame [f] leaves, and [drawn] is what
    painting [t'] draws, or nothing when the embedder asked for the frame
    again. *)
Definition rendering (answer : PostPrerollResult) (f : ScopedFrame S) (t t' : LayerTree) (drawn : list (nat * Event)) : Prop :=
  ∃ readback c cache' told,
    LayerTree_Preroll snap t (raster_cache_ c) (frame_gr_context f) ((λ _, []) <$> frame_view_embedder f)
      (frame_color_space f) (root_surface_transformation_ f) false ⇓ (readback, t', cache', told) ∧
    match answer with
    | kResubmitFrame => drawn = []
    | kPostPrerollSuccess =>
        ∃ canvas, paint_frame f (readback && negb (surface_supports_readback_ f)) (default [] told) t' false (set_cache cache' c)
                    ⇓ (canvas, drawn)
    end.

Definition status_of (r : PostPrerollResult) : RasterStatus :=
  match r with kResubmitFrame => kResubmit | kPostPrerollSuccess => kSuccess end.

Lemma raster_returns f t root canvas c merger s answer merger' s'
    (Hroot : root_layer_ t = Some root) (Hok : tree_ok root (root_surface_transformation_ f) = true)
    (Hcanvas : frame_canvas f = Some canvas) (Hc : cache_drawable (raster_cache_ c))
    (He : ∀ e, frame_view_embedder f = Some e → composites e)
    (Hpost : post_preroll f root merger s ⇓ (answer, merger', s')) :
  ∃ root' cache' es, skeleton root' = skeleton root ∧ cache_drawable cache' ∧
    Raster snap f t false c merger s ⇓
      mkOutcome (status_of answer) (set_root_layer (Some root') t) (set_cache cache' c) merger' s' (Some canvas) es ∧
    rendering answer f t (set_root_layer (Some root') t) es.
Proof.
  unfold Raster.
  destruct (layer_tree_preroll snap t root (root_surface_transformation_ f) (raster_cache_ c) (frame_gr_context f)
    ((λ _, []) <$> frame_view_embedder f) (frame_color_space f) false Hroot Hok)
    as (root' & cache' & Hpre & Hs & Hprep & _).
  rewrite Hpre. cbn [mbind result_bind].
  set (told := (λ old, old ++ views root (root_surface_transformation_ f) kGiantRect []) <$>
            ((λ _, []) <$> frame_view_embedder f)) in *.
  assert (default [] told =
          match frame_view_embedder f with
          | Some _ => views root (root_surface_transformation_ f) kGiantRect [] | None => [] end) as Htold
    by (unfold told; by destruct (frame_view_embedder f)).
  assert (cache_drawable cache') as Hd by (eapply rtc_prepared_drawable, checkboard_drawable, Hc; done).
  assert (shaped root' = true) as Hsh by (rewrite <- shaped_skeleton, Hs, shaped_skeleton; by eapply tree_ok_shaped).
  assert (∃ es,
    match answer with
    | kResubmitFrame =>
        mret (mkOutcome kResubmit (set_root_layer (Some root') t) (set_cache cache' c) merger' s' (frame_canvas f) [])
    | kPostPrerollSuccess =>
        '(canvas, es) ← paint_frame f (reads_back root kGiantRect && negb (surface_supports_readback_ f)) (default [] told)
                          (set_root_layer (Some root') t) false (set_cache cache' c);
        mret (mkOutcome kSuccess (set_root_layer (Some root') t) (set_cache cache' c) merger' s' canvas es)
    end ⇓ mkOutcome (status_of answer) (set_root_layer (Some root') t) (set_cache cache' c) merger' s' (Some canvas) es ∧
    rendering answer f t (set_root_layer (Some root') t) es) as (es & Hend & Hr).
  { unfold rendering. destruct answer.
    - rewrite Hcanvas. eexists. split; [done|]. by eexists _, c, cache', told.
    - destruct (paint_frame_returns f (set_root_layer (Some root') t) root' canvas
        (reads_back root kGiantRect && negb (surface_supports_readback_ f)) (default [] told) false (set_cache cache' c)) as [es Hp];
        [done..|]. rewrite Hp. eexists. split; [done|]. eexists _, c, cache', told. split; [done|]. by eexists. }
  exists root', cache', es. split; [done|]. split; [done|]. split; [|done]. rewrite <- Hend. unfold post_preroll in Hpost.
  destruct (frame_view_embedder f) as [e|]; [destruct merger as [m|]|]; try by injection Hpost as <- <- <-.
  rewrite Htold. destruct (PostPrerollAction e _ m s) as [[[a m2] s2]|]; [|done]. cbn [mbind result_bind] in Hpost |- *.
  by injection Hpost as -> <- <-.
Qed.
End frame.

Section rasterizer.
Context `{bd : Build} `{cb : CacheBuild} `{sk : Skia} {ge : Geometry} {tl : TranslateLaws} {S : Type} `{mq : MergeQueues S}.
Context (snap : SkSurface → list CanvasOp → option SkImage) (clock : nat → TimePoint.t) (set_by_callback : Z → option Z).
(** A release build, on a clock whose differences do not overflow. *)
Context (Hdebug : debug = false) (Hrelease : flutter_release = true).
Context (Hclock : ∀ i j, in_s 64 (clock i - clock j) = true).

Lemma sweep_release k : cache_drawable k → ∃ k', SweepAfterFrame k ⇓ k' ∧ cache_drawable k'.
Proof.
  intros [HP HL]. unfold SweepAfterFrame, TraceStatsToTimeline. rewrite Hrelease. cbn. eexists. split; [done|].
  assert (∀ c, Forall (λ ke, drawable (entry_image ke.2)) c →
    Forall (λ ke, drawable (entry_image ke.2)) (SweepOneCacheAfterFrame c)) as Hs.
  { intros c Hc. apply Forall_fmap, Forall_forall. intros x [_ Hx]%list_elem_of_filter.
    rewrite Forall_forall in Hc. by apply (Hc x). }
  split; cbn; by apply Hs.
Qed.

Lemma end_frame_release c i (Hc : cache_drawable (raster_cache_ c)) (Hw : start_ (raster_time_ c) = clock i) j :
  ∃ c', CompositorEndFrame true (clock j) c ⇓ c' ∧ cache_drawable (raster_cache_ c').
Proof.
  destruct (sweep_release _ Hc) as (k' & E & Hk). unfold CompositorEndFrame. rewrite E. cbn.
  unfold Stop. cbn. rewrite Hw. unfold TimePoint.diff. rewrite checked_s_in by apply Hclock. cbn. by eexists.
Qed.

(** Several calls at once. *)
Definition tell (cs : list RasterCall) (r : Rasterizer (S := S)) : Rasterizer :=
  mkRasterizer (surface_ r) (last_layer_tree_ r) (resubmitted_layer_tree_ r) (compositor_context_ r)
    (gpu_thread_merger_ r) (next_frame_callback_ r) (max_cache_bytes_ r)
    (user_override_resource_cache_bytes_ r) (queues_ r) (clock_reads r) (calls r ++ cs).

Lemma call_if_tell b c r : call_if b c r = tell (if b then [c] else []) r.
Proof. destruct b; [done|]. cbn. destruct r; unfold tell; cbn. by rewrite app_nil_r. Qed.

Lemma tell_tell a b r : tell a (tell b r) = tell (b ++ a) r.
Proof. unfold tell; cbn. by rewrite app_assoc. Qed.

(** A frame that can be drawn on the surface of the rasterizer. *)
Record frame_ok (r : Rasterizer (S := S)) (t : LayerTree) (root : layer) (s : Surface (S := S)) (frame : SurfaceFrame) : Prop := {
  fo_surface : surface_ r = Some s;
  fo_frame : AcquireFrame s (frame_size_ t) = Some frame;
  fo_canvas : is_Some (frame_canvas (surface_scoped_frame s frame));
  fo_root : root_layer_ t = Some root;
  fo_tree : tree_ok root (root_surface_transformation_ (surface_scoped_frame s frame)) = true;
  fo_embedder : ∀ e, GetExternalViewEmbedder s = Some e → composites e;
  fo_cache : cache_drawable (raster_cache_ (compositor_context_ r));
  fo_build : in_s 64 (build_finish_ t - build_start_ t) = true;
}.

(** What others are told while [t] is drawn to the surface. *)
Definition surface_calls (s : Surface (S := S)) (frame : SurfaceFrame) (t : LayerTree) (callback : option Z)
    (drawn : list (nat * Event)) : list RasterCall :=
  let embedder {A} (x : A) := if GetExternalViewEmbedder s is Some _ then [x] else [] in
  embedder (EmbedderBeginFrame (frame_size_ t)) ++ [FrameSubmitted drawn] ++ embedder EmbedderSubmitFrame ++
  (if callback is Some id then [NextFrameCallback id] else []) ++
  (if GetContext s is Some _ then [DeferredCleanup] else []) ++
  (if submit_callback_ frame then [] else [FrameDropped]).

Lemma surface_calls_submitted s frame t callback drawn : FrameSubmitted drawn ∈ surface_calls s frame t callback drawn.
Proof using Type. unfold surface_calls. rewrite !elem_of_app, list_elem_of_singleton. auto. Qed.

Definition callback_after (callback : option Z) : option Z := callback ≫= set_by_callback.

Lemma draw_to_surface r t root s frame answer merger' q' (Hf : frame_ok r t root s frame)
    (Hpost : post_preroll (surface_scoped_frame s frame) root (gpu_thread_merger_ r) (queues_ r) ⇓ (answer, merger', q')) :
  ∃ root' c' drawn, skeleton root' = skeleton root ∧ cache_drawable (raster_cache_ c') ∧
    rendering snap answer (surface_scoped_frame s frame) t (set_root_layer (Some root') t) drawn ∧
    DrawToSurface snap clock set_by_callback t r ⇓
      (status_of answer, set_root_layer (Some root') t,
       mkRasterizer (surface_ r) (last_layer_tree_ r) (resubmitted_layer_tree_ r) c' merger'
         (callback_after (next_frame_callback_ r)) (max_cache_bytes_ r) (user_override_resource_cache_bytes_ r) q'
         (2 + clock_reads r) (calls r ++ surface_calls s frame t (next_frame_callback_ r) drawn)).
Proof.
  destruct Hf as [Hs Ha [canvas Hcv] Hroot Htree He Hc Hb]. unfold DrawToSurface. rewrite Hs. cbn [of_option].
  unfold fml_dcheck. rewrite Hdebug. cbn [mbind result_bind]. rewrite Ha.
  unfold build_time, TimePoint.diff. rewrite checked_s_in by done. cbn [mbind result_bind]. rewrite call_if_tell.
  set (r1 := tell _ _). cbn [Now fst snd].
  match goal with |- context [Raster snap ?f t false ?c ?m ?q] =>
    destruct (raster_returns snap Hdebug f t root canvas c m q answer merger' q') as (root' & k' & es & Hsk & Hk & E & Hes);
    [done..|] end.
  rewrite E. cbn [mbind result_bind out_merger out_queues out_compositor out_status out_tree out_events].
  rewrite bool_decide_false by (by destruct answer). rewrite !call_if_tell.
  unfold FireNextFrameCallbackIfPresent. cbn [next_frame_callback_ set_merger set_compositor call tell r1].
  assert (∀ c n, raster_cache_ c = k' → start_ (raster_time_ c) = clock (clock_reads r) →
    ∃ c', CompositorEndFrame true (clock n) c ⇓ c' ∧ cache_drawable (raster_cache_ c')) as Hend
    by (intros c n <- Hst; by eapply end_frame_release).
  unfold surface_calls, callback_after.
  destruct (next_frame_callback_ r) as [id|], (GetContext s), (GetExternalViewEmbedder s), (submit_callback_ frame); cbn;
    match goal with |- context [CompositorEndFrame true (clock ?n) ?c] =>
      destruct (Hend c n eq_refl eq_refl) as (c' & -> & Hd') end;
    cbn; exists root', c', es; (split; [done|]); (split; [done|]); (split; [done|]);
    unfold tell, call, set_compositor; cbn; rewrite <- ?app_assoc, ?app_nil_r, ?Hs; done.
Qed.

(** ** One turn of the rasterizer *)

Context {SkData : Type} (serialize_picture : list (nat * Event) → option SkData).
Context (encode_image : SkSurface → list (nat * Event) → bool → option SkData) (Base64Encode : SkData → SkData).
Context (no_color_space MakeSRGB : SkColorSpace).
Local Abbreviation DoDraw := (DoDraw snap clock set_by_callback serialize_picture encode_image Base64Encode no_color_space MakeSRGB).
Local Abbreviation Draw := (Draw snap clock set_by_callback serialize_picture encode_image Base64Encode no_color_space MakeSRGB).

(** No picture is dumped in this frame. *)
Definition not_dumping (shaders : ShaderCache) : Prop := IsDumpingSkp shaders && StoredNewShaders shaders = false.

Context {ml : MergeQueuesLaws S} (pq gq : TaskQueueId).

(** The merger, if there is one, keeps the lease [a]. *)
Definition holds (a : lease) (merger : option GpuThreadMerger) (s : S) : Prop :=
  match merger with Some m => merger_related pq gq a m s | None => a = Split end.
Definition last_turn (a : lease) : bool := match a with Leased n => n =? 1 | Split => false end.

Lemma fresh_frame_ok r t root s frame n : frame_ok r t root s frame →
  frame_ok (mkRasterizer (surface_ r) (last_layer_tree_ r) (resubmitted_layer_tree_ r) (compositor_context_ r)
     (gpu_thread_merger_ r) (next_frame_callback_ r) (max_cache_bytes_ r)
     (user_override_resource_cache_bytes_ r) (queues_ r) n (calls r)) t root s frame.
Proof. by intros []. Qed.

Lemma do_draw_success r t root s frame merger' q' on shaders a (Hf : frame_ok r t root s frame) (Hnd : not_dumping shaders)
    (Hpost : post_preroll (surface_scoped_frame s frame) root (gpu_thread_merger_ r) (queues_ r)
               ⇓ (kPostPrerollSuccess, merger', q')) (Ha : holds a merger' q') :
  ∃ root' c' drawn timing m'' q'', skeleton root' = skeleton root ∧ cache_drawable (raster_cache_ c') ∧
    rendering snap kPostPrerollSuccess (surface_scoped_frame s frame) t (set_root_layer (Some root') t) drawn ∧
    kBuildStart timing = build_start_ t ∧ kBuildFinish timing = build_finish_ t ∧
    holds (lease_step DecrementLeaseC a).2 m'' q'' ∧
    DoDraw on shaders (Some t) r ⇓
      (if last_turn a then kEnqueuePipeline else kSuccess,
       mkRasterizer (surface_ r) (Some (set_root_layer (Some root') t)) (resubmitted_layer_tree_ r) c' m''
         (callback_after (next_frame_callback_ r)) (max_cache_bytes_ r) (user_override_resource_cache_bytes_ r) q''
         (4 + clock_reads r)
         (calls r ++ surface_calls s frame t (next_frame_callback_ r) drawn ++ [FrameRasterized timing])).
Proof.
  unfold Rasterizer.DoDraw, fml_dcheck. rewrite Hdebug, (fo_surface _ _ _ _ _ Hf). cbn [mbind result_bind Now].
  destruct (draw_to_surface _ t root s frame _ _ _ (fresh_frame_ok _ _ _ _ _ (Datatypes.S (clock_reads r)) Hf) Hpost)
    as (root' & c' & drawn & Hsk & Hk & Hren & E).
  rewrite E. cbn [mbind result_bind status_of surface_]. rewrite (fo_surface _ _ _ _ _ Hf).
  rewrite bool_decide_false, bool_decide_true by done. rewrite Hnd. cbn [mbind result_bind mret result_ret Now fst snd].
  exists root', c', drawn, (mkTiming (build_start_ t) (build_finish_ t) (clock (clock_reads r)) (clock (3 + clock_reads r))).
  cbn -[Nat.add DecrementLease surface_calls]. destruct merger' as [m|]; cbn in Ha.
  - destruct (DecrementLease_related pq gq a m q' Ha) as (res & m' & q'' & -> & Hres & Hm'). cbn -[Nat.add surface_calls].
    exists (Some m'), q''. do 5 (split; [done|]). split; [done|].
    assert (bool_decide (res = kUnmergedNow) = last_turn a) as ->.
    { destruct a as [|k]; cbn in Hres; [by injection Hres as <-|]. cbn. destruct (Z.eqb_spec k 1); by injection Hres as <-. }
    unfold call, set_merger; cbn -[Nat.add surface_calls]. by rewrite <- !app_assoc.
  - subst a. exists None, q'. do 6 (split; [done|]).
    unfold call; cbn -[Nat.add surface_calls]. by rewrite <- !app_assoc.
Qed.

Lemma do_draw_resubmit r t root s frame merger' q' on shaders (Hf : frame_ok r t root s frame)
    (Hpost : post_preroll (surface_scoped_frame s frame) root (gpu_thread_merger_ r) (queues_ r)
               ⇓ (kResubmitFrame, merger', q')) :
  ∃ root' c', skeleton root' = skeleton root ∧ cache_drawable (raster_cache_ c') ∧
    rendering snap kResubmitFrame (surface_scoped_frame s frame) t (set_root_layer (Some root') t) [] ∧
    DoDraw on shaders (Some t) r ⇓
      (kResubmit,
       mkRasterizer (surface_ r) (last_layer_tree_ r) (Some (set_root_layer (Some root') t)) c' merger'
         (callback_after (next_frame_callback_ r)) (max_cache_bytes_ r) (user_override_resource_cache_bytes_ r) q'
         (3 + clock_reads r) (calls r ++ surface_calls s frame t (next_frame_callback_ r) [])).
Proof.
  unfold Rasterizer.DoDraw, fml_dcheck. rewrite Hdebug, (fo_surface _ _ _ _ _ Hf). cbn [mbind result_bind Now].
  destruct (draw_to_surface _ t root s frame _ _ _ (fresh_frame_ok _ _ _ _ _ (Datatypes.S (clock_reads r)) Hf) Hpost)
    as (root' & c' & drawn & Hsk & Hk & Hren & E).
  assert (drawn = []) as -> by (by destruct Hren as (? & ? & ? & ? & _ & ->)).
  rewrite E. cbn [mbind result_bind status_of surface_]. rewrite (fo_surface _ _ _ _ _ Hf).
  exists root', c'. do 3 (split; [done|]). reflexivity.
Qed.

(** ** The pipeline around a turn *)

(** A frame is at the front of the pipeline, and its semaphores agree. *)
Record front (p : Pipeline (R := LayerTree)) (t : LayerTree) (rest : list (option LayerTree * Z)) : Prop := {
  fr_queue : ∃ id, queue_ p = (Some t, id) :: rest;
  fr_valid : valid_ (available_ p) = true;
  fr_available : sem_ (available_ p) = Z.of_nat (length rest) + 1;
  fr_depth : Z.of_nat (length rest) < depth_ p ≤ sem_value_max;
}.

Definition consumed (rest : list (option LayerTree * Z)) (p : Pipeline (R := LayerTree)) : Pipeline :=
  mkPipeline (depth_ p) (Signal (empty_ p)) (mkSem true (Z.of_nat (length rest))) (wrapS 32 (inflight_ p - 1)) rest
    (last_trace_id p).

Lemma consume_front p t rest {W} (f : option LayerTree → W → W) w (Hp : front p t rest) :
  Consume (Some f) w p ⇓
    (if (0 <? length rest)%nat then MoreAvailable else Done, f (Some t) w, consumed rest p).
Proof.
  destruct Hp as [[id Hq] Hv Ha _]. unfold Consume, consume_acquire, TryWait. rewrite Hv, Ha. cbn [negb].
  rewrite (proj2 (Z.ltb_lt 0 _)) by lia. cbn [negb]. unfold consume_pop. cbn. rewrite Hq. cbn.
  unfold consume_finish, consumed; cbn. by rewrite Z.add_simpl_r.
Qed.

Lemma resubmit_front p t t' rest (Hp : front p t rest) :
  ∃ k p' k' p'', ProduceToFront (consumed rest p) = (k, p') ∧ Complete k (Some t') p' ⇓ (k', p'') ∧
    destroy_continuation k' p'' ⇓ p'' ∧ front p'' t' rest ∧ empty_ p'' = Signal (empty_ p).
Proof.
  destruct Hp as [_ _ _ Hd]. unfold sem_value_max in Hd.
  assert (∀ id, commit_push_front (Some t') id (with_trace_id id (consumed rest p)) ⇓
    with_queue ((Some t', id) :: rest) (with_trace_id id (consumed rest p))) as Hpush.
  { intros id. rewrite commit_push_front_eq by (cbn; lia). cbn.
    destruct (Z.to_nat (depth_ p)) as [|n] eqn:En; [lia|]. cbn. rewrite take_ge by lia. done. }
  unfold ProduceToFront, GetNextPipelineTraceID, Complete, run_continuation, ProducerCommitFront. cbn [continuation_ trace_id_].
  eexists _, _, _, _. split; [done|]. cbn [continuation_ trace_id_]. rewrite Hpush. cbn [mbind result_bind mret result_ret].
  split; [done|]. split; [done|]. split; [|done].
  assert (Signal (mkSem true (Z.of_nat (length rest))) = mkSem true (Z.of_nat (length rest) + 1)) as HS
    by (apply Signal_below; cbn; unfold sem_value_max; lia).
  split; cbn -[Signal]; rewrite ?HS; cbn; first [done|by eexists|unfold sem_value_max; lia].
Qed.

(** The caller is on the thread that rasterizes. *)
Definition on_turn (q : TaskQueueId) (r : Rasterizer (S := S)) : Prop :=
  match gpu_thread_merger_ r with Some m => IsOnRasterizingThread q m = true | None => True end.

Lemma draw_unfold q on shaders p r t rest (Hq : on_turn q r) (Hp : front p t rest) :
  Draw q on shaders p r =
    ('(status, r) ← DoDraw on shaders (Some t) r;
     '(more, p, r) ←
       (match status with
        | kResubmit =>
            let '(k, p) := ProduceToFront (consumed rest p) in
            '(k, p) ← Complete k (resubmitted_layer_tree_ r) p;
            p ← destroy_continuation k p; mret (MoreAvailable, p, set_resubmitted None r)
        | kEnqueuePipeline => mret (MoreAvailable, consumed rest p, r)
        | _ => mret (if (0 <? length rest)%nat then MoreAvailable else Done, consumed rest p, r)
        end);
     mret (p, match more with MoreAvailable => call PostDraw r | _ => r end)).
Proof.
  unfold Rasterizer.Draw. unfold on_turn in Hq.
  assert ((match gpu_thread_merger_ r with Some m => negb (IsOnRasterizingThread q m) | None => false end) = false) as ->
    by (destruct (gpu_thread_merger_ r); [by rewrite Hq|done]).
  unfold fml_dcheck at 1. rewrite Hdebug. cbn [mbind result_bind]. rewrite (consume_front p t rest) by done.
  cbn [mbind result_bind mret result_ret fst snd]. done.
Qed.

Lemma draw_success q on shaders p r t rest root s frame merger' q' a
    (Hq : on_turn q r) (Hp : front p t rest) (Hf : frame_ok r t root s frame) (Hnd : not_dumping shaders)
    (Hpost : post_preroll (surface_scoped_frame s frame) root (gpu_thread_merger_ r) (queues_ r)
               ⇓ (kPostPrerollSuccess, merger', q')) (Ha : holds a merger' q') :
  ∃ root' drawn timing r', skeleton root' = skeleton root ∧
    rendering snap kPostPrerollSuccess (surface_scoped_frame s frame) t (set_root_layer (Some root') t) drawn ∧
    kBuildStart timing = build_start_ t ∧ kBuildFinish timing = build_finish_ t ∧
    Draw q on shaders p r ⇓ (consumed rest p, r') ∧
    last_layer_tree_ r' = Some (set_root_layer (Some root') t) ∧
    resubmitted_layer_tree_ r' = resubmitted_layer_tree_ r ∧
    next_frame_callback_ r' = callback_after (next_frame_callback_ r) ∧
    holds (lease_step DecrementLeaseC a).2 (gpu_thread_merger_ r') (queues_ r') ∧
    calls r' = calls r ++ surface_calls s frame t (next_frame_callback_ r) drawn ++ [FrameRasterized timing] ++
                 (if negb (bool_decide (rest = [])) || last_turn a then [PostDraw] else []).
Proof.
  destruct (do_draw_success r t root s frame merger' q' on shaders a Hf Hnd Hpost Ha)
    as (root' & c' & drawn & timing & m'' & q'' & Hsk & _ & Hren & Ht1 & Ht2 & Hm & E).
  rewrite (draw_unfold _ _ _ _ _ _ _ Hq Hp), E. exists root', drawn, timing.
  destruct (last_turn a); [|destruct rest as [|x rest]]; cbn [mbind result_bind mret result_ret length Nat.ltb Nat.leb];
    eexists; do 4 (split; [done|]); (split; [done|]); cbn -[surface_calls]; rewrite ?orb_true_r; cbn -[surface_calls];
    rewrite <- ?app_assoc, ?app_nil_r; done.
Qed.

Lemma draw_resubmit q on shaders p r t rest root s frame merger' q'
    (Hq : on_turn q r) (Hp : front p t rest) (Hf : frame_ok r t root s frame)
    (Hpost : post_preroll (surface_scoped_frame s frame) root (gpu_thread_merger_ r) (queues_ r)
               ⇓ (kResubmitFrame, merger', q')) :
  ∃ root' p' r', skeleton root' = skeleton root ∧
    rendering snap kResubmitFrame (surface_scoped_frame s frame) t (set_root_layer (Some root') t) [] ∧
    Draw q on shaders p r ⇓ (p', r') ∧ front p' (set_root_layer (Some root') t) rest ∧
    surface_ r' = surface_ r ∧ last_layer_tree_ r' = last_layer_tree_ r ∧ gpu_thread_merger_ r' = merger' ∧ queues_ r' = q' ∧
    cache_drawable (raster_cache_ (compositor_context_ r')) ∧
    calls r' = calls r ++ surface_calls s frame t (next_frame_callback_ r) [] ++ [PostDraw].
Proof.
  destruct (do_draw_resubmit r t root s frame merger' q' on shaders Hf Hpost) as (root' & c' & Hsk & Hk & Hren & E).
  rewrite (draw_unfold _ _ _ _ _ _ _ Hq Hp), E. cbn [mbind result_bind resubmitted_layer_tree_].
  destruct (resubmit_front p t (set_root_layer (Some root') t) rest Hp) as (k & p1 & k' & p2 & -> & E1 & E2 & Hp2 & _).
  rewrite E1. cbn [mbind result_bind]. rewrite E2. cbn [mbind result_bind mret result_ret].
  exists root', p2. eexists. do 9 (split; [done|]). cbn -[surface_calls]. by rewrite <- app_assoc.
Qed.

(** ** Claims *)

(** C26: A frame at the front of the pipeline is drawn.  In a release build, on
    a clock that does not overflow, let the thread that rasterizes call [Draw]
    while the surface has a frame and a canvas for the tree, the tree can be
    prerolled ([tree_ok]: finite matrices and a child under every opacity
    layer), the cached images can be drawn, no picture is dumped for new
    shaders, and the embedder lets the frame through.  Then the frame leaves
    the pipeline and its slot is returned; the tree its preroll leaves, with
    the same layers, becomes the last layer tree, and what painting that tree
    draws is what the surface is given; the next-frame callback has run once
    and what it set is the next one; the lease of the merged threads went down
    by one; the surface, the embedder and the delegate were called in the order
    of the code; and [Draw] was posted again if frames are left or this turn
    ended the lease, and otherwise not. *)
Theorem frame_rasterized q on shaders p r t rest root s frame merger' q' a
    (Hq : on_turn q r) (Hp : front p t rest) (Hf : frame_ok r t root s frame) (Hnd : not_dumping shaders)
    (Hpost : post_preroll (surface_scoped_frame s frame) root (gpu_thread_merger_ r) (queues_ r)
               ⇓ (kPostPrerollSuccess, merger', q')) (Ha : holds a merger' q') :
  ∃ root' drawn timing r', skeleton root' = skeleton root ∧
    rendering snap kPostPrerollSuccess (surface_scoped_frame s frame) t (set_root_layer (Some root') t) drawn ∧
    kBuildStart timing = build_start_ t ∧ kBuildFinish timing = build_finish_ t ∧
    Draw q on shaders p r ⇓ (consumed rest p, r') ∧
    last_layer_tree_ r' = Some (set_root_layer (Some root') t) ∧
    resubmitted_layer_tree_ r' = resubmitted_layer_tree_ r ∧
    next_frame_callback_ r' = callback_after (next_frame_callback_ r) ∧
    holds (lease_step DecrementLeaseC a).2 (gpu_thread_merger_ r') (queues_ r') ∧
    calls r' = calls r ++ surface_calls s frame t (next_frame_callback_ r) drawn ++ [FrameRasterized timing] ++
                 (if negb (bool_decide (rest = [])) || last_turn a then [PostDraw] else []).
Proof. exact (draw_success q on shaders p r t rest root s frame merger' q' a Hq Hp Hf Hnd Hpost Ha). Qed.

Lemma rasterizing_thread a m (q : S) (Hm : merger_related pq gq a m q) :
  IsOnRasterizingThread (if leased a then pq else gq) m = true ∧ IsOnRasterizingThread (if leased a then gq else pq) m = false.
Proof.
  unfold IsOnRasterizingThread. destruct Hm as (-> & -> & Hm). destruct a; cbn.
  - destruct Hm as [-> Hd%apart_distinct]. lia.
  - destruct Hm as (-> & _ & _ & Hd%paired_distinct). lia.
Qed.
End rasterizer.

(** ** Frames with platform views *)

Section platform_views.
Context `{bd : Build} `{cb : CacheBuild} `{sk : Skia} {ge : Geometry} {tl : TranslateLaws} {eq : SkiaEquality}.
Context {Q : Type} `{mq : MergeQueues Q}.
Context (snap : SkSurface → list CanvasOp → option SkImage) (clock : nat → TimePoint.t) (set_by_callback : Z → option Z).
Context (Hdebug : debug = false) (Hrelease : flutter_release = true).
Context (Hclock : ∀ i j, in_s 64 (clock i - clock j) = true).
Context {SkData : Type} (serialize_picture : list (nat * Event) → option SkData).
Context (encode_image : SkSurface → list (nat * Event) → bool → option SkData) (Base64Encode : SkData → SkData).
Context (no_color_space MakeSRGB : SkColorSpace).
Local Abbreviation Draw := (Draw snap clock set_by_callback serialize_picture encode_image Base64Encode no_color_space MakeSRGB).
Context {ml : MergeQueuesLaws Q} (pq gq : TaskQueueId).

(** On merged threads the controller lets every frame through. *)
Lemma merged_post_preroll vs m (s : PlatformViews * Q) n (Hn : kDefaultMergedLeaseDuration ≤ n)
    (Hm : merger_related pq gq (Leased n) m s) :
  ∃ m' s', PlatformViewsPostPreroll vs m s ⇓ (kPostPrerollSuccess, m', s') ∧ merger_related pq gq (Leased n) m' s'.
Proof using ml.
  unfold PlatformViewsPostPreroll, PlatformViews_PostPrerollAction, IsMerged. destruct Hm as (Hp & Hg & Hmd & Hr). rewrite Hmd.
  destruct (HasPendingViewOperations _); [|by exists m; eexists].
  destruct (ExtendLeaseTo_related pq gq (Leased n) m s kDefaultMergedLeaseDuration) as (m' & -> & Hm'); [done|done|].
  exists m'. eexists. split; [done|]. cbn [lease_step snd] in Hm'. by rewrite Z.max_l in Hm' by done.
Qed.

(** On threads that are apart it merges them when operations are pending, and
    forgets the order of the views of the frame. *)
Lemma split_post_preroll vs m (s : PlatformViews * Q)
    (Hpend : HasPendingViewOperations (foldl PlatformViews_PrerollCompositeEmbeddedView s.1 vs) = true)
    (Hm : merger_related pq gq Split m s) :
  ∃ m' s', PlatformViewsPostPreroll vs m s ⇓ (kResubmitFrame, m', s') ∧
    merger_related pq gq (Leased kDefaultMergedLeaseDuration) m' s' ∧ pv_composition_order_ s'.1 = [].
Proof using ml.
  unfold PlatformViewsPostPreroll, PlatformViews_PostPrerollAction, IsMerged. rewrite Hpend.
  destruct (MergeWithLease_related (S := Q) pq gq Split m s.2 kDefaultMergedLeaseDuration Hm) as (m' & q' & E & Hm'); [done|].
  destruct Hm as (_ & _ & -> & _). rewrite E. exists m'. eexists. split; [done|]. by split.
Qed.

(** Something else happened to the views between two turns. *)
Definition with_views (c : PlatformViews) (r : Rasterizer (S := PlatformViews * Q)) : Rasterizer :=
  set_merger (gpu_thread_merger_ r) (c, (queues_ r).2) r.

(** C27: On iOS, a frame that changes platform views while the threads are
    apart is drawn in two turns, in a release build, when the frame is one that
    can be drawn ([frame_ok]: a surface frame with a canvas, a tree that can be
    prerolled) and no picture is dumped.  The first turn, on the GPU thread,
    merges the threads for [kDefaultMergedLeaseDuration] frames, puts the frame
    back at the front without touching the last layer tree, cancels the order
    of the views and posts [Draw] again; a further turn of the GPU thread only
    yields; and the next turn of the platform thread, whatever the controller
    of the views has become by then, draws the frame and tells the delegate:
    the tree its preroll leaves becomes the last layer tree, what painting it
    draws is what the surface is given, and one frame less is left on the
    lease. *)
Theorem merge_then_draw on shaders p r t rest root s frame e m
    (Hp : front p t rest) (Hf : frame_ok r t root s frame) (Hnd : not_dumping shaders)
    (He : GetExternalViewEmbedder s = Some e) (Hpre : PostPrerollAction e = PlatformViewsPostPreroll)
    (Hpend : HasPendingViewOperations (foldl PlatformViews_PrerollCompositeEmbeddedView (queues_ r).1
               (views root (root_surface_transformation_ (surface_scoped_frame s frame)) kGiantRect [])) = true)
    (Hm : gpu_thread_merger_ r = Some m) (Hsplit : merger_related pq gq Split m (queues_ r)) :
  ∃ p1 r1 root1,
    Draw gq on shaders p r ⇓ (p1, r1) ∧ front p1 (set_root_layer (Some root1) t) rest ∧
    last_layer_tree_ r1 = last_layer_tree_ r ∧
    holds pq gq (Leased kDefaultMergedLeaseDuration) (gpu_thread_merger_ r1) (queues_ r1) ∧
    pv_composition_order_ (queues_ r1).1 = [] ∧ last (calls r1) = Some PostDraw ∧
    Draw gq on shaders p1 r1 ⇓ (p1, r1) ∧
    ∀ c, ∃ root2 drawn timing p2 r2,
      Draw pq on shaders p1 (with_views c r1) ⇓ (p2, r2) ∧ queue_ p2 = rest ∧
      rendering snap kPostPrerollSuccess (surface_scoped_frame s frame) (set_root_layer (Some root1) t)
        (set_root_layer (Some root2) t) drawn ∧
      last_layer_tree_ r2 = Some (set_root_layer (Some root2) t) ∧ skeleton root2 = skeleton root ∧
      FrameSubmitted drawn ∈ calls r2 ∧ FrameRasterized timing ∈ calls r2 ∧
      holds pq gq (Leased (kDefaultMergedLeaseDuration - 1)) (gpu_thread_merger_ r2) (queues_ r2).
Proof.
  destruct (split_post_preroll _ m (queues_ r) Hpend Hsplit) as (m1 & s1 & Em & Hm1 & Hcancel).
  pose proof (rasterizing_thread pq gq _ _ _ Hsplit) as [Hg _]. pose proof (rasterizing_thread pq gq _ _ _ Hm1) as [Hp1 Hg1].
  cbn in Hg, Hp1, Hg1.
  edestruct (draw_resubmit snap clock set_by_callback Hdebug Hrelease Hclock serialize_picture encode_image Base64Encode no_color_space MakeSRGB
    gq on shaders p r t rest root s frame (Some m1) s1) as
    (root1 & p1 & r1 & Hs1 & _ & E1 & F1 & Hsurf & Hlast & Hmer & Hqs & Hc1 & Hcalls); [|done|done| |].
  { unfold on_turn. by rewrite Hm. }
  { unfold post_preroll. cbn [frame_view_embedder surface_scoped_frame]. rewrite He, Hm, Hpre. by rewrite Em. }
  assert (∀ c, frame_ok (with_views c r1) (set_root_layer (Some root1) t) root1 s frame) as Hf1.
  { intros c. destruct Hf. split; cbn; rewrite ?Hsurf; try done. by rewrite <- tree_ok_skeleton, Hs1, tree_ok_skeleton. }
  exists p1, r1, root1. do 3 (split; [done|]). split; [by rewrite Hmer, Hqs|]. split; [by rewrite Hqs|].
  split; [by rewrite Hcalls, app_assoc, last_snoc|]. split; [unfold Rasterizer.Draw; by rewrite Hmer, Hg1|]. intros c.
  destruct (merged_post_preroll (views root1 (root_surface_transformation_ (surface_scoped_frame s frame)) kGiantRect [])
              m1 (c, s1.2) kDefaultMergedLeaseDuration ltac:(done) Hm1) as (m2 & s2 & E2 & Hm2).
  edestruct (draw_success snap clock set_by_callback Hdebug Hrelease Hclock serialize_picture encode_image Base64Encode no_color_space MakeSRGB
    pq gq pq on shaders p1 (with_views c r1) (set_root_layer (Some root1) t) rest root1 s frame (Some m2) s2
    (Leased kDefaultMergedLeaseDuration)) as (root2 & drawn & timing & r2 & Hs2 & Hren & _ & _ & E3 & Hl2 & _ & _ & Hh2 & Hcs);
    [|done|done|done| |done|].
  { unfold on_turn. cbn. by rewrite Hmer. }
  { unfold post_preroll. cbn [frame_view_embedder surface_scoped_frame with_views gpu_thread_merger_ queues_ set_merger].
    rewrite He, Hmer, Hpre, Hqs. by rewrite E2. }
  exists root2, drawn, timing, (consumed rest p1), r2. do 4 (split; [done|]). split; [congruence|].
  rewrite Hcs. split; [apply elem_of_app; right; apply elem_of_app; left; apply surface_calls_submitted|]. split; [|exact Hh2].
  do 2 (apply elem_of_app; right). apply elem_of_app. left. by apply list_elem_of_singleton.
Qed.
End platform_views.

(** ** Concrete frames *)

#[local] Existing Instances int_skia int_geometry.
Definition release_build : Build := {| debug := false |}.
Definition release_cache : CacheBuild := {| fractional_translation := false; flutter_release := true |}.
#[local] Existing Instances release_build release_cache.

Definition ticking (i : nat) : TimePoint.t := Z.of_nat (i `mod` 16).
Lemma ticking_fits i j : in_s 64 (ticking i - ticking j) = true.
Proof.
  unfold ticking, in_s. pose proof (Nat.mod_upper_bound i 16). pose proof (Nat.mod_upper_bound j 16). lia.
Qed.

(** An embedder that paints everything on the canvas of the surface. *)
Definition scene_embedder {S} post : Embedder S := mkEmbedder None post (λ _, []) (λ _ _, Some 0%nat).
Definition scene_frame : SurfaceFrame := mkSurfaceFrame (Some blank) tt false true.
Definition scene_surface {S} post : Surface (S := S) :=
  mkSurface None (Some (scene_embedder post)) (mkI 1 0 0) (λ _, Some scene_frame) (0, 0).

Definition scene_rasterizer {S} post (m : GpuThreadMerger) (s : S) : Rasterizer :=
  mkRasterizer (Some (scene_surface post)) None None (new_compositor 0 0) (Some m) (Some 7) None false s 0 [].
Definition scene_pipeline : Pipeline := mkPipeline 2 (mkSem true 1) (mkSem true 1) 1 [(Some (tree_of scene), 1)] 1.

(** One that has nothing to do before the frame, and the controller of iOS. *)
Definition nothing_to_do (views : list (Z * EmbeddedViewParams)) (m : GpuThreadMerger) (s : Queues)
    : result (PostPrerollResult * GpuThreadMerger * Queues) := mret (kPostPrerollSuccess, m, s).
Definition int_equality : SkiaEquality := {|
  scalar_eqb := Z.eqb; rect_eqb a b := (left_ a =? left_ b) && (top_ a =? top_ b) && (right_ a =? right_ b) && (bottom_ a =? bottom_ b);
  rrect_eqb a b := (left_ a =? left_ b) && (top_ a =? top_ b) && (right_ a =? right_ b) && (bottom_ a =? bottom_ b);
  path_eqb a b := (left_ a =? left_ b) && (top_ a =? top_ b) && (right_ a =? right_ b) && (bottom_ a =? bottom_ b);
|}.
#[local] Existing Instance int_equality.
Definition views_surface : Surface (S := PlatformViews * Queues) := scene_surface (PlatformViewsPostPreroll (S := Queues)).
Definition scene_views : Rasterizer (S := PlatformViews * Queues) :=
  scene_rasterizer (PlatformViewsPostPreroll (S := Queues)) split_merger (no_platform_views, played two_loops).

Lemma scene_front : front scene_pipeline (tree_of scene) [].
Proof. split; cbn; [by eexists|done|done|unfold sem_value_max; lia]. Qed.

Lemma scene_frame_ok {S} post m (s : S) :
  frame_ok (scene_rasterizer post m s) (tree_of scene) scene (scene_surface post) scene_frame.
Proof.
  split; try reflexivity; cbn; [by eexists| |by split].
  intros e [= <-] vs id. exists 0%nat. split; [done|cbn; lia].
Qed.

Lemma played_here cs n s : play cs 0 new_queues = Some (n, s) → reachable s.
Proof. intros Hp. apply (reachable_n_reachable n), (play_reachable cs 0 new_queues); [constructor|done]. Qed.

Lemma two_queues_apart : merger_related 0 1 Split split_merger (played two_loops).
Proof.
  do 3 (split; [done|]). split; [apply (played_here two_loops 2); by vm_compute|]. split; [done|]. split; by vm_compute.
Qed.

Lemma two_queues_paired : merger_related 0 1 (Leased 1) (mkMerger 0 1 1 true) (played merged_loops).
Proof.
  do 5 (split; [done|]). split; [apply (played_here merged_loops 2); by vm_compute|]. split; [done|]. split; by vm_compute.
Qed.

Abbreviation DrawScene set_by_callback :=
  (Draw int_snapshot ticking set_by_callback (λ _, Some tt) (λ _ _ _, Some tt) id tt tt).

(** The views of the scene are new. *)
Lemma scene_pending :
  HasPendingViewOperations (foldl PlatformViews_PrerollCompositeEmbeddedView no_platform_views
    (views scene (root_surface_transformation_ (surface_scoped_frame views_surface scene_frame))
       kGiantRect [])) = true.
Proof. vm_compute. reflexivity. Qed.

Lemma merge_then_draw_witness : ∃ p1 r1,
  DrawScene (λ _, None) 1 true (mkShaders false false) scene_pipeline scene_views ⇓ (p1, r1) ∧
  last_layer_tree_ r1 = None ∧ last (calls r1) = Some PostDraw ∧
  ∃ p2 r2, DrawScene (λ _, None) 0 true (mkShaders false false) p1 (with_views no_platform_views r1) ⇓ (p2, r2) ∧
    queue_ p2 = [] ∧ is_Some (last_layer_tree_ r2).
Proof.
  destruct (@merge_then_draw release_build release_cache int_skia int_geometry int_translate int_equality Queues registry_merge_queues
    int_snapshot ticking (λ _, None) eq_refl eq_refl ticking_fits unit (λ _, Some tt) (λ _ _ _, Some tt) id tt tt
    registry_merge_laws 0 1 true (mkShaders false false) scene_pipeline
    scene_views (tree_of scene) [] scene views_surface scene_frame
    (scene_embedder (PlatformViewsPostPreroll (S := Queues))) split_merger
    scene_front (scene_frame_ok _ _ _) eq_refl eq_refl eq_refl scene_pending eq_refl two_queues_apart)
    as (p1 & r1 & root1 & E1 & _ & Hl & _ & _ & Hpost & _ & Hdraw).
  destruct (Hdraw no_platform_views) as (root2 & drawn & timing & p2 & r2 & E2 & Hq & _ & Hl2 & _).
  exists p1, r1. split; [exact E1|]. split; [exact Hl|]. split; [exact Hpost|]. exists p2, r2.
  split; [exact E2|]. split; [exact Hq|]. rewrite Hl2. by eexists.
Defined.

(** The last frame of a lease, with a callback that sets another one. *)
Lemma frame_rasterized_witness : ∃ r',
  DrawScene (λ id, Some (id + 1)) 0 true (mkShaders false false) scene_pipeline
    (scene_rasterizer nothing_to_do (mkMerger 0 1 1 true) (played merged_loops)) ⇓ (consumed [] scene_pipeline, r') ∧
  next_frame_callback_ r' = Some 8 ∧ last (calls r') = Some PostDraw.
Proof.
  destruct (@frame_rasterized release_build release_cache int_skia int_geometry int_translate Queues registry_merge_queues
    int_snapshot ticking (λ id, Some (id + 1)) eq_refl eq_refl ticking_fits unit (λ _, Some tt) (λ _ _ _, Some tt) id tt tt
    registry_merge_laws 0 1 0 true (mkShaders false false) scene_pipeline
    (scene_rasterizer nothing_to_do (mkMerger 0 1 1 true) (played merged_loops))
    (tree_of scene) [] scene (scene_surface nothing_to_do) scene_frame (Some (mkMerger 0 1 1 true)) (played merged_loops) (Leased 1)
    eq_refl scene_front (scene_frame_ok _ _ _) eq_refl eq_refl two_queues_paired)
    as (root' & drawn & timing & r' & _ & _ & _ & _ & E & _ & _ & Hcb & _ & Hc).
  exists r'. split; [exact E|]. split; [exact Hcb|]. rewrite Hc. cbn -[surface_calls]. by rewrite !last_app.
Defined.

(** The next-frame callback runs, and is dropped, in the turn that only asks
    for the frame again: nothing has been rendered yet.  The surface and the
    embedder are told to submit that frame too. *)
Theorem resubmit_fires_callback : ∃ p' r',
  DrawScene (λ _, None) 1 true (mkShaders false false) scene_pipeline scene_views ⇓ (p', r') ∧
  last_layer_tree_ r' = None ∧ next_frame_callback_ scene_views = Some 7 ∧
  NextFrameCallback 7 ∈ calls r' ∧ FrameSubmitted [] ∈ calls r' ∧ EmbedderSubmitFrame ∈ calls r'.
Proof.
  destruct (split_post_preroll 0 1 _ split_merger (no_platform_views, played two_loops) scene_pending two_queues_apart)
    as (m1 & s1 & Em & _).
  destruct (@draw_resubmit release_build release_cache int_skia int_geometry int_translate (PlatformViews * Queues) _
    int_snapshot ticking (λ _, None) eq_refl eq_refl ticking_fits unit (λ _, Some tt) (λ _ _ _, Some tt) id tt tt
    _ 1 true (mkShaders false false) scene_pipeline scene_views
    (tree_of scene) [] scene views_surface scene_frame (Some m1) s1)
    as (root' & p' & r' & _ & _ & E & _ & _ & Hl & _ & _ & _ & Hc);
    [done|apply scene_front|apply scene_frame_ok| |].
  { unfold post_preroll. cbn [frame_view_embedder surface_scoped_frame views_surface scene_surface GetExternalViewEmbedder
      PostPrerollAction scene_embedder scene_views scene_rasterizer gpu_thread_merger_ queues_].
    unfold views_surface in Em. cbn -[PlatformViewsPostPreroll played views] in Em |- *. by rewrite Em. }
  exists p', r'. split; [exact E|]. split; [done|]. split; [done|]. rewrite Hc. cbn -[tree_of].
  split_and!; repeat first [apply list_elem_of_here|apply list_elem_of_further].
Qed.

(** A first frame that no surface frame could be acquired for, while shaders
    are dumped and another thread stored a new one: the picture to dump does
    not exist and is dereferenced. *)
Theorem dump_without_screenshot on :
  let s := mkSurface None None (mkI 1 0 0) (λ _, None) (0, 0) in
  let r := set_surface (Some s) (new_rasterizer (new_compositor 0 0) (played two_loops)) in
  DoDraw int_snapshot ticking (λ _, None) (λ _, Some tt) (λ _ _ _, Some tt) id tt tt
    on (mkShaders true true) (Some (tree_of scene)) r ⇑ NullDeref.
Proof. reflexivity. Qed.
