(* ===== verification/SceneBuilder.v ===== *)
(** * SceneBuilder: from the framework's calls to a layer tree

    Model of [SceneBuilder] and [Scene] (lib/ui/compositing/scene_builder.cc,
    scene.cc) and of [ToSkMatrix] (lib/ui/painting/matrix.cc).  The builder
    works on layers it shares with the framework: a layer is added to its
    parent when it is pushed, grows while it is open, and may be retained and
    added again in a later frame.  So layers are objects on a heap here, and a
    scene is the address of its root; [read_layer] follows the addresses. *)

From Stdlib Require Import ZArith Lia.
From stdpp Require Import base sorting gmap numbers list strings.
From S2P Require Import Prelude RasterCache Layers LayersPaint.

Local Open Scope Z_scope.

(** ** Matrices *)

Section matrix.
Context `{bd : Build}.
(** Conversions between [double] and [SkScalar], and Skia's nine scalars. *)
Context {double_ SkScalar_ : Type} (narrow : double_ → SkScalar_) (widen : SkScalar_ → double_).
Context (zero one : double_).

Definition kSkMatrixIndexToMatrix4Index : list nat := [0; 4; 12; 1; 5; 13; 3; 7; 15]%nat.

(** [None] is a typed list without data, which has no elements. *)
Definition ToSkMatrix (matrix4 : option (list double_)) : result (list SkScalar_) :=
  _ ← fml_dcheck (bool_decide (is_Some matrix4));
  mret ((λ i, narrow (default zero (default [] matrix4 !! i))) <$> kSkMatrixIndexToMatrix4Index).

(** New typed data is zero. *)
Definition ToMatrix4 (sk_matrix : list SkScalar_) : list double_ :=
  let matrix4 := foldl (λ m ix, <[ix.1 := widen ix.2]> m) (replicate 16 zero)
                   (zip kSkMatrixIndexToMatrix4Index sk_matrix) in
  <[10%nat := one]> matrix4.

Lemma matrix_roundtrip m : (∀ x, narrow (widen x) = x) → length m = 9%nat → ToSkMatrix (Some (ToMatrix4 m)) ⇓ m.
Proof.
  intros Hw Hl. do 9 (destruct m as [|? m]; [done|]). destruct m; [|done].
  unfold ToSkMatrix. rewrite bool_decide_true, fml_dcheck_true by by eexists. cbn. by rewrite !Hw.
Qed.
End matrix.

(** What the builder needs of [double] and of [SkMatrix] to take a matrix from
    the framework: the conversion, 0.0 and a matrix of nine scalars. *)
Class Float64Matrix {sk : Skia} := {
  double : Type;
  to_scalar : double → SkScalar;
  zero_double : double;
  matrix_of_nine : list SkScalar → SkMatrix;
}.

Section builder.
Context `{bd : Build} `{cb : CacheBuild} `{sk : Skia} {ge : Geometry} {fm : Float64Matrix}.
Context (MakeLTRB : SkScalar → SkScalar → SkScalar → SkScalar → SkRect).

(** ** The heap *)

Record Object := mkObject { obj_state : LayerState; obj_node : Node; obj_layers : list nat }.
Definition set_obj_layers ls o := mkObject (obj_state o) (obj_node o) ls.

Fixpoint read_layer (fuel : nat) (h : list Object) (a : nat) : option layer :=
  match fuel with
  | O => None
  | S fuel =>
      o ← h !! a;
      ls ← mapM (read_layer fuel h) (obj_layers o);
      Some (mkLayerT (obj_state o) (obj_node o) ls)
  end.

Definition ContainerAdd (parent child : nat) (h : list Object) : result (list Object) :=
  o ← of_option UndefinedBehaviour (h !! parent);
  mret (<[parent := set_obj_layers (obj_layers o ++ [child]) o]> h).

Definition GetChildContainer (o : Object) : result nat :=
  _ ← fml_dcheck (length (obj_layers o) =? 1)%nat;
  of_option UndefinedBehaviour (head (obj_layers o)).

(** The virtual [Add]. *)
Definition LayerAdd (parent child : nat) (h : list Object) : result (list Object) :=
  o ← of_option UndefinedBehaviour (h !! parent);
  match obj_node o with
  | OpacityLayer _ _ => container ← GetChildContainer o; ContainerAdd container child h
  | _ => ContainerAdd parent child h
  end.

(** ** The builder *)

(** [next_unique_id] is the counter of [Layer::NextUniqueID], which, like the
    heap, is not the builder's alone. *)
Record Builder := mkBuilder {
  heap : list Object;
  next_unique_id : Z;
  layer_stack_ : list nat;
  tracing_threshold_ : Z;
  checkerboard_cache_ : bool;
  checkerboard_layers_ : bool;
}.

Definition set_heap h b := mkBuilder h (next_unique_id b) (layer_stack_ b) (tracing_threshold_ b)
  (checkerboard_cache_ b) (checkerboard_layers_ b).
Definition set_layer_stack s b := mkBuilder (heap b) (next_unique_id b) s (tracing_threshold_ b)
  (checkerboard_cache_ b) (checkerboard_layers_ b).

(** [std::make_shared] of a layer without children. *)
Definition make_shared (n : Node) (b : Builder) : nat * Builder :=
  let '(id, next) := NextUniqueID (next_unique_id b) in
  (length (heap b),
   mkBuilder (heap b ++ [mkObject (new_state id) n []]) next (layer_stack_ b) (tracing_threshold_ b)
     (checkerboard_cache_ b) (checkerboard_layers_ b)).

(** [OpacityLayer]'s constructor; [alpha] becomes an [SkAlpha]. *)
Definition make_opacity (alpha : Z) (offset : SkScalar * SkScalar) (b : Builder) : result (nat * Builder) :=
  let '(layer, b) := make_shared (OpacityLayer (wrapU 8 alpha) offset) b in
  let '(container, b) := make_shared ContainerLayer b in
  h ← ContainerAdd layer container (heap b);
  mret (layer, set_heap h b).

Definition AddLayer (layer : nat) (b : Builder) : result Builder :=
  match last (layer_stack_ b) with
  | Some top => h ← LayerAdd top layer (heap b); mret (set_heap h b)
  | None => mret b
  end.

Definition PushLayer (layer : nat) (b : Builder) : result Builder :=
  b ← AddLayer layer b; mret (set_layer_stack (layer_stack_ b ++ [layer]) b).

Definition PopLayer (b : Builder) : Builder :=
  if (1 <? length (layer_stack_ b))%nat
  then set_layer_stack (take (pred (length (layer_stack_ b))) (layer_stack_ b)) b
  else b.

Definition new_builder (h : list Object) (next : Z) : result Builder :=
  let '(root, b) := make_shared ContainerLayer (mkBuilder h next [] 0 false false) in PushLayer root b.

(** ** The framework's calls *)

(** The retained layer that is returned is the address. *)
Definition push_new (n : Node) (b : Builder) : result (nat * Builder) :=
  let '(layer, b) := make_shared n b in b ← PushLayer layer b; mret (layer, b).

(** [TransformLayer]'s constructor replaces an invalid matrix. *)
Definition transform_node (m : SkMatrix) : result Node :=
  _ ← fml_dcheck (matrix_isFinite m);
  mret (TransformLayer (if matrix_isFinite m then m else matrix_identity)).

Definition pushTransform (matrix4 : option (list double)) (b : Builder) : result (nat * Builder) :=
  nine ← ToSkMatrix to_scalar zero_double matrix4;
  let sk_matrix := matrix_of_nine nine in
  n ← transform_node sk_matrix; push_new n b.
Definition pushOffset (dx dy : SkScalar) (b : Builder) : result (nat * Builder) :=
  n ← transform_node (MakeTrans dx dy); push_new n b.
(** The constructors of the clip layers refuse [Clip::none]. *)
Definition clips (c : Clip) : bool := negb (bool_decide (c = Clip_none)).
Definition pushClipRect (left right top bottom : SkScalar) (clip_behavior : Clip) (b : Builder)
    : result (nat * Builder) :=
  _ ← fml_dcheck (clips clip_behavior); push_new (ClipRectLayer (MakeLTRB left top right bottom) clip_behavior) b.
Definition pushClipRRect (rrect : SkRRect) (clip_behavior : Clip) (b : Builder) : result (nat * Builder) :=
  _ ← fml_dcheck (clips clip_behavior); push_new (ClipRRectLayer rrect clip_behavior) b.
Definition pushClipPath (path : SkPath) (clip_behavior : Clip) (b : Builder) : result (nat * Builder) :=
  _ ← fml_dcheck (clips clip_behavior); push_new (ClipPathLayer path clip_behavior) b.
Definition pushOpacity (alpha : Z) (dx dy : SkScalar) (b : Builder) : result (nat * Builder) :=
  '(layer, b) ← make_opacity alpha (dx, dy) b; b ← PushLayer layer b; mret (layer, b).
Definition pushColorFilter (filter : SkColorFilter) (b : Builder) : result (nat * Builder) :=
  push_new (ColorFilterLayer filter) b.
Definition pushImageFilter (filter : SkImageFilter) (b : Builder) : result (nat * Builder) :=
  push_new (ImageFilterLayer filter) b.
Definition pushBackdropFilter (filter : option SkImageFilter) (b : Builder) : result (nat * Builder) :=
  push_new (BackdropFilterLayer filter) b.
Definition pushShaderMask (shader : SkShader) (left right top bottom : SkScalar) (mode : SkBlendMode) (b : Builder)
    : result (nat * Builder) :=
  push_new (ShaderMaskLayer shader (MakeLTRB left top right bottom) mode) b.
Definition pushPhysicalShape (path : SkPath) (elevation : SkScalar) (color shadow_color : SkColor)
    (clip_behavior : Clip) (b : Builder) : result (nat * Builder) :=
  push_new (PhysicalShapeLayer color shadow_color elevation path clip_behavior) b.

Definition addRetained (retained : nat) (b : Builder) : result Builder := AddLayer retained b.
Definition pop (b : Builder) : Builder := PopLayer b.

Definition add_new (n : Node) (b : Builder) : result Builder :=
  let '(layer, b) := make_shared n b in AddLayer layer b.

Definition addPicture (dx dy : SkScalar) (picture : SkPicture) (hints : Z) (b : Builder) : result Builder :=
  add_new (PictureLayer (dx, dy) (Some picture) (negb (Z.land hints 1 =? 0)) (negb (Z.land hints 2 =? 0))) b.
Definition addTexture (dx dy width height : SkScalar) (texture_id : Z) (freeze : bool) (b : Builder) : result Builder :=
  add_new (TextureLayer (dx, dy) (width, height) texture_id freeze) b.
Definition addPlatformView (dx dy width height : SkScalar) (view_id : Z) (b : Builder) : result Builder :=
  add_new (PlatformViewLayer (dx, dy) (width, height) view_id) b.
(** The layer's options are an [int]. *)
Definition addPerformanceOverlay (enabled_options : Z) (left right top bottom : SkScalar) (b : Builder) : result Builder :=
  let '(layer, b) := make_shared (PerformanceOverlayLayer (wrapS 32 enabled_options)) b in
  let h := alter (λ o, mkObject (set_paint_bounds (MakeLTRB left top right bottom) (obj_state o)) (obj_node o) (obj_layers o))
             layer (heap b) in
  AddLayer layer (set_heap h b).

Definition setRasterizerTracingThreshold (frame_interval : Z) (b : Builder) : Builder :=
  mkBuilder (heap b) (next_unique_id b) (layer_stack_ b) (wrapS 32 frame_interval) (checkerboard_cache_ b) (checkerboard_layers_ b).
Definition setCheckerboardRasterCacheImages (checkerboard : bool) (b : Builder) : Builder :=
  mkBuilder (heap b) (next_unique_id b) (layer_stack_ b) (tracing_threshold_ b) checkerboard (checkerboard_layers_ b).
Definition setCheckerboardOffscreenLayers (checkerboard : bool) (b : Builder) : Builder :=
  mkBuilder (heap b) (next_unique_id b) (layer_stack_ b) (tracing_threshold_ b) (checkerboard_cache_ b) checkerboard.

(** ** The scene *)

Record ViewportMetrics := mkMetrics {
  physical_size : Z * Z;
  physical_depth : SkScalar;
  device_pixel_ratio : SkScalar;
}.

(** [Scene::Scene] with the tree that its root has on the heap; the fuel of
    the walk is the number of objects. *)
Definition Scene_create (metrics : ViewportMetrics) (h : list Object) (root : nat) (threshold : Z)
    (checkerboard_cache checkerboard_layers : bool) : option LayerTree :=
  root ← read_layer (length h) h root;
  Some (mkTree (Some root) (physical_size metrics) (physical_depth metrics) (device_pixel_ratio metrics)
          (wrapU 32 threshold) checkerboard_cache checkerboard_layers 0 0).

(** [None] is a tree without end. *)
Definition build (metrics : ViewportMetrics) (b : Builder) : result (option LayerTree) :=
  _ ← fml_dcheck (1 <=? length (layer_stack_ b))%nat;
  root ← of_option UndefinedBehaviour (head (layer_stack_ b));
  mret (Scene_create metrics (heap b) root (tracing_threshold_ b) (checkerboard_cache_ b) (checkerboard_layers_ b)).

(** [Scene::takeLayerTree] leaves the scene without a tree. *)
Definition takeLayerTree (scene : option LayerTree) : option LayerTree * option LayerTree := (scene, None).

(** [Scene::toImage] up to the rasterization of the picture: the message that
    there is no layer tree or no picture, or the picture. *)
Definition toImage (makeImageSnapshot : SkSurface → list CanvasOp → option SkImage) (no_color_space : SkColorSpace)
    (canvas : bool) (scene : option LayerTree) : result ((string + list (nat * Event)) * option LayerTree) :=
  match scene with
  | None => mret (inl "Scene did not contain a layer tree."%string, None)
  | Some t =>
      '(t, picture) ← Flatten makeImageSnapshot no_color_space canvas t;
      match picture with
      | None => mret (inl "Could not flatten scene into a layer tree."%string, Some t)
      | Some es => mret (inr es, Some t)
      end
  end.
End builder.
