(* ===== verification/SceneBuilderProofs.v ===== *)
(** * SceneBuilderProofs: the scene is the tree the calls describe

    The reference builder keeps the open layers as a stack of trees and adds a
    layer to its parent when it is popped; it needs no heap.  The theorem says
    that the shared layers of the real builder read back as the tree of the
    reference builder, also when layers of earlier frames are retained. *)

From Stdlib Require Import ZArith Lia.
From stdpp Require Import base sorting gmap numbers list.
From S2P Require Import Prelude RasterCache Layers IntGeometry LayersProofs LayersPaint LayersPaintProofs SceneBuilder.

Local Open Scope Z_scope.
#[local] Set Default Proof Using "Type*".
#[local] Set Warnings "-register-all".

(** The address of an open layer, and of the container of an opacity layer. *)
Abbreviation slot := (nat * option nat)%type.

(** ** Reading layers from the heap *)

Section heap.
Context `{bd : Build} `{sk : Skia} {ge : Geometry}.
Implicit Types (h : list Object) (X : list nat) (a x : nat) (l t : layer).

(** The object at [a] and those below it are not in [X] and form the tree. *)
Inductive reads h X : nat → layer → Prop :=
  | reads_object a o ls :
      h !! a = Some o → a ∉ X → Forall2 (reads h X) (obj_layers o) ls →
      reads h X a (mkLayerT (obj_state o) (obj_node o) ls).

Lemma reads_ind' h X (P : nat → layer → Prop)
    (IH : ∀ a o ls, h !! a = Some o → a ∉ X → Forall2 (reads h X) (obj_layers o) ls →
       Forall2 P (obj_layers o) ls → P a (mkLayerT (obj_state o) (obj_node o) ls)) :
  ∀ a t, reads h X a t → P a t.
Proof.
  fix rec 3. intros a t [b o ls Ho Hb Hls]. apply IH; try done.
  induction Hls as [|x l xs ls Hx _ IHls]; constructor; [by apply rec|done].
Qed.

Lemma reads_change h X h' X' a t
    (Hc : ∀ b o, h !! b = Some o → b ∉ X → h' !! b = Some o ∧ b ∉ X') :
  reads h X a t → reads h' X' a t.
Proof.
  revert a t. apply reads_ind'. intros a o ls Ho Ha _ IH. destruct (Hc a o Ho Ha). by constructor.
Qed.

Lemma reads_fun h X X' a t t' : reads h X a t → reads h X' a t' → t = t'.
Proof.
  intros Ht. revert a t Ht t'. refine (reads_ind' h X _ _). intros a o ls Ho _ _ IH t' Ht'.
  destruct Ht' as [b o' ls' Ho' _ Hls']. simplify_eq. f_equal. clear Ho.
  revert ls' Hls'. induction IH as [|x l xs ls Hx _ IHls]; intros ls' Hls'; inversion Hls'; subst; [done|].
  f_equal; auto.
Qed.

Fixpoint height (l : layer) : nat :=
  let '(mkLayerT _ _ ls) := l in S (foldr (λ l n, Nat.max (height l) n) 0%nat ls).

Lemma read_height h X a t fuel : reads h X a t → (height t ≤ fuel)%nat → read_layer fuel h a = Some t.
Proof.
  intros Ht. revert a t Ht fuel. refine (reads_ind' h X _ _). intros a o ls Ho _ _ IH [|fuel] Hf; cbn in *; [lia|].
  rewrite Ho. cbn. assert (mapM (read_layer fuel h) (obj_layers o) = Some ls) as ->; [|done].
  apply mapM_Some. clear Ho. induction IH as [|x l xs ls Hx _ IHls]; constructor; cbn in Hf.
  - apply Hx. lia.
  - apply IHls. lia.
Qed.

(** Along a path the objects differ, so no tree is higher than the heap. *)
Lemma reads_path h X a t : reads h X a t →
  ∃ path, length path = height t ∧ NoDup path ∧
    Forall (λ b, (b < length h)%nat ∧ ∃ t', reads h X b t' ∧ (height t' ≤ height t)%nat) path.
Proof.
  revert a t. apply reads_ind'. intros a o ls Ho Ha Hls IH.
  assert (∃ path, length path = foldr (λ l n, Nat.max (height l) n) 0%nat ls ∧ NoDup path ∧
    Forall (λ b, (b < length h)%nat ∧ ∃ t', reads h X b t' ∧
      (height t' ≤ foldr (λ l n, Nat.max (height l) n) 0%nat ls)%nat) path) as (path & Hlen & Hnd & Hp).
  { clear Ho Hls. induction IH as [|x l xs ls (path & Hl & Hn & Hp) _ (path' & Hl' & Hn' & Hp')]; cbn.
    - exists []. by repeat constructor.
    - destruct (Nat.max_spec (height l) (foldr (λ l n, Nat.max (height l) n) 0%nat ls)) as [[? ->]|[? ->]].
      + by exists path'.
      + by exists path. }
  exists (a :: path). cbn. rewrite Hlen. split; [done|].
  assert (reads h X a (mkLayerT (obj_state o) (obj_node o) ls)) as Hr by by constructor.
  split.
  - constructor; [|done]. intros Hin. rewrite Forall_forall in Hp. destruct (Hp a Hin) as (_ & t' & Ht' & Hh).
    rewrite (reads_fun _ _ _ _ _ _ Ht' Hr) in Hh. cbn in Hh. lia.
  - constructor.
    + split; [by eapply lookup_lt_Some|]. eexists. split; [exact Hr|]. cbn. lia.
    + eapply Forall_impl; [exact Hp|]. cbn. intros b (? & t' & ? & ?). split; [done|]. exists t'. split; [done|lia].
Qed.

Lemma reads_read h X a t : reads h X a t → read_layer (length h) h a = Some t.
Proof.
  intros Ht. eapply read_height; [exact Ht|]. destruct (reads_path _ _ _ _ Ht) as (path & <- & Hnd & Hp).
  rewrite <- (length_seq (length h) 0). apply submseteq_length, NoDup_submseteq; [done|].
  intros b Hb. rewrite Forall_forall in Hp. destruct (Hp b Hb) as [? _]. apply elem_of_seq. lia.
Qed.

Lemma read_reads h a t fuel : read_layer fuel h a = Some t → reads h [] a t.
Proof.
  revert a t. induction fuel as [|fuel IH]; intros a t; [done|]. cbn.
  destruct (h !! a) as [o|] eqn:Ho; [|done]. cbn.
  destruct (mapM (read_layer fuel h) (obj_layers o)) as [ls|] eqn:Hls; [|done]. intros [= <-].
  constructor; [done|set_solver|]. apply mapM_Some in Hls. eapply Forall2_impl; [exact Hls|]. auto.
Qed.

(** ** Open layers *)

Definition slot_addrs (s : slot) : list nat := s.1 :: option_list s.2.
Definition slots_of (ss : list slot) : list nat := ss ≫= slot_addrs.

(** An open layer whose last child is [child] if there is one. *)
Inductive frame_at h X (child : list nat) : slot → layer → Prop :=
  | frame_plain a s n addrs ls :
      h !! a = Some (mkObject s n (addrs ++ child)) → (∀ alpha offset, n ≠ OpacityLayer alpha offset) →
      Forall2 (reads h X) addrs ls → frame_at h X child (a, None) (mkLayerT s n ls)
  | frame_opacity a c s alpha offset s' addrs ls :
      h !! a = Some (mkObject s (OpacityLayer alpha offset) [c]) →
      h !! c = Some (mkObject s' ContainerLayer (addrs ++ child)) → a ≠ c →
      Forall2 (reads h X) addrs ls →
      frame_at h X child (a, Some c) (mkLayerT s (OpacityLayer alpha offset) [mkLayerT s' ContainerLayer ls]).

Definition adopt (parent child : layer) : layer := match Add parent child with Ok l => l | Fault _ => parent end.

Lemma frame_change h X h' X' child s l
    (Hc : ∀ b o, h !! b = Some o → b ∉ X → h' !! b = Some o ∧ b ∉ X')
    (Hs : ∀ b, b ∈ slot_addrs s → h' !! b = h !! b) :
  frame_at h X child s l → frame_at h' X' child s l.
Proof.
  intros Hf. revert Hs. destruct Hf as [a s' n addrs ls Ha Hn Hls|a c s' alpha offset s'' addrs ls Ha Hco Hne Hls]; intros Hs.
  - econstructor; [rewrite Hs; [exact Ha|set_solver]|done|].
    eapply Forall2_impl; [exact Hls|]. intros. by eapply reads_change.
  - econstructor; [rewrite Hs; [exact Ha|set_solver]|rewrite Hs; [exact Hco|set_solver]|done|].
    eapply Forall2_impl; [exact Hls|]. intros. by eapply reads_change.
Qed.

(** Adding an address changes only the slot. *)
Lemma frame_add h X s l x (HX : ∀ b, b ∈ slot_addrs s → b ∈ X) :
  frame_at h X [] s l →
  ∃ h', LayerAdd s.1 x h ⇓ h' ∧ frame_at h' X [x] s l ∧ length h' = length h ∧ (∀ b, b ∉ slot_addrs s → h' !! b = h !! b).
Proof.
  assert (∀ b o o', h !! b = Some o' → b ∈ slot_addrs s → ∀ d od, h !! d = Some od → d ∉ X → <[b:=o]> h !! d = Some od ∧ d ∉ X) as Hc.
  { intros b o o' Hb Hin d od Hd HdX. rewrite list_lookup_insert_ne; [done|]. intros ->. auto. }
  intros Hf. revert HX Hc. destruct Hf as [a s' n addrs ls Ha Hn Hls|a c s' alpha offset s'' addrs ls Ha Hco Hne Hls]; intros HX Hc;
    cbn [fst slot_addrs] in *; unfold LayerAdd; rewrite Ha; cbn [of_option mbind result_bind obj_node].
  - exists (<[a := mkObject s' n (addrs ++ [x])]> h).
    split; [destruct n; try (by edestruct Hn); unfold ContainerAdd; rewrite Ha; cbn; by rewrite app_nil_r|].
    split; [|split; [by rewrite length_insert|]].
    + econstructor; [apply list_lookup_insert_eq; by eapply lookup_lt_Some|done|].
      eapply Forall2_impl; [exact Hls|]. intros y t Hy. eapply reads_change; [|exact Hy]. eapply Hc; [exact Ha|set_solver].
    + intros b Hb. apply list_lookup_insert_ne. set_solver.
  - exists (<[c := mkObject s'' ContainerLayer (addrs ++ [x])]> h).
    split; [unfold GetChildContainer; cbn; rewrite fml_dcheck_true; cbn; unfold ContainerAdd; rewrite Hco; cbn; by rewrite app_nil_r|].
    split; [|split; [by rewrite length_insert|]].
    + econstructor; [rewrite list_lookup_insert_ne by done; exact Ha|apply list_lookup_insert_eq; by eapply lookup_lt_Some|done|].
      eapply Forall2_impl; [exact Hls|]. intros y t Hy. eapply reads_change; [|exact Hy]. eapply Hc; [exact Hco|set_solver].
    + intros b Hb. apply list_lookup_insert_ne. set_solver.
Qed.

(** A closed child becomes part of the tree. *)
Lemma frame_absorb h X s l x t : frame_at h X [x] s l → reads h X x t → frame_at h X [] s (adopt l t).
Proof.
  intros [a s' n addrs ls Ha Hn Hls|a c s' alpha offset s'' addrs ls Ha Hco Hne Hls] Hx.
  - assert (adopt (mkLayerT s' n ls) t = mkLayerT s' n (ls ++ [t])) as ->
      by (destruct n; try done; by edestruct Hn).
    econstructor; [by rewrite app_nil_r|done|]. apply Forall2_app; [done|]. by repeat constructor.
  - cbn. econstructor; [exact Ha|by rewrite app_nil_r|done|]. apply Forall2_app; [done|]. by repeat constructor.
Qed.

(** An open layer without open child can be closed. *)
Lemma frame_close h X X' s l (HX : ∀ b, b ∈ X' → b ∈ X) (Hs : ∀ b, b ∈ slot_addrs s → b ∉ X') :
  frame_at h X [] s l → reads h X' s.1 l.
Proof.
  assert (∀ y t, reads h X y t → reads h X' y t) as Hm.
  { intros y t. apply reads_change. intros b o Hb HbX. split; [done|]. intros ?; by apply HbX, HX. }
  intros Hf. revert Hs. destruct Hf as [a s' n addrs ls Ha Hn Hls|a c s' alpha offset s'' addrs ls Ha Hco Hne Hls]; intros Hs; cbn [fst].
  - rewrite app_nil_r in Ha. refine (reads_object h X' a _ ls Ha _ _); [apply Hs; set_solver|].
    eapply Forall2_impl; [exact Hls|]. auto.
  - rewrite app_nil_r in Hco. refine (reads_object h X' a _ _ Ha _ _); [apply Hs; set_solver|]. cbn. constructor; [|done].
    refine (reads_object h X' c _ ls Hco _ _); [apply Hs; set_solver|]. eapply Forall2_impl; [exact Hls|]. auto.
Qed.
End heap.

(** ** The calls and the reference builder *)

Section scripts.
Context `{bd : Build} `{cb : CacheBuild} `{sk : Skia} {ge : Geometry} {fm : Float64Matrix}.
Context (MakeLTRB : SkScalar → SkScalar → SkScalar → SkScalar → SkRect).

Inductive scene_call :=
  | CallPushTransform (matrix4 : option (list double))
  | CallPushOffset (dx dy : SkScalar)
  | CallPushClipRect (left right top bottom : SkScalar) (clip_behavior : Clip)
  | CallPushClipRRect (rrect : SkRRect) (clip_behavior : Clip)
  | CallPushClipPath (path : SkPath) (clip_behavior : Clip)
  | CallPushOpacity (alpha : Z) (dx dy : SkScalar)
  | CallPushColorFilter (filter : SkColorFilter)
  | CallPushImageFilter (filter : SkImageFilter)
  | CallPushBackdropFilter (filter : option SkImageFilter)
  | CallPushShaderMask (shader : SkShader) (left right top bottom : SkScalar) (mode : SkBlendMode)
  | CallPushPhysicalShape (path : SkPath) (elevation : SkScalar) (color shadow_color : SkColor) (clip_behavior : Clip)
  | CallPop
  | CallAddRetained (layer : nat)
  | CallAddPicture (dx dy : SkScalar) (picture : SkPicture) (hints : Z)
  | CallAddTexture (dx dy width height : SkScalar) (texture_id : Z) (freeze : bool)
  | CallAddPlatformView (dx dy width height : SkScalar) (view_id : Z)
  | CallAddPerformanceOverlay (options : Z) (left right top bottom : SkScalar)
  | CallSetRasterizerTracingThreshold (frame_interval : Z)
  | CallSetCheckerboardRasterCacheImages (checkerboard : bool)
  | CallSetCheckerboardOffscreenLayers (checkerboard : bool).

Definition scene_exec (c : scene_call) (b : Builder) : result Builder :=
  match c with
  | CallPushTransform m => snd <$> pushTransform m b
  | CallPushOffset dx dy => snd <$> pushOffset dx dy b
  | CallPushClipRect x1 x2 y1 y2 clip => snd <$> pushClipRect MakeLTRB x1 x2 y1 y2 clip b
  | CallPushClipRRect r clip => snd <$> pushClipRRect r clip b
  | CallPushClipPath p clip => snd <$> pushClipPath p clip b
  | CallPushOpacity alpha dx dy => snd <$> pushOpacity alpha dx dy b
  | CallPushColorFilter f => snd <$> pushColorFilter f b
  | CallPushImageFilter f => snd <$> pushImageFilter f b
  | CallPushBackdropFilter f => snd <$> pushBackdropFilter f b
  | CallPushShaderMask s x1 x2 y1 y2 mode => snd <$> pushShaderMask MakeLTRB s x1 x2 y1 y2 mode b
  | CallPushPhysicalShape p e c1 c2 clip => snd <$> pushPhysicalShape p e c1 c2 clip b
  | CallPop => mret (pop b)
  | CallAddRetained x => addRetained x b
  | CallAddPicture dx dy p hints => addPicture dx dy p hints b
  | CallAddTexture dx dy w h id freeze => addTexture dx dy w h id freeze b
  | CallAddPlatformView dx dy w h id => addPlatformView dx dy w h id b
  | CallAddPerformanceOverlay options x1 x2 y1 y2 => addPerformanceOverlay MakeLTRB options x1 x2 y1 y2 b
  | CallSetRasterizerTracingThreshold n => mret (setRasterizerTracingThreshold n b)
  | CallSetCheckerboardRasterCacheImages c => mret (setCheckerboardRasterCacheImages c b)
  | CallSetCheckerboardOffscreenLayers c => mret (setCheckerboardOffscreenLayers c b)
  end.

Fixpoint scene_run (cs : list scene_call) (b : Builder) : result Builder :=
  match cs with [] => mret b | c :: cs => b ← scene_exec c b; scene_run cs b end.

(** What a call does to a stack of open layers.  [Refused] is a call that a
    debug build stops at. *)
Inductive effect :=
  | Opens (n : Node)
  | OpensOpacity (alpha : Z) (offset : SkScalar * SkScalar)
  | Adds (n : Node) (bounds : option SkRect)
  | AddsRetained (x : nat)
  | Closes
  | Sets (threshold : option Z) (cache layers : option bool)
  | Refused.

(** The 3 by 3 matrix of a column-major 4 by 4 one without its third row and
    column; missing elements are 0. *)
Definition matrix3_of (matrix4 : list double) : SkMatrix :=
  let at_ (row column : nat) := to_scalar (default zero_double (matrix4 !! (4 * column + row)%nat)) in
  matrix_of_nine [at_ 0 0; at_ 0 1; at_ 0 3; at_ 1 0; at_ 1 1; at_ 1 3; at_ 3 0; at_ 3 1; at_ 3 3]%nat.

Definition effect_of (c : scene_call) : effect :=
  let checked (b : bool) (e : effect) := if b then e else Refused in
  match c with
  | CallPushTransform matrix4 =>
      let m := matrix3_of (default [] matrix4) in
      checked (bool_decide (is_Some matrix4)) (checked (matrix_isFinite m) (Opens (TransformLayer m)))
  | CallPushOffset dx dy => checked (matrix_isFinite (MakeTrans dx dy)) (Opens (TransformLayer (MakeTrans dx dy)))
  | CallPushClipRect x1 x2 y1 y2 clip => checked (clips clip) (Opens (ClipRectLayer (MakeLTRB x1 y1 x2 y2) clip))
  | CallPushClipRRect r clip => checked (clips clip) (Opens (ClipRRectLayer r clip))
  | CallPushClipPath p clip => checked (clips clip) (Opens (ClipPathLayer p clip))
  | CallPushOpacity alpha dx dy => OpensOpacity (wrapU 8 alpha) (dx, dy)
  | CallPushColorFilter f => Opens (ColorFilterLayer f)
  | CallPushImageFilter f => Opens (ImageFilterLayer f)
  | CallPushBackdropFilter f => Opens (BackdropFilterLayer f)
  | CallPushShaderMask s x1 x2 y1 y2 mode => Opens (ShaderMaskLayer s (MakeLTRB x1 y1 x2 y2) mode)
  | CallPushPhysicalShape p e c1 c2 clip => Opens (PhysicalShapeLayer c1 c2 e p clip)
  | CallPop => Closes
  | CallAddRetained x => AddsRetained x
  | CallAddPicture dx dy p hints => Adds (PictureLayer (dx, dy) (Some p) (Z.testbit hints 0) (Z.testbit hints 1)) None
  | CallAddTexture dx dy w h id freeze => Adds (TextureLayer (dx, dy) (w, h) id freeze) None
  | CallAddPlatformView dx dy w h id => Adds (PlatformViewLayer (dx, dy) (w, h) id) None
  | CallAddPerformanceOverlay options x1 x2 y1 y2 => Adds (PerformanceOverlayLayer (wrapS 32 options)) (Some (MakeLTRB x1 y1 x2 y2))
  | CallSetRasterizerTracingThreshold n => Sets (Some (wrapS 32 n)) None None
  | CallSetCheckerboardRasterCacheImages c => Sets None (Some c) None
  | CallSetCheckerboardOffscreenLayers c => Sets None None (Some c)
  end.

(** The open layers, innermost first, and the next unique id. *)
Record Reference := mkReference {
  open_layers : list layer;
  ref_next_id : Z;
  ref_settings : Z * bool * bool;
}.

Definition new_reference (next : Z) : Reference :=
  let '(id, next) := NextUniqueID next in mkReference [mkLayerT (new_state id) ContainerLayer []] next (0, false, false).

Definition ref_add (l : layer) (ls : list layer) : list layer :=
  match ls with top :: ls => adopt top l :: ls | [] => [] end.

Definition ref_step (trees : nat → option layer) (c : scene_call) (r : Reference) : option Reference :=
  let '(id, next) := NextUniqueID (ref_next_id r) in
  match effect_of c with
  | Opens n => Some (mkReference (mkLayerT (new_state id) n [] :: open_layers r) next (ref_settings r))
  | OpensOpacity alpha offset =>
      let '(id', next) := NextUniqueID next in
      Some (mkReference (new_opacity_layer id id' alpha offset :: open_layers r) next (ref_settings r))
  | Adds n bounds =>
      let s := match bounds with Some r => set_paint_bounds r (new_state id) | None => new_state id end in
      Some (mkReference (ref_add (mkLayerT s n []) (open_layers r)) next (ref_settings r))
  | AddsRetained x => t ← trees x; Some (mkReference (ref_add t (open_layers r)) (ref_next_id r) (ref_settings r))
  | Closes =>
      Some (mkReference (match open_layers r with l :: parent :: ls => adopt parent l :: ls | ls => ls end)
              (ref_next_id r) (ref_settings r))
  | Sets threshold cache layers =>
      let '(t, k, l) := ref_settings r in
      Some (mkReference (open_layers r) (ref_next_id r) (default t threshold, default k cache, default l layers))
  | Refused => None
  end.

Fixpoint ref_run (trees : nat → option layer) (cs : list scene_call) (r : Reference) : option Reference :=
  match cs with [] => Some r | c :: cs => r ← ref_step trees c r; ref_run trees cs r end.

(** Layers that are still open are closed. *)
Definition ref_root (ls : list layer) : option layer :=
  match ls with [] => None | l :: ls => Some (foldl (λ child parent, adopt parent child) l ls) end.

Definition ref_tree (metrics : ViewportMetrics) (r : Reference) : option LayerTree :=
  root ← ref_root (open_layers r);
  let '(threshold, cache, layers) := ref_settings r in
  Some (mkTree (Some root) (physical_size metrics) (physical_depth metrics) (device_pixel_ratio metrics)
          (wrapU 32 threshold) cache layers 0 0).
End scripts.

(** ** Stacks of open layers *)

Section open_frames.
Context `{bd : Build} `{sk : Skia} {ge : Geometry}.

Inductive frames (h : list Object) (X : list nat) : list nat → list slot → list layer → Prop :=
  | frames_nil child : frames h X child [] []
  | frames_cons child s ss l ls :
      frame_at h X child s l → frames h X [s.1] ss ls → frames h X child (s :: ss) (l :: ls).

Lemma slots_cons s ss : slots_of (s :: ss) = slot_addrs s ++ slots_of ss.
Proof. done. Qed.

Lemma frames_change h X h' X' child ss ls
    (Hc : ∀ b o, h !! b = Some o → b ∉ X → h' !! b = Some o ∧ b ∉ X')
    (Hs : ∀ b, b ∈ slots_of ss → h' !! b = h !! b) :
  frames h X child ss ls → frames h' X' child ss ls.
Proof.
  intros Hf. revert Hs. induction Hf as [|child s ss l ls Hf _ IH]; intros Hs; constructor.
  - eapply frame_change; [done| |done]. intros a Ha. apply Hs. apply elem_of_app. by left.
  - apply IH. intros a Ha. apply Hs. apply elem_of_app. by right.
Qed.

(** Appending an address to the innermost open layer. *)
Lemma append_frames h X s ss ls x (HX : ∀ a, a ∈ slots_of (s :: ss) → a ∈ X) (Hnd : NoDup (slots_of (s :: ss))) :
  frames h X [] (s :: ss) ls →
  ∃ h', LayerAdd s.1 x h ⇓ h' ∧ length h' = length h ∧ (∀ a, a ∉ slots_of (s :: ss) → h' !! a = h !! a) ∧
    frames h' X [x] (s :: ss) ls.
Proof.
  intros Hf. inversion Hf as [|? ? ? l ls' Htop Hrest Heq1 Heq2]; subst. rewrite slots_cons in *.
  destruct (frame_add h X s l x) as (h' & -> & Hf' & Hlen & Hout); [|done|]; [intros a HIn; apply HX; set_solver|].
  apply NoDup_app in Hnd as (Hnd1 & Hdisj & Hnd2).
  exists h'. split; [done|]. split; [done|]. split; [intros a HIn; apply Hout; set_solver|].
  constructor; [done|]. eapply frames_change; [| |exact Hrest].
  - intros a o Ho HIn. split; [|done]. rewrite Hout; [done|]. intros ?. apply HIn, HX. set_solver.
  - intros a HIn. apply Hout. intros ?. by eapply Hdisj.
Qed.

(** Closing the innermost layer when there is another one. *)
Lemma pop_frames h s s' ss l l' ls : NoDup (slots_of (s :: s' :: ss)) →
  frames h (slots_of (s :: s' :: ss)) [] (s :: s' :: ss) (l :: l' :: ls) →
  frames h (slots_of (s' :: ss)) [] (s' :: ss) (adopt l' l :: ls).
Proof.
  intros (_ & Hdisj & Hnd2)%NoDup_app Hf. inversion Hf as [|? ? ? ? ? Htop Hrest Heq1 Heq2]; subst.
  assert (frames h (slots_of (s' :: ss)) [s.1] (s' :: ss) (l' :: ls)) as Hf'.
  { eapply frames_change; [|done|exact Hrest]. intros a o Ho HIn. split; [done|]. rewrite slots_cons in HIn. set_solver. }
  inversion Hf'; subst. constructor; [|done]. eapply frame_absorb; [done|]. eapply frame_close; [| |exact Htop].
  - intros a. rewrite (slots_cons s). set_solver.
  - apply Hdisj.
Qed.

Lemma close_all h ss ls : ss ≠ [] → NoDup (slots_of ss) → frames h (slots_of ss) [] ss ls →
  ∃ root a, ref_root ls = Some root ∧ last (fst <$> ss) = Some a ∧ reads h [] a root.
Proof.
  revert ls. induction ss as [|s [|s' ss] IH]; intros ls Hne Hnd Hf; [done|..];
    inversion Hf as [|? ? ? l ls1 Htop Hrest]; subst; inversion Hrest as [|? ? ? l' ls2 Htop' Hrest']; subst.
  - exists l, s.1. split; [done|]. split; [done|]. eapply frame_close; [| |exact Htop]; set_solver.
  - destruct (IH (adopt l' l :: ls2)) as (root & a & Hroot & Ha & Hr); [done| |by eapply pop_frames|].
    { by apply NoDup_app in Hnd as (_ & _ & ?). }
    by exists root, a.
Qed.

(** Painting relies on the shape of opacity layers and on pictures. *)
Definition open_shape (l : layer) : Prop :=
  shaped l = true ∧ match l with
                    | mkLayerT _ (OpacityLayer _ _) ls => ∃ s ls', ls = [mkLayerT s ContainerLayer ls']
                    | _ => True
                    end.

Lemma adopt_shape l t : open_shape l → shaped t = true → open_shape (adopt l t).
Proof.
  destruct l as [s n ls]. intros [Hs Ho] Ht. destruct n.
  2:{ destruct Ho as (s' & ls' & ->). cbn in Hs |- *. split; [|by eauto]. cbn. rewrite andb_true_r in Hs |- *.
      rewrite forallb_app. apply andb_true_iff. split; [exact Hs|]. cbn. by rewrite Ht. }
  all: split; [|done]; cbn [shaped adopt Add mret result_ret] in Hs |- *; apply andb_true_iff in Hs as [H1 H2];
    rewrite forallb_app; cbn [forallb]; rewrite Ht; apply andb_true_iff; (split; [exact H1|]);
    apply orb_true_iff in H2 as [->| ->]; by rewrite ?orb_true_r.
Qed.

Lemma ref_add_shape t ls : shaped t = true → Forall open_shape ls → Forall open_shape (ref_add t ls).
Proof. intros Ht [|l ls' Hl Hls]; constructor; [by apply adopt_shape|done]. Qed.

Lemma ref_root_shape ls root : Forall open_shape ls → ref_root ls = Some root → shaped root = true.
Proof.
  intros [|l ls' Hl Hls]; [done|]. cbn. intros [= <-]. revert l Hl.
  induction Hls as [|p ps Hp _ IH]; intros l Hl; cbn; [by destruct Hl|].
  apply IH, adopt_shape; [done|]. by destruct Hl.
Qed.

Lemma hint_bit hints k : 0 ≤ k → negb (Z.land hints (2 ^ k) =? 0) = Z.testbit hints k.
Proof.
  intros Hk. destruct (Z.testbit hints k) eqn:E.
  - destruct (Z.eqb_spec (Z.land hints (2 ^ k)) 0) as [H0|]; [|done]. exfalso.
    assert (Z.testbit (Z.land hints (2 ^ k)) k = true) as Ht by (by rewrite Z.land_spec, E, Z.pow2_bits_true).
    by rewrite H0, Z.bits_0 in Ht.
  - apply negb_false_iff, Z.eqb_eq, Z.bits_inj'. intros i Hi. rewrite Z.land_spec, Z.bits_0, Z.pow2_bits_eqb by done.
    destruct (Z.eqb_spec k i) as [->|]; [by rewrite E|by rewrite andb_false_r].
Qed.
End open_frames.

(** ** The builder refines the reference *)

Section refinement.
Context `{bd : Build} `{cb : CacheBuild} `{sk : Skia} {ge : Geometry} {fm : Float64Matrix}.
Context (MakeLTRB : SkScalar → SkScalar → SkScalar → SkScalar → SkRect).
Context (trees : nat → option layer).

Record related (b : Builder) (r : Reference) (ss : list slot) : Prop := {
  re_stack : layer_stack_ b = reverse (fst <$> ss);
  re_frames : frames (heap b) (slots_of ss) [] ss (open_layers r);
  re_open : ss ≠ [];
  re_nodup : NoDup (slots_of ss);
  re_alloc : ∀ a, a ∈ slots_of ss → (a < length (heap b))%nat;
  re_trees : ∀ x t, trees x = Some t → reads (heap b) (slots_of ss) x t;
  re_next : next_unique_id b = ref_next_id r;
  re_settings : (tracing_threshold_ b, checkerboard_cache_ b, checkerboard_layers_ b) = ref_settings r;
}.

Lemma stack_top b r s ss : related b r (s :: ss) → last (layer_stack_ b) = Some s.1.
Proof. intros [Hs _ _ _ _ _ _ _]. by rewrite Hs, fmap_cons, reverse_cons, last_snoc. Qed.

(** New objects change nothing. *)
Lemma alloc_related b r ss news next : related b r ss →
  related (mkBuilder (heap b ++ news) next (layer_stack_ b) (tracing_threshold_ b) (checkerboard_cache_ b) (checkerboard_layers_ b))
    (mkReference (open_layers r) next (ref_settings r)) ss.
Proof.
  intros [Hs Hf Hne Hnd Ha Ht Hn Hse].
  assert (∀ a o, heap b !! a = Some o → (heap b ++ news) !! a = Some o) as Hl
    by (intros a o Ho; by rewrite lookup_app_l by (by eapply lookup_lt_Some)).
  split; cbn; try done.
  - eapply frames_change; [| |exact Hf]; [intros; split; auto|]. intros a HIn. rewrite lookup_app_l; auto.
  - intros a HIn. rewrite length_app. specialize (Ha a HIn). lia.
  - intros x t Hx. eapply reads_change; [|by apply Ht]. intros; split; auto.
Qed.

Lemma add_related b r ss x t : related b r ss → reads (heap b) (slots_of ss) x t →
  ∃ b', AddLayer x b ⇓ b' ∧ related b' (mkReference (ref_add t (open_layers r)) (ref_next_id r) (ref_settings r)) ss.
Proof.
  intros Hr Hx. destruct ss as [|s ss]; [by destruct (re_open _ _ _ Hr)|].
  unfold AddLayer. rewrite (stack_top _ _ _ _ Hr). destruct Hr as [Hs Hf Hne Hnd Ha Ht Hn Hse].
  destruct (append_frames _ _ _ _ _ x (λ a H, H) Hnd Hf) as (h' & -> & Hlen & Hout & Hf').
  assert (∀ y t', reads (heap b) (slots_of (s :: ss)) y t' → reads h' (slots_of (s :: ss)) y t') as Hkeep.
  { intros y t'. apply reads_change. intros a o Ho HIn. by rewrite Hout. }
  eexists. split; [done|]. split; cbn [set_heap heap layer_stack_ open_layers]; try done.
  - inversion Hf'; subst. constructor; [|done]. eapply frame_absorb; [done|]. by apply Hkeep.
  - rewrite Hlen. done.
  - intros y t' Hy. by apply Hkeep, Ht.
Qed.

Lemma push_related b r ss news next s l : related b r ss →
  NoDup (slot_addrs s) → (∀ a, a ∈ slot_addrs s → (length (heap b) ≤ a < length (heap b ++ news))%nat) →
  frame_at (heap b ++ news) (slot_addrs s ++ slots_of ss) [] s l →
  ∃ b', PushLayer s.1 (mkBuilder (heap b ++ news) next (layer_stack_ b) (tracing_threshold_ b) (checkerboard_cache_ b)
            (checkerboard_layers_ b)) ⇓ b' ∧
    related b' (mkReference (l :: open_layers r) next (ref_settings r)) (s :: ss).
Proof.
  intros Hr Hnds Hfresh Hnew. destruct ss as [|s0 ss]; [by destruct (re_open _ _ _ Hr)|].
  pose proof (stack_top _ _ _ _ Hr) as Htop. destruct Hr as [Hs Hf Hne Hnd Ha Ht Hn Hse].
  set (X := slot_addrs s ++ slots_of (s0 :: ss)) in *.
  assert (∀ a, a ∈ slot_addrs s → a ∉ slots_of (s0 :: ss)) as Hdisj.
  { intros a H1 H2. specialize (Hfresh a H1). specialize (Ha a H2). lia. }
  assert (∀ a o, heap b !! a = Some o → a ∉ slots_of (s0 :: ss) → (heap b ++ news) !! a = Some o ∧ a ∉ X) as Hc.
  { intros a o Ho HIn. pose proof (lookup_lt_Some _ _ _ Ho). split; [by rewrite lookup_app_l|].
    unfold X. rewrite elem_of_app. intros [H1|H1]; [specialize (Hfresh a H1); lia|done]. }
  assert (frames (heap b ++ news) X [] (s0 :: ss) (open_layers r)) as Hf1.
  { eapply frames_change; [exact Hc| |exact Hf]. intros a HIn. rewrite lookup_app_l; auto. }
  assert (∀ a, a ∈ slots_of (s0 :: ss) → a ∈ X) as HX by (intros a HIn; apply elem_of_app; by right).
  destruct (append_frames _ _ _ _ _ s.1 HX Hnd Hf1) as (h' & E & Hlen & Hout & Hf2).
  unfold PushLayer, AddLayer. cbn [layer_stack_ heap]. rewrite Htop, E. cbn [mbind result_bind mret result_ret].
  eexists. split; [done|].
  split; cbn [set_layer_stack set_heap heap layer_stack_ open_layers next_unique_id ref_next_id]; try done.
  - rewrite fmap_cons, reverse_cons. by rewrite Hs.
  - constructor; [|done]. eapply frame_change; [| |exact Hnew].
    + intros a o Ho HIn. split; [|done]. rewrite Hout; [done|]. unfold X in HIn. set_solver.
    + intros a HIn. apply Hout. auto.
  - apply NoDup_app. split; [done|]. split; [auto|done].
  - intros a [HIn|HIn]%elem_of_app; rewrite Hlen, length_app.
    + specialize (Hfresh a HIn). rewrite length_app in Hfresh. lia.
    + specialize (Ha a HIn). lia.
  - intros x t Hx. eapply reads_change; [|by apply Ht]. intros a o Ho HIn. destruct (Hc a o Ho HIn). split; [|done].
    by rewrite Hout.
Qed.

Lemma pop_related b r ss : related b r ss → ∃ ss',
  related (pop b) (mkReference (match open_layers r with l :: parent :: ls => adopt parent l :: ls | ls => ls end)
    (ref_next_id r) (ref_settings r)) ss'.
Proof.
  destruct r as [ols next settings]. cbn [open_layers ref_next_id ref_settings].
  intros [Hs Hf Hne Hnd Ha Ht Hn Hse]. cbn [open_layers] in Hf. unfold pop, PopLayer. rewrite Hs, length_reverse, length_fmap.
  destruct ss as [|s [|s' ss2]]; [done|..].
  - exists [s]. split; try done. cbn. inversion Hf as [|? ? ? ? ? ? Hrest]; subst. by inversion Hrest; subst.
  - exists (s' :: ss2). split; cbn [set_layer_stack heap layer_stack_ open_layers]; try done.
    + rewrite fmap_cons, reverse_cons. apply take_app_length'. by rewrite length_reverse, length_fmap.
    + inversion Hf as [|? ? ? ? ? ? Hrest]; subst. inversion Hrest; subst. by eapply pop_frames.
    + by apply NoDup_app in Hnd as (_ & _ & ?).
    + intros a HIn. apply Ha. rewrite slots_cons. set_solver.
    + intros x t Hx. eapply reads_change; [|by apply Ht]. intros a o Ho HIn. split; [done|]. rewrite slots_cons in HIn. set_solver.
Qed.

Lemma new_builder_related h next : (∀ x t, trees x = Some t → reads h [] x t) →
  ∃ b, new_builder h next ⇓ b ∧ related b (new_reference next) [(length h, None)].
Proof.
  intros Ht. unfold new_builder, make_shared, new_reference. cbn [next_unique_id]. destruct (NextUniqueID next) as [id next'].
  cbn [mbind result_bind PushLayer AddLayer layer_stack_ last mret result_ret]. eexists. split; [done|].
  assert (length h < length (h ++ [mkObject (new_state id) ContainerLayer []]))%nat by (rewrite length_app; cbn; lia).
  split; cbn -[slots_of]; try done.
  - constructor; [|constructor]. eapply (frame_plain _ _ _ _ _ _ []); [|done|constructor].
    by rewrite lookup_app_r, Nat.sub_diag by lia.
  - apply NoDup_singleton.
  - intros a ->%list_elem_of_singleton. done.
  - intros x t Hx. eapply reads_change; [|by apply Ht]. intros a o Ho _. pose proof (lookup_lt_Some _ _ _ Ho).
    split; [by rewrite lookup_app_l|]. intros Heq%list_elem_of_singleton. cbn in Heq. lia.
Qed.

Lemma push_new_related b r ss n : (∀ alpha offset, n ≠ OpacityLayer alpha offset) → related b r ss →
  ∃ b' ss', snd <$> push_new n b ⇓ b' ∧
    related b' (let '(id, next) := NextUniqueID (ref_next_id r) in
                mkReference (mkLayerT (new_state id) n [] :: open_layers r) next (ref_settings r)) ss'.
Proof.
  intros Hn Hr. unfold push_new, make_shared. rewrite (re_next _ _ _ Hr). destruct (NextUniqueID (ref_next_id r)) as [id next].
  edestruct (push_related b r ss [mkObject (new_state id) n []] next (length (heap b), None) (mkLayerT (new_state id) n []))
    as (b' & E & Hr'); [done|..].
  - apply NoDup_singleton.
  - intros a ->%list_elem_of_singleton. rewrite length_app. cbn. lia.
  - eapply (frame_plain _ _ _ _ _ _ []); [|done|constructor]. by rewrite lookup_app_r, Nat.sub_diag by lia.
  - cbn [fst] in E. rewrite E. by exists b', ((length (heap b), None) :: ss).
Qed.

Lemma push_opacity_related b r ss alpha dx dy : related b r ss →
  ∃ b' ss', snd <$> pushOpacity alpha dx dy b ⇓ b' ∧
    related b' (let '(id, next) := NextUniqueID (ref_next_id r) in let '(id', next) := NextUniqueID next in
                mkReference (new_opacity_layer id id' (wrapU 8 alpha) (dx, dy) :: open_layers r) next (ref_settings r)) ss'.
Proof.
  intros Hr. unfold pushOpacity, make_opacity, make_shared. rewrite (re_next _ _ _ Hr).
  destruct (NextUniqueID (ref_next_id r)) as [id next]. cbn [next_unique_id heap layer_stack_]. destruct (NextUniqueID next) as [id' next'].
  cbn [heap]. set (n := length (heap b)). unfold ContainerAdd.
  set (o := mkObject (new_state id) (OpacityLayer (wrapU 8 alpha) (dx, dy)) []). set (c := mkObject (new_state id') ContainerLayer []).
  rewrite <- app_assoc. cbn [app].
  assert ((heap b ++ [o; c]) !! n = Some o ∧ (heap b ++ [o; c]) !! S n = Some c) as [Ho _].
  { split; rewrite lookup_app_r by (unfold n; lia); unfold n; [by rewrite Nat.sub_diag|].
    by replace (S (length (heap b)) - length (heap b))%nat with 1%nat by lia. }
  rewrite Ho. cbn [of_option mbind result_bind mret result_ret]. rewrite length_app. cbn [length].
  replace (length (heap b) + 1)%nat with (S n) by (unfold n; lia).
  assert (∀ x, <[n := x]> (heap b ++ [o; c]) = heap b ++ [x; c]) as Hins.
  { intros x. pose proof (insert_app_r (heap b) [o; c] 0 x) as Hi. by rewrite Nat.add_0_r in Hi. }
  rewrite Hins. cbn [obj_layers o app].
  edestruct (push_related b r ss [set_obj_layers [S n] o; c] next' (n, Some (S n))) as (b' & E & Hr'); [done|..].
  - change (NoDup [n; S n]). apply NoDup_cons. split; [rewrite list_elem_of_singleton; lia|apply NoDup_singleton].
  - intros a Hin. change (a ∈ [n; S n]) in Hin. rewrite length_app. cbn [length].
    apply elem_of_cons in Hin as [->| ->%list_elem_of_singleton]; unfold n; lia.
  - eapply (frame_opacity _ _ _ _ _ _ _ _ _ []); [| |lia|constructor].
    + rewrite lookup_app_r by (unfold n; lia). unfold n. by rewrite Nat.sub_diag.
    + rewrite lookup_app_r by (unfold n; lia). unfold n. by replace (S (length (heap b)) - length (heap b))%nat with 1%nat by lia.
  - cbn [fst] in E. unfold set_heap. cbn [next_unique_id layer_stack_ tracing_threshold_ checkerboard_cache_ checkerboard_layers_].
    rewrite E. by exists b', ((n, Some (S n)) :: ss).
Qed.

Lemma add_object_related b r ss s n next : related b r ss →
  ∃ b', AddLayer (length (heap b)) (mkBuilder (heap b ++ [mkObject s n []]) next (layer_stack_ b) (tracing_threshold_ b)
            (checkerboard_cache_ b) (checkerboard_layers_ b)) ⇓ b' ∧
    related b' (mkReference (ref_add (mkLayerT s n []) (open_layers r)) next (ref_settings r)) ss.
Proof.
  intros Hr. pose proof (alloc_related b r ss [mkObject s n []] next Hr) as Hr'.
  destruct (add_related _ _ _ (length (heap b)) (mkLayerT s n []) Hr') as (b' & -> & Hb'); [|by exists b'].
  refine (reads_object _ _ _ (mkObject s n []) [] _ _ _); [cbn [heap]; by rewrite lookup_app_r, Nat.sub_diag by lia| |constructor].
  intros HIn. pose proof (re_alloc _ _ _ Hr _ HIn). lia.
Qed.

(** The settings are independent of the layers. *)
Lemma settings_related b r ss : related b r ss →
  (tracing_threshold_ b, checkerboard_cache_ b, checkerboard_layers_ b) = ref_settings r ∧
  ∀ t k l, related (mkBuilder (heap b) (next_unique_id b) (layer_stack_ b) t k l)
             (mkReference (open_layers r) (ref_next_id r) (t, k, l)) ss.
Proof. intros [Hs Hf Hne Hnd Ha Ht Hn Hse]. split; [done|]. by split. Qed.

(** A call that opens a layer, after its checks. *)
Ltac opens H :=
  try match goal with |- context [fml_dcheck ?x] => destruct x eqn:?; [rewrite fml_dcheck_true|by destruct (NextUniqueID _)] end;
  cbn [mbind result_bind mret result_ret];
  try match goal with E : matrix_isFinite _ = true |- _ => rewrite E end;
  match goal with |- context [push_new ?n _] => destruct (H n) as (? & ? & -> & ?); [done|] end;
  destruct (NextUniqueID _); intros [= <-]; eauto.

Lemma scene_step c b r ss r' : related b r ss → ref_step MakeLTRB trees c r = Some r' →
  ∃ b' ss', scene_exec MakeLTRB c b ⇓ b' ∧ related b' r' ss'.
Proof.
  intros Hr. pose proof (λ n Hn, push_new_related b r ss n Hn Hr) as Hpush.
  pose proof (λ s n next, add_object_related b r ss s n next Hr) as Hadd. pose proof (re_next _ _ _ Hr) as Hid. unfold ref_step.
  destruct c as [| | | | | | | | | | | |x|dx dy p hints| | | | | |]; cbn [effect_of scene_exec].
  - unfold pushTransform, ToSkMatrix, transform_node. destruct matrix4 as [m4|].
    + rewrite bool_decide_true, fml_dcheck_true by by eexists.
      cbn [mbind result_bind mret result_ret default from_option id]. change (matrix_of_nine (_ <$> _)) with (matrix3_of m4). opens Hpush.
    + rewrite bool_decide_false by (by intros [? ?]). by destruct (NextUniqueID _).
  - unfold pushOffset, transform_node. opens Hpush.
  - unfold pushClipRect. opens Hpush.
  - unfold pushClipRRect. opens Hpush.
  - unfold pushClipPath. opens Hpush.
  - destruct (push_opacity_related b r ss alpha dx dy Hr) as (b' & ss' & -> & Hr').
    destruct (NextUniqueID (ref_next_id r)) as [id next]. destruct (NextUniqueID next). intros [= <-]; eauto.
  - unfold pushColorFilter. opens Hpush.
  - unfold pushImageFilter. opens Hpush.
  - unfold pushBackdropFilter. opens Hpush.
  - unfold pushShaderMask. opens Hpush.
  - unfold pushPhysicalShape. opens Hpush.
  - destruct (NextUniqueID _). intros [= <-]. destruct (pop_related b r ss Hr) as (ss' & Hr'). eauto.
  - destruct (NextUniqueID _). destruct (trees x) as [t|] eqn:Ht; [|done]. cbn. intros [= <-].
    destruct (add_related b r ss x t Hr (re_trees _ _ _ Hr _ _ Ht)) as (b' & E & Hr'). unfold addRetained. eauto.
  - unfold addPicture, add_new, make_shared. rewrite Hid. destruct (NextUniqueID _) as [id next]. intros [= <-].
    rewrite (hint_bit hints 0 ltac:(done) : negb (Z.land hints 1 =? 0) = _), (hint_bit hints 1 ltac:(done) : negb (Z.land hints 2 =? 0) = _).
    destruct (Hadd (new_state id) (PictureLayer (dx, dy) (Some p)
      (Z.testbit hints 0) (Z.testbit hints 1)) next) as (b' & E & Hr'). eauto.
  - unfold addTexture, add_new, make_shared. rewrite Hid. destruct (NextUniqueID _) as [id next]. intros [= <-].
    edestruct Hadd as (b' & E & Hr'). eauto.
  - unfold addPlatformView, add_new, make_shared. rewrite Hid. destruct (NextUniqueID _) as [id next]. intros [= <-].
    edestruct Hadd as (b' & E & Hr'). eauto.
  - unfold addPerformanceOverlay, make_shared. rewrite Hid. destruct (NextUniqueID _) as [id next]. intros [= <-].
    cbn [heap]. set (o := mkObject _ _ _). set (f := λ o : Object, mkObject _ _ _).
    assert (alter f (length (heap b)) (heap b ++ [o]) = heap b ++ [f o]) as ->.
    { pose proof (alter_app_r f (heap b) [o] 0) as Ha. by rewrite Nat.add_0_r in Ha. }
    destruct (Hadd (set_paint_bounds (MakeLTRB left top right bottom) (new_state id)) (PerformanceOverlayLayer (wrapS 32 options)) next)
      as (b' & E & Hr'). eauto.
  - destruct (NextUniqueID _), (settings_related b r ss Hr) as [E Hset]. rewrite <- E. intros [= <-]. eexists _, ss. split; [done|]. apply Hset.
  - destruct (NextUniqueID _), (settings_related b r ss Hr) as [E Hset]. rewrite <- E. intros [= <-]. eexists _, ss. split; [done|]. apply Hset.
  - destruct (NextUniqueID _), (settings_related b r ss Hr) as [E Hset]. rewrite <- E. intros [= <-]. eexists _, ss. split; [done|]. apply Hset.
Qed.

Lemma scene_runs cs b r ss r' : related b r ss → ref_run MakeLTRB trees cs r = Some r' →
  ∃ b' ss', scene_run MakeLTRB cs b ⇓ b' ∧ related b' r' ss'.
Proof.
  revert b r ss. induction cs as [|c cs IH]; intros b r ss Hr; cbn; [intros [= <-]; eauto|].
  destruct (ref_step MakeLTRB trees c r) as [r1|] eqn:E; [|done]. cbn. intros Hrun.
  destruct (scene_step c b r ss r1 Hr E) as (b1 & ss1 & -> & Hr1). cbn. by eapply IH.
Qed.

Lemma ref_step_shape c r r' : (∀ x t, trees x = Some t → shaped t = true) → Forall open_shape (open_layers r) →
  ref_step MakeLTRB trees c r = Some r' → Forall open_shape (open_layers r').
Proof.
  intros Htr Ho. unfold ref_step. destruct (NextUniqueID (ref_next_id r)) as [id next].
  destruct (effect_of MakeLTRB c) as [n|alpha o|n bounds|x| |? ? ?|] eqn:Ee.
  - intros [= <-]. constructor; [|done].
    destruct c; cbn in Ee; repeat case_match; simplify_eq; by split.
  - destruct (NextUniqueID next). intros [= <-]. constructor; [|done]. split; [done|]. by eexists _, _.
  - intros [= <-]. apply ref_add_shape; [|done]. destruct c; cbn in Ee; repeat case_match; by simplify_eq.
  - destruct (trees x) as [t|] eqn:Ht; [|done]. cbn. intros [= <-]. apply ref_add_shape; [by eapply Htr|done].
  - intros [= <-]. cbn. destruct Ho as [|l ls Hl [|l' ls' Hl' Hls]]; [done|by apply Forall_singleton|].
    constructor; [|done]. apply adopt_shape; [done|]. by destruct Hl.
  - destruct (ref_settings r) as [[t k] l]. by intros [= <-].
  - done.
Qed.

Lemma ref_run_shape cs r r' : (∀ x t, trees x = Some t → shaped t = true) → Forall open_shape (open_layers r) →
  ref_run MakeLTRB trees cs r = Some r' → Forall open_shape (open_layers r').
Proof.
  intros Htr. revert r. induction cs as [|c cs IH]; intros r Ho; cbn; [by intros [= <-]|].
  destruct (ref_step MakeLTRB trees c r) as [r1|] eqn:E; [|done]. cbn. apply IH. by eapply ref_step_shape.
Qed.

End refinement.

Section claims.
Context `{bd : Build} `{cb : CacheBuild} `{sk : Skia} {ge : Geometry} {fm : Float64Matrix}.
Context (MakeLTRB : SkScalar → SkScalar → SkScalar → SkScalar → SkRect).

(** C34: For every sequence of builder calls that passes the builder's checks
    and retains layers of earlier scenes, which read back from the heap as
    finite trees, building the scene returns the layer tree of the reference
    builder, which keeps open layers on a stack and adds a layer to its parent
    only when it is closed; layers left open are closed, further pops of the
    root are ignored.  If the retained layers have the shape that painting
    relies on (one container below an opacity layer, no missing picture), so
    has the scene. *)
Theorem scene_builder_refines h next cs r metrics
    (Hrun : ref_run MakeLTRB (read_layer (length h) h) cs (new_reference next) = Some r) :
  ∃ b root t,
    (b ← new_builder h next; scene_run MakeLTRB cs b) ⇓ b ∧ build metrics b ⇓ Some t ∧
    ref_tree metrics r = Some t ∧ root_layer_ t = Some root ∧
    ((∀ x t, read_layer (length h) h x = Some t → shaped t = true) → shaped root = true).
Proof.
  destruct (new_builder_related MakeLTRB (read_layer (length h) h) h next) as (b0 & -> & Hr0); [intros x t; apply read_reads|].
  cbn [mbind result_bind]. destruct (scene_runs MakeLTRB _ cs b0 _ _ r Hr0 Hrun) as (b & ss & -> & Hr).
  destruct (close_all (heap b) ss (open_layers r)) as (root & a & Hroot & Ha & Hread); [apply Hr..|].
  pose proof (reads_read _ _ _ _ Hread) as Hrd. destruct (re_settings _ _ _ _ Hr).
  exists b, root. eexists. split; [done|]. unfold build. rewrite (re_stack _ _ _ _ Hr), length_reverse, length_fmap.
  assert ((1 <=? length ss)%nat = true) as -> by (destruct ss; [by destruct (re_open _ _ _ _ Hr)|done]).
  rewrite fml_dcheck_true. cbn [mbind result_bind]. rewrite head_reverse, Ha. cbn [of_option mbind result_bind].
  unfold Scene_create. rewrite Hrd. cbn [mbind option_bind]. split; [done|]. split; [|split; [done|]].
  - unfold ref_tree. rewrite Hroot. cbn. by rewrite <- (re_settings _ _ _ _ Hr).
  - intros Hsh. eapply ref_root_shape; [|exact Hroot]. eapply ref_run_shape; [exact Hsh| |exact Hrun].
    unfold new_reference. destruct (NextUniqueID next). apply Forall_singleton. by split.
Qed.
End claims.

(** ** A concrete scene *)

#[local] Existing Instances int_debug int_cache int_skia int_geometry.

(** Integer matrices keep the scale and the translation. *)
#[local] Instance int_float64 : @Float64Matrix int_skia := {|
  double := Z;
  to_scalar := (λ x : Z, x : @SkScalar int_skia);
  zero_double := 0;
  matrix_of_nine := (λ nine : list Z, mkI (nth 0 nine 0) (nth 2 nine 0) (nth 5 nine 0) : @SkMatrix int_skia);
|}.

(** An earlier frame left an opacity layer, its container and a picture on the
    heap; this frame retains it below a translation and leaves a clip open. *)
Definition earlier_heap : list Object :=
  [mkObject (new_state 2) (OpacityLayer 128 (0, 0)) [1%nat]; mkObject (new_state 3) ContainerLayer [2%nat];
   mkObject (new_state 4) (PictureLayer (0, 0) (Some (mkR 0 0 10 10, 4, 9)) false false) []].
Definition retained_script : list scene_call :=
  [CallPushTransform (Some [1; 0; 0; 0; 0; 1; 0; 0; 0; 0; 1; 0; 5; 5; 0; 1]); CallAddRetained 0%nat; CallPop; CallPop; CallPushClipRect 0 50 0 50 hardEdge; CallAddPlatformView 1 1 8 8 3].
Definition retained_result : Reference :=
  default (new_reference 5) (ref_run mkR (read_layer 3 earlier_heap) retained_script (new_reference 5)).

Definition metrics800 : ViewportMetrics := @mkMetrics int_skia (800, 600) 0 1.

Definition node_of (l : layer) : Node := let '(mkLayerT _ n _) := l in n.

Lemma scene_builder_refines_witness : ∃ b root t,
  (b ← new_builder earlier_heap 5; scene_run mkR retained_script b) ⇓ b ∧
  build metrics800 b ⇓ Some t ∧ root_layer_ t = Some root ∧ shaped root = true ∧
  node_of <$> layers_of root = [TransformLayer (mkI 1 5 5); ClipRectLayer (mkR 0 0 50 50) hardEdge].
Proof.
  destruct (@scene_builder_refines int_debug int_skia int_geometry int_float64 mkR earlier_heap 5 retained_script retained_result
    metrics800 eq_refl) as (b & root & t & Hb & Ht & Hr & Hroot & Hsh).
  exists b, root, t. split; [exact Hb|]. split; [exact Ht|]. split; [exact Hroot|].
  injection Hr as <-. injection Hroot as <-. split; [|reflexivity]. apply Hsh.
  intros [|[|[|x]]] t' H'; cbn in H'; simplify_eq; reflexivity.
Defined.

(** The builder accepts an opacity layer without children, but a debug build
    stops when the scene is prerolled. *)
Theorem empty_opacity_stops : ∃ b t,
  (b ← new_builder [] 1; scene_run mkR [CallPushOpacity 128 0 0; CallPop] b) ⇓ b ∧
  build metrics800 b ⇓ Some t ∧
  LayerTree_Preroll int_snapshot t (new_cache 1 3) None None tt (mkI 1 0 0) true ⇑ DCheckFailed.
Proof. eexists _, _. split; [reflexivity|]. split; [reflexivity|]. reflexivity. Qed.
