(* ===== verification/EmbedderViews.v ===== *)
(** * EmbedderViews: platform views for embedders with a compositor

    Model of [EmbedderExternalViewEmbedder] and [EmbedderLayers]
    (shell/platform/embedder/embedder_external_view_embedder.cc and
    embedder_layers.cc): the pictures drawn between platform views go to render
    targets that the embedder provides, and the embedder is told about
    everything it has to compose.  The embedder's callbacks and the pictures
    that were recorded are parameters; targets are numbered in the order in
    which they were created, and what happens to them is a list of events. *)

From Stdlib Require Import ZArith Lia.
From stdpp Require Import base sorting gmap numbers list.
From S2P Require Import Prelude StdMap RasterCache Layers.

Local Open Scope Z_scope.

(** More of Skia's geometry. *)
Class LayerGeometry `{sk : Skia} {ge : Geometry} := {
  rect_right : SkRect → SkScalar;
  rect_bottom : SkRect → SkScalar;
  rrect_rect : SkRRect → SkRect;
  (** In the order of [SkRRect::Corner]. *)
  rrect_radii : nat → SkRRect → SkScalar * SkScalar;
  matrix_get : nat → SkMatrix → SkScalar;
  matrix_isIdentity : SkMatrix → bool;
  MakeScale : SkScalar → SkMatrix;
  scalar_one : SkScalar;
  scalar_mul : SkScalar → SkScalar → SkScalar;
  (** [alpha / 255.0]. *)
  alpha_float : Z → SkScalar;
  scalar_to_int : SkScalar → Z;
}.

(** A render target; its surface may be missing, or have no canvas. *)
Record Target := mkTarget { target_id : nat; render_surface : option (Z * Z); surface_canvas : bool }.

#[export] Instance Target_eq_dec : EqDecision Target.
Proof. solve_decision. Defined.

Section embedder_layers.
Context `{bd : Build} `{sk : Skia} {ge : Geometry} {lg : LayerGeometry}.

(** ** What the embedder is told *)

Inductive FlutterPlatformViewMutation :=
  | MutationOpacity (opacity : SkScalar)
  | MutationClipRect (left top right bottom : SkScalar)
  | MutationClipRoundedRect (left top right bottom : SkScalar)
      (upper_left upper_right lower_right lower_left : SkScalar * SkScalar)
  | MutationTransformation (scaleX skewX transX skewY scaleY transY pers0 pers1 pers2 : SkScalar).

Inductive LayerContent :=
  | BackingStore (target : nat)
  | PlatformView (identifier : Z) (mutations : list FlutterPlatformViewMutation).

Record FlutterLayer := mkFlutterLayer {
  layer_content : LayerContent;
  layer_offset : SkScalar * SkScalar;
  layer_size : SkScalar * SkScalar;
}.

Definition ConvertRect (r : SkRect) : FlutterPlatformViewMutation :=
  MutationClipRect (rect_left r) (rect_top r) (rect_right r) (rect_bottom r).
Definition ConvertRRect (rrect : SkRRect) : FlutterPlatformViewMutation :=
  let r := rrect_rect rrect in
  MutationClipRoundedRect (rect_left r) (rect_top r) (rect_right r) (rect_bottom r)
    (rrect_radii 0 rrect) (rrect_radii 1 rrect) (rrect_radii 2 rrect) (rrect_radii 3 rrect).
(** [SkMatrix] is scaleX, skewX, transX, skewY, scaleY, transY, persp0..2. *)
Definition ConvertMatrix (m : SkMatrix) : FlutterPlatformViewMutation :=
  MutationTransformation (matrix_get 0 m) (matrix_get 1 m) (matrix_get 2 m) (matrix_get 3 m) (matrix_get 4 m)
    (matrix_get 5 m) (matrix_get 6 m) (matrix_get 7 m) (matrix_get 8 m).

(** [std::clamp]. *)
Definition clamp (v lo hi : SkScalar) : SkScalar := if scalar_ltb v lo then lo else if scalar_ltb hi v then hi else v.

Record EmbedderLayers := mkEmbedderLayers {
  layers_frame_size : Z * Z;
  layers_pixel_ratio : SkScalar;
  layers_transformation : SkMatrix;
  presented_layers_ : list FlutterLayer;
}.

Definition new_layers (size : Z * Z) (ratio : SkScalar) (m : SkMatrix) : EmbedderLayers := mkEmbedderLayers size ratio m [].

Definition push_layer (content : LayerContent) (bounds : SkRect) (e : EmbedderLayers) : EmbedderLayers :=
  let r := mapRect (layers_transformation e) bounds in
  mkEmbedderLayers (layers_frame_size e) (layers_pixel_ratio e) (layers_transformation e)
    (presented_layers_ e ++ [mkFlutterLayer content (rect_left r, rect_top r) (rect_width r, rect_height r)]).

Definition PushBackingStoreLayer (target : nat) (e : EmbedderLayers) : EmbedderLayers :=
  push_layer (BackingStore target) (MakeSize (layers_frame_size e)) e.

(** One turn of the loop over the mutators. *)
Definition convert_mutator (m : Mutator) : list FlutterPlatformViewMutation :=
  match m with
  | clip_rect r => [ConvertRect r]
  | clip_rrect r => [ConvertRRect r]
  | clip_path _ => []
  | transform m => if matrix_isIdentity m then [] else [ConvertMatrix m]
  | opacity alpha =>
      let opacity := clamp (alpha_float alpha) scalar_zero scalar_one in
      if scalar_ltb opacity scalar_one then [MutationOpacity opacity] else []
  end.

(** [Bottom] is the last mutator of the vector and [Top] the one before its
    first: the loop runs over the reversed vector. *)
Definition view_mutations (ratio : SkScalar) (transformation : SkMatrix) (mutators : list Mutator)
    : list FlutterPlatformViewMutation :=
  let base := matrix_concat transformation (MakeScale ratio) in
  (match mutators with [] => [] | _ => if matrix_isIdentity base then [] else [ConvertMatrix base] end) ++
  (reverse mutators ≫= convert_mutator).

Definition PushPlatformViewLayer (identifier : Z) (params : EmbeddedViewParams) (e : EmbedderLayers) : EmbedderLayers :=
  push_layer
    (PlatformView identifier (view_mutations (layers_pixel_ratio e) (layers_transformation e) (mutatorsStack params)))
    (MakeXYWH (offsetPixels params).1 (offsetPixels params).2
       (scalar_mul (sizePoints params).1 (layers_pixel_ratio e)) (scalar_mul (sizePoints params).2 (layers_pixel_ratio e))) e.

(** ** The embedder *)

Inductive TargetEvent :=
  | TargetCreated (target : nat)
  | TargetReleased (target : nat)
  | Presented (layers : list FlutterLayer).

(** The recorders and spies of the views are owned by the maps: what is kept
    of a recorder is whether it is recording. *)
Record Views := mkViews {
  pending_frame_size_ : Z * Z;
  pending_device_pixel_ratio_ : SkScalar;
  pending_surface_transformation_ : SkMatrix;
  pending_recorders_ : list (Z * bool);
  pending_canvas_spies_ : list (Z * unit);
  pending_params_ : list (Z * EmbeddedViewParams);
  composition_order_ : list Z;
  root_render_target_ : option Target;
  (** [None] without a root picture recorder, otherwise whether it records. *)
  root_picture_recorder_ : option bool;
  registry_ : gmap (Z * (Z * Z)) Target;
  created_targets : nat;
  target_events : list TargetEvent;
}.

Definition new_views : Views := mkViews (0, 0) scalar_one matrix_identity [] [] [] [] None None ∅ 0 [].

Definition set_pending size ratio m v := mkViews size ratio m (pending_recorders_ v) (pending_canvas_spies_ v)
  (pending_params_ v) (composition_order_ v) (root_render_target_ v) (root_picture_recorder_ v) (registry_ v)
  (created_targets v) (target_events v).
Definition set_maps recorders spies params order v := mkViews (pending_frame_size_ v) (pending_device_pixel_ratio_ v)
  (pending_surface_transformation_ v) recorders spies params order (root_render_target_ v) (root_picture_recorder_ v)
  (registry_ v) (created_targets v) (target_events v).
Definition set_root target v := mkViews (pending_frame_size_ v) (pending_device_pixel_ratio_ v)
  (pending_surface_transformation_ v) (pending_recorders_ v) (pending_canvas_spies_ v) (pending_params_ v)
  (composition_order_ v) target (root_picture_recorder_ v) (registry_ v) (created_targets v) (target_events v).
Definition set_root_recorder recorder v := mkViews (pending_frame_size_ v) (pending_device_pixel_ratio_ v)
  (pending_surface_transformation_ v) (pending_recorders_ v) (pending_canvas_spies_ v) (pending_params_ v)
  (composition_order_ v) (root_render_target_ v) recorder (registry_ v) (created_targets v) (target_events v).
Definition set_registry r v := mkViews (pending_frame_size_ v) (pending_device_pixel_ratio_ v)
  (pending_surface_transformation_ v) (pending_recorders_ v) (pending_canvas_spies_ v) (pending_params_ v)
  (composition_order_ v) (root_render_target_ v) (root_picture_recorder_ v) r (created_targets v) (target_events v).
Definition happened (es : list TargetEvent) v := mkViews (pending_frame_size_ v) (pending_device_pixel_ratio_ v)
  (pending_surface_transformation_ v) (pending_recorders_ v) (pending_canvas_spies_ v) (pending_params_ v)
  (composition_order_ v) (root_render_target_ v) (root_picture_recorder_ v) (registry_ v) (created_targets v)
  (target_events v ++ es).

(** [create_render_target_callback_]: the answer to the n-th call for a size.
    The surface may be null and may have no canvas. *)
Context (create_callback : nat → Z * Z → option (option (Z * Z) * bool)).

Definition create_render_target (size : Z * Z) (v : Views) : option Target * Views :=
  let n := created_targets v in
  let v' := mkViews (pending_frame_size_ v) (pending_device_pixel_ratio_ v)
    (pending_surface_transformation_ v) (pending_recorders_ v) (pending_canvas_spies_ v) (pending_params_ v)
    (composition_order_ v) (root_render_target_ v) (root_picture_recorder_ v) (registry_ v) (S n) (target_events v) in
  match create_callback n size with
  | Some (surface, canvas) => (Some (mkTarget n surface canvas), happened [TargetCreated n] v')
  | None => (None, v')
  end.

Definition Reset (v : Views) : Views := set_maps [] [] [] [] v.
Definition CancelFrame (v : Views) : Views := Reset v.

(** Without a callback the transformation is the identity. *)
Definition GetSurfaceTransformation (answer : option SkMatrix) : SkMatrix := default matrix_identity answer.

Definition TransformedSurfaceSize (size : Z * Z) (transformation : SkMatrix) : Z * Z :=
  let r := mapRect transformation (MakeSize size) in (scalar_to_int (rect_width r), scalar_to_int (rect_height r)).

(** The root target of the previous frame is kept when its surface has the
    size of this one. *)
Definition discard_root (surface_size : Z * Z) (v : Views) : Views :=
  match root_render_target_ v with
  | Some t =>
      if bool_decide (render_surface t = Some surface_size) then v
      else happened [TargetReleased (target_id t)] (set_root None v)
  | None => v
  end.

Definition BeginFrame (frame_size : Z * Z) (device_pixel_ratio : SkScalar) (transformation : option SkMatrix) (v : Views)
    : Views :=
  let v := set_pending frame_size device_pixel_ratio (GetSurfaceTransformation transformation) (Reset v) in
  let surface_size := TransformedSurfaceSize (pending_frame_size_ v) (pending_surface_transformation_ v) in
  let v := discard_root surface_size v in
  let v := match root_render_target_ v with
           | Some _ => v
           | None => let '(t, v) := create_render_target surface_size v in set_root t v
           end in
  set_root_recorder (Some true) v.

Definition count {V} (id : Z) (m : list (Z * V)) : bool := bool_decide (is_Some (StdMap.find Z.ltb id m)).

Definition PrerollCompositeEmbeddedView (view_id : Z) (params : EmbeddedViewParams) (v : Views) : result Views :=
  _ ← fml_dcheck (negb (count view_id (pending_recorders_ v)));
  _ ← fml_dcheck (negb (count view_id (pending_canvas_spies_ v)));
  _ ← fml_dcheck (negb (count view_id (pending_params_ v)));
  _ ← fml_dcheck (negb (bool_decide (view_id ∈ composition_order_ v)));
  mret (set_maps (StdMap.assign Z.ltb view_id true (pending_recorders_ v))
          (StdMap.assign Z.ltb view_id tt (pending_canvas_spies_ v))
          (StdMap.assign Z.ltb view_id params (pending_params_ v))
          (composition_order_ v ++ [view_id]) v).

(** The views whose canvases are returned, in order. *)
Definition GetCurrentCanvases (v : Views) : list Z := fst <$> pending_canvas_spies_ v.
Definition CompositeEmbeddedView (view_id : Z) (v : Views) : result (option Z) :=
  if count view_id (pending_canvas_spies_ v) then mret (Some view_id)
  else _ ← fml_dcheck false; mret None.
(** Whether the canvas of the root recorder is returned. *)
Definition GetRootCanvas (v : Views) : bool := bool_decide (is_Some (root_picture_recorder_ v)).

(** What was recorded in this frame: the picture of the root and of each view,
    if it could be made, whether anything was drawn for the view, and what
    Skia does when a recorder that is no longer recording is finished again. *)
Record Recorded := mkRecorded {
  root_picture : bool;
  view_picture : Z → bool;
  DidDrawIntoCanvas : Z → bool;
  finish_again : result bool;
}.

(** Whether there is a picture. *)
Definition finishRecordingAsPicture (recorded : Recorded) (recording picture : bool) : result bool :=
  if recording then mret picture else finish_again recorded.

Definition RenderPictureToRenderTarget (picture : bool) (t : option Target) : bool :=
  picture && match t with
             | Some t => bool_decide (is_Some (render_surface t)) && surface_canvas t
             | None => false
             end.

(** Targets whose last reference goes away with [m] while [keep] stays. *)
Definition released (m keep : gmap (Z * (Z * Z)) Target) : list TargetEvent :=
  (λ kt, TargetReleased (target_id kt.2)) <$>
    filter (λ kt, keep !! kt.1 ≠ Some kt.2) (map_to_list m).

(** The loop of [SubmitFrame]; [false] is an early return. *)
Fixpoint submit_views (recorded : Recorded) (surface_size : Z * Z) (views : list Z)
    (used : gmap (Z * (Z * Z)) Target) (layers : EmbedderLayers) (v : Views)
    : result (bool * gmap (Z * (Z * Z)) Target * EmbedderLayers * Views) :=
  match views with
  | [] => mret (true, used, layers, v)
  | view_id :: views =>
      _ ← fml_dcheck (count view_id (pending_recorders_ v));
      _ ← fml_dcheck (count view_id (pending_canvas_spies_ v));
      _ ← fml_dcheck (count view_id (pending_params_ v));
      params ← of_option OutOfRange (StdMap.find Z.ltb view_id (pending_params_ v));
      recording ← of_option OutOfRange (StdMap.find Z.ltb view_id (pending_recorders_ v));
      let v := set_maps (StdMap.assign Z.ltb view_id false (pending_recorders_ v)) (pending_canvas_spies_ v)
                 (pending_params_ v) (composition_order_ v) v in
      picture ← finishRecordingAsPicture recorded recording (view_picture recorded view_id);
      if negb picture then mret (false, used, layers, v)
      else
        let layers := PushPlatformViewLayer view_id params layers in
        _ ← of_option OutOfRange (StdMap.find Z.ltb view_id (pending_canvas_spies_ v));
        if negb (DidDrawIntoCanvas recorded view_id) then submit_views recorded surface_size views used layers v
        else
          let key := (view_id, surface_size) in
          let '(target, v) := match registry_ v !! key with
                              | Some t => (Some t, v)
                              | None => create_render_target surface_size v
                              end in
          match target with
          | None => mret (false, used, layers, v)
          | Some t =>
              let used := <[key := t]> used in
              if negb (RenderPictureToRenderTarget picture target) then mret (false, used, layers, v)
              else submit_views recorded surface_size views used (PushBackingStoreLayer (target_id t) layers) v
          end
  end.

Definition SubmitFrame (recorded : Recorded) (v : Views) : result (bool * Views) :=
  let layers := new_layers (pending_frame_size_ v) (pending_device_pixel_ratio_ v) (pending_surface_transformation_ v) in
  match root_render_target_ v with
  | None => mret (false, v)
  | Some root =>
      recording ← of_option NullDeref (root_picture_recorder_ v);
      picture ← finishRecordingAsPicture recorded recording (root_picture recorded);
      if negb (RenderPictureToRenderTarget picture (Some root))
      then mret (false, set_root_recorder (Some false) v)
      else
        let v := set_root_recorder None v in
        let layers := PushBackingStoreLayer (target_id root) layers in
        let surface_size := TransformedSurfaceSize (pending_frame_size_ v) (pending_surface_transformation_ v) in
        '(ok, used, layers, v) ← submit_views recorded surface_size (composition_order_ v) ∅ layers v;
        if (ok : bool) then
          let v := happened [Presented (presented_layers_ layers)] v in
          mret (true, happened (released (registry_ v) used) (set_registry used v))
        else mret (false, happened (released used (registry_ v)) v)
  end.
End embedder_layers.
