(* ===== verification/EmbedderViewsProofs.v ===== *)
(** * EmbedderViewsProofs: render targets and presented layers

    The first theorem follows the render targets through any sequence of
    calls: a monitor reads the events and accepts them only if no target is
    used or released when it is not alive.  The second says what a frame
    presents. *)

From Stdlib Require Import ZArith Lia.
From stdpp Require Import base sorting gmap numbers list.
From S2P Require Import Prelude StdMap RasterCache Layers IntGeometry Instrumentation EmbedderViews.

Local Open Scope Z_scope.
#[local] Set Default Proof Using "Type*".

Abbreviation Registry := (gmap (Z * (Z * Z)) Target).

Section targets.
Context `{bd : Build} `{sk : Skia} {ge : Geometry} {lg : LayerGeometry}.

(** ** The monitor *)

Definition backing_stores (ls : list FlutterLayer) : list nat :=
  ls ≫= λ l, match layer_content l with BackingStore n => [n] | PlatformView _ _ => [] end.

(** The targets that are alive, and a bound on the ones created so far. *)
Definition monitor_step (s : option (gset nat * nat)) (e : TargetEvent) : option (gset nat * nat) :=
  '(alive, bound) ← s;
  match e with
  | TargetCreated n => if (bound <=? n)%nat then Some ({[n]} ∪ alive, S n) else None
  | TargetReleased n => if bool_decide (n ∈ alive) then Some (alive ∖ {[n]}, bound) else None
  | Presented ls => if forallb (λ n, bool_decide (n ∈ alive)) (backing_stores ls) then Some (alive, bound) else None
  end.

Definition monitor_from s (es : list TargetEvent) : option (gset nat * nat) := foldl monitor_step s es.
Definition monitor (es : list TargetEvent) : option (gset nat * nat) := monitor_from (Some (∅, 0%nat)) es.

Lemma monitor_app es es' : monitor (es ++ es') = monitor_from (monitor es) es'.
Proof. apply foldl_app. Qed.

(** ** Targets of a registry *)

Definition ids (m : Registry) : gset nat := list_to_set ((λ kt, target_id kt.2) <$> map_to_list m).

Lemma elem_of_ids m n : n ∈ ids m ↔ ∃ k t, m !! k = Some t ∧ target_id t = n.
Proof.
  unfold ids. rewrite elem_of_list_to_set, list_elem_of_fmap. split.
  - intros ([k t] & -> & Hin%elem_of_map_to_list). by exists k, t.
  - intros (k & t & Hk & <-). exists (k, t). split; [done|]. by apply elem_of_map_to_list.
Qed.

Definition distinct (m : Registry) : Prop :=
  ∀ k k' t t', m !! k = Some t → m !! k' = Some t' → target_id t = target_id t' → k = k'.

Lemma released_events (a keep : Registry) :
  released a keep = TargetReleased <$> ((λ kt, target_id kt.2) <$> filter (λ kt, keep !! kt.1 ≠ Some kt.2) (map_to_list a)).
Proof. unfold released. by rewrite <- list_fmap_compose. Qed.

Lemma monitor_releases ns alive bound : NoDup ns → (∀ n, n ∈ ns → n ∈ alive) →
  monitor_from (Some (alive, bound)) (TargetReleased <$> ns) = Some (alive ∖ list_to_set ns, bound).
Proof.
  intros Hnd. revert alive. induction Hnd as [|n ns Hn _ IH]; intros alive Hin; cbn.
  - do 2 f_equal. set_solver.
  - rewrite bool_decide_true by set_solver. unfold monitor_from in IH. rewrite IH.
    + do 2 f_equal. set_solver.
    + intros n' Hn'. apply elem_of_difference. split; [set_solver|]. intros ->%elem_of_singleton. done.
Qed.

(** Two registries of which one is dropped: the targets of the other stay. *)
Lemma release_rest (root : gset nat) (a keep m : Registry) bound :
  distinct m → (∀ n, n ∈ root → n ∉ ids m) → a ⊆ m → keep ⊆ m →
  (∀ k t, m !! k = Some t → a !! k = Some t ∨ keep !! k = Some t) →
  monitor_from (Some (root ∪ ids m, bound)) (released a keep) = Some (root ∪ ids keep, bound).
Proof.
  intros Hd Hr Ha Hk Hm. rewrite released_events.
  assert (∀ n, n ∈ ((λ kt : Z * (Z * Z) * Target, target_id kt.2) <$> filter (λ kt, keep !! kt.1 ≠ Some kt.2) (map_to_list a)) ↔
    ∃ k t, a !! k = Some t ∧ keep !! k ≠ Some t ∧ target_id t = n) as Hel.
  { intros n. rewrite list_elem_of_fmap. split.
    - intros ([k t] & -> & [Hf Hin%elem_of_map_to_list]%list_elem_of_filter). by exists k, t.
    - intros (k & t & Hak & Hkk & <-). exists (k, t). split; [done|]. apply list_elem_of_filter. split; [done|].
      by apply elem_of_map_to_list. }
  rewrite monitor_releases.
  - do 2 f_equal. apply leibniz_equiv. intros n. rewrite elem_of_difference, !elem_of_union, elem_of_list_to_set, Hel, !elem_of_ids. split.
    + intros [[?|(k & t & Hmk & <-)] Hno]; [by left|]. right. exists k, t. split; [|done].
      destruct (Hm k t Hmk) as [Hak|]; [|done]. destruct (decide (keep !! k = Some t)); [done|].
      exfalso. apply Hno. by exists k, t.
    + intros [Hroot|(k & t & Hkk & <-)]; (split; [|intros (k' & t' & Hak' & Hne & Heq)]).
      * by left.
      * apply (Hr n Hroot). apply elem_of_ids. exists k', t'. split; [by eapply lookup_weaken|done].
      * right. exists k, t. split; [by eapply lookup_weaken|done].
      * assert (k' = k) as -> by (eapply Hd; [by eapply lookup_weaken|by eapply lookup_weaken|done]).
        apply Hne. assert (m !! k = Some t) by by eapply lookup_weaken. assert (m !! k = Some t') by by eapply lookup_weaken.
        by simplify_eq.
  - apply NoDup_fmap_2_strong; [|apply NoDup_filter, NoDup_map_to_list].
    intros [k t] [k' t'] [_ H1%elem_of_map_to_list]%list_elem_of_filter [_ H2%elem_of_map_to_list]%list_elem_of_filter Heq.
    cbn in Heq. assert (m !! k = Some t) as E1 by by eapply lookup_weaken. assert (m !! k' = Some t') as E2 by by eapply lookup_weaken.
    assert (k = k') as -> by by eapply Hd. by simplify_eq.
  - intros n (k & t & Hak & _ & <-)%Hel. apply elem_of_union_r, elem_of_ids. exists k, t. split; [by eapply lookup_weaken|done].
Qed.
End targets.

Section tracking.
Context `{bd : Build} `{sk : Skia} {ge : Geometry} {lg : LayerGeometry}.

(** ** The invariant *)

Definition root_ids (v : Views) : gset nat := match root_render_target_ v with Some t => {[target_id t]} | None => ∅ end.

(** While a frame is submitted, [used] are the targets it uses and [ls] the
    layers pushed so far. *)
Record tracked (v : Views) (used : Registry) (ls : list FlutterLayer) : Prop := {
  tr_monitor : ∃ bound, monitor (target_events v) = Some (root_ids v ∪ ids (used ∪ registry_ v), bound) ∧
    (bound ≤ created_targets v)%nat;
  tr_distinct : distinct (used ∪ registry_ v);
  tr_root : ∀ n, n ∈ root_ids v → (n ∉ ids (used ∪ registry_ v)) ∧ (n < created_targets v)%nat;
  tr_bound : ∀ n, n ∈ ids (used ∪ registry_ v) → (n < created_targets v)%nat;
  tr_sub : registry_ v ⊆ used ∪ registry_ v;
  tr_layers : ∀ n, n ∈ backing_stores ls → n ∈ root_ids v ∪ ids used;
  tr_recorded : ∀ id size, is_Some (used !! (id, size)) → StdMap.find Z.ltb id (pending_recorders_ v) = Some false;
}.

Lemma ids_mono a b n : a ⊆ b → n ∈ ids a → n ∈ ids b.
Proof. intros Hs (k & t & Hk & <-)%elem_of_ids. apply elem_of_ids. exists k, t. split; [by eapply lookup_weaken|done]. Qed.

Lemma ids_insert k t m : m !! k = None → ids (<[k := t]> m) = {[target_id t]} ∪ ids m.
Proof.
  intros Hk. apply leibniz_equiv. intros n. rewrite elem_of_union, elem_of_singleton, !elem_of_ids. split.
  - intros (k' & t' & [[-> ->]|[Hne Hl]]%lookup_insert_Some & <-); [by left|]. right. by exists k', t'.
  - intros [->|(k' & t' & Hl & <-)].
    + exists k, t. by rewrite lookup_insert_eq.
    + exists k', t'. split; [|done]. rewrite lookup_insert_ne; [done|]. intros ->. by simplify_eq.
Qed.

(** Only the recorders change. *)
Lemma tracked_maps v used ls recorders spies params order :
  (∀ id, StdMap.find Z.ltb id (pending_recorders_ v) = Some false → StdMap.find Z.ltb id recorders = Some false) →
  tracked v used ls → tracked (set_maps recorders spies params order v) used ls.
Proof. intros Hr [? ? ? ? ? ? ?]. split; try done. cbn. eauto. Qed.

(** A target of the registry is used again. *)
Lemma tracked_reuse v used ls id size t :
  registry_ v !! (id, size) = Some t → used !! (id, size) = None →
  StdMap.find Z.ltb id (pending_recorders_ v) = Some false → tracked v used ls → tracked v (<[(id, size) := t]> used) ls.
Proof.
  intros Hreg Hused Hrec [Hm Hd Hr Hb Hs Hl Hrd].
  assert ((<[(id, size) := t]> used) ∪ registry_ v = used ∪ registry_ v) as E.
  { apply map_eq. intros k. destruct (decide (k = (id, size))) as [->|Hne].
    - rewrite (lookup_union_r used) by done. rewrite Hreg. apply lookup_union_Some_l. by rewrite lookup_insert_eq.
    - rewrite !lookup_union, lookup_insert_ne; done. }
  split; rewrite ?E; try done.
  - intros n Hn. rewrite ids_insert by done. specialize (Hl n Hn). set_solver.
  - intros id' size' [t' Ht']. apply lookup_insert_Some in Ht' as [[? ?]|[? ?]]; [by simplify_eq|]. eapply Hrd; eauto.
Qed.

Lemma backing_stores_push content bounds e :
  backing_stores (presented_layers_ (push_layer content bounds e)) =
    backing_stores (presented_layers_ e) ++ match content with BackingStore n => [n] | PlatformView _ _ => [] end.
Proof. unfold backing_stores, push_layer. cbn. rewrite bind_app. cbn. by rewrite app_nil_r. Qed.

Lemma tracked_layers v used ls ls' : (∀ n, n ∈ backing_stores ls' → n ∈ backing_stores ls ∨ n ∈ ids used) →
  tracked v used ls → tracked v used ls'.
Proof. intros Hls [? ? ? ? ? Hl ?]. split; try done. intros n [Hn|Hn]%Hls; [by apply Hl|set_solver]. Qed.

(** A state between frames. *)
Definition settled (v : Views) : Prop := tracked v ∅ [].

Lemma settled_same v v' :
  target_events v' = target_events v → root_render_target_ v' = root_render_target_ v → registry_ v' = registry_ v →
  created_targets v' = created_targets v → settled v → settled v'.
Proof.
  intros He Hr Hg Hc [Hm Hd Hro Hb Hs Hl Hrd]. unfold root_ids in *.
  split; unfold root_ids; rewrite ?He, ?Hr, ?Hg, ?Hc; try done. intros id size Hsome. by rewrite lookup_empty in Hsome.
Qed.

Lemma discard_settled size v : settled v → settled (discard_root size v).
Proof.
  unfold discard_root. destruct (root_render_target_ v) as [t|] eqn:Hroot; [|done]. case_bool_decide; [done|].
  intros [(b & Hm & Hle) Hd Hro Hb Hs Hl Hrd]. unfold root_ids in Hm, Hro. rewrite Hroot in Hm, Hro.
  destruct (Hro (target_id t)) as [Hn Hlt]; [by apply elem_of_singleton|]. split; try done.
  - exists b. split; [|done]. cbn [happened target_events set_root registry_ root_ids root_render_target_]. rewrite monitor_app, Hm.
    cbn. rewrite bool_decide_true by set_solver. do 2 f_equal. set_solver.
  - intros n Hn'. by apply elem_of_nil in Hn'.
Qed.

Lemma new_views_settled : settled new_views.
Proof.
  split; cbn; try done.
  - exists 0%nat. split; [|lia]. cbn. do 2 f_equal.
  - intros n Hn. by apply elem_of_nil in Hn.
  - intros id size Hs. by rewrite lookup_empty in Hs.
Qed.

Context (create_callback : nat → Z * Z → option (option (Z * Z) * bool)).
Local Abbreviation SubmitFrame := (SubmitFrame create_callback).
Local Abbreviation submit_views := (submit_views create_callback).

(** A new target. *)
Lemma tracked_create v used ls id size t v' :
  registry_ v !! (id, size) = None → used !! (id, size) = None →
  StdMap.find Z.ltb id (pending_recorders_ v) = Some false →
  create_render_target create_callback size v = (Some t, v') → tracked v used ls → tracked v' (<[(id, size) := t]> used) ls.
Proof.
  intros Hreg Hused Hrec Hc [Hm Hd Hr Hb Hs Hl Hrd]. unfold create_render_target in Hc.
  destruct (create_callback (created_targets v) size) as [[surface canvas]|]; [|done]. injection Hc as <- <-.
  set (t := mkTarget (created_targets v) surface canvas). set (M := used ∪ registry_ v) in *.
  assert (M !! (id, size) = None) as HM by (unfold M; by rewrite lookup_union_r).
  assert ((<[(id, size) := t]> used) ∪ registry_ v = <[(id, size) := t]> M) as E by (unfold M; by rewrite insert_union_l).
  assert (created_targets v ∉ ids M) as Hfresh by (intros Hin%Hb; lia).
  split; cbn [registry_ created_targets target_events happened root_render_target_ pending_recorders_]; rewrite ?E; fold M.
  - destruct Hm as (bound & Hm & Hle). exists (S (created_targets v)). rewrite monitor_app, Hm. cbn.
    rewrite (proj2 (Nat.leb_le _ _)) by done. split; [|done]. rewrite ids_insert by done. do 2 f_equal.
    change (root_ids _) with (root_ids v). cbn. set_solver.
  - intros k k' t1 t2 [[<- <-]|[Hne H1]]%lookup_insert_Some [[<- <-]|[Hne' H2]]%lookup_insert_Some Heq; try done.
    + destruct Hfresh. apply elem_of_ids. by exists k', t2.
    + destruct Hfresh. apply elem_of_ids. by exists k, t1.
    + by eapply Hd.
  - intros n Hn. destruct (Hr n Hn) as [Hn1 Hn2]. rewrite ids_insert by done. split; [|lia].
    rewrite elem_of_union, elem_of_singleton. intros [->|]; [cbn in Hn2; lia|done].
  - intros n. rewrite ids_insert by done. rewrite elem_of_union, elem_of_singleton. intros [->|Hn%Hb]; cbn; lia.
  - rewrite Hs. by apply insert_subseteq.
  - intros n Hn. change (root_ids _) with (root_ids v). rewrite ids_insert by done. specialize (Hl n Hn). set_solver.
  - intros id' size' [t' Ht']. apply lookup_insert_Some in Ht' as [[? ?]|[? ?]]; [by simplify_eq|]. eapply Hrd; eauto.
Qed.

(** A call that gave no target. *)
Lemma tracked_no_target v used ls size v' :
  create_render_target create_callback size v = (None, v') → tracked v used ls → tracked v' used ls.
Proof.
  unfold create_render_target. destruct (create_callback (created_targets v) size) as [[surface canvas]|]; [done|].
  intros [= <-] [(b & Hm & Hle) Hd Hr Hb Hs Hl Hrd]. split; try done.
  - exists b. split; [done|]. cbn. lia.
  - intros n Hn. destruct (Hr n Hn). split; [done|]. cbn. lia.
  - intros n Hn. specialize (Hb n Hn). cbn. lia.
Qed.

(** ** The calls *)

Lemma submit_views_tracked recorded size views used e v ok used' e' v' : finish_again recorded ≠ Ok true →
  tracked v used (presented_layers_ e) → submit_views recorded size views used e v ⇓ (ok, used', e', v') →
  tracked v' used' (presented_layers_ e') ∧ registry_ v' = registry_ v ∧ root_render_target_ v' = root_render_target_ v.
Proof.
  intros Hagain. revert used e v. induction views as [|id views IH]; intros used e v Ht; [intros [= <- <- <- <-]; done|].
  cbn [EmbedderViews.submit_views]. intros H.
  apply bind_Ok in H as (_ & _ & H). apply bind_Ok in H as (_ & _ & H). apply bind_Ok in H as (_ & _ & H).
  apply bind_Ok in H as (params & _ & H). apply bind_Ok in H as (recording & Hrec%of_option_Ok & H).
  set (v1 := set_maps _ _ _ _ v) in H.
  assert (∀ ls, tracked v used ls → tracked v1 used ls) as Ht1.
  { intros ls. apply tracked_maps. intros id' Hid'. rewrite find_assign. by destruct (id =? id'). }
  assert (StdMap.find Z.ltb id (pending_recorders_ v1) = Some false) as Hrec1 by (cbn; by rewrite find_assign, Z.eqb_refl).
  apply bind_Ok in H as ([] & Hpic & H); cbn [negb] in H; [|injection H as <- <- <- <-; by split; [apply Ht1|]].
  assert (recording = true) as -> by by destruct recording.
  assert (∀ sz, used !! (id, sz) = None) as Hunused.
  { intros sz. destruct (used !! (id, sz)) eqn:E; [|done]. assert (StdMap.find Z.ltb id (pending_recorders_ v) = Some false) as E'
      by (apply (tr_recorded _ _ _ Ht id sz); rewrite E; by eexists). by rewrite Hrec in E'. }
  set (e1 := PushPlatformViewLayer id params e) in H.
  assert (tracked v1 used (presented_layers_ e1)) as Ht2.
  { apply Ht1. eapply tracked_layers; [|exact Ht]. intros n. unfold e1, PushPlatformViewLayer. rewrite backing_stores_push, app_nil_r. by left. }
  apply bind_Ok in H as (_ & _ & H).
  destruct (DidDrawIntoCanvas recorded id); cbn [negb] in H; [|exact (IH used e1 v1 Ht2 H)].
  assert (∃ target v2, (match registry_ v1 !! (id, size) with Some t => (Some t, v1) | None => create_render_target create_callback size v1 end)
    = (target, v2) ∧ registry_ v2 = registry_ v ∧ root_render_target_ v2 = root_render_target_ v ∧
    match target with Some t => tracked v2 (<[(id, size) := t]> used) (presented_layers_ e1) | None => tracked v2 used (presented_layers_ e1) end)
    as (target & v2 & E & Hreg & Hroot & Ht3).
  { destruct (registry_ v1 !! (id, size)) as [t|] eqn:Ereg.
    - exists (Some t), v1. do 3 (split; [done|]). by apply tracked_reuse.
    - destruct (create_render_target create_callback size v1) as [target v2] eqn:Ec. exists target, v2. split; [done|].
      split; [|split]; [unfold create_render_target in Ec; destruct (create_callback _ _) as [[??]|]; by simplify_eq..|].
      destruct target as [t|]; [by eapply tracked_create|by eapply tracked_no_target]. }
  rewrite E in H. destruct target as [t|]; [|by injection H as <- <- <- <-].
  destruct (negb (RenderPictureToRenderTarget true (Some t))); [by injection H as <- <- <- <-|].
  eapply IH in H as (Ht' & Hr' & Hroot'); [by rewrite Hr', Hroot', Hreg, Hroot|].
  eapply tracked_layers; [|exact Ht3]. intros n. unfold PushBackingStoreLayer. rewrite backing_stores_push.
  intros [?| ->%list_elem_of_singleton]%elem_of_app; [by left|]. right. rewrite ids_insert by done. set_solver.
Qed.

(** Dropping one of the two registries at the end of a frame. *)
Lemma settle v used ls a keep :
  tracked v used ls → a ⊆ used ∪ registry_ v → keep ⊆ used ∪ registry_ v →
  (∀ k t, (used ∪ registry_ v) !! k = Some t → a !! k = Some t ∨ keep !! k = Some t) →
  settled (happened (released a keep) (set_registry keep v)).
Proof.
  intros [(b & Hm & Hle) Hd Hro Hb Hs Hl Hrd] Ha Hk Hcov.
  assert (root_ids (happened (released a keep) (set_registry keep v)) = root_ids v) as Er by done.
  split; cbn [registry_ happened set_registry created_targets target_events]; rewrite ?Er, ?(left_id_L ∅ (∪)).
  - exists b. split; [|done]. rewrite monitor_app, Hm. eapply release_rest; try done. intros n Hn. by apply Hro.
  - intros k k' t t' H1 H2. eapply Hd; by eapply lookup_weaken.
  - intros n Hn. destruct (Hro n Hn) as [H1 H2]. split; [|done]. intros H3. apply H1. by eapply ids_mono.
  - intros n Hn. apply Hb. by eapply ids_mono.
  - done.
  - intros n Hn. by apply elem_of_nil in Hn.
  - intros id size Hsome. by rewrite lookup_empty in Hsome.
Qed.

Lemma submit_settled recorded v ok v' : finish_again recorded ≠ Ok true → settled v → SubmitFrame recorded v ⇓ (ok, v') → settled v'.
Proof.
  intros Hagain Ht. unfold EmbedderViews.SubmitFrame. destruct (root_render_target_ v) as [root|] eqn:Hroot; [|by intros [= <- <-]].
  intros H. apply bind_Ok in H as (recording & _ & H). apply bind_Ok in H as (picture & _ & H).
  destruct (negb (RenderPictureToRenderTarget _ _)); [injection H as <- <-; by apply (settled_same v)|].
  apply bind_Ok in H as ([[[ok' used] e] v1] & Hs & H). set (v0 := set_root_recorder None v) in Hs.
  assert (tracked v0 ∅ [mkFlutterLayer (BackingStore (target_id root)) (scalar_zero, scalar_zero) (scalar_zero, scalar_zero)]) as Ht0.
  { assert (settled v0) as [? ? ? ? ? ? ?] by by apply (settled_same v). split; try done.
    intros n ->%list_elem_of_singleton. apply elem_of_union_l. unfold root_ids. cbn. rewrite Hroot. by apply elem_of_singleton. }
  apply submit_views_tracked in Hs as (Ht1 & Hreg & Hro); [|done|].
  2:{ eapply tracked_layers; [|exact Ht0]. intros n. unfold PushBackingStoreLayer. rewrite backing_stores_push. by left. }
  destruct ok'.
  - injection H as <- <-. set (v2 := happened [Presented (presented_layers_ e)] v1).
    assert (tracked v2 used (presented_layers_ e)) as Ht2.
    { destruct Ht1 as [(b & Hm & Hle) Hd Hr Hb Hsb Hl Hrd]. split; try done. exists b. split; [|done].
      change (target_events v2) with (target_events v1 ++ [Presented (presented_layers_ e)]). rewrite monitor_app, Hm. cbn. rewrite (proj2 (forallb_forall _ _)); [done|].
      intros n Hn%list_elem_of_In%Hl. apply bool_decide_eq_true. apply elem_of_union in Hn as [|Hn]; [by apply elem_of_union_l|].
      apply elem_of_union_r. eapply ids_mono; [|exact Hn]. apply map_union_subseteq_l. }
    eapply (settle v2 used (presented_layers_ e) (registry_ v2) used); [done|apply Ht2|apply map_union_subseteq_l|].
    intros k t [?|[_ ?]]%lookup_union_Some_raw; auto.
  - injection H as <- <-.
    assert (settled (happened (released used (registry_ v1)) (set_registry (registry_ v1) v1))) as Hset.
    { eapply settle; [exact Ht1|apply map_union_subseteq_l|apply Ht1|]. intros k t [?|[_ ?]]%lookup_union_Some_raw; auto. }
    revert Hset. by apply settled_same.
Qed.

Lemma create_root_settled size v t v' : root_render_target_ v = None →
  create_render_target create_callback size v = (t, v') → settled v → settled (set_root t v').
Proof.
  intros Hroot Hc Ht. pose proof Ht as [(b & Hm & Hle) Hd Hro Hb Hs Hl Hrd].
  destruct t as [t|].
  - unfold create_render_target in Hc. destruct (create_callback (created_targets v) size) as [[surface canvas]|]; [|done].
    injection Hc as <- <-. unfold root_ids in Hm. rewrite Hroot in Hm. split; try done; cbn -[monitor ids distinct].
    + exists (S (created_targets v)). rewrite monitor_app, Hm. cbn. rewrite (proj2 (Nat.leb_le _ _)) by done.
      split; [|done]. do 2 f_equal. set_solver.
    + intros n ->%elem_of_singleton. split; [|cbn; lia]. intros Hin%Hb. cbn in Hin. lia.
    + intros n Hn%Hb. lia.
    + intros n Hn'. by apply elem_of_nil in Hn'.
  - pose proof (tracked_no_target _ _ _ _ _ Hc Ht) as Ht'. revert Ht'. apply settled_same; try done.
    unfold create_render_target in Hc. destruct (create_callback _ _) as [[??]|]; [done|]. by injection Hc as <-.
Qed.

Lemma begin_settled size ratio m v : settled v → settled (BeginFrame create_callback size ratio m v).
Proof.
  intros Ht. unfold BeginFrame. set (v0 := set_pending _ _ _ _). set (sz := TransformedSurfaceSize _ _).
  assert (settled (discard_root sz v0)) as Ht0 by (by apply discard_settled, (settled_same v)).
  destruct (root_render_target_ (discard_root sz v0)) eqn:Hroot.
  - by apply (settled_same (discard_root sz v0)).
  - destruct (create_render_target create_callback sz (discard_root sz v0)) as [t v'] eqn:Hc.
    eapply create_root_settled in Hc; [|done|done]. by apply (settled_same (set_root t v')).
Qed.

(** The calls of the rasterizer, in any order. *)
Inductive view_call :=
  | CallBeginFrame (frame_size : Z * Z) (ratio : SkScalar) (transformation : option SkMatrix)
  | CallPreroll (view_id : Z) (params : EmbeddedViewParams)
  | CallCancelFrame
  | CallSubmitFrame (recorded : Recorded).

Definition view_exec (c : view_call) (v : Views) : result Views :=
  match c with
  | CallBeginFrame size ratio m => mret (BeginFrame create_callback size ratio m v)
  | CallPreroll id params => PrerollCompositeEmbeddedView id params v
  | CallCancelFrame => mret (CancelFrame v)
  | CallSubmitFrame recorded => snd <$> SubmitFrame recorded v
  end.

Fixpoint view_run (cs : list view_call) (v : Views) : result Views :=
  match cs with [] => mret v | c :: cs => v ← view_exec c v; view_run cs v end.

(** A recorder that was finished gives no second picture: the caller of
    [finishRecordingAsPicture] is done recording and owns what was recorded. *)
Definition no_second_picture (c : view_call) : Prop :=
  match c with CallSubmitFrame recorded => finish_again recorded ≠ Ok true | _ => True end.

Lemma exec_settled c v v' : no_second_picture c → settled v → view_exec c v ⇓ v' → settled v'.
Proof.
  intros Hc Ht. destruct c as [size ratio m|id params| |recorded]; cbn [view_exec].
  - intros [= <-]. by apply begin_settled.
  - unfold PrerollCompositeEmbeddedView. intros H.
    apply bind_Ok in H as (_ & _ & H). apply bind_Ok in H as (_ & _ & H). apply bind_Ok in H as (_ & _ & H).
    apply bind_Ok in H as (_ & _ & H). injection H as <-. by apply (settled_same v).
  - intros [= <-]. by apply (settled_same v).
  - destruct (SubmitFrame recorded v) as [[ok v1]|] eqn:E; [|done]. intros [= <-]. by eapply submit_settled.
Qed.

Lemma run_settled cs v v' : Forall no_second_picture cs → settled v → view_run cs v ⇓ v' → settled v'.
Proof.
  intros Hcs. revert v. induction Hcs as [|c cs Hc Hcs IH]; intros v Ht; cbn; [by intros [= <-]|].
  destruct (view_exec c v) as [v1|] eqn:E; [|done]. cbn. apply IH. by eapply exec_settled.
Qed.

(** ** Claims *)

End tracking.

(** ** What a frame presents *)

Section frames.
Context `{bd : Build} `{sk : Skia} {ge : Geometry} {lg : LayerGeometry}.
Implicit Types (vs : list (Z * EmbeddedViewParams)) (used : Registry).

Definition renderable (t : Target) : Prop := is_Some (render_surface t) ∧ surface_canvas t = true.

Lemma render_renderable t : renderable t → RenderPictureToRenderTarget true (Some t) = true.
Proof. intros [Hs Hc]. cbn. by rewrite bool_decide_true, Hc. Qed.

(** What is presented for the views, with the targets of [used]. *)
Definition view_contents (ratio : SkScalar) (m : SkMatrix) (drew : Z → bool) (size : Z * Z) used vs : list LayerContent :=
  vs ≫= λ ip, PlatformView ip.1 (view_mutations ratio m (mutatorsStack ip.2)) ::
                if drew ip.1 then from_option (λ t, [BackingStore (target_id t)]) [] (used !! (ip.1, size)) else [].

(** The views have been prerolled and nothing was submitted yet. *)
Record prerolled_views (v : Views) vs : Prop := {
  pv_recorder : ∀ id p, (id, p) ∈ vs → StdMap.find Z.ltb id (pending_recorders_ v) = Some true;
  pv_spy : ∀ id p, (id, p) ∈ vs → StdMap.find Z.ltb id (pending_canvas_spies_ v) = Some tt;
  pv_params : ∀ id p, (id, p) ∈ vs → StdMap.find Z.ltb id (pending_params_ v) = Some p;
}.

Lemma prerolled_tail v id p vs : NoDup (fst <$> ((id, p) :: vs)) → prerolled_views v ((id, p) :: vs) →
  prerolled_views (set_maps (StdMap.assign Z.ltb id false (pending_recorders_ v)) (pending_canvas_spies_ v)
    (pending_params_ v) (composition_order_ v) v) vs.
Proof.
  intros [Hn _]%NoDup_cons [Hr Hs Hp]. split; cbn.
  - intros id' p' Hin. rewrite find_assign. destruct (Z.eqb_spec id id') as [->|].
    + destruct Hn. apply list_elem_of_fmap. by exists (id', p').
    + eapply Hr. by right.
  - intros id' p' Hin. eapply Hs. by right.
  - intros id' p' Hin. eapply Hp. by right.
Qed.

Lemma preroll_views vs v :
  NoDup (fst <$> vs) → pending_recorders_ v = [] → pending_canvas_spies_ v = [] → pending_params_ v = [] → composition_order_ v = [] →
  ∃ r s p v', foldl (λ v ip, v ← v; PrerollCompositeEmbeddedView ip.1 ip.2 v) (mret v) vs ⇓ v' ∧
    v' = set_maps r s p (fst <$> vs) v ∧ prerolled_views v' vs ∧
    (∀ id, id ∉ fst <$> vs → StdMap.find Z.ltb id r = None ∧ StdMap.find Z.ltb id s = None ∧ StdMap.find Z.ltb id p = None).
Proof.
  intros Hnd Hr Hs Hp Ho. induction vs as [|[id par] vs IH] using rev_ind.
  - exists [], [], [], v. split; [done|]. split; [destruct v; cbn in *; by subst|]. split; [|done].
    split; intros ? ? Hin; by apply elem_of_nil in Hin.
  - rewrite fmap_app in Hnd. apply NoDup_app in Hnd as (Hnd & Hdis & _). rewrite foldl_app. cbn [foldl].
    destruct (IH Hnd) as (r & s & p & v1 & -> & -> & [Hr1 Hs1 Hp1] & Hout). cbn [mbind result_bind fst snd].
    assert (id ∉ fst <$> vs) as Hid by (intros Hin; apply (Hdis id Hin); by apply list_elem_of_singleton).
    destruct (Hout id Hid) as (E1 & E2 & E3). unfold PrerollCompositeEmbeddedView, count. cbn.
    rewrite E1, E2, E3, (bool_decide_false (id ∈ fst <$> vs)) by done.
    rewrite !bool_decide_false by (by intros [? ?]). cbn. rewrite !fml_dcheck_true. cbn.
    eexists _, _, _, _. split; [done|]. split; [unfold set_maps; cbn; by rewrite fmap_app|]. cbn in Hr1, Hs1, Hp1. split.
    + split; cbn; intros id' p' [Hin|[= -> ->]%list_elem_of_singleton]%elem_of_app; rewrite find_assign, ?Z.eqb_refl; try done;
        (destruct (Z.eqb_spec id id') as [->|]; [destruct Hid; apply list_elem_of_fmap; by exists (id', p')|eauto]).
    + intros id'. rewrite fmap_app, not_elem_of_app. intros [H1 H2]. rewrite !find_assign.
      destruct (Z.eqb_spec id id') as [->|]; [destruct H2; by apply list_elem_of_singleton|]. by apply Hout.
Qed.

Context (create_callback : nat → Z * Z → option (option (Z * Z) * bool)).
Context (Hgood : ∀ n size, ∃ s, create_callback n size = Some (Some s, true)).

Lemma create_good size v : ∃ t v', create_render_target create_callback size v = (Some t, v') ∧ renderable t ∧
  registry_ v' = registry_ v ∧ root_render_target_ v' = root_render_target_ v ∧
  pending_recorders_ v' = pending_recorders_ v ∧ pending_canvas_spies_ v' = pending_canvas_spies_ v ∧
  pending_params_ v' = pending_params_ v.
Proof.
  unfold create_render_target. destruct (Hgood (created_targets v) size) as [s ->]. eexists _, _. split; [done|]. by repeat split.
Qed.

Lemma prerolled_same v v' vs :
  pending_recorders_ v' = pending_recorders_ v → pending_canvas_spies_ v' = pending_canvas_spies_ v →
  pending_params_ v' = pending_params_ v → prerolled_views v vs → prerolled_views v' vs.
Proof. intros E1 E2 E3 [? ? ?]. by split; rewrite ?E1, ?E2, ?E3. Qed.

(** The target for the overlay of a view. *)
Lemma view_target id size v : map_Forall (λ _ t, renderable t) (registry_ v) → ∃ t v',
  (match registry_ v !! (id, size) with Some t => (Some t, v) | None => create_render_target create_callback size v end) = (Some t, v') ∧
  renderable t ∧ (∀ t', registry_ v !! (id, size) = Some t' → t' = t) ∧
  registry_ v' = registry_ v ∧ root_render_target_ v' = root_render_target_ v ∧ (∀ vs, prerolled_views v vs → prerolled_views v' vs).
Proof.
  intros Hreg. destruct (registry_ v !! (id, size)) as [t|] eqn:E.
  - exists t, v. split; [done|]. split; [by eapply Hreg|]. split; [|done]. by intros t' [= ->].
  - destruct (create_good size v) as (t & v' & -> & Ht & Hr & Hro & E1 & E2 & E3). exists t, v'.
    do 3 (split; [done|]). split; [done|]. split; [done|]. intros vs. by apply prerolled_same.
Qed.

Lemma submit_views_ok recorded size vs used e v :
  NoDup (fst <$> vs) → prerolled_views v vs → (∀ id, id ∈ fst <$> vs → view_picture recorded id = true) →
  map_Forall (λ _ t, renderable t) (registry_ v) → (∀ id, id ∈ fst <$> vs → used !! (id, size) = None) →
  ∃ used' e' v', submit_views create_callback recorded size (fst <$> vs) used e v ⇓ (true, used', e', v') ∧
    used ⊆ used' ∧ registry_ v' = registry_ v ∧ root_render_target_ v' = root_render_target_ v ∧
    layer_content <$> presented_layers_ e' = (layer_content <$> presented_layers_ e) ++
      view_contents (layers_pixel_ratio e) (layers_transformation e) (DidDrawIntoCanvas recorded) size used' vs ∧
    (∀ k t, used' !! k = Some t → used !! k = Some t ∨
       (renderable t ∧ (∃ id, id ∈ fst <$> vs ∧ DidDrawIntoCanvas recorded id = true ∧ k = (id, size)) ∧
        ∀ t', registry_ v !! k = Some t' → t' = t)) ∧
    (∀ id, id ∈ fst <$> vs → DidDrawIntoCanvas recorded id = true → is_Some (used' !! (id, size))).
Proof.
  revert used e v. induction vs as [|[id p] vs IH]; intros used e v Hnd Hpre Hpic Hreg Hused.
  { exists used, e, v. cbn. rewrite app_nil_r. split; [done|]. do 4 (split; [done|]). split; [by left|]. intros id Hin. by apply elem_of_nil in Hin. }
  cbn [fmap list_fmap fst submit_views]. unfold count. pose proof Hpre as [Hr Hs Hp].
  rewrite (Hr id p), (Hs id p), (Hp id p) by (by left). rewrite !bool_decide_true by (by eexists). rewrite !fml_dcheck_true.
  cbn [mbind result_bind of_option]. set (v1 := set_maps _ _ _ _ v).
  assert (prerolled_views v1 vs) as Hpre1 by by apply prerolled_tail with p.
  assert (NoDup (fst <$> vs)) as Hnd1 by by apply NoDup_cons in Hnd as [_ ?].
  assert (id ∉ fst <$> vs) as Hid by by apply NoDup_cons in Hnd as [? _].
  rewrite (Hpic id) by (by left). cbn [finishRecordingAsPicture mbind result_bind mret result_ret negb pending_canvas_spies_ v1 set_maps]. rewrite (Hs id p) by (by left).
  cbn [of_option mbind result_bind]. set (e1 := PushPlatformViewLayer id p e).
  assert (layer_content <$> presented_layers_ e1 = (layer_content <$> presented_layers_ e) ++
    [PlatformView id (view_mutations (layers_pixel_ratio e) (layers_transformation e) (mutatorsStack p))]) as He1
    by (unfold e1, PushPlatformViewLayer, push_layer; cbn; by rewrite fmap_app).
  assert (∀ id', id' ∈ fst <$> vs → view_picture recorded id' = true) as Hpic1 by (intros id' Hin; apply Hpic; by right).
  destruct (DidDrawIntoCanvas recorded id) eqn:Hdrew; cbn [negb].
  - destruct (view_target id size v1 Hreg) as (t & v2 & -> & Hren & Hkeep & Hr2 & Hro2 & Hpre2).
    rewrite (render_renderable t Hren). cbn [negb].
    destruct (IH (<[(id, size) := t]> used) (PushBackingStoreLayer (target_id t) e1) v2) as (used' & e' & v' & -> & Hsub & Hr3 & Hro3 & Hc & Hnew & Hall);
      [done|by apply Hpre2|done|by rewrite Hr2| |].
    { intros id' Hin. rewrite lookup_insert_ne by (intros [= ->]; done). apply Hused. by right. }
    assert (used' !! (id, size) = Some t) as Hut by (eapply lookup_weaken; [|exact Hsub]; apply lookup_insert_eq).
    exists used', e', v'. split; [done|]. split; [|split; [by rewrite Hr3, Hr2|split; [by rewrite Hro3, Hro2|split; [|split]]]].
    + etrans; [|exact Hsub]. apply insert_subseteq. apply Hused. by left.
    + rewrite Hc. cbn [view_contents mbind list_bind]. unfold PushBackingStoreLayer, push_layer at 1. cbn [presented_layers_ layers_pixel_ratio layers_transformation].
      rewrite fmap_app, He1. cbn [fst snd]. rewrite Hdrew, Hut. cbn. by rewrite <- !app_assoc.
    + intros k t' Hk. destruct (Hnew k t' Hk) as [[[<- <-]|[Hne Hold]]%lookup_insert_Some|(Hren' & (id' & Hin & Hd & ->) & Hkp)].
      * right. split; [done|]. split; [exists id; split; [by left|done]|]. exact Hkeep.
      * by left.
      * right. split; [done|]. split; [exists id'; split; [by right|done]|]. by rewrite Hr2 in Hkp.
    + intros id' [->|Hin]%elem_of_cons Hd; [by rewrite Hut|by apply Hall].
  - destruct (IH used e1 v1) as (used' & e' & v' & -> & Hsub & Hr3 & Hro3 & Hc & Hnew & Hall); [done|done|done|done| |].
    { intros id' Hin. apply Hused. by right. }
    exists used', e', v'. split; [done|]. split; [done|]. split; [done|]. split; [done|]. split; [|split].
    + rewrite Hc, He1. cbn [view_contents mbind list_bind fst snd]. rewrite Hdrew. by rewrite <- !app_assoc.
    + intros k t' Hk. destruct (Hnew k t' Hk) as [|(Hren' & (id' & Hin & Hd & ->) & Hkp)]; [by left|].
      right. split; [done|]. split; [|done]. exists id'. split; [by right|done].
    + intros id' [->|Hin]%elem_of_cons Hd; [by rewrite Hd in Hdrew|by apply Hall].
Qed.

Lemma preroll_run vs v :
  view_run create_callback ((λ ip, CallPreroll ip.1 ip.2) <$> vs) v =
    foldl (λ v ip, v ← v; PrerollCompositeEmbeddedView ip.1 ip.2 v) (mret v) vs.
Proof.
  assert (∀ f, foldl (λ v ip, v ← v; PrerollCompositeEmbeddedView ip.1 ip.2 v) (Fault f) vs = Fault f) as Hf
    by (intros f; induction vs; by cbn).
  revert v Hf. induction vs as [|[id p] vs IH]; intros v Hf; [done|]. cbn.
  destruct (PrerollCompositeEmbeddedView id p v) as [v1|f]; cbn; [|symmetry; apply (Hf f)]. apply IH. intros f. apply (Hf f).
Qed.

(** Everything the embedder holds can be rendered to. *)
Definition ready (v : Views) : Prop :=
  (∀ t, root_render_target_ v = Some t → renderable t) ∧ map_Forall (λ _ t, renderable t) (registry_ v).

Lemma begin_ready size ratio m v : ready v → let v1 := BeginFrame create_callback size ratio m v in
  registry_ v1 = registry_ v ∧ root_picture_recorder_ v1 = Some true ∧
  (∃ root, root_render_target_ v1 = Some root ∧ renderable root) ∧
  pending_recorders_ v1 = [] ∧ pending_canvas_spies_ v1 = [] ∧ pending_params_ v1 = [] ∧ composition_order_ v1 = [] ∧
  pending_frame_size_ v1 = size ∧ pending_device_pixel_ratio_ v1 = ratio ∧ pending_surface_transformation_ v1 = default matrix_identity m.
Proof.
  intros [Hroot _] v1. unfold v1, BeginFrame, discard_root, create_render_target, GetSurfaceTransformation. cbn.
  set (sz := TransformedSurfaceSize _ _). destruct (root_render_target_ v) as [t|] eqn:E; [case_bool_decide|]; cbn.
  - rewrite E. cbn. split; [done|]. split; [done|]. split; [by exists t; split; [|apply Hroot]|]. done.
  - destruct (Hgood (created_targets v) sz) as [s ->]. cbn. split; [done|]. split; [done|]. split; [by eexists|]. done.
  - rewrite E. cbn. destruct (Hgood (created_targets v) sz) as [s ->]. cbn. split; [done|]. split; [done|]. split; [by eexists|]. done.
Qed.

(** When the embedder's callbacks give targets that can be rendered to and
    the pictures could be recorded, a frame with distinct views succeeds.  It
    presents the root target first, then the views in the order in which they
    were prerolled, each with its mutations and followed by the target of its
    overlay exactly when something was drawn over it; afterwards the registry
    holds exactly these targets, and those it had before for the same view and
    size were used again. *)
Theorem frame_presents size ratio m vs recorded v (Hready : ready v) (Hnd : NoDup (fst <$> vs))
    (Hroot : root_picture recorded = true) (Hpic : ∀ id, id ∈ fst <$> vs → view_picture recorded id = true) :
  let transformation := default matrix_identity m in
  let surface_size := TransformedSurfaceSize size transformation in
  ∃ v1 v2 es ls root,
    view_run create_callback (CallBeginFrame size ratio m :: ((λ ip, CallPreroll ip.1 ip.2) <$> vs)) v ⇓ v1 ∧
    SubmitFrame create_callback recorded v1 ⇓ (true, v2) ∧
    target_events v2 = es ++ Presented ls :: released (registry_ v) (registry_ v2) ∧
    root_render_target_ v2 = Some root ∧
    layer_content <$> ls = BackingStore (target_id root) ::
      view_contents ratio transformation (DidDrawIntoCanvas recorded) surface_size (registry_ v2) vs ∧
    (∀ k, is_Some (registry_ v2 !! k) ↔ ∃ id, id ∈ fst <$> vs ∧ DidDrawIntoCanvas recorded id = true ∧ k = (id, surface_size)) ∧
    (∀ k t t', registry_ v !! k = Some t → registry_ v2 !! k = Some t' → t' = t) ∧ ready v2.
Proof.
  intros transformation surface_size. cbn [view_run view_exec mbind result_bind mret result_ret].
  destruct (begin_ready size ratio m v Hready) as (Hreg & Hrec & (root & Hro & Hren) & E1 & E2 & E3 & E4 & E5 & E6 & E7).
  set (v0 := BeginFrame create_callback size ratio m v) in *. rewrite preroll_run.
  destruct (preroll_views vs v0 Hnd E1 E2 E3 E4) as (r & s & p & v1 & Hrun & Hv1 & Hpre & _).
  exists v1. unfold SubmitFrame.
  assert (root_render_target_ v1 = Some root ∧ root_picture_recorder_ v1 = Some true ∧ registry_ v1 = registry_ v ∧
    composition_order_ v1 = fst <$> vs ∧ pending_frame_size_ v1 = size ∧ pending_device_pixel_ratio_ v1 = ratio ∧
    pending_surface_transformation_ v1 = transformation) as (F1 & F2 & F3 & F4 & F5 & F6 & F7) by (subst v1; by cbn).
  rewrite F1, F2. cbn [of_option mbind result_bind]. rewrite Hroot. cbn [finishRecordingAsPicture mbind result_bind mret result_ret]. rewrite (render_renderable root Hren). cbn [negb].
  rewrite F5, F6, F7. cbn [composition_order_ pending_frame_size_ pending_surface_transformation_ set_root_recorder].
  rewrite F4, F5, F7. set (e0 := PushBackingStoreLayer _ _). fold surface_size.
  destruct (submit_views_ok recorded surface_size vs ∅ e0 (set_root_recorder None v1)) as
    (used & e & v2 & -> & _ & Hr2 & Hro2 & Hc & Hnew & Hall); [done|by apply (prerolled_same v1)|done| |by intros; apply lookup_empty|].
  { cbn. rewrite F3. apply Hready. }
  cbn [mbind result_bind mret result_ret]. cbn in Hr2, Hro2. rewrite F3 in Hr2. rewrite F1 in Hro2.
  eexists _, (target_events v2), (presented_layers_ e), root. split; [exact Hrun|]. split; [reflexivity|].
  cbn [target_events happened set_registry registry_ root_render_target_]. split; [by rewrite Hr2, <- app_assoc|].
  split; [done|]. split; [by rewrite Hc|]. split; [|split].
  - intros k. split.
    + intros [t Ht]. destruct (Hnew k t Ht) as [Hl|(_ & Hex & _)]; [by rewrite lookup_empty in Hl|done].
    + intros (id & Hin & Hd & ->). by apply Hall.
  - intros k t t' Hk Hk'. destruct (Hnew k t' Hk') as [Hl|(_ & _ & Hkeep)]; [by rewrite lookup_empty in Hl|].
    symmetry. apply Hkeep. cbn. by rewrite F3.
  - split; [intros t; cbn; rewrite Hro2; by intros [= <-]|].
    intros k t Ht. destruct (Hnew k t Ht) as [Hl|(Hrn & _)]; [by rewrite lookup_empty in Hl|done].
Qed.
End frames.

(** ** Concrete frames *)

#[local] Existing Instances int_debug int_skia int_geometry.
Definition int_layer_geometry : LayerGeometry := {|
  rect_right := right_; rect_bottom := bottom_; rrect_rect (r : IRect) := r; rrect_radii _ _ := (0, 0);
  matrix_get i m := match i with O | 4%nat => sc m | 2%nat => tx m | 5%nat => ty m | 8%nat => 1 | _ => 0 end;
  matrix_isIdentity m := (sc m =? 1) && (tx m =? 0) && (ty m =? 0); MakeScale s := mkI s 0 0;
  scalar_one := 1; scalar_mul := Z.mul; alpha_float alpha := alpha / 255; scalar_to_int x := x;
|}.
#[local] Existing Instance int_layer_geometry.

Definition int_targets (_ : nat) (size : Z * Z) : option (option (Z * Z) * bool) := Some (Some size, true).
Definition all_recorded : Recorded := mkRecorded true (λ _, true) (λ id, id =? 7) (Fault UndefinedBehaviour).
Definition view_params : EmbeddedViewParams := mkParams (5, 5) (10, 10) [transform (mkI 1 5 5); opacity 128].
Definition two_frames : list view_call :=
  [CallBeginFrame (100, 100) (1 : SkScalar) None; CallPreroll 7 view_params; CallSubmitFrame all_recorded;
   CallBeginFrame (200, 100) (1 : SkScalar) None; CallPreroll 9 view_params; CallSubmitFrame all_recorded].


Lemma new_views_ready : ready new_views.
Proof. split; [done|]. apply map_Forall_empty. Qed.

Lemma frame_presents_witness : ∃ v1 v2 es ls,
  view_run int_targets [CallBeginFrame (100, 100) (1 : SkScalar) None; CallPreroll 9 view_params; CallPreroll 7 view_params] new_views ⇓ v1 ∧
  SubmitFrame int_targets all_recorded v1 ⇓ (true, v2) ∧ target_events v2 = es ++ Presented ls :: [] ∧
  (λ c, match c with BackingStore _ => -1 | PlatformView id _ => id end) ∘ layer_content <$> ls = [-1; 9; 7; -1].
Proof.
  destruct (@frame_presents int_debug int_skia int_geometry int_layer_geometry int_targets (λ n s, ex_intro _ s eq_refl)
    (100, 100) 1 None [(9, view_params); (7, view_params)] all_recorded new_views new_views_ready) as
    (v1 & v2 & es & ls & root & Hrun & Hs & He & Hroot & Hc & Hk & _); [|reflexivity|done|].
  - cbn. apply NoDup_cons. split; [|apply NoDup_singleton]. rewrite list_elem_of_singleton. lia.
  - exists v1, v2, es, ls. split; [exact Hrun|]. split; [exact Hs|]. split; [exact He|].
    rewrite list_fmap_compose, Hc. set (size := TransformedSurfaceSize _ _) in *.
    destruct (proj2 (Hk (7, size))) as [t Ht]; [exists 7; split; [by right; left|done]|].
    unfold view_contents. cbn [mbind list_bind fst snd all_recorded DidDrawIntoCanvas Z.eqb Pos.eqb]. rewrite Ht. reflexivity.
Defined.

(** A view below a translation and then a scale: the embedder has to apply the
    mutations in order, but is given the scale first. *)
Theorem mutations_reversed :
  view_mutations (1 : SkScalar) (mkI 1 0 0) [transform (mkI 1 10 0); transform (mkI 2 0 0)] =
    [ConvertMatrix (mkI 2 0 0); ConvertMatrix (mkI 1 10 0)] ∧
  matrix_concat (mkI 2 0 0) (mkI 1 10 0) ≠ matrix_concat (mkI 1 10 0) (mkI 2 0 0).
Proof. split; [reflexivity|]. vm_compute. discriminate. Qed.
