(* ===== verification/ShellThreads.v ===== *)
(** * ShellThreads: the handshakes of the shell's threads

    The shell (shell/common/shell.cc) creates, suspends and destroys its parts
    on the threads that own them and blocks the caller on a latch until they
    are done.  A thread is a list of actions to run and a queue of posted
    tasks; [step_thread] is one action of one thread, and the steps of all
    threads interleave freely.  What the actions do to the parts of the shell
    is an [Effect], recorded with its thread in the order of execution.

    The general result is about a [relay], a chain of tasks each of which ends
    with handing over to the next runner, whose last task signals the latch
    the caller waits on: it completes under every schedule, whatever else the
    threads have to do, unless it comes back to the caller's thread after it
    left it, and then the caller waits for ever. *)

From Stdlib Require Import Lia Wf_nat.
From stdpp Require Import base numbers list finite functions sets relations.
From S2P Require Import Prelude.

(** ** Task runners *)

(** The runners of [TaskRunners]. *)
Inductive Runner := PlatformRunner | GPURunner | UIRunner | IORunner.
#[export] Instance Runner_eq_dec : EqDecision Runner.
Proof. solve_decision. Defined.

(** The threads the runners' loops live on, and whether the task queue of the
    platform thread owns that of the GPU thread.  [same_runner] says that
    [GetGPUTaskRunner()] and [GetPlatformTaskRunner()] are one object. *)
Record TaskRunners (Thread : Type) := mkTaskRunners {
  home : Runner → Thread;
  merged : bool;
  same_runner : bool;
  same_runner_home : same_runner = true → home GPURunner = home PlatformRunner;
}.
Arguments mkTaskRunners {_} _ _ _ _.
Arguments home {_} _ _.
Arguments merged {_} _.
Arguments same_runner {_} _.

(** ** Calls into the shell's parts *)

(** What the creation of a shell makes. *)
Inductive Part := WeakFactoryGpu | RasterizerPart | PlatformViewPart | VsyncWaiterPart | IOManagerPart | AnimatorPart | EnginePart.
#[export] Instance Part_eq_dec : EqDecision Part.
Proof. solve_decision. Defined.

Inductive Effect :=
  | NotifyResourceContextAvailable (resource_context : option nat)
  | OnOutputSurfaceCreated
  | RasterizerSetup (surface : option nat)
  | StoreWaitingForFirstFrame (value : bool)
  | OnOutputSurfaceDestroyed
  | RasterizerTeardown
  | DrainUnrefQueue
  | EngineReset
  | RasterizerReset
  | WeakFactoryGpuReset
  | IOManagerReset
  | ReleaseResourceContext
  | PlatformViewReset
  | OnPreEngineRestart
  | ScreenshotLastLayerTree
  | CreatePart (part : Part)
  | ShellSetup
  | DestroyPromises
  | RemoveWorkerTaskRunner
  | RemoveHandler
  | Other (code : nat).
#[export] Instance Effect_eq_dec : EqDecision Effect.
Proof. solve_decision. Defined.

Definition is_other (e : Effect) : bool := match e with Other _ => true | _ => false end.

(** Closures as the actions they run; the latches are numbered. *)
#[warnings="-register-all"]
Inductive Act :=
  | Do (e : Effect)
  | RunNowOrPostTask (runner : Runner) (task : list Act)
  | PostTask (runner : Runner) (task : list Act)
  | SignalLatch (latch : nat)
  | WaitLatch (latch : nat).

(** Other work of the threads: calls that touch no latch, and posts of such. *)
Fixpoint background (a : Act) : bool :=
  match a with
  | Do e => is_other e
  | RunNowOrPostTask _ task | PostTask _ task => forallb background task
  | SignalLatch _ | WaitLatch _ => false
  end.

Fixpoint act_size (a : Act) : nat :=
  match a with
  | RunNowOrPostTask _ task | PostTask _ task => 2 + sum_list_with act_size task
  | _ => 1
  end.

Section threads.
#[local] Set Default Proof Using "Type*".
Context {Thread : Type} `{Finite Thread}.
Context (runners : TaskRunners Thread).

(** A queue owned by another one is emptied by the owner's thread. *)
Definition runs_on (r : Runner) : Thread :=
  if merged runners && bool_decide (home runners r = home runners GPURunner)
  then home runners PlatformRunner else home runners r.

(** Whether the loop of [t] owns, or is owned by, the loop of [r]. *)
Definition owns_either (t : Thread) (r : Runner) : bool :=
  merged runners &&
  (bool_decide (t = home runners PlatformRunner ∧ home runners r = home runners GPURunner) ||
   bool_decide (home runners r = home runners PlatformRunner ∧ t = home runners GPURunner)).

Definition runs_tasks_on (t : Thread) (r : Runner) : bool :=
  bool_decide (t = home runners r) || owns_either t r.

Record World := mkWorld {
  running : Thread → list Act;
  queue : Thread → list (list Act);
  latches : nat → bool;
  effects : list (Thread * Effect);
}.


Definition set_running (t : Thread) k w :=
  mkWorld (<[t:=k]> (running w)) (queue w) (latches w) (effects w).
Definition set_queue (t : Thread) q w :=
  mkWorld (running w) (<[t:=q]> (queue w)) (latches w) (effects w).
Definition set_latch (l : nat) b w :=
  mkWorld (running w) (queue w) (<[l:=b]> (latches w)) (effects w).
Definition perform (t : Thread) e w :=
  mkWorld (running w) (queue w) (latches w) (effects w ++ [(t, e)]).

Definition post (r : Runner) (task : list Act) (w : World) : World :=
  set_queue (runs_on r) (queue w (runs_on r) ++ [task]) w.

(** One action of thread [t]; [None] when it is idle or blocked. *)
Definition step_thread (t : Thread) (w : World) : option World :=
  match running w t with
  | [] =>
      match queue w t with
      | [] => None
      | task :: q => Some (set_running t task (set_queue t q w))
      end
  | Do e :: k => Some (perform t e (set_running t k w))
  | RunNowOrPostTask r task :: k =>
      if runs_tasks_on t r then Some (set_running t (task ++ k) w)
      else Some (post r task (set_running t k w))
  | PostTask r task :: k => Some (post r task (set_running t k w))
  | SignalLatch l :: k => Some (set_latch l true (set_running t k w))
  | WaitLatch l :: k =>
      if latches w l then Some (set_latch l false (set_running t k w)) else None
  end.

Definition thread_step (w w' : World) : Prop := ∃ t, step_thread t w = Some w'.

(** [P] is reached under every schedule, and no schedule gets stuck before. *)
Inductive inevitably (P : World → Prop) (w : World) : Prop :=
  | inevitably_now : P w → inevitably P w
  | inevitably_step : (∃ w', thread_step w w') →
      (∀ w', thread_step w w' → inevitably P w') → inevitably P w.

Lemma inevitably_trans (P Q : World → Prop) w :
  inevitably P w → (∀ w', P w' → inevitably Q w') → inevitably Q w.
Proof.
  intros Hp HQ. induction Hp as [w Hp|w Hex _ IH]; [by apply HQ|]. by apply inevitably_step.
Qed.

Lemma inevitably_mono (P Q : World → Prop) w :
  (∀ w', P w' → Q w') → inevitably P w → inevitably Q w.
Proof. intros HPQ Hp. eapply inevitably_trans; [done|]. intros w' ?. apply inevitably_now; auto. Qed.

(** ** Termination *)

Definition thread_size (w : World) (t : Thread) : nat :=
  sum_list_with act_size (running w t) +
  sum_list_with (λ task, S (sum_list_with act_size task)) (queue w t).

Definition world_size (w : World) : nat := sum_list_with (thread_size w) (enum Thread).

Lemma sum_list_with_ext {A} (f g : A → nat) l :
  (∀ x, x ∈ l → f x = g x) → sum_list_with f l = sum_list_with g l.
Proof. induction l; cbn; intros Hfg; [done|]. rewrite Hfg, IHl; set_solver. Qed.

(** A sum over the threads splits off one thread. *)
Lemma sum_threads_split (f : Thread → nat) t :
  sum_list_with f (enum Thread) =
    f t + sum_list_with (λ t', if decide (t' = t) then 0 else f t') (enum Thread).
Proof.
  assert (Hgen : ∀ l : list Thread, NoDup l →
    sum_list_with f l = (if decide (t ∈ l) then f t else 0) +
      sum_list_with (λ t', if decide (t' = t) then 0 else f t') l).
  { induction 1 as [|x l Hx _ IH]; [done|]. cbn. rewrite IH. clear IH.
    repeat case_decide; subst; rewrite ?elem_of_cons in *; first [lia|naive_solver]. }
  rewrite (Hgen _ (NoDup_enum Thread)), decide_True by apply elem_of_enum. done.
Qed.

Lemma world_size_running t k w :
  world_size (set_running t k w) + sum_list_with act_size (running w t) =
    world_size w + sum_list_with act_size k.
Proof.
  unfold world_size. rewrite (sum_threads_split (thread_size w) t).
  rewrite (sum_threads_split (thread_size (set_running t k w)) t).
  rewrite (sum_list_with_ext _ (λ t', if decide (t' = t) then 0 else thread_size w t')).
  - unfold thread_size. cbn. rewrite fn_lookup_insert. lia.
  - intros t' _. case_decide; [done|]. unfold thread_size. cbn. by rewrite fn_lookup_insert_ne.
Qed.

Lemma world_size_queue t q w :
  world_size (set_queue t q w) + sum_list_with (λ task, S (sum_list_with act_size task)) (queue w t) =
    world_size w + sum_list_with (λ task, S (sum_list_with act_size task)) q.
Proof.
  unfold world_size. rewrite (sum_threads_split (thread_size w) t).
  rewrite (sum_threads_split (thread_size (set_queue t q w)) t).
  rewrite (sum_list_with_ext _ (λ t', if decide (t' = t) then 0 else thread_size w t')).
  - unfold thread_size. cbn. rewrite fn_lookup_insert. lia.
  - intros t' _. case_decide; [done|]. unfold thread_size. cbn. by rewrite fn_lookup_insert_ne.
Qed.

Lemma world_size_post r task w :
  world_size (post r task w) = world_size w + S (sum_list_with act_size task).
Proof.
  unfold post. pose proof (world_size_queue (runs_on r) (queue w (runs_on r) ++ [task]) w) as Hq.
  rewrite sum_list_with_app in Hq. cbn in Hq. lia.
Qed.

Lemma thread_step_size w w' : thread_step w w' → world_size w' < world_size w.
Proof.
  intros [t Hs]. unfold step_thread in Hs.
  pose proof (λ k, world_size_running t k w) as Hr.
  destruct (running w t) as [|[] k] eqn:Hrun; simplify_eq/=.
  - pose proof (λ q, world_size_queue t q w) as Hq. destruct (queue w t) as [|task q]; simplify_eq/=.
    pose proof (world_size_running t task (set_queue t q w)) as Hr'. cbn in Hr'. rewrite Hrun in Hr'.
    specialize (Hq q). cbn in *. lia.
  - change (world_size (perform _ _ _)) with (world_size (set_running t k w)). specialize (Hr k). lia.
  - case_match; simplify_eq.
    + specialize (Hr (task ++ k)). rewrite sum_list_with_app in Hr. lia.
    + rewrite world_size_post. specialize (Hr k). lia.
  - rewrite world_size_post. specialize (Hr k). lia.
  - change (world_size (set_latch _ _ _)) with (world_size (set_running t k w)). specialize (Hr k). lia.
  - case_match; simplify_eq.
    change (world_size (set_latch _ _ _)) with (world_size (set_running t k w)). specialize (Hr k). lia.
Qed.

(** An invariant under which the world is at its goal or can go on leads
    there. *)
Lemma inevitably_inv (I P : World → Prop) w :
  (∀ w, I w → P w ∨ (∃ w', thread_step w w') ∧ ∀ w', thread_step w w' → I w') →
  I w → inevitably P w.
Proof.
  intros HI. induction w as [w IH] using (induction_ltof1 _ world_size). intros Hw.
  destruct (HI w Hw) as [HP|[Hex Hall]]; [by apply inevitably_now|].
  apply inevitably_step; [done|]. intros w' Hs. apply IH; [by apply thread_step_size|by apply Hall].
Qed.

(** ** Relays *)

(** A thread whose queue is emptied by another one runs no tasks. *)
Definition executing (t : Thread) : Prop :=
  merged runners = true → t = home runners GPURunner → t = home runners PlatformRunner.

Lemma runs_on_executing r : executing (runs_on r).
Proof.
  intros Hm. unfold runs_on. rewrite Hm. cbn. case_bool_decide as Hr; [done|congruence].
Qed.

Lemma runs_tasks_on_executing t r : executing t → runs_tasks_on t r = bool_decide (t = runs_on r).
Proof.
  intros Ht. unfold runs_tasks_on, owns_either, runs_on.
  destruct (merged runners) eqn:Hm; cbn; [|by rewrite orb_false_r].
  specialize (Ht Hm). repeat case_bool_decide; naive_solver.
Qed.

(** Each stage runs its effects on its runner and hands over to the next. *)
Fixpoint relay (stages : list (Runner * list Effect)) (final : list Act) : list Act :=
  match stages with
  | [] => final
  | (r, es) :: stages => [RunNowOrPostTask r ((Do <$> es) ++ relay stages final)]
  end.

Definition stage_trace (s : Runner * list Effect) : list (Thread * Effect) := (runs_on s.1,.) <$> s.2.

(** What the run of a relay adds to the effects. *)
Definition relay_trace (stages : list (Runner * list Effect)) : list (Thread * Effect) :=
  concat (stage_trace <$> stages).

(** The relay comes back to [p] after it left it. *)
Fixpoint comes_back (p : Thread) (left_p : bool) (stages : list (Runner * list Effect)) : bool :=
  match stages with
  | [] => false
  | (r, _) :: stages =>
      if decide (runs_on r = p) then left_p || comes_back p left_p stages
      else comes_back p true stages
  end.

(** The effects of the shell itself. *)
Definition shell_effects (w : World) : list (Thread * Effect) :=
  filter (λ te, is_other te.2 = false) (effects w).

Definition quiet_queue (w : World) (t : Thread) : Prop := Forall (Forall background) (queue w t).
Definition quiet_thread (w : World) (t : Thread) : Prop := Forall background (running w t).

(** [p] is about to run [k] while all other threads have only other work. *)
Record calling (p : Thread) (k : list Act) (tr : list (Thread * Effect)) (w : World) : Prop := {
  calling_running : running w p = k;
  calling_threads : ∀ t, t ≠ p → quiet_thread w t;
  calling_queues : ∀ t, quiet_queue w t;
  calling_effects : shell_effects w = tr;
}.

Lemma shell_effects_perform t e w :
  shell_effects (perform t e w) = shell_effects w ++ (if is_other e then [] else [(t, e)]).
Proof.
  unfold shell_effects. cbn. rewrite filter_app. f_equal. rewrite filter_cons.
  destruct (is_other e) eqn:He; case_decide; cbn in *; congruence || done.
Qed.

(** What a step of a thread with only other work changes. *)
Record quiet_change (t : Thread) (w w' : World) : Prop := {
  quiet_change_thread : quiet_thread w' t;
  quiet_change_running t' : t' ≠ t → running w' t' = running w t';
  quiet_change_latches : latches w' = latches w;
  quiet_change_effects : shell_effects w' = shell_effects w;
  quiet_change_queue t' :
    (∃ extra, Forall (Forall background) extra ∧ queue w' t' = queue w t' ++ extra) ∨
    t' = t ∧ running w t = [] ∧ ∃ task, queue w t = task :: queue w' t;
}.

Lemma quiet_same t w w' :
  quiet_thread w' t → (∀ t', t' ≠ t → running w' t' = running w t') → latches w' = latches w →
  shell_effects w' = shell_effects w → queue w' = queue w → quiet_change t w w'.
Proof. intros ? ? ? ? Hq. split; try done. intros t'. left. exists []. by rewrite Hq, app_nil_r. Qed.

Lemma quiet_post t r task k w :
  Forall background task → Forall background k →
  quiet_change t w (post r task (set_running t k w)).
Proof.
  intros Htask Hk. split; try done; cbn.
  - unfold quiet_thread. cbn. by rewrite fn_lookup_insert.
  - intros t' Ht. by rewrite fn_lookup_insert_ne.
  - intros t'. left. destruct (decide (t' = runs_on r)) as [->|Hne].
    + exists [task]. rewrite fn_lookup_insert. split; [by repeat constructor|done].
    + exists []. by rewrite fn_lookup_insert_ne, app_nil_r.
Qed.

Lemma quiet_step t w w' :
  quiet_thread w t →
  (∀ task q, running w t = [] → queue w t = task :: q → Forall background task) →
  step_thread t w = Some w' → quiet_change t w w'.
Proof.
  unfold quiet_thread, step_thread. intros Hq Hpop Hs.
  destruct (running w t) as [|a k] eqn:Hrun.
  { destruct (queue w t) as [|task q] eqn:Hqueue; simplify_eq. specialize (Hpop _ _ eq_refl eq_refl).
    split; try done; cbn.
    - unfold quiet_thread. cbn. by rewrite fn_lookup_insert.
    - intros t' Ht. by rewrite fn_lookup_insert_ne.
    - intros t'. destruct (decide (t' = t)) as [->|Hne].
      + right. rewrite fn_lookup_insert, Hqueue. eauto.
      + left. exists []. by rewrite fn_lookup_insert_ne, app_nil_r. }
  apply Forall_cons in Hq as [Ha Hk].
  destruct a as [e|r task|r task|l|l]; cbn in Ha; try done; simplify_eq.
  - apply quiet_same; try done.
    + unfold quiet_thread. cbn. by rewrite fn_lookup_insert.
    + intros t' Ht. cbn. by rewrite fn_lookup_insert_ne.
    + rewrite shell_effects_perform. apply Is_true_true in Ha. by rewrite Ha, app_nil_r.
  - apply forallb_True in Ha. case_match; simplify_eq; [|by apply quiet_post].
    apply quiet_same; try done.
    + unfold quiet_thread. cbn. rewrite fn_lookup_insert. by apply Forall_app.
    + intros t' Ht. cbn. by rewrite fn_lookup_insert_ne.
  - apply forallb_True in Ha. by apply quiet_post.
Qed.

Lemma quiet_can_step t w :
  quiet_thread w t → running w t ≠ [] ∨ queue w t ≠ [] → is_Some (step_thread t w).
Proof.
  unfold quiet_thread, step_thread. intros Hq Hne. destruct (running w t) as [|a k].
  - destruct (queue w t); [naive_solver|by eexists].
  - apply Forall_cons in Hq as [Ha _]. destruct a; cbn in Ha; try done; try by eexists.
    by case_match; eexists.
Qed.

Lemma calling_quiet_change p k tr t w w' :
  calling p k tr w → t ≠ p → step_thread t w = Some w' → quiet_change t w w'.
Proof.
  intros [Hrun Hth Hqs Hef] Htp Hs. eapply quiet_step; [by apply Hth| |done]. intros task q _ Hq. specialize (Hqs t).
  unfold quiet_queue in Hqs. rewrite Hq in Hqs. by apply Forall_cons in Hqs as [? _].
Qed.

Lemma calling_quiet p k tr t w w' :
  calling p k tr w → t ≠ p → step_thread t w = Some w' → calling p k tr w'.
Proof.
  intros Hcall Htp Hs. pose proof (calling_quiet_change _ _ _ _ _ _ Hcall Htp Hs) as Hc.
  destruct Hcall as [Hrun Hth Hqs Hef]. destruct Hc as [Hq Hr Hl He Hqu]. split.
  - by rewrite Hr.
  - intros t' Ht'. destruct (decide (t' = t)) as [->|Hne]; [done|]. unfold quiet_thread. rewrite Hr by done. by apply Hth.
  - intros t'. unfold quiet_queue. destruct (Hqu t') as [(extra & Hex & ->)|[-> (_ & task & Htask)]].
    + apply Forall_app. split; [by apply Hqs|done].
    + specialize (Hqs t). unfold quiet_queue in Hqs. rewrite Htask in Hqs. by apply Forall_cons in Hqs as [_ ?].
  - by rewrite He.
Qed.

(** One action of the caller, among the other work. *)
Lemma calling_advance p k k' tr tr' w :
  (∀ w, calling p k tr w → ∃ w', step_thread p w = Some w' ∧ calling p k' tr' w') →
  calling p k tr w → inevitably (calling p k' tr') w.
Proof.
  intros Hadv Hc. apply (inevitably_inv (λ w, calling p k tr w ∨ calling p k' tr' w)); [|by left].
  intros w1 [Hc1|?]; [right|by left]. destruct (Hadv w1 Hc1) as (w2 & Hs2 & Hc2). split; [by exists w2, p|].
  intros w' [t Ht]. destruct (decide (t = p)) as [->|Hne]; [right; by simplify_eq|left; by eapply calling_quiet].
Qed.

Lemma calling_set p k k' tr w : calling p k tr w → calling p k' tr (set_running p k' w).
Proof.
  intros [Hrun Hth Hqs Hef]. split; try done; cbn; [by rewrite fn_lookup_insert|].
  intros t Ht. unfold quiet_thread. cbn. rewrite fn_lookup_insert_ne by done. by apply Hth.
Qed.

(** The same with the latches. *)
Lemma calling_advance_latches p k k' tr tr' (lat lat' : nat → bool) w :
  (∀ w, calling p k tr w → (∀ l, latches w l = lat l) →
    ∃ w', step_thread p w = Some w' ∧ calling p k' tr' w' ∧ ∀ l, latches w' l = lat' l) →
  calling p k tr w → (∀ l, latches w l = lat l) →
  inevitably (λ w', calling p k' tr' w' ∧ ∀ l, latches w' l = lat' l) w.
Proof.
  intros Hadv Hc Hl. set (P := λ w', calling p k' tr' w' ∧ ∀ l, latches w' l = lat' l).
  apply (inevitably_inv (λ w, (calling p k tr w ∧ ∀ l, latches w l = lat l) ∨ P w)); [|by left].
  intros w1 [[Hc1 Hl1]|?]; [right|by left]. destruct (Hadv w1 Hc1 Hl1) as (w2 & Hs2 & Hc2). split; [by exists w2, p|].
  intros w' [t Ht]. destruct (decide (t = p)) as [->|Hne]; [right; by simplify_eq|left].
  split; [by eapply calling_quiet|]. by rewrite (quiet_change_latches _ _ _ (calling_quiet_change _ _ _ _ _ _ Hc1 Hne Ht)).
Qed.

(** A critical section of the caller under a mutex that is free; a mutex is a
    latch that is set while nobody holds it. *)
Lemma locked_completes p m e after tr w :
  is_other e = false → calling p (WaitLatch m :: Do e :: SignalLatch m :: after) tr w → latches w m = true →
  inevitably (λ w', calling p after (tr ++ [(p, e)]) w' ∧ ∀ l, latches w' l = latches w l) w.
Proof.
  intros He Hc Hm. set (lat := latches w).
  eapply inevitably_trans.
  { eapply (calling_advance_latches p _ (Do e :: SignalLatch m :: after) tr tr lat (<[m:=false]> lat)); [|exact Hc|done].
    intros w1 Hc1 Hl1. unfold step_thread. rewrite (calling_running _ _ _ _ Hc1), Hl1. fold lat in Hm. rewrite Hm.
    eexists. split; [done|]. split; [by destruct (calling_set _ _ (Do e :: SignalLatch m :: after) _ _ Hc1)|].
    intros l. cbn. destruct (decide (l = m)) as [->|Hne]; [by rewrite !fn_lookup_insert|by rewrite !fn_lookup_insert_ne]. }
  intros w1 [Hc1 Hl1]. eapply inevitably_trans.
  { eapply (calling_advance_latches p _ (SignalLatch m :: after) tr (tr ++ [(p, e)]) (<[m:=false]> lat) (<[m:=false]> lat)); [|exact Hc1|done].
    intros w2 Hc2 Hl2. unfold step_thread. rewrite (calling_running _ _ _ _ Hc2). eexists. split; [done|].
    destruct (calling_set _ _ (SignalLatch m :: after) _ _ Hc2) as [? ? ? Hef].
    split; [|done]. split; try done. rewrite shell_effects_perform, He. by rewrite <- Hef. }
  intros w2 [Hc2 Hl2].
  eapply (calling_advance_latches p _ after _ _ (<[m:=false]> lat) lat); [|exact Hc2|done].
  intros w3 Hc3 Hl3. unfold step_thread. rewrite (calling_running _ _ _ _ Hc3). eexists. split; [done|].
  split; [by destruct (calling_set _ _ after _ _ Hc3)|].
  intros l. cbn. destruct (decide (l = m)) as [->|Hne]; [by rewrite fn_lookup_insert|].
  rewrite fn_lookup_insert_ne by done. rewrite Hl3. by rewrite fn_lookup_insert_ne.
Qed.

(** Code of the caller that neither posts nor waits. *)
Lemma straight_completes p es l after tr w :
  Forall (λ e, is_other e = false) es →
  calling p ((Do <$> es) ++ SignalLatch l :: after) tr w →
  inevitably (calling p after (tr ++ ((p,.) <$> es))) w.
Proof.
  revert tr w. induction es as [|e es IH]; cbn; intros tr w He Hc.
  - rewrite app_nil_r. eapply calling_advance; [|done]. intros w1 Hc1. unfold step_thread.
    rewrite (calling_running _ _ _ _ Hc1). eexists. split; [done|].
    by destruct (calling_set _ _ after _ _ Hc1).
  - apply Forall_cons in He as [He Hes].
    apply (inevitably_trans (calling p ((Do <$> es) ++ SignalLatch l :: after) (tr ++ [(p, e)]))).
    2: { intros w' Hw'. apply IH in Hw'; [|done]. by rewrite <- app_assoc in Hw'. }
    eapply calling_advance; [|done]. intros w1 Hc1. unfold step_thread.
    rewrite (calling_running _ _ _ _ Hc1). eexists. split; [done|].
    destruct (calling_set _ _ ((Do <$> es) ++ SignalLatch l :: after) _ _ Hc1) as [? ? ? Hef].
    split; try done. rewrite shell_effects_perform, He. by rewrite <- Hef.
Qed.

Section relay.
(** The caller, its latch, what it does afterwards and the other latches. *)
Context (p : Thread) (l : nat) (after : list Act) (others : nat → bool).

Definition relay_code (es : list Effect) (stages : list (Runner * list Effect)) : list Act :=
  (Do <$> es) ++ relay stages [SignalLatch l].

(** Where the relay is: in the caller's own code, running on another thread,
    queued there, or over with the latch signaled. *)
Inductive Place := AtCaller | OnThread (t : Thread) | InQueue (t : Thread) | Signaled.

#[local] Instance Place_eq_dec : EqDecision Place.
Proof. solve_decision. Defined.

Definition place_thread (pl : Place) : Thread :=
  match pl with OnThread t | InQueue t => t | _ => p end.

Definition blocks (pl : Place) (stages : list (Runner * list Effect)) : bool :=
  match pl with
  | AtCaller => comes_back p false stages
  | OnThread _ => comes_back p true stages
  | InQueue t => bool_decide (t = p) || comes_back p true stages
  | Signaled => false
  end.

Definition at_place (pl : Place) (code : list Act) (w : World) : Prop :=
  match pl with
  | AtCaller => running w p = code ++ WaitLatch l :: after ∧ latches w l = false
  | OnThread t => t ≠ p ∧ running w t = code ∧ running w p = WaitLatch l :: after ∧ latches w l = false
  | InQueue t =>
      (∃ q1 q2, queue w t = q1 ++ code :: q2 ∧ Forall (Forall background) q1 ∧
         Forall (Forall background) q2) ∧
      running w p = WaitLatch l :: after ∧ latches w l = false
  | Signaled => running w p = WaitLatch l :: after ∧ latches w l = true
  end.

(** [rest] is what the relay still has to do; [b] whether it will come back. *)
Record relaying (pl : Place) (es : list Effect) (stages : list (Runner * list Effect))
    (tr : list (Thread * Effect)) (b : bool) (w : World) : Prop := {
  relaying_place : at_place pl (relay_code es stages) w;
  relaying_executing : pl ≠ Signaled → executing (place_thread pl);
  relaying_effects_shell : Forall (λ e, is_other e = false) es ∧
    Forall (λ s, Forall (λ e, is_other e = false) s.2) stages;
  relaying_threads : ∀ t, t ≠ p → pl ≠ OnThread t → quiet_thread w t;
  relaying_queues : ∀ t, pl ≠ InQueue t → quiet_queue w t;
  relaying_effects : shell_effects w ++ ((place_thread pl,.) <$> es) ++ relay_trace stages = tr;
  relaying_blocks : blocks pl stages = b;
  relaying_over : pl = Signaled → es = [] ∧ stages = [];
  relaying_others : ∀ l', l' ≠ l → latches w l' = others l';
}.

Definition relaying_any (tr : list (Thread * Effect)) (b : bool) (w : World) : Prop :=
  ∃ pl es stages, relaying pl es stages tr b w.

(** Other work leaves the relay where it is. *)
Lemma relaying_quiet pl es stages tr b t w w' :
  relaying pl es stages tr b w → t ≠ p → pl ≠ OnThread t → quiet_change t w w' →
  (pl = InQueue t → ∃ q1 q2, queue w' t = q1 ++ relay_code es stages :: q2 ∧
     Forall (Forall background) q1 ∧ Forall (Forall background) q2) →
  relaying pl es stages tr b w'.
Proof.
  intros [Hpl Hex Hsh Hth Hqs Hef Hbl Hov Hot] Htp Hnt [Hq Hr Hl He Hqu] Hkeep. split; try done.
  - destruct pl as [|t0|t0|]; cbn in *.
    + by rewrite Hr, Hl.
    + rewrite !Hr, Hl by congruence. done.
    + destruct Hpl as ((q1 & q2 & Hq12 & Hb1 & Hb2) & Hrp & Hlt). rewrite Hr, Hl by congruence.
      split_and!; [|done..]. destruct (decide (t0 = t)) as [->|Hne].
      * by apply Hkeep.
      * destruct (Hqu t0) as [(extra & Hex' & Hk)|[? _]]; [|done].
        exists q1, (q2 ++ extra). rewrite Hk, Hq12, <- app_assoc. split_and!; [done|done|by apply Forall_app].
    + by rewrite Hr, Hl.
  - intros t' Ht' Hnt'. destruct (decide (t' = t)) as [->|Hne]; [done|].
    unfold quiet_thread. rewrite Hr by done. by apply Hth.
  - intros t' Ht'. unfold quiet_queue. destruct (Hqu t') as [(extra & Hex' & ->)|[-> (_ & task & Htask)]].
    + apply Forall_app. split; [by apply Hqs|done].
    + specialize (Hqs t Ht'). unfold quiet_queue in Hqs. rewrite Htask in Hqs. by apply Forall_cons in Hqs as [_ ?].
  - by rewrite He.
  - by rewrite Hl.
Qed.

(** The thread that runs the code of the relay takes a step. *)
Definition carrier (pl : Place) (t : Thread) : Prop :=
  pl = AtCaller ∧ t = p ∨ pl = OnThread t.

(** What the carrier does after the relay. *)
Definition rest_of (t : Thread) : list Act := if decide (t = p) then WaitLatch l :: after else [].

Lemma carrier_at pl t code w :
  carrier pl t →
  at_place pl code w ↔
    running w t = code ++ rest_of t ∧ latches w l = false ∧
    (pl = OnThread t → t ≠ p ∧ running w p = WaitLatch l :: after).
Proof.
  clear others. unfold rest_of. intros [[-> ->]| ->]; cbn; [rewrite decide_True by done; naive_solver|].
  split.
  - intros (? & ? & ? & ?). rewrite decide_False, app_nil_r by done. naive_solver.
  - intros (Hr & ? & Hp). destruct (Hp eq_refl). rewrite decide_False, app_nil_r in Hr by done. done.
Qed.

Lemma carrier_place_thread pl t : carrier pl t → place_thread pl = t.
Proof. by intros [[-> ->]| ->]. Qed.

(** Replacing the code of the carrier keeps the other threads quiet. *)
Lemma carrier_quiet pl t k w t' :
  carrier pl t → (∀ t, t ≠ p → pl ≠ OnThread t → quiet_thread w t) →
  t' ≠ p → pl ≠ OnThread t' → quiet_thread (set_running t k w) t'.
Proof.
  intros Hc Hth Ht' Hnt. unfold quiet_thread. cbn. destruct (decide (t' = t)) as [->|Hne].
  - by destruct Hc as [[_ ?]| ?].
  - rewrite fn_lookup_insert_ne by done. by apply Hth.
Qed.

Lemma carrier_done pl t w t' :
  carrier pl t → (∀ t, t ≠ p → pl ≠ OnThread t → quiet_thread w t) →
  t' ≠ p → quiet_thread (set_running t (rest_of t) w) t'.
Proof.
  intros Hc Hth Ht'. unfold quiet_thread. cbn. destruct (decide (t' = t)) as [->|Hne].
  - rewrite fn_lookup_insert. unfold rest_of. by rewrite decide_False.
  - rewrite fn_lookup_insert_ne by done. apply Hth; [done|]. destruct Hc as [[-> _]| ->]; congruence.
Qed.

Lemma carrier_set pl t code w :
  carrier pl t → latches w l = false →
  (pl = OnThread t → t ≠ p ∧ running w p = WaitLatch l :: after) →
  at_place pl code (set_running t (code ++ rest_of t) w).
Proof.
  intros Hc Hl Hp. apply (carrier_at _ t); [done|]. cbn. rewrite fn_lookup_insert. split_and!; [done..|].
  intros Hpl. destruct (Hp Hpl). by rewrite fn_lookup_insert_ne.
Qed.

Lemma relaying_effect pl e es stages tr b t w :
  carrier pl t → relaying pl (e :: es) stages tr b w →
  ∃ w', step_thread t w = Some w' ∧ relaying pl es stages tr b w'.
Proof.
  intros Hc [Hpl Hex [[He Hsh]%Forall_cons Hsh'] Hth Hqs Hef Hbl Hov Hot].
  pose proof (carrier_place_thread _ _ Hc) as Hpt.
  apply (carrier_at _ t) in Hpl as (Hrun & Hl & Hp); [|done].
  exists (perform t e (set_running t (relay_code es stages ++ rest_of t) w)).
  unfold step_thread. rewrite Hrun. split; [done|]. split; try done.
  - by apply (carrier_set pl t).
  - intros t' ? ?. by eapply carrier_quiet.
  - rewrite shell_effects_perform, He. change (shell_effects (set_running _ _ w)) with (shell_effects w).
    rewrite <- Hef, Hpt. cbn. by rewrite <- app_assoc.
  - intros ->. by destruct Hc as [[? _]|?].
Qed.

Lemma relaying_handover pl r es stages tr b t w :
  carrier pl t → relaying pl [] ((r, es) :: stages) tr b w →
  ∃ w' pl', step_thread t w = Some w' ∧ relaying pl' es stages tr b w'.
Proof.
  intros Hc [Hpl Hex [_ [He Hsh']%Forall_cons] Hth Hqs Hef Hbl Hov Hot].
  pose proof (carrier_place_thread _ _ Hc) as Hpt. rewrite Hpt in Hex.
  specialize (Hex ltac:(by destruct Hc as [[-> _]| ->])).
  apply (carrier_at _ t) in Hpl as (Hrun & Hl & Hp); [|done].
  unfold step_thread. rewrite Hrun. cbn [relay_code relay fmap list_fmap app].
  rewrite runs_tasks_on_executing by done. case_bool_decide as Hr.
  - eexists _, pl. split; [done|]. split; try done.
    + by apply (carrier_set pl t).
    + intros _. by rewrite Hpt.
    + intros t' ? ?. by eapply carrier_quiet.
    + rewrite <- Hef, Hpt, Hr. done.
    + rewrite <- Hbl. destruct Hc as [[-> ->]| ->]; cbn; [by rewrite decide_True by done|].
      rewrite decide_False; [done|]. destruct (Hp eq_refl). congruence.
    + intros ->. by destruct Hc as [[? _]|?].
  - eexists _, (InQueue (runs_on r)). split; [done|]. split; cbn; try done.
    + rewrite fn_lookup_insert. split_and!; [| |done].
      * exists (queue w (runs_on r)), []. split_and!; [done| |by constructor].
        apply Hqs. by destruct Hc as [[-> _]| ->].
      * destruct Hc as [[-> ->]| ->].
        -- rewrite fn_lookup_insert. unfold rest_of. by rewrite decide_True.
        -- destruct (Hp eq_refl). by rewrite fn_lookup_insert_ne.
    + intros _. apply runs_on_executing.
    + intros t' Ht' _. by eapply carrier_done.
    + intros t' Ht'. unfold quiet_queue. cbn. rewrite fn_lookup_insert_ne by congruence.
      apply Hqs. by destruct Hc as [[-> _]| ->].
    + rewrite <- Hbl. destruct Hc as [[-> ->]| ->]; cbn; case_decide; case_bool_decide; naive_solver.
Qed.

Lemma relaying_signal pl tr b t w :
  carrier pl t → relaying pl [] [] tr b w →
  ∃ w', step_thread t w = Some w' ∧ relaying Signaled [] [] tr b w'.
Proof.
  intros Hc [Hpl Hex _ Hth Hqs Hef Hbl Hov Hot].
  apply (carrier_at _ t) in Hpl as (Hrun & Hl & Hp); [|done].
  unfold step_thread. rewrite Hrun. cbn [relay_code relay fmap list_fmap app].
  eexists. split; [done|]. split; cbn; try done.
  - rewrite fn_lookup_insert. split; [|done]. destruct Hc as [[-> ->]| ->].
    + rewrite fn_lookup_insert. unfold rest_of. by rewrite decide_True.
    + destruct (Hp eq_refl). by rewrite fn_lookup_insert_ne.
  - intros t' Ht' _. by eapply carrier_done.
  - intros t' _. apply Hqs. by destruct Hc as [[-> _]| ->].
  - by destruct Hc as [[-> _]| ->].
  - intros l' Hl'. rewrite fn_lookup_insert_ne by done. by apply Hot.
Qed.

(** The queued relay is started. *)
Lemma relaying_start es stages tr b t q w :
  t ≠ p → running w t = [] → queue w t = relay_code es stages :: q →
  Forall (Forall background) q → relaying (InQueue t) es stages tr b w →
  ∃ w', step_thread t w = Some w' ∧ relaying (OnThread t) es stages tr b w'.
Proof.
  intros Htp Hrun Hqt Hq [Hpl Hex Hsh Hth Hqs Hef Hbl Hov Hot]. unfold step_thread. rewrite Hrun, Hqt.
  eexists. split; [done|]. split; cbn; try done.
  - destruct Hpl as (_ & ? & ?). by rewrite fn_lookup_insert, fn_lookup_insert_ne.
  - intros _. by apply Hex.
  - intros t' Ht' Hne. unfold quiet_thread. cbn. rewrite fn_lookup_insert_ne by congruence. by apply Hth.
  - intros t' _. unfold quiet_queue. cbn. destruct (decide (t' = t)) as [->|Hne].
    + by rewrite fn_lookup_insert.
    + rewrite fn_lookup_insert_ne by done. apply Hqs. congruence.
  - cbn in Hbl. by rewrite bool_decide_eq_false_2 in Hbl.
Qed.

Definition finished (tr : list (Thread * Effect)) (w : World) : Prop :=
  calling p after tr w ∧ latches w l = false ∧ ∀ l', l' ≠ l → latches w l' = others l'.

Lemma relaying_finish tr b w :
  relaying Signaled [] [] tr b w → ∃ w', step_thread p w = Some w' ∧ finished tr w'.
Proof.
  intros [[Hrun Hl] _ _ Hth Hqs Hef _ _ Hot]. unfold step_thread. rewrite Hrun, Hl. eexists. split; [done|].
  split_and!; [|by cbn; rewrite fn_lookup_insert|by intros l' Hl'; cbn; rewrite fn_lookup_insert_ne; [apply Hot|]].
  split; cbn.
  - by rewrite fn_lookup_insert.
  - intros t Ht. unfold quiet_thread. cbn. rewrite fn_lookup_insert_ne by done. by apply Hth.
  - intros t. by apply Hqs.
  - cbn in Hef. by rewrite app_nil_r in Hef.
Qed.

(** The relay is queued on the thread that waits for it. *)
Definition blocked (tr : list (Thread * Effect)) (w : World) : Prop :=
  ∃ es stages, relaying (InQueue p) es stages tr true w.

Lemma relaying_carrier pl es stages tr b t w :
  carrier pl t → relaying pl es stages tr b w →
  ∃ w', step_thread t w = Some w' ∧ relaying_any tr b w'.
Proof.
  intros Hc Hr. destruct es as [|e es]; [destruct stages as [|[r es] stages]|].
  - destruct (relaying_signal _ _ _ _ _ Hc Hr) as (w' & Hs & Hr'). eexists. split; [done|]. by eexists _, _, _.
  - destruct (relaying_handover _ _ _ _ _ _ _ _ Hc Hr) as (w' & pl' & Hs & Hr').
    eexists. split; [done|]. by eexists _, _, _.
  - destruct (relaying_effect _ _ _ _ _ _ _ _ Hc Hr) as (w' & Hs & Hr'). eexists. split; [done|]. by eexists _, _, _.
Qed.

Lemma relaying_elsewhere pl es stages tr b t w w' :
  relaying pl es stages tr b w → t ≠ p → pl ≠ OnThread t → pl ≠ InQueue t →
  step_thread t w = Some w' → relaying pl es stages tr b w'.
Proof.
  intros Hr Htp Hnt Hne Hs. pose proof (relaying_threads _ _ _ _ _ _ Hr t Htp Hnt) as Hq.
  eapply relaying_quiet; [done..| |done]. eapply quiet_step; [done| |done]. intros task q _ Htask.
  pose proof (relaying_queues _ _ _ _ _ _ Hr t Hne) as Hqq. unfold quiet_queue in Hqq. rewrite Htask in Hqq.
  by apply Forall_cons in Hqq as [? _].
Qed.

Lemma relaying_other pl es stages tr b t w w' :
  relaying pl es stages tr b w → t ≠ p → pl ≠ OnThread t → step_thread t w = Some w' →
  relaying_any tr b w'.
Proof.
  intros Hr Htp Hnt Hs. pose proof (relaying_threads _ _ _ _ _ _ Hr t Htp Hnt) as Hq.
  destruct (decide (pl = InQueue t)) as [->|Hne]; last first.
  { eexists _, _, _. by eapply relaying_elsewhere. }
  destruct (relaying_place _ _ _ _ _ _ Hr) as ((q1 & q2 & Hqt & Hb1 & Hb2) & _).
  destruct (decide (running w t = [] ∧ q1 = [])) as [[Hrun ->]|Hnot].
  { destruct (relaying_start _ _ _ _ _ _ _ Htp Hrun Hqt Hb2 Hr) as (w2 & Hs2 & Hr2).
    simplify_eq. by eexists _, _, _. }
  assert (Hc : quiet_change t w w').
  { eapply quiet_step; [done| |done]. intros task q Hrun Ht. rewrite Hqt in Ht.
    destruct q1 as [|? q1]; [naive_solver|]. simplify_eq/=. by apply Forall_cons in Hb1 as [? _]. }
  exists (InQueue t), es, stages. eapply relaying_quiet; [done..|]. intros _.
  destruct (quiet_change_queue _ _ _ Hc t) as [(extra & Hex & ->)|[_ (Hrun & task & Htask)]].
  - exists q1, (q2 ++ extra). rewrite Hqt, <- app_assoc. split_and!; [done..|by apply Forall_app].
  - destruct q1 as [|? q1]; rewrite Hqt in Htask; simplify_eq/=.
    + naive_solver.
    + exists q1, q2. split_and!; [done| |done]. by apply Forall_cons in Hb1 as [_ ?].
Qed.

Lemma relaying_step pl es stages tr b w :
  relaying pl es stages tr b w → pl ≠ InQueue p →
  (∃ w', thread_step w w') ∧
  ∀ w', thread_step w w' → relaying_any tr b w' ∨ b = false ∧ finished tr w'.
Proof.
  intros Hr Hnb.
  assert (Hcase : (∃ t, carrier pl t) ∨ pl = Signaled ∨ ∃ t, pl = InQueue t ∧ t ≠ p).
  { destruct pl as [|t|t|]; [left; exists p; by left|left; exists t; by right| |by right; left].
    right; right. exists t. split; [done|congruence]. }
  destruct Hcase as [[t Hc]|[->|(t & -> & Htp)]].
  - destruct (relaying_carrier _ _ _ _ _ _ _ Hc Hr) as (w1 & Hs1 & Hr1). split; [by exists w1, t|].
    intros w' [t' Hs']. left. destruct (decide (t' = t)) as [->|Hne]; [by simplify_eq|].
    destruct (decide (t' = p)) as [->|Hp]; [|eapply relaying_other; [done..| |done]].
    + destruct Hc as [[_ ->]| ->]; [done|]. destruct (relaying_place _ _ _ _ _ _ Hr) as (_ & _ & Hrun & Hl).
      unfold step_thread in Hs'. by rewrite Hrun, Hl in Hs'.
    + destruct Hc as [[-> _]| ->]; congruence.
  - destruct (relaying_over _ _ _ _ _ _ Hr eq_refl) as [-> ->].
    destruct (relaying_finish _ _ _ Hr) as (w1 & Hs1 & Hf). split; [by exists w1, p|].
    intros w' [t' Hs']. destruct (decide (t' = p)) as [->|Hne]; [right|].
    + simplify_eq. split; [|done]. by rewrite <- (relaying_blocks _ _ _ _ _ _ Hr).
    + left. by eapply relaying_other.
  - split.
    + destruct (relaying_place _ _ _ _ _ _ Hr) as ((q1 & q2 & Hqt & _) & _).
      destruct (quiet_can_step t w) as [w1 Hs1]; [by apply (relaying_threads _ _ _ _ _ _ Hr)| |by exists w1, t].
      right. rewrite Hqt. by destruct q1.
    + intros w' [t' Hs']. left. destruct (decide (t' = p)) as [->|Hne]; [|by eapply relaying_other].
      destruct (relaying_place _ _ _ _ _ _ Hr) as (_ & Hrun & Hl).
      unfold step_thread in Hs'. by rewrite Hrun, Hl in Hs'.
Qed.

Lemma calling_relaying es stages w tr :
  executing p →
  Forall (λ e, is_other e = false) es → Forall (λ s, Forall (λ e, is_other e = false) s.2) stages →
  calling p ((Do <$> es) ++ relay stages [SignalLatch l] ++ WaitLatch l :: after) tr w →
  latches w l = false → (∀ l', l' ≠ l → latches w l' = others l') →
  relaying_any (tr ++ ((p,.) <$> es) ++ relay_trace stages) (comes_back p false stages) w.
Proof.
  intros Hex He Hst [Hrun Hth Hqs Hef] Hl Hot. exists AtCaller, es, stages. split; try done; cbn.
  - unfold relay_code. by rewrite Hrun, <- app_assoc.
  - intros t ? _. by apply Hth.
  - by rewrite Hef.
Qed.

(** A relay that does not come back completes under every schedule. *)
Lemma relaying_completes tr w : relaying_any tr false w → inevitably (finished tr) w.
Proof.
  intros Hr. apply (inevitably_inv (λ w, relaying_any tr false w ∨ finished tr w)); [|by left].
  intros w' [(pl & es & stages & Hr')|Hf]; [right|by left].
  destruct (relaying_step pl es stages tr false w') as [Hex Hall]; [done| |].
  - intros ->. pose proof (relaying_blocks _ _ _ _ _ _ Hr') as Hb. cbn in Hb.
    by rewrite bool_decide_eq_true_2 in Hb.
  - split; [done|]. intros w2 Hs. destruct (Hall w2 Hs) as [?|[_ ?]]; auto.
Qed.

(** One that comes back stops in the queue of its caller, *)
Lemma relaying_blocks_caller tr w : relaying_any tr true w → inevitably (blocked tr) w.
Proof.
  intros Hr. apply (inevitably_inv (λ w, relaying_any tr true w)); [|done].
  intros w' (pl & es & stages & Hr'). destruct (decide (pl = InQueue p)) as [->|Hne]; [left; by eexists _, _|right].
  destruct (relaying_step pl es stages tr true w') as [Hex Hall]; [done..|]. split; [done|].
  intros w2 Hs. by destruct (Hall w2 Hs) as [?|[? _]].
Qed.

(** and the caller never returns. *)
Lemma blocked_for_ever tr w w' :
  blocked tr w → rtc thread_step w w' → running w' p = WaitLatch l :: after ∧ blocked tr w'.
Proof.
  intros Hb Hs. induction Hs as [w|w w1 w' [t Ht] _ IH].
  - split; [|done]. destruct Hb as (es & stages & Hr). by destruct (relaying_place _ _ _ _ _ _ Hr) as (_ & ? & _).
  - apply IH. destruct Hb as (es & stages & Hr). exists es, stages.
    destruct (relaying_place _ _ _ _ _ _ Hr) as (_ & Hrun & Hl).
    destruct (decide (t = p)) as [->|Hne]; [|eapply relaying_elsewhere; [done|done|done|congruence|done]].
    unfold step_thread in Ht. by rewrite Hrun, Hl in Ht.
Qed.
End relay.
End threads.
