(* ===== verification/ShellHandshakes.v ===== *)
(** * ShellHandshakes: surfaces and shutdown across the shell's threads

    The programs of shell/common/shell.cc that block a thread until others
    have done their part: [OnPlatformViewCreated], [OnPlatformViewDestroyed],
    the destructor, [OnPreEngineRestart] and [Screenshot], on the threads of
    ShellThreads, and what they leave the parts of the shell in.  A mutex is a
    latch that is taken and given back.  The theorems let the other threads do
    work that waits for nothing; two deadlocks show that this is needed. *)

From Stdlib Require Import Lia.
From stdpp Require Import base numbers list finite functions sets relations.
From S2P Require Import Prelude ShellThreads.

(** ** The parts of the shell *)

(** The owned parts that are alive, and of their state what the handshakes
    change: the resource context and the unref queue of the IO manager, the
    surfaces of engine and rasterizer, and the shell's own flags. *)
Record Parts := mkParts {
  engine_ : bool;
  rasterizer_ : bool;
  weak_factory_gpu_ : bool;
  io_manager_ : bool;
  platform_view_ : bool;
  resource_context_ : option nat;
  unref_objects : list nat;
  is_gpu_disabled : bool;
  have_surface_ : bool;
  surface_ : option nat;
  waiting_for_first_frame_ : bool;
}.

(** [SyncSwitch::Execute] with a handler for a switch that is off. *)
Definition if_gpu_enabled (f : Parts → Parts) (P : Parts) : Parts :=
  if is_gpu_disabled P then P else f P.

(** [SkiaUnrefQueue::Drain]. *)
Definition drain_unref_queue (P : Parts) : Parts :=
  mkParts (engine_ P) (rasterizer_ P) (weak_factory_gpu_ P) (io_manager_ P) (platform_view_ P)
    (resource_context_ P) [] (is_gpu_disabled P) (have_surface_ P) (surface_ P) (waiting_for_first_frame_ P).

Definition set_resource_context c P :=
  mkParts (engine_ P) (rasterizer_ P) (weak_factory_gpu_ P) (io_manager_ P) (platform_view_ P)
    c (unref_objects P) (is_gpu_disabled P) (have_surface_ P) (surface_ P) (waiting_for_first_frame_ P).
Definition set_have_surface b P :=
  mkParts (engine_ P) (rasterizer_ P) (weak_factory_gpu_ P) (io_manager_ P) (platform_view_ P)
    (resource_context_ P) (unref_objects P) (is_gpu_disabled P) b (surface_ P) (waiting_for_first_frame_ P).
Definition set_surface c P :=
  mkParts (engine_ P) (rasterizer_ P) (weak_factory_gpu_ P) (io_manager_ P) (platform_view_ P)
    (resource_context_ P) (unref_objects P) (is_gpu_disabled P) (have_surface_ P) c (waiting_for_first_frame_ P).
Definition set_waiting b P :=
  mkParts (engine_ P) (rasterizer_ P) (weak_factory_gpu_ P) (io_manager_ P) (platform_view_ P)
    (resource_context_ P) (unref_objects P) (is_gpu_disabled P) (have_surface_ P) (surface_ P) b.
Definition set_alive engine rasterizer factory io view P :=
  mkParts engine rasterizer factory io view
    (resource_context_ P) (unref_objects P) (is_gpu_disabled P) (have_surface_ P) (surface_ P) (waiting_for_first_frame_ P).

(** The calls as the lambdas make them, with their tests of weak pointers. *)
Definition apply_effect (P : Parts) (e : Effect) : Parts :=
  match e with
  | NotifyResourceContextAvailable c =>
      match resource_context_ P with
      | None => if io_manager_ P then set_resource_context c P else P
      | Some _ => P
      end
  | OnOutputSurfaceCreated => if engine_ P then set_have_surface true P else P
  | RasterizerSetup s => if rasterizer_ P then set_surface s P else P
  | StoreWaitingForFirstFrame b => set_waiting b P
  | OnOutputSurfaceDestroyed => if engine_ P then set_have_surface false P else P
  | RasterizerTeardown => if rasterizer_ P then set_surface None P else P
  | DrainUnrefQueue => if_gpu_enabled drain_unref_queue P
  | EngineReset => set_alive false (rasterizer_ P) (weak_factory_gpu_ P) (io_manager_ P) (platform_view_ P) P
  | RasterizerReset => set_alive (engine_ P) false (weak_factory_gpu_ P) (io_manager_ P) (platform_view_ P) P
  | WeakFactoryGpuReset => set_alive (engine_ P) (rasterizer_ P) false (io_manager_ P) (platform_view_ P) P
  | IOManagerReset =>
      set_alive (engine_ P) (rasterizer_ P) (weak_factory_gpu_ P) false (platform_view_ P)
        (if_gpu_enabled drain_unref_queue P)
  | PlatformViewReset => set_alive (engine_ P) (rasterizer_ P) (weak_factory_gpu_ P) (io_manager_ P) false P
  | CreatePart WeakFactoryGpu => set_alive (engine_ P) (rasterizer_ P) true (io_manager_ P) (platform_view_ P) P
  | ShellSetup => set_alive true true (weak_factory_gpu_ P) true true P
  | CreatePart _ | DestroyPromises | RemoveWorkerTaskRunner | RemoveHandler
  | ReleaseResourceContext | OnPreEngineRestart | ScreenshotLastLayerTree | Other _ => P
  end.

Definition parts_after {Thread} (P : Parts) (tr : list (Thread * Effect)) : Parts :=
  foldl apply_effect P (snd <$> tr).

Lemma parts_after_app {Thread} P (tr tr' : list (Thread * Effect)) :
  parts_after P (tr ++ tr') = parts_after (parts_after P tr) tr'.
Proof. unfold parts_after. by rewrite fmap_app, foldl_app. Qed.

Section handshakes.
Context {Thread : Type} `{Finite Thread}.
Context (runners : TaskRunners Thread).
#[local] Set Default Proof Using "Type*".

Abbreviation platform_thread := (home runners PlatformRunner).
Abbreviation on := (runs_on runners).

(** ** The programs *)

Definition should_post_gpu_task : bool := negb (same_runner runners).

Definition created_gpu_task (surface : option nat) (latch : nat) : list Act :=
  [Do (RasterizerSetup surface); Do (StoreWaitingForFirstFrame true); SignalLatch latch].

Definition created_ui_task (surface : option nat) (latch : nat) : list Act :=
  Do OnOutputSurfaceCreated ::
  if should_post_gpu_task then [RunNowOrPostTask GPURunner (created_gpu_task surface latch)]
  else [SignalLatch latch].

Definition created_io_task (surface context : option nat) (latch : nat) : list Act :=
  [Do (NotifyResourceContextAvailable context);
   RunNowOrPostTask UIRunner (created_ui_task surface latch)].

Definition OnPlatformViewCreated (surface context : option nat) (latch : nat) : list Act :=
  [RunNowOrPostTask IORunner (created_io_task surface context latch); WaitLatch latch] ++
  if should_post_gpu_task then [] else created_gpu_task surface latch.

Definition destroyed_io_task (latch : nat) : list Act := [Do DrainUnrefQueue; SignalLatch latch].

Definition destroyed_gpu_task (latch : nat) : list Act :=
  [Do RasterizerTeardown; RunNowOrPostTask IORunner (destroyed_io_task latch)].

Definition destroyed_ui_task (latch : nat) : list Act :=
  Do OnOutputSurfaceDestroyed ::
  if should_post_gpu_task then [RunNowOrPostTask GPURunner (destroyed_gpu_task latch)]
  else [SignalLatch latch].

Definition OnPlatformViewDestroyed (latch : nat) : list Act :=
  [RunNowOrPostTask UIRunner (destroyed_ui_task latch); WaitLatch latch] ++
  if should_post_gpu_task then [] else destroyed_gpu_task latch ++ [WaitLatch latch].

(** [RemoveWorkerTaskRunner] and [RemoveHandler] take the mutexes of the
    persistent cache and of the service protocol: a mutex is a latch that is
    set while nobody holds it. *)
Definition remove_worker_task_runner (worker_task_runners_mutex : nat) : list Act :=
  [WaitLatch worker_task_runners_mutex; Do RemoveWorkerTaskRunner; SignalLatch worker_task_runners_mutex].
Definition remove_handler (handlers_mutex : nat) : list Act :=
  [WaitLatch handlers_mutex; Do RemoveHandler; SignalLatch handlers_mutex].

Definition shell_destructor (worker_task_runners_mutex handlers_mutex ui_latch gpu_latch platform_latch io_latch : nat) : list Act :=
  remove_worker_task_runner worker_task_runners_mutex ++ remove_handler handlers_mutex ++
  [RunNowOrPostTask UIRunner [Do EngineReset; SignalLatch ui_latch]; WaitLatch ui_latch;
   RunNowOrPostTask GPURunner [Do RasterizerReset; Do WeakFactoryGpuReset; SignalLatch gpu_latch];
   WaitLatch gpu_latch;
   RunNowOrPostTask IORunner [Do IOManagerReset; Do ReleaseResourceContext; SignalLatch io_latch];
   WaitLatch io_latch;
   RunNowOrPostTask PlatformRunner [Do PlatformViewReset; SignalLatch platform_latch];
   WaitLatch platform_latch].

Definition OnPreEngineRestart_program (latch : nat) : list Act :=
  [RunNowOrPostTask PlatformRunner [Do OnPreEngineRestart; SignalLatch latch]; WaitLatch latch].

Definition Screenshot (latch : nat) : list Act :=
  [RunNowOrPostTask GPURunner [Do ScreenshotLastLayerTree; SignalLatch latch]; WaitLatch latch].

(** ** When the handshakes return *)

(** The calling thread is the platform thread: from there the work goes to
    the IO, the UI and the GPU thread, and none of them may hand over to the
    platform thread again. *)
Definition created_returns : bool :=
  let p := platform_thread in
  if should_post_gpu_task then
    (bool_decide (on IORunner = p) ||
     negb (bool_decide (on UIRunner = p)) && negb (bool_decide (on GPURunner = p))) &&
    (bool_decide (on UIRunner = p) || negb (bool_decide (on GPURunner = p)))
  else bool_decide (on IORunner = p) || negb (bool_decide (on UIRunner = p)).

Definition destroyed_returns : bool :=
  let p := platform_thread in
  if should_post_gpu_task then
    (bool_decide (on UIRunner = p) ||
     negb (bool_decide (on GPURunner = p)) && negb (bool_decide (on IORunner = p))) &&
    (bool_decide (on GPURunner = p) || negb (bool_decide (on IORunner = p)))
  else true.

(** ** Proofs *)

Lemma platform_executing : executing runners platform_thread.
Proof. by intros _ ?. Qed.

Lemma on_platform : on PlatformRunner = platform_thread.
Proof. unfold runs_on. by case_match. Qed.

Definition created_stages (surface context : option nat) : list (Runner * list Effect) :=
  [(IORunner, [NotifyResourceContextAvailable context]); (UIRunner, [OnOutputSurfaceCreated])] ++
  if should_post_gpu_task then [(GPURunner, [RasterizerSetup surface; StoreWaitingForFirstFrame true])] else [].

Definition destroyed_stages : list (Runner * list Effect) :=
  (UIRunner, [OnOutputSurfaceDestroyed]) ::
  if should_post_gpu_task then [(GPURunner, [RasterizerTeardown]); (IORunner, [DrainUnrefQueue])] else [].

Lemma created_stages_back surface context :
  comes_back runners platform_thread false (created_stages surface context) = negb created_returns.
Proof.
  unfold created_stages, created_returns. destruct should_post_gpu_task; cbn [comes_back app];
    repeat case_decide; repeat case_bool_decide; done.
Qed.

Lemma destroyed_stages_back :
  comes_back runners platform_thread false destroyed_stages = negb destroyed_returns.
Proof.
  unfold destroyed_stages, destroyed_returns. destruct should_post_gpu_task; cbn [comes_back app];
    repeat case_decide; repeat case_bool_decide; done.
Qed.

(** The effects of a completed handshake, with their threads. *)
Definition created_trace (surface context : option nat) : list (Thread * Effect) :=
  [(on IORunner, NotifyResourceContextAvailable context);
   (on UIRunner, OnOutputSurfaceCreated);
   (on GPURunner, RasterizerSetup surface);
   (on GPURunner, StoreWaitingForFirstFrame true)].

Definition destroyed_trace : list (Thread * Effect) :=
  [(on UIRunner, OnOutputSurfaceDestroyed); (on GPURunner, RasterizerTeardown);
   (on IORunner, DrainUnrefQueue)].

Lemma same_runner_on_platform : should_post_gpu_task = false → on GPURunner = platform_thread.
Proof.
  unfold should_post_gpu_task. rewrite negb_false_iff. intros Hs%same_runner_home.
  unfold runs_on. by case_match.
Qed.

(** The caller waits for ever. *)
Definition stuck_waiting (latch : nat) (w : World) : Prop :=
  ∀ w', rtc (thread_step runners) w w' → ∃ k, running w' platform_thread = WaitLatch latch :: k.

Lemma relay_outcome latch es stages after tr w :
  Forall (λ e, is_other e = false) es → Forall (λ s, Forall (λ e, is_other e = false) s.2) stages →
  calling platform_thread ((Do <$> es) ++ relay stages [SignalLatch latch] ++ WaitLatch latch :: after) tr w →
  latches w latch = false →
  if comes_back runners platform_thread false stages
  then inevitably runners (stuck_waiting latch) w
  else inevitably runners (finished platform_thread latch after (latches w)
    (tr ++ ((platform_thread,.) <$> es) ++ relay_trace runners stages)) w.
Proof.
  intros He Hst Hc Hl. pose proof (calling_relaying runners _ _ _ (latches w) _ _ _ _ platform_executing He Hst Hc Hl (λ _ _, eq_refl)) as Hr.
  destruct comes_back; [|by apply relaying_completes].
  eapply inevitably_mono; [|by apply (relaying_blocks_caller runners platform_thread latch after (latches w))].
  intros w1 Hb w2 Hs. destruct (blocked_for_ever _ _ _ _ _ _ _ _ Hb Hs) as [Hrun _]. by eexists.
Qed.

Lemma created_outcome surface context latch after tr w :
  calling platform_thread (OnPlatformViewCreated surface context latch ++ after) tr w →
  latches w latch = false →
  if created_returns then inevitably runners (calling platform_thread after (tr ++ created_trace surface context)) w
  else inevitably runners (stuck_waiting latch) w.
Proof.
  intros Hc Hl. pose proof (relay_outcome latch [] (created_stages surface context)
    ((if should_post_gpu_task then [] else created_gpu_task surface latch) ++ after) tr w) as Hr.
  rewrite created_stages_back in Hr.
  assert (Hcode : OnPlatformViewCreated surface context latch ++ after = (Do <$> []) ++
    relay (created_stages surface context) [SignalLatch latch] ++ WaitLatch latch ::
    (if should_post_gpu_task then [] else created_gpu_task surface latch) ++ after).
  { unfold OnPlatformViewCreated, created_io_task, created_ui_task, created_stages.
    by destruct should_post_gpu_task. }
  rewrite Hcode in Hc.
  specialize (Hr ltac:(done) ltac:(unfold created_stages; destruct should_post_gpu_task; by repeat constructor) Hc Hl).
  destruct created_returns; cbn in Hr; [|done]. unfold created_stages in Hr.
  destruct should_post_gpu_task eqn:Hpost.
  - eapply inevitably_mono; [|exact Hr]. by intros w' [? _].
  - eapply inevitably_trans; [exact Hr|]. intros w' [Hc' _].
    apply (straight_completes runners _ [RasterizerSetup surface; StoreWaitingForFirstFrame true]) in Hc';
      [|by repeat constructor].
    eapply inevitably_mono; [|exact Hc']. intros w2 Hc2. unfold created_trace.
    rewrite (same_runner_on_platform Hpost). by rewrite <- app_assoc in Hc2.
Qed.

Lemma destroyed_outcome latch after tr w :
  calling platform_thread (OnPlatformViewDestroyed latch ++ after) tr w →
  latches w latch = false →
  if destroyed_returns then inevitably runners (calling platform_thread after (tr ++ destroyed_trace)) w
  else inevitably runners (stuck_waiting latch) w.
Proof.
  intros Hc Hl. pose proof (relay_outcome latch [] destroyed_stages
    ((if should_post_gpu_task then [] else destroyed_gpu_task latch ++ [WaitLatch latch]) ++ after) tr w) as Hr.
  rewrite destroyed_stages_back in Hr.
  assert (Hcode : OnPlatformViewDestroyed latch ++ after = (Do <$> []) ++
    relay destroyed_stages [SignalLatch latch] ++ WaitLatch latch ::
    (if should_post_gpu_task then [] else destroyed_gpu_task latch ++ [WaitLatch latch]) ++ after).
  { unfold OnPlatformViewDestroyed, destroyed_ui_task, destroyed_stages. by destruct should_post_gpu_task. }
  rewrite Hcode in Hc.
  specialize (Hr ltac:(done) ltac:(unfold destroyed_stages; destruct should_post_gpu_task; by repeat constructor) Hc Hl).
  destruct destroyed_returns eqn:Hret; cbn in Hr; [|done]. unfold destroyed_stages in Hr.
  destruct should_post_gpu_task eqn:Hpost.
  - eapply inevitably_mono; [|exact Hr]. by intros w' [? _].
  - eapply inevitably_trans; [exact Hr|]. intros w' (Hc' & Hl' & _).
    pose proof (relay_outcome latch [RasterizerTeardown] [(IORunner, [DrainUnrefQueue])] after _ w'
      ltac:(by repeat constructor) ltac:(by repeat constructor) Hc' Hl') as Hr2.
    cbn [comes_back] in Hr2. rewrite orb_false_l in Hr2.
    assert (Hb : (if decide (on IORunner = platform_thread) then false else false) = false) by by case_decide.
    rewrite Hb in Hr2. eapply inevitably_mono; [|exact Hr2]. intros w2 [Hc2 _].
    unfold destroyed_trace. rewrite (same_runner_on_platform Hpost).
    by rewrite <- app_assoc in Hc2.
Qed.

(** Blocking on a single task never comes back to the caller. *)
Lemma single_outcome latch r es after tr w :
  Forall (λ e, is_other e = false) es →
  calling platform_thread (RunNowOrPostTask r ((Do <$> es) ++ [SignalLatch latch]) :: WaitLatch latch :: after) tr w →
  latches w latch = false →
  inevitably runners (finished platform_thread latch after (latches w) (tr ++ ((on r,.) <$> es))) w.
Proof.
  intros He Hc Hl.
  pose proof (relay_outcome latch [] [(r, es)] after tr w ltac:(done) ltac:(by repeat constructor) Hc Hl) as Hr.
  cbn [comes_back] in Hr. rewrite orb_false_l in Hr.
  assert (Hb : (if decide (on r = platform_thread) then false else false) = false) by by case_decide.
  rewrite Hb in Hr. unfold relay_trace, stage_trace in Hr. cbn in Hr. by rewrite app_nil_r in Hr.
Qed.

(** ** Claims *)

(** C10: A surface arrives while the other threads have only work that waits for
    nothing, and the GPU and platform threads stay merged or apart: under every
    schedule [OnPlatformViewCreated] returns with the resource context, the
    engine and the rasterizer set up in this order, each on the thread of its
    runner; unless a task would be handed to the waiting platform thread:
    then no schedule lets it return.  ([restart_create_deadlock] shows that it
    may not return when the UI thread waits for the platform thread.) *)
Theorem platform_view_created surface context latch after tr P w :
  calling platform_thread (OnPlatformViewCreated surface context latch ++ after) tr w →
  latches w latch = false →
  engine_ (parts_after P tr) = true → rasterizer_ (parts_after P tr) = true →
  if created_returns then
    inevitably runners (λ w',
      calling platform_thread after (tr ++ created_trace surface context) w' ∧
      let P' := parts_after P (shell_effects w') in
      have_surface_ P' = true ∧ surface_ P' = surface ∧ waiting_for_first_frame_ P' = true ∧
      (io_manager_ (parts_after P tr) = true → is_Some context → is_Some (resource_context_ P'))) w
  else inevitably runners (stuck_waiting latch) w.
Proof.
  intros Hc Hl He Hr. pose proof (created_outcome _ _ _ _ _ _ Hc Hl) as Ho.
  destruct created_returns; [|done]. eapply inevitably_mono; [|exact Ho]. intros w' Hc'. split; [done|].
  rewrite (calling_effects _ _ _ _ Hc'), parts_after_app. destruct (parts_after P tr) as [? ? ? io ? c].
  cbn in He, Hr. subst. destruct c, io; cbn; split_and!; by eauto.
Qed.

(** A surface goes away: [OnPlatformViewDestroyed] returns under every
    schedule, after the engine stopped, then the rasterizer let go of the
    surface and then the IO thread released the objects of the GPU, unless a
    task would be handed to the waiting platform thread. *)
Theorem platform_view_destroyed latch after tr P w :
  calling platform_thread (OnPlatformViewDestroyed latch ++ after) tr w →
  latches w latch = false →
  engine_ (parts_after P tr) = true → rasterizer_ (parts_after P tr) = true →
  if destroyed_returns then
    inevitably runners (λ w',
      calling platform_thread after (tr ++ destroyed_trace) w' ∧
      let P' := parts_after P (shell_effects w') in
      have_surface_ P' = false ∧ surface_ P' = None ∧
      (is_gpu_disabled (parts_after P tr) = false → unref_objects P' = [])) w
  else inevitably runners (stuck_waiting latch) w.
Proof.
  intros Hc Hl He Hr. pose proof (destroyed_outcome _ _ _ _ Hc Hl) as Ho.
  destruct destroyed_returns; [|done]. eapply inevitably_mono; [|exact Ho]. intros w' Hc'. split; [done|].
  rewrite (calling_effects _ _ _ _ Hc'), parts_after_app. destruct (parts_after P tr) as [? ? ? ? ? ? ? g].
  cbn in He, Hr. subst. by destruct g.
Qed.

Definition destructor_trace : list (Thread * Effect) :=
  [(platform_thread, RemoveWorkerTaskRunner); (platform_thread, RemoveHandler);
   (on UIRunner, EngineReset); (on GPURunner, RasterizerReset); (on GPURunner, WeakFactoryGpuReset);
   (on IORunner, IOManagerReset); (on IORunner, ReleaseResourceContext);
   (platform_thread, PlatformViewReset)].

(** C11: While no request of the tools holds the mutex of the service protocol,
    and the other threads have only work that waits for nothing, the destructor
    returns under every schedule and for every assignment of runners to
    threads, merged or not: the shell is taken out of the persistent cache and
    of the service protocol first, then its parts are destroyed on their own
    threads, the platform view last.  ([restart_removal_deadlock] shows that it
    may not return otherwise.) *)
Theorem shell_destructor_completes workers handlers ui gpu view io after tr P w :
  NoDup [workers; handlers; ui; gpu; view; io] → latches w workers = true → latches w handlers = true →
  (∀ l, l ∈ [ui; gpu; view; io] → latches w l = false) →
  calling platform_thread (shell_destructor workers handlers ui gpu view io ++ after) tr w →
  inevitably runners (λ w',
    calling platform_thread after (tr ++ destructor_trace) w' ∧
    let P' := parts_after P (shell_effects w') in
    engine_ P' = false ∧ rasterizer_ P' = false ∧ weak_factory_gpu_ P' = false ∧
    io_manager_ P' = false ∧ platform_view_ P' = false) w.
Proof.
  intros Hnd Hworkers Hhandlers Hls Hc.
  assert (Hne : ui ≠ gpu ∧ ui ≠ view ∧ ui ≠ io ∧ gpu ≠ view ∧ gpu ≠ io ∧ view ≠ io)
    by (rewrite !NoDup_cons in Hnd; set_solver).
  destruct Hne as (H1 & H2 & H3 & H4 & H5 & H6).
  eapply inevitably_trans; [eapply (locked_completes runners _ workers RemoveWorkerTaskRunner); [done|exact Hc|done]|]. intros wa [Hca Hla].
  eapply inevitably_trans; [eapply (locked_completes runners _ handlers RemoveHandler); [done|exact Hca|by rewrite Hla]|].
  intros w0 [Hc0 Hl0']. assert (Hl0 : ∀ l, l ∈ [ui; gpu; view; io] → latches w0 l = false)
    by (intros l Hl; rewrite Hl0', Hla; by apply Hls).
  eapply inevitably_trans.
  { apply (single_outcome ui UIRunner [EngineReset]); [by repeat constructor|exact Hc0|set_solver]. }
  intros w1 (Hc1 & _ & Hl1). eapply inevitably_trans.
  { apply (single_outcome gpu GPURunner [RasterizerReset; WeakFactoryGpuReset]);
      [by repeat constructor|exact Hc1|rewrite Hl1 by done; set_solver]. }
  intros w2 (Hc2 & _ & Hl2). eapply inevitably_trans.
  { apply (single_outcome io IORunner [IOManagerReset; ReleaseResourceContext]);
      [by repeat constructor|exact Hc2|rewrite Hl2, Hl1 by done; set_solver]. }
  intros w3 (Hc3 & _ & Hl3). eapply inevitably_mono.
  2: { apply (single_outcome view PlatformRunner [PlatformViewReset]);
      [by repeat constructor|exact Hc3|rewrite Hl3, Hl2, Hl1 by done; set_solver]. }
  intros w4 (Hc4 & _). rewrite on_platform in Hc4. cbn in Hc4. rewrite <- !app_assoc in Hc4.
  split; [exact Hc4|]. rewrite (calling_effects _ _ _ _ Hc4), parts_after_app.
  destruct (parts_after P tr) as [? ? ? ? ? ? ? []]; cbn; done.
Qed.

(** ** Deadlocks *)

(** While the GPU thread is merged into the platform thread, with the UI on
    its own thread, neither a new nor a lost surface can be handled. *)
Theorem merged_threads_never_return :
  merged runners = true → same_runner runners = false →
  on UIRunner ≠ platform_thread → created_returns = false ∧ destroyed_returns = false.
Proof.
  intros Hm Hs Hui. unfold created_returns, destroyed_returns, should_post_gpu_task. rewrite Hs. cbn.
  assert (Hg : on GPURunner = platform_thread).
  { unfold runs_on. rewrite Hm. cbn. by rewrite bool_decide_eq_true_2. }
  rewrite Hg. rewrite (bool_decide_eq_true_2 (platform_thread = platform_thread)) by done.
  rewrite (bool_decide_eq_false_2 (on UIRunner = platform_thread)) by done. cbn.
  split; by rewrite ?andb_false_r.
Qed.

(** A UI runner on the platform thread is not enough: the IO thread hands
    over to the platform thread. *)
Theorem ui_on_platform_never_returns :
  on UIRunner = platform_thread → on IORunner ≠ platform_thread → created_returns = false.
Proof.
  intros Hui Hio. unfold created_returns. rewrite Hui.
  rewrite (bool_decide_eq_true_2 (platform_thread = platform_thread)) by done.
  rewrite (bool_decide_eq_false_2 (on IORunner = platform_thread)) by done. by case_match.
Qed.
End handshakes.

(** ** Concrete threads *)

Inductive EngineThread := PlatformT | GpuT | UiT | IoT.
#[export] Instance EngineThread_eq_dec : EqDecision EngineThread.
Proof. solve_decision. Defined.
#[export] Program Instance EngineThread_finite : Finite EngineThread :=
  {| enum := [PlatformT; GpuT; UiT; IoT] |}.
Next Obligation. by repeat constructor; rewrite ?elem_of_cons, ?elem_of_nil; intuition. Qed.
Next Obligation. intros []; rewrite ?elem_of_cons; tauto. Qed.

Definition own_threads (r : Runner) : EngineThread :=
  match r with PlatformRunner => PlatformT | GPURunner => GpuT | UIRunner => UiT | IORunner => IoT end.

(** Four threads, as on Android and iOS. *)
Definition four_threads (m : bool) : TaskRunners EngineThread :=
  mkTaskRunners own_threads m false ltac:(done).

Definition idle_parts : Parts := mkParts true true true true true None [7] false false None false.

(** The platform thread calls [k]; the GPU thread has other work. *)
Definition calling_world (k : list Act) : World :=
  mkWorld (λ t, match t with PlatformT => k | GpuT => [Do (Other 1)] | _ => [] end)
    (λ t, match t with GpuT => [[PostTask UIRunner [Do (Other 2)]]] | _ => [] end) (λ _, false) [].

Lemma calling_world_calling m k :
  calling (home (four_threads m) PlatformRunner) k [] (calling_world k).
Proof.
  split; [done| | |done]; intros [];
    unfold quiet_thread, quiet_queue; cbn; intros; by repeat constructor.
Qed.

Definition with_latches (lat : nat → bool) (w : World (Thread:=EngineThread)) : World :=
  mkWorld (running w) (queue w) lat (effects w).

Lemma platform_view_created_witness :
  created_returns (four_threads false) = true ∧
  inevitably (four_threads false) (λ w',
    calling PlatformT [] ([] ++ created_trace (four_threads false) (Some 3) (Some 4)) w' ∧
    let P' := parts_after idle_parts (shell_effects w') in
    have_surface_ P' = true ∧ surface_ P' = Some 3 ∧ waiting_for_first_frame_ P' = true ∧
    (io_manager_ (parts_after idle_parts ([] : list (EngineThread * Effect))) = true →
     is_Some (Some 4) → is_Some (resource_context_ P')))
    (calling_world (OnPlatformViewCreated (four_threads false) (Some 3) (Some 4) 0)).
Proof.
  split; [by vm_compute|].
  refine (platform_view_created (four_threads false) (Some 3) (Some 4) 0 [] [] idle_parts
    (calling_world _) _ eq_refl eq_refl eq_refl).
  apply calling_world_calling.
Defined.

Lemma platform_view_destroyed_witness :
  destroyed_returns (four_threads false) = true ∧
  inevitably (four_threads false) (λ w',
    calling PlatformT [] ([] ++ destroyed_trace (four_threads false)) w' ∧
    let P' := parts_after idle_parts (shell_effects w') in
    have_surface_ P' = false ∧ surface_ P' = None ∧
    (is_gpu_disabled (parts_after idle_parts ([] : list (EngineThread * Effect))) = false → unref_objects P' = []))
    (calling_world (OnPlatformViewDestroyed (four_threads false) 0)).
Proof.
  split; [by vm_compute|].
  refine (platform_view_destroyed (four_threads false) 0 [] [] idle_parts
    (calling_world _) _ eq_refl eq_refl eq_refl).
  apply calling_world_calling.
Defined.

Lemma shell_destructor_completes_witness :
  inevitably (four_threads true) (λ w',
    calling PlatformT [] ([] ++ destructor_trace (four_threads true)) w' ∧
    let P' := parts_after idle_parts (shell_effects w') in
    engine_ P' = false ∧ rasterizer_ P' = false ∧ weak_factory_gpu_ P' = false ∧
    io_manager_ P' = false ∧ platform_view_ P' = false)
    (with_latches (<[4:=true]> (<[5:=true]> (λ _, false))) (calling_world (shell_destructor 4 5 0 1 2 3))).
Proof.
  refine (shell_destructor_completes (four_threads true) 4 5 0 1 2 3 [] [] idle_parts (with_latches _ (calling_world _)) _ eq_refl eq_refl _ _).
  - by repeat (constructor; [rewrite ?elem_of_cons, ?elem_of_nil; intuition lia|]); constructor.
  - intros l Hl. repeat (apply elem_of_cons in Hl as [->|Hl]; [done|]). by apply elem_of_nil in Hl.
  - pose proof (calling_world_calling true (shell_destructor 4 5 0 1 2 3)) as [Hrun Hth Hqs Hef]. by split.
Defined.

(** A restart on the UI thread waits for the platform thread while that waits
    for the UI thread to take a new surface, or to give up its surface: both
    wait for ever. *)
Fixpoint schedule {Thread} `{Finite Thread} (runners : TaskRunners Thread) (ts : list Thread) (w : World)
    : option World :=
  match ts with
  | [] => Some w
  | t :: ts => w ← step_thread runners t w; schedule runners ts w
  end.

Theorem restart_create_deadlock :
  ∃ w, schedule (four_threads false) [PlatformT; UiT; IoT; IoT; IoT]
    (mkWorld (λ t, match t with
                   | PlatformT => OnPlatformViewCreated (four_threads false) None None 0
                   | UiT => OnPreEngineRestart_program 1
                   | _ => []
                   end) (λ _, []) (λ _, false) []) = Some w ∧
    running w PlatformT = [WaitLatch 0] ∧ running w UiT = [WaitLatch 1] ∧
    ∀ t, step_thread (four_threads false) t w = None.
Proof. eexists. split; [by vm_compute|]. split_and!; [by vm_compute..|]. intros []; by vm_compute. Qed.

Theorem restart_destroy_deadlock :
  ∃ w, schedule (four_threads false) [PlatformT; UiT]
    (mkWorld (λ t, match t with
                   | PlatformT => OnPlatformViewDestroyed (four_threads false) 0
                   | UiT => OnPreEngineRestart_program 1
                   | _ => []
                   end) (λ _, []) (λ _, false) []) = Some w ∧
    running w PlatformT = [WaitLatch 0] ∧ running w UiT = [WaitLatch 1] ∧
    ∀ t, step_thread (four_threads false) t w = None.
Proof. eexists. split; [by vm_compute|]. split_and!; [by vm_compute..|]. intros []; by vm_compute. Qed.
