(* ===== verification/ShellForkJoin.v ===== *)
(** * ShellForkJoin: programs that fork tasks and join their promises

    A thread runs a program that hands straight tasks to task runners and waits
    for the promises they keep; the tasks may wait for each other too.  The
    result is a criterion that ignores threads and schedules: if each promise
    is kept before it is waited for when the tasks are run in place, one after
    the other, then the program completes under every schedule, on whatever
    threads the runners live and whatever else these have to do.  Each thread
    then did its effects in the order of the program, and what comes after a
    promise in one task came after what its keeper did before. *)

From Stdlib Require Import Lia.
From stdpp Require Import base numbers list finite functions sets relations.
From S2P Require Import Prelude ShellThreads.

(** ** Programs *)

Definition straight (a : Act) : bool :=
  match a with Do e => negb (is_other e) | SignalLatch _ | WaitLatch _ => true | _ => false end.

Inductive Item := Mine (a : Act) | Fork (r : Runner) (task : list Act).
Definition item_code (i : Item) : Act := match i with Mine a => a | Fork r task => RunNowOrPostTask r task end.
Definition item_acts (i : Item) : list Act := match i with Mine a => [a] | Fork _ task => task end.

(** The program, and its actions when tasks are run in place. *)
Definition program (items : list Item) : list Act := item_code <$> items.
Definition in_place (items : list Item) : list Act := items ≫= item_acts.

(** Every promise is kept before it is waited for; those in [P] are. *)
Fixpoint kept (P : nat → Prop) (acts : list Act) : Prop :=
  match acts with
  | [] => True
  | SignalLatch l :: acts => kept (λ l', P l' ∨ l' = l) acts
  | WaitLatch l :: acts => P l ∧ kept P acts
  | _ :: acts => kept P acts
  end.

(** Straight actions are told apart by their keys. *)
Definition act_key (a : Act) : nat * option Effect :=
  match a with Do e => (0, Some e) | SignalLatch l => (2 * l + 1, None) | WaitLatch l => (2 * l + 2, None) | _ => (0, None) end.

Definition joins (items : list Item) : Prop :=
  Forall (λ a, straight a = true) (in_place items) ∧ NoDup (in_place items) ∧
  Forall (λ i, item_acts i ≠ []) items ∧ kept (λ _, False) (in_place items).

(** ** Lists of actions *)

Lemma NoDup_acts acts : NoDup (act_key <$> acts) → NoDup acts.
Proof. apply NoDup_fmap_1. Qed.

(** Promises that are waited for one after the other. *)
Lemma kept_waits P ls acts : kept P ((WaitLatch <$> ls) ++ acts) ↔ Forall P ls ∧ kept P acts.
Proof. induction ls as [|l ls IH]; cbn; [by rewrite Forall_nil; naive_solver|]. rewrite IH, Forall_cons. naive_solver. Qed.

(** What an action does to the latches, when it can be done. *)
Definition latch_step (a : Act) (lat : nat → bool) : nat → bool :=
  match a with SignalLatch l => <[l:=true]> lat | WaitLatch l => <[l:=false]> lat | _ => lat end.
Definition enabled (a : Act) (lat : nat → bool) : bool := match a with WaitLatch l => lat l | _ => true end.

Lemma kept_mono (P Q : nat → Prop) acts :
  (∀ l, WaitLatch l ∈ acts → P l → Q l) → kept P acts → kept Q acts.
Proof.
  revert P Q. induction acts as [|a acts IH]; intros P Q HPQ; [done|].
  destruct a as [e|r task|r task|l|l]; cbn; try (intros Hk; eapply IH; [|exact Hk]; intros l' Hl'; apply HPQ; set_solver).
  - intros Hk. eapply IH; [|exact Hk]. intros l' Hl' [HP|]; [left; apply HPQ; set_solver|by right].
  - intros [HP Hk]. split; [apply HPQ; set_solver|]. eapply IH; [|exact Hk]. intros l' Hl'. apply HPQ. set_solver.
Qed.

(** An action may be done before those that come before it. *)
Lemma kept_step lat A a B :
  NoDup (A ++ a :: B) → kept (λ l, lat l = true) (A ++ a :: B) → kept (λ l, latch_step a lat l = true) (A ++ B).
Proof.
  intros Hnd Hk.
  assert (Hgen : ∀ P, kept P (A ++ a :: B) → kept (λ l, P l ∨ a = SignalLatch l) (A ++ B)).
  { clear. induction A as [|x A IH]; cbn; intros P Hk.
    - destruct a as [e|r task|r task|l|l]; cbn in Hk; try destruct Hk as [_ Hk]; eapply kept_mono; try exact Hk; naive_solver.
    - destruct x as [e|r task|r task|l|l]; cbn in *; try (by apply IH).
      + apply IH in Hk. eapply kept_mono; [|exact Hk]. naive_solver.
      + destruct Hk as [HP Hk]. split; [by left|by apply IH]. }
  eapply kept_mono; [|apply Hgen, Hk]. intros l Hl [Hlat| ->]; cbn; [|by rewrite fn_lookup_insert].
  destruct a as [e|r task|r task|l'|l']; cbn; try done.
  - destruct (decide (l = l')) as [->|Hne]; [by rewrite fn_lookup_insert|by rewrite fn_lookup_insert_ne].
  - rewrite fn_lookup_insert_ne; [done|]. intros ->. apply NoDup_app in Hnd as (_ & Hd & Hn).
    apply NoDup_cons in Hn as [Hn _]. apply elem_of_app in Hl as [Hl|Hl]; [|done]. apply (Hd _ Hl). set_solver.
Qed.

Lemma kept_enabled lat a acts : kept (λ l, lat l = true) (a :: acts) → enabled a lat = true.
Proof. destruct a; cbn; try done. by intros [? _]. Qed.

(** ** Lists without duplicates *)

Lemma NoDup_split {A} (c : A) P1 S1 P2 S2 :
  NoDup (P1 ++ c :: S1) → P1 ++ c :: S1 = P2 ++ c :: S2 → P1 = P2 ∧ S1 = S2.
Proof.
  revert P2. induction P1 as [|x P1 IH]; intros [|y P2]; cbn; intros Hnd Heq; simplify_eq; try done.
  - apply NoDup_cons in Hnd as [Hn _]. exfalso. apply Hn. set_solver.
  - apply NoDup_cons in Hnd as [Hn _]. exfalso. apply Hn. set_solver.
  - apply NoDup_cons in Hnd as [_ Hnd]. by destruct (IH P2 Hnd) as [-> ->].
Qed.

(** What follows an element of a suffix is in the suffix. *)
Lemma suffix_follows {A} (a b : A) X Y Z S :
  NoDup (X ++ a :: Y ++ b :: Z) → S `suffix_of` X ++ a :: Y ++ b :: Z → a ∈ S → b ∈ S.
Proof.
  intros Hnd [Pre Heq] Ha. apply list_elem_of_split in Ha as (S1 & S2 & ->). rewrite Heq in Hnd.
  rewrite app_assoc in Hnd, Heq. destruct (NoDup_split a _ _ _ _ Hnd (eq_sym Heq)) as [_ ->]. set_solver.
Qed.

Section forkjoin.
Context {Thread : Type} `{Finite Thread} (runners : TaskRunners Thread).
Context (p : Thread) (after : list Act).
#[local] Set Default Proof Using "Type*".

Abbreviation on := (runs_on runners).

(** ** Worlds *)

(** Tasks that were handed over, or what is left of them, in the order of the
    program. *)
Abbreviation Blocks := (list (Thread * list Act)).

Definition tasks_of (t : Thread) (bs : Blocks) : list (list Act) := (filter (λ b, b.1 = t) bs).*2.

(** What is left to do, by whom. *)
Definition owned (bs : Blocks) (items : list Item) : list (Thread * Act) :=
  (bs ≫= λ b, (b.1,.) <$> b.2) ++
  (items ≫= λ i, match i with Mine a => [(p, a)] | Fork r task => (on r,.) <$> task end).

(** Tasks of the program among other ones. *)
Inductive mixed : list (list Act) → list (list Act) → Prop :=
  | mixed_nil : mixed [] []
  | mixed_other task bl q : Forall background task → mixed bl q → mixed bl (task :: q)
  | mixed_task task bl q : mixed bl q → mixed (task :: bl) (task :: q).

Definition holds (t : Thread) (bl : list (list Act)) (w : World) : Prop :=
  quiet_thread w t ∧ mixed bl (queue w t) ∨
  ∃ task rest, bl = task :: rest ∧ running w t = task ∧ mixed rest (queue w t).

Record joining (bs : Blocks) (items : list Item) (tr : list (Thread * Effect)) (w : World) : Prop := {
  joining_code : running w p = concat (tasks_of p bs) ++ program items ++ after;
  joining_queue : quiet_queue w p;
  joining_threads t : t ≠ p → holds t (tasks_of t bs) w;
  joining_blocks : Forall (λ b, b.2 ≠ []) bs ∧ Forall (λ i, item_acts i ≠ []) items;
  joining_straight : Forall (λ x, straight x.2 = true) (owned bs items);
  joining_nodup : NoDup (owned bs items).*2;
  joining_kept : kept (λ l, latches w l = true) (owned bs items).*2;
  joining_effects : shell_effects w = tr;
}.

(** ** Steps of the program *)

(** An action done by [t]. *)
Definition done_act (t : Thread) (a : Act) (w : World) : World :=
  match a with
  | Do e => perform t e w
  | SignalLatch l => set_latch l true w
  | WaitLatch l => set_latch l false w
  | _ => w
  end.
Definition effect_of (t : Thread) (a : Act) : list (Thread * Effect) := match a with Do e => [(t, e)] | _ => [] end.

Lemma step_straight t a k w :
  running w t = a :: k → straight a = true → enabled a (latches w) = true →
  step_thread runners t w = Some (done_act t a (set_running t k w)).
Proof. unfold step_thread. intros -> Ha He. destruct a; try done. cbn in *. by rewrite He. Qed.

Lemma step_disabled t a k w :
  running w t = a :: k → straight a = true → enabled a (latches w) = false → step_thread runners t w = None.
Proof. unfold step_thread. intros -> Ha He. destruct a; try done. cbn in *. by rewrite He. Qed.

Lemma done_act_running t a w : running (done_act t a w) = running w.
Proof. by destruct a. Qed.
Lemma done_act_queue t a w : queue (done_act t a w) = queue w.
Proof. by destruct a. Qed.
Lemma done_act_latches t a w : latches (done_act t a w) = latch_step a (latches w).
Proof. by destruct a. Qed.
Lemma done_act_effects t a w : straight a = true → shell_effects (done_act t a w) = shell_effects w ++ effect_of t a.
Proof.
  destruct a; cbn [straight done_act effect_of]; try done; intros He; rewrite ?app_nil_r; try done.
  rewrite (shell_effects_perform runners). by destruct (is_other e).
Qed.

(** What is left of a task. *)
Definition put (t : Thread) (acts : list Act) : Blocks := match acts with [] => [] | _ => [(t, acts)] end.

Lemma tasks_of_app t bs1 bs2 : tasks_of t (bs1 ++ bs2) = tasks_of t bs1 ++ tasks_of t bs2.
Proof. unfold tasks_of. by rewrite filter_app, fmap_app. Qed.
Lemma tasks_of_same t acts bs : tasks_of t ((t, acts) :: bs) = acts :: tasks_of t bs.
Proof. unfold tasks_of. by rewrite filter_cons_True. Qed.
Lemma tasks_of_other t t' acts bs : t' ≠ t → tasks_of t ((t', acts) :: bs) = tasks_of t bs.
Proof. intros Hne. unfold tasks_of. by rewrite filter_cons_False. Qed.
Lemma tasks_of_put_other t t' acts : t' ≠ t → tasks_of t (put t' acts) = [].
Proof. intros Hne. destruct acts; [done|]. by apply tasks_of_other. Qed.

Lemma first_task t bs task rest :
  tasks_of t bs = task :: rest → ∃ bs1 bs2, bs = bs1 ++ (t, task) :: bs2 ∧ tasks_of t bs1 = [] ∧ tasks_of t bs2 = rest.
Proof.
  induction bs as [|[t' acts] bs IH]; [done|]. destruct (decide (t' = t)) as [->|Hne].
  - rewrite tasks_of_same. intros [= -> <-]. by exists [], bs.
  - rewrite tasks_of_other by done. intros (bs1 & bs2 & -> & Hb1 & Hb2)%IH. exists ((t', acts) :: bs1), bs2.
    by rewrite tasks_of_other.
Qed.

(** A straight action of [t] is done: what the rest of the invariant needs. *)
Lemma joining_done bs items bs' items' tr t a A B k w :
  joining bs items tr w → running w t = a :: k → enabled a (latches w) = true →
  owned bs items = A ++ (t, a) :: B → owned bs' items' = A ++ B →
  Forall (λ b, b.2 ≠ []) bs' ∧ Forall (λ i, item_acts i ≠ []) items' →
  (let w' := set_running t k w in
   running w' p = concat (tasks_of p bs') ++ program items' ++ after ∧ ∀ t', t' ≠ p → holds t' (tasks_of t' bs') w') →
  step_thread runners t w = Some (done_act t a (set_running t k w)) ∧
  joining bs' items' (tr ++ effect_of t a) (done_act t a (set_running t k w)).
Proof.
  intros [Hcode Hq Hth Hbl Hst Hnd Hk Hef] Hrun Hen Ho Ho' Hbl' [Hp Hth']. rewrite Ho in Hst, Hnd, Hk.
  rewrite fmap_app, fmap_cons in Hnd, Hk. apply Forall_app in Hst as [HstA [Hsa HstB]%Forall_cons].
  split; [by apply step_straight|]. split.
  - by rewrite done_act_running.
  - unfold quiet_queue. by rewrite done_act_queue.
  - intros t' Ht'. specialize (Hth' t' Ht'). unfold holds, quiet_thread in *. by rewrite done_act_running, done_act_queue.
  - done.
  - rewrite Ho'. by apply Forall_app.
  - rewrite Ho', fmap_app. eapply sublist_NoDup; [exact Hnd|]. apply sublist_app; [done|]. by apply sublist_cons.
  - rewrite Ho', fmap_app, done_act_latches. by apply kept_step.
  - rewrite done_act_effects by done. by rewrite <- Hef.
Qed.

(** [t] does the first action that is left to it. *)
Definition advance (t : Thread) (a : Act) (x y : list (Thread * Act)) : Prop :=
  ∃ A B, x = A ++ (t, a) :: B ∧ y = A ++ B ∧ Forall (λ o, o.1 ≠ t) A.
Definition does (t : Thread) (a : Act) (bs : Blocks) (items : list Item) (bs' : Blocks) (items' : list Item)
    (tr : list (Thread * Effect)) (w : World) : Prop :=
  ∃ w', step_thread runners t w = Some w' ∧ joining bs' items' (tr ++ effect_of t a) w' ∧
    latches w' = latch_step a (latches w) ∧ advance t a (owned bs items) (owned bs' items').

Lemma tasks_of_owned t bs : tasks_of t bs = [] → Forall (λ o, o.1 ≠ t) (owned bs []).
Proof.
  induction bs as [|[t' acts] bs IH]; [constructor|]. destruct (decide (t' = t)) as [->|Hne]; [by rewrite tasks_of_same|].
  rewrite tasks_of_other by done. intros Hn%IH. unfold owned in *. cbn. rewrite <- app_assoc. apply Forall_app. split; [|done].
  by apply Forall_fmap, Forall_true.
Qed.

Lemma owned_app bs1 bs2 items : owned (bs1 ++ bs2) items = owned bs1 [] ++ owned bs2 items.
Proof. unfold owned. cbn. by rewrite bind_app, app_nil_r, app_assoc. Qed.
Lemma owned_cons t acts bs items : owned ((t, acts) :: bs) items = ((t,.) <$> acts) ++ owned bs items.
Proof. unfold owned. cbn. by rewrite app_assoc. Qed.
Lemma owned_put t acts bs items : owned (put t acts ++ bs) items = ((t,.) <$> acts) ++ owned bs items.
Proof. destruct acts; [done|]. apply owned_cons. Qed.

Lemma straight_not_background a : straight a = true → background a = false.
Proof. destruct a; cbn; try done. by destruct (is_other e). Qed.

Lemma started t task rest w :
  holds t (task :: rest) w → task ≠ [] → Forall (λ a, straight a = true) task → running w t = task → mixed rest (queue w t).
Proof.
  intros [[Hq _]|(task' & rest' & [= <- <-] & _ & Hm)] Hne Hst Hrun; [|done].
  unfold quiet_thread in Hq. rewrite Hrun in Hq. destruct task as [|a task]; [done|].
  apply Forall_cons in Hq as [Hb _]. apply Forall_cons in Hst as [Hs _]. by rewrite (straight_not_background a Hs) in Hb.
Qed.

Lemma holds_set t t' k bl w : t' ≠ t → holds t' bl w → holds t' bl (set_running t k w).
Proof. intros Hne. unfold holds, quiet_thread. cbn. by rewrite fn_lookup_insert_ne. Qed.

Lemma joining_block t bs1 a acts bs2 items tr w :
  joining (bs1 ++ (t, a :: acts) :: bs2) items tr w → tasks_of t bs1 = [] → (t = p ∨ running w t = a :: acts) →
  enabled a (latches w) = true →
  does t a (bs1 ++ (t, a :: acts) :: bs2) items (bs1 ++ put t acts ++ bs2) items tr w.
Proof.
  intros Hj Hfirst Hrun Hen. pose proof Hj as [Hcode Hq Hth [Hbl Hit] Hst Hnd Hk Hef].
  assert (Ho : owned (bs1 ++ (t, a :: acts) :: bs2) items = owned bs1 [] ++ (t, a) :: ((t,.) <$> acts) ++ owned bs2 items)
    by (by rewrite owned_app, owned_cons).
  assert (Ho' : owned (bs1 ++ put t acts ++ bs2) items = owned bs1 [] ++ ((t,.) <$> acts) ++ owned bs2 items)
    by (by rewrite owned_app, owned_put).
  assert (Hother : ∀ t', t' ≠ t → tasks_of t' (bs1 ++ put t acts ++ bs2) = tasks_of t' (bs1 ++ (t, a :: acts) :: bs2)).
  { intros t' Ht'. rewrite !tasks_of_app, (tasks_of_put_other t' t) by done. by rewrite (tasks_of_other t' t) by done. }
  assert (Hmine : tasks_of t (bs1 ++ (t, a :: acts) :: bs2) = (a :: acts) :: tasks_of t bs2)
    by (by rewrite tasks_of_app, Hfirst, tasks_of_same).
  assert (Hleft : concat (tasks_of t (bs1 ++ put t acts ++ bs2)) = acts ++ concat (tasks_of t bs2)).
  { rewrite !tasks_of_app, Hfirst. destruct acts; [done|]. cbn [put]. by rewrite tasks_of_same. }
  set (k := if decide (t = p) then acts ++ concat (tasks_of t bs2) ++ program items ++ after else acts).
  destruct (joining_done (bs1 ++ (t, a :: acts) :: bs2) items (bs1 ++ put t acts ++ bs2) items tr t a
    (owned bs1 []) (((t,.) <$> acts) ++ owned bs2 items) k w) as [Hs Hj']; try done.
  - unfold k. destruct (decide (t = p)) as [->|Hne]; [|by destruct Hrun]. rewrite Hcode, Hmine. cbn. by rewrite <- app_assoc.
  - split; [|done]. apply Forall_app in Hbl as [? [_ ?]%Forall_cons]. apply Forall_app. split; [done|].
    apply Forall_app. split; [|done]. destruct acts; by repeat constructor.
  - cbn. split.
    + subst k. destruct (decide (t = p)) as [->|Hne]; [by rewrite fn_lookup_insert, Hleft, <- app_assoc|].
      rewrite fn_lookup_insert_ne, Hother by done. done.
    + intros t' Ht'. destruct (decide (t' = t)) as [->|Hne]; [|rewrite Hother by done; by apply holds_set, Hth].
      destruct Hrun as [|Hrun]; [done|]. specialize (Hth t Ht'). rewrite Hmine in Hth.
      assert (Hsa : Forall (λ a, straight a = true) (a :: acts)).
      { rewrite Ho in Hst. apply Forall_app in Hst as [_ Hst]. change ((t, a) :: ((t,.) <$> acts) ++ owned bs2 items) with (((t,.) <$> (a :: acts)) ++ owned bs2 items) in Hst.
        apply Forall_app in Hst as [Hst _]. by rewrite Forall_fmap in Hst. }
      pose proof (started t (a :: acts) (tasks_of t bs2) w Hth ltac:(done) Hsa Hrun) as Hm.
      rewrite !tasks_of_app, Hfirst. unfold k. rewrite decide_False by done. destruct acts as [|a' acts].
      * left. split; [|done]. unfold quiet_thread. cbn. by rewrite fn_lookup_insert.
      * right. cbn [put]. rewrite tasks_of_same. eexists _, _. split; [done|]. cbn. by rewrite fn_lookup_insert.
  - eexists. split; [exact Hs|]. split; [exact Hj'|]. split; [by rewrite done_act_latches|].
    eexists _, _. split; [exact Ho|]. split; [exact Ho'|]. by apply tasks_of_owned.
Qed.

Lemma joining_mine bs a items tr w :
  joining bs (Mine a :: items) tr w → tasks_of p bs = [] → enabled a (latches w) = true →
  does p a bs (Mine a :: items) bs items tr w.
Proof.
  intros Hj Hown Hen. pose proof Hj as [Hcode Hq Hth [Hbl Hit] Hst Hnd Hk Hef].
  assert (Ho : ∀ rest, owned bs rest = owned bs [] ++ owned [] rest) by (intros rest; unfold owned; cbn; by rewrite app_nil_r).
  destruct (joining_done bs (Mine a :: items) bs items tr p a (owned bs []) (owned [] items) (program items ++ after) w)
    as [Hs Hj']; try done.
  - by rewrite Hcode, Hown.
  - split; [done|]. by apply Forall_cons in Hit as [_ ?].
  - cbn. rewrite Hown, fn_lookup_insert. split; [done|]. intros t Ht. by apply holds_set, Hth.
  - eexists. split; [exact Hs|]. split; [exact Hj'|]. split; [by rewrite done_act_latches|].
    eexists _, _. split; [apply (Ho (Mine a :: items))|]. split; [apply Ho|]. by apply tasks_of_owned.
Qed.

Lemma mixed_app bl q extra : mixed bl q → Forall (Forall background) extra → mixed bl (q ++ extra).
Proof.
  intros Hm Hex. induction Hm; cbn; [|by apply mixed_other|by apply mixed_task].
  induction Hex; [apply mixed_nil|by apply mixed_other].
Qed.
Lemma mixed_snoc bl q task : mixed bl q → mixed (bl ++ [task]) (q ++ [task]).
Proof. induction 1; cbn; [apply mixed_task, mixed_nil|by apply mixed_other|by apply mixed_task]. Qed.

Lemma joining_fork bs r task items tr w :
  executing runners p → joining bs (Fork r task :: items) tr w → tasks_of p bs = [] →
  ∃ w', step_thread runners p w = Some w' ∧ joining (bs ++ [(on r, task)]) items tr w' ∧ latches w' = latches w ∧
    owned (bs ++ [(on r, task)]) items = owned bs (Fork r task :: items).
Proof.
  intros Hex [Hcode Hq Hth [Hbl Hit] Hst Hnd Hk Hef] Hown. rewrite Hown in Hcode. cbn in Hcode.
  assert (Ho : owned (bs ++ [(on r, task)]) items = owned bs (Fork r task :: items)).
  { rewrite owned_app, owned_cons. unfold owned. cbn. by rewrite app_nil_r. }
  apply Forall_cons in Hit as [Htask Hit]. unfold step_thread. rewrite Hcode, runs_tasks_on_executing by done.
  case_bool_decide as Hr; eexists; (split; [reflexivity|]); (split; [|by rewrite Ho]); split; rewrite ?Ho; try done.
  - cbn. rewrite fn_lookup_insert, tasks_of_app, Hown, <- Hr, tasks_of_same. cbn. by rewrite app_nil_r.
  - intros t Ht. rewrite tasks_of_app, tasks_of_other by congruence. cbn. rewrite app_nil_r. by apply holds_set, Hth.
  - split; [|done]. apply Forall_app. by repeat constructor.
  - cbn. by rewrite fn_lookup_insert, tasks_of_app, Hown, tasks_of_other by congruence.
  - unfold quiet_queue. cbn. by rewrite fn_lookup_insert_ne.
  - intros t Ht. rewrite tasks_of_app. destruct (decide (t = on r)) as [->|Hne].
    + rewrite tasks_of_same. cbn. destruct (Hth (on r) Ht) as [[Hqt Hm]|(task' & rest & Hb & Hrun & Hm)].
      * left. unfold quiet_thread. cbn. rewrite fn_lookup_insert, fn_lookup_insert_ne by done. split; [done|by apply mixed_snoc].
      * right. eexists task', (rest ++ [task]). rewrite Hb. cbn. rewrite fn_lookup_insert, fn_lookup_insert_ne by done.
        split; [done|]. split; [done|by apply mixed_snoc].
    + rewrite tasks_of_other by done. cbn. rewrite app_nil_r. specialize (Hth t Ht). unfold holds, quiet_thread in *. cbn.
      by rewrite !fn_lookup_insert_ne by done.
  - split; [|done]. apply Forall_app. by repeat constructor.
Qed.

(** ** Other steps *)

Lemma joining_change t bs items tr w w' :
  joining bs items tr w → t ≠ p → quiet_change t w w' → holds t (tasks_of t bs) w' → joining bs items tr w'.
Proof.
  intros [Hcode Hq Hth Hbl Hst Hnd Hk Hef] Htp [Hqt Hr Hl He Hqu] Hh. split; rewrite ?Hl, ?He; try done.
  - by rewrite Hr.
  - unfold quiet_queue. destruct (Hqu p) as [(extra & Hex & ->)|[-> _]]; [|done]. by apply Forall_app.
  - intros t' Ht'. destruct (decide (t' = t)) as [->|Hne]; [done|]. specialize (Hth t' Ht').
    destruct (Hqu t') as [(extra & Hex & Heq)|[-> _]]; [|done]. unfold holds, quiet_thread in *. rewrite Hr, Heq by done.
    destruct Hth as [[? ?]|(task & rest & ? & ? & ?)]; [left|right; exists task, rest]; split_and!; try done; by apply mixed_app.
Qed.

Lemma joining_quiet t bs items tr w w' :
  joining bs items tr w → t ≠ p → quiet_thread w t → mixed (tasks_of t bs) (queue w t) →
  step_thread runners t w = Some w' → joining bs items tr w' ∧ latches w' = latches w.
Proof.
  intros Hj Htp Hqt Hm Hs.
  assert (Hquiet : (∀ task q, running w t = [] → queue w t = task :: q → Forall background task ∧ mixed (tasks_of t bs) q) →
    joining bs items tr w' ∧ latches w' = latches w).
  { intros Hpop. assert (Hc : quiet_change t w w') by (eapply quiet_step; [done| |done]; intros task q Hr Hq; by apply (Hpop task q)).
    split; [|apply Hc]. eapply joining_change; [done..|]. left. split; [apply Hc|].
    destruct (quiet_change_queue _ _ _ Hc t) as [(extra & Hex & ->)|[_ (Hr & task & Hq)]]; [by apply mixed_app|].
    by apply (Hpop task (queue w' t)). }
  inversion Hm as [Hb Hq|task bl q Hback Hmq Hb Hq|task bl q Hmq Hb Hq].
  - apply Hquiet. intros task q Hr Hqq. congruence.
  - apply Hquiet. intros task' q' Hr Hqq. rewrite Hqq in Hq. by injection Hq as -> ->.
  - destruct (running w t) as [|a k] eqn:Hrun; [|apply Hquiet; congruence]. clear Hquiet.
    unfold step_thread in Hs. rewrite Hrun, <- Hq in Hs. injection Hs as <-. split; [|done].
    destruct Hj as [Hcode Hqp Hth Hbl Hst Hnd Hk Hef]. split; try done; cbn.
    + by rewrite fn_lookup_insert_ne.
    + unfold quiet_queue. cbn. by rewrite fn_lookup_insert_ne.
    + intros t' Ht'. destruct (decide (t' = t)) as [->|Hne].
      * right. exists task, bl. cbn. by rewrite !fn_lookup_insert.
      * specialize (Hth t' Ht'). unfold holds, quiet_thread in *. cbn. by rewrite !fn_lookup_insert_ne by done.
Qed.

(** ** Order *)

(** The actions of a thread. *)
Definition mine (t : Thread) (x : list (Thread * Act)) : list Act := (filter (λ o, o.1 = t) x).*2.
Definition effects_in (acts : list Act) : list Effect := omap (λ a, match a with Do e => Some e | _ => None end) acts.

(** [e1] comes before a promise in the actions of [t1] and [e2] after it in
    those of [t2]. *)
Definition promised (x : list (Thread * Act)) (t1 : Thread) (e1 : Effect) (t2 : Thread) (e2 : Effect) : Prop :=
  ∃ l X Y Z X' Y' Z', mine t1 x = X ++ Do e1 :: Y ++ SignalLatch l :: Z ∧ mine t2 x = X' ++ WaitLatch l :: Y' ++ Do e2 :: Z'.

Definition ordered (x : list (Thread * Act)) (done : list (Thread * Effect)) : Prop :=
  ∀ t1 e1 t2 e2, promised x t1 e1 t2 e2 → ∀ D1 D2, done = D1 ++ (t2, e2) :: D2 → (t1, e1) ∈ D1.

(** Of [x0], [x] is left and [done] was done. *)
Record progress (x0 : list (Thread * Act)) (done : list (Thread * Effect)) (x : list (Thread * Act)) (lat : nat → bool) : Prop := {
  progress_sub o : o ∈ x → o ∈ x0;
  progress_suffix t : mine t x `suffix_of` mine t x0;
  progress_balance t : (filter (λ o, o.1 = t) done).*2 ++ effects_in (mine t x) = effects_in (mine t x0);
  progress_signal l : SignalLatch l ∈ x.*2 → lat l = false ∧ (WaitLatch l ∈ x0.*2 → WaitLatch l ∈ x.*2);
  progress_order : ordered x0 done;
}.

Lemma mine_elem t a x : a ∈ mine t x ↔ (t, a) ∈ x.
Proof.
  unfold mine. rewrite list_elem_of_fmap. split.
  - intros ([t' a'] & -> & [Ht Hin]%list_elem_of_filter). cbn in *. by subst.
  - intros Hin. exists (t, a). split; [done|]. by apply list_elem_of_filter.
Qed.

Lemma act_elem (t : Thread) (a : Act) x : (t, a) ∈ x → a ∈ x.*2.
Proof. intros Hin. apply list_elem_of_fmap. by exists (t, a). Qed.

(** Without duplicates an action has one owner. *)
Lemma owner_unique x (t t' : Thread) (a : Act) : NoDup x.*2 → (t, a) ∈ x → (t', a) ∈ x → t = t'.
Proof.
  intros Hnd (X & Y & ->)%list_elem_of_split Hin. rewrite fmap_app, fmap_cons in Hnd. apply NoDup_app in Hnd as (_ & Hd & Hn).
  apply NoDup_cons in Hn as [Hn _]. cbn in *. apply elem_of_app in Hin as [Hin%act_elem|[Hin|Hin%act_elem]%elem_of_cons].
  - exfalso. apply (Hd _ Hin). set_solver.
  - congruence.
  - done.
Qed.

Lemma mine_NoDup t x : NoDup x.*2 → NoDup (mine t x).
Proof. intros Hnd. eapply sublist_NoDup; [exact Hnd|]. apply fmap_sublist, sublist_filter. Qed.
Lemma mine_app t x y : mine t (x ++ y) = mine t x ++ mine t y.
Proof. unfold mine. by rewrite filter_app, fmap_app. Qed.
Lemma mine_same t a x : mine t ((t, a) :: x) = a :: mine t x.
Proof. unfold mine. by rewrite filter_cons_True. Qed.
Lemma mine_other t t' a x : t' ≠ t → mine t ((t', a) :: x) = mine t x.
Proof. intros Hne. unfold mine. by rewrite filter_cons_False. Qed.
Lemma mine_none t x : Forall (λ o, o.1 ≠ t) x → mine t x = [].
Proof. induction 1 as [|[t' a] x Hne _ IH]; [done|]. by rewrite mine_other. Qed.

Lemma mine_task t task : mine t ((t,.) <$> task) = task.
Proof. induction task as [|a task IH]; [done|]. rewrite fmap_cons, mine_same. by rewrite IH. Qed.

Lemma advance_mine t a x y : advance t a x y → mine t x = a :: mine t y ∧ ∀ t', t' ≠ t → mine t' x = mine t' y.
Proof.
  intros (A & B & -> & -> & HA). rewrite !mine_app, mine_same, (mine_none t A HA). split; [done|].
  intros t' Hne. by rewrite !mine_app, mine_other.
Qed.
Lemma advance_elem t a x y o : advance t a x y → o ∈ x ↔ o = (t, a) ∨ o ∈ y.
Proof. intros (A & B & -> & -> & _). set_solver. Qed.

Lemma mixed_nonempty task bl q : mixed (task :: bl) q → q ≠ [].
Proof. by inversion 1. Qed.

(** Every world of the program can go on until all is done. *)
Lemma joining_progress bs items tr w :
  executing runners p → joining bs items tr w → bs ≠ [] ∨ items ≠ [] → ∃ w', thread_step runners w w'.
Proof.
  intros Hex Hj Hne. pose proof Hj as [Hcode Hq Hth [Hbl Hit] Hst Hnd Hk Hef]. destruct bs as [|[t [|a acts]] bs].
  - destruct items as [|[a|r task] items]; [naive_solver|..].
    + destruct (joining_mine [] a items tr w Hj eq_refl) as (w' & Hs & _); [|by exists w', p]. by apply kept_enabled in Hk.
    + destruct (joining_fork [] r task items tr w Hex Hj eq_refl) as (w' & Hs & _). by exists w', p.
  - by apply Forall_cons in Hbl as [? _].
  - assert (Hen : enabled a (latches w) = true) by (by apply kept_enabled in Hk).
    assert (Hgo : t = p ∨ running w t = a :: acts → ∃ w', thread_step runners w w').
    { intros Hr. destruct (joining_block t [] a acts bs items tr w Hj eq_refl Hr Hen) as (w' & Hs & _). by exists w', t. }
    destruct (decide (t = p)) as [->|Htp]; [by apply Hgo; left|].
    specialize (Hth t Htp). rewrite tasks_of_same in Hth.
    destruct Hth as [[Hqt Hm]|(task & rest & [= <- <-] & Hr & _)]; [|by apply Hgo; right].
    destruct (quiet_can_step runners t w Hqt) as [w' Hs]; [right; by eapply mixed_nonempty|]. by exists w', t.
Qed.

(** How the program itself goes on: [p] hands its next task over, or [a] is
    done, by [p] or in a task. *)
Definition forks (bs : Blocks) (items : list Item) (bs' : Blocks) (items' : list Item) : Prop :=
  (bs' = bs ∧ items' = items) ∨ (∃ r task, items = Fork r task :: items' ∧ bs' = bs ++ [(on r, task)]).
Definition takes (a : Act) (bs : Blocks) (items : list Item) (bs' : Blocks) (items' : list Item) : Prop :=
  (bs' = bs ∧ items = Mine a :: items') ∨
  ∃ t bs1 acts bs2, bs = bs1 ++ ((t, a :: acts) :: bs2) ∧ bs' = bs1 ++ (put t acts ++ bs2) ∧ items' = items.

(** A step of the program: one of its actions is done, or something else
    happens. *)
Lemma joining_step bs items tr w w' :
  executing runners p → joining bs items tr w → thread_step runners w w' → tasks_of p bs ≠ [] ∨ items ≠ [] →
  ∃ bs' items',
    (joining bs' items' tr w' ∧ latches w' = latches w ∧ owned bs' items' = owned bs items ∧ forks bs items bs' items') ∨
    ∃ t a, enabled a (latches w) = true ∧ joining bs' items' (tr ++ effect_of t a) w' ∧
      latches w' = latch_step a (latches w) ∧ advance t a (owned bs items) (owned bs' items') ∧ takes a bs items bs' items'.
Proof.
  intros Hex Hj [t Hs] Hleft. pose proof Hj as [Hcode Hq Hth [Hbl Hit] Hst Hnd Hk Hef].
  assert (Hblock : ∀ task rest, tasks_of t bs = task :: rest → (t = p ∨ running w t = task) → ∃ bs' items',
    (joining bs' items' tr w' ∧ latches w' = latches w ∧ owned bs' items' = owned bs items ∧ forks bs items bs' items') ∨
    ∃ t a, enabled a (latches w) = true ∧ joining bs' items' (tr ++ effect_of t a) w' ∧
      latches w' = latch_step a (latches w) ∧ advance t a (owned bs items) (owned bs' items') ∧ takes a bs items bs' items').
  { intros task rest Ht Hr. destruct (first_task t bs task rest Ht) as (bs1 & bs2 & -> & Hb1 & Hb2).
    apply Forall_app in Hbl as [_ [Hne _]%Forall_cons]. destruct task as [|a acts]; [done|].
    destruct (enabled a (latches w)) eqn:Hen.
    - destruct (joining_block t bs1 a acts bs2 items tr w Hj Hb1 Hr Hen) as (w2 & Hs2 & Hj2 & Hl2 & Ha).
      rewrite Hs in Hs2. injection Hs2 as <-. eexists _, _. right. exists t, a. split_and!; try done. right. by exists t, bs1, acts, bs2.
    - assert (Hsa : straight a = true).
      { rewrite owned_app, owned_cons in Hst. by apply Forall_app in Hst as [_ [? _]%Forall_cons]. }
      assert (Hrun : ∃ k, running w t = a :: k).
      { destruct (decide (t = p)) as [->|Htp]; [|destruct Hr as [|Hr]; [done|by exists acts]].
        rewrite Hcode, tasks_of_app, Hb1, tasks_of_same. by eexists. }
      destruct Hrun as [k Hrun]. by rewrite (step_disabled t a k w Hrun Hsa Hen) in Hs. }
  destruct (decide (t = p)) as [->|Htp].
  - destruct (tasks_of p bs) as [|task rest] eqn:Ht; [|by eapply Hblock; [|left]].
    destruct items as [|[a|r task] items]; [naive_solver|..].
    + destruct (enabled a (latches w)) eqn:Hen.
      * destruct (joining_mine bs a items tr w Hj Ht Hen) as (w2 & Hs2 & Hj2 & Hl2 & Ha).
        rewrite Hs in Hs2. injection Hs2 as <-. eexists _, _. right. exists p, a. split_and!; try done. by left.
      * assert (Hsa : straight a = true).
        { unfold owned in Hst. apply Forall_app in Hst as [_ Hst]. by apply Forall_cons in Hst as [? _]. }
        by rewrite (step_disabled p a _ w Hcode Hsa Hen) in Hs.
    + destruct (joining_fork bs r task items tr w Hex Hj Ht) as (w2 & Hs2 & Hj2 & Hl2 & Ho).
      rewrite Hs in Hs2. injection Hs2 as <-. eexists _, _. left. split_and!; try done. right. by exists r, task.
  - destruct (Hth t Htp) as [[Hqt Hm]|(task & rest & Ht & Hr & Hm)]; [|by eapply Hblock; [|right]].
    destruct (joining_quiet t bs items tr w w' Hj Htp Hqt Hm Hs). exists bs, items. left. split_and!; try done. by left.
Qed.

(** When [t2] comes to [e2], [e1] is done. *)
Lemma promised_done x0 done x lat t1 e1 t2 e2 rest :
  NoDup x0.*2 → progress x0 done x lat → promised x0 t1 e1 t2 e2 → mine t2 x = Do e2 :: rest → (t1, e1) ∈ done.
Proof.
  intros Hnd [Hsub Hsuf Hbal Hsig Hord] (l & X & Y & Z & X' & Y' & Z' & H1 & H2) Hm.
  assert (Hwait : WaitLatch l ∉ x.*2).
  { intros ([t a] & Heq & Hin)%list_elem_of_fmap. cbn in Heq. subst a.
    assert (t = t2) as -> by (eapply owner_unique; [exact Hnd|by apply Hsub|]; apply mine_elem; rewrite H2; set_solver).
    apply mine_elem in Hin. rewrite Hm in Hin. destruct (Hsuf t2) as [Pre Hpre]. rewrite Hm in Hpre.
    pose proof (mine_NoDup t2 x0 Hnd) as Hn. rewrite Hpre in Hn.
    rewrite H2, app_comm_cons, app_assoc in Hpre. destruct (NoDup_split _ _ _ _ _ Hn (eq_sym Hpre)) as [-> _].
    apply NoDup_app in Hn as (_ & Hd & _). eapply Hd; [|exact Hin]. set_solver. }
  assert (Hsignal : SignalLatch l ∉ x.*2).
  { intros Hin. apply Hwait, (Hsig l Hin). eapply act_elem. apply mine_elem. rewrite H2. set_solver. }
  assert (Hgone : Do e1 ∉ mine t1 x).
  { intros Hin. apply Hsignal. eapply act_elem, mine_elem. pose proof (mine_NoDup t1 x0 Hnd) as Hn. pose proof (Hsuf t1) as Hs.
    rewrite H1 in Hn, Hs. by eapply suffix_follows. }
  assert (Hin : e1 ∈ (filter (λ o : Thread * Effect, o.1 = t1) done).*2 ++ effects_in (mine t1 x)).
  { rewrite Hbal, H1. unfold effects_in. rewrite omap_app. cbn. set_solver. }
  apply elem_of_app in Hin as [Hin|Hin].
  - apply list_elem_of_fmap in Hin as ([t e] & Heq & [Ht ?]%list_elem_of_filter). cbn in Heq, Ht. by subst.
  - unfold effects_in in Hin. apply list_elem_of_omap in Hin as (a & Ha & He). destruct a; try done. by injection He as ->.
Qed.

Lemma progress_advance x0 done x y lat t a :
  NoDup x0.*2 → NoDup x.*2 → enabled a lat = true → progress x0 done x lat → advance t a x y →
  progress x0 (done ++ effect_of t a) y (latch_step a lat).
Proof.
  intros Hnd0 Hnd Hen Hp Ha. pose proof Hp as [Hsub Hsuf Hbal Hsig Hord]. destruct (advance_mine t a x y Ha) as [Hm Hm'].
  assert (Hgone : a ∉ y.*2).
  { destruct Ha as (A & B & -> & -> & _). rewrite fmap_app, fmap_cons in Hnd. apply NoDup_app in Hnd as (_ & Hd & [Hn _]%NoDup_cons).
    cbn in *. rewrite fmap_app. intros [Hin|Hin]%elem_of_app; [|done]. apply (Hd _ Hin). set_solver. }
  assert (Hact : ∀ b, b ∈ x.*2 ↔ b = a ∨ b ∈ y.*2).
  { intros b. destruct Ha as (A & B & -> & -> & _). rewrite !fmap_app, fmap_cons. set_solver. }
  split.
  - intros o Ho. apply Hsub. rewrite (advance_elem t a x y o Ha). by right.
  - intros t'. destruct (decide (t' = t)) as [->|Hne]; [|rewrite <- Hm' by done; apply Hsuf].
    specialize (Hsuf t). rewrite Hm in Hsuf. by eapply suffix_cons_l.
  - intros t'. rewrite <- (Hbal t'), filter_app, fmap_app. destruct (decide (t' = t)) as [->|Hne].
    + rewrite Hm, <- app_assoc. f_equal. unfold effect_of, effects_in. destruct a; try done. cbn. by rewrite decide_True.
    + rewrite (Hm' t' Hne). assert (Hn : filter (λ o : Thread * Effect, o.1 = t') (effect_of t a) = []).
      { destruct a; try done. cbn. by rewrite decide_False by done. }
      by rewrite Hn, app_nil_r.
  - intros l Hl. destruct (Hsig l (proj2 (Hact _) (or_intror Hl))) as [Hlat Hw]. split.
    + destruct a as [e|r task|r task|l'|l']; cbn; try done.
      * rewrite fn_lookup_insert_ne; [done|]. congruence.
      * destruct (decide (l = l')) as [->|Hne]; [by rewrite fn_lookup_insert|by rewrite fn_lookup_insert_ne].
    + intros Hw0. specialize (Hw Hw0). apply Hact in Hw as [Heq|Hw]; [|done]. rewrite <- Heq in Hen. cbn in Hen. congruence.
  - intros t1 e1 t2 e2 Hpr D1 D2 Heq. destruct a as [e|r task|r task|l|l]; cbn [effect_of] in Heq; try (rewrite app_nil_r in Heq; by eapply Hord).
    destruct D2 as [|o D2 _] using rev_ind.
    + apply app_inj_tail in Heq as [<- Heq]. injection Heq as -> ->. eapply promised_done; [exact Hnd0|exact Hp|exact Hpr|exact Hm].
    + rewrite app_comm_cons, app_assoc in Heq. apply app_inj_tail in Heq as [Heq _]. by eapply Hord.
Qed.

(** ** What was done before a task was handed over *)

(** [o1] was done whenever [o2] is. *)
Definition precedes (done : list (Thread * Effect)) (o1 o2 : Thread * Effect) : Prop :=
  ∀ D1 D2, done = D1 ++ o2 :: D2 → o1 ∈ D1.

(** [e1] comes in the program before a task with [e2]. *)
Definition handed (items : list Item) (e1 : Effect) (r : Runner) (e2 : Effect) : Prop :=
  ∃ I1 I2 task I3, items = I1 ++ Mine (Do e1) :: I2 ++ Fork r task :: I3 ∧ Do e2 ∈ task.

(** What is left of the program, with the tasks that were handed over. *)
Record forking (items0 : list Item) (done : list (Thread * Effect)) (bs : Blocks) (items : list Item) : Prop := {
  forking_suffix : suffix items items0;
  forking_tasks o : o ∈ owned bs [] → ∃ r task, Fork r task ∈ items0 ∧ o.2 ∈ task;
  forking_order e1 r e2 : handed items0 e1 r e2 → precedes done (p, e1) (on r, e2);
}.

(** An action is in one item. *)
Lemma item_unique items X i Y a : NoDup (in_place items) → items = X ++ i :: Y → a ∈ item_acts i →
  (a ∉ in_place X) ∧ (a ∉ in_place Y).
Proof using Type.
  intros Hnd -> Ha. unfold in_place in *. rewrite bind_app in Hnd. cbn in Hnd. apply NoDup_app in Hnd as (_ & Hd & Hn).
  apply NoDup_app in Hn as (_ & Hd' & _). split; [intros Hx; apply (Hd _ Hx); set_solver|by apply Hd'].
Qed.

Lemma item_in_place i items a : i ∈ items → a ∈ item_acts i → a ∈ in_place items.
Proof using Type. intros Hi Ha. apply list_elem_of_bind. by exists i. Qed.

Lemma suffix_without {A} (x : A) P S Y : S `suffix_of` (P ++ x :: Y) → x ∉ S → S `suffix_of` Y.
Proof using Type.
  intros [Q Heq] Hx. revert P Heq. induction Q as [|q Q IH]; intros P Heq; cbn in Heq.
  - exfalso. apply Hx. rewrite <- Heq. set_solver.
  - destruct P as [|y P]; cbn in Heq; injection Heq as -> Heq; [by exists Q|by eapply IH].
Qed.

(** When a task comes to [e2], the program is past [e1]. *)
Lemma handed_done items0 done bs items lat e1 r e2 :
  NoDup (in_place items0) → NoDup (owned bs items).*2 → progress (owned [] items0) done (owned bs items) lat →
  forking items0 done bs items → handed items0 e1 r e2 → (∃ t, (t, Do e2) ∈ owned bs []) → (p, e1) ∈ done.
Proof.
  intros Hnd0 Hnd Hp [Hsuf Htasks _] (I1 & I2 & task & I3 & Heq & He2) [t2 Hin2].
  assert (Hfork : Fork r task ∉ items).
  { intros Hf. unfold owned in Hnd, Hin2. rewrite app_nil_r in Hin2. rewrite fmap_app in Hnd. apply NoDup_app in Hnd as (_ & Hd & _).
    apply (Hd (Do e2)); [by eapply act_elem|]. apply (act_elem (on r)), list_elem_of_bind. exists (Fork r task). split; [set_solver|done]. }
  assert (Hone : ∀ i, i ∈ items0 → i ≠ Mine (Do e1) → Do e1 ∉ item_acts i).
  { intros i Hi Hne Ha. destruct (item_unique items0 I1 (Mine (Do e1)) _ (Do e1) Hnd0 Heq) as [H1 H2]; [set_solver|].
    rewrite Heq in Hi. apply elem_of_app in Hi as [Hi|[Hi|Hi]%elem_of_cons]; [|done|].
    - by apply H1, (item_in_place i).
    - by apply H2, (item_in_place i). }
  assert (Hin : e1 ∈ (filter (λ o : Thread * Effect, o.1 = p) done).*2 ++ effects_in (mine p (owned bs items))).
  { rewrite (progress_balance _ _ _ _ Hp p). unfold effects_in. apply list_elem_of_omap. exists (Do e1). split; [|done].
    apply mine_elem. rewrite Heq. unfold owned. cbn. rewrite bind_app. cbn. set_solver. }
  apply elem_of_app in Hin as [Hin|Hin].
  { apply list_elem_of_fmap in Hin as ([t e] & He & [Ht ?]%list_elem_of_filter). cbn in He, Ht. by subst. }
  exfalso. unfold effects_in in Hin. apply list_elem_of_omap in Hin as ([e| | | |] & Ha & He); try done. injection He as ->.
  apply mine_elem in Ha. unfold owned in Ha. apply elem_of_app in Ha as [Ha|Ha].
  - destruct (Htasks (p, Do e1)) as (r' & task' & Hf & Ht); [unfold owned; by rewrite app_nil_r|].
    by apply (Hone (Fork r' task')).
  - apply list_elem_of_bind in Ha as (i & Ho & Hi). rewrite Heq, app_comm_cons, app_assoc in Hsuf.
    pose proof (suffix_without _ _ _ _ Hsuf Hfork) as [Q HQ].
    assert (Hacts : Do e1 ∈ item_acts i) by (destruct i; cbn in *; set_solver).
    destruct (item_unique items0 I1 (Mine (Do e1)) _ (Do e1) Hnd0 Heq) as [_ H2]; [set_solver|].
    apply H2, (item_in_place i); [rewrite HQ; set_solver|done].
Qed.

Lemma forking_forks items0 done bs items bs' items' :
  forking items0 done bs items → forks bs items bs' items' → forking items0 done bs' items'.
Proof.
  intros [Hsuf Htasks Hord] [[-> ->]|(r & task & -> & ->)]; [done|]. split; [by eapply suffix_cons_l| |done].
  intros o. rewrite owned_app, elem_of_app. intros [Ho|Ho]; [by apply Htasks|]. exists r, task. split.
  - destruct Hsuf as [Q ->]. set_solver.
  - rewrite owned_cons in Ho. cbn in Ho. rewrite app_nil_r in Ho. by apply list_elem_of_fmap in Ho as (a & -> & ?).
Qed.

Lemma forking_takes items0 done bs items bs' items' lat t a :
  NoDup (in_place items0) → NoDup (owned bs items).*2 → progress (owned [] items0) done (owned bs items) lat →
  advance t a (owned bs items) (owned bs' items') →
  forking items0 done bs items → takes a bs items bs' items' → forking items0 (done ++ effect_of t a) bs' items'.
Proof.
  intros Hnd0 Hnd Hp Hadv Hf Ht. pose proof Hf as [Hsuf Htasks Hord]. split.
  - destruct Ht as [[-> ->]|(t' & bs1 & acts & bs2 & -> & -> & ->)]; [by eapply suffix_cons_l|done].
  - intros o Ho. apply Htasks. destruct Ht as [[-> ->]|(t' & bs1 & acts & bs2 & -> & -> & ->)]; [done|].
    rewrite owned_app, owned_put in Ho. rewrite owned_app, owned_cons, fmap_cons. set_solver.
  - intros e1 r e2 Hh D1 D2 Heq.
    destruct a as [e|r' task|r' task|l|l]; cbn [effect_of] in Heq; try (rewrite app_nil_r in Heq; by eapply Hord).
    destruct D2 as [|o D2 _] using rev_ind.
    + apply app_inj_tail in Heq as [<- Heq]. injection Heq as -> ->.
      eapply handed_done; [exact Hnd0|exact Hnd|exact Hp|exact Hf|exact Hh|].
      destruct Ht as [[-> ->]|(t' & bs1 & acts & bs2 & -> & -> & ->)].
      * exfalso. destruct Hh as (I1 & I2 & task & I3 & -> & He2). destruct Hsuf as [Q HQ].
        destruct (item_unique _ _ _ _ (Do e2) Hnd0 HQ) as [H1 H2]; [set_solver|].
        assert (Hin : Fork r task ∈ Q ++ Mine (Do e2) :: items') by (rewrite <- HQ; set_solver).
        apply elem_of_app in Hin as [Hin|[?|Hin]%elem_of_cons]; [by apply H1, (item_in_place (Fork r task))|done|].
        by apply H2, (item_in_place (Fork r task)).
      * exists t'. rewrite owned_app, owned_cons. set_solver.
    + rewrite app_comm_cons, app_assoc in Heq. apply app_inj_tail in Heq as [Heq _]. by eapply Hord.
Qed.

Lemma forking_start items : forking items [] [] items.
Proof. split; [done|by intros o ?%elem_of_nil|]. intros e1 r e2 _ D1 D2 Heq. by destruct D1. Qed.

(** ** Programs that join all their tasks *)

(** Every task ends with a promise the program waits for, or a later one of the
    same runner does. *)
Definition joined_in (all items : list Item) : Prop :=
  ∀ X r task Y, items = X ++ Fork r task :: Y →
    (∃ l acts, task = acts ++ [SignalLatch l] ∧ Mine (WaitLatch l) ∈ all) ∨ ∃ task', Fork r task' ∈ Y.
Definition all_joined (items : list Item) : Prop := joined_in items items.

Lemma owned_items_cons i items : owned [] (i :: items) = owned [] [i] ++ owned [] items.
Proof. unfold owned. cbn. by rewrite app_nil_r. Qed.

Lemma fork_mine r task items :
  Fork r task ∈ items → task ≠ [] → mine (on r) (owned [] items) ≠ [].
Proof.
  intros (X & Y & ->)%list_elem_of_split Hne. destruct task as [|a task]; [done|]. intros Hm.
  assert (Hin : a ∈ mine (on r) (owned [] (X ++ Fork r (a :: task) :: Y))).
  { apply mine_elem. unfold owned. cbn. rewrite bind_app. cbn. set_solver. }
  rewrite Hm in Hin. by apply elem_of_nil in Hin.
Qed.

Lemma joined_last all items t :
  joined_in all items → Forall (λ i, item_acts i ≠ []) items → t ≠ p → mine t (owned [] items) ≠ [] →
  ∃ l acts, mine t (owned [] items) = acts ++ [SignalLatch l] ∧ Mine (WaitLatch l) ∈ all.
Proof.
  intros Hj Hne Htp. induction items as [|i items IH]; [done|]. apply Forall_cons in Hne as [Hi Hne].
  rewrite owned_items_cons, mine_app. intros Hm.
  destruct (decide (mine t (owned [] items) = [])) as [Hnil|Hsome].
  - rewrite Hnil, app_nil_r in *. destruct i as [a|r task].
    { exfalso. apply Hm, mine_none. repeat constructor. intros Heq. by apply Htp. }
    destruct (decide (on r = t)) as [<-|Hr].
    + assert (Htask : mine (on r) (owned [] [Fork r task]) = task).
      { unfold owned. cbn. rewrite app_nil_r. apply mine_task. }
      destruct (Hj [] r task items eq_refl) as [(l & acts & -> & Hw)|(task' & Hin)].
      * exists l, acts. by rewrite Htask.
      * exfalso. eapply fork_mine; [exact Hin| |exact Hnil]. rewrite Forall_forall in Hne. by apply (Hne _ Hin).
    + exfalso. apply Hm, mine_none. unfold owned. cbn. rewrite app_nil_r. by apply Forall_fmap, Forall_true.
  - destruct IH as (l & acts & -> & Hw); try done; [|exists l, (mine t (owned [] [i]) ++ acts); by rewrite app_assoc].
    intros X r task Y ->. by apply (Hj (i :: X) r task Y).
Qed.

Lemma mine_wait items l : Mine (WaitLatch l) ∈ items → (p, WaitLatch l) ∈ owned [] items.
Proof. intros (X & Y & ->)%list_elem_of_split. unfold owned. cbn. rewrite bind_app. cbn. set_solver. Qed.

(** The program waits for all its tasks. *)
Lemma joining_all items0 bs tr done w :
  joins items0 → all_joined items0 → joining bs [] tr w → tasks_of p bs = [] → NoDup (owned [] items0).*2 →
  progress (owned [] items0) done (owned bs []) (latches w) → bs = [].
Proof.
  intros (_ & _ & Hne & _) Hjd Hj Hown Hnd [Hsub Hsuf Hbal Hsig Hord].
  destruct bs as [|[t [|a acts]] bs]; [done|by destruct (joining_blocks _ _ _ _ Hj) as [[? _]%Forall_cons _]|exfalso].
  assert (Htp : t ≠ p) by (intros ->; by rewrite tasks_of_same in Hown).
  assert (Hm : a ∈ mine t (owned ((t, a :: acts) :: bs) [])) by (apply mine_elem; rewrite owned_cons; set_solver).
  destruct (joined_last items0 items0 t Hjd Hne Htp) as (l & pre & Hl & Hw).
  { intros Hnil. pose proof (Hsuf t) as [Pre Hp]. rewrite Hnil in Hp. symmetry in Hp. apply app_eq_nil in Hp as [_ Hp]. rewrite Hp in Hm. by apply elem_of_nil in Hm. }
  assert (Hs : SignalLatch l ∈ (owned ((t, a :: acts) :: bs) []).*2).
  { apply (act_elem t), mine_elem. pose proof (Hsuf t) as [Pre Hp]. rewrite Hl in Hp.
    destruct (mine t (owned ((t, a :: acts) :: bs) [])) as [|x m _] using rev_ind; [by apply elem_of_nil in Hm|].
    rewrite app_assoc in Hp. apply app_inj_tail in Hp as [_ <-]. set_solver. }
  pose proof (proj2 (Hsig l Hs) (act_elem _ _ _ (mine_wait _ _ Hw))) as ([t' b] & Hb & Hin)%list_elem_of_fmap. cbn in Hb. subst b.
  assert (t' = p) as -> by (eapply owner_unique; [exact Hnd|by apply Hsub|by apply mine_wait]).
  pose proof (tasks_of_owned p _ Hown) as Hf. rewrite Forall_forall in Hf. by apply (Hf _ Hin).
Qed.

(** ** Completion *)

Lemma owned_acts items : (owned [] items).*2 = in_place items.
Proof.
  unfold owned, in_place. cbn. induction items as [|[a|r task] items IH]; [done|..]; cbn in *.
  - by rewrite IH.
  - rewrite fmap_app, IH, <- list_fmap_compose. f_equal. apply list_fmap_id.
Qed.

Lemma calling_joining items tr w :
  joins items → calling p (program items ++ after) tr w → joining [] items tr w.
Proof.
  intros (Hst & Hnd & Hne & Hk) [Hrun Hth Hqs Hef]. split; try done.
  - intros t Ht. left. split; [by apply Hth|]. cbn. specialize (Hqs t). unfold quiet_queue in Hqs.
    induction Hqs; by constructor.
  - rewrite <- owned_acts in Hst. by rewrite Forall_fmap in Hst.
  - by rewrite owned_acts.
  - rewrite owned_acts. by eapply kept_mono; [|exact Hk].
Qed.

Lemma progress_start items (w : World (Thread:=Thread)) :
  (∀ l, SignalLatch l ∈ in_place items → latches w l = false) → progress (owned [] items) [] (owned [] items) (latches w).
Proof.
  intros Hl. split; try done.
  - intros l Hin. rewrite owned_acts in Hin. split; [by apply Hl|done].
  - intros t1 e1 t2 e2 _ D1 D2 Heq. by destruct D1.
Qed.

Lemma joining_calling tr w : joining [] [] tr w → calling p after tr w.
Proof.
  intros [Hcode Hq Hth _ _ _ _ Hef].
  assert (Hmixed : ∀ q, mixed [] q → Forall (Forall background) q).
  { intros q. generalize (eq_refl (@nil (list Act))). generalize (@nil (list Act)) at 1 3. intros bl Hbl Hm. induction Hm; simplify_eq; try done. constructor; auto. }
  split; try done.
  - intros t Ht. destruct (Hth t Ht) as [[? _]|(task & rest & ? & _)]; [done|]. by cbn in *.
  - intros t. destruct (decide (t = p)) as [->|Ht]; [done|]. destruct (Hth t Ht) as [[_ Hm]|(task & rest & ? & _)]; [by apply Hmixed|]. by cbn in *.
Qed.

(** What holds once the program is done. *)
Definition completed (items : list Item) (tr : list (Thread * Effect)) (w : World) : Prop :=
  ∃ done, calling p after (tr ++ done) w ∧
    (∀ t, (filter (λ o, o.1 = t) done).*2 = effects_in (mine t (owned [] items))) ∧
    ordered (owned [] items) done ∧
    (∀ e1 r e2, handed items e1 r e2 → precedes done (p, e1) (on r, e2)).

Theorem fork_join_completes items tr w :
  executing runners p → joins items → all_joined items → calling p (program items ++ after) tr w →
  (∀ l, SignalLatch l ∈ in_place items → latches w l = false) → inevitably runners (completed items tr) w.
Proof.
  intros Hex Hj0 Hjd Hc Hl. pose proof Hj0 as (_ & Hnd0 & _). rewrite <- owned_acts in Hnd0.
  apply (inevitably_inv runners (λ w, ∃ bs its done, joining bs its (tr ++ done) w ∧
    progress (owned [] items) done (owned bs its) (latches w) ∧ forking items done bs its)).
  - clear w Hc Hl. intros w (bs & its & done & Hj & Hp & Hf).
    destruct (decide (tasks_of p bs = [] ∧ its = [])) as [[Hown ->]|Hleft].
    + left. assert (bs = []) as -> by (by eapply joining_all). exists done. split_and!; [by apply joining_calling| |by apply (progress_order _ _ _ _ Hp)|by apply (forking_order _ _ _ _ Hf)].
      intros t. rewrite <- (progress_balance _ _ _ _ Hp t). cbn. by rewrite app_nil_r.
    + right. assert (Hleft' : tasks_of p bs ≠ [] ∨ its ≠ []) by (destruct (decide (its = [])); naive_solver). split.
      * eapply joining_progress; [done..|]. destruct Hleft' as [Ht|?]; [left|by right]. by intros ->.
      * intros w' Hs. destruct (joining_step bs its _ w w' Hex Hj Hs Hleft') as (bs' & its' & [(Hj' & Hl' & Ho' & Hk)|(t & a & Hen & Hj' & Hl' & Ha & Hk)]).
        -- exists bs', its', done. rewrite Hl', Ho'. split_and!; [done|done|by eapply forking_forks].
        -- exists bs', its', (done ++ effect_of t a). rewrite app_assoc, Hl'. split; [done|]. pose proof (joining_nodup _ _ _ _ Hj) as Hnd. split.
           ++ by apply (progress_advance _ _ (owned bs its)).
           ++ eapply forking_takes; try done. by rewrite <- owned_acts.
  - exists [], items, []. rewrite app_nil_r. split_and!; [by apply calling_joining|by apply progress_start|apply forking_start].
Qed.

(** ** What completion tells *)

(** [t] has to do the actions of [T] one after the other. *)
Definition chunk (x : list (Thread * Act)) (t : Thread) (T : list Act) : Prop := ∃ A B, x = A ++ ((t,.) <$> T) ++ B.

Lemma chunk_mine x t T : chunk x t T → ∃ X Y, mine t x = X ++ T ++ Y.
Proof. intros (A & B & ->). exists (mine t A), (mine t B). by rewrite !mine_app, mine_task. Qed.

Lemma chunk_here t T B : chunk (((t,.) <$> T) ++ B) t T.
Proof using Type. by exists [], B. Qed.
Lemma chunk_last t T : chunk ((t,.) <$> T) t T.
Proof using Type. exists [], []. by rewrite app_nil_r. Qed.
Lemma chunk_skip A x t T : chunk x t T → chunk (A ++ x) t T.
Proof using Type. intros (X & Y & ->). exists (A ++ X), Y. by rewrite <- app_assoc. Qed.

Lemma owned_mine T : owned [] (Mine <$> T) = (p,.) <$> T.
Proof. induction T as [|a T IH]; [done|]. unfold owned in *. cbn in *. by rewrite <- IH. Qed.

Lemma chunk_promised x t1 t2 l P1 e1 Q1 R1 P2 Q2 e2 R2 :
  chunk x t1 (P1 ++ Do e1 :: Q1 ++ SignalLatch l :: R1) → chunk x t2 (P2 ++ WaitLatch l :: Q2 ++ Do e2 :: R2) →
  promised x t1 e1 t2 e2.
Proof.
  intros (X & Y & H1)%chunk_mine (X' & Y' & H2)%chunk_mine.
  exists l, (X ++ P1), Q1, (R1 ++ Y), (X' ++ P2), Q2, (R2 ++ Y').
  rewrite H1, H2. split; by rewrite <- ?app_assoc; cbn; rewrite <- ?app_assoc.
Qed.

Lemma precedes_thread done t E1 e1 E2 e2 E3 :
  NoDup (E1 ++ e1 :: E2 ++ e2 :: E3) → (filter (λ o, o.1 = t) done).*2 = E1 ++ e1 :: E2 ++ e2 :: E3 →
  precedes done (t, e1) (t, e2).
Proof.
  intros Hnd Hd D1 D2 ->. rewrite filter_app, filter_cons_True, fmap_app in Hd by done. cbn in Hd.
  rewrite app_comm_cons, app_assoc in Hd, Hnd. destruct (NoDup_split e2 _ _ _ _ Hnd (eq_sym Hd)) as [Heq _].
  assert (Hin : e1 ∈ (filter (λ o : Thread * Effect, o.1 = t) D1).*2) by (rewrite <- Heq; set_solver).
  apply list_elem_of_fmap in Hin as ([t' e'] & Heq' & [Ht Hin]%list_elem_of_filter). cbn in Heq', Ht. by subst.
Qed.

Lemma effects_in_NoDup acts : NoDup acts → NoDup (effects_in acts).
Proof.
  unfold effects_in. induction 1 as [|a acts Ha _ IH]; [by constructor|]. destruct a as [e| | | |]; try done. cbn. constructor; [|done].
  intros ([e'| | | |] & Hin & [=])%list_elem_of_omap. by subst.
Qed.

Lemma chunk_precedes x t P e1 Q e2 R done :
  NoDup x.*2 → (∀ t, (filter (λ o, o.1 = t) done).*2 = effects_in (mine t x)) →
  chunk x t (P ++ Do e1 :: Q ++ Do e2 :: R) → precedes done (t, e1) (t, e2).
Proof.
  intros Hnd Hd (X & Y & Hm)%chunk_mine. pose proof (effects_in_NoDup _ (mine_NoDup t x Hnd)) as Hn. specialize (Hd t).
  assert (He : effects_in (mine t x) = effects_in (X ++ P) ++ e1 :: effects_in Q ++ e2 :: effects_in (R ++ Y)).
  { rewrite Hm. unfold effects_in. repeat (rewrite omap_app; cbn). by repeat (rewrite <- ?app_assoc; cbn). }
  rewrite He in Hn, Hd. by eapply precedes_thread.
Qed.

(** Lists that agree thread by thread have the same elements. *)
Lemma agree_permutation (x y : list (Thread * Effect)) :
  (∀ t, filter (λ o, o.1 = t) x = filter (λ o, o.1 = t) y) → x ≡ₚ y.
Proof.
  revert y. induction x as [|[t e] x IH]; intros y Hxy.
  - destruct y as [|[t e] y]; [done|]. specialize (Hxy t). by rewrite filter_cons_True in Hxy.
  - assert (Hy : ∃ A B, y = A ++ (t, e) :: B ∧ filter (λ o, o.1 = t) A = []).
    { specialize (Hxy t). rewrite filter_cons_True in Hxy by done. clear IH. induction y as [|[t' e'] y IH]; [done|].
      destruct (decide (t' = t)) as [->|Hne].
      - rewrite filter_cons_True in Hxy by done. injection Hxy as <- _. by exists [], y.
      - rewrite filter_cons_False in Hxy by done. destruct (IH Hxy) as (A & B & -> & HA).
        exists ((t', e') :: A), B. by rewrite filter_cons_False. }
    destruct Hy as (A & B & -> & HA). rewrite <- Permutation_middle. constructor. apply IH. intros t'. specialize (Hxy t').
    rewrite filter_app in *. destruct (decide (t = t')) as [<-|Hne].
    + rewrite HA in *. rewrite !filter_cons_True in Hxy by done. by injection Hxy.
    + by rewrite !filter_cons_False in Hxy by done.
Qed.

Definition effects_of (x : list (Thread * Act)) : list (Thread * Effect) := x ≫= λ o, effect_of o.1 o.2.

Lemma effects_of_thread t x : (filter (λ o, o.1 = t) (effects_of x)).*2 = effects_in (mine t x).
Proof.
  induction x as [|[t' a] x IH]; [done|]. unfold effects_of in *. cbn [mbind list_bind]. rewrite filter_app, fmap_app, IH.
  destruct (decide (t' = t)) as [->|Hne].
  - rewrite mine_same. destruct a; try done. cbn. by rewrite decide_True.
  - rewrite mine_other by done. destruct a; try done. cbn. by rewrite decide_False.
Qed.

Lemma thread_pairs t (x y : list (Thread * Effect)) :
  (filter (λ o, o.1 = t) x).*2 = (filter (λ o, o.1 = t) y).*2 → filter (λ o, o.1 = t) x = filter (λ o, o.1 = t) y.
Proof.
  assert (Hpair : ∀ z : list (Thread * Effect), filter (λ o, o.1 = t) z = (t,.) <$> (filter (λ o, o.1 = t) z).*2).
  { induction z as [|[t' e] z IH]; [done|]. destruct (decide (t' = t)) as [->|Hne].
    - rewrite filter_cons_True by done. cbn. by rewrite <- IH.
    - by rewrite filter_cons_False. }
  intros Hxy. by rewrite (Hpair x), (Hpair y), Hxy.
Qed.

(** Exactly the effects of the program were done. *)
Lemma completed_effects x done :
  (∀ t, (filter (λ o, o.1 = t) done).*2 = effects_in (mine t x)) → done ≡ₚ effects_of x.
Proof. intros Hd. apply agree_permutation. intros t. apply thread_pairs. by rewrite Hd, effects_of_thread. Qed.

(** While [p] has not gone on, the other threads change nothing for it. *)
Lemma calling_elsewhere tr t w w' :
  t ≠ p → calling p after tr w → step_thread runners t w = Some w' → calling p after tr w' ∧ latches w' = latches w.
Proof.
  intros Ht Hc Hs. assert (Hj : joining [] [] tr w).
  { apply calling_joining; [|done]. split_and!; by constructor. }
  destruct (joining_quiet t [] [] tr w w') as [_ Hl]; try done; [by apply Hc| |].
  - destruct (joining_threads _ _ _ _ Hj t Ht) as [[_ Hm]|(task & rest & ? & _)]; done.
  - split; [|done]. by eapply calling_quiet.
Qed.
End forkjoin.

(** A task for [p] itself is run in place. *)
Lemma calling_in_place {Thread} `{Finite Thread} (runners : TaskRunners Thread) p r task k tr (lat : nat → bool) w :
  executing runners p → runs_on runners r = p →
  calling p (RunNowOrPostTask r task :: k) tr w → latches w = lat →
  inevitably runners (λ w', calling p (task ++ k) tr w' ∧ latches w' = lat) w.
Proof.
  intros Hex Hr Hc Hl. set (before := λ w, calling p (RunNowOrPostTask r task :: k) tr w ∧ latches w = lat).
  apply (inevitably_inv runners (λ w', before w' ∨ (calling p (task ++ k) tr w' ∧ latches w' = lat))); [|by left].
  clear w Hc Hl. intros w [[Hc Hl]|?]; [right|by left].
  assert (Hgo : step_thread runners p w = Some (set_running p (task ++ k) w)).
  { unfold step_thread. rewrite (calling_running _ _ _ _ Hc), (runs_tasks_on_executing runners) by done. by rewrite bool_decide_eq_true_2. }
  split; [by exists (set_running p (task ++ k) w), p|]. intros w' [t Hs]. destruct (decide (t = p)) as [->|Hne].
  - rewrite Hgo in Hs. injection Hs as <-. right. destruct Hc as [Hrun Hth Hqs Hef]. split; [|done]. split; try done; cbn.
    + by rewrite fn_lookup_insert.
    + intros t Ht. unfold quiet_thread. cbn. rewrite fn_lookup_insert_ne by done. by apply Hth.
  - left. destruct (calling_elsewhere runners p _ tr t w w' Hne Hc Hs) as [? Hl']. split; [done|]. by rewrite Hl'.
Qed.

Lemma joined_mine all acts : joined_in all (Mine <$> acts).
Proof.
  intros X r task Y Heq. exfalso. assert (Hin : Fork r task ∈ Mine <$> acts) by (rewrite Heq; set_solver).
  by apply list_elem_of_fmap in Hin as (a & ? & _).
Qed.

Lemma joined_cons all i items :
  match i with
  | Mine _ => True
  | Fork r task =>
      (∃ l acts, task = acts ++ [SignalLatch l] ∧ Mine (WaitLatch l) ∈ all) ∨ ∃ task', Fork r task' ∈ items
  end → joined_in all items → joined_in all (i :: items).
Proof.
  intros Hi Hj X r task Y Heq. destruct X as [|j X]; injection Heq as -> Heq; [by subst|]. by eapply Hj.
Qed.
