(* ===== verification/ShellCreate.v ===== *)
(** * ShellCreate: the creation of a shell

    [Shell::Create], [CreateShellOnPlatformThread], the constructor and
    [Setup] of shell/common/shell.cc as a program of ShellForkJoin.  The parts
    are made on the threads that own them and handed over with promises; the
    latches of ShellThreads stand for these, [SignalLatch] for [set_value] and
    [WaitLatch] for the one [get] of a future.  The order in which the [get]s
    among the arguments of a call are done is left open by the language, so it
    is a parameter. *)

From Stdlib Require Import Lia.
From stdpp Require Import base numbers list finite functions sets relations.
From S2P Require Import Prelude ShellThreads ShellHandshakes ShellForkJoin.

(** ** The program *)

Definition rasterizer_promise : nat := 0.
Definition snapshot_delegate_promise : nat := 1.
Definition io_manager_promise : nat := 2.
Definition weak_io_manager_promise : nat := 3.
Definition unref_queue_promise : nat := 4.
Definition engine_promise : nat := 5.
Definition create_latch : nat := 6.

(** What the caller and its callbacks provide: the task runners and callbacks
    are there; the platform view was made, and it has a vsync waiter. *)
Record CreateArgs := mkCreateArgs {
  task_runners_valid : bool;
  callbacks_given : bool;
  view_made : bool;
  waiter_made : bool;
}.

(** The orders of the [get]s in the calls of the engine's constructor and of
    [Setup]. *)
Record GetOrders := mkGetOrders {
  engine_gets : list nat;
  setup_gets : list nat;
  engine_gets_perm : engine_gets ≡ₚ [weak_io_manager_promise; unref_queue_promise; snapshot_delegate_promise];
  setup_gets_perm : setup_gets ≡ₚ [engine_promise; rasterizer_promise; io_manager_promise];
}.

(** The constructor. *)
Definition new_Shell : list Item := [Fork GPURunner [Do (CreatePart WeakFactoryGpu)]].

Definition create_gpu_task : list Act :=
  [Do (CreatePart RasterizerPart); SignalLatch snapshot_delegate_promise; SignalLatch rasterizer_promise].

Definition create_io_task : list Act :=
  [Do (CreatePart IOManagerPart); SignalLatch weak_io_manager_promise; SignalLatch unref_queue_promise;
   SignalLatch io_manager_promise].

Definition create_ui_task (o : GetOrders) : list Act :=
  Do (CreatePart AnimatorPart) :: (WaitLatch <$> engine_gets o) ++ [Do (CreatePart EnginePart); SignalLatch engine_promise].

(** [Setup] of parts that are there or not. *)
Definition Setup (is_setup platform_view engine rasterizer io_manager : bool) : bool * list Act :=
  if is_setup then (false, [])
  else if negb platform_view || negb engine || negb rasterizer || negb io_manager then (false, [])
  else (true, [Do ShellSetup]).

(** Whether a shell is returned, and the program; a return before [Setup]
    leaves the scope of the promises. *)
Definition CreateShellOnPlatformThread (a : CreateArgs) (o : GetOrders) : bool * list Item :=
  if negb (task_runners_valid a) then (false, [])
  else
    let made := new_Shell ++ [Fork GPURunner create_gpu_task] in
    if negb (view_made a) then (false, made ++ [Mine (Do DestroyPromises)])
    else
      let made := made ++ [Mine (Do (CreatePart PlatformViewPart))] in
      if negb (waiter_made a) then (false, made ++ [Mine (Do DestroyPromises)])
      else
        let '(ok, setup) := Setup false true true true true in
        (ok, made ++ Mine (Do (CreatePart VsyncWaiterPart)) :: Fork IORunner create_io_task ::
             Fork UIRunner (create_ui_task o) :: (Mine <$> (WaitLatch <$> setup_gets o) ++ setup)).

Definition Create (a : CreateArgs) (o : GetOrders) : bool * list Act :=
  if negb (task_runners_valid a) || negb (callbacks_given a) then (false, [])
  else
    let '(ok, items) := CreateShellOnPlatformThread a o in
    (ok, [RunNowOrPostTask PlatformRunner (program items ++ [SignalLatch create_latch]); WaitLatch create_latch]).

(** ** The parts after it *)

Definition creates (e : Effect) : bool := match e with CreatePart _ | ShellSetup => true | _ => false end.

Lemma creation_parts {Thread} (tr : list (Thread * Effect)) P :
  Forall (λ o, creates o.2 = true) tr →
  let setup := bool_decide (ShellSetup ∈ tr.*2) in
  parts_after P tr =
    set_alive (engine_ P || setup) (rasterizer_ P || setup)
      (weak_factory_gpu_ P || bool_decide (CreatePart WeakFactoryGpu ∈ tr.*2)) (io_manager_ P || setup) (platform_view_ P || setup) P.
Proof.
  revert P. induction tr as [|[t e] tr IH]; intros P Hc; cbv zeta in *.
  - destruct P; cbn. by rewrite !orb_false_r.
  - apply Forall_cons in Hc as [He Hc]. change (parts_after P ((t, e) :: tr)) with (parts_after (apply_effect P e) tr).
    rewrite IH by done. rewrite !fmap_cons. cbn [snd].
    assert (Hcons : ∀ e', bool_decide (e' ∈ e :: tr.*2) = bool_decide (e' = e) || bool_decide (e' ∈ tr.*2)).
    { intros e'. rewrite <- bool_decide_or. apply bool_decide_ext, elem_of_cons. }
    rewrite !Hcons, !orb_assoc. destruct P. by destruct e as [| | | | | | | | | | | | | | |[]| | | | |]; cbn; rewrite ?orb_false_r, ?orb_true_r.
Qed.

(** ** Creation completes *)

(** The promises that are kept before the [get]s. *)
Lemma gets_kept (P : nat → Prop) ls ls' : ls ≡ₚ ls' → Forall P ls' → Forall P ls.
Proof. by intros ->. Qed.

(** The program up to the signal, as its caller on the platform thread runs
    it. *)
Definition creation (o : GetOrders) : list Item :=
  new_Shell ++ [Fork GPURunner create_gpu_task; Mine (Do (CreatePart PlatformViewPart));
    Mine (Do (CreatePart VsyncWaiterPart)); Fork IORunner create_io_task; Fork UIRunner (create_ui_task o)] ++
  (Mine <$> (WaitLatch <$> setup_gets o) ++ [Do ShellSetup; SignalLatch create_latch; WaitLatch create_latch]).

Definition creation_acts (engine_gets setup_gets : list nat) : list Act :=
  [Do (CreatePart WeakFactoryGpu)] ++ create_gpu_task ++
  [Do (CreatePart PlatformViewPart); Do (CreatePart VsyncWaiterPart)] ++ create_io_task ++
  Do (CreatePart AnimatorPart) :: (WaitLatch <$> engine_gets) ++
  Do (CreatePart EnginePart) :: SignalLatch engine_promise :: (WaitLatch <$> setup_gets) ++
  [Do ShellSetup; SignalLatch create_latch; WaitLatch create_latch].

Lemma mine_in_place acts : in_place (Mine <$> acts) = acts.
Proof. induction acts as [|a acts IH]; [done|]. unfold in_place in *. cbn. by rewrite IH. Qed.

Lemma creation_in_place o : in_place (creation o) = creation_acts (engine_gets o) (setup_gets o).
Proof.
  unfold creation, in_place. rewrite bind_app. cbn -[engine_gets setup_gets].
  change (list_bind Item Act item_acts) with in_place. rewrite mine_in_place. unfold creation_acts, create_ui_task. cbn.
  by rewrite <- app_assoc.
Qed.

Lemma creation_permutation o :
  in_place (creation o) ≡ₚ creation_acts [weak_io_manager_promise; unref_queue_promise; snapshot_delegate_promise]
    [engine_promise; rasterizer_promise; io_manager_promise].
Proof.
  rewrite creation_in_place. unfold creation_acts. rewrite (engine_gets_perm o) at 1. by rewrite (setup_gets_perm o) at 1.
Qed.

Lemma creation_joins o : joins (creation o).
Proof.
  split_and!.
  - rewrite creation_permutation. by repeat constructor.
  - rewrite creation_permutation. apply NoDup_acts. refine (bool_decide_unpack _ _). by vm_compute.
  - unfold creation, create_ui_task. repeat (apply Forall_app; split); repeat constructor; try done.
    rewrite fmap_app. apply Forall_app. split; [|by repeat constructor]. apply Forall_fmap, Forall_fmap, Forall_true. done.
  - rewrite creation_in_place. unfold creation_acts. cbn. rewrite kept_waits. split.
    { eapply gets_kept; [apply (engine_gets_perm o)|]. repeat constructor; tauto. }
    cbn. rewrite kept_waits. split; [|cbn; tauto].
    eapply gets_kept; [apply (setup_gets_perm o)|]. repeat constructor; tauto.
Qed.

Lemma creation_waits o l : l ∈ setup_gets o → Mine (WaitLatch l) ∈ creation o.
Proof.
  intros Hl. unfold creation. apply elem_of_app. right. apply elem_of_app. right. rewrite fmap_app. apply elem_of_app. left.
  rewrite <- list_fmap_compose. apply list_elem_of_fmap. by exists l.
Qed.

Lemma creation_joined o : all_joined (creation o).
Proof.
  assert (Hw : ∀ l, l ∈ [engine_promise; rasterizer_promise; io_manager_promise] → Mine (WaitLatch l) ∈ creation o).
  { intros l Hl. apply creation_waits. by rewrite (setup_gets_perm o). }
  unfold all_joined. revert Hw. generalize (creation o) at 1 2. intros all Hw. unfold creation. cbn [new_Shell app].
  apply joined_cons; [right; exists create_gpu_task; set_solver|].
  apply joined_cons; [left; exists rasterizer_promise, (take 2 create_gpu_task); split; [done|apply Hw; set_solver]|].
  do 2 (apply joined_cons; [done|]).
  apply joined_cons; [left; exists io_manager_promise, (take 3 create_io_task); split; [done|apply Hw; set_solver]|].
  apply joined_cons; [left; exists engine_promise; eexists; split; [|apply Hw; set_solver]|apply joined_mine].
  unfold create_ui_task. rewrite app_comm_cons. by apply (app_assoc _ [_] [_]).
Qed.

Section create.
Context {Thread : Type} `{Finite Thread} (runners : TaskRunners Thread).
#[local] Set Default Proof Using "Type*".

Abbreviation platform_thread := (home runners PlatformRunner).
Abbreviation on := (runs_on runners).

(** The parts are made once, each on its thread. *)
Definition creation_trace : list (Thread * Effect) :=
  [(on GPURunner, CreatePart WeakFactoryGpu); (on GPURunner, CreatePart RasterizerPart);
   (platform_thread, CreatePart PlatformViewPart); (platform_thread, CreatePart VsyncWaiterPart);
   (on IORunner, CreatePart IOManagerPart); (on UIRunner, CreatePart AnimatorPart); (on UIRunner, CreatePart EnginePart);
   (platform_thread, ShellSetup)].

Lemma waits_no_effects t ls : effects_of ((t,.) <$> (WaitLatch <$> ls) : list (Thread * Act)) = [].
Proof. induction ls; by cbn. Qed.

Lemma creation_owned o :
  owned runners platform_thread [] (creation o) =
    ((on GPURunner,.) <$> Do (CreatePart WeakFactoryGpu) :: create_gpu_task) ++
    ((platform_thread,.) <$> [Do (CreatePart PlatformViewPart); Do (CreatePart VsyncWaiterPart)]) ++
    ((on IORunner,.) <$> create_io_task) ++ ((on UIRunner,.) <$> create_ui_task o) ++
    ((platform_thread,.) <$> (WaitLatch <$> setup_gets o) ++ [Do ShellSetup; SignalLatch create_latch; WaitLatch create_latch]).
Proof.
  unfold creation, owned. rewrite app_nil_l, bind_app. cbn -[create_ui_task]. do 11 f_equal.
  exact (owned_mine runners platform_thread _).
Qed.

Lemma creation_effects o : effects_of (owned runners platform_thread [] (creation o)) = creation_trace.
Proof.
  rewrite creation_owned. unfold create_ui_task, creation_trace, effects_of. cbn. rewrite !fmap_app, !bind_app. cbn.
  pose proof waits_no_effects as Hw. unfold effects_of in Hw. by rewrite !Hw.
Qed.

(** The second was given the first, or something the first made: the weak
    pointer factory is there for the rasterizer; the vsync waiter and the IO
    manager's context come from the platform view; the animator is given the
    vsync waiter; the engine the dispatcher maker of the platform view, the
    animator, the IO manager and the rasterizer's snapshot delegate; the set-up
    the platform view, the engine, the rasterizer and the IO manager. *)
Definition creation_needs : list ((Thread * Effect) * (Thread * Effect)) :=
  let made r part := (on r, CreatePart part) in
  [(made GPURunner WeakFactoryGpu, made GPURunner RasterizerPart);
   ((platform_thread, CreatePart PlatformViewPart), (platform_thread, CreatePart VsyncWaiterPart));
   ((platform_thread, CreatePart PlatformViewPart), made IORunner IOManagerPart);
   ((platform_thread, CreatePart VsyncWaiterPart), made UIRunner AnimatorPart);
   ((platform_thread, CreatePart PlatformViewPart), made UIRunner EnginePart);
   (made UIRunner AnimatorPart, made UIRunner EnginePart);
   (made IORunner IOManagerPart, made UIRunner EnginePart);
   (made GPURunner RasterizerPart, made UIRunner EnginePart);
   ((platform_thread, CreatePart PlatformViewPart), (platform_thread, ShellSetup));
   (made UIRunner EnginePart, (platform_thread, ShellSetup));
   (made GPURunner RasterizerPart, (platform_thread, ShellSetup));
   (made IORunner IOManagerPart, (platform_thread, ShellSetup))].

(** What is done on the platform thread before a task is handed over. *)
Lemma creation_handed o done :
  (∀ e1 r e2, handed (creation o) e1 r e2 → precedes done (platform_thread, e1) (on r, e2)) →
  precedes done (platform_thread, CreatePart PlatformViewPart) (on IORunner, CreatePart IOManagerPart) ∧
  precedes done (platform_thread, CreatePart VsyncWaiterPart) (on UIRunner, CreatePart AnimatorPart) ∧
  precedes done (platform_thread, CreatePart PlatformViewPart) (on UIRunner, CreatePart EnginePart).
Proof.
  intros Hh. unfold creation in Hh. cbn [new_Shell app] in Hh. split_and!; apply Hh.
  - exists (new_Shell ++ [Fork GPURunner create_gpu_task]), [Mine (Do (CreatePart VsyncWaiterPart))]. eexists _, _.
    split; [reflexivity|]. unfold create_io_task. set_solver.
  - exists (new_Shell ++ [Fork GPURunner create_gpu_task; Mine (Do (CreatePart PlatformViewPart))]), [Fork IORunner create_io_task].
    eexists _, _. split; [reflexivity|]. unfold create_ui_task. set_solver.
  - exists (new_Shell ++ [Fork GPURunner create_gpu_task]), [Mine (Do (CreatePart VsyncWaiterPart)); Fork IORunner create_io_task].
    eexists _, _. split; [reflexivity|]. unfold create_ui_task. set_solver.
Qed.

(** What a task does before a promise comes before what waits for it. *)
Lemma promised_after o l A e B C (gets : list nat) (P : list Act) e2 R t done t1 :
  let x := owned runners platform_thread [] (creation o) in
  ordered x done → l ∈ gets → chunk x t1 (A ++ Do e :: B ++ SignalLatch l :: C) →
  chunk x t (P ++ (WaitLatch <$> gets) ++ Do e2 :: R) → precedes done (t1, e) (t, e2).
Proof.
  intros x Hord (G & G' & ->)%list_elem_of_split H1 H2. unfold precedes. apply Hord.
  rewrite fmap_app, fmap_cons, <- app_assoc in H2. cbn in H2. rewrite app_assoc in H2.
  by eapply (chunk_promised runners platform_thread).
Qed.

Lemma creation_order o done :
  let x := owned runners platform_thread [] (creation o) in
  (∀ t, (filter (λ o, o.1 = t) done).*2 = effects_in (mine t x)) → ordered x done →
  (∀ e1 r e2, handed (creation o) e1 r e2 → precedes done (platform_thread, e1) (on r, e2)) →
  Forall (λ n, precedes done n.1 n.2) creation_needs.
Proof.
  intros x Hd Hord Hhand. destruct (creation_handed o done Hhand) as (Hio_view & Hanim & Heng_view).
  pose proof (creation_owned o) as Hx. fold x in Hx.
  assert (Hgpu : chunk x (on GPURunner) (Do (CreatePart WeakFactoryGpu) :: create_gpu_task)) by (rewrite Hx; apply chunk_here).
  assert (Hview : chunk x platform_thread [Do (CreatePart PlatformViewPart); Do (CreatePart VsyncWaiterPart)])
    by (rewrite Hx; apply chunk_skip; apply chunk_here).
  assert (Hio : chunk x (on IORunner) create_io_task) by (rewrite Hx; do 2 apply chunk_skip; apply chunk_here).
  assert (Hui : chunk x (on UIRunner) (create_ui_task o)) by (rewrite Hx; do 3 apply chunk_skip; apply chunk_here).
  assert (Hp : chunk x platform_thread ((WaitLatch <$> setup_gets o) ++ [Do ShellSetup; SignalLatch create_latch; WaitLatch create_latch]))
    by (rewrite Hx; do 4 apply chunk_skip; apply chunk_last).
  assert (Hnd : NoDup x.*2) by (unfold x; rewrite owned_acts; apply creation_joins).
  assert (Heg : ∀ l, l ∈ [weak_io_manager_promise; unref_queue_promise; snapshot_delegate_promise] → l ∈ engine_gets o)
    by (intros l; by rewrite (engine_gets_perm o)).
  assert (Hsg : ∀ l, l ∈ [engine_promise; rasterizer_promise; io_manager_promise] → l ∈ setup_gets o)
    by (intros l; by rewrite (setup_gets_perm o)).
  assert (Hengine : precedes done (on UIRunner, CreatePart EnginePart) (platform_thread, ShellSetup)).
  { apply (promised_after o engine_promise (Do (CreatePart AnimatorPart) :: (WaitLatch <$> engine_gets o)) _ [] []
      (setup_gets o) [] _ [SignalLatch create_latch; WaitLatch create_latch]); [done|apply Hsg; set_solver|exact Hui|exact Hp]. }
  unfold creation_needs. repeat (apply Forall_cons; split); cbn [fst snd]; try done.
  - by apply (chunk_precedes runners platform_thread x _ [] _ [] _ (drop 1 create_gpu_task)).
  - by apply (chunk_precedes runners platform_thread x _ [] _ [] _ []).
  - by apply (chunk_precedes runners platform_thread x _ [] _ (WaitLatch <$> engine_gets o) _ [SignalLatch engine_promise]).
  - apply (promised_after o weak_io_manager_promise [] _ [] (drop 2 create_io_task)
      (engine_gets o) [Do (CreatePart AnimatorPart)] _ [SignalLatch engine_promise]); [done|apply Heg; set_solver|exact Hio|exact Hui].
  - apply (promised_after o snapshot_delegate_promise [Do (CreatePart WeakFactoryGpu)] _ [] [SignalLatch rasterizer_promise]
      (engine_gets o) [Do (CreatePart AnimatorPart)] _ [SignalLatch engine_promise]); [done|apply Heg; set_solver|exact Hgpu|exact Hui].
  - intros D1 D2 Heq. destruct (list_elem_of_split _ _ (Hengine D1 D2 Heq)) as (E1 & E2 & ->).
    assert (Hin : (platform_thread, CreatePart PlatformViewPart) ∈ E1); [|set_solver].
    eapply Heng_view. by rewrite Heq, <- app_assoc.
  - apply (promised_after o rasterizer_promise [Do (CreatePart WeakFactoryGpu)] _ [SignalLatch snapshot_delegate_promise] []
      (setup_gets o) [] _ [SignalLatch create_latch; WaitLatch create_latch]); [done|apply Hsg; set_solver|exact Hgpu|exact Hp].
  - apply (promised_after o io_manager_promise [] _ [SignalLatch weak_io_manager_promise; SignalLatch unref_queue_promise] []
      (setup_gets o) [] _ [SignalLatch create_latch; WaitLatch create_latch]); [done|apply Hsg; set_solver|exact Hio|exact Hp].
Qed.

Lemma creation_program o after :
  let '(_, items) := CreateShellOnPlatformThread (mkCreateArgs true true true true) o in
  (program items ++ [SignalLatch create_latch]) ++ WaitLatch create_latch :: after = program (creation o) ++ after.
Proof.
  cbn -[setup_gets create_ui_task]. unfold creation, program. cbn -[setup_gets create_ui_task]. do 6 f_equal.
  rewrite !fmap_app. cbn. by rewrite <- !app_assoc.
Qed.

End create.

(** The order of the arguments, which most compilers choose, and its reverse. *)
Definition left_to_right : GetOrders :=
  mkGetOrders [weak_io_manager_promise; unref_queue_promise; snapshot_delegate_promise]
    [engine_promise; rasterizer_promise; io_manager_promise] (Permutation_refl _) (Permutation_refl _).
Definition right_to_left : GetOrders :=
  mkGetOrders _ _ (Permutation_sym (Permutation_rev [weak_io_manager_promise; unref_queue_promise; snapshot_delegate_promise]))
    (Permutation_sym (Permutation_rev [engine_promise; rasterizer_promise; io_manager_promise])).

Definition no_parts : Parts := mkParts false false false false false None [] false false None false.


(** When the platform view or the vsync waiter is missing, the function returns
    while the task that keeps two of its promises may not have run: there is a
    schedule in which the GPU thread is about to keep a promise that is gone. *)
Definition missing_schedule (view : bool) : list EngineThread :=
  replicate (if view then 5 else 4) PlatformT ++ [GpuT; GpuT; GpuT; GpuT].

Theorem early_return_leaves_promises view :
  ∃ w, schedule (four_threads false) (missing_schedule view)
    (mkWorld (λ t, match t with PlatformT => (Create (mkCreateArgs true true view false) left_to_right).2 | _ => [] end)
       (λ _, []) (λ _, false) []) = Some w ∧
    (PlatformT, DestroyPromises) ∈ effects w ∧
    running w GpuT = [SignalLatch snapshot_delegate_promise; SignalLatch rasterizer_promise].
Proof. destruct view; (eexists; split; [by vm_compute|]; split; [set_solver|done]). Qed.
