(* ===== verification/ShellTimings.v ===== *)
(** * ShellTimings: reporting frame timings and the first frame

    The shell (shell/common/shell.cc) collects the timings of rasterized
    frames on the GPU thread and reports them to the engine in batches, and
    lets other threads wait for the first frame.  The tasks it posts are part
    of the state: the delayed reports on the GPU thread, and the batches sent
    to the UI thread in order. *)

From Stdlib Require Import ZArith Lia.
From stdpp Require Import base numbers list relations.
From S2P Require Import Prelude Time Rasterizer.

Local Open Scope Z_scope.

(** ** Frame timings *)

Definition kCount : nat := 4.

Record Timings := mkTimings {
  needs_report_timings_ : bool;
  unreported_timings_ : list Z;
  frame_timings_report_scheduled_ : bool;
  first_frame_rasterized_ : bool;
  delayed_reports : nat;
  reported : list (list Z);
  callback_calls : list FrameTiming;
}.

Definition new_timings : Timings := mkTimings false [] false false 0 [] [].

Section timings.
Context `{Build}.

(** Whether [settings_.frame_rasterized_callback] is set. *)
Context (frame_rasterized_callback : bool).

(** [Get] for every phase of [kPhases], in microseconds since the epoch. *)
Definition timing_micros (t : FrameTiming) : list Z :=
  (λ p, TimeDelta.ToMicroseconds (TimePoint.ToEpochDelta p)) <$>
  [kBuildStart t; kBuildFinish t; kRasterStart t; kRasterFinish t].

#[global] Arguments timing_micros : simpl never.
#[local] Arguments Nat.leb : simpl never.

Definition SetNeedsReportTimings (value : bool) (s : Timings) : Timings :=
  mkTimings value (unreported_timings_ s) (frame_timings_report_scheduled_ s)
    (first_frame_rasterized_ s) (delayed_reports s) (reported s) (callback_calls s).

Definition UnreportedFramesCount (s : Timings) : result nat :=
  _ ← fml_dcheck (bool_decide (length (unreported_timings_ s) `mod` kCount = 0)%nat);
  mret (length (unreported_timings_ s) `div` kCount)%nat.

Definition ReportTimings (s : Timings) : Timings :=
  mkTimings (needs_report_timings_ s) [] (frame_timings_report_scheduled_ s)
    (first_frame_rasterized_ s) (delayed_reports s) (reported s ++ [unreported_timings_ s])
    (callback_calls s).

Definition OnFrameRasterized (timing : FrameTiming) (s : Timings) : result Timings :=
  let s := if frame_rasterized_callback
           then mkTimings (needs_report_timings_ s) (unreported_timings_ s)
                  (frame_timings_report_scheduled_ s) (first_frame_rasterized_ s)
                  (delayed_reports s) (reported s) (callback_calls s ++ [timing])
           else s in
  if negb (needs_report_timings_ s) then mret s
  else
    let s := mkTimings (needs_report_timings_ s) (unreported_timings_ s ++ timing_micros timing)
               (frame_timings_report_scheduled_ s) (first_frame_rasterized_ s)
               (delayed_reports s) (reported s) (callback_calls s) in
    report ← (if negb (first_frame_rasterized_ s) then Ok true
           else n ← UnreportedFramesCount s; mret (100 <=? n)%nat);
    if (report : bool) then
      mret (ReportTimings (mkTimings (needs_report_timings_ s) (unreported_timings_ s)
        (frame_timings_report_scheduled_ s) true (delayed_reports s) (reported s) (callback_calls s)))
    else if negb (frame_timings_report_scheduled_ s) then
      mret (mkTimings (needs_report_timings_ s) (unreported_timings_ s) true
        (first_frame_rasterized_ s) (S (delayed_reports s)) (reported s) (callback_calls s))
    else mret s.

(** The task [OnFrameRasterized] posts with a delay. *)
Definition delayed_report (s : Timings) : result Timings :=
  let s := mkTimings (needs_report_timings_ s) (unreported_timings_ s) false
             (first_frame_rasterized_ s) (pred (delayed_reports s)) (reported s) (callback_calls s) in
  n ← UnreportedFramesCount s;
  mret (if (0 <? n)%nat then ReportTimings s else s).

(** The framework asks for timings or stops to, a frame ends, or a delayed
    report is due. *)
Inductive TimingEvent :=
  | NeedsReport (value : bool)
  | Rasterized (timing : FrameTiming)
  | ReportDue.

Definition timing_event (e : TimingEvent) (s : Timings) : result Timings :=
  match e with
  | NeedsReport b => mret (SetNeedsReportTimings b s)
  | Rasterized t => OnFrameRasterized t s
  | ReportDue => match delayed_reports s with O => mret s | S _ => delayed_report s end
  end.

Fixpoint timing_events (es : list TimingEvent) (s : Timings) : result Timings :=
  match es with
  | [] => mret s
  | e :: es => s ← timing_event e s; timing_events es s
  end.

(** The frames that were rasterized while timings were asked for. *)
Fixpoint wanted (needed : bool) (es : list TimingEvent) : list FrameTiming :=
  match es with
  | [] => []
  | NeedsReport b :: es => wanted b es
  | Rasterized t :: es => if needed then t :: wanted needed es else wanted needed es
  | ReportDue :: es => wanted needed es
  end.

(** All frames that were rasterized. *)
Definition rasterized (es : list TimingEvent) : list FrameTiming :=
  es ≫= λ e, match e with Rasterized t => [t] | _ => [] end.

(** ** Batches *)

Record timings_inv (all frames : list FrameTiming) (s : Timings) : Prop := {
  inv_accounted : concat (reported s) ++ unreported_timings_ s = concat (timing_micros <$> frames);
  inv_whole : ∃ n, length (unreported_timings_ s) = (n * kCount)%nat ∧ (n < 100)%nat;
  inv_batches : Forall (λ b, ∃ n, length b = (n * kCount)%nat ∧ (0 < n ≤ 100)%nat) (reported s);
  inv_scheduled : unreported_timings_ s ≠ [] → frame_timings_report_scheduled_ s = true;
  inv_delayed : delayed_reports s = if frame_timings_report_scheduled_ s then 1%nat else 0%nat;
  inv_callbacks : callback_calls s = if frame_rasterized_callback then all else [];
}.

Lemma UnreportedFramesCount_whole n s :
  length (unreported_timings_ s) = (n * kCount)%nat → UnreportedFramesCount s ⇓ n.
Proof.
  intros Hn. unfold UnreportedFramesCount. rewrite Hn, Nat.Div0.mod_mul, bool_decide_eq_true_2 by done.
  rewrite fml_dcheck_true. cbn [mbind result_bind]. by rewrite Nat.div_mul.
Qed.

Lemma ReportTimings_inv all frames s m :
  concat (reported s) ++ unreported_timings_ s = concat (timing_micros <$> frames) →
  length (unreported_timings_ s) = (m * kCount)%nat → (0 < m ≤ 100)%nat →
  Forall (λ b, ∃ n, length b = (n * kCount)%nat ∧ (0 < n ≤ 100)%nat) (reported s) →
  delayed_reports s = (if frame_timings_report_scheduled_ s then 1%nat else 0%nat) →
  callback_calls s = (if frame_rasterized_callback then all else []) →
  timings_inv all frames (ReportTimings s).
Proof.
  intros Hacc Hm Hle Hb Hd Hcb. split; cbn; try done.
  - rewrite concat_app. cbn. by rewrite !app_nil_r.
  - exists 0%nat. split; [done|lia].
  - apply Forall_app. split; [done|]. repeat constructor. by exists m.
Qed.

Lemma OnFrameRasterized_inv all frames t s :
  timings_inv all frames s →
  ∃ s', OnFrameRasterized t s ⇓ s' ∧ needs_report_timings_ s' = needs_report_timings_ s ∧
    timings_inv (all ++ [t]) (frames ++ (if needs_report_timings_ s then [t] else [])) s'.
Proof.
  intros [Hacc (n & Hn & Hlt) Hb Hsch Hdel Hcb]. unfold OnFrameRasterized.
  set (s1 := if frame_rasterized_callback then _ else s).
  assert (Hs1 : s1 = mkTimings (needs_report_timings_ s) (unreported_timings_ s)
    (frame_timings_report_scheduled_ s) (first_frame_rasterized_ s) (delayed_reports s) (reported s)
    (if frame_rasterized_callback then all ++ [t] else [])).
  { subst s1. destruct s; cbn in *. subst. by destruct frame_rasterized_callback. }
  rewrite Hs1. clear s1 Hs1 Hcb.
  destruct s as [needed un sch first del rep cb]; cbn in *. destruct needed; cbn.
  2: { eexists. split; [done|]. rewrite app_nil_r. split; [done|]. split; cbn; eauto. }
  assert (Hlen : length (un ++ timing_micros t) = (S n * kCount)%nat)
    by (rewrite length_app; change (length (timing_micros t)) with 4%nat; unfold kCount in *; lia).
  assert (Hacc' : concat rep ++ un ++ timing_micros t = concat (timing_micros <$> frames ++ [t])).
  { rewrite fmap_app, concat_app, <- Hacc, <- app_assoc. cbn. by rewrite app_nil_r. }
  destruct first; cbn.
  2: { eexists. split; [done|]. split; [done|]. eapply ReportTimings_inv; cbn; [done..|lia|done|done|done]. }
  rewrite (UnreportedFramesCount_whole (S n)) by done. cbn [mbind result_bind mret result_ret].
  destruct (100 <=? S n)%nat eqn:H100.
  { eexists. split; [done|]. split; [done|]. apply Nat.leb_le in H100.
    eapply ReportTimings_inv; cbn; [done..|lia|done|done|done]. }
  apply Nat.leb_gt in H100.
  destruct sch; cbn; (eexists; split; [done|]; split; [done|]; split; cbn; try done; first [by eauto|by subst]).
Qed.

Lemma delayed_report_inv all frames s :
  timings_inv all frames s → (0 < delayed_reports s)%nat →
  ∃ s', delayed_report s ⇓ s' ∧ needs_report_timings_ s' = needs_report_timings_ s ∧
    unreported_timings_ s' = [] ∧ timings_inv all frames s'.
Proof.
  intros [Hacc (n & Hn & Hlt) Hb Hsch Hdel Hcb] Hpos. unfold delayed_report.
  rewrite (UnreportedFramesCount_whole n) by done. cbn [mbind result_bind mret result_ret].
  assert (Hd : delayed_reports s = 1%nat) by (destruct (frame_timings_report_scheduled_ s); lia). destruct n as [|n]; cbn.
  - apply nil_length_inv in Hn. eexists. split; [done|]. split_and!; [done|done|]. split; cbn; try done.
    + exists 0%nat. split; [by rewrite Hn|lia].
    + by rewrite Hd.
  - eexists. split; [done|]. split_and!; [done|done|].
    eapply ReportTimings_inv; cbn; [done..|lia|done|by rewrite Hd|done].
Qed.

Lemma timing_events_inv es all frames s :
  timings_inv all frames s →
  ∃ s', timing_events es s ⇓ s' ∧
    timings_inv (all ++ rasterized es) (frames ++ wanted (needs_report_timings_ s) es) s'.
Proof.
  revert all frames s. induction es as [|e es IH]; cbn; intros all frames s Hi.
  { eexists. split; [done|]. by rewrite !app_nil_r. }
  destruct e as [b|t|]; cbn.
  - destruct (IH all frames (SetNeedsReportTimings b s)) as (s' & Hs & Hi'); [by destruct Hi|]. eauto.
  - destruct (OnFrameRasterized_inv all frames t s Hi) as (s1 & Hs1 & Hneed & Hi1). rewrite Hs1. cbn.
    destruct (IH _ _ _ Hi1) as (s' & Hs & Hi'). exists s'. split; [done|].
    rewrite Hneed, <- !app_assoc in Hi'. by destruct (needs_report_timings_ s).
  - destruct (delayed_reports s) eqn:Hd; cbn; [by apply IH|].
    destruct (delayed_report_inv all frames s Hi) as (s1 & Hs1 & Hneed & _ & Hi1); [lia|]. rewrite Hs1. cbn.
    destruct (IH _ _ _ Hi1) as (s' & Hs & Hi'). exists s'. split; [done|]. by rewrite <- Hneed.
Qed.

(** ** Claims *)

(** C14: Every timing of a frame that was rasterized while the framework asked for
    timings is reported exactly once and in order: the batches sent so far
    and the timings still held are those of the wanted frames; a batch has
    between 1 and 100 whole frames; the embedder's callback sees every frame; fewer than 100 frames are held back, and
    while any is, exactly one delayed report is posted, which sends them. *)
Theorem frame_timings_delivered es :
  ∃ s, timing_events es new_timings ⇓ s ∧
    concat (reported s) ++ unreported_timings_ s = concat (timing_micros <$> wanted false es) ∧
    Forall (λ b, ∃ n, length b = (n * kCount)%nat ∧ (0 < n ≤ 100)%nat) (reported s) ∧
    (length (unreported_timings_ s) < 100 * kCount)%nat ∧
    callback_calls s = (if frame_rasterized_callback then rasterized es else []) ∧
    (unreported_timings_ s ≠ [] →
      delayed_reports s = 1%nat ∧ ∃ s', timing_event ReportDue s ⇓ s' ∧
        concat (reported s') = concat (timing_micros <$> wanted false es) ∧ unreported_timings_ s' = []).
Proof.
  destruct (timing_events_inv es [] [] new_timings) as (s & Hs & Hi).
  { split; cbn; try done; [|by case_match]. exists 0%nat. split; [done|lia]. }
  exists s. cbn in Hi. pose proof Hi as [Hacc (n & Hn & Hlt) Hb Hsch Hdel Hcb]. split_and!; try done.
  - rewrite Hn. unfold kCount. lia.
  - intros Hne. rewrite (Hsch Hne) in Hdel. split; [done|]. cbn. rewrite Hdel.
    destruct (delayed_report_inv _ _ s Hi) as (s' & Hs' & _ & Hun & Hi'); [lia|].
    exists s'. split_and!; try done. pose proof (inv_accounted _ _ _ Hi') as Ha. by rewrite Hun, app_nil_r in Ha.
Qed.
End timings.

(** ** Waiting for the first frame *)

(** [WaitForFirstFrame] checks the flag under the mutex and sleeps on the
    condition variable; [OnAnimatorDraw] clears the flag and notifies without
    the mutex.  A waiter is outside, about to sleep after it saw the flag, or
    asleep; the timeout may fire at any time. *)
Inductive Waiter := Outside | AboutToSleep | Asleep | Done (success : bool).

Record FirstFrame := mkFirstFrame {
  waiting_for_first_frame_ : bool;
  waiter : Waiter;
  notifying : bool;
}.

Inductive first_frame_step : FirstFrame → FirstFrame → Prop :=
  | ff_wait_now n : first_frame_step (mkFirstFrame false Outside n) (mkFirstFrame false (Done true) n)
  | ff_wait_sleep n : first_frame_step (mkFirstFrame true Outside n) (mkFirstFrame true AboutToSleep n)
  | ff_sleep b n : first_frame_step (mkFirstFrame b AboutToSleep n) (mkFirstFrame b Asleep n)
  | ff_draw w : first_frame_step (mkFirstFrame true w false) (mkFirstFrame false w true)
  | ff_notify b w :
      first_frame_step (mkFirstFrame b w true)
        (mkFirstFrame b (match w with Asleep => if b then Asleep else Done true | w => w end) false)
  | ff_timeout b n : first_frame_step (mkFirstFrame b Asleep n) (mkFirstFrame b (Done (negb b)) n).

(** The notification can come between the test and the sleep: the frame is
    there, nobody will notify again, and the waiter sleeps until its timeout. *)
Theorem first_frame_wakeup_lost :
  rtc first_frame_step (mkFirstFrame true Outside false) (mkFirstFrame false Asleep false) ∧
  ∀ s, first_frame_step (mkFirstFrame false Asleep false) s → s = mkFirstFrame false (Done true) false.
Proof.
  split.
  - eapply rtc_l; [apply ff_wait_sleep|]. eapply rtc_l; [apply ff_draw|].
    eapply rtc_l; [apply ff_notify|]. eapply rtc_l; [apply ff_sleep|]. apply rtc_refl.
  - intros s Hs. by inversion Hs.
Qed.
