(* ===== verification/DartIsolate.v ===== *)
(** * DartIsolate: the phases of an isolate

    Model of [flutter::DartIsolate] (runtime/dart_isolate.{h,cc}) and of the
    group data its isolates share (runtime/dart_isolate_group_data.{h,cc}).
    The Dart VM and tonic are not in the repository: every answer of theirs
    the code branches on is given by an oracle, [vm], indexed by the number of
    questions asked so far, and the theorems hold for every oracle.  The heap
    of the isolates and their groups is passed explicitly by a state monad
    whose operations may stop on a fault. *)

From Stdlib Require Import ZArith Lia.
From stdpp Require Import base numbers list gmap fin_maps relations strings.
From S2P Require Import Prelude TaskQueues.

(** ** Data *)

Inductive Phase :=
  | Unknown | Uninitialized | Initialized | LibrariesSetup | Ready | Running | ShutDown.
#[export] Instance Phase_eq_dec : EqDecision Phase.
Proof. solve_decision. Defined.

(** The order of the enumeration. *)
Definition phase_rank (p : Phase) : nat :=
  match p with
  | Unknown => 0 | Uninitialized => 1 | Initialized => 2 | LibrariesSetup => 3
  | Ready => 4 | Running => 5 | ShutDown => 6
  end.

(** [fml::Mapping]: the bytes it maps. *)
Record Mapping := mkMapping { GetMapping : string }.
Definition GetSize (m : Mapping) : Z := Z.of_nat (String.length (GetMapping m)).

(** What is run: a function of the root library or of a named one. *)
Inductive Entrypoint :=
  | InRootLibrary (entrypoint_name : string)
  | InLibrary (library_name entrypoint_name : string).

(** The lambdas given to [SetChildIsolatePreparer]. *)
Inductive ChildIsolatePreparer :=
  | PrepareFromPrecompiledCode
  | PrepareFromBuffers (buffers : list Mapping).

Record GroupData := mkGroup {
  child_isolate_preparer_ : option ChildIsolatePreparer;
  isolate_create_callback_ : closure;
  isolate_shutdown_callback_ : closure;
}.

(** [isolate_] tells whether [SetIsolate] was called; [ui_task_runner] whether
    the isolate's task runners have one; [window_] whether it has a window. *)
Record DartIsolate := mkIsolate {
  phase_ : Phase;
  isolate_ : bool;
  is_root_isolate_ : bool;
  ui_task_runner : bool;
  group_ : nat;
  message_handling_task_runner_ : bool;
  kernel_buffers_ : list Mapping;
  shutdown_callbacks_ : list closure;
  window_ : bool;
}.

(** Questions to the VM. *)
Inductive VmQuery :=
  | QCreateIsolateGroup | QCurrentIsolateIs | QSetLibraryTagHandler | QIsServiceIsolate
  | QRootLibraryIsNull | QIsolateMakeRunnable | QIsRunningPrecompiledCode
  | QIsKernel | QLoadLibraryFromKernel | QFinalizeLoading
  | QGetField | QStartMainIsolateFunction | QRunMainZoned.

(** What the isolates make happen outside. *)
Inductive IsolateEvent :=
  | LibrariesInitialized (i : nat) (ui_bindings hooks : bool)
  | LibraryLoaded (i : nat) (kernel : Mapping)
  | CreateCallback (i : nat) (code : nat)
  | MainInvoked (i : nat) (entrypoint : Entrypoint)
  | OnRun (code : nat)
  | ShutdownClosure (i : nat) (code : nat)
  | ShutdownCallback (i : nat) (code : nat).

Record Isolates := mkIsolates {
  isolates : gmap nat DartIsolate;
  groups : gmap nat GroupData;
  vm_calls : nat;
  events : list IsolateEvent;
}.

(** ** The monad of isolate operations *)

Definition iso (A : Type) : Type := Isolates → result (A * Isolates).
#[export] Instance iso_ret : MRet iso := λ A x w, Ok (x, w).
#[export] Instance iso_bind : MBind iso := λ A B f m w, '(a, w) ← m w; f a w.

Definition get_isolate (i : nat) : iso DartIsolate :=
  λ w, x ← of_option NullDeref (isolates w !! i); mret (x, w).
Definition get_group (g : nat) : iso GroupData :=
  λ w, x ← of_option NullDeref (groups w !! g); mret (x, w).
Definition modify_isolate (i : nat) (f : DartIsolate → DartIsolate) : iso unit :=
  λ w, mret (tt, mkIsolates (alter f i (isolates w)) (groups w) (vm_calls w) (events w)).
Definition modify_group (g : nat) (f : GroupData → GroupData) : iso unit :=
  λ w, mret (tt, mkIsolates (isolates w) (alter f g (groups w)) (vm_calls w) (events w)).
Definition new_isolate (i : nat) (x : DartIsolate) : iso unit :=
  λ w, mret (tt, mkIsolates (<[i:=x]> (isolates w)) (groups w) (vm_calls w) (events w)).
Definition new_group (g : nat) (x : GroupData) : iso unit :=
  λ w, mret (tt, mkIsolates (isolates w) (<[g:=x]> (groups w)) (vm_calls w) (events w)).
Definition emit (es : list IsolateEvent) : iso unit :=
  λ w, mret (tt, mkIsolates (isolates w) (groups w) (vm_calls w) (events w ++ es)).
Definition check (m : result unit) : iso unit := λ w, _ ← m; mret (tt, w).

Definition set_phase (p : Phase) (x : DartIsolate) : DartIsolate :=
  mkIsolate p (isolate_ x) (is_root_isolate_ x) (ui_task_runner x) (group_ x)
    (message_handling_task_runner_ x) (kernel_buffers_ x) (shutdown_callbacks_ x) (window_ x).
Definition SetIsolate (x : DartIsolate) : DartIsolate :=
  mkIsolate (phase_ x) true (is_root_isolate_ x) (ui_task_runner x) (group_ x)
    (message_handling_task_runner_ x) (kernel_buffers_ x) (shutdown_callbacks_ x) (window_ x).
Definition push_kernel (m : Mapping) (x : DartIsolate) : DartIsolate :=
  mkIsolate (phase_ x) (isolate_ x) (is_root_isolate_ x) (ui_task_runner x) (group_ x)
    (message_handling_task_runner_ x) (kernel_buffers_ x ++ [m]) (shutdown_callbacks_ x) (window_ x).
Definition set_shutdown_callbacks (l : list closure) (x : DartIsolate) : DartIsolate :=
  mkIsolate (phase_ x) (isolate_ x) (is_root_isolate_ x) (ui_task_runner x) (group_ x)
    (message_handling_task_runner_ x) (kernel_buffers_ x) l (window_ x).
Definition SetWindow (x : DartIsolate) : DartIsolate :=
  mkIsolate (phase_ x) (isolate_ x) (is_root_isolate_ x) (ui_task_runner x) (group_ x)
    (message_handling_task_runner_ x) (kernel_buffers_ x) (shutdown_callbacks_ x) true.
(** The runner is the UI task runner of the isolate. *)
Definition SetMessageHandlingTaskRunner (x : DartIsolate) : DartIsolate :=
  if negb (is_root_isolate_ x) || negb (ui_task_runner x) then x
  else mkIsolate (phase_ x) (isolate_ x) (is_root_isolate_ x) (ui_task_runner x) (group_ x)
         true (kernel_buffers_ x) (shutdown_callbacks_ x) (window_ x).
Definition SetChildIsolatePreparer (p : ChildIsolatePreparer) (g : GroupData) : GroupData :=
  mkGroup (Some p) (isolate_create_callback_ g) (isolate_shutdown_callback_ g).

Definition phase_is (p : Phase) (x : DartIsolate) : bool := bool_decide (phase_ x = p).

Section isolates.
Context `{Build} (vm : nat → VmQuery → bool).

Definition ask (q : VmQuery) : iso bool :=
  λ w, mret (vm (vm_calls w) q, mkIsolates (isolates w) (groups w) (S (vm_calls w)) (events w)).

(** ** Setting up an isolate *)

Definition Initialize (i : nat) : iso bool :=
  x ← get_isolate i;
  if negb (phase_is Uninitialized x) then mret false
  else
    current ← ask QCurrentIsolateIs;
    if negb current then mret false
    else
      _ ← modify_isolate i SetIsolate;
      _ ← modify_isolate i SetMessageHandlingTaskRunner;
      tag_handler ← ask QSetLibraryTagHandler;
      if negb tag_handler then mret false
      else _ ← modify_isolate i (set_phase Initialized); mret true.

Definition LoadLibraries (i : nat) : iso bool :=
  x ← get_isolate i;
  if negb (phase_is Initialized x) then mret false
  else
    is_service_isolate ← ask QIsServiceIsolate;
    _ ← emit [LibrariesInitialized i (negb is_service_isolate)
                (is_root_isolate_ x && negb is_service_isolate)];
    _ ← modify_isolate i (set_phase LibrariesSetup);
    mret true.

Definition MarkIsolateRunnable (i : nat) : iso bool :=
  x ← get_isolate i;
  if negb (phase_is LibrariesSetup x) then mret false
  else
    current ← ask QCurrentIsolateIs;
    if negb current then mret false
    else ask QIsolateMakeRunnable.

(** The create callback of the group, if there is one. *)
Definition run_create_callback (i : nat) (g : GroupData) : iso unit :=
  emit (match isolate_create_callback_ g with Some code => [CreateCallback i code] | None => [] end).

Definition PrepareForRunningFromPrecompiledCode (i : nat) : iso bool :=
  x ← get_isolate i;
  if negb (phase_is LibrariesSetup x) then mret false
  else
    no_root ← ask QRootLibraryIsNull;
    if (no_root : bool) then mret false
    else
      runnable ← MarkIsolateRunnable i;
      if negb runnable then mret false
      else
        _ ← modify_group (group_ x) (SetChildIsolatePreparer PrepareFromPrecompiledCode);
        g ← get_group (group_ x);
        _ ← run_create_callback i g;
        _ ← modify_isolate i (set_phase Ready);
        mret true.

Definition LoadKernel (i : nat) (mapping : Mapping) (last_piece : bool) : iso bool :=
  is_kernel ← ask QIsKernel;
  if negb is_kernel then mret false
  else
    _ ← modify_isolate i (push_kernel mapping);
    loaded ← ask QLoadLibraryFromKernel;
    if negb loaded then mret false
    else
      _ ← emit [LibraryLoaded i mapping];
      if negb last_piece then mret true
      else ask QFinalizeLoading.

(** A null mapping is [None]. *)
Definition PrepareForRunningFromKernel (i : nat) (mapping : option Mapping) (last_piece : bool) : iso bool :=
  x ← get_isolate i;
  if negb (phase_is LibrariesSetup x) then mret false
  else
    precompiled ← ask QIsRunningPrecompiledCode;
    if (precompiled : bool) then mret false
    else
      match mapping with
      | None => mret false
      | Some mapping =>
          if (GetSize mapping =? 0)%Z then mret false
          else
            loaded ← LoadKernel i mapping last_piece;
            if negb loaded then mret false
            else if negb last_piece then mret true
            else
              no_root ← ask QRootLibraryIsNull;
              if (no_root : bool) then mret false
              else
                runnable ← MarkIsolateRunnable i;
                if negb runnable then mret false
                else
                  x ← get_isolate i;
                  g ← get_group (group_ x);
                  _ ← match child_isolate_preparer_ g with
                      | None => modify_group (group_ x)
                          (SetChildIsolatePreparer (PrepareFromBuffers (kernel_buffers_ x)))
                      | Some _ => mret tt
                      end;
                  g ← get_group (group_ x);
                  _ ← run_create_callback i g;
                  _ ← modify_isolate i (set_phase Ready);
                  mret true
      end.

(** Every piece but the last one is loaded with [last_piece] false. *)
Fixpoint prepare_pieces (i : nat) (pieces : list (option Mapping)) : iso bool :=
  match pieces with
  | [] => mret true
  | m :: pieces =>
      ok ← PrepareForRunningFromKernel i m (bool_decide (pieces = []));
      if negb ok then mret false else prepare_pieces i pieces
  end.

Definition PrepareForRunningFromKernels (i : nat) (kernels : list (option Mapping)) : iso bool :=
  match kernels with [] => mret false | _ => prepare_pieces i kernels end.

(** Calling the preparer of the group. *)
Definition run_preparer (p : ChildIsolatePreparer) (i : nat) : iso bool :=
  match p with
  | PrepareFromPrecompiledCode => PrepareForRunningFromPrecompiledCode i
  | PrepareFromBuffers buffers => prepare_pieces i (Some <$> buffers)
  end.

Definition InitializeIsolate (i : nat) : iso bool :=
  ok ← Initialize i;
  if negb ok then mret false
  else
    ok ← LoadLibraries i;
    if negb ok then mret false
    else
      x ← get_isolate i;
      if is_root_isolate_ x then mret true
      else
        g ← get_group (group_ x);
        _ ← check (fml_dcheck (bool_decide (is_Some (child_isolate_preparer_ g))));
        p ← (λ w, p ← of_option BadFunctionCall (child_isolate_preparer_ g); mret (p, w));
        run_preparer p i.

(** ** Creating isolates *)

Definition fresh_isolate (root ui : bool) (g : nat) : DartIsolate :=
  mkIsolate Uninitialized false root ui g false [] [] false.

(** The objects are created before the VM is asked for its isolate. *)
Definition CreateDartIsolateGroup (i : nat) (x : DartIsolate) (g : nat) (group : GroupData) : iso bool :=
  created ← ask QCreateIsolateGroup;
  if negb created then mret false
  else
    _ ← new_group g group;
    _ ← new_isolate i x;
    InitializeIsolate i.

Definition CreateRootIsolate (i g : nat) (ui window : bool) (create shutdown : closure) : iso bool :=
  ok ← CreateDartIsolateGroup i (fresh_isolate true ui g) g (mkGroup None create shutdown);
  if negb ok then mret false
  else _ ← (if window then modify_isolate i SetWindow else mret tt); mret true.

(** A child in a group of its own, with the data of its parent's group. *)
Definition DartIsolateGroupCreateCallback (parent i g : nat) : iso bool :=
  x ← get_isolate parent;
  group ← get_group (group_ x);
  CreateDartIsolateGroup i (fresh_isolate false false g) g group.

(** A child in the group [g]. *)
Definition DartIsolateInitializeCallback (i g : nat) : iso bool :=
  _ ← get_group g;
  _ ← new_isolate i (fresh_isolate false false g);
  InitializeIsolate i.

(** ** Running and shutting down *)

Definition InvokeMainEntrypoint (i : nat) (entrypoint : Entrypoint) (resolved : bool) : iso bool :=
  if negb resolved then mret false
  else
    trampoline ← ask QStartMainIsolateFunction;
    if negb trampoline then mret false
    else
      invoked ← ask QRunMainZoned;
      if negb invoked then mret false
      else _ ← emit [MainInvoked i entrypoint]; mret true.

(** [Run] and [RunFromLibrary] differ in the library they look into. *)
Definition run_entrypoint (i : nat) (entrypoint : Entrypoint) (on_run : closure) : iso bool :=
  x ← get_isolate i;
  if negb (phase_is Ready x) then mret false
  else
    resolved ← ask QGetField;
    ok ← InvokeMainEntrypoint i entrypoint resolved;
    if negb ok then mret false
    else
      _ ← modify_isolate i (set_phase Running);
      _ ← emit (match on_run with Some code => [OnRun code] | None => [] end);
      mret true.

Definition Run (i : nat) (entrypoint_name : string) (on_run : closure) : iso bool :=
  run_entrypoint i (InRootLibrary entrypoint_name) on_run.

Definition RunFromLibrary (i : nat) (library_name entrypoint_name : string) (on_run : closure) : iso bool :=
  run_entrypoint i (InLibrary library_name entrypoint_name) on_run.

(** True when the VM is told to shut its isolate down. *)
Definition Shutdown (i : nat) : iso bool :=
  x ← get_isolate i;
  if phase_is ShutDown x then mret false
  else _ ← modify_isolate i (set_phase ShutDown); mret true.

Definition AddIsolateShutdownCallback (i : nat) (c : closure) : iso unit :=
  modify_isolate i (λ x, set_shutdown_callbacks (shutdown_callbacks_ x ++ [c]) x).

(** Destroying an [AutoFireClosure]. *)
Definition fire (i : nat) (c : closure) : list IsolateEvent :=
  match c with Some code => [ShutdownClosure i code] | None => [] end.

Definition OnShutdownCallback (i : nat) : iso unit :=
  x ← get_isolate i;
  _ ← emit (shutdown_callbacks_ x ≫= fire i);
  _ ← modify_isolate i (set_shutdown_callbacks []);
  g ← get_group (group_ x);
  emit (match isolate_shutdown_callback_ g with Some code => [ShutdownCallback i code] | None => [] end).

(** ** Calls of the engine and of the VM *)

Inductive IsolateCall :=
  | CallCreateRootIsolate (i g : nat) (ui window : bool) (create shutdown : closure)
  | CallGroupCreate (parent i g : nat)
  | CallInitialize (i g : nat)
  | CallPreparePrecompiled (i : nat)
  | CallPrepareKernel (i : nat) (mapping : option Mapping) (last_piece : bool)
  | CallPrepareKernels (i : nat) (kernels : list (option Mapping))
  | CallRun (i : nat) (entrypoint_name : string) (on_run : closure)
  | CallRunFromLibrary (i : nat) (library_name entrypoint_name : string) (on_run : closure)
  | CallShutdown (i : nat)
  | CallAddShutdownCallback (i : nat) (c : closure)
  | CallOnShutdown (i : nat).

Definition isolate_call (c : IsolateCall) : iso bool :=
  match c with
  | CallCreateRootIsolate i g ui window create shutdown => CreateRootIsolate i g ui window create shutdown
  | CallGroupCreate parent i g => DartIsolateGroupCreateCallback parent i g
  | CallInitialize i g => DartIsolateInitializeCallback i g
  | CallPreparePrecompiled i => PrepareForRunningFromPrecompiledCode i
  | CallPrepareKernel i m last => PrepareForRunningFromKernel i m last
  | CallPrepareKernels i ks => PrepareForRunningFromKernels i ks
  | CallRun i e c => Run i e c
  | CallRunFromLibrary i l e c => RunFromLibrary i l e c
  | CallShutdown i => Shutdown i
  | CallAddShutdownCallback i c => _ ← AddIsolateShutdownCallback i c; mret true
  | CallOnShutdown i => _ ← OnShutdownCallback i; mret true
  end.
End isolates.
