(* ===== verification/DartIsolateProofs.v ===== *)
(** * DartIsolateProofs: isolates only move forward

    What every call of DartIsolate does to the heap, for every behaviour of
    the VM, and the properties of whole runs: phases advance in the order of
    the enumeration, callbacks and the entry point run at most once and at
    their phase, and child isolates load the kernels of their group. *)

From Stdlib Require Import ZArith Lia.
From stdpp Require Import base numbers list gmap fin_maps relations strings.
From S2P Require Import Prelude TaskQueues DartIsolate.

(** [m] returns in [w], in a state where [Q] holds. *)
Definition returns {A} (m : iso A) (w : Isolates) (Q : A → Isolates → Prop) : Prop :=
  ∃ a w', m w ⇓ (a, w') ∧ Q a w'.

Lemma returns_ret {A} (a : A) w Q : Q a w → returns (mret a) w Q.
Proof. by exists a, w. Qed.

Lemma returns_bind {A B} (m : iso A) (f : A → iso B) w Q :
  returns m w (λ a w', returns (f a) w' Q) → returns (m ≫= f) w Q.
Proof.
  intros (a & w1 & Hm & b & w2 & Hf & HQ). exists b, w2. split; [|done].
  unfold mbind, iso_bind. rewrite Hm. exact Hf.
Qed.

Lemma returns_mono {A} (m : iso A) w (Q Q' : A → Isolates → Prop) :
  (∀ a w', Q a w' → Q' a w') → returns m w Q → returns m w Q'.
Proof. intros HQ (a & w' & Hm & Hq). exists a, w'. auto. Qed.

(** The world with other isolates, groups, answers and events. *)
Definition set_calls (n : nat) (w : Isolates) : Isolates :=
  mkIsolates (isolates w) (groups w) n (events w).
Definition upd (i : nat) (f : DartIsolate → DartIsolate) (gs : gmap nat GroupData)
    (n : nat) (es : list IsolateEvent) (w : Isolates) : Isolates :=
  mkIsolates (alter f i (isolates w)) gs n (events w ++ es).

Lemma upd_upd i f f' gs gs' n n' es es' w :
  upd i f' gs' n' es' (upd i f gs n es w) = upd i (f' ∘ f) gs' n' (es ++ es') w.
Proof. unfold upd. cbn. by rewrite alter_alter_eq, <- app_assoc. Qed.

Section proofs.
Context `{Build} (vm : nat → VmQuery → bool).

Lemma returns_ask q w Q : Q (vm (vm_calls w) q) (set_calls (S (vm_calls w)) w) → returns (ask vm q) w Q.
Proof. intros ?. by eexists _, _. Qed.

Lemma returns_get i x w (Q : DartIsolate → Isolates → Prop) :
  isolates w !! i = Some x → Q x w → returns (get_isolate i) w Q.
Proof. intros Hx HQ. exists x, w. unfold get_isolate. by rewrite Hx. Qed.

Lemma returns_group g x w (Q : GroupData → Isolates → Prop) :
  groups w !! g = Some x → Q x w → returns (get_group g) w Q.
Proof. intros Hx HQ. exists x, w. unfold get_group. by rewrite Hx. Qed.

(** Symbolic execution of the next operation. *)
Ltac iso_step :=
  match goal with
  | |- returns (mret _) _ _ => apply returns_ret
  | |- returns (get_isolate ?i) ?w _ => eapply returns_get; [eassumption|]
  | |- returns (get_group ?i) ?w _ => eapply returns_group; [eassumption|]
  | |- returns (ask _ _) _ _ => apply returns_ask
  | |- returns (modify_isolate _ _) _ _ => eexists _, _; split; [reflexivity|]
  | |- returns (modify_group _ _) _ _ => eexists _, _; split; [reflexivity|]
  | |- returns (emit _) _ _ => eexists _, _; split; [reflexivity|]
  | |- returns (new_isolate _ _) _ _ => eexists _, _; split; [reflexivity|]
  | |- returns (new_group _ _) _ _ => eexists _, _; split; [reflexivity|]
  | |- returns (mbind _ _) _ _ => apply returns_bind
  | |- returns (if negb true then _ else _) _ _ => cbn [negb]
  | |- returns (if negb false then _ else _) _ _ => cbn [negb]
  | |- returns (if ?b then _ else _) _ _ => destruct b eqn:?
  end; cbn beta.

Definition create_events (i : nat) (g : GroupData) : list IsolateEvent :=
  match isolate_create_callback_ g with Some code => [CreateCallback i code] | None => [] end.

Lemma phase_is_true p x : phase_is p x = true ↔ phase_ x = p.
Proof. apply bool_decide_eq_true. Qed.

Lemma MarkIsolateRunnable_spec i x w :
  isolates w !! i = Some x →
  returns (MarkIsolateRunnable vm i) w (λ b w', ∃ n, w' = set_calls n w).
Proof.
  intros Hx. unfold MarkIsolateRunnable. repeat iso_step; eauto. by exists (vm_calls w); destruct w.
Qed.

Lemma Precompiled_spec i x g w :
  isolates w !! i = Some x → groups w !! group_ x = Some g →
  returns (PrepareForRunningFromPrecompiledCode vm i) w (λ b w', ∃ n,
    if b then phase_ x = LibrariesSetup ∧
      w' = upd i (set_phase Ready)
             (alter (SetChildIsolatePreparer PrepareFromPrecompiledCode) (group_ x) (groups w)) n
             (create_events i g) w
    else w' = set_calls n w).
Proof.
  intros Hx Hg. unfold PrepareForRunningFromPrecompiledCode, run_create_callback. repeat iso_step.
  - by exists (vm_calls w); destruct w.
  - eauto.
  - eapply returns_mono; [|by eapply (MarkIsolateRunnable_spec i x)]. intros b w1 [n ->]. cbn beta.
    repeat iso_step; [by exists n|].
    eapply (returns_group _ (SetChildIsolatePreparer PrepareFromPrecompiledCode g)).
    { cbn. by rewrite lookup_alter_eq, Hg. }
    repeat iso_step. exists n. split; [|done]. apply phase_is_true, negb_false_iff. done.
Qed.

(** ** Kernels *)

Definition push_kernels (ks : list Mapping) (x : DartIsolate) : DartIsolate :=
  mkIsolate (phase_ x) (isolate_ x) (is_root_isolate_ x) (ui_task_runner x) (group_ x)
    (message_handling_task_runner_ x) (kernel_buffers_ x ++ ks) (shutdown_callbacks_ x) (window_ x).

Definition ensure_preparer (buffers : list Mapping) (g : GroupData) : GroupData :=
  match child_isolate_preparer_ g with
  | None => SetChildIsolatePreparer (PrepareFromBuffers buffers) g
  | Some _ => g
  end.

Definition is_load (i : nat) (e : IsolateEvent) : Prop := ∃ m, e = LibraryLoaded i m.

Lemma push_kernels_nil x : push_kernels [] x = x.
Proof. destruct x. unfold push_kernels. cbn. by rewrite app_nil_r. Qed.

Lemma push_kernels_app ks ks' x : push_kernels ks' (push_kernels ks x) = push_kernels (ks ++ ks') x.
Proof. destruct x. unfold push_kernels. cbn. by rewrite <- app_assoc. Qed.

(** A failed call: the isolate may hold more kernels and may have loaded some. *)
Definition failed (i : nat) (w w' : Isolates) : Prop :=
  ∃ ks n es, w' = upd i (push_kernels ks) (groups w) n es w ∧ Forall (is_load i) es.

Lemma failed_calls i n w : failed i w (set_calls n w).
Proof.
  exists [], n, []. split; [|done]. unfold upd, set_calls. rewrite app_nil_r. f_equal.
  symmetry. apply alter_id. intros x _. apply push_kernels_nil.
Qed.

Lemma failed_refl i w : failed i w w.
Proof. replace w with (set_calls (vm_calls w) w) at 2 by (by destruct w). apply failed_calls. Qed.

Lemma LoadKernel_spec i m last w :
  returns (LoadKernel vm i m last) w (λ b w', ∃ n,
    if b then w' = upd i (push_kernels [m]) (groups w) n [LibraryLoaded i m] w else failed i w w').
Proof.
  unfold LoadKernel. repeat iso_step.
  - exists 0. apply failed_calls.
  - exists 0. cbn. eexists [m], _, []. split; [|done]. unfold upd. by rewrite app_nil_r.
  - by eexists.
  - cbn. destruct (vm _ QFinalizeLoading); [by eexists|].
    exists 0. eexists [m], _, [_]. split; [done|]. repeat constructor. by eexists.
Qed.

(** A successful call with the last piece makes the isolate ready and, if the
    group has none, gives it a preparer with all kernels of the isolate. *)
Definition kernel_ready (i : nat) (x : DartIsolate) (g : GroupData) (ks : list Mapping) (n : nat)
    (w : Isolates) : Isolates :=
  upd i (set_phase Ready ∘ push_kernels ks)
    (alter (ensure_preparer (kernel_buffers_ x ++ ks)) (group_ x) (groups w)) n
    ((LibraryLoaded i <$> ks) ++ create_events i g) w.

Lemma PrepareKernel_spec i x g mo last w :
  isolates w !! i = Some x → groups w !! group_ x = Some g →
  returns (PrepareForRunningFromKernel vm i mo last) w (λ b w',
    if b then ∃ m n, mo = Some m ∧ phase_ x = LibrariesSetup ∧
      w' = if last then kernel_ready i x g [m] n w
           else upd i (push_kernels [m]) (groups w) n [LibraryLoaded i m] w
    else failed i w w').
Proof.
  intros Hx Hg. unfold PrepareForRunningFromKernel, run_create_callback.
  repeat iso_step; [apply failed_refl|apply failed_calls|].
  apply negb_false_iff, phase_is_true in Heqb. destruct mo as [m|]; [|iso_step; apply failed_calls].
  iso_step; [iso_step; apply failed_calls|]. iso_step.
  eapply returns_mono; [|apply LoadKernel_spec]. intros b w1 [n Hw1]. cbn beta.
  destruct b; cbn [negb]; last first.
  { iso_step. destruct Hw1 as (ks & n' & es & -> & Hes). by exists ks, n', es. }
  subst w1. destruct last; cbn [negb]; [|iso_step; by eexists _, _].
  assert (Hx1 : isolates (upd i (push_kernels [m]) (groups (set_calls (S (vm_calls w)) w)) n [LibraryLoaded i m]
    (set_calls (S (vm_calls w)) w)) !! i = Some (push_kernels [m] x)) by (cbn; by rewrite lookup_alter_eq, Hx).
  assert (Hfail : ∀ n', failed i w (set_calls n' (upd i (push_kernels [m]) (groups w) n [LibraryLoaded i m] w))).
  { intros n'. exists [m], n', [LibraryLoaded i m]. split; [done|]. repeat constructor. by eexists. }
  repeat iso_step; [apply Hfail|].
  eapply returns_mono; [|by eapply MarkIsolateRunnable_spec]. intros b w2 [n2 ->]. cbn beta.
  destruct b; cbn [negb]; [|iso_step; apply Hfail].
  iso_step. eapply returns_get; [exact Hx1|]. cbn beta. iso_step. eapply returns_group; [exact Hg|]. cbn beta.
  iso_step. unfold kernel_ready, ensure_preparer.
  destruct (child_isolate_preparer_ g) eqn:Hp.
  - iso_step. iso_step. eapply returns_group; [exact Hg|]. cbn beta. repeat iso_step.
    eexists m, _. split_and!; [done..|]. unfold upd. cbn. rewrite alter_alter_eq, <- app_assoc. f_equal.
    symmetry. apply alter_id. intros g' Hg'. simplify_eq. by rewrite Hp.
  - iso_step. iso_step. eapply (returns_group _ (SetChildIsolatePreparer (PrepareFromBuffers (kernel_buffers_ x ++ [m])) g)).
    { cbn. by rewrite lookup_alter_eq, Hg. }
    cbn beta. repeat iso_step.
    eexists m, _. split_and!; [done..|]. unfold upd. cbn. rewrite alter_alter_eq, <- app_assoc. f_equal.
    apply alter_ext. intros g' Hg'. simplify_eq. by rewrite Hp.
Qed.

Lemma kernel_ready_cons i x g m ks n n1 w :
  isolates w !! i = Some x →
  kernel_ready i (push_kernels [m] x) g ks n (upd i (push_kernels [m]) (groups w) n1 [LibraryLoaded i m] w) =
    kernel_ready i x g (m :: ks) n w.
Proof.
  intros Hx. unfold kernel_ready. rewrite upd_upd. cbn. unfold upd. f_equal.
  - apply alter_ext. intros x' Hx'. simplify_eq. unfold compose. by rewrite push_kernels_app.
  - by rewrite <- app_assoc.
Qed.

Lemma failed_cons i m n w w' :
  failed i (upd i (push_kernels [m]) (groups w) n [LibraryLoaded i m] w) w' → failed i w w'.
Proof.
  intros (ks & n' & es & -> & Hes). exists (m :: ks), n', (LibraryLoaded i m :: es). split.
  - rewrite upd_upd. unfold upd. f_equal. apply alter_ext. intros x _. unfold compose. apply push_kernels_app.
  - constructor; [by eexists|done].
Qed.

Lemma prepare_pieces_spec i x g pieces w :
  isolates w !! i = Some x → groups w !! group_ x = Some g → pieces ≠ [] →
  returns (prepare_pieces vm i pieces) w (λ b w',
    if b then ∃ ks n, pieces = Some <$> ks ∧ phase_ x = LibrariesSetup ∧ w' = kernel_ready i x g ks n w
    else failed i w w').
Proof.
  revert x w. induction pieces as [|mo pieces IH]; [done|]. intros x w Hx Hg _. cbn [prepare_pieces].
  iso_step. eapply returns_mono; [|by apply (PrepareKernel_spec i x g)]. intros b w1 Hw1. cbn beta.
  destruct b; cbn [negb]; [|by iso_step]. destruct Hw1 as (m & n & -> & Hph & Hw1).
  destruct pieces as [|mo' pieces].
  - rewrite bool_decide_eq_true_2 in Hw1 by done. cbn. iso_step. by exists [m], n.
  - rewrite bool_decide_eq_false_2 in Hw1 by done. subst w1.
    eapply returns_mono; [|apply (IH (push_kernels [m] x))]; [|cbn; by rewrite lookup_alter_eq, Hx|done|done].
    intros [] w2; [|apply failed_cons]. intros (ks & n' & -> & _ & ->). exists (m :: ks), n'.
    split_and!; [done..|by apply kernel_ready_cons].
Qed.

(** ** What a call may do *)

(** Calls of the create callback and of the entry point of isolate [i]. *)
Definition creates (i : nat) (e : IsolateEvent) : nat :=
  match e with CreateCallback j _ => if decide (j = i) then 1 else 0 | _ => 0 end.
Definition mains (i : nat) (e : IsolateEvent) : nat :=
  match e with MainInvoked j _ => if decide (j = i) then 1 else 0 | _ => 0 end.

Definition has_callback (g : GroupData) : nat :=
  match isolate_create_callback_ g with Some _ => 1 | None => 0 end.

(** The phase an isolate may go to in one call, with the number of create
    callbacks and entries of its [main] on the way; [callback] is 1 when the
    group has a create callback. *)
Inductive phase_move (callback : nat) : Phase → Phase → nat → nat → Prop :=
  | move_stay p : phase_move callback p p 0 0
  | move_setup p q :
      phase_rank p < phase_rank q → phase_rank q ≤ phase_rank LibrariesSetup → phase_move callback p q 0 0
  | move_ready p : phase_rank p ≤ phase_rank LibrariesSetup → phase_move callback p Ready callback 0
  | move_run : phase_move callback Ready Running 0 1
  | move_shutdown p : p ≠ ShutDown → phase_move callback p ShutDown 0 0.

(** The preparer of a group has something to load. *)
Definition preparer_ok (p : ChildIsolatePreparer) : Prop :=
  match p with PrepareFromPrecompiledCode => True | PrepareFromBuffers l => l ≠ [] end.

(** Group data keep their callbacks and, once set, have a usable preparer. *)
Definition group_le (d d' : GroupData) : Prop :=
  isolate_create_callback_ d' = isolate_create_callback_ d ∧
  isolate_shutdown_callback_ d' = isolate_shutdown_callback_ d ∧
  (is_Some (child_isolate_preparer_ d) → is_Some (child_isolate_preparer_ d')) ∧
  (∀ p, child_isolate_preparer_ d' = Some p → preparer_ok p ∨ child_isolate_preparer_ d = Some p).

(** What a call on isolate [i] may change; [b] is false when it failed. *)
Record call_effect (i : nat) (w w' : Isolates) : Prop := {
  effect_others j : j ≠ i → isolates w' !! j = isolates w !! j;
  effect_own x : isolates w !! i = Some x →
    ∃ x' g, isolates w' !! i = Some x' ∧ groups w !! group_ x = Some g ∧ group_ x' = group_ x ∧
      is_root_isolate_ x' = is_root_isolate_ x ∧
      ∃ es, events w' = events w ++ es ∧
        phase_move (has_callback g) (phase_ x) (phase_ x')
          (sum_list_with (creates i) es) (sum_list_with (mains i) es) ∧
        (∀ j, j ≠ i → sum_list_with (creates j) es = 0 ∧ sum_list_with (mains j) es = 0) ∧
        (phase_ x ≠ Ready → phase_ x' = Ready →
           ∃ d, groups w' !! group_ x = Some d ∧ is_Some (child_isolate_preparer_ d));
  effect_groups g d : groups w !! g = Some d → ∃ d', groups w' !! g = Some d' ∧ group_le d d';
  effect_dom : dom (groups w') = dom (groups w);
}.

(** Calls described by [upd]. *)
Lemma upd_effect i x g f gs n es w :
  isolates w !! i = Some x → groups w !! group_ x = Some g →
  group_ (f x) = group_ x → is_root_isolate_ (f x) = is_root_isolate_ x →
  phase_move (has_callback g) (phase_ x) (phase_ (f x))
    (sum_list_with (creates i) es) (sum_list_with (mains i) es) →
  (∀ j, j ≠ i → sum_list_with (creates j) es = 0 ∧ sum_list_with (mains j) es = 0) →
  (∀ g d, groups w !! g = Some d → ∃ d', gs !! g = Some d' ∧ group_le d d') →
  (phase_ x ≠ Ready → phase_ (f x) = Ready →
     ∃ d, gs !! group_ x = Some d ∧ is_Some (child_isolate_preparer_ d)) →
  dom gs = dom (groups w) →
  call_effect i w (upd i f gs n es w).
Proof.
  intros Hx Hg Hfg Hfr Hm Hes Hgs Hrd Hdom. split; cbn.
  - intros j Hj. by rewrite lookup_alter_ne.
  - intros x' Hx'. simplify_eq. exists (f x), g. rewrite lookup_alter_eq, Hx. split_and!; [done..|]. by exists es.
  - done.
  - done.
Qed.

Lemma group_le_refl d : group_le d d.
Proof. unfold group_le. naive_solver. Qed.

Lemma alter_groups (h : GroupData → GroupData) k (m : gmap nat GroupData) :
  (∀ d, group_le d (h d)) →
  ∀ g d, m !! g = Some d → ∃ d', alter h k m !! g = Some d' ∧ group_le d d'.
Proof.
  intros Hh g d Hd. destruct (decide (g = k)) as [->|Hne].
  - exists (h d). by rewrite lookup_alter_eq, Hd.
  - exists d. rewrite lookup_alter_ne by done. split; [done|apply group_le_refl].
Qed.

Lemma ensure_preparer_le l d : l ≠ [] → group_le d (ensure_preparer l d).
Proof.
  intros Hl. unfold ensure_preparer. destruct (child_isolate_preparer_ d) eqn:Hd; [apply group_le_refl|].
  unfold group_le. cbn. split_and!; [done|done|by intros []|]. intros p [= <-]. by left.
Qed.

Lemma precompiled_preparer_le d : group_le d (SetChildIsolatePreparer PrepareFromPrecompiledCode d).
Proof. unfold group_le. cbn. split_and!; [done|done|by eexists|]. intros p [= <-]. by left. Qed.

Lemma loads_silent i es j :
  Forall (is_load i) es → sum_list_with (creates j) es = 0 ∧ sum_list_with (mains j) es = 0.
Proof. induction 1 as [|e es [m ->] _ IH]; [done|]. exact IH. Qed.

Lemma loads_fmap i ks : Forall (is_load i) (LibraryLoaded i <$> ks).
Proof. induction ks; constructor; [by eexists|done]. Qed.

Lemma create_events_count i j g :
  sum_list_with (creates j) (create_events i g) = (if decide (j = i) then has_callback g else 0) ∧
  sum_list_with (mains j) (create_events i g) = 0.
Proof.
  unfold create_events, has_callback. destruct (isolate_create_callback_ g); cbn; [|by case_decide].
  split; [|done]. repeat case_decide; congruence || done.
Qed.

Lemma failed_effect i x g w w' :
  isolates w !! i = Some x → groups w !! group_ x = Some g → failed i w w' → call_effect i w w'.
Proof.
  intros Hx Hg (ks & n & es & -> & Hes). pose proof (loads_silent i es) as Hl. eapply upd_effect; try done.
  - destruct (Hl i Hes) as [-> ->]. constructor.
  - intros j _. by apply Hl.
  - intros g' d Hd. exists d. split; [done|apply group_le_refl].
Qed.

Lemma kernel_ready_effect i x g ks n w :
  isolates w !! i = Some x → groups w !! group_ x = Some g → phase_ x = LibrariesSetup → ks ≠ [] →
  call_effect i w (kernel_ready i x g ks n w).
Proof.
  intros Hx Hg Hph Hks. pose proof (λ j, loads_silent i _ j (loads_fmap i ks)) as Hl. eapply upd_effect; try done.
  - rewrite !sum_list_with_app. destruct (Hl i) as [-> ->], (create_events_count i i g) as [-> ->].
    rewrite decide_True by done. apply move_ready. by rewrite Hph.
  - intros j Hj. rewrite !sum_list_with_app. destruct (Hl j) as [-> ->], (create_events_count i j g) as [-> ->].
    by rewrite decide_False.
  - apply alter_groups. intros d. apply ensure_preparer_le. intros [? ?]%app_nil. done.
  - intros _ _. exists (ensure_preparer (kernel_buffers_ x ++ ks) g). rewrite lookup_alter_eq, Hg. split; [done|].
    unfold ensure_preparer. destruct (child_isolate_preparer_ g) eqn:Hp; [by rewrite Hp|by eexists].
  - apply dom_alter_L.
Qed.

(** ** Setting up *)

(** Updates of an isolate that keep its group, its kind and its kernels. *)
Definition framed (f : DartIsolate → DartIsolate) : Prop :=
  ∀ y, group_ (f y) = group_ y ∧ is_root_isolate_ (f y) = is_root_isolate_ y ∧
    kernel_buffers_ (f y) = kernel_buffers_ y.

Lemma framed_compose f f' : framed f → framed f' → framed (f' ∘ f).
Proof.
  intros Hf Hf' y. unfold compose. destruct (Hf y) as (E1 & E2 & E3), (Hf' (f y)) as (-> & -> & ->). done.
Qed.

Lemma framed_handler : framed SetMessageHandlingTaskRunner.
Proof. intros y. unfold SetMessageHandlingTaskRunner. by case_match. Qed.

Lemma handler_phase y : phase_ (SetMessageHandlingTaskRunner y) = phase_ y.
Proof. unfold SetMessageHandlingTaskRunner. by case_match. Qed.

Lemma Initialize_spec i x w :
  isolates w !! i = Some x →
  returns (Initialize vm i) w (λ b w', ∃ f n, w' = upd i f (groups w) n [] w ∧ framed f ∧
    if b then phase_ x = Uninitialized ∧ phase_ (f x) = Initialized else phase_ (f x) = phase_ x).
Proof.
  intros Hx. unfold Initialize. assert (Hid : ∀ n, set_calls n w = upd i id (groups w) n [] w).
  { intros n. unfold upd, set_calls. rewrite app_nil_r. f_equal. symmetry. by apply alter_id. }
  repeat iso_step.
  - exists id, (vm_calls w). split_and!; [|done..]. rewrite <- Hid. by destruct w.
  - eexists id, _. split_and!; [apply Hid|done..].
  - eexists (SetMessageHandlingTaskRunner ∘ SetIsolate), _. split_and!.
    + unfold upd. cbn. by rewrite alter_alter_eq, app_nil_r.
    + apply framed_compose; [done|apply framed_handler].
    + exact (handler_phase (SetIsolate x)).
  - eexists (set_phase Initialized ∘ (SetMessageHandlingTaskRunner ∘ SetIsolate)), _. split_and!.
    + unfold upd. cbn. by rewrite !alter_alter_eq, app_nil_r.
    + apply framed_compose; [|done]. apply framed_compose; [done|apply framed_handler].
    + by apply negb_false_iff, phase_is_true in Heqb.
    + done.
Qed.

Lemma LoadLibraries_spec i x w :
  isolates w !! i = Some x →
  returns (LoadLibraries vm i) w (λ b w', ∃ n,
    if b then phase_ x = Initialized ∧
      ∃ ui hooks, w' = upd i (set_phase LibrariesSetup) (groups w) n [LibrariesInitialized i ui hooks] w
    else w' = set_calls n w).
Proof.
  intros Hx. unfold LoadLibraries. repeat iso_step.
  - exists (vm_calls w). by destruct w.
  - eexists. split; [by apply negb_false_iff, phase_is_true in Heqb|]. by eexists _, _.
Qed.

(** What preparing a child loads. *)
Definition preparer_kernels (p : ChildIsolatePreparer) : list Mapping :=
  match p with PrepareFromPrecompiledCode => [] | PrepareFromBuffers l => l end.

Lemma run_preparer_spec p i x g w :
  isolates w !! i = Some x → groups w !! group_ x = Some g → preparer_ok p →
  returns (run_preparer vm p i) w (λ b w',
    if b then phase_ x = LibrariesSetup ∧ ∃ f gs n,
      w' = upd i f gs n ((LibraryLoaded i <$> preparer_kernels p) ++ create_events i g) w ∧
      group_ (f x) = group_ x ∧ is_root_isolate_ (f x) = is_root_isolate_ x ∧ phase_ (f x) = Ready ∧
      (∃ d, gs !! group_ x = Some d ∧ is_Some (child_isolate_preparer_ d)) ∧
      dom gs = dom (groups w) ∧
      ∀ g d, groups w !! g = Some d → ∃ d', gs !! g = Some d' ∧ group_le d d'
    else failed i w w').
Proof.
  intros Hx Hg Hp. destruct p as [|l]; cbn [run_preparer preparer_kernels].
  - eapply returns_mono; [|by apply (Precompiled_spec i x g)]. intros [] w' [n Hw']; [|subst; apply failed_calls].
    destruct Hw' as [Hph ->]. split; [done|]. eexists _, _, n. split_and!; [done..| | |].
    + eexists. rewrite lookup_alter_eq, Hg. by split; [|eexists].
    + apply dom_alter_L.
    + apply alter_groups, precompiled_preparer_le.
  - eapply returns_mono; [|apply (prepare_pieces_spec i x g)]; [|done..|by destruct l].
    intros [] w'; [|done]. intros (ks & n & Hks & Hph & ->). apply (inj (fmap Some)) in Hks as <-.
    split; [done|]. eexists _, _, n. split_and!; [done..| | |].
    + exists (ensure_preparer (kernel_buffers_ x ++ l) g). rewrite lookup_alter_eq, Hg. split; [done|].
      unfold ensure_preparer. destruct (child_isolate_preparer_ g) eqn:Hpg; [by rewrite Hpg|by eexists].
    + apply dom_alter_L.
    + apply alter_groups. intros d. apply ensure_preparer_le. intros [_ ?]%app_nil. done.
Qed.

Lemma same_groups w : ∀ g d, groups w !! g = Some d → ∃ d', groups w !! g = Some d' ∧ group_le d d'.
Proof. intros g d Hd. exists d. split; [done|apply group_le_refl]. Qed.

(** Setting up without making ready. *)
Lemma setup_effect i x g f n es w :
  isolates w !! i = Some x → groups w !! group_ x = Some g →
  group_ (f x) = group_ x → is_root_isolate_ (f x) = is_root_isolate_ x →
  phase_ x = Uninitialized → phase_rank (phase_ (f x)) ≤ phase_rank LibrariesSetup →
  phase_rank (phase_ x) ≤ phase_rank (phase_ (f x)) →
  (∀ j, sum_list_with (creates j) es = 0 ∧ sum_list_with (mains j) es = 0) →
  call_effect i w (upd i f (groups w) n es w).
Proof.
  intros Hx Hg Hfg Hfr Hph Hle Hge Hes. eapply upd_effect; try done; [|by apply same_groups|by intros _ Hf; rewrite Hf in Hle; cbn in Hle; lia].
  destruct (Hes i) as [-> ->]. rewrite Hph in *. destruct (phase_ (f x)) eqn:Hf; cbn in *; try lia.
  - apply move_stay.
  - apply move_setup; cbn; lia.
  - apply move_setup; cbn; lia.
Qed.

Lemma InitializeIsolate_spec i x g w :
  isolates w !! i = Some x → groups w !! group_ x = Some g → phase_ x = Uninitialized →
  (is_root_isolate_ x = false → ∃ p, child_isolate_preparer_ g = Some p ∧ preparer_ok p) →
  returns (InitializeIsolate vm i) w (λ b w', call_effect i w w' ∧
    (b = true → ∃ x' ui hooks, isolates w' !! i = Some x' ∧
      phase_ x' = (if is_root_isolate_ x then LibrariesSetup else Ready) ∧
      events w' = events w ++ LibrariesInitialized i ui hooks ::
        if is_root_isolate_ x then []
        else (LibraryLoaded i <$> default [] (preparer_kernels <$> child_isolate_preparer_ g)) ++
             create_events i g)).
Proof.
  intros Hx Hg Hph Hpre. unfold InitializeIsolate. iso_step.
  eapply returns_mono; [|by apply (Initialize_spec i x)]. intros b w1 (f & n & -> & Hf & Hb). cbn beta.
  destruct (Hf x) as (Hfg & Hfr & _).
  destruct b; cbn [negb]; last first.
  { iso_step. split; [|done]. eapply setup_effect; [done..|rewrite Hb, Hph; cbn; lia|by rewrite Hb|done]. }
  destruct Hb as [_ Hf1]. iso_step.
  assert (Hx1 : isolates (upd i f (groups w) n [] w) !! i = Some (f x)) by (cbn; by rewrite lookup_alter_eq, Hx).
  eapply returns_mono; [|by apply (LoadLibraries_spec i (f x))]. intros b w2 (n2 & Hb). cbn beta.
  destruct b; cbn [negb]; last first.
  { iso_step. split; [|done]. subst w2.
    change (set_calls n2 (upd i f (groups w) n [] w)) with (upd i f (groups w) n2 [] w).
    eapply setup_effect; [done..|rewrite Hf1; cbn; lia|rewrite Hf1, Hph; cbn; lia|done]. }
  destruct Hb as (_ & ui & hooks & Hw2). rewrite upd_upd in Hw2. cbn [app groups upd] in Hw2.
  assert (Hx2 : isolates w2 !! i = Some (set_phase LibrariesSetup (f x))).
  { subst w2. cbn. by rewrite lookup_alter_eq, Hx. }
  assert (Hg2 : groups w2 = groups w) by by subst w2.
  iso_step. eapply returns_get; [exact Hx2|]. cbn beta. cbn [is_root_isolate_ set_phase]. rewrite Hfr.
  destruct (is_root_isolate_ x) eqn:Hroot.
  { iso_step. subst w2. split.
    - eapply setup_effect; [first [done|cbn; congruence]..|cbn; lia|rewrite Hph; cbn; lia|done].
    - intros _. eexists _, ui, hooks. split_and!; [exact Hx2|done|done]. }
  destruct (Hpre eq_refl) as (p & Hp & Hok).
  iso_step. cbn [group_ set_phase]. rewrite Hfg. eapply returns_group; [by rewrite Hg2|]. cbn beta.
  iso_step. unfold check. rewrite bool_decide_eq_true_2 by (rewrite Hp; by eexists).
  eexists tt, w2. split; [by rewrite fml_dcheck_true|]. iso_step. rewrite Hp. cbn [of_option default fmap option_fmap option_map].
  eexists p, w2. split; [done|].
  eapply returns_mono; [|apply (run_preparer_spec p i (set_phase LibrariesSetup (f x)) g)];
    [|done|cbn; by rewrite Hfg, Hg2|done].
  intros [] w3; cbn beta.
  - intros (_ & f3 & gs & n3 & -> & Hg3 & Hr3 & Hp3 & Hrd & Hdom & Hgs). subst w2. rewrite upd_upd. split.
    + eapply upd_effect; try done.
      * unfold compose. rewrite Hg3. by cbn.
      * unfold compose. rewrite Hr3. cbn. congruence.
      * unfold compose. rewrite Hp3, Hph. cbn. rewrite !sum_list_with_app.
        destruct (loads_silent i _ i (loads_fmap i (preparer_kernels p))) as [-> ->].
        destruct (create_events_count i i g) as [-> ->]. rewrite decide_True by done. cbn.
        apply move_ready. cbn. lia.
      * intros j Hj. cbn. rewrite !sum_list_with_app.
        destruct (loads_silent i _ j (loads_fmap i (preparer_kernels p))) as [-> ->].
        destruct (create_events_count i j g) as [-> ->]. by rewrite decide_False.
      * intros _ _. cbn in Hrd. by rewrite Hfg in Hrd.
    + intros _. eexists _, ui, hooks. cbn. rewrite lookup_alter_eq, Hx. split_and!; [done|exact Hp3|done].
  - intros (ks & n3 & es & -> & Hes). rewrite Hg2. subst w2. rewrite upd_upd. split; [|done].
    eapply setup_effect; [first [done|cbn; congruence]..|cbn; lia|rewrite Hph; cbn; lia|].
    intros j. cbn. by apply (loads_silent i).
Qed.

(** ** Whole runs *)

Definition life (p : Phase) (callback c m : nat) : Prop :=
  match p with
  | Unknown | Uninitialized | Initialized | LibrariesSetup => c = 0 ∧ m = 0
  | Ready => c = callback ∧ m = 0
  | Running => c = callback ∧ m = 1
  | ShutDown => c = 0 ∧ m = 0 ∨ c = callback ∧ m ≤ 1
  end.

Lemma life_move callback p p' c m c0 m0 :
  life p callback c m → phase_move callback p p' c0 m0 → life p' callback (c + c0) (m + m0).
Proof.
  intros Hl Hm. destruct Hm as [p|p q Hlt Hle|p Hle| |p Hne]; cbn in *.
  - rewrite !Nat.add_0_r. done.
  - destruct p, q; cbn in *; lia.
  - destruct p; cbn in *; lia.
  - lia.
  - destruct p; cbn in *; lia.
Qed.

Record isolates_inv (w : Isolates) : Prop := {
  inv_group i x : isolates w !! i = Some x → ∃ g, groups w !! group_ x = Some g ∧
    life (phase_ x) (has_callback g) (sum_list_with (creates i) (events w)) (sum_list_with (mains i) (events w)) ∧
    (phase_ x = Ready ∨ phase_ x = Running → is_Some (child_isolate_preparer_ g));
  inv_preparers g d p : groups w !! g = Some d → child_isolate_preparer_ d = Some p → preparer_ok p;
  inv_absent i : isolates w !! i = None →
    sum_list_with (creates i) (events w) = 0 ∧ sum_list_with (mains i) (events w) = 0;
}.

Lemma has_callback_le d d' : group_le d d' → has_callback d' = has_callback d.
Proof. intros (Hc & _). unfold has_callback. by rewrite Hc. Qed.

Lemma effect_preparers i w w' x :
  call_effect i w w' → isolates w !! i = Some x → isolates_inv w →
  ∀ g d p, groups w' !! g = Some d → child_isolate_preparer_ d = Some p → preparer_ok p.
Proof.
  intros [_ _ Hgr Hdom] Hx Hi g d p Hd Hp.
  assert (is_Some (groups w !! g)) as [d0 Hd0] by (apply elem_of_dom; rewrite <- Hdom; by apply elem_of_dom_2 in Hd).
  destruct (Hgr g d0 Hd0) as (d' & Hd' & _ & _ & _ & Hpr). simplify_eq.
  destruct (Hpr p Hp) as [?|?]; [done|]. by eapply (inv_preparers w Hi).
Qed.

Lemma effect_inv i w w' x :
  call_effect i w w' → isolates w !! i = Some x → isolates_inv w → isolates_inv w'.
Proof.
  intros He Hx Hi. pose proof He as [Hoth Hown Hgr _].
  destruct (Hown x Hx) as (x' & g & Hx' & Hg & Hgx & _ & es & Hes & Hmove & Hother & Hready).
  destruct (inv_group w Hi i x Hx) as (g0 & Hg0 & Hlife & Hprep). simplify_eq.
  split; [|by eapply effect_preparers|].
  - intros j y Hy. destruct (decide (j = i)) as [->|Hne].
    + simplify_eq. destruct (Hgr _ _ Hg) as (d' & Hd' & Hle). exists d'. rewrite Hgx. split; [done|].
      rewrite (has_callback_le _ _ Hle), Hes, !sum_list_with_app. split; [by eapply life_move|].
      intros Hph. destruct Hle as (_ & _ & Hsome & _).
      destruct Hmove as [p|p q Hlt Hlq|p Hle'| |p Hnsd].
      * apply Hsome. by apply Hprep.
      * destruct q; cbn in *; destruct Hph; try done; lia.
      * destruct (Hready) as (d & Hd & ?); [by destruct p; cbn in *; try lia|done|]. by simplify_eq.
      * apply Hsome, Hprep. by left.
      * by destruct Hph.
    + rewrite Hoth in Hy by done. destruct (inv_group w Hi j y Hy) as (gj & Hgj & Hlj & Hpj).
      destruct (Hgr _ _ Hgj) as (d' & Hd' & Hle). exists d'. split; [done|].
      destruct (Hother j Hne) as [Hc Hm].
      rewrite (has_callback_le _ _ Hle), Hes, !sum_list_with_app, Hc, Hm, !Nat.add_0_r. split; [done|].
      intros Hph. destruct Hle as (_ & _ & Hsome & _). auto.
  - intros j Hj. assert (j ≠ i) as Hne by congruence. rewrite Hoth in Hj by done.
    destruct (Hother j Hne) as [Hc Hm]. rewrite Hes, !sum_list_with_app, Hc, Hm, !Nat.add_0_r.
    by apply (inv_absent w Hi).
Qed.

(** Names of new objects are fresh; children are spawned by an isolate that
    runs, into a group of their own or into the group of their parent. *)
Definition valid_call (c : IsolateCall) (w : Isolates) : Prop :=
  match c with
  | CallCreateRootIsolate i g _ _ _ _ => isolates w !! i = None ∧ groups w !! g = None
  | CallGroupCreate parent i g =>
      isolates w !! i = None ∧ groups w !! g = None ∧
      ∃ x, isolates w !! parent = Some x ∧ phase_ x = Running
  | CallInitialize i g =>
      isolates w !! i = None ∧ ∃ parent x, isolates w !! parent = Some x ∧ phase_ x = Running ∧ group_ x = g
  | CallPreparePrecompiled i | CallPrepareKernel i _ _ | CallPrepareKernels i _ | CallRun i _ _
  | CallRunFromLibrary i _ _ _
  | CallShutdown i | CallAddShutdownCallback i _ | CallOnShutdown i => is_Some (isolates w !! i)
  end.

(** Isolates never go back, and stay where they are when the call failed. *)
Definition advances (b : bool) (w w' : Isolates) : Prop :=
  ∀ i x, isolates w !! i = Some x → ∃ x', isolates w' !! i = Some x' ∧ group_ x' = group_ x ∧
    is_root_isolate_ x' = is_root_isolate_ x ∧
    phase_rank (phase_ x) ≤ phase_rank (phase_ x') ∧ (b = false → phase_ x' = phase_ x).

Lemma phase_move_le callback p p' c m : phase_move callback p p' c m → phase_rank p ≤ phase_rank p'.
Proof. destruct 1 as [p|p q|p| |p]; cbn in *; try lia. destruct p; cbn; lia. Qed.

(** Calls on an existing isolate. *)
Lemma own_call i x w (m : iso bool) :
  isolates w !! i = Some x → isolates_inv w →
  returns m w (λ b w', call_effect i w w' ∧
    (b = false → ∀ x', isolates w' !! i = Some x' → phase_ x' = phase_ x)) →
  returns m w (λ b w', isolates_inv w' ∧ advances b w w').
Proof.
  intros Hx Hi. apply returns_mono. intros b w' [He Hb]. split; [by eapply effect_inv|].
  intros j y Hy. destruct (decide (j = i)) as [->|Hne].
  - assert (y = x) as -> by congruence. destruct (effect_own _ _ _ He x Hx) as (x' & g & Hx' & _ & Hg & Hr & es & _ & Hm & _).
    exists x'. split_and!; [done..|by eapply phase_move_le|]. intros ->. by apply Hb.
  - exists y. rewrite (effect_others _ _ _ He) by done. split_and!; done || lia.
Qed.

Lemma failed_phase i x w w' :
  isolates w !! i = Some x → failed i w w' → ∀ x', isolates w' !! i = Some x' → phase_ x' = phase_ x.
Proof. intros Hx (ks & n & es & -> & _) x' Hx'. cbn in Hx'. by rewrite lookup_alter_eq, Hx in Hx'; simplify_eq/=. Qed.

(** Calls that change neither phases nor groups nor the counted events. *)
Lemma silent_effect i x g f n es w :
  isolates w !! i = Some x → groups w !! group_ x = Some g →
  group_ (f x) = group_ x → is_root_isolate_ (f x) = is_root_isolate_ x → phase_ (f x) = phase_ x →
  (∀ j, sum_list_with (creates j) es = 0 ∧ sum_list_with (mains j) es = 0) →
  call_effect i w (upd i f (groups w) n es w).
Proof.
  intros Hx Hg Hfg Hfr Hfp Hes. eapply upd_effect; try done; [|by apply same_groups|by rewrite Hfp].
  destruct (Hes i) as [-> ->]. rewrite Hfp. apply move_stay.
Qed.

Lemma set_calls_upd i n w : set_calls n w = upd i id (groups w) n [] w.
Proof. unfold upd, set_calls. rewrite app_nil_r. f_equal. symmetry. by apply alter_id. Qed.

Lemma Run_effect i x g e c w :
  isolates w !! i = Some x → groups w !! group_ x = Some g →
  returns (run_entrypoint vm i e c) w (λ b w', call_effect i w w' ∧
    (b = false → ∀ x', isolates w' !! i = Some x' → phase_ x' = phase_ x)).
Proof.
  intros Hx Hg. unfold run_entrypoint, InvokeMainEntrypoint.
  assert (Hfail : ∀ n, call_effect i w (set_calls n w) ∧
    (false = false → ∀ x', isolates (set_calls n w) !! i = Some x' → phase_ x' = phase_ x)).
  { intros n. split; [|intros _ x' Hx'; cbn in Hx'; by simplify_eq].
    rewrite (set_calls_upd i). by eapply silent_effect. }
  repeat iso_step; try apply Hfail.
  { replace w with (set_calls (vm_calls w) w) by (by destruct w). cbn. destruct w. apply Hfail. }
  split; [|done]. apply negb_false_iff, phase_is_true in Heqb.
  set (es := MainInvoked i e :: match c with Some code => [OnRun code] | None => [] end).
  match goal with |- call_effect _ _ ?w' => assert (w' = upd i (set_phase Running) (groups w) (S (S (S (vm_calls w)))) es w) as -> end.
  { unfold upd, es. cbn. f_equal. by rewrite <- app_assoc. }
  assert (Hc : ∀ j, sum_list_with (creates j) es = 0) by (intros j; by destruct c).
  assert (Hm : ∀ j, sum_list_with (mains j) es = if decide (i = j) then 1 else 0) by (intros j; destruct c; cbn; lia).
  eapply upd_effect; try done.
  - rewrite Hc, Hm, decide_True, Heqb by done. apply move_run.
  - intros j Hj. by rewrite Hc, Hm, decide_False.
  - apply same_groups.
Qed.

Lemma Precompiled_effect i x g w :
  isolates w !! i = Some x → groups w !! group_ x = Some g →
  returns (PrepareForRunningFromPrecompiledCode vm i) w (λ b w', call_effect i w w' ∧
    (b = false → ∀ x', isolates w' !! i = Some x' → phase_ x' = phase_ x)).
Proof.
  intros Hx Hg. eapply returns_mono; [|by apply (Precompiled_spec i x g)].
  intros [] w' [n Hw']; [|subst; split; [by eapply failed_effect, failed_calls|]].
  - destruct Hw' as [Hph ->]. split; [|done]. eapply upd_effect; try done.
    + destruct (create_events_count i i g) as [-> ->]. rewrite decide_True, Hph by done. apply move_ready. cbn. lia.
    + intros j Hj. destruct (create_events_count i j g) as [-> ->]. by rewrite decide_False.
    + apply alter_groups, precompiled_preparer_le.
    + intros _ _. eexists. rewrite lookup_alter_eq, Hg. by split; [|eexists].
    + apply dom_alter_L.
  - intros _. by eapply failed_phase, failed_calls.
Qed.

Lemma PrepareKernel_effect i x g mo last w :
  isolates w !! i = Some x → groups w !! group_ x = Some g →
  returns (PrepareForRunningFromKernel vm i mo last) w (λ b w', call_effect i w w' ∧
    (b = false → ∀ x', isolates w' !! i = Some x' → phase_ x' = phase_ x)).
Proof.
  intros Hx Hg. eapply returns_mono; [|by apply (PrepareKernel_spec i x g)].
  intros [] w'; [|intros Hf; split; [by eapply failed_effect|by intros _; eapply failed_phase]].
  intros (m & n & -> & Hph & ->). split; [|done].
  destruct last; [by apply kernel_ready_effect|by eapply silent_effect].
Qed.

Lemma PrepareKernels_effect i x g ks w :
  isolates w !! i = Some x → groups w !! group_ x = Some g →
  returns (PrepareForRunningFromKernels vm i ks) w (λ b w', call_effect i w w' ∧
    (b = false → ∀ x', isolates w' !! i = Some x' → phase_ x' = phase_ x)).
Proof.
  intros Hx Hg. unfold PrepareForRunningFromKernels. destruct ks as [|k ks].
  { iso_step. split; [eapply failed_effect, failed_refl; done|]. by intros _; eapply failed_phase, failed_refl. }
  eapply returns_mono; [|by apply (prepare_pieces_spec i x g)].
  intros [] w'; [|intros Hf; split; [by eapply failed_effect|by intros _; eapply failed_phase]].
  intros (l & n & Hl & Hph & ->). split; [|done]. apply kernel_ready_effect; try done. by destruct l.
Qed.

Lemma Shutdown_effect i x g w :
  isolates w !! i = Some x → groups w !! group_ x = Some g →
  returns (Shutdown i) w (λ b w', call_effect i w w' ∧
    (b = false → ∀ x', isolates w' !! i = Some x' → phase_ x' = phase_ x)).
Proof.
  intros Hx Hg. unfold Shutdown. repeat iso_step.
  - split; [by eapply failed_effect, failed_refl|by intros _; eapply failed_phase, failed_refl].
  - split; [|done].
    change (mkIsolates _ _ _ _) with (mkIsolates (alter (set_phase ShutDown) i (isolates w)) (groups w) (vm_calls w) (events w)).
    rewrite <- (app_nil_r (events w)). change (mkIsolates _ _ _ _) with (upd i (set_phase ShutDown) (groups w) (vm_calls w) [] w).
    eapply upd_effect; try done; [|apply same_groups]. apply move_shutdown. intros Hp.
    by rewrite (proj2 (phase_is_true _ _) Hp) in Heqb.
Qed.

Lemma AddCallback_effect i x g c w :
  isolates w !! i = Some x → groups w !! group_ x = Some g →
  returns (_ ← AddIsolateShutdownCallback i c; mret true) w (λ b w', call_effect i w w' ∧
    (b = false → ∀ x', isolates w' !! i = Some x' → phase_ x' = phase_ x)).
Proof.
  intros Hx Hg. unfold AddIsolateShutdownCallback. repeat iso_step. split; [|done].
  rewrite <- (app_nil_r (events w)). by eapply silent_effect.
Qed.

Lemma OnShutdown_effect i x g w :
  isolates w !! i = Some x → groups w !! group_ x = Some g →
  returns (_ ← OnShutdownCallback i; mret true) w (λ b w', call_effect i w w' ∧
    (b = false → ∀ x', isolates w' !! i = Some x' → phase_ x' = phase_ x)).
Proof.
  intros Hx Hg. unfold OnShutdownCallback. repeat iso_step. split; [|done].
  set (es := (shutdown_callbacks_ x ≫= fire i) ++
    match isolate_shutdown_callback_ g with Some code => [ShutdownCallback i code] | None => [] end).
  match goal with |- call_effect _ _ ?w' =>
    assert (w' = upd i (set_shutdown_callbacks []) (groups w) (vm_calls w) es w) as -> end.
  { unfold upd, es. cbn. by rewrite <- app_assoc. }
  eapply silent_effect; try done. intros j. unfold es. rewrite !sum_list_with_app.
  assert (Hf : ∀ l, sum_list_with (creates j) (l ≫= fire i) = 0 ∧ sum_list_with (mains j) (l ≫= fire i) = 0).
  { induction l as [|[c|] l IH]; [done|exact IH|exact IH]. }
  destruct (Hf (shutdown_callbacks_ x)) as [-> ->]. by destruct (isolate_shutdown_callback_ g).
Qed.

(** ** New isolates *)

Lemma insert_inv i x g gs n w :
  isolates_inv w → isolates w !! i = None → phase_ x = Uninitialized → groups w ⊆ gs →
  gs !! group_ x = Some g →
  (∀ g d p, gs !! g = Some d → child_isolate_preparer_ d = Some p → preparer_ok p) →
  isolates_inv (mkIsolates (<[i:=x]> (isolates w)) gs n (events w)).
Proof.
  intros Hi Hfresh Hph Hsub Hg Hpre. split; cbn.
  - intros j y Hy. destruct (decide (j = i)) as [->|Hne].
    + rewrite lookup_insert_eq in Hy. simplify_eq. exists g. split; [done|]. rewrite Hph.
      split; [by apply (inv_absent w Hi)|by intros []].
    + rewrite lookup_insert_ne in Hy by done. destruct (inv_group w Hi j y Hy) as (g' & Hg' & Hl).
      exists g'. split; [by eapply lookup_weaken|done].
  - done.
  - intros j Hj. apply lookup_insert_None in Hj as [Hj _]. by apply (inv_absent w Hi).
Qed.

Lemma create_spec i x g gs n w :
  isolates_inv w → isolates w !! i = None → phase_ x = Uninitialized → groups w ⊆ gs →
  gs !! group_ x = Some g →
  (∀ g d p, gs !! g = Some d → child_isolate_preparer_ d = Some p → preparer_ok p) →
  (is_root_isolate_ x = false → is_Some (child_isolate_preparer_ g)) →
  returns (InitializeIsolate vm i) (mkIsolates (<[i:=x]> (isolates w)) gs n (events w)) (λ b w',
    isolates_inv w' ∧ advances b w w' ∧ is_Some (isolates w' !! i) ∧
    (b = true → ∃ x' ui hooks, isolates w' !! i = Some x' ∧
      phase_ x' = (if is_root_isolate_ x then LibrariesSetup else Ready) ∧
      events w' = events w ++ LibrariesInitialized i ui hooks ::
        if is_root_isolate_ x then []
        else (LibraryLoaded i <$> default [] (preparer_kernels <$> child_isolate_preparer_ g)) ++
             create_events i g)).
Proof.
  intros Hi Hfresh Hph Hsub Hg Hpre Hroot.
  pose proof (insert_inv i x g gs n w Hi Hfresh Hph Hsub Hg Hpre) as Hi1.
  set (w1 := mkIsolates _ _ _ _) in *.
  assert (Hx1 : isolates w1 !! i = Some x) by apply lookup_insert_eq.
  eapply returns_mono; [|apply (InitializeIsolate_spec i x g)]; try done.
  - intros b w' [He Hb]. split; [by eapply effect_inv|]. split.
    + intros j y Hy. assert (j ≠ i) by congruence. exists y. rewrite (effect_others _ _ _ He) by done. cbn.
      rewrite lookup_insert_ne by done. split_and!; done || lia.
    + split; [|done]. destruct (effect_own _ _ _ He x Hx1) as (x' & _ & Hx' & _). by eexists.
  - intros Hr. destruct (Hroot Hr) as [p Hp]. exists p. split; [done|by eapply Hpre].
Qed.

Lemma calls_inv n w : isolates_inv w → isolates_inv (set_calls n w).
Proof. by intros []. Qed.

Lemma advances_refl b w : advances b w w.
Proof. intros i x Hx. exists x. split_and!; done || lia. Qed.

Lemma CreateDartIsolateGroup_spec i x g group w :
  isolates_inv w → isolates w !! i = None → groups w !! g = None → group_ x = g →
  phase_ x = Uninitialized →
  (∀ p, child_isolate_preparer_ group = Some p → preparer_ok p) →
  (is_root_isolate_ x = false → is_Some (child_isolate_preparer_ group)) →
  returns (CreateDartIsolateGroup vm i x g group) w (λ b w',
    isolates_inv w' ∧ advances b w w' ∧
    (b = true → ∃ x' ui hooks, isolates w' !! i = Some x' ∧
      phase_ x' = (if is_root_isolate_ x then LibrariesSetup else Ready) ∧
      events w' = events w ++ LibrariesInitialized i ui hooks ::
        if is_root_isolate_ x then []
        else (LibraryLoaded i <$> default [] (preparer_kernels <$> child_isolate_preparer_ group)) ++
             create_events i group)).
Proof.
  intros Hi Hfresh Hgf Hgx Hph Hok Hroot. unfold CreateDartIsolateGroup.
  iso_step. iso_step. iso_step; [iso_step; split; [by apply calls_inv|split; [exact (advances_refl false w)|done]]|].
  do 4 iso_step. eapply returns_mono; [|apply (create_spec i x group _ _ w)]; try done.
  - intros b w' (? & ? & _ & ?). done.
  - by apply insert_subseteq.
  - rewrite Hgx. apply lookup_insert_eq.
  - intros g' d p Hd Hp. cbn in Hd. destruct (decide (g' = g)) as [->|Hne].
    + rewrite lookup_insert_eq in Hd. simplify_eq. by apply Hok.
    + rewrite lookup_insert_ne in Hd by done. by eapply (inv_preparers w Hi).
Qed.

Lemma CreateRootIsolate_spec i g ui window cr sh w :
  isolates_inv w → isolates w !! i = None → groups w !! g = None →
  returns (CreateRootIsolate vm i g ui window cr sh) w (λ b w', isolates_inv w' ∧ advances b w w' ∧
    (b = true → ∃ x, isolates w' !! i = Some x ∧ phase_ x = LibrariesSetup ∧ (window = true → window_ x = true))).
Proof.
  intros Hi Hf Hg. unfold CreateRootIsolate. iso_step.
  eapply returns_mono; [|apply (CreateDartIsolateGroup_spec i (fresh_isolate true ui g) g (mkGroup None cr sh))]; try done.
  intros b w1 (Hi1 & Ha1 & Hb). cbn beta. destruct b; cbn [negb]; [|by iso_step].
  destruct (Hb eq_refl) as (x & u & h & Hx & Hph & _).
  destruct window; iso_step; [|repeat iso_step; split_and!; [done..|]; intros _; by exists x]. iso_step. iso_step.
  destruct (inv_group w1 Hi1 i x Hx) as (gx & Hgx & _).
  assert (He : call_effect i w1 (upd i SetWindow (groups w1) (vm_calls w1) [] w1)) by by eapply silent_effect.
  unfold upd in He. rewrite app_nil_r in He. split_and!; [by eapply effect_inv| |].
  - intros j y Hy. destruct (Ha1 j y Hy) as (y1 & Hy1 & ? & ? & ? & ?).
    assert (j ≠ i) by congruence. exists y1. cbn. by rewrite lookup_alter_ne.
  - intros _. exists (SetWindow x). cbn. by rewrite lookup_alter_eq, Hx.
Qed.

(** The answer of every valid call: it returns, keeps the invariant and moves
    the isolates forward. *)
Lemma isolate_call_spec c w :
  isolates_inv w → valid_call c w →
  returns (isolate_call vm c) w (λ b w', isolates_inv w' ∧ advances b w w').
Proof.
  intros Hi Hv.
  assert (Hown : ∀ i, is_Some (isolates w !! i) → ∃ x g, isolates w !! i = Some x ∧ groups w !! group_ x = Some g).
  { intros i [x Hx]. destruct (inv_group w Hi i x Hx) as (g & Hg & _). by exists x, g. }
  destruct c as [i g ui window cr sh|parent i g|i g|i|i m last|i ks|i e c|i lib e c|i|i c|i]; cbn [isolate_call valid_call] in *.
  - destruct Hv as [Hf Hg]. eapply returns_mono; [|by apply CreateRootIsolate_spec]. naive_solver.
  - destruct Hv as (Hf & Hg & x & Hx & Hrun). unfold DartIsolateGroupCreateCallback. iso_step. iso_step. iso_step.
    destruct (inv_group w Hi parent x Hx) as (gx & Hgx & _ & Hp). eapply returns_group; [done|]. cbn beta.
    eapply returns_mono; [|apply (CreateDartIsolateGroup_spec i (fresh_isolate false false g) g gx)]; try done.
    + intros b w' (? & ? & _). done.
    + intros p. by eapply (inv_preparers w Hi).
    + intros _. apply Hp. by right.
  - destruct Hv as (Hf & parent & x & Hx & Hrun & Hgg). unfold DartIsolateInitializeCallback.
    destruct (inv_group w Hi parent x Hx) as (gx & Hgx & _ & Hp). rewrite Hgg in Hgx.
    iso_step. eapply returns_group; [done|]. cbn beta. iso_step. iso_step.
    eapply returns_mono; [|apply (create_spec i (fresh_isolate false false g) gx (groups w) _ w)]; try done.
    + intros b w' (? & ? & _). done.
    + intros g' d p. by apply (inv_preparers w Hi).
    + intros _. apply Hp. by right.
  - destruct (Hown i Hv) as (x & g & Hx & Hg). eapply own_call; [done..|]. by eapply Precompiled_effect.
  - destruct (Hown i Hv) as (x & g & Hx & Hg). eapply own_call; [done..|]. by eapply PrepareKernel_effect.
  - destruct (Hown i Hv) as (x & g & Hx & Hg). eapply own_call; [done..|]. by eapply PrepareKernels_effect.
  - destruct (Hown i Hv) as (x & g & Hx & Hg). eapply own_call; [done..|]. by eapply Run_effect.
  - destruct (Hown i Hv) as (x & g & Hx & Hg). eapply own_call; [done..|]. by eapply Run_effect.
  - destruct (Hown i Hv) as (x & g & Hx & Hg). eapply own_call; [done..|]. by eapply Shutdown_effect.
  - destruct (Hown i Hv) as (x & g & Hx & Hg). eapply own_call; [done..|]. by eapply AddCallback_effect.
  - destruct (Hown i Hv) as (x & g & Hx & Hg). eapply own_call; [done..|]. by eapply OnShutdown_effect.
Qed.

(** Runs of valid calls. *)
Inductive isolate_run : Isolates → Isolates → Prop :=
  | run_done w : isolate_run w w
  | run_call c w b w1 w2 :
      valid_call c w → isolate_call vm c w ⇓ (b, w1) → isolate_run w1 w2 → isolate_run w w2.

Definition no_isolates : Isolates := mkIsolates ∅ ∅ 0 [].

Lemma isolate_run_inv w w' : isolate_run w w' → isolates_inv w → isolates_inv w'.
Proof.
  induction 1 as [|c w b w1 w2 Hv Hc _ IH]; [done|]. intros Hi. apply IH.
  destruct (isolate_call_spec c w Hi Hv) as (b' & w' & Hc' & Hi' & _). rewrite Hc in Hc'. by simplify_eq.
Qed.

Lemma isolate_run_advances w w' :
  isolate_run w w' → isolates_inv w → ∀ i x, isolates w !! i = Some x →
  ∃ x', isolates w' !! i = Some x' ∧ group_ x' = group_ x ∧ phase_rank (phase_ x) ≤ phase_rank (phase_ x').
Proof.
  induction 1 as [|c w b w1 w2 Hv Hc _ IH]; intros Hi i x Hx; [by exists x|].
  destruct (isolate_call_spec c w Hi Hv) as (b' & w' & Hc' & Hi' & Ha). rewrite Hc in Hc'. simplify_eq.
  destruct (Ha i x Hx) as (x1 & Hx1 & Hg1 & _ & Hle & _).
  destruct (IH Hi' i x1 Hx1) as (x2 & Hx2 & Hg2 & Hle2). exists x2. split_and!; [done|congruence|lia].
Qed.

Lemma no_isolates_inv : isolates_inv no_isolates.
Proof. split; cbn; [intros i x; by rewrite lookup_empty|intros g d p; by rewrite lookup_empty|done]. Qed.

(** ** Claims *)

(** C12: Whatever the VM answers, a valid call in a run never faults; it moves
    isolates only forward in the order of the phases and leaves every phase
    as it is when it reports failure.  In every run the create callback of an
    isolate's group and its entry point run at most once: none before it is
    ready, the callback exactly when it became ready, the entry point exactly
    when it runs. *)
Theorem isolate_lifecycle w c :
  isolate_run no_isolates w → valid_call c w →
  (∃ b w', isolate_call vm c w ⇓ (b, w') ∧ advances b w w') ∧
  ∀ i x, isolates w !! i = Some x →
    ∃ g, groups w !! group_ x = Some g ∧
      life (phase_ x) (has_callback g) (sum_list_with (creates i) (events w)) (sum_list_with (mains i) (events w)).
Proof.
  intros Hr Hv. pose proof (isolate_run_inv _ _ Hr no_isolates_inv) as Hi. split.
  - destruct (isolate_call_spec c w Hi Hv) as (b & w' & Hc & _ & Ha). eauto.
  - intros i x Hx. destruct (inv_group w Hi i x Hx) as (g & Hg & Hl & _). eauto.
Qed.


(** ** Child isolates *)

(** [child] became ready in [w'] after it loaded the kernels [ks]. *)
Definition ready_with (child : nat) (ks : list Mapping) (g : GroupData) (w w' : Isolates) : Prop :=
  ∃ ui hooks y, isolates w' !! child = Some y ∧ phase_ y = Ready ∧
    events w' = events w ++ LibrariesInitialized child ui hooks ::
      (LibraryLoaded child <$> ks) ++ create_events child g.

Lemma group_create_ready i y g ks w child gr :
  isolates_inv w → isolates w !! i = Some y → groups w !! group_ y = Some g →
  child_isolate_preparer_ g = Some (PrepareFromBuffers ks) →
  isolates w !! child = None → groups w !! gr = None →
  returns (DartIsolateGroupCreateCallback vm i child gr) w (λ b w', b = true → ready_with child ks g w w').
Proof.
  intros Hi Hy Hg Hp Hf Hgf. unfold DartIsolateGroupCreateCallback. do 3 iso_step.
  eapply returns_group; [done|]. cbn beta.
  eapply returns_mono; [|apply (CreateDartIsolateGroup_spec child (fresh_isolate false false gr) gr)]; try done.
  - intros b w' (_ & _ & Hb) Htrue. destruct (Hb Htrue) as (z & ui & hooks & ? & ? & He).
    exists ui, hooks, z. cbn in He. by rewrite Hp in He.
  - intros p Hp'. by eapply (inv_preparers w Hi).
Qed.

Lemma initialize_ready g ks w child gr :
  isolates_inv w → groups w !! gr = Some g → child_isolate_preparer_ g = Some (PrepareFromBuffers ks) →
  isolates w !! child = None →
  returns (DartIsolateInitializeCallback vm child gr) w (λ b w', b = true → ready_with child ks g w w').
Proof.
  intros Hi Hg Hp Hf. unfold DartIsolateInitializeCallback. iso_step.
  eapply returns_group; [done|]. cbn beta. do 2 iso_step.
  eapply returns_mono; [|apply (create_spec child (fresh_isolate false false gr) g (groups w) _ w)]; try done.
  - intros b w' (_ & _ & _ & Hb) Htrue. destruct (Hb Htrue) as (z & ui & hooks & ? & ? & He).
    exists ui, hooks, z. cbn in He. by rewrite Hp in He.
  - intros g' d p. by apply (inv_preparers w Hi).
Qed.

(** The first preparation from kernels leaves them as the preparer of the group. *)
Lemma prepared_kernels i x g ks w w1 :
  isolates_inv w → isolates w !! i = Some x → groups w !! group_ x = Some g →
  kernel_buffers_ x = [] → child_isolate_preparer_ g = None →
  PrepareForRunningFromKernels vm i (Some <$> ks) w ⇓ (true, w1) →
  isolates_inv w1 ∧ groups w1 !! group_ x = Some (SetChildIsolatePreparer (PrepareFromBuffers ks) g) ∧
  ∃ x1, isolates w1 !! i = Some x1 ∧ group_ x1 = group_ x.
Proof.
  intros Hi Hx Hg Hbuf Hnone Hprep. destruct ks as [|k ks]; [done|].
  cbn [PrepareForRunningFromKernels fmap list_fmap] in Hprep.
  destruct (prepare_pieces_spec i x g (Some <$> k :: ks) w Hx Hg) as (b & w' & Hp & Hb); [done|].
  change (prepare_pieces vm i (Some <$> k :: ks) w = Ok (true, w1)) in Hprep.
  rewrite Hp in Hprep. simplify_eq.
  destruct Hb as (l & n & Hl & Hph & ->). apply (inj (fmap Some)) in Hl as <-. split_and!.
  - eapply effect_inv; [by apply kernel_ready_effect|done|done].
  - cbn. rewrite lookup_alter_eq, Hg, Hbuf. cbn. unfold ensure_preparer. by rewrite Hnone.
  - exists (set_phase Ready (push_kernels (k :: ks) x)). cbn. by rewrite lookup_alter_eq, Hx.
Qed.

(** A spawned isolate loads what its parent was prepared from: after a root
    isolate was prepared from [ks], a child of it, in a group of its own or
    in the group of the parent, becomes ready only after it loaded exactly
    [ks], in this order. *)
Theorem children_load_parent_kernels i x g ks w w1 w2 w3 child gr (own_group : bool) :
  let call := if own_group then CallGroupCreate i child gr else CallInitialize child (group_ x) in
  isolate_run no_isolates w → isolates w !! i = Some x → groups w !! group_ x = Some g →
  kernel_buffers_ x = [] → child_isolate_preparer_ g = None →
  PrepareForRunningFromKernels vm i (Some <$> ks) w ⇓ (true, w1) →
  isolate_run w1 w2 → groups w2 !! group_ x = groups w1 !! group_ x →
  valid_call call w2 → isolate_call vm call w2 ⇓ (true, w3) →
  ready_with child ks g w2 w3.
Proof.
  intros call Hr0 Hx Hg Hbuf Hnone Hprep Hr Hsame Hv Hcall.
  destruct (prepared_kernels i x g ks w w1) as (Hi1 & Hg1 & x1 & Hx1 & Hgx1); try done.
  { by eapply isolate_run_inv, no_isolates_inv. }
  pose proof (isolate_run_inv _ _ Hr Hi1) as Hi2. rewrite <- Hsame in Hg1. clear Hsame.
  set (g2 := SetChildIsolatePreparer (PrepareFromBuffers ks) g) in *.
  change (ready_with child ks g2 w2 w3).
  destruct own_group; cbn [isolate_call valid_call call] in *.
  - destruct Hv as (Hf & Hgf & _).
    destruct (isolate_run_advances _ _ Hr Hi1 i _ Hx1) as (y & Hy & Hgy & _).
    destruct (group_create_ready i y g2 ks w2 child gr) as (b & w' & Hc & Hb); try done; [by rewrite Hgy, Hgx1|].
    rewrite Hcall in Hc. simplify_eq. by apply Hb.
  - destruct Hv as (Hf & _).
    destruct (initialize_ready g2 ks w2 child (group_ x)) as (b & w' & Hc & Hb); try done.
    rewrite Hcall in Hc. simplify_eq. by apply Hb.
Qed.
End proofs.

(** ** Witnesses *)

Definition debug_mode : Build := {| debug := true |}.

(** A VM in which everything works and which runs no precompiled code. *)
Definition good_vm (_ : nat) (q : VmQuery) : bool :=
  match q with
  | QIsServiceIsolate | QRootLibraryIsNull | QIsRunningPrecompiledCode => false
  | _ => true
  end.

Definition run_calls (cs : list IsolateCall) (w : Isolates) : Isolates :=
  foldl (λ w c, match @isolate_call debug_mode good_vm c w with Ok (_, w') => w' | Fault _ => w end) w cs.

Definition two_kernels : list Mapping := [mkMapping "main"; mkMapping "ui"].
Definition root_created : Isolates :=
  run_calls [CallCreateRootIsolate 0 0 true true (Some 7) None] no_isolates.
Definition root_ready : Isolates := run_calls [CallPrepareKernels 0 (Some <$> two_kernels)] root_created.
Definition root_running : Isolates := run_calls [CallRun 0 "main" None] root_ready.
Definition child_ready : Isolates := run_calls [CallGroupCreate 0 1 1] root_running.

Lemma root_created_run : @isolate_run debug_mode good_vm no_isolates root_created.
Proof.
  apply (@run_call debug_mode good_vm (CallCreateRootIsolate 0 0 true true (Some 7) None) _ true root_created).
  - done.
  - vm_compute. reflexivity.
  - apply run_done.
Qed.

Lemma root_running_run : @isolate_run debug_mode good_vm root_ready root_running.
Proof.
  apply (@run_call debug_mode good_vm (CallRun 0 "main" None) _ true root_running).
  - vm_compute. by eexists.
  - vm_compute. reflexivity.
  - apply run_done.
Qed.

Lemma isolate_lifecycle_witness :
  (∃ b w', @isolate_call debug_mode good_vm (CallPrepareKernels 0 (Some <$> two_kernels)) root_created ⇓ (b, w') ∧
    advances b root_created w') ∧
  phase_ <$> isolates root_running !! 0 = Some Running.
Proof.
  split; [|vm_compute; reflexivity].
  apply (@isolate_lifecycle debug_mode good_vm root_created (CallPrepareKernels 0 (Some <$> two_kernels)) root_created_run).
  vm_compute. by eexists.
Defined.

Lemma children_load_parent_kernels_witness :
  ready_with 1 two_kernels (mkGroup None (Some 7) None) root_running child_ready.
Proof.
  pose proof (@children_load_parent_kernels debug_mode good_vm 0
    (mkIsolate LibrariesSetup true true true 0 true [] [] true) (mkGroup None (Some 7) None)
    two_kernels root_created root_ready root_running child_ready 1 1 true) as Hc.
  apply Hc; clear Hc.
  - exact root_created_run.
  - vm_compute. reflexivity.
  - vm_compute. reflexivity.
  - reflexivity.
  - reflexivity.
  - vm_compute. reflexivity.
  - exact root_running_run.
  - vm_compute. reflexivity.
  - vm_compute. split_and!; [reflexivity..|by eexists].
  - vm_compute. reflexivity.
Defined.
