(* ===== verification/Assets.v ===== *)
(** * Assets: finding assets and configuring a run

    Models of [AssetManager] (assets/asset_manager.cc), of the isolate
    configurations (shell/common/isolate_configuration.cc) and of
    [RunConfiguration] (shell/common/run_configuration.cc).  An asset
    resolver is what [AssetResolver] promises: whether it is valid and which
    mapping it has under a name; the resolvers that read directories and
    archives are instances of it.  The futures of a kernel list are the values
    the worker fulfills them with. *)

From Stdlib Require Import ZArith Lia Ascii.
From stdpp Require Import base numbers list gmap fin_maps relations strings.
From S2P Require Import Prelude TaskQueues DartIsolate DartIsolateProofs.

(** ** AssetManager *)

Record AssetResolver := mkResolver {
  resolver_IsValid : bool;
  resolver_GetAsMapping : string → option Mapping;
}.

(** A manager at an address, by which shared pointers to it are compared. *)
Record AssetManager := mkAssetManager {
  address : nat;
  resolvers_ : list AssetResolver;
}.

Definition usable (resolver : option AssetResolver) : bool :=
  match resolver with None => false | Some r => resolver_IsValid r end.

Definition PushFront (resolver : option AssetResolver) (m : AssetManager) : AssetManager :=
  match resolver with
  | Some r => if usable resolver then mkAssetManager (address m) (r :: resolvers_ m) else m
  | None => m
  end.

Definition PushBack (resolver : option AssetResolver) (m : AssetManager) : AssetManager :=
  match resolver with
  | Some r => if usable resolver then mkAssetManager (address m) (resolvers_ m ++ [r]) else m
  | None => m
  end.

Fixpoint first_mapping (resolvers : list AssetResolver) (asset_name : string) : option Mapping :=
  match resolvers with
  | [] => None
  | r :: resolvers =>
      match resolver_GetAsMapping r asset_name with
      | Some mapping => Some mapping
      | None => first_mapping resolvers asset_name
      end
  end.

Definition GetAsMapping (asset_name : string) (m : AssetManager) : option Mapping :=
  if (String.length asset_name =? 0)%nat then None else first_mapping (resolvers_ m) asset_name.

Definition asset_manager_IsValid (m : AssetManager) : bool := (0 <? length (resolvers_ m))%nat.

(** ** Kernel lists *)

Definition newline : ascii := "010"%char.

(** The inner loop: the end of the piece that starts at [piece_path_end]. *)
Fixpoint piece_end (fuel : nat) (kernel_list : list ascii) (piece_path_end : nat) : result nat :=
  match fuel with
  | 0 => Fault OutOfFuel
  | S fuel =>
      if ((piece_path_end <? length kernel_list)%nat &&
          negb (bool_decide (kernel_list !! piece_path_end = Some newline)))%bool
      then piece_end fuel kernel_list (S piece_path_end)
      else Ok piece_path_end
  end.

Fixpoint parse_pieces (fuel : nat) (kernel_list : list ascii) (piece_path_start : nat)
    (kernel_pieces_paths : list (list ascii)) : result (list (list ascii)) :=
  match fuel with
  | 0 => Fault OutOfFuel
  | S fuel =>
      if (piece_path_start <? length kernel_list)%nat then
        piece_path_end ← piece_end (S (length kernel_list)) kernel_list piece_path_start;
        parse_pieces fuel kernel_list (S piece_path_end)
          (kernel_pieces_paths ++ [take (piece_path_end - piece_path_start) (drop piece_path_start kernel_list)])
      else Ok kernel_pieces_paths
  end.

Definition ParseKernelListPaths (kernel_list : list ascii) : result (list (list ascii)) :=
  parse_pieces (S (length kernel_list)) kernel_list 0 [].

(** ** Isolate configurations *)

Inductive IsolateConfiguration :=
  | AppSnapshotIsolateConfiguration
  | KernelIsolateConfiguration (kernel_ : option Mapping)
  | KernelListIsolateConfiguration (kernel_pieces_ : list (option Mapping)).

(** The settings that choose one. *)
Record KernelSettings := mkKernelSettings {
  application_kernels : option (list (option Mapping));
  application_kernel_asset : string;
  application_kernel_list_asset : string;
}.

Definition PrepareKernelMappings (kernel_pieces_paths : list string) (asset_manager : AssetManager)
    : list (option Mapping) :=
  (λ path, GetAsMapping path asset_manager) <$> kernel_pieces_paths.

Definition lift_result {A} (m : result A) : iso A :=
  λ w, match m with Ok a => Ok (a, w) | Fault e => Fault e end.

Section configuration.
Context (vm : nat → VmQuery → bool).

Definition InferFromSettings (settings : KernelSettings) (asset_manager : option AssetManager)
    : iso (option IsolateConfiguration) :=
  precompiled ← ask vm QIsRunningPrecompiledCode;
  if (precompiled : bool) then mret (Some AppSnapshotIsolateConfiguration)
  else
    match asset_manager, application_kernels settings with
    | None, _ => mret None
    | Some _, Some kernels => mret (Some (KernelListIsolateConfiguration kernels))
    | Some m, None =>
        if ((String.length (application_kernel_asset settings) =? 0)%nat &&
            (String.length (application_kernel_list_asset settings) =? 0)%nat)%bool then mret None
        else
          match GetAsMapping (application_kernel_asset settings) m with
          | Some kernel => mret (Some (KernelIsolateConfiguration (Some kernel)))
          | None =>
              match GetAsMapping (application_kernel_list_asset settings) m with
              | None => mret None
              | Some kernel_list =>
                  paths ← lift_result (ParseKernelListPaths (String.list_ascii_of_string (GetMapping kernel_list)));
                  mret (Some (KernelListIsolateConfiguration
                    (PrepareKernelMappings (String.string_of_list_ascii <$> paths) m)))
              end
          end
    end.

Definition DoPrepareIsolate (c : IsolateConfiguration) (i : nat) : iso bool :=
  match c with
  | AppSnapshotIsolateConfiguration => PrepareForRunningFromPrecompiledCode vm i
  | KernelIsolateConfiguration kernel =>
      precompiled ← ask vm QIsRunningPrecompiledCode;
      if (precompiled : bool) then mret false else PrepareForRunningFromKernel vm i kernel true
  | KernelListIsolateConfiguration pieces =>
      precompiled ← ask vm QIsRunningPrecompiledCode;
      if (precompiled : bool) then mret false else prepare_pieces vm i pieces
  end.

Definition PrepareIsolate (c : IsolateConfiguration) (i : nat) : iso bool :=
  x ← get_isolate i;
  if negb (phase_is LibrariesSetup x) then mret false else DoPrepareIsolate c i.
End configuration.

(** ** RunConfiguration *)

Record RunConfiguration := mkRunConfiguration {
  isolate_configuration_ : option IsolateConfiguration;
  run_asset_manager_ : option AssetManager;
  entrypoint_ : string;
  entrypoint_library_ : string;
}.

Definition new_run_configuration (configuration : option IsolateConfiguration)
    (asset_manager : option AssetManager) : RunConfiguration :=
  mkRunConfiguration configuration asset_manager "main" "".

Definition configuration_IsValid (c : RunConfiguration) : bool :=
  bool_decide (is_Some (run_asset_manager_ c)) && bool_decide (is_Some (isolate_configuration_ c)).

Definition AddAssetResolver (resolver : option AssetResolver) (c : RunConfiguration)
    : result (bool * RunConfiguration) :=
  if negb (usable resolver) then mret (false, c)
  else
    m ← of_option NullDeref (run_asset_manager_ c);
    mret (true, mkRunConfiguration (isolate_configuration_ c) (Some (PushBack resolver m))
                  (entrypoint_ c) (entrypoint_library_ c)).

Definition SetEntrypoint (entrypoint : string) (c : RunConfiguration) : RunConfiguration :=
  mkRunConfiguration (isolate_configuration_ c) (run_asset_manager_ c) entrypoint (entrypoint_library_ c).

Definition SetEntrypointAndLibrary (entrypoint library : string) (c : RunConfiguration) : RunConfiguration :=
  mkRunConfiguration (isolate_configuration_ c) (run_asset_manager_ c) entrypoint library.

(** The configuration of a new manager, at [new_address], of the directories
    of the settings: [assets_dir] when the settings have one, [assets_path]. *)
Definition RunConfiguration_InferFromSettings (vm : nat → VmQuery → bool)
    (settings : KernelSettings) (new_address : nat) (assets_dir : option AssetResolver)
    (assets_path : AssetResolver) : iso RunConfiguration :=
  let m := PushBack (Some assets_path) (PushBack assets_dir (mkAssetManager new_address [])) in
  c ← InferFromSettings vm settings (Some m);
  mret (new_run_configuration c (Some m)).

(** ** Proofs *)

(** A file of lines, and what a parser of lines makes of a rest. *)
Definition lines (ps : list (list ascii)) : list ascii := mjoin ((.++ [newline]) <$> ps).
Definition last_line (rest : list ascii) : list (list ascii) := match rest with [] => [] | _ => [rest] end.

Lemma lines_cons p ps : lines (p :: ps) = p ++ newline :: lines ps.
Proof. unfold lines. cbn. by rewrite <- app_assoc. Qed.

(** The scan stops at the end of a piece, and not before. *)
Lemma piece_end_spec fuel pre piece rest :
  newline ∉ piece → head rest = Some newline ∨ rest = [] → length piece < fuel →
  piece_end fuel (pre ++ piece ++ rest) (length pre) ⇓ length pre + length piece.
Proof.
  revert fuel pre. induction piece as [|c piece IH]; intros [|fuel] pre Hp Hr Hf; cbn in Hf; try lia; cbn [piece_end].
  - rewrite Nat.add_0_r, length_app. destruct Hr as [Hr|Hr].
    + destruct rest as [|c rest]; [done|]. cbn in Hr. simplify_eq. rewrite lookup_app_r, Nat.sub_diag by lia. cbn [app lookup list_lookup].
      rewrite bool_decide_eq_true_2 by done. by rewrite andb_false_r.
    + subst rest. cbn [app length]. by rewrite Nat.add_0_r, Nat.ltb_irrefl.
  - apply not_elem_of_cons in Hp as [Hc Hp].
    rewrite (proj2 (Nat.ltb_lt _ _)) by (rewrite !length_app; cbn; lia).
    rewrite lookup_app_r, Nat.sub_diag by lia. cbn [lookup list_lookup app].
    rewrite bool_decide_eq_false_2 by (intros ?; simplify_eq). cbn [negb andb].
    specialize (IH fuel (pre ++ [c]) Hp Hr ltac:(lia)).
    rewrite length_app, <- app_assoc in IH. cbn in IH. rewrite Nat.add_1_r in IH.
    rewrite IH. f_equal. cbn. lia.
Qed.

Lemma parse_pieces_step fuel pre piece rest acc :
  newline ∉ piece → head rest = Some newline ∨ rest = [] → piece ++ rest ≠ [] →
  parse_pieces (S fuel) (pre ++ piece ++ rest) (length pre) acc =
    parse_pieces fuel (pre ++ piece ++ rest) (S (length pre + length piece)) (acc ++ [piece]).
Proof.
  intros Hp Hr Hne. cbn [parse_pieces].
  assert (0 < length (piece ++ rest)) by (by destruct (piece ++ rest); [|cbn; lia]).
  rewrite (proj2 (Nat.ltb_lt _ _)) by (rewrite length_app; lia).
  rewrite piece_end_spec; [|done..|rewrite !length_app; lia]. cbn [mbind result_bind].
  rewrite drop_app_length, Nat.add_comm, Nat.add_sub, take_app_length. done.
Qed.

Lemma parse_pieces_spec ps : ∀ fuel pre rest acc,
  Forall (newline ∉.) ps → newline ∉ rest → length (lines ps ++ rest) < fuel →
  parse_pieces fuel (pre ++ lines ps ++ rest) (length pre) acc ⇓ acc ++ ps ++ last_line rest.
Proof.
  induction ps as [|p ps IH]; intros fuel pre rest acc Hps Hr Hf.
  - destruct rest as [|c rest].
    + destruct fuel; [cbn in Hf; lia|]. cbn [lines fmap list_fmap mjoin list_join app parse_pieces last_line].
      by rewrite !app_nil_r, Nat.ltb_irrefl.
    + destruct fuel as [|[|fuel]]; [cbn in Hf; lia..|].
      pose proof (parse_pieces_step (S fuel) pre (c :: rest) [] acc Hr (or_intror eq_refl)) as Hstep.
      rewrite app_nil_r in Hstep. cbn [lines fmap list_fmap mjoin list_join app]. rewrite Hstep by done.
      cbn [parse_pieces]. rewrite (proj2 (Nat.ltb_ge _ _)) by (rewrite length_app; lia). done.
  - inversion_clear Hps. destruct fuel; [lia|]. rewrite lines_cons, <- app_assoc, <- app_comm_cons in *.
    rewrite parse_pieces_step; [|done|by left|by destruct p].
    pose proof (IH fuel (pre ++ p ++ [newline]) rest (acc ++ [p])) as Hi.
    rewrite !length_app, <- !app_assoc in Hi. cbn in Hi. rewrite length_app in Hf. cbn in Hf.
    rewrite Nat.add_1_r, Nat.add_succ_r, <- plus_Sn_m in Hi. cbn in *. rewrite Hi; [done|done|done|]. rewrite length_app in *. lia.
Qed.

Lemma ParseKernelListPaths_spec ps rest :
  Forall (newline ∉.) ps → newline ∉ rest →
  ParseKernelListPaths (lines ps ++ rest) ⇓ ps ++ last_line rest.
Proof. intros. apply (parse_pieces_spec ps _ [] rest []); [done..|lia]. Qed.

(** Every byte string is some lines and a rest without a newline. *)
Lemma lines_decompose l : ∃ ps rest, l = lines ps ++ rest ∧ Forall (newline ∉.) ps ∧ newline ∉ rest.
Proof.
  induction l as [|c l (ps & rest & -> & Hps & Hr)]; [exists [], []; split_and!; [done..|apply not_elem_of_nil]|].
  destruct (decide (c = newline)) as [->|Hc].
  - exists ([] :: ps), rest. split_and!; [done| |done]. constructor; [apply not_elem_of_nil|done].
  - destruct ps as [|p ps].
    + exists [], (c :: rest). split_and!; [done..|]. apply not_elem_of_cons. naive_solver.
    + inversion_clear Hps. exists ((c :: p) :: ps), rest. split_and!; [done| |done].
      constructor; [|done]. apply not_elem_of_cons. naive_solver.
Qed.

(** Parsing a kernel list always terminates and gives its lines: writing the
    paths back, one per line, restores the list, up to a newline missing at
    its end, and no path contains a newline. *)
Theorem kernel_list_roundtrip kernel_list :
  ∃ paths, ParseKernelListPaths kernel_list ⇓ paths ∧ Forall (newline ∉.) paths ∧
    (lines paths = kernel_list ∨ lines paths = kernel_list ++ [newline]).
Proof.
  destruct (lines_decompose kernel_list) as (ps & rest & -> & Hps & Hr).
  exists (ps ++ last_line rest). split; [by apply ParseKernelListPaths_spec|].
  assert (Hjoin : ∀ l, lines (ps ++ l) = lines ps ++ lines l).
  { intros l. unfold lines. by rewrite fmap_app, join_app. }
  rewrite Hjoin. destruct rest as [|c rest]; cbn [last_line].
  - rewrite !app_nil_r. auto.
  - split; [by apply Forall_app; split; [|repeat constructor]|]. right.
    by rewrite lines_cons, <- app_assoc.
Qed.

Section claims.
Context (vm : nat → VmQuery → bool).

(** Inferring a configuration from the settings and preparing the isolate. *)
Definition infer_and_prepare (settings : KernelSettings) (m : AssetManager) (i : nat) : iso bool :=
  c ← InferFromSettings vm settings (Some m);
  match c with Some c => PrepareIsolate vm c i | None => mret false end.

Lemma returns_lift {A} (m : result A) a w Q : m ⇓ a → Q a w → returns (lift_result m) w Q.
Proof. intros -> HQ. by exists a, w. Qed.

(** A bundle with a kernel list, and no single kernel, prepares the isolate
    from the assets the list names: preparing returns, and when it succeeds
    every path of the list was found and the isolate, ready now, has loaded
    the mappings in the order of the list. *)
Theorem kernel_list_prepares settings m i x g kernel_list ps w :
  isolates w !! i = Some x → groups w !! group_ x = Some g →
  vm (vm_calls w) QIsRunningPrecompiledCode = false →
  application_kernels settings = None →
  GetAsMapping (application_kernel_asset settings) m = None →
  GetAsMapping (application_kernel_list_asset settings) m = Some kernel_list →
  String.list_ascii_of_string (GetMapping kernel_list) = lines ps → ps ≠ [] → Forall (newline ∉.) ps →
  returns (infer_and_prepare settings m i) w (λ b w', b = true → ∃ ks,
    (λ p, GetAsMapping (String.string_of_list_ascii p) m) <$> ps = Some <$> ks ∧
    phase_ <$> isolates w' !! i = Some Ready ∧
    events w' = events w ++ (LibraryLoaded i <$> ks) ++ create_events i g).
Proof.
  intros Hx Hg Hvm Hak Hk Hl Hbytes Hne Hps. unfold infer_and_prepare, InferFromSettings.
  apply returns_bind, returns_bind, returns_ask. rewrite Hvm, Hak, Hk, Hl, Hbytes.
  assert (Hempty : (String.length (application_kernel_list_asset settings) =? 0)%nat = false).
  { unfold GetAsMapping in Hl. by destruct (_ =? 0)%nat. }
  rewrite Hempty, andb_false_r. apply returns_bind. eapply returns_lift.
  { rewrite <- (app_nil_r (lines ps)). apply ParseKernelListPaths_spec; [done|apply not_elem_of_nil]. }
  rewrite app_nil_r. apply returns_ret. unfold PrepareIsolate, DoPrepareIsolate.
  apply returns_bind. eapply returns_get; [done|]. cbn beta.
  destruct (phase_is LibrariesSetup x); cbn [negb]; [|by apply returns_ret].
  apply returns_bind, returns_ask. case_match; [by apply returns_ret|].
  eapply returns_mono; [|eapply (prepare_pieces_spec vm i x g)]; [|done..|by destruct ps].
  intros b w' Hb ->. destruct Hb as (ks & n & Hks & _ & ->). exists ks. split_and!.
  - rewrite <- Hks. unfold PrepareKernelMappings. by rewrite <- list_fmap_compose.
  - cbn. by rewrite lookup_alter_eq, Hx.
  - done.
Qed.
End claims.

(** ** Witness *)

Definition bundle : AssetManager :=
  mkAssetManager 0 [mkResolver true (λ name,
    if bool_decide (name = "kernels") then
      Some (mkMapping (String.string_of_list_ascii (lines [["a"%char]; ["b"%char]])))
    else if bool_decide (name = "a") then Some (mkMapping "first")
    else if bool_decide (name = "b") then Some (mkMapping "second") else None)].

Lemma kernel_list_prepares_witness :
  ∃ w', infer_and_prepare good_vm (mkKernelSettings None "" "kernels") bundle 0 root_created ⇓ (true, w') ∧
    phase_ <$> isolates w' !! 0 = Some Ready.
Proof.
  destruct (kernel_list_prepares good_vm (mkKernelSettings None "" "kernels") bundle 0
    (mkIsolate LibrariesSetup true true true 0 true [] [] true) (mkGroup None (Some 7) None)
    (mkMapping (String.string_of_list_ascii (lines [["a"%char]; ["b"%char]]))) [["a"%char]; ["b"%char]] root_created)
    as (b & w' & Hr & Hb); [vm_compute; reflexivity..|done| |].
  { repeat constructor; rewrite list_elem_of_singleton; done. }
  exists w'. vm_compute in Hr. injection Hr as <- <-. destruct (Hb eq_refl) as (ks & _ & Hph & _).
  split; [vm_compute; reflexivity|exact Hph].
Defined.
