(* ===== verification/RuntimeController.v ===== *)
(** * RuntimeController: the root isolate and its window

    Model of [flutter::RuntimeController] (runtime/runtime_controller.cc) and
    of the [Window] its root isolate owns (lib/ui/window/window.cc), on the
    isolates of DartIsolate.  The controller's client is what
    [RuntimeDelegate] promises, a class the engine is an instance of.

    Dart code runs inside the calls of the window: [framework] says which
    native functions of dart:ui it calls before such a call returns.  The
    theorems hold for every framework. *)

From Stdlib Require Import ZArith Lia SpecFloat.
From stdpp Require Import base numbers list gmap sets fin_maps relations strings.
From S2P Require Import Prelude Float64 Time TaskQueues DartIsolate.

(** ** Data *)

Record ViewportMetrics := mkViewportMetrics {
  device_pixel_ratio : double;
  physical_width : double;
  physical_height : double;
  physical_depth : double;
  physical_padding_top : double;
  physical_padding_right : double;
  physical_padding_bottom : double;
  physical_padding_left : double;
  physical_view_inset_top : double;
  physical_view_inset_right : double;
  physical_view_inset_bottom : double;
  physical_view_inset_left : double;
  physical_view_inset_front : double;
  physical_view_inset_back : double;
  physical_system_gesture_inset_top : double;
  physical_system_gesture_inset_right : double;
  physical_system_gesture_inset_bottom : double;
  physical_system_gesture_inset_left : double;
}.

Definition kUnsetDepth : double := 0x7fefffffffffffff%Z.

Definition new_metrics : ViewportMetrics :=
  mkViewportMetrics d1 d0 d0 kUnsetDepth d0 d0 d0 d0 d0 d0 d0 d0 kUnsetDepth kUnsetDepth d0 d0 d0 d0.

(** The members of [WindowData] that are ever written. *)
Record WindowData := mkWindowData {
  viewport_metrics : ViewportMetrics;
  locale_data : list string;
  user_settings_data : string;
  lifecycle_state : string;
  semantics_enabled : bool;
  accessibility_feature_flags_ : Z;
}.

Definition new_window_data : WindowData :=
  mkWindowData new_metrics [] "{}" "AppLifecycleState.detached" false 0.

(** Responses are named by numbers. *)
Record PlatformMessage := mkMessage {
  channel_ : string;
  data_ : string;
  hasData_ : bool;
  response_ : option nat;
}.

(** [library_] tells whether [DidCreateIsolate] has set it; [debug_name_] is
    the name that the [UIDartState] of the window's isolate holds. *)
Record Window := mkWindow {
  debug_name_ : string;
  library_ : bool;
  window_metrics_ : ViewportMetrics;
  next_response_id_ : Z;
  pending_responses_ : gmap Z nat;
}.

Definition new_window (debug_name : string) : Window := mkWindow debug_name false new_metrics 1 ∅.

(** The scene of a frame: the tree it gives away, which is null when it was
    taken before, and the dimensions the engine looks at. *)
Record Frame := mkFrame {
  tree_size : Z * Z;
  tree_physical_depth : spec_float;
  tree_device_pixel_ratio : spec_float;
}.

(** Calls of dart:ui's hooks. *)
Inductive DartCall :=
  | UpdateWindowMetricsHook (args : list double)
  | UpdateLocalesHook (locales : list string)
  | UpdateUserSettingsDataHook (data : string)
  | UpdateLifecycleStateHook (data : string)
  | UpdateSemanticsEnabledHook (enabled : bool)
  | UpdateAccessibilityFeaturesHook (flags : Z)
  | DispatchPlatformMessageHook (channel : string) (data : option string) (response_id : Z)
  | DispatchPointerDataPacketHook (packet : nat)
  | DispatchSemanticsActionHook (id action : Z) (args : option string)
  | BeginFrameHook (microseconds : Z)
  | FlushMicrotasksNow
  | DrawFrameHook
  | ReportTimingsHook (timings : list Z)
  | NotifyIdleHook (deadline : Z).

(** Native functions Dart code may call; [now] is the clock when it does. *)
Inductive NativeCall :=
  | Window_scheduleFrame
  | Window_render (now : TimePoint.t) (frame : option Frame)
  | Window_updateSemantics (update : nat)
  | Window_setIsolateDebugName (name : string)
  | Window_setNeedsReportTimings (value : bool)
  | Window_sendPlatformMessage (name : string) (response : option nat) (data : option string)
  | Window_respondToPlatformMessage (response_id : Z) (data : option string).

(** What the controller's client promises. *)
Class RuntimeDelegate (E : Type) := {
  DefaultRouteName : E → string;
  ScheduleFrame : bool → E → E;
  RenderTree : TimePoint.t → option Frame → E → E;
  UpdateSemantics : nat → E → E;
  HandlePlatformMessage : PlatformMessage → E → E;
  UpdateIsolateDescription : string → E → E;
  SetNeedsReportTimings : bool → E → E;
}.

(** [root_isolate_] is a weak pointer. *)
Record RuntimeController := mkController {
  window_data_ : WindowData;
  root_isolate_ : option nat;
  root_isolate_return_code_ : bool * Z;
}.

(** The controller with its client, the isolates of the VM, those that were
    destroyed, the windows of the others, what was called in Dart and what
    was answered to platform messages. *)
Record Runtime (E : Type) := mkRuntime {
  client_ : E;
  controller : RuntimeController;
  isos : Isolates;
  expired : gset nat;
  windows : gmap nat Window;
  next_handle : nat;
  dart_calls : list (nat * DartCall);
  completed : list (nat * option string);
}.
Arguments mkRuntime {_} _ _ _ _ _ _ _ _.
Arguments client_ {_} _.
Arguments controller {_} _.
Arguments isos {_} _.
Arguments expired {_} _.
Arguments windows {_} _.
Arguments next_handle {_} _.
Arguments dart_calls {_} _.
Arguments completed {_} _.

(** ** The monad of runtime operations *)

Definition rt (E A : Type) : Type := Runtime E → result (A * Runtime E).
#[export] Instance rt_ret E : MRet (rt E) := λ A x r, Ok (x, r).
#[export] Instance rt_bind E : MBind (rt E) := λ A B f m r,
  match m r with Ok (a, r') => f a r' | Fault e => Fault e end.

Section operations.
Context {E : Type}.

Definition gets {A} (f : Runtime E → A) : rt E A := λ r, Ok (f r, r).
Definition modify (f : Runtime E → Runtime E) : rt E unit := λ r, Ok (tt, f r).
Definition lift {A} (m : result A) : rt E A := λ r,
  match m with Ok a => Ok (a, r) | Fault e => Fault e end.
Definition fault_if {A} (e : fault) : rt E A := λ _, Fault e.

Definition set_client (f : E → E) (r : Runtime E) : Runtime E :=
  mkRuntime (f (client_ r)) (controller r) (isos r) (expired r) (windows r) (next_handle r) (dart_calls r) (completed r).
Definition set_controller (f : RuntimeController → RuntimeController) (r : Runtime E) : Runtime E :=
  mkRuntime (client_ r) (f (controller r)) (isos r) (expired r) (windows r) (next_handle r) (dart_calls r) (completed r).
Definition set_isos (w : Isolates) (r : Runtime E) : Runtime E :=
  mkRuntime (client_ r) (controller r) w (expired r) (windows r) (next_handle r) (dart_calls r) (completed r).
Definition set_windows (f : gmap nat Window → gmap nat Window) (r : Runtime E) : Runtime E :=
  mkRuntime (client_ r) (controller r) (isos r) (expired r) (f (windows r)) (next_handle r) (dart_calls r) (completed r).
Definition set_expired (i : nat) (r : Runtime E) : Runtime E :=
  mkRuntime (client_ r) (controller r) (isos r) ({[i]} ∪ expired r) (delete i (windows r)) (next_handle r)
    (dart_calls r) (completed r).
Definition set_next_handle (n : nat) (r : Runtime E) : Runtime E :=
  mkRuntime (client_ r) (controller r) (isos r) (expired r) (windows r) n (dart_calls r) (completed r).
Definition log_dart (i : nat) (c : DartCall) (r : Runtime E) : Runtime E :=
  mkRuntime (client_ r) (controller r) (isos r) (expired r) (windows r) (next_handle r)
    (dart_calls r ++ [(i, c)]) (completed r).
Definition log_completed (response : nat) (data : option string) (r : Runtime E) : Runtime E :=
  mkRuntime (client_ r) (controller r) (isos r) (expired r) (windows r) (next_handle r) (dart_calls r)
    (completed r ++ [(response, data)]).

Definition lift_iso {A} (m : iso A) : rt E A := λ r,
  match m (isos r) with Ok (a, w) => Ok (a, set_isos w r) | Fault e => Fault e end.

Definition set_data (f : WindowData → WindowData) (c : RuntimeController) : RuntimeController :=
  mkController (f (window_data_ c)) (root_isolate_ c) (root_isolate_return_code_ c).

Definition update_window (i : nat) (f : Window → Window) : rt E unit := modify (set_windows (alter f i)).
Definition get_window (i : nat) : rt E Window :=
  w ← gets (λ r, windows r !! i); lift (of_option NullDeref w).

(** Locking a weak pointer to an isolate. *)
Definition lock (handle : option nat) (r : Runtime E) : option nat :=
  i ← handle; if decide (i ∈ expired r) then None else Some i.

(** [library_.dart_state().lock()] of the window of isolate [i]. *)
Definition dart_state (i : nat) : rt E bool :=
  w ← get_window i; gets (λ r, library_ w && bool_decide (i ∉ expired r)).

Definition root_isolate : rt E (option nat) := gets (λ r, lock (root_isolate_ (controller r)) r).

Definition GetWindowIfAvailable : rt E (option nat) :=
  root ← root_isolate;
  match root with
  | None => mret None
  | Some i => x ← lift_iso (get_isolate i); mret (if window_ x then Some i else None)
  end.

(** ** Responses to platform messages *)

Definition set_pending_responses (m : gmap Z nat) (w : Window) : Window :=
  mkWindow (debug_name_ w) (library_ w) (window_metrics_ w) (next_response_id_ w) m.

(** [CompletePlatformMessageResponse] and, without data,
    [CompletePlatformMessageEmptyResponse]. *)
Definition CompletePlatformMessageResponse (i : nat) (response_id : Z) (data : option string) : rt E unit :=
  if (response_id =? 0)%Z then mret tt
  else
    w ← get_window i;
    match pending_responses_ w !! response_id with
    | None => mret tt
    | Some response =>
        _ ← update_window i (set_pending_responses (delete response_id (pending_responses_ w)));
        modify (log_completed response data)
    end.

(** ** Native functions *)

Definition set_debug_name (name : string) (w : Window) : Window :=
  mkWindow name (library_ w) (window_metrics_ w) (next_response_id_ w) (pending_responses_ w).

Context `{RuntimeDelegate E}.

(** [Window::client] is the controller, whose client is the engine. *)
Definition native (i : nat) (n : NativeCall) : rt E unit :=
  match n with
  | Window_sendPlatformMessage name response data =>
      has_window ← gets (λ r, windows r !! i);
      match has_window with
      | None => mret tt
      | Some _ => modify (set_client (HandlePlatformMessage
          (mkMessage name (default ""%string data) (bool_decide (is_Some data)) response)))
      end
  | Window_setIsolateDebugName name =>
      has_window ← gets (λ r, windows r !! i);
      match has_window with
      | None => mret tt
      | Some _ =>
          _ ← update_window i (set_debug_name name);
          modify (set_client (UpdateIsolateDescription name))
      end
  | Window_scheduleFrame => _ ← get_window i; modify (set_client (ScheduleFrame true))
  | Window_render now frame => _ ← get_window i; modify (set_client (RenderTree now frame))
  | Window_updateSemantics update =>
      _ ← get_window i;
      enabled ← gets (λ r, semantics_enabled (window_data_ (controller r)));
      if (enabled : bool) then modify (set_client (UpdateSemantics update)) else mret tt
  | Window_setNeedsReportTimings value => _ ← get_window i; modify (set_client (SetNeedsReportTimings value))
  | Window_respondToPlatformMessage response_id data =>
      CompletePlatformMessageResponse i response_id data
  end.

Fixpoint natives (i : nat) (ns : list NativeCall) : rt E unit :=
  match ns with
  | [] => mret tt
  | n :: ns => _ ← native i n; natives i ns
  end.

Context (framework : nat → DartCall → Runtime E → list NativeCall).
(** Whether the VM fails to allocate a byte buffer. *)
Context (alloc_fails : Runtime E → bool).

(** A call into Dart; its errors are only logged. *)
Definition DartInvoke (i : nat) (c : DartCall) : rt E unit :=
  _ ← modify (log_dart i c);
  ns ← gets (framework i c);
  natives i ns.

(** ** Window *)

Definition set_library (w : Window) : Window :=
  mkWindow (debug_name_ w) true (window_metrics_ w) (next_response_id_ w) (pending_responses_ w).
Definition set_window_metrics (m : ViewportMetrics) (w : Window) : Window :=
  mkWindow (debug_name_ w) (library_ w) m (next_response_id_ w) (pending_responses_ w).
Definition set_responses (next : Z) (m : gmap Z nat) (w : Window) : Window :=
  mkWindow (debug_name_ w) (library_ w) (window_metrics_ w) next m.

Definition DidCreateIsolate (i : nat) : rt E unit := update_window i set_library.

(** The arguments of [_updateWindowMetrics]: the insets in front and behind are
    not among them. *)
Definition metrics_args (m : ViewportMetrics) : list double :=
  [device_pixel_ratio m; physical_width m; physical_height m; physical_depth m;
   physical_padding_top m; physical_padding_right m; physical_padding_bottom m; physical_padding_left m;
   physical_view_inset_top m; physical_view_inset_right m; physical_view_inset_bottom m; physical_view_inset_left m;
   physical_system_gesture_inset_top m; physical_system_gesture_inset_right m;
   physical_system_gesture_inset_bottom m; physical_system_gesture_inset_left m].

(** A hook called when the isolate of the window is alive. *)
Definition call_hook (i : nat) (c : DartCall) : rt E unit :=
  alive ← dart_state i;
  if negb alive then mret tt else DartInvoke i c.

Definition UpdateWindowMetrics (i : nat) (m : ViewportMetrics) : rt E unit :=
  _ ← update_window i (set_window_metrics m);
  call_hook i (UpdateWindowMetricsHook (metrics_args m)).
Definition UpdateLocales (i : nat) (locales : list string) : rt E unit := call_hook i (UpdateLocalesHook locales).
Definition UpdateUserSettingsData (i : nat) (data : string) : rt E unit := call_hook i (UpdateUserSettingsDataHook data).
Definition UpdateLifecycleState (i : nat) (data : string) : rt E unit := call_hook i (UpdateLifecycleStateHook data).
Definition UpdateSemanticsEnabled (i : nat) (enabled : bool) : rt E unit := call_hook i (UpdateSemanticsEnabledHook enabled).
Definition UpdateAccessibilityFeatures (i : nat) (flags : Z) : rt E unit := call_hook i (UpdateAccessibilityFeaturesHook flags).

Definition Window_DispatchPlatformMessage (i : nat) (message : PlatformMessage) : rt E unit :=
  alive ← dart_state i;
  if negb alive then mret tt
  else
    failed ← gets (λ r, hasData_ message && alloc_fails r);
    if (failed : bool) then mret tt
    else
      response_id ← (match response_ message with
                     | None => mret 0%Z
                     | Some response =>
                         w ← get_window i;
                         next ← lift (checked_s 32 (next_response_id_ w + 1));
                         _ ← update_window i (set_responses next
                               (<[next_response_id_ w := response]> (pending_responses_ w)));
                         mret (next_response_id_ w)
                     end);
      DartInvoke i (DispatchPlatformMessageHook (channel_ message)
        (if hasData_ message then Some (data_ message) else None) response_id).

Definition Window_DispatchPointerDataPacket (i : nat) (packet : nat) : rt E unit :=
  alive ← dart_state i;
  if negb alive then mret tt
  else
    failed ← gets alloc_fails;
    if (failed : bool) then mret tt else DartInvoke i (DispatchPointerDataPacketHook packet).

Definition Window_DispatchSemanticsAction (i : nat) (id action : Z) (args : string) : rt E unit :=
  alive ← dart_state i;
  if negb alive then mret tt
  else
    let empty := (String.length args =? 0)%nat in
    failed ← gets (λ r, negb empty && alloc_fails r);
    if (failed : bool) then mret tt
    else DartInvoke i (DispatchSemanticsActionHook id action (if empty then None else Some args)).

Definition Window_BeginFrame (i : nat) (frameTime : TimePoint.t) : rt E unit :=
  alive ← dart_state i;
  if negb alive then mret tt
  else
    d ← lift (TimePoint.diff frameTime 0%Z);
    _ ← DartInvoke i (BeginFrameHook (TimeDelta.ToMicroseconds d));
    _ ← DartInvoke i FlushMicrotasksNow;
    DartInvoke i DrawFrameHook.

(** Acquiring the new buffer fails the check when it was not allocated. *)
Definition Window_ReportTimings (i : nat) (timings : list Z) : rt E unit :=
  alive ← dart_state i;
  if negb alive then mret tt
  else
    failed ← gets alloc_fails;
    _ ← lift (fml_check (negb failed));
    DartInvoke i (ReportTimingsHook timings).

(** ** RuntimeController *)

Definition with_window (f : nat → rt E unit) : rt E bool :=
  window ← GetWindowIfAvailable;
  match window with Some i => _ ← f i; mret true | None => mret false end.

Definition store (f : WindowData → WindowData) : rt E unit := modify (set_controller (set_data f)).

Definition SetViewportMetrics (m : ViewportMetrics) : rt E bool :=
  _ ← store (λ d, mkWindowData m (locale_data d) (user_settings_data d) (lifecycle_state d)
                    (semantics_enabled d) (accessibility_feature_flags_ d));
  with_window (λ i, UpdateWindowMetrics i m).

Definition SetLocales (locales : list string) : rt E bool :=
  _ ← store (λ d, mkWindowData (viewport_metrics d) locales (user_settings_data d) (lifecycle_state d)
                    (semantics_enabled d) (accessibility_feature_flags_ d));
  with_window (λ i, UpdateLocales i locales).

Definition SetUserSettingsData (data : string) : rt E bool :=
  _ ← store (λ d, mkWindowData (viewport_metrics d) (locale_data d) data (lifecycle_state d)
                    (semantics_enabled d) (accessibility_feature_flags_ d));
  with_window (λ i, UpdateUserSettingsData i data).

Definition SetLifecycleState (data : string) : rt E bool :=
  _ ← store (λ d, mkWindowData (viewport_metrics d) (locale_data d) (user_settings_data d) data
                    (semantics_enabled d) (accessibility_feature_flags_ d));
  with_window (λ i, UpdateLifecycleState i data).

Definition SetSemanticsEnabled (enabled : bool) : rt E bool :=
  _ ← store (λ d, mkWindowData (viewport_metrics d) (locale_data d) (user_settings_data d) (lifecycle_state d)
                    enabled (accessibility_feature_flags_ d));
  with_window (λ i, UpdateSemanticsEnabled i enabled).

Definition SetAccessibilityFeatures (flags : Z) : rt E bool :=
  _ ← store (λ d, mkWindowData (viewport_metrics d) (locale_data d) (user_settings_data d) (lifecycle_state d)
                    (semantics_enabled d) flags);
  with_window (λ i, UpdateAccessibilityFeatures i flags).

(** [a && b] of two calls. *)
Definition and_then (a b : rt E bool) : rt E bool :=
  ok ← a; if (ok : bool) then b else mret false.

Definition data : rt E WindowData := gets (λ r, window_data_ (controller r)).

Definition FlushRuntimeStateToIsolate : rt E bool :=
  and_then (d ← data; SetViewportMetrics (viewport_metrics d))
  (and_then (d ← data; SetLocales (locale_data d))
  (and_then (d ← data; SetSemanticsEnabled (semantics_enabled d))
  (and_then (d ← data; SetAccessibilityFeatures (accessibility_feature_flags_ d))
  (and_then (d ← data; SetUserSettingsData (user_settings_data d))
            (d ← data; SetLifecycleState (lifecycle_state d)))))).

Definition Controller_BeginFrame (frame_time : TimePoint.t) : rt E bool :=
  with_window (λ i, Window_BeginFrame i frame_time).
Definition Controller_ReportTimings (timings : list Z) : rt E bool :=
  with_window (λ i, Window_ReportTimings i timings).
Definition Controller_DispatchPlatformMessage (message : PlatformMessage) : rt E bool :=
  with_window (λ i, Window_DispatchPlatformMessage i message).
Definition Controller_DispatchPointerDataPacket (packet : nat) : rt E bool :=
  with_window (λ i, Window_DispatchPointerDataPacket i packet).
Definition Controller_DispatchSemanticsAction (id action : Z) (args : string) : rt E bool :=
  with_window (λ i, Window_DispatchSemanticsAction i id action args).

(** The VM collects garbage and may run finalizers, which call no native
    function; the embedder's idle callback is not Dart code either. *)
Definition Controller_NotifyIdle (deadline : Z) : rt E bool :=
  root ← root_isolate;
  match root with
  | None => mret false
  | Some i => _ ← modify (log_dart i (NotifyIdleHook deadline)); mret true
  end.

Definition IsRootIsolateRunning : rt E bool :=
  root ← root_isolate;
  match root with
  | None => mret false
  | Some i => x ← lift_iso (get_isolate i); mret (phase_is Running x)
  end.

(** The callback the controller gives its root isolate. *)
Definition ReturnCodeCallback (code : Z) : rt E unit :=
  modify (set_controller (λ c, mkController (window_data_ c) (root_isolate_ c) (true, code))).

Context `{Build} (vm : nat → VmQuery → bool).
(** The callbacks of the settings that the isolate groups share. *)
Context (isolate_create_callback isolate_shutdown_callback : closure).
(** The name [DidSetIsolate] gives an isolate at first. *)
Context (debug_name : nat → string).

(** The constructor, with the data of the window it starts from. *)
Definition new_controller (d : WindowData) : rt E unit :=
  i ← gets next_handle;
  _ ← modify (set_next_handle (S i));
  created ← lift_iso (CreateRootIsolate vm i i true true isolate_create_callback isolate_shutdown_callback);
  _ ← lift (fml_check created);
  _ ← modify (set_windows (<[i := new_window (debug_name i)]>));
  _ ← modify (set_client (UpdateIsolateDescription (debug_name i)));
  _ ← modify (set_controller (λ _, mkController d (Some i) (false, 0%Z)));
  window ← GetWindowIfAvailable;
  match window with
  | Some w => _ ← DidCreateIsolate w; _ ← FlushRuntimeStateToIsolate; mret tt
  | None => lift (fml_dcheck false)
  end.

(** The VM shuts an isolate down: its shutdown callback and then the cleanup
    callback, which deletes the last reference to the object. *)
Definition vm_shutdown_isolate (i : nat) : rt E unit :=
  _ ← lift_iso (OnShutdownCallback i);
  modify (set_expired i).

(** The destructor of a controller with this root isolate. *)
Definition destroy_controller (handle : option nat) : rt E unit :=
  root ← gets (lock handle);
  match root with
  | None => mret tt
  | Some i =>
      x ← lift_iso (get_isolate i);
      told ← lift_iso (Shutdown i);
      if (told && isolate_ x)%bool then vm_shutdown_isolate i else mret tt
  end.

(** [runtime_controller_ = runtime_controller_->Clone()]: the new controller
    is constructed before the old one is destroyed. *)
Definition Clone : rt E unit :=
  old ← gets (λ r, controller r);
  _ ← new_controller (window_data_ old);
  destroy_controller (root_isolate_ old).
End operations.
