(* ===== verification/RuntimeControllerProofs.v ===== *)
(** * RuntimeControllerProofs: what calls into Dart change

    Dart code may call back into the window and the engine while it runs;
    here is what such calls leave alone, for every framework, and what the
    setters of the controller achieve.  The client enters through its laws
    only: a preorder that every call of [RuntimeDelegate] respects. *)

From Stdlib Require Import ZArith Lia.
From stdpp Require Import base numbers list gmap sets fin_maps relations strings.
From S2P Require Import Prelude Float64 Time TaskQueues DartIsolate DartIsolateProofs RuntimeController.

Create HintDb runtime.

(** Calls of the client stay within [R]. *)
Class DelegateLaws (E : Type) `{RuntimeDelegate E} (R : relation E) := {
  delegate_preorder :: PreOrder R;
  ScheduleFrame_law b e : R e (ScheduleFrame b e);
  RenderTree_law now f e : R e (RenderTree now f e);
  UpdateSemantics_law n e : R e (UpdateSemantics n e);
  HandlePlatformMessage_law m e : R e (HandlePlatformMessage m e);
  UpdateIsolateDescription_law s e : R e (UpdateIsolateDescription s e);
  SetNeedsReportTimings_law b e : R e (SetNeedsReportTimings b e);
}.

(** ** The state Dart was told *)

(** The window as Dart code knows it: the metrics as the parameters of
    [_updateWindowMetrics] (lib/ui/hooks.dart) name them. *)
Record WindowPadding := mkWindowPadding { top : double; right : double; bottom : double; left : double }.
Record DartMetrics := mkDartMetrics {
  devicePixelRatio : double;
  physicalSize : double * double;
  physicalDepth : double;
  viewPadding : WindowPadding;
  viewInsets : WindowPadding;
  systemGestureInsets : WindowPadding;
}.
Record DartWindow := mkDartWindow {
  dart_metrics : DartMetrics;
  dart_locales : list string;
  dart_settings : string;
  dart_lifecycle : string;
  dart_semantics : bool;
  dart_accessibility : Z;
}.

(** The sixteen positional parameters; any other number is refused by Dart. *)
Definition _updateWindowMetrics (args : list double) (d : DartMetrics) : DartMetrics :=
  match args with
  | [ratio; width; height; depth; p_top; p_right; p_bottom; p_left; i_top; i_right; i_bottom; i_left;
     g_top; g_right; g_bottom; g_left] =>
      mkDartMetrics ratio (width, height) depth (mkWindowPadding p_top p_right p_bottom p_left)
        (mkWindowPadding i_top i_right i_bottom i_left) (mkWindowPadding g_top g_right g_bottom g_left)
  | _ => d
  end.

(** What a hook call tells Dart about the window. *)
Definition apply_hook (d : DartWindow) (c : DartCall) : DartWindow :=
  match c with
  | UpdateWindowMetricsHook args =>
      mkDartWindow (_updateWindowMetrics args (dart_metrics d)) (dart_locales d) (dart_settings d) (dart_lifecycle d) (dart_semantics d) (dart_accessibility d)
  | UpdateLocalesHook l =>
      mkDartWindow (dart_metrics d) l (dart_settings d) (dart_lifecycle d) (dart_semantics d) (dart_accessibility d)
  | UpdateUserSettingsDataHook s =>
      mkDartWindow (dart_metrics d) (dart_locales d) s (dart_lifecycle d) (dart_semantics d) (dart_accessibility d)
  | UpdateLifecycleStateHook s =>
      mkDartWindow (dart_metrics d) (dart_locales d) (dart_settings d) s (dart_semantics d) (dart_accessibility d)
  | UpdateSemanticsEnabledHook b =>
      mkDartWindow (dart_metrics d) (dart_locales d) (dart_settings d) (dart_lifecycle d) b (dart_accessibility d)
  | UpdateAccessibilityFeaturesHook z =>
      mkDartWindow (dart_metrics d) (dart_locales d) (dart_settings d) (dart_lifecycle d) (dart_semantics d) z
  | _ => d
  end.

(** What the platform sets. *)
Inductive WindowUpdate :=
  | SetMetrics (m : ViewportMetrics)
  | SetLocaleData (l : list string)
  | SetSettings (s : string)
  | SetLifecycle (s : string)
  | SetSemantics (b : bool)
  | SetAccessibility (z : Z).

Definition apply_update (d : WindowData) (u : WindowUpdate) : WindowData :=
  match u with
  | SetMetrics m =>
      mkWindowData m (locale_data d) (user_settings_data d) (lifecycle_state d) (semantics_enabled d) (accessibility_feature_flags_ d)
  | SetLocaleData l =>
      mkWindowData (viewport_metrics d) l (user_settings_data d) (lifecycle_state d) (semantics_enabled d) (accessibility_feature_flags_ d)
  | SetSettings s =>
      mkWindowData (viewport_metrics d) (locale_data d) s (lifecycle_state d) (semantics_enabled d) (accessibility_feature_flags_ d)
  | SetLifecycle s =>
      mkWindowData (viewport_metrics d) (locale_data d) (user_settings_data d) s (semantics_enabled d) (accessibility_feature_flags_ d)
  | SetSemantics b =>
      mkWindowData (viewport_metrics d) (locale_data d) (user_settings_data d) (lifecycle_state d) b (accessibility_feature_flags_ d)
  | SetAccessibility z =>
      mkWindowData (viewport_metrics d) (locale_data d) (user_settings_data d) (lifecycle_state d) (semantics_enabled d) z
  end.

(** The hook that tells Dart of an update, and what Dart is to know. *)
Definition hook_of (u : WindowUpdate) : DartCall :=
  match u with
  | SetMetrics m => UpdateWindowMetricsHook (metrics_args m)
  | SetLocaleData l => UpdateLocalesHook l
  | SetSettings s => UpdateUserSettingsDataHook s
  | SetLifecycle s => UpdateLifecycleStateHook s
  | SetSemantics b => UpdateSemanticsEnabledHook b
  | SetAccessibility z => UpdateAccessibilityFeaturesHook z
  end.

Definition metrics_of (m : ViewportMetrics) : DartMetrics := {|
  devicePixelRatio := device_pixel_ratio m;
  physicalSize := (physical_width m, physical_height m);
  physicalDepth := physical_depth m;
  viewPadding := {| top := physical_padding_top m; right := physical_padding_right m;
                    bottom := physical_padding_bottom m; left := physical_padding_left m |};
  viewInsets := {| top := physical_view_inset_top m; right := physical_view_inset_right m;
                   bottom := physical_view_inset_bottom m; left := physical_view_inset_left m |};
  systemGestureInsets := {| top := physical_system_gesture_inset_top m; right := physical_system_gesture_inset_right m;
                            bottom := physical_system_gesture_inset_bottom m; left := physical_system_gesture_inset_left m |};
|}.

Definition dart_window (d : WindowData) : DartWindow :=
  mkDartWindow (metrics_of (viewport_metrics d)) (locale_data d) (user_settings_data d) (lifecycle_state d)
    (semantics_enabled d) (accessibility_feature_flags_ d).

Lemma dart_window_update d u : dart_window (apply_update d u) = apply_hook (dart_window d) (hook_of u).
Proof. by destruct u. Qed.

(** The calls isolate [i] received. *)
Definition hooks {E} (i : nat) (r : Runtime E) : list DartCall :=
  snd <$> filter (λ p : nat * DartCall, p.1 = i) (dart_calls r).

(** What Dart code in isolate [i] believes, whatever it assumed first. *)
Definition told {E} (i : nat) (d0 : DartWindow) (r : Runtime E) : DartWindow :=
  foldl apply_hook d0 (hooks i r).

(** ** What the isolates' own operations keep *)

(** What [F] sees of an isolate stays, and no group appears, except at [i]. *)
Definition kept {B} (F : DartIsolate → B) (i : nat) (w w' : Isolates) : Prop :=
  (∀ j, j ≠ i → F <$> isolates w' !! j = F <$> isolates w !! j) ∧
  (∀ g, g ≠ i → groups w !! g = None → groups w' !! g = None).

#[export] Instance kept_preorder {B} (F : DartIsolate → B) i : PreOrder (kept F i).
Proof. split; [done|]. intros w1 w2 w3 [H1 H2] [H3 H4]. split; [intros; by rewrite H3, H1|auto]. Qed.

Section primitive.
Context {B : Type} (F : DartIsolate → B).

Definition keeps {A} (i : nat) (m : iso A) : Prop := ∀ w a w', m w ⇓ (a, w') → kept F i w w'.

(** Changes of isolate [k] do not show: it is the exception, or [F] only
    looks at windows. *)
Definition hidden (i k : nat) : Prop := k = i ∨ ∀ x y, window_ x = window_ y → F x = F y.

Lemma keeps_ret {A} i (a : A) : keeps i (mret a).
Proof. intros w a' w' [= _ <-]. done. Qed.

Lemma keeps_bind {A C} i (m : iso A) (f : A → iso C) : keeps i m → (∀ a, keeps i (f a)) → keeps i (m ≫= f).
Proof.
  intros Hm Hf w b w'. unfold mbind, iso_bind, mbind, result_bind. destruct (m w) as [[a w1]|] eqn:Hw; [|done].
  intros Hb. etrans; [by eapply Hm|by eapply Hf].
Qed.

Lemma keeps_get i k : keeps i (get_isolate k).
Proof. intros w a w'. unfold get_isolate. destruct (isolates w !! k); [|done]. by intros [= _ <-]. Qed.
Lemma keeps_group i k : keeps i (get_group k).
Proof. intros w a w'. unfold get_group. destruct (groups w !! k); [|done]. by intros [= _ <-]. Qed.
Lemma keeps_ask i vm q : keeps i (ask vm q).
Proof. by intros w a w' [= _ <-]. Qed.
Lemma keeps_emit i es : keeps i (emit es).
Proof. by intros w a w' [= _ <-]. Qed.
Lemma keeps_modify i k f :
  hidden i k → (∀ x, window_ (f x) = window_ x) ∨ k = i → keeps i (modify_isolate k f).
Proof.
  intros Hh Hf w a w' [= _ <-]. split; [|done]. intros j Hj. cbn.
  destruct (decide (k = j)) as [->|Hk]; [|by rewrite lookup_alter_ne]. rewrite lookup_alter_eq.
  destruct (isolates w !! j); cbn; [|done]. f_equal. destruct Hf as [Hf|]; [|done]. destruct Hh as [|Hh]; [done|]. apply Hh, Hf.
Qed.
Lemma keeps_modify_group i k f : keeps i (modify_group k f).
Proof.
  intros w a w' [= _ <-]. split; [done|]. intros g _ Hg. cbn.
  destruct (decide (k = g)) as [->|Hk]; [|by rewrite lookup_alter_ne]. by rewrite lookup_alter_eq, Hg.
Qed.
Lemma keeps_new_isolate i x : keeps i (new_isolate i x).
Proof. intros w a w' [= _ <-]. split; [|done]. intros j Hj. cbn. by rewrite lookup_insert_ne. Qed.
Lemma keeps_new_group i x : keeps i (new_group i x).
Proof. intros w a w' [= _ <-]. split; [done|]. intros g Hg. cbn. by rewrite lookup_insert_ne. Qed.
Lemma keeps_check i m : keeps i (check m).
Proof. intros w a w'. unfold check. destruct m; [|done]. by intros [= _ <-]. Qed.
Lemma keeps_option {A} i e (o : option A) : keeps i (λ w, p ← of_option e o; mret (p, w)).
Proof. intros w a w'. destruct o; [|done]. by intros [= _ <-]. Qed.

End primitive.

#[export] Hint Resolve keeps_ret keeps_bind keeps_get keeps_group keeps_ask keeps_emit keeps_modify keeps_modify_group
  keeps_new_isolate keeps_new_group keeps_check keeps_option : runtime.

(** Decomposes an operation into the primitive ones. *)
Ltac keeps_auto :=
  repeat match goal with
  | |- keeps _ _ (mbind _ _) => apply keeps_bind; [|intros ?]
  | |- keeps _ _ (if ?b then _ else _) => destruct b
  | |- keeps _ _ (match ?x with _ => _ end) => destruct x
  | |- keeps _ _ _ => solve [auto with runtime]
  | |- keeps _ _ (modify_isolate _ _) => apply keeps_modify; [assumption|left; intros []; done]
  end.

Section keeps.
Context `{Build} (vm : nat → VmQuery → bool) {B : Type} (F : DartIsolate → B).
#[local] Set Default Proof Using "Type*".

Lemma handler_window x : window_ (SetMessageHandlingTaskRunner x) = window_ x.
Proof. unfold SetMessageHandlingTaskRunner. by case_match. Qed.

Lemma Initialize_keeps k i : hidden F k i → keeps F k (Initialize vm i).
Proof. intros Hh. unfold Initialize. keeps_auto. apply keeps_modify; [done|]. left. apply handler_window. Qed.
Lemma LoadLibraries_keeps k i : hidden F k i → keeps F k (LoadLibraries vm i).
Proof. intros Hh. unfold LoadLibraries. keeps_auto. Qed.
Lemma MarkIsolateRunnable_keeps k i : hidden F k i → keeps F k (MarkIsolateRunnable vm i).
Proof. intros Hh. unfold MarkIsolateRunnable. keeps_auto. Qed.
Hint Resolve Initialize_keeps LoadLibraries_keeps MarkIsolateRunnable_keeps : runtime.
Lemma Precompiled_keeps k i : hidden F k i → keeps F k (PrepareForRunningFromPrecompiledCode vm i).
Proof. intros Hh. unfold PrepareForRunningFromPrecompiledCode, run_create_callback. keeps_auto. Qed.
Lemma LoadKernel_keeps k i m last : hidden F k i → keeps F k (LoadKernel vm i m last).
Proof. intros Hh. unfold LoadKernel. keeps_auto. Qed.
Hint Resolve Precompiled_keeps LoadKernel_keeps : runtime.
Lemma PrepareKernel_keeps k i m last : hidden F k i → keeps F k (PrepareForRunningFromKernel vm i m last).
Proof. intros Hh. unfold PrepareForRunningFromKernel, run_create_callback. keeps_auto. Qed.
Hint Resolve PrepareKernel_keeps : runtime.
Lemma prepare_pieces_keeps k i pieces : hidden F k i → keeps F k (prepare_pieces vm i pieces).
Proof. intros Hh. induction pieces; cbn [prepare_pieces]; keeps_auto. Qed.
Hint Resolve prepare_pieces_keeps : runtime.
Lemma InitializeIsolate_keeps k i : hidden F k i → keeps F k (InitializeIsolate vm i).
Proof. intros Hh. unfold InitializeIsolate, run_preparer. keeps_auto. Qed.
Hint Resolve InitializeIsolate_keeps : runtime.
Lemma CreateRootIsolate_keeps i ui window cr sh : keeps F i (CreateRootIsolate vm i i ui window cr sh).
Proof. assert (Hh : hidden F i i) by (by left). unfold CreateRootIsolate, CreateDartIsolateGroup. keeps_auto. Qed.
Lemma run_entrypoint_keeps k i e c : hidden F k i → keeps F k (run_entrypoint vm i e c).
Proof. intros Hh. unfold run_entrypoint, InvokeMainEntrypoint. keeps_auto. Qed.
Lemma Shutdown_keeps k i : hidden F k i → keeps F k (Shutdown i).
Proof. intros Hh. unfold Shutdown. keeps_auto. Qed.
Lemma AddCallback_keeps k i c : hidden F k i → keeps F k (AddIsolateShutdownCallback i c).
Proof. intros Hh. unfold AddIsolateShutdownCallback. keeps_auto. Qed.
Lemma OnShutdown_keeps k i : hidden F k i → keeps F k (OnShutdownCallback i).
Proof. intros Hh. unfold OnShutdownCallback. keeps_auto. Qed.
End keeps.

(** ** Equations of the monad *)

Section monad.
Context {E : Type}.

Lemma bind_inv {A B} (m : rt E A) (f : A → rt E B) r b r' :
  (m ≫= f) r ⇓ (b, r') → ∃ a r1, m r ⇓ (a, r1) ∧ f a r1 ⇓ (b, r').
Proof. unfold mbind, rt_bind. destruct (m r) as [[a r1]|]; [|done]. eauto. Qed.

Lemma bind_eq {A B} (m : rt E A) (f : A → rt E B) r a r1 : m r ⇓ (a, r1) → (m ≫= f) r = f a r1.
Proof. unfold mbind, rt_bind. by intros ->. Qed.

Lemma gets_pure {A} (f : Runtime E → A) r a r1 : gets f r ⇓ (a, r1) → r1 = r.
Proof. by intros [= _ <-]. Qed.
Lemma lift_pure {A} (m : result A) (r : Runtime E) a r1 : lift m r ⇓ (a, r1) → r1 = r.
Proof. unfold lift. destruct m; [|done]. by intros [= _ <-]. Qed.
Lemma get_window_pure i (r : Runtime E) w r1 : get_window i r ⇓ (w, r1) → r1 = r.
Proof. unfold get_window. intros (o & r2 & [= <- <-] & H)%bind_inv. by apply lift_pure in H. Qed.
Lemma dart_state_pure i (r : Runtime E) b r1 : dart_state i r ⇓ (b, r1) → r1 = r.
Proof. unfold dart_state. intros (w & r2 & Hw%get_window_pure & [= _ <-])%bind_inv. done. Qed.

End monad.

Section proofs.
Context {E : Type} `{HD : RuntimeDelegate E} (R : relation E) `{!DelegateLaws E R}.
Context (framework : nat → DartCall → Runtime E → list NativeCall) (alloc_fails : Runtime E → bool).
#[local] Set Default Proof Using "Type*".

(** ** What a call into Dart changes *)

(** Isolate [i] was called with [cs]; only its window and the client changed. *)
Record window_step (i : nat) (cs : list DartCall) (r r' : Runtime E) : Prop := {
  ws_client : R (client_ r) (client_ r');
  ws_controller : controller r' = controller r;
  ws_isos : isos r' = isos r;
  ws_expired : expired r' = expired r;
  ws_next : next_handle r' = next_handle r;
  ws_calls : dart_calls r' = dart_calls r ++ ((i,.) <$> cs);
  ws_windows : ∃ f, windows r' = alter f i (windows r) ∧ ∀ w, library_ (f w) = library_ w;
}.

(** Running [m] makes such a step. *)
Definition steps {A} (i : nat) (cs : list DartCall) (m : rt E A) (r : Runtime E) : Prop :=
  ∀ a r', m r ⇓ (a, r') → window_step i cs r r'.

Lemma window_step_refl i r : window_step i [] r r.
Proof.
  split; try done; [by rewrite app_nil_r|]. exists id. split; [|done]. symmetry. by apply alter_id.
Qed.

Lemma window_step_trans i cs1 cs2 r1 r2 r3 :
  window_step i cs1 r1 r2 → window_step i cs2 r2 r3 → window_step i (cs1 ++ cs2) r1 r3.
Proof.
  intros [? ? ? ? ? Hc1 (f & Hf & Hfl)] [? ? ? ? ? Hc2 (g & Hg & Hgl)]. split; try congruence.
  - by etrans.
  - by rewrite Hc2, Hc1, fmap_app, app_assoc.
  - exists (g ∘ f). rewrite Hg, Hf, alter_alter_eq. split; [done|]. intros w. cbn. by rewrite Hgl.
Qed.

Lemma steps_ret {A} i (a : A) r : steps i [] (mret a) r.
Proof. intros a' r' [= <- <-]. apply window_step_refl. Qed.

Lemma steps_bind {A B} i cs1 cs2 (m : rt E A) (f : A → rt E B) r :
  steps i cs1 m r → (∀ a r1, m r ⇓ (a, r1) → window_step i cs1 r r1 → steps i cs2 (f a) r1) →
  steps i (cs1 ++ cs2) (m ≫= f) r.
Proof.
  intros Hm Hf b r' (a & r1 & Ha & Hb)%bind_inv. eapply window_step_trans; [by eapply Hm|].
  eapply (Hf a r1); [done|by eapply Hm|done].
Qed.

(** Reading the state, and operations that do not change it. *)
Lemma steps_pure {A B} i cs (m : rt E A) (f : A → rt E B) r :
  (∀ a r1, m r ⇓ (a, r1) → r1 = r) → (∀ a, steps i cs (f a) r) → steps i cs (m ≫= f) r.
Proof. intros Hm Hf b r' (a & r1 & Ha & Hb)%bind_inv. rewrite (Hm _ _ Ha) in Hb. by eapply Hf. Qed.

Hint Resolve steps_ret window_step_refl : runtime.
Hint Resolve gets_pure lift_pure get_window_pure dart_state_pure : runtime.

Lemma steps_client i f r : (∀ e, R e (f e)) → steps i [] (modify (set_client f)) r.
Proof.
  intros Hf a r' [= _ <-]. split; try done; cbn; [by rewrite app_nil_r|].
  exists id. split; [|done]. symmetry. by apply alter_id.
Qed.

Lemma steps_window i f r : (∀ w, library_ (f w) = library_ w) → steps i [] (update_window i f) r.
Proof. intros Hf a r' [= _ <-]. split; try done; cbn; [by rewrite app_nil_r|by exists f]. Qed.

Lemma steps_completed i response data r : steps i [] (modify (log_completed response data)) r.
Proof.
  intros a r' [= _ <-]. split; try done; cbn; [by rewrite app_nil_r|].
  exists id. split; [|done]. symmetry. by apply alter_id.
Qed.

Ltac pure_step := eapply steps_pure; [intros; by eauto with runtime|intros ?; cbn beta].

Lemma complete_steps i id data r : steps i [] (CompletePlatformMessageResponse i id data) r.
Proof.
  unfold CompletePlatformMessageResponse. case_match; [apply steps_ret|]. pure_step.
  case_match; [|apply steps_ret]. eapply (steps_bind i [] []); [by apply steps_window|].
  intros. apply steps_completed.
Qed.

Lemma native_steps i n r : steps i [] (native i n) r.
Proof.
  destruct n; cbn [native]; try apply complete_steps; pure_step.
  - apply steps_client, ScheduleFrame_law.
  - apply steps_client, RenderTree_law.
  - pure_step. case_match; [|apply steps_ret]. apply steps_client, UpdateSemantics_law.
  - case_match; [|apply steps_ret]. eapply (steps_bind i [] []); [by apply steps_window|].
    intros. apply steps_client, UpdateIsolateDescription_law.
  - apply steps_client, SetNeedsReportTimings_law.
  - case_match; [|apply steps_ret]. apply steps_client, HandlePlatformMessage_law.
Qed.

Lemma natives_steps i ns r : steps i [] (natives i ns) r.
Proof.
  revert r. induction ns as [|n ns IH]; intros r; [apply steps_ret|].
  eapply (steps_bind i [] []); [apply native_steps|]. intros. apply IH.
Qed.

Lemma DartInvoke_steps i c r : steps i [c] (DartInvoke framework i c) r.
Proof.
  eapply (steps_bind i [c] []).
  - intros a r' [= _ <-]. split; try done. cbn. exists id. split; [|done]. symmetry. by apply alter_id.
  - intros. pure_step. apply natives_steps.
Qed.

(** The isolate of the controller is alive and its window is ready. *)
Definition ready (i : nat) (r : Runtime E) : Prop :=
  root_isolate_ (controller r) = Some i ∧ (i ∉ expired r) ∧
  (∃ x, isolates (isos r) !! i = Some x ∧ window_ x = true) ∧
  ∃ w, windows r !! i = Some w ∧ library_ w = true.

Lemma window_step_ready i cs r r' : window_step i cs r r' → ready i r → ready i r'.
Proof.
  intros [_ Hc Hi He _ _ (f & Hw & Hf)] (Hroot & Hexp & Hiso & w & Hlw & Hlib).
  unfold ready. rewrite Hc, Hi, He. split_and!; try done.
  exists (f w). by rewrite Hw, lookup_alter_eq, Hlw, Hf.
Qed.

Lemma dart_state_ready i r : ready i r → dart_state i r ⇓ (true, r).
Proof.
  intros (_ & He & _ & w & Hw & Hl). unfold dart_state, get_window, mbind, rt_bind, gets, lift. cbn.
  rewrite Hw. cbn. rewrite Hl. by rewrite bool_decide_eq_true_2.
Qed.

Lemma GetWindowIfAvailable_ready i r : ready i r → GetWindowIfAvailable r ⇓ (Some i, r).
Proof.
  intros (Hroot & He & (x & Hx & Hwin) & _).
  unfold GetWindowIfAvailable, root_isolate, mbind, rt_bind, gets, lock. cbn.
  rewrite Hroot. cbn. rewrite decide_False by done. unfold lift_iso, get_isolate. rewrite Hx. cbn. rewrite Hwin.
  by destruct r.
Qed.

(** A hook reaches a window that is ready. *)
Lemma call_hook_steps i c r : ready i r → steps i [c] (call_hook framework i c) r.
Proof.
  intros Hr a r'. unfold call_hook. rewrite (bind_eq _ _ _ _ _ (dart_state_ready _ _ Hr)). apply DartInvoke_steps.
Qed.

Lemma with_window_ready (f : nat → rt E unit) i cs r :
  ready i r → steps i cs (f i) r → ∀ b r', with_window f r ⇓ (b, r') → b = true ∧ window_step i cs r r'.
Proof.
  intros Hr Hf b r'. unfold with_window. rewrite (bind_eq _ _ _ _ _ (GetWindowIfAvailable_ready _ _ Hr)).
  intros (u & r1 & Hu & [= <- <-])%bind_inv. split; [done|by eapply Hf].
Qed.

(** The window is not available only when its isolate is gone. *)
Definition gone (r : Runtime E) : Prop := lock (root_isolate_ (controller r)) r = None.

Lemma with_window_gone (f : nat → rt E unit) r b r' : gone r → with_window f r ⇓ (b, r') → b = false ∧ r' = r.
Proof.
  intros Hg. unfold with_window, GetWindowIfAvailable, root_isolate, mbind, rt_bind, gets.
  rewrite Hg. by intros [= <- <-].
Qed.

(** ** The setters *)

(** A setter stores the update [c] and calls its hook on the window. *)
Definition setter (c : WindowUpdate) (body : nat → rt E unit) : rt E bool :=
  _ ← store (λ d, apply_update d c); with_window body.

Lemma setter_spec c body r b r' :
  (∀ i r, ready i r → steps i [hook_of c] (body i) r) → setter c body r ⇓ (b, r') →
  let r0 := set_controller (set_data (λ d, apply_update d c)) r in
  (∀ i, ready i r → b = true ∧ window_step i [hook_of c] r0 r') ∧ (gone r → b = false ∧ r' = r0).
Proof.
  intros Hbody (u & r1 & [= _ <-] & Hw)%bind_inv r0. split; [|intros Hg; by eapply with_window_gone].
  intros i Hr. eapply (with_window_ready body i [hook_of c]) in Hw; [done|done|]. by apply Hbody.
Qed.

Lemma UpdateWindowMetrics_steps i m r :
  ready i r → steps i [UpdateWindowMetricsHook (metrics_args m)] (UpdateWindowMetrics framework i m) r.
Proof.
  intros Hr. eapply (steps_bind i [] [_]); [by apply steps_window|]. intros _ r1 _ Hs.
  apply call_hook_steps. by eapply window_step_ready.
Qed.

(** The setter of each update. *)
Definition set_hook (c : WindowUpdate) : rt E bool :=
  match c with
  | SetMetrics m => SetViewportMetrics framework m
  | SetLocaleData l => SetLocales framework l
  | SetSettings s => SetUserSettingsData framework s
  | SetLifecycle s => SetLifecycleState framework s
  | SetSemantics b => SetSemanticsEnabled framework b
  | SetAccessibility z => SetAccessibilityFeatures framework z
  end.

Lemma set_hook_spec c r b r' :
  set_hook c r ⇓ (b, r') →
  let r0 := set_controller (set_data (λ d, apply_update d c)) r in
  (∀ i, ready i r → b = true ∧ window_step i [hook_of c] r0 r') ∧ (gone r → b = false ∧ r' = r0).
Proof.
  intros Hs. destruct c; cbn [set_hook] in Hs; eapply setter_spec; try exact Hs;
    intros i0 r0 Hr0; first [by apply call_hook_steps|by apply UpdateWindowMetrics_steps].
Qed.

Lemma ready_data i f r : ready i r → ready i (set_controller (set_data f) r).
Proof. done. Qed.

Lemma hooks_step i j cs r r' : window_step i cs r r' → hooks j r' = hooks j r ++ (if decide (i = j) then cs else []).
Proof.
  intros Hs. unfold hooks. rewrite (ws_calls _ _ _ _ Hs), filter_app, fmap_app. f_equal. case_decide as Hj.
  - subst. rewrite filter_all, <- list_fmap_compose; [apply list_fmap_id|].
    apply Forall_fmap, Forall_true. done.
  - rewrite filter_none; [done|]. apply Forall_fmap, Forall_true. intros c. cbn. done.
Qed.

Lemma told_step i cs d0 r r' : window_step i cs r r' → told i d0 r' = foldl apply_hook (told i d0 r) cs.
Proof. intros Hs. unfold told. by rewrite (hooks_step _ _ _ _ _ Hs), decide_True, foldl_app. Qed.

(** ** The constructor tells Dart everything *)

(** The updates of the flush. *)
Definition flush_order : list (WindowData → WindowUpdate) :=
  [λ d, SetMetrics (viewport_metrics d); λ d, SetLocaleData (locale_data d); λ d, SetSemantics (semantics_enabled d);
   λ d, SetAccessibility (accessibility_feature_flags_ d); λ d, SetSettings (user_settings_data d);
   λ d, SetLifecycle (lifecycle_state d)].

Definition flush_hooks (d : WindowData) : list DartCall := (λ h, hook_of (h d)) <$> flush_order.

Lemma flush_tells d d0 : foldl apply_hook d0 (flush_hooks d) = dart_window d.
Proof. by destruct d. Qed.

Fixpoint flush_chain (hs : list (WindowData → WindowUpdate)) : rt E bool :=
  match hs with
  | [] => mret true
  | [h] => d ← data; set_hook (h d)
  | h :: hs => and_then (d ← data; set_hook (h d)) (flush_chain hs)
  end.

(** Setting what is stored already only makes the call. *)
Lemma set_hook_again i c r b r' :
  apply_update (window_data_ (controller r)) c = window_data_ (controller r) →
  ready i r → set_hook c r ⇓ (b, r') → b = true ∧ window_step i [hook_of c] r r'.
Proof.
  intros Hd Hr Hs. destruct (set_hook_spec c r b r' Hs) as [Hset _]. destruct (Hset i Hr) as [-> Hw].
  split; [done|]. replace r with (set_controller (set_data (λ d, apply_update d c)) r); [done|].
  destruct r as [? [] ? ? ? ? ? ?]. unfold set_controller, set_data. cbn in *. by rewrite Hd.
Qed.

(** The update is what is stored. *)
Definition tells_own (h : WindowData → WindowUpdate) : Prop := ∀ d, apply_update d (h d) = d.

Lemma set_own_steps i h r b r' :
  tells_own h → ready i r → (d ← data; set_hook (h d)) r ⇓ (b, r') →
  b = true ∧ window_step i [hook_of (h (window_data_ (controller r)))] r r'.
Proof. intros Hh Hr (d & r1 & [= <- <-] & Hs)%bind_inv. eapply set_hook_again; [apply Hh|done|done]. Qed.

Lemma flush_chain_steps i hs r b r' :
  Forall tells_own hs → ready i r → flush_chain hs r ⇓ (b, r') →
  b = true ∧ window_step i ((λ h, hook_of (h (window_data_ (controller r)))) <$> hs) r r'.
Proof.
  intros Hhs. revert r. induction Hhs as [|h hs Hh Hhs IH]; intros r Hr Hf.
  { injection Hf as <- <-. split; [done|apply window_step_refl]. }
  destruct hs as [|h' hs]; [by apply (set_own_steps i h)|].
  apply bind_inv in Hf as (b1 & r1 & H1 & Hf). eapply (set_own_steps i h) in H1 as [-> Hs1]; [|done..].
  destruct (IH r1) as [-> Hs2]; [by eapply window_step_ready|done|]. split; [done|].
  rewrite (ws_controller _ _ _ _ Hs1) in Hs2. exact (window_step_trans _ _ _ _ _ _ Hs1 Hs2).
Qed.

Lemma flush_steps i r b r' :
  ready i r → FlushRuntimeStateToIsolate framework r ⇓ (b, r') →
  b = true ∧ window_step i (flush_hooks (window_data_ (controller r))) r r'.
Proof.
  intros Hr Hf. apply (flush_chain_steps i flush_order); [|done|done].
  repeat (constructor; [intros d; by destruct d|]). constructor.
Qed.

(** ** The invariant of a runtime *)

(** Handles in use are below [next_handle]; the isolates are as
    DartIsolateProofs leaves them; and as long as the root isolate is alive
    its window is there and Dart was told exactly what the controller has
    stored. *)
Record runtime_inv (r : Runtime E) : Prop := {
  ri_isolates : isolates_inv (isos r);
  ri_fresh i : next_handle r ≤ i → isolates (isos r) !! i = None ∧ groups (isos r) !! i = None ∧ (i ∉ expired r) ∧ hooks i r = [];
  ri_root i : root_isolate_ (controller r) = Some i → i < next_handle r;
  ri_sync i : lock (root_isolate_ (controller r)) r = Some i →
    ready i r ∧ ∀ d0, told i d0 r = dart_window (window_data_ (controller r));
}.

(** An operation that keeps the invariant, respects the client's laws and
    changes the stored data by [f]. *)
Definition safe_to {A} (f : WindowData → WindowData) (m : rt E A) : Prop :=
  ∀ r a r', runtime_inv r → m r ⇓ (a, r') →
    runtime_inv r' ∧ R (client_ r) (client_ r') ∧ window_data_ (controller r') = f (window_data_ (controller r)).
Definition safe {A} (m : rt E A) : Prop := safe_to id m.

Lemma lock_step i cs r r' h : window_step i cs r r' → lock h r' = lock h r.
Proof. intros Hs. unfold lock. by rewrite (ws_expired _ _ _ _ Hs). Qed.

Lemma window_step_inv i cs r r' :
  window_step i cs r r' → i < next_handle r → (∀ d, foldl apply_hook d cs = d) → runtime_inv r → runtime_inv r'.
Proof.
  intros Hs Hlt Hcs [Hiso Hfresh Hroot Hsync]. split.
  - by rewrite (ws_isos _ _ _ _ Hs).
  - rewrite (ws_next _ _ _ _ Hs), (ws_isos _ _ _ _ Hs), (ws_expired _ _ _ _ Hs). intros j Hj.
    destruct (Hfresh j Hj) as (? & ? & ? & Hh). split_and!; [done..|].
    rewrite (hooks_step _ _ _ _ _ Hs), Hh, decide_False by lia. done.
  - by rewrite (ws_next _ _ _ _ Hs), (ws_controller _ _ _ _ Hs).
  - intros j. rewrite (lock_step _ _ _ _ _ Hs), (ws_controller _ _ _ _ Hs). intros Hl.
    destruct (Hsync j Hl) as [Hr Ht]. split.
    + destruct (decide (i = j)) as [->|Hne]; [by eapply window_step_ready|].
      destruct Hr as (? & ? & ? & ? & Hw & ?). destruct Hs as [? Hc Hi He ? ? (f & Hf & _)].
      unfold ready. rewrite Hc, Hi, He, Hf, lookup_alter_ne by done. eauto 10.
    + intros d0. rewrite <- (Ht d0). unfold told. rewrite (hooks_step _ _ _ _ _ Hs). case_decide; [|by rewrite app_nil_r].
      by rewrite foldl_app, Hcs.
Qed.

Lemma lock_Some h (r : Runtime E) i : lock h r = Some i → h = Some i ∧ (i ∉ expired r).
Proof. unfold lock. destruct h as [j|]; cbn; [|done]. case_decide; [done|]. by intros [= ->]. Qed.

(** Either the root isolate is gone or its window is ready. *)
Lemma inv_cases r : runtime_inv r → gone r ∨ ∃ i, ready i r ∧ i < next_handle r.
Proof.
  intros Hi. unfold gone. destruct (lock (root_isolate_ (controller r)) r) as [i|] eqn:Hl; [right|by left].
  destruct (ri_sync r Hi i Hl) as [Hr _]. exists i. split; [done|]. apply (ri_root r Hi). by apply lock_Some in Hl as [? _].
Qed.

(** Calls of the window that tell nothing about its state. *)
Lemma with_window_safe (f : nat → rt E unit) :
  (∀ i r, ready i r → ∃ cs, (∀ d, foldl apply_hook d cs = d) ∧ steps i cs (f i) r) → safe (with_window f).
Proof.
  intros Hf r b r' Hi Hw. destruct (inv_cases r Hi) as [Hg|(i & Hr & Hlt)].
  - destruct (with_window_gone _ _ _ _ Hg Hw) as [_ ->]. done.
  - destruct (Hf i r Hr) as (cs & Hcs & Hs). destruct (with_window_ready f i cs r Hr Hs b r' Hw) as [_ Hs'].
    split_and!; [by eapply window_step_inv|apply Hs'|by rewrite (ws_controller _ _ _ _ Hs')].
Qed.

Lemma set_hook_safe c : safe_to (λ d, apply_update d c) (set_hook c).
Proof.
  intros r b r' Hi Hs. destruct (set_hook_spec c r b r' Hs) as [Hset Hgone].
  set (r0 := set_controller (set_data (λ d, apply_update d c)) r) in *.
  destruct (inv_cases r Hi) as [Hg|(i & Hr & Hlt)].
  - destruct (Hgone Hg) as [_ ->]. split; [|done]. destruct Hi as [? ? ? _]. split; try done.
    intros j Hj. change (lock (root_isolate_ (controller r)) r = Some j) in Hj. by rewrite Hg in Hj.
  - destruct (Hset i Hr) as [_ Hw]. split; [|split; [by apply Hw|by rewrite (ws_controller _ _ _ _ Hw)]].
    destruct Hi as [Hiso Hfresh Hroot Hsync]. split.
    + by rewrite (ws_isos _ _ _ _ Hw).
    + rewrite (ws_next _ _ _ _ Hw), (ws_isos _ _ _ _ Hw), (ws_expired _ _ _ _ Hw). intros j Hj.
      destruct (Hfresh j Hj) as (? & ? & ? & Hh). split_and!; [done..|].
      rewrite (hooks_step _ _ _ _ _ Hw), decide_False by (cbn in Hj; lia). by rewrite app_nil_r.
    + rewrite (ws_next _ _ _ _ Hw), (ws_controller _ _ _ _ Hw). apply Hroot.
    + intros j. rewrite (lock_step _ _ _ _ _ Hw), (ws_controller _ _ _ _ Hw). intros Hl.
      destruct (Hsync j Hl) as [Hrj Ht]. assert (j = i) as -> by (destruct Hr, Hrj; congruence). split; [by eapply window_step_ready|].
      intros d0. rewrite (told_step _ _ _ _ _ Hw). cbn. rewrite dart_window_update. f_equal. apply (Ht d0).
Qed.

(** ** Calls of the window *)

Lemma alive_inv {B} i (f : bool → rt E B) r b r' :
  ready i r → (dart_state i ≫= f) r ⇓ (b, r') → f true r ⇓ (b, r').
Proof. intros Hr. by rewrite (bind_eq _ _ _ _ _ (dart_state_ready _ _ Hr)). Qed.

Ltac alive_steps Hr := intros ? ? Hrun%(alive_inv _ _ _ _ _ Hr); revert Hrun; cbn [negb].

Lemma DispatchPlatformMessage_steps i m r :
  ready i r → ∃ cs, (∀ d, foldl apply_hook d cs = d) ∧ steps i cs (Window_DispatchPlatformMessage framework alloc_fails i m) r.
Proof.
  intros Hr. destruct (hasData_ m && alloc_fails r) eqn:Hfail.
  { exists []. split; [done|]. alive_steps Hr. unfold mbind, rt_bind, gets. rewrite Hfail. by intros [= _ <-]; apply window_step_refl. }
  destruct (response_ m) as [resp|] eqn:Hresp.
  - destruct Hr as (? & ? & ? & w & Hw & ?) eqn:Heq. clear Heq.
    exists [DispatchPlatformMessageHook (channel_ m) (if hasData_ m then Some (data_ m) else None) (next_response_id_ w)].
    split; [done|]. alive_steps Hr. rewrite (bind_eq _ _ _ _ _ eq_refl), Hfail, Hresp. cbn beta iota.
    intros (id & r1 & Hid & Hrun)%bind_inv. apply bind_inv in Hid as (w' & r2 & Hgw & Hid).
    pose proof (get_window_pure _ _ _ _ Hgw) as ->.
    assert (w' = w) as ->. { unfold get_window, mbind, rt_bind, gets, lift in Hgw. rewrite Hw in Hgw. by injection Hgw. }
    apply bind_inv in Hid as (nx & r3 & Hnx & Hid). pose proof (lift_pure _ _ _ _ Hnx) as ->.
    apply bind_inv in Hid as (u & r4 & Hup & Hid). injection Hid as <- <-.
    eapply (window_step_trans i [] [_]); [by eapply steps_window, Hup; intros []|by eapply DartInvoke_steps].
  - exists [DispatchPlatformMessageHook (channel_ m) (if hasData_ m then Some (data_ m) else None) 0].
    split; [done|]. alive_steps Hr. rewrite (bind_eq _ _ _ _ _ eq_refl), Hfail, Hresp. cbn beta iota.
    intros (id & r1 & [= <- <-] & Hrun)%bind_inv. by eapply DartInvoke_steps.
Qed.

Lemma DispatchPointerDataPacket_steps i p r :
  ready i r → ∃ cs, (∀ d, foldl apply_hook d cs = d) ∧ steps i cs (Window_DispatchPointerDataPacket framework alloc_fails i p) r.
Proof.
  intros Hr. exists (if alloc_fails r then [] else [DispatchPointerDataPacketHook p]). split; [by intros; case_match|].
  alive_steps Hr. rewrite (bind_eq _ _ _ _ _ eq_refl). cbn beta. destruct (alloc_fails r).
  - intros [= _ <-]. apply window_step_refl.
  - apply DartInvoke_steps.
Qed.

Lemma DispatchSemanticsAction_steps i id action args r :
  ready i r → ∃ cs, (∀ d, foldl apply_hook d cs = d) ∧ steps i cs (Window_DispatchSemanticsAction framework alloc_fails i id action args) r.
Proof.
  intros Hr. destruct (negb (String.length args =? 0)%nat && alloc_fails r) eqn:Hf.
  - exists []. split; [done|]. alive_steps Hr. rewrite (bind_eq _ _ _ _ _ eq_refl). cbn beta. rewrite Hf.
    intros [= _ <-]. apply window_step_refl.
  - eexists [_]. split; [|alive_steps Hr; rewrite (bind_eq _ _ _ _ _ eq_refl); cbn beta; rewrite Hf; apply DartInvoke_steps].
    done.
Qed.

Lemma BeginFrame_steps i t r :
  ready i r → ∃ cs, (∀ d, foldl apply_hook d cs = d) ∧ steps i cs (Window_BeginFrame framework i t) r.
Proof.
  intros Hr. destruct (TimePoint.diff t 0%Z) as [d|] eqn:Hd.
  - exists [BeginFrameHook (TimeDelta.ToMicroseconds d); FlushMicrotasksNow; DrawFrameHook]. split; [done|].
    alive_steps Hr. unfold mbind at 1, rt_bind at 1, lift. rewrite Hd.
    revert a r'. apply (steps_bind i [_] [_; _]); [apply DartInvoke_steps|]. intros.
    apply (steps_bind i [_] [_]); [apply DartInvoke_steps|]. intros. apply DartInvoke_steps.
  - exists []. split; [done|]. alive_steps Hr. unfold mbind at 1, rt_bind at 1, lift. by rewrite Hd.
Qed.

Lemma ReportTimings_steps i l r :
  ready i r → ∃ cs, (∀ d, foldl apply_hook d cs = d) ∧ steps i cs (Window_ReportTimings framework alloc_fails i l) r.
Proof.
  intros Hr. exists [ReportTimingsHook l]. split; [done|]. alive_steps Hr. rewrite (bind_eq _ _ _ _ _ eq_refl). cbn beta.
  revert a r'. apply steps_pure; [intros; by eauto with runtime|]. intros. apply DartInvoke_steps.
Qed.

Lemma NotifyIdle_safe d : safe (Controller_NotifyIdle d).
Proof.
  intros r b r' Hi. unfold Controller_NotifyIdle, root_isolate. rewrite (bind_eq _ _ _ _ _ eq_refl). cbn beta.
  destruct (lock (root_isolate_ (controller r)) r) as [i|] eqn:Hl; [|by intros [= _ <-]].
  intros (u & r1 & [= _ <-] & [= _ <-])%bind_inv. split; [|done].
  assert (Hs : window_step i [NotifyIdleHook d] r (log_dart i (NotifyIdleHook d) r)).
  { split; try done. exists id. split; [|done]. symmetry. by apply alter_id. }
  eapply window_step_inv; [done| |done|done]. apply (ri_root r Hi). by apply lock_Some in Hl as [? _].
Qed.

(** ** Isolates and controllers *)

Lemma kept_window w w' j : (∀ k, kept window_ k w w') → window_ <$> isolates w' !! j = window_ <$> isolates w !! j.
Proof. intros Hk. destruct (Hk (S j)) as [Hw _]. apply Hw. lia. Qed.

Lemma kept_id i w w' j : kept id i w w' → j ≠ i → isolates w' !! j = isolates w !! j.
Proof. intros [Hk _] Hj. specialize (Hk j Hj). by rewrite !option_fmap_id in Hk. Qed.

Lemma set_isos_inv r w' :
  runtime_inv r → isolates_inv w' → (∀ k, kept window_ k (isos r) w') → runtime_inv (set_isos w' r).
Proof.
  intros [Hiso Hfresh Hroot Hsync] Hw' Hk. split; [done| |done|].
  - intros i Hlt. destruct (Hfresh i Hlt) as (Hi & Hg & He & Hh). split_and!; [| |done..].
    + pose proof (kept_window _ _ i Hk) as Hw. rewrite Hi in Hw. cbn in *. by destruct (isolates w' !! i).
    + destruct (Hk (S i)) as [_ Hgr]. apply Hgr; [lia|done].
  - intros i Hl. destruct (Hsync i Hl) as [(Hr & He & (x & Hx & Hwin) & Hw) Ht]. split; [|done].
    split_and!; [done..| |done]. pose proof (kept_window _ _ i Hk) as Hkw. rewrite Hx in Hkw. cbn in *.
    destruct (isolates w' !! i) as [x'|]; [|done]. exists x'. split; [done|]. cbn in Hkw. congruence.
Qed.

Lemma returns_det {A} (m : iso A) w a w' Q : m w ⇓ (a, w') → returns m w Q → Q a w'.
Proof. intros Hm (b & w2 & Hm' & HQ). rewrite Hm in Hm'. by simplify_eq. Qed.

(** Operations on isolates that keep the isolates' own invariant. *)
Lemma lift_iso_safe {A} (m : iso A) :
  (∀ w a w', isolates_inv w → m w ⇓ (a, w') → isolates_inv w') → (∀ k, keeps window_ k m) → safe (lift_iso m).
Proof.
  intros Hm Hk r a r' Hi. unfold lift_iso. destruct (m (isos r)) as [[b w']|] eqn:Hr; [|done].
  intros [= _ <-]. split; [|done]. apply set_isos_inv; [done| |].
  - eapply Hm; [apply Hi|done].
  - intros k. by eapply Hk.
Qed.

Context `{Build} (vm : nat → VmQuery → bool) (cr sh : closure) (debug_name : nat → string).
#[local] Set Default Proof Using "All".

Lemma isolate_call_inv c w b w' :
  isolates_inv w → valid_call c w → isolate_call vm c w ⇓ (b, w') → isolates_inv w' ∧ advances b w w'.
Proof.
  intros Hi Hv Hc.
  exact (returns_det _ _ _ _ (λ b w', isolates_inv w' ∧ advances b w w') Hc (isolate_call_spec vm c w Hi Hv)).
Qed.

Lemma get_isolate_safe i : safe (lift_iso (get_isolate i)).
Proof.
  apply lift_iso_safe; [|intros; apply keeps_get]. intros w a w' Hi. unfold get_isolate.
  destruct (isolates w !! i); [|done]. by intros [= _ <-].
Qed.

Lemma expire_inv i r : runtime_inv r → i < next_handle r → runtime_inv (set_expired i r).
Proof.
  intros [Hiso Hfresh Hroot Hsync] Hlt. split; [done| |done|].
  - intros j Hj. destruct (Hfresh j Hj) as (? & ? & ? & ?). split_and!; try done. cbn. cbn in Hj. set_unfold. intros [?|?]; [lia|done].
  - intros j Hl. assert (j ≠ i ∧ lock (root_isolate_ (controller r)) r = Some j) as [Hne Hl'].
    { apply lock_Some in Hl as [Hrt Hex]. cbn in *. split; [set_solver|]. unfold lock. rewrite Hrt. cbn. rewrite decide_False; [done|set_solver]. }
    destruct (Hsync j Hl') as [(? & ? & ? & w & Hw & Hlib) Ht]. split; [|done]. split_and!; [done| |done|].
    + cbn. set_solver.
    + exists w. cbn. by rewrite lookup_delete_ne.
Qed.

Lemma OnShutdown_isolates i w a w' :
  OnShutdownCallback i w ⇓ (a, w') → isolates w' = alter (set_shutdown_callbacks []) i (isolates w).
Proof.
  unfold OnShutdownCallback, get_isolate, get_group, emit, modify_isolate, mbind, iso_bind, mbind, result_bind.
  destruct (isolates w !! i) as [x|]; [|done]. cbn. destruct (groups w !! group_ x); [|done]. cbn. intros Heq.
  by inversion Heq.
Qed.

Lemma Shutdown_isolates i w a w' :
  Shutdown i w ⇓ (a, w') → phase_ <$> isolates w' !! i = Some ShutDown.
Proof.
  unfold Shutdown, get_isolate, modify_isolate, mbind, iso_bind, mbind, result_bind.
  destruct (isolates w !! i) as [x|] eqn:Hx; [|done]. cbn. destruct (phase_is ShutDown x) eqn:Hp; intros Heq; inversion Heq; subst.
  - rewrite Hx. apply phase_is_true in Hp. cbn. by rewrite Hp.
  - cbn. by rewrite lookup_alter_eq, Hx.
Qed.

Lemma vm_shutdown_inv i r a r' :
  runtime_inv r → i < next_handle r → vm_shutdown_isolate i r ⇓ (a, r') →
  runtime_inv r' ∧ client_ r' = client_ r ∧ i ∈ expired r' ∧ expired r' = {[i]} ∪ expired r ∧ controller r' = controller r ∧
  next_handle r' = next_handle r ∧ dart_calls r' = dart_calls r ∧ kept id i (isos r) (isos r') ∧
  phase_ <$> isolates (isos r') !! i = phase_ <$> isolates (isos r) !! i.
Proof.
  intros Hi Hlt (u & r1 & Hs & [= _ <-])%bind_inv. revert Hs. unfold lift_iso.
  destruct (OnShutdownCallback i (isos r)) as [[[] w']|] eqn:Hc; [|done]. intros [= _ <-].
  split_and!; try done; [|cbn; set_solver|eapply OnShutdown_keeps; [by left|done]|];
    last (cbn; rewrite (OnShutdown_isolates _ _ _ _ Hc), lookup_alter_eq; by destruct (isolates (isos r) !! i)).
  apply expire_inv; [|done]. apply set_isos_inv; [done| |].
  - assert (Hv : valid_call (CallOnShutdown i) (isos r)).
    { cbn. revert Hc. unfold OnShutdownCallback, get_isolate. cbn. unfold mbind, iso_bind, mbind, result_bind.
      destruct (isolates (isos r) !! i); [by eexists|done]. }
    eapply (isolate_call_inv (CallOnShutdown i) _ true); [apply Hi|done|]. cbn [isolate_call].
    unfold mbind, iso_bind, mbind, result_bind. by rewrite Hc.
  - intros k. eapply OnShutdown_keeps; [by right|done].
Qed.

(** A fresh isolate with a window, before anything was told. *)
Record constructed (d : WindowData) (i : nat) (r r' : Runtime E) : Prop := {
  cons_isolates : isolates_inv (isos r') ∧ kept id i (isos r) (isos r') ∧ advances true (isos r) (isos r');
  cons_phase : ∃ x, isolates (isos r') !! i = Some x ∧ phase_ x = LibrariesSetup ∧ window_ x = true;
  cons_client : R (client_ r) (client_ r');
  cons_controller : controller r' = mkController d (Some i) (false, 0%Z);
  cons_expired : expired r' = expired r;
  cons_next : next_handle r' = S i;
  cons_calls : dart_calls r' = dart_calls r;
  cons_windows : windows r' = <[i := mkWindow (debug_name i) true new_metrics 1 ∅]> (windows r);
}.

Lemma new_controller_parts d r a r' :
  runtime_inv r → new_controller framework vm cr sh debug_name d r ⇓ (a, r') →
  ∃ r1, constructed d (next_handle r) r r1 ∧ ∃ b, FlushRuntimeStateToIsolate framework r1 ⇓ (b, r').
Proof.
  intros Hi H0. set (i := next_handle r) in *. destruct (ri_fresh r Hi i (le_n _)) as (Hfi & Hfg & Hfe & Hfh).
  apply bind_inv in H0 as (i' & r0 & [= <- <-] & H0). apply bind_inv in H0 as (u1 & r1 & [= _ <-] & H0).
  apply bind_inv in H0 as (created & r2 & Hc & H0). unfold lift_iso in Hc. cbn [isos set_next_handle] in Hc. fold i in Hc.
  destruct (CreateRootIsolate vm i i true true cr sh (isos r)) as [[b w']|] eqn:Hcreate; [|done]. injection Hc as <- <-.
  destruct (returns_det _ _ _ _ _ Hcreate (CreateRootIsolate_spec vm i i true true cr sh (isos r) (ri_isolates r Hi) Hfi Hfg))
    as (Hw' & Hadv & Hx).
  apply bind_inv in H0 as (u2 & r3 & Hchk & H0). pose proof (lift_pure _ _ _ _ Hchk) as ->.
  assert (b = true) as -> by (destruct b; [done|by unfold lift, fml_check in Hchk]). clear Hchk.
  destruct (Hx eq_refl) as (x & Hxi & Hph & Hwin). specialize (Hwin eq_refl).
  apply bind_inv in H0 as (u3 & r4 & [= _ <-] & H0). apply bind_inv in H0 as (u4 & r5 & [= _ <-] & H0).
  apply bind_inv in H0 as (u5 & r6 & [= _ <-] & H0). apply bind_inv in H0 as (win & r7 & Hwa & H0).
  match type of Hwa with GetWindowIfAvailable ?r0 ⇓ _ => assert (GetWindowIfAvailable r0 ⇓ (Some i, r0)) as Hwa' end.
  { unfold GetWindowIfAvailable, root_isolate, lift_iso, get_isolate, mbind, rt_bind, gets, lock. cbn.
    fold i. rewrite decide_False by done. cbn. rewrite Hxi. cbn. by rewrite Hwin. }
  rewrite Hwa' in Hwa. injection Hwa as <- <-.
  apply bind_inv in H0 as (u6 & r8 & [= _ <-] & H0). apply bind_inv in H0 as (fl & r9 & Hflush & [= _ <-]).
  match type of Hflush with _ ?r0 ⇓ _ => exists r0 end. split; [|by eexists]. split; cbn; try done.
  - split_and!; [done| |done]. by eapply CreateRootIsolate_keeps.
  - by exists x.
  - apply UpdateIsolateDescription_law.
  - apply map_eq. intros j. destruct (decide (j = i)) as [->|Hne].
    + by rewrite lookup_alter_eq, !lookup_insert_eq.
    + by rewrite lookup_alter_ne, !lookup_insert_ne.
Qed.

Lemma constructed_ready d i r r' : constructed d i r r' → i ∉ expired r → ready i r'.
Proof.
  intros [_ (x & Hx & _ & Hw) _ Hc He _ _ Hwin] Hfe. unfold ready. rewrite Hc, He, Hwin. split_and!; [done|done|by exists x|].
  exists (mkWindow (debug_name i) true new_metrics 1 ∅). by rewrite lookup_insert_eq.
Qed.

Lemma new_controller_spec d r a r' :
  runtime_inv r → new_controller framework vm cr sh debug_name d r ⇓ (a, r') →
  runtime_inv r' ∧ ∃ r1, constructed d (next_handle r) r r1 ∧ window_step (next_handle r) (flush_hooks d) r1 r'.
Proof.
  intros Hi H0. destruct (new_controller_parts d r a r' Hi H0) as (r1 & Hcons & b & Hflush).
  set (i := next_handle r) in *. destruct (ri_fresh r Hi i (le_n _)) as (Hfi & Hfg & Hfe & Hfh).
  pose proof (constructed_ready _ _ _ _ Hcons Hfe) as Hready. pose proof Hcons as [(Hiso & Hkept & _) _ _ Hc He Hn Hcalls _].
  destruct (flush_steps i r1 b r' Hready Hflush) as [_ Hs]. rewrite Hc in Hs. cbn in Hs.
  split; [|by exists r1]. split.
  - by rewrite (ws_isos _ _ _ _ Hs).
  - rewrite (ws_next _ _ _ _ Hs), (ws_isos _ _ _ _ Hs), (ws_expired _ _ _ _ Hs), Hn, He. intros j Hj.
    destruct (ri_fresh r Hi j ltac:(unfold i in *; lia)) as (Hji & Hjg & Hje & Hjh). destruct Hkept as [Hkw Hkg].
    split_and!; [| |done|].
    + specialize (Hkw j ltac:(lia)). by rewrite !option_fmap_id, Hji in Hkw.
    + apply Hkg; [lia|done].
    + rewrite (hooks_step _ _ _ _ _ Hs), decide_False by lia. unfold hooks in *. by rewrite Hcalls, Hjh.
  - rewrite (ws_next _ _ _ _ Hs), (ws_controller _ _ _ _ Hs), Hn, Hc. cbn. intros j [= <-]. lia.
  - intros j. rewrite (lock_step _ _ _ _ _ Hs), (ws_controller _ _ _ _ Hs), Hc. intros [[= <-] _]%lock_Some.
    split; [by eapply window_step_ready|]. intros d0. rewrite (told_step _ _ _ _ _ Hs). apply flush_tells.
Qed.

(** Destroying a controller shuts its isolate down, which is then gone. *)
Lemma destroy_spec h r a r' :
  runtime_inv r → (∀ i, h = Some i → i < next_handle r) → destroy_controller h r ⇓ (a, r') →
  runtime_inv r' ∧ client_ r' = client_ r ∧ controller r' = controller r ∧ next_handle r' = next_handle r ∧
  dart_calls r' = dart_calls r ∧
  (∀ j, j ∈ expired r' → j ∈ expired r ∨ h = Some j) ∧
  (∀ j, h ≠ Some j → isolates (isos r') !! j = isolates (isos r) !! j) ∧
  (∀ i, lock h r = Some i → phase_ <$> isolates (isos r') !! i = Some ShutDown) ∧
  (∀ i x, h = Some i → isolates (isos r) !! i = Some x → isolate_ x = true → phase_ x ≠ ShutDown → i ∈ expired r').
Proof.
  intros Hi Hh. unfold destroy_controller. rewrite (bind_eq _ _ _ _ _ eq_refl). cbn beta.
  destruct (lock h r) as [i|] eqn:Hl; last first.
  { intros [= _ <-]. split_and!; try done; [naive_solver|]. intros i x -> _ _ _. unfold lock in Hl. cbn in Hl. by case_decide. }
  apply lock_Some in Hl as [-> Hex]. intros (x & r1 & Hx & H0)%bind_inv.
  unfold lift_iso, get_isolate in Hx. destruct (isolates (isos r) !! i) as [x'|] eqn:Hxi; [|done]. injection Hx as <- <-.
  apply bind_inv in H0 as (told & r2 & Ht & H0). unfold lift_iso in Ht. cbn [isos set_isos] in Ht.
  destruct (Shutdown i (isos r)) as [[b w']|] eqn:Hsd; [|done]. injection Ht as <- <-.
  assert (Hi2 : runtime_inv (set_isos w' r)).
  { apply set_isos_inv; [done| |intros k; eapply Shutdown_keeps; [by right|done]].
    eapply (isolate_call_inv (CallShutdown i)); [apply Hi|by eexists|exact Hsd]. }
  assert (Hoth : kept id i (isos r) w') by (eapply Shutdown_keeps; [by left|exact Hsd]).
  assert (Hb : b = negb (phase_is ShutDown x')).
  { revert Hsd. unfold Shutdown, get_isolate, mbind, iso_bind, mbind, result_bind. rewrite Hxi. cbn.
    destruct (phase_is ShutDown x'); by intros [= <- _]. }
  destruct (b && isolate_ x') eqn:Hgo.
  - change (set_isos w' (set_isos (isos r) r)) with (set_isos w' r) in H0.
    destruct (vm_shutdown_inv i _ a r' Hi2 (Hh i eq_refl) H0) as (? & ? & ? & Hexp & ? & ? & ? & Hoth2 & Hph2).
    split_and!; try done.
    + intros j. rewrite Hexp. cbn. set_solver.
    + intros j Hj. apply (kept_id i); [by etrans|congruence].
    + intros j Hj. injection Hj as <-. rewrite Hph2. by eapply Shutdown_isolates.
    + intros i' y [= <-] _ _ _. done.
  - injection H0 as _ <-. change (set_isos w' (set_isos (isos r) r)) with (set_isos w' r). split_and!; try done.
    + naive_solver.
    + intros j Hj. apply (kept_id i); [done|congruence].
    + intros j Hj. injection Hj as <-. by eapply Shutdown_isolates.
    + intros i' y [= <-] Hy Hiso Hne. rewrite Hxi in Hy. injection Hy as ->. rewrite Hiso, andb_true_r, Hb in Hgo.
      apply negb_false_iff, phase_is_true in Hgo. done.
Qed.

(** What [Clone] leaves. *)
Record cloned (r r' : Runtime E) : Prop := {
  clone_inv : runtime_inv r';
  clone_client : R (client_ r) (client_ r');
  clone_data : window_data_ (controller r') = window_data_ (controller r);
  clone_root : root_isolate_ (controller r') = Some (next_handle r);
  clone_alive : next_handle r ∉ expired r';
  clone_code : root_isolate_return_code_ (controller r') = (false, 0%Z);
  clone_phase : ∃ x, isolates (isos r') !! next_handle r = Some x ∧ phase_ x = LibrariesSetup;
  clone_old i x : root_isolate_ (controller r) = Some i → isolates (isos r) !! i = Some x → isolate_ x = true →
    phase_ x ≠ ShutDown → i ∈ expired r';
  clone_shutdown i : lock (root_isolate_ (controller r)) r = Some i →
    phase_ <$> isolates (isos r') !! i = Some ShutDown;
}.

Lemma Clone_spec r a r' :
  runtime_inv r → Clone framework vm cr sh debug_name r ⇓ (a, r') → cloned r r'.
Proof.
  intros Hi (old & r0 & [= <- <-] & H0)%bind_inv. apply bind_inv in H0 as (u & r2 & Hnew & Hdes).
  set (i := next_handle r) in *. destruct (ri_fresh r Hi i (le_n _)) as (_ & _ & Hfe & _).
  destruct (new_controller_spec _ _ _ _ Hi Hnew) as (Hi2 & r1 & Hcons & Hs). fold i in Hcons, Hs.
  pose proof Hcons as [(_ & Hkept & _) (x & Hx & Hph & _) HR Hc He Hn _ _].
  assert (Hroot : ∀ j, root_isolate_ (controller r) = Some j → j < i) by apply (ri_root r Hi).
  destruct (destroy_spec (root_isolate_ (controller r)) r2 a r' Hi2) as (Hi3 & Hcl & Hctl & _ & _ & Hexp & Hoth & Hsd & Hold).
  { rewrite (ws_next _ _ _ _ Hs), Hn. intros j Hj%Hroot. lia. }
  { done. }
  assert (Hneq : root_isolate_ (controller r) ≠ Some i) by (intros Hj%Hroot; lia).
  split; rewrite ?Hcl, ?Hctl, ?(ws_controller _ _ _ _ Hs), ?Hc; try done.
  - etrans; [exact HR|apply Hs].
  - intros [Hin|]%Hexp; [|done]. by rewrite (ws_expired _ _ _ _ Hs), He in Hin.
  - exists x. by rewrite Hoth, (ws_isos _ _ _ _ Hs).
  - intros j y Hj Hy. apply Hold; [done|]. rewrite (ws_isos _ _ _ _ Hs). rewrite (kept_id i _ _ j Hkept); [done|].
    intros ->. done.
  - intros j Hj. apply Hsd. unfold lock in *. by rewrite (ws_expired _ _ _ _ Hs), He.
Qed.

Lemma Clone_safe : safe (Clone framework vm cr sh debug_name).
Proof. intros r a r' Hi Hc. destruct (Clone_spec _ _ _ Hi Hc). auto. Qed.
End proofs.
