(* ===== verification/PlatformMessages.v ===== *)
(** * PlatformMessages: answering what Dart was sent

    The table of pending responses of a window (lib/ui/window/window.cc) in
    every sequence of runtime operations: which responses are pending, which
    were completed, and that a pending one stays until it is answered. *)

From Stdlib Require Import ZArith Lia.
From stdpp Require Import base numbers list gmap sets fin_maps relations strings.
From S2P Require Import Prelude Float64 Time TaskQueues DartIsolate RuntimeController.

Create HintDb responses.

Section responses.
Context {E : Type} `{RuntimeDelegate E}.
#[local] Set Default Proof Using "Type*".

(** Response [x] waits in the window of isolate [i] under the identifier [n]. *)
Definition pending (r : Runtime E) (i : nat) (n : Z) (x : nat) : Prop :=
  ∃ w, windows r !! i = Some w ∧ pending_responses_ w !! n = Some x.

Definition answered_in (r : Runtime E) (x : nat) : Prop := x ∈ (completed r).*1.

(** [D]: the responses of the messages dispatched so far. *)
Record responses_inv (D : gset nat) (r : Runtime E) : Prop := {
  rv_once : NoDup (completed r).*1;
  rv_known x : answered_in r x → x ∈ D;
  rv_pending i n x : pending r i n x → x ∈ D ∧ ¬ answered_in r x;
  rv_unique i j n m x : pending r i n x → pending r j m x → i = j ∧ n = m;
  rv_ids i w n : windows r !! i = Some w → is_Some (pending_responses_ w !! n) → (0 < n < next_response_id_ w)%Z;
  rv_next i w : windows r !! i = Some w → (0 < next_response_id_ w)%Z ∧ i < next_handle r;
}.

(** What later states keep: a response waits until it is answered or its
    isolate is gone. *)
Record later (r r' : Runtime E) : Prop := {
  later_pending i n x : pending r i n x → i ∈ expired r' ∨ answered_in r' x ∨ pending r' i n x;
  later_answered : completed r `prefix_of` completed r';
  later_expired : expired r ⊆ expired r';
}.

#[export] Instance later_preorder : PreOrder later.
Proof.
  split; [split; [auto|done|done]|]. intros r1 r2 r3 [Hp1 Ha1 He1] [Hp2 Ha2 He2]. split; [|by etrans|by etrans].
  intros i n x [Hx|[Hx|Hx]]%Hp1; [left; set_solver|right; left|by apply Hp2].
  unfold answered_in in *. destruct Ha2 as [l ->]. rewrite fmap_app. set_solver.
Qed.

Definition answers {A} (D : gset nat) (m : rt E A) : Prop :=
  ∀ r a r', responses_inv D r → m r ⇓ (a, r') → responses_inv D r' ∧ later r r'.

Lemma answers_ret {A} D (a : A) : answers D (mret a).
Proof. intros r a' r' Hi [= _ <-]. done. Qed.

Lemma answers_bind {A B} D (m : rt E A) (f : A → rt E B) : answers D m → (∀ a, answers D (f a)) → answers D (m ≫= f).
Proof.
  intros Hm Hf r b r' Hi. unfold mbind, rt_bind. destruct (m r) as [[a r1]|] eqn:Ha; [|done]. intros Hb.
  destruct (Hm _ _ _ Hi Ha) as [Hi1 Hl1]. destruct (Hf _ _ _ _ Hi1 Hb) as [Hi2 Hl2]. split; [done|by etrans].
Qed.

Lemma answers_gets {A} D (f : Runtime E → A) : answers D (gets f).
Proof. by intros r a r' Hi [= _ <-]. Qed.
Lemma answers_lift {A} D (m : result A) : answers D (lift m).
Proof. intros r a r' Hi. unfold lift. destruct m; [|done]. by intros [= _ <-]. Qed.
Lemma answers_fault {A} D e : answers D (fault_if (A := A) e).
Proof. intros r a r' _. done. Qed.

(** Operations that change neither windows nor completions. *)
Lemma answers_other D f :
  (∀ r, windows (f r) = windows r ∧ completed (f r) = completed r ∧ expired (f r) = expired r ∧ next_handle r ≤ next_handle (f r)) →
  answers D (modify f).
Proof.
  intros Hf r a r' Hi [= _ <-]. destruct (Hf r) as (Hw & Hc & He & Hn).
  assert (Hp : ∀ i n x, pending (f r) i n x ↔ pending r i n x) by (intros; unfold pending; by rewrite Hw).
  assert (Ha : ∀ x, answered_in (f r) x ↔ answered_in r x) by (intros; unfold answered_in; by rewrite Hc).
  destruct Hi as [Ho Hk Hpe Hu Hid Hne]. split; split.
  - by rewrite Hc.
  - intros x Hx%Ha. auto.
  - intros i n x Hx%Hp. rewrite Ha. eauto.
  - intros i j n m x Hx%Hp Hy%Hp. eauto.
  - intros i w n. rewrite Hw. eauto.
  - intros i w Hwi. rewrite Hw in Hwi. destruct (Hne i w Hwi). lia.
  - intros i n x Hx. right. right. by apply Hp.
  - by rewrite Hc.
  - by rewrite He.
Qed.

Lemma answers_iso {A} D (m : iso A) : answers D (lift_iso m).
Proof.
  intros r a r' Hi. unfold lift_iso. destruct (m (isos r)) as [[b w]|]; [|done]. intros [= _ <-].
  by apply (answers_other D (set_isos w)) with (a := tt); [intros []|..].
Qed.

(** Windows keep their responses. *)
Lemma answers_window D i f :
  (∀ w, pending_responses_ (f w) = pending_responses_ w ∧ next_response_id_ (f w) = next_response_id_ w) →
  answers D (update_window i f).
Proof.
  intros Hf r a r' Hi [= _ <-]. set (r' := set_windows _ r).
  assert (Hw : ∀ j w, windows r' !! j = Some w → ∃ w0, windows r !! j = Some w0 ∧
    pending_responses_ w = pending_responses_ w0 ∧ next_response_id_ w = next_response_id_ w0).
  { intros j w. cbn. destruct (decide (i = j)) as [->|Hij]; [|rewrite lookup_alter_ne by done; eauto].
    rewrite lookup_alter_eq. destruct (windows r !! j) as [w0|]; [|done]. intros [= <-]. destruct (Hf w0). eauto. }
  assert (Hp : ∀ j n x, pending r' j n x → pending r j n x).
  { intros j n x (w & (w0 & Hw0 & Hpe & _)%Hw & Hx). exists w0. by rewrite <- Hpe. }
  destruct Hi as [Ho Hk Hpe Hu Hid Hne]. split; split; try done; eauto.
  - intros j w n (w0 & Hw0 & -> & ->)%Hw. eauto.
  - intros j w (w0 & Hw0 & _ & ->)%Hw. eauto.
  - intros j n x (w & Hwj & Hx). right. right. cbn. destruct (decide (i = j)) as [->|Hij].
    + exists (f w). cbn. rewrite lookup_alter_eq, Hwj. split; [done|]. by rewrite (proj1 (Hf w)).
    + exists w. cbn. by rewrite lookup_alter_ne.
Qed.

(** ** Answering *)

(** The state after response [x] of identifier [n] was completed. *)
Definition completes (i : nat) (n : Z) (x : nat) (data : option string) (r : Runtime E) : Runtime E :=
  log_completed x data (set_windows (alter (λ w, set_pending_responses (delete n (pending_responses_ w)) w) i) r).

Lemma completes_pending i n x data r j m y :
  pending (completes i n x data r) j m y ↔ pending r j m y ∧ ¬ (j = i ∧ m = n).
Proof.
  unfold pending. cbn. destruct (decide (i = j)) as [->|Hij].
  - rewrite lookup_alter_eq. destruct (windows r !! j) as [w|]; [|naive_solver]. split.
    + intros (w' & [= <-] & Hy). cbn in Hy. apply lookup_delete_Some in Hy as [Hne Hy]. naive_solver.
    + intros [(w' & [= <-] & Hy) Hne]. eexists. split; [done|]. cbn. apply lookup_delete_Some. naive_solver.
  - rewrite lookup_alter_ne by done. naive_solver.
Qed.

Lemma completes_ok D i n x data r :
  responses_inv D r → pending r i n x →
  responses_inv D (completes i n x data r) ∧ later r (completes i n x data r).
Proof.
  intros [Ho Hk Hpe Hu Hid Hne] Hx. destruct (Hpe i n x Hx) as [HxD Hxa].
  assert (Ha : ∀ y, answered_in (completes i n x data r) y ↔ answered_in r y ∨ y = x).
  { intros y. unfold answered_in. cbn. rewrite fmap_app. set_solver. }
  split; split.
  - cbn. rewrite fmap_app. apply NoDup_app. split_and!; [done| |apply NoDup_singleton].
    intros y Hy. cbn. intros ->%list_elem_of_singleton. by apply Hxa.
  - intros y [Hy| ->]%Ha; auto.
  - intros j m y [Hy Hjm]%completes_pending. destruct (Hpe j m y Hy) as [? Hna]. split; [done|].
    intros [?| ->]%Ha; [done|]. apply Hjm. eauto.
  - intros j k m m' y [Hy _]%completes_pending [Hy' _]%completes_pending. eauto.
  - intros j w m. cbn. destruct (decide (i = j)) as [->|Hij].
    + rewrite lookup_alter_eq. destruct (windows r !! j) as [w0|] eqn:Hw; [|done]. intros [= <-] [y Hy]. cbn in *.
      apply lookup_delete_Some in Hy as [_ Hy]. eauto.
    + rewrite lookup_alter_ne by done. eauto.
  - intros j w. cbn. destruct (decide (i = j)) as [->|Hij].
    + rewrite lookup_alter_eq. destruct (windows r !! j) as [w0|] eqn:Hw; [|done]. intros [= <-]. cbn. eauto.
    + rewrite lookup_alter_ne by done. eauto.
  - intros j m y Hy. right. destruct (decide (j = i ∧ m = n)) as [[-> ->]|Hne'].
    + left. apply Ha. right. destruct Hx as (w & Hw & Hx), Hy as (w' & Hw' & Hy). congruence.
    + right. by apply completes_pending.
  - cbn. by apply prefix_app_r.
  - done.
Qed.

(** Answering by identifier: completes the response that waits under it. *)
Lemma complete_spec i n data r a r' :
  CompletePlatformMessageResponse i n data r ⇓ (a, r') →
  r' = r ∧ (n = 0%Z ∨ ∀ x, ¬ pending r i n x) ∨ n ≠ 0%Z ∧ ∃ x, pending r i n x ∧ r' = completes i n x data r.
Proof.
  unfold CompletePlatformMessageResponse. destruct (Z.eqb_spec n 0) as [->|Hn]; [intros [= _ <-]; auto|].
  unfold get_window, mbind, rt_bind, gets, lift. destruct (windows r !! i) as [w|] eqn:Hw; [|done]. cbn.
  destruct (pending_responses_ w !! n) as [x|] eqn:Hx.
  - intros [= _ <-]. right. split; [done|]. exists x. split; [by exists w|]. unfold completes, set_windows. cbn. do 2 f_equal.
    apply alter_ext. intros w' Hw'. congruence.
  - intros [= _ <-]. left. split; [done|]. right. intros y (w' & Hw' & Hy). congruence.
Qed.

(** A pending response can be answered. *)
Lemma complete_pending D i n x data r :
  responses_inv D r → pending r i n x →
  CompletePlatformMessageResponse i n data r ⇓ (tt, completes i n x data r).
Proof.
  intros Hi (w & Hw & Hx). destruct (rv_ids D r Hi i w n Hw) as [Hn _]; [by eexists|].
  unfold CompletePlatformMessageResponse. rewrite (proj2 (Z.eqb_neq n 0)) by lia.
  unfold get_window, mbind, rt_bind, gets, lift. rewrite Hw. cbn. rewrite Hx.
  unfold update_window, modify, completes, log_completed, set_windows. cbn. do 3 f_equal. apply alter_ext. intros w' Hw'. congruence.
Qed.

Lemma complete_answers D i n data : answers D (CompletePlatformMessageResponse i n data).
Proof.
  intros r a r' Hi [[-> _]|(_ & x & Hx & ->)]%complete_spec; [done|]. by apply completes_ok.
Qed.

Lemma answers_client D f : answers D (modify (set_client f)).
Proof. by apply answers_other. Qed.

(** Decomposes an operation. *)
Ltac answers_auto :=
  repeat match goal with
  | |- answers _ (mbind _ _) => apply answers_bind; [|intros ?]
  | |- answers _ (mret _) => apply answers_ret
  | |- answers _ (gets _) => apply answers_gets
  | |- answers _ (lift _) => apply answers_lift
  | |- answers _ (lift_iso _) => apply answers_iso
  | |- answers _ (if ?b then _ else _) => destruct b
  | |- answers _ (match ?x with _ => _ end) => destruct x
  | |- answers _ (modify (set_client _)) => apply answers_client
  | |- answers _ (modify (log_dart _ _)) => by apply answers_other
  | |- answers _ (modify (set_controller _)) => by apply answers_other
  | |- answers _ (update_window _ _) => by apply answers_window
  | |- answers _ _ => solve [eauto with responses]
  end.

Context (framework : nat → DartCall → Runtime E → list NativeCall) (alloc_fails : Runtime E → bool).
Context `{Build} (vm : nat → VmQuery → bool) (cr sh : closure) (debug_name : nat → string).
#[local] Set Default Proof Using "All".

Lemma get_window_answers D i : answers D (get_window i).
Proof. unfold get_window. answers_auto. Qed.
Hint Resolve get_window_answers complete_answers : responses.

Lemma dart_state_answers D i : answers D (dart_state i).
Proof. unfold dart_state. answers_auto. Qed.
Hint Resolve dart_state_answers : responses.

Lemma native_answers D i n : answers D (native i n).
Proof. destruct n; cbn [native]; answers_auto. Qed.

Hint Resolve native_answers : responses.

Lemma natives_answers D i ns : answers D (natives i ns).
Proof. induction ns; cbn [natives]; answers_auto. Qed.
Hint Resolve natives_answers : responses.

Lemma DartInvoke_answers D i c : answers D (DartInvoke framework i c).
Proof. unfold DartInvoke. answers_auto. Qed.
Hint Resolve DartInvoke_answers : responses.

Lemma call_hook_answers D i c : answers D (call_hook framework i c).
Proof. unfold call_hook. answers_auto. Qed.
Hint Resolve call_hook_answers : responses.

Lemma root_isolate_answers D : answers D root_isolate.
Proof. unfold root_isolate. answers_auto. Qed.
Hint Resolve root_isolate_answers : responses.

Lemma GetWindow_answers D : answers D GetWindowIfAvailable.
Proof. unfold GetWindowIfAvailable. answers_auto. Qed.
Hint Resolve GetWindow_answers : responses.

Lemma with_window_answers D f : (∀ i, answers D (f i)) → answers D (with_window f).
Proof. intros Hf. unfold with_window. answers_auto. Qed.

Lemma setters_answers D :
  (∀ m, answers D (SetViewportMetrics framework m)) ∧ (∀ l, answers D (SetLocales framework l)) ∧
  (∀ s, answers D (SetUserSettingsData framework s)) ∧ (∀ s, answers D (SetLifecycleState framework s)) ∧
  (∀ b, answers D (SetSemanticsEnabled framework b)) ∧ (∀ z, answers D (SetAccessibilityFeatures framework z)).
Proof.
  split_and!; intros;
    unfold SetViewportMetrics, SetLocales, SetUserSettingsData, SetLifecycleState, SetSemanticsEnabled,
      SetAccessibilityFeatures, store; apply answers_bind; try (by apply answers_other); intros;
    apply with_window_answers; intros; unfold UpdateWindowMetrics; answers_auto.
Qed.

Lemma flush_answers D : answers D (FlushRuntimeStateToIsolate framework).
Proof.
  destruct (setters_answers D) as (? & ? & ? & ? & ? & ?). unfold FlushRuntimeStateToIsolate, and_then, data.
  answers_auto.
Qed.
Hint Resolve flush_answers : responses.

Lemma frames_answers D t : answers D (Controller_BeginFrame framework t).
Proof. apply with_window_answers. intros. unfold Window_BeginFrame. answers_auto. Qed.
Lemma timings_answers D l : answers D (Controller_ReportTimings framework alloc_fails l).
Proof. apply with_window_answers. intros. unfold Window_ReportTimings. answers_auto. Qed.
Lemma packets_answers D p : answers D (Controller_DispatchPointerDataPacket framework alloc_fails p).
Proof. apply with_window_answers. intros. unfold Window_DispatchPointerDataPacket. answers_auto. Qed.
Lemma actions_answers D id action args : answers D (Controller_DispatchSemanticsAction framework alloc_fails id action args).
Proof. apply with_window_answers. intros. unfold Window_DispatchSemanticsAction. answers_auto. Qed.
Lemma idle_answers D d : answers D (Controller_NotifyIdle d).
Proof. unfold Controller_NotifyIdle. answers_auto. Qed.

(** ** Windows that come and go *)

Lemma expire_answers D i : answers D (modify (set_expired i)).
Proof.
  intros r a r' [Ho Hk Hpe Hu Hid Hne] [= _ <-].
  assert (Hw : ∀ j w, windows (set_expired i r) !! j = Some w → j ≠ i ∧ windows r !! j = Some w).
  { intros j w. cbn. rewrite lookup_delete_Some. naive_solver. }
  assert (Hp : ∀ j n x, pending (set_expired i r) j n x → pending r j n x).
  { intros j n x (w & [_ Hw']%Hw & Hx). by exists w. }
  split; split; try done; eauto.
  - intros j w n [_ Hw']%Hw. eauto.
  - intros j w [_ Hw']%Hw. cbn. eauto.
  - intros j n x (w & Hwj & Hx). destruct (decide (j = i)) as [->|Hji]; [left; cbn; set_solver|]. right. right.
    exists w. cbn. by rewrite lookup_delete_ne.
  - cbn. set_solver.
Qed.
Hint Resolve expire_answers : responses.

(** The window of a new isolate has nothing pending. *)
Lemma new_window_answers D i r :
  responses_inv D r → i < next_handle r → windows r !! i = None →
  responses_inv D (set_windows (<[i := new_window (debug_name i)]>) r) ∧ later r (set_windows (<[i := new_window (debug_name i)]>) r).
Proof.
  intros [Ho Hk Hpe Hu Hid Hne] Hlt Hnone. set (r' := set_windows _ r).
  assert (Hw : ∀ j w, windows r' !! j = Some w → w = new_window (debug_name i) ∧ j = i ∨ windows r !! j = Some w).
  { intros j w. cbn. rewrite lookup_insert_Some. naive_solver. }
  assert (Hp : ∀ j n x, pending r' j n x → pending r j n x).
  { intros j n x (w & [[-> ->]|Hw']%Hw & Hx); [cbn in Hx; by rewrite lookup_empty in Hx|by exists w]. }
  split; split; try done; eauto.
  - intros j w n [[-> ->]|Hw']%Hw; [|by eauto]. intros [x Hx]. cbn in Hx. by rewrite lookup_empty in Hx.
  - intros j w [[-> ->]|Hw']%Hw; [done|by eauto].
  - intros j n x (w & Hwj & Hx). right. right. exists w. cbn. rewrite lookup_insert_ne; [done|]. intros <-. congruence.
Qed.

Lemma next_handle_answers D i r :
  responses_inv D r → next_handle r ≤ i →
  responses_inv D (set_next_handle i r) ∧ later r (set_next_handle i r).
Proof.
  intros [Ho Hk Hpe Hu Hid Hne] Hle. split; split; try done; try (by eauto).
  intros j w Hw. destruct (Hne j w Hw). cbn. lia.
Qed.

Lemma new_controller_answers D d : answers D (new_controller framework vm cr sh debug_name d).
Proof.
  intros r a r' Hi. unfold new_controller. unfold mbind at 1, rt_bind at 1, gets at 1.
  unfold mbind at 1, rt_bind at 1, modify at 1. set (i := next_handle r).
  destruct (next_handle_answers D (S i) r Hi) as [Hi1 Hl1]; [unfold i; lia|].
  assert (Hnone : windows r !! i = None).
  { destruct (windows r !! i) as [w|] eqn:Hw; [|done]. destruct (rv_next D r Hi i w Hw). unfold i in *. lia. }
  unfold mbind at 1, rt_bind at 1. destruct (lift_iso _ _) as [[b r2]|] eqn:Hiso; [|done].
  destruct (answers_iso D _ _ _ _ Hi1 Hiso) as [Hi2 Hl2].
  assert (Hsame : windows r2 = windows r ∧ next_handle r2 = S i).
  { revert Hiso. unfold lift_iso. destruct (CreateRootIsolate _ _ _ _ _ _ _ _) as [[? ?]|]; [|done]. by intros [= _ <-]. }
  unfold mbind at 1, rt_bind at 1. destruct (lift _ r2) as [[u r3]|] eqn:Hl; [|done].
  assert (r3 = r2) as -> by (unfold lift in Hl; destruct (fml_check b); [|done]; by injection Hl).
  unfold mbind at 1, rt_bind at 1, modify at 1. destruct Hsame as [Hsw Hsn].
  destruct (new_window_answers D i r2 Hi2) as [Hi3 Hl3]; [lia|by rewrite Hsw|].
  intros Hrest. match type of Hrest with ?m ?r0 = _ => assert (Hm : answers D m) end.
  { unfold DidCreateIsolate. answers_auto. }
  destruct (Hm _ _ _ Hi3 Hrest) as [Hi4 Hl4]. split; [done|]. by rewrite Hl1, Hl2, Hl3.
Qed.
Hint Resolve new_controller_answers : responses.

Lemma vm_shutdown_answers D i : answers D (vm_shutdown_isolate i).
Proof. unfold vm_shutdown_isolate. answers_auto. Qed.
Hint Resolve vm_shutdown_answers : responses.

Lemma Clone_answers D : answers D (Clone framework vm cr sh debug_name).
Proof. unfold Clone, destroy_controller. answers_auto. Qed.

(** ** Dispatching *)

Lemma responses_inv_mono D D' r : responses_inv D r → D ⊆ D' → responses_inv D' r.
Proof. intros [Ho Hk Hpe Hu Hid Hne] HD. split; [done| | |done..]; [by auto|]. intros i n x Hx. destruct (Hpe i n x Hx). auto. Qed.

Definition response_set (m : PlatformMessage) : gset nat := match response_ m with Some x => {[x]} | None => ∅ end.

(** A new response waits under the next identifier. *)
Lemma enqueue_answers D i w x next r :
  responses_inv D r → windows r !! i = Some w → x ∉ D → next = (next_response_id_ w + 1)%Z →
  let f := set_responses next (<[next_response_id_ w := x]> (pending_responses_ w)) in
  let r' := set_windows (alter f i) r in
  responses_inv ({[x]} ∪ D) r' ∧ later r r' ∧ pending r' i (next_response_id_ w) x.
Proof.
  intros [Ho Hk Hpe Hu Hid Hne] Hw Hx -> f r'.
  assert (Hlw : windows r' !! i = Some (f w)) by (cbn; by rewrite lookup_alter_eq, Hw).
  assert (Hfresh : pending_responses_ w !! next_response_id_ w = None).
  { destruct (pending_responses_ w !! next_response_id_ w) eqn:Hn; [|done]. specialize (Hid i w _ Hw ltac:(by eexists)). lia. }
  assert (Hp : ∀ j n y, pending r' j n y ↔ pending r j n y ∨ j = i ∧ n = next_response_id_ w ∧ y = x).
  { intros j n y. unfold pending. destruct (decide (i = j)) as [<-|Hij].
    - rewrite Hlw, Hw. cbn. split.
      + intros (? & [= <-] & Hy). cbn in Hy. apply lookup_insert_Some in Hy as [[<- <-]|[_ Hy]]; naive_solver.
      + intros [(? & [= <-] & Hy)|(_ & -> & ->)]; eexists; (split; [done|]); cbn; [|by rewrite lookup_insert_eq].
        rewrite lookup_insert_ne; [done|]. intros <-. congruence.
    - cbn. rewrite lookup_alter_ne by done. naive_solver. }
  split_and!; [split|split|].
  - done.
  - intros y Hy. apply elem_of_union_r. by apply Hk.
  - intros j n y [Hy|(_ & _ & ->)]%Hp; [destruct (Hpe j n y Hy); split; [set_solver|done]|]. split; [set_solver|].
    intros Hy. by apply Hx, Hk.
  - intros j k n m y [Hy|(-> & -> & ->)]%Hp [Hy'|(-> & -> & Heq)]%Hp; [by eauto|subst; exfalso; apply Hx; by eapply Hpe| |done].
    exfalso. apply Hx. by eapply Hpe.
  - intros j w' n Hw' [y Hy]. destruct (decide (i = j)) as [<-|Hij].
    + rewrite Hlw in Hw'. injection Hw' as <-. cbn in *. apply lookup_insert_Some in Hy as [[<- _]|[_ Hy]]; [by destruct (Hne i w Hw); lia|].
      specialize (Hid i w n Hw ltac:(by eexists)). lia.
    + cbn in Hw'. rewrite lookup_alter_ne in Hw' by done. by eapply Hid.
  - intros j w' Hw'. destruct (decide (i = j)) as [<-|Hij].
    + rewrite Hlw in Hw'. injection Hw' as <-. destruct (Hne i w Hw). cbn. lia.
    + cbn in Hw'. rewrite lookup_alter_ne in Hw' by done. by eapply Hne.
  - intros j n y Hy. right. right. apply Hp. by left.
  - done.
  - done.
  - apply Hp. by right.
Qed.

(** Calls of Dart are logged, and logs only grow. *)
Lemma natives_calls i ns (r : Runtime E) a r' : natives i ns r ⇓ (a, r') → dart_calls r' = dart_calls r.
Proof.
  revert r a. induction ns as [|n ns IH]; intros r a; [by intros [= _ <-]|]. cbn [natives]. unfold mbind, rt_bind.
  destruct (native i n r) as [[u r1]|] eqn:Hn; [|done]. intros Hr%IH. rewrite Hr. clear Hr IH.
  revert Hn. destruct n; cbn [native];
    unfold CompletePlatformMessageResponse, get_window, update_window, modify, mbind, rt_bind, gets, lift, mret, rt_ret;
    repeat (case_match; try done); intros; simplify_eq/=; done.
Qed.

Lemma DartInvoke_logged i c r a r' : DartInvoke framework i c r ⇓ (a, r') → dart_calls r' = dart_calls r ++ [(i, c)].
Proof.
  unfold DartInvoke, mbind, rt_bind, modify, gets. intros Hn%natives_calls. by rewrite Hn.
Qed.

(** The hook is called when the response waits under the identifier it gets. *)
Lemma window_dispatch_spec D i m r a r' :
  responses_inv D r → response_set m ## D → Window_DispatchPlatformMessage framework alloc_fails i m r ⇓ (a, r') →
  responses_inv (response_set m ∪ D) r' ∧ later r r' ∧
  (dart_calls r' = dart_calls r ∨ ∃ n,
     dart_calls r' = dart_calls r ++ [(i, DispatchPlatformMessageHook (channel_ m) (if hasData_ m then Some (data_ m) else None) n)] ∧
     ∀ x, response_ m = Some x → n ≠ 0%Z ∧ (i ∈ expired r' ∨ answered_in r' x ∨ pending r' i n x)).
Proof.
  intros Hi HD. unfold Window_DispatchPlatformMessage. intros Hrun.
  assert (Hmono : responses_inv (response_set m ∪ D) r) by (eapply responses_inv_mono; [done|set_solver]).
  unfold mbind at 1, rt_bind at 1 in Hrun. destruct (dart_state i r) as [[alive r1]|] eqn:Hal; [|done].
  assert (r1 = r) as ->.
  { revert Hal. unfold dart_state, get_window, mbind, rt_bind, gets, lift. destruct (windows r !! i); [|done]. cbn. by intros [= _ <-]. }
  destruct alive; cbn [negb] in Hrun; [|injection Hrun as _ <-; split_and!; [done|done|by left]].
  unfold mbind at 1, rt_bind at 1, gets at 1 in Hrun.
  destruct (hasData_ m && alloc_fails r); [injection Hrun as _ <-; split_and!; [done|done|by left]|].
  unfold mbind at 1, rt_bind at 1 in Hrun. unfold response_set in *. destruct (response_ m) as [x|] eqn:Hx.
  - revert Hrun. unfold get_window, mbind, rt_bind, gets, lift.
    destruct (windows r !! i) as [w|] eqn:Hw; [|done]. cbn. destruct (checked_s 32 (next_response_id_ w + 1)) as [nx|] eqn:Hn; [|done].
    apply checked_s_Ok in Hn as [_ ->]. intros Hrun.
    destruct (enqueue_answers D i w x (next_response_id_ w + 1)%Z r Hi Hw) as (Hi1 & Hl1 & Hp1); [set_solver|done|].
    match type of Hi1 with responses_inv _ ?r0 => set (r1 := r0) in * end.
    destruct (DartInvoke_answers ({[x]} ∪ D) i _ _ _ _ Hi1 Hrun) as [Hi2 Hl2].
    split_and!; [done|by etrans|]. right. exists (next_response_id_ w). split.
    + by apply DartInvoke_logged in Hrun.
    + intros y [= <-]. split; [by destruct (rv_next D r Hi i w Hw); lia|]. by apply (later_pending _ _ Hl2).
  - destruct (DartInvoke_answers (∅ ∪ D) i _ _ _ _ Hmono Hrun) as [Hi2 Hl2]. split_and!; [done|done|]. right. exists 0%Z.
    split; [by apply DartInvoke_logged in Hrun|done].
Qed.

Lemma controller_dispatch_answers D m r a r' :
  responses_inv D r → response_set m ## D → Controller_DispatchPlatformMessage framework alloc_fails m r ⇓ (a, r') →
  responses_inv (response_set m ∪ D) r' ∧ later r r'.
Proof.
  intros Hi HD. unfold Controller_DispatchPlatformMessage, with_window, mbind, rt_bind.
  destruct (GetWindowIfAvailable r) as [[[i|] r1]|] eqn:Hg; [| |done];
    destruct (GetWindow_answers D _ _ _ Hi Hg) as [Hi1 Hl1]; last first.
  { intros [= _ <-]. split; [|done]. eapply responses_inv_mono; [done|set_solver]. }
  destruct (Window_DispatchPlatformMessage _ _ _ _ r1) as [[u r2]|] eqn:Hd; [|done]. intros [= _ <-].
  destruct (window_dispatch_spec D i m r1 u r2 Hi1 HD Hd) as (? & ? & _). split; [done|by etrans].
Qed.
End responses.
