(* ===== verification/Engine.v ===== *)
(** * Engine: what the shell asks of the framework

    Model of [flutter::Engine] (shell/common/engine.cc): it starts and stops
    the animator as the surface and the application's lifecycle come and go,
    routes platform messages, and runs and restarts the root isolate of its
    runtime controller.  The engine is an instance of [RuntimeDelegate].  Its
    calls of the animator are logged in [animator_calls] and executed on the
    model of the animator by EngineProofs; rapidjson is not in the repository:
    its parser is a parameter that gives a document or a parse error. *)

From Stdlib Require Import ZArith Lia SpecFloat Ascii.
From stdpp Require Import base numbers list gmap sets fin_maps relations strings.
From S2P Require Import Prelude Float64 Time TaskQueues Animator DartIsolate Assets RuntimeController.

Local Open Scope string_scope.

(** ** Data *)

(** The engine's calls of the shell, and of the settings' closure for a root
    isolate that was created. *)
Inductive EngineDelegateCall :=
  | RootIsolateCreateCallback (code : nat)
  | OnEngineUpdateSemantics (update : nat)
  | OnEngineHandlePlatformMessage (message : PlatformMessage)
  | OnPreEngineRestart
  | Delegate_UpdateIsolateDescription (isolate_name : string)
  | Delegate_SetNeedsReportTimings (needs_reporting : bool).

Record Engine := mkEngine {
  activity_running_ : bool;
  have_surface_ : bool;
  viewport_metrics_ : ViewportMetrics;
  initial_route_ : string;
  last_entry_point_ : string;
  last_entry_point_library_ : string;
  asset_manager_ : option AssetManager;
  registered_fonts : list (nat * bool);
  animator_calls : list AnimatorCall;
  delegate_calls : list EngineDelegateCall;
  answered : list (nat * option Mapping);
}.

Definition new_engine : Engine := mkEngine true false new_metrics "" "" "" None [] [] [] [].

Record EngineSettings := mkEngineSettings {
  use_test_fonts : bool;
  root_isolate_create_callback : closure;
  root_isolate_shutdown_callback : closure;
}.

Definition set_running_surface (running surface : bool) (e : Engine) : Engine :=
  mkEngine running surface (viewport_metrics_ e) (initial_route_ e) (last_entry_point_ e) (last_entry_point_library_ e)
    (asset_manager_ e) (registered_fonts e) (animator_calls e) (delegate_calls e) (answered e).
Definition set_metrics (m : ViewportMetrics) (e : Engine) : Engine :=
  mkEngine (activity_running_ e) (have_surface_ e) m (initial_route_ e) (last_entry_point_ e) (last_entry_point_library_ e)
    (asset_manager_ e) (registered_fonts e) (animator_calls e) (delegate_calls e) (answered e).
Definition set_route (route : string) (e : Engine) : Engine :=
  mkEngine (activity_running_ e) (have_surface_ e) (viewport_metrics_ e) route (last_entry_point_ e)
    (last_entry_point_library_ e) (asset_manager_ e) (registered_fonts e) (animator_calls e) (delegate_calls e) (answered e).
Definition set_entry_point (entrypoint library : string) (e : Engine) : Engine :=
  mkEngine (activity_running_ e) (have_surface_ e) (viewport_metrics_ e) (initial_route_ e) entrypoint library
    (asset_manager_ e) (registered_fonts e) (animator_calls e) (delegate_calls e) (answered e).
Definition set_assets (m : option AssetManager) (fonts : list (nat * bool)) (e : Engine) : Engine :=
  mkEngine (activity_running_ e) (have_surface_ e) (viewport_metrics_ e) (initial_route_ e) (last_entry_point_ e)
    (last_entry_point_library_ e) m (registered_fonts e ++ fonts) (animator_calls e) (delegate_calls e) (answered e).
Definition animate (c : AnimatorCall) (e : Engine) : Engine :=
  mkEngine (activity_running_ e) (have_surface_ e) (viewport_metrics_ e) (initial_route_ e) (last_entry_point_ e)
    (last_entry_point_library_ e) (asset_manager_ e) (registered_fonts e) (animator_calls e ++ [c]) (delegate_calls e)
    (answered e).
Definition delegate (c : EngineDelegateCall) (e : Engine) : Engine :=
  mkEngine (activity_running_ e) (have_surface_ e) (viewport_metrics_ e) (initial_route_ e) (last_entry_point_ e)
    (last_entry_point_library_ e) (asset_manager_ e) (registered_fonts e) (animator_calls e) (delegate_calls e ++ [c])
    (answered e).
Definition answer (response : nat) (mapping : option Mapping) (e : Engine) : Engine :=
  mkEngine (activity_running_ e) (have_surface_ e) (viewport_metrics_ e) (initial_route_ e) (last_entry_point_ e)
    (last_entry_point_library_ e) (asset_manager_ e) (registered_fonts e) (animator_calls e) (delegate_calls e)
    (answered e ++ [(response, mapping)]).

Definition kAssetChannel : string := "flutter/assets".
Definition kLifecycleChannel : string := "flutter/lifecycle".
Definition kNavigationChannel : string := "flutter/navigation".
Definition kLocalizationChannel : string := "flutter/localization".
Definition kSettingsChannel : string := "flutter/settings".
Definition kIsolateChannel : string := "flutter/isolate".

(** ** The engine as the client of its runtime controller *)

Definition Engine_DefaultRouteName (e : Engine) : string :=
  if bool_decide (initial_route_ e = "") then "/" else initial_route_ e.

Definition Engine_ScheduleFrame (regenerate_layer_tree : bool) (e : Engine) : Engine :=
  animate (RequestFrameC regenerate_layer_tree) e.

Definition size_isEmpty (size : Z * Z) : bool := ((size.1 <=? 0) || (size.2 <=? 0))%Z.

Definition zero_float : spec_float := S754_zero false.

Definition Engine_Render (now : TimePoint.t) (frame : option Frame) (e : Engine) : Engine :=
  match frame with
  | None => e
  | Some f =>
      if size_isEmpty (tree_size f) || SFleb (tree_physical_depth f) zero_float ||
         SFleb (tree_device_pixel_ratio f) zero_float
      then e
      else animate (RenderC now (mkLayerTree (tree_size f) 0%Z 0%Z)) e
  end.

Definition HandleAssetPlatformMessage (message : PlatformMessage) (e : Engine) : Engine :=
  match response_ message with
  | None => e
  | Some response =>
      match m ← asset_manager_ e; GetAsMapping (data_ message) m with
      | Some asset_mapping => answer response (Some asset_mapping) e
      | None => answer response None e
      end
  end.

Definition Engine_HandlePlatformMessage (message : PlatformMessage) (e : Engine) : Engine :=
  if bool_decide (channel_ message = kAssetChannel) then HandleAssetPlatformMessage message e
  else delegate (OnEngineHandlePlatformMessage message) e.

#[export] Instance Engine_RuntimeDelegate : RuntimeDelegate Engine := {
  DefaultRouteName := Engine_DefaultRouteName;
  ScheduleFrame := Engine_ScheduleFrame;
  RenderTree := Engine_Render;
  UpdateSemantics update := delegate (OnEngineUpdateSemantics update);
  HandlePlatformMessage := Engine_HandlePlatformMessage;
  UpdateIsolateDescription name := delegate (Delegate_UpdateIsolateDescription name);
  SetNeedsReportTimings needs_reporting := delegate (Delegate_SetNeedsReportTimings needs_reporting);
}.

(** ** JSON documents *)

#[warnings="-register-all"]
Inductive Json :=
  | JNull
  | JBool (b : bool)
  | JNumber (bits : Z)
  | JString (s : string)
  | JArray (elements : list Json)
  | JObject (members : list (string * Json)).

(** [FindMember]: the first member of that name, or [MemberEnd]. *)
Fixpoint FindMember (name : string) (members : list (string * Json)) : option Json :=
  match members with
  | [] => None
  | (key, value) :: members => if bool_decide (key = name) then Some value else FindMember name members
  end.

Definition json_is (s : string) (v : Json) : bool :=
  match v with JString s' => bool_decide (s' = s) | _ => false end.

(** A C string ends at its first null character. *)
Fixpoint c_str (s : string) : string :=
  match s with
  | "" => ""
  | String c s => if bool_decide (c = "000"%char) then "" else String c (c_str s)
  end.

(** [GetString], which asserts that the value is a string. *)
Definition GetString (v : Json) : result string :=
  match v with JString s => Ok (c_str s) | _ => Fault CheckFailed end.

Definition IsString (v : Json) : bool := match v with JString _ => true | _ => false end.

(** The loop over the arguments, four strings for each locale; only two of
    them are checked. *)
Fixpoint read_locales (args : list Json) : result (option (list string)) :=
  match args with
  | [] => Ok (Some [])
  | language :: country :: script :: variant :: args =>
      if negb (IsString language) || negb (IsString country) then Ok None
      else
        a ← GetString language; b ← GetString country;
        c ← GetString script; d ← GetString variant;
        rest ← read_locales args;
        mret (match rest with Some l => Some (a :: b :: c :: d :: l) | None => None end)
  | _ => Fault OutOfRange
  end.

(** ** Operations of the engine *)

Inductive RunStatus := Success | Failure | FailureAlreadyRunning.
#[export] Instance RunStatus_eq_dec : EqDecision RunStatus.
Proof. solve_decision. Defined.

Section engine.
Context `{Build}.
Context (framework : nat → DartCall → Runtime Engine → list NativeCall).
Context (alloc_fails : Runtime Engine → bool).
Context (vm : nat → VmQuery → bool).
Context (isolate_create_callback isolate_shutdown_callback : closure).
Context (debug_name : nat → string).
Context (settings : EngineSettings).
(** [rapidjson::Document::Parse] and the service id the VM gives an isolate. *)
Context (Parse : string → option Json).
Context (service_id : nat → string).

Abbreviation eng := (rt Engine).
Definition engine : eng Engine := gets client_.
Definition change (f : Engine → Engine) : eng unit := modify (set_client f).

(** *** The animator *)

Definition StopAnimator : eng unit := change (animate StopC).
Definition StartAnimatorIfPossible : eng unit :=
  e ← engine;
  if activity_running_ e && have_surface_ e then change (animate StartC) else mret tt.

Definition OnOutputSurfaceCreated : eng unit :=
  _ ← change (λ e, set_running_surface (activity_running_ e) true e);
  _ ← StartAnimatorIfPossible;
  change (Engine_ScheduleFrame true).

Definition OnOutputSurfaceDestroyed : eng unit :=
  _ ← change (λ e, set_running_surface (activity_running_ e) false e);
  StopAnimator.

Definition Engine_SetViewportMetrics (metrics : ViewportMetrics) : eng unit :=
  e ← engine;
  let dimensions_changed :=
    negb (double_eqb (physical_height (viewport_metrics_ e)) (physical_height metrics)) ||
    negb (double_eqb (physical_width (viewport_metrics_ e)) (physical_width metrics)) ||
    negb (double_eqb (physical_depth (viewport_metrics_ e)) (physical_depth metrics)) in
  _ ← change (set_metrics metrics);
  _ ← SetViewportMetrics framework metrics;
  _ ← (if dimensions_changed then change (animate SetDimensionChangePendingC) else mret tt);
  e ← engine;
  if have_surface_ e then change (Engine_ScheduleFrame true) else mret tt.

(** *** Platform messages *)

Definition HandleLifecyclePlatformMessage (message : PlatformMessage) : eng bool :=
  let state := data_ message in
  _ ← (if bool_decide (state = "AppLifecycleState.paused") || bool_decide (state = "AppLifecycleState.detached") then
         _ ← change (λ e, set_running_surface false (have_surface_ e) e);
         StopAnimator
       else if bool_decide (state = "AppLifecycleState.resumed") || bool_decide (state = "AppLifecycleState.inactive") then
         _ ← change (λ e, set_running_surface true (have_surface_ e) e);
         StartAnimatorIfPossible
       else mret tt);
  e ← engine;
  _ ← (if bool_decide (state = "AppLifecycleState.resumed") && have_surface_ e
       then change (Engine_ScheduleFrame true) else mret tt);
  _ ← SetLifecycleState framework state;
  mret false.

(** A member that is not found is [MemberEnd], which must not be read. *)
Definition read_member (v : option Json) : eng Json := lift (of_option UndefinedBehaviour v).

Definition HandleNavigationPlatformMessage (message : PlatformMessage) : eng bool :=
  match Parse (data_ message) with
  | Some (JObject root) =>
      method ← read_member (FindMember "method" root);
      if negb (json_is "setInitialRoute" method) then mret false
      else
        route ← read_member (FindMember "args" root);
        route ← lift (GetString route);
        _ ← change (set_route route);
        mret true
  | _ => mret false
  end.

Definition HandleLocalizationPlatformMessage (message : PlatformMessage) : eng bool :=
  match Parse (data_ message) with
  | Some (JObject root) =>
      match FindMember "method" root with
      | None => mret false
      | Some method =>
          if negb (json_is "setLocale" method) then mret false
          else
            match FindMember "args" root with
            | Some (JArray args) =>
                if negb (length args `mod` 4 =? 0)%nat then mret false
                else
                  locale_data ← lift (read_locales args);
                  match locale_data with
                  | None => mret false
                  | Some locales => SetLocales framework locales
                  end
            | _ => mret false
            end
      end
  | _ => mret false
  end.

Definition HandleSettingsPlatformMessage (message : PlatformMessage) : eng unit :=
  ok ← SetUserSettingsData framework (data_ message);
  e ← engine;
  if ok && have_surface_ e then change (Engine_ScheduleFrame true) else mret tt.

(** After [std::move] the message is null. *)
Definition DispatchPlatformMessage (message : PlatformMessage) : eng unit :=
  handled ←
    (if bool_decide (channel_ message = kLifecycleChannel) then HandleLifecyclePlatformMessage message
     else if bool_decide (channel_ message = kLocalizationChannel) then HandleLocalizationPlatformMessage message
     else if bool_decide (channel_ message = kSettingsChannel) then
       _ ← HandleSettingsPlatformMessage message; mret true
     else mret false);
  if (handled : bool) then mret tt
  else
    running ← IsRootIsolateRunning;
    if (running : bool) then
      dispatched ← Controller_DispatchPlatformMessage framework alloc_fails message;
      if (dispatched : bool) then mret tt else fault_if NullDeref
    else if bool_decide (channel_ message = kNavigationChannel) then
      _ ← HandleNavigationPlatformMessage message; mret tt
    else mret tt.

(** *** Input, frames and settings *)

Definition DoDispatchPacket (packet : nat) (trace_flow_id : Z) : eng unit :=
  _ ← change (animate (EnqueueTraceFlowIdC trace_flow_id));
  _ ← Controller_DispatchPointerDataPacket framework alloc_fails packet;
  mret tt.

Definition Engine_ScheduleSecondaryVsyncCallback (callback : closure) : eng unit :=
  change (animate (ScheduleSecondaryVsyncCallbackC callback)).

(** *** Running the isolate *)

Definition UpdateAssetManager (new_asset_manager : option AssetManager) : eng bool :=
  e ← engine;
  if bool_decide (address <$> asset_manager_ e = address <$> new_asset_manager) then mret false
  else
    match new_asset_manager with
    | None => _ ← change (set_assets None []); mret false
    | Some m => _ ← change (set_assets (Some m) [(address m, use_test_fonts settings)]); mret true
    end.

Definition PrepareAndLaunchIsolate (configuration : RunConfiguration) : eng RunStatus :=
  _ ← UpdateAssetManager (run_asset_manager_ configuration);
  root ← root_isolate;
  match root with
  | None => mret Failure
  | Some i =>
      x ← lift_iso (get_isolate i);
      if phase_is Running x then mret FailureAlreadyRunning
      else
        c ← lift (of_option NullDeref (isolate_configuration_ configuration));
        prepared ← lift_iso (PrepareIsolate vm c i);
        if negb prepared then mret Failure
        else
          launched ← lift_iso
            (if bool_decide (entrypoint_library_ configuration = "")
             then Run vm i (entrypoint_ configuration) None
             else RunFromLibrary vm i (entrypoint_library_ configuration) (entrypoint_ configuration) None);
          mret (if (launched : bool) then Success else Failure)
  end.

Definition Engine_Run (configuration : RunConfiguration) : eng RunStatus :=
  if negb (configuration_IsValid configuration) then mret Failure
  else
    _ ← change (set_entry_point (entrypoint_ configuration) (entrypoint_library_ configuration));
    status ← PrepareAndLaunchIsolate configuration;
    if negb (bool_decide (status = Success)) then mret status
    else
      root ← root_isolate;
      match root with
      | None => mret Failure
      | Some i =>
          x ← lift_iso (get_isolate i);
          if negb (phase_is Running x) then mret Failure
          else
            _ ← (match root_isolate_create_callback settings with
                 | Some code => change (delegate (RootIsolateCreateCallback code)) | None => mret tt end);
            _ ← (match root_isolate_shutdown_callback settings with
                 | Some code => lift_iso (AddIsolateShutdownCallback i (Some code)) | None => mret tt end);
            _ ← change (Engine_HandlePlatformMessage (mkMessage kIsolateChannel (service_id i) true None));
            mret Success
      end.

Definition Restart (configuration : RunConfiguration) : eng bool :=
  if negb (configuration_IsValid configuration) then mret false
  else
    _ ← change (delegate OnPreEngineRestart);
    _ ← Clone framework vm isolate_create_callback isolate_shutdown_callback debug_name;
    _ ← UpdateAssetManager None;
    status ← Engine_Run configuration;
    mret (bool_decide (status = Success)).

(** ** Calls of the engine *)

(** What the shell, the pointer dispatcher and the VM do to the engine.  Dart
    code also runs between these calls, on the root isolate. *)
Inductive EngineCall :=
  | CallSurfaceCreated
  | CallSurfaceDestroyed
  | CallSetViewportMetrics (metrics : ViewportMetrics)
  | CallDispatchPlatformMessage (message : PlatformMessage)
  | CallDoDispatchPacket (packet : nat) (trace_flow_id : Z)
  | CallScheduleSecondary (callback : closure)
  | CallDispatchSemanticsAction (id action : Z) (args : string)
  | CallSetSemanticsEnabled (enabled : bool)
  | CallSetAccessibilityFeatures (flags : Z)
  | CallBeginFrame (frame_time : TimePoint.t)
  | CallReportTimings (timings : list Z)
  | CallNotifyIdle (deadline : Z)
  | CallScheduleFrame (regenerate_layer_tree : bool)
  | CallEngineRun (configuration : RunConfiguration)
  | CallRestart (configuration : RunConfiguration)
  | DartRuns (natives : list NativeCall)
  | ReturnCode (code : Z)
  | RootIsolateExits.

Definition drop_answer {A} (m : eng A) : eng unit := _ ← m; mret tt.

Definition engine_call (c : EngineCall) : eng unit :=
  match c with
  | CallSurfaceCreated => OnOutputSurfaceCreated
  | CallSurfaceDestroyed => OnOutputSurfaceDestroyed
  | CallSetViewportMetrics m => Engine_SetViewportMetrics m
  | CallDispatchPlatformMessage m => DispatchPlatformMessage m
  | CallDoDispatchPacket p id => DoDispatchPacket p id
  | CallScheduleSecondary c => Engine_ScheduleSecondaryVsyncCallback c
  | CallDispatchSemanticsAction id action args =>
      drop_answer (Controller_DispatchSemanticsAction framework alloc_fails id action args)
  | CallSetSemanticsEnabled b => drop_answer (SetSemanticsEnabled framework b)
  | CallSetAccessibilityFeatures flags => drop_answer (SetAccessibilityFeatures framework flags)
  | CallBeginFrame t => drop_answer (Controller_BeginFrame framework t)
  | CallReportTimings l => drop_answer (Controller_ReportTimings framework alloc_fails l)
  | CallNotifyIdle d => drop_answer (Controller_NotifyIdle d)
  | CallScheduleFrame b => change (Engine_ScheduleFrame b)
  | CallEngineRun c => drop_answer (Engine_Run c)
  | CallRestart c => drop_answer (Restart c)
  | DartRuns ns =>
      root ← root_isolate;
      match root with Some i => natives i ns | None => mret tt end
  | ReturnCode code => ReturnCodeCallback code
  | RootIsolateExits =>
      root ← root_isolate;
      match root with Some i => vm_shutdown_isolate i | None => mret tt end
  end.

(** The constructor. *)
Definition no_runtime : Runtime Engine :=
  mkRuntime new_engine (mkController new_window_data None (false, 0%Z)) (mkIsolates ∅ ∅ 0 []) ∅ ∅ 0 [] [].
Definition Engine_new : result (Runtime Engine) :=
  match new_controller framework vm isolate_create_callback isolate_shutdown_callback debug_name new_window_data no_runtime with
  | Ok (_, r) => Ok r
  | Fault e => Fault e
  end.
End engine.
