(* ===== verification/EngineProofs.v ===== *)
(** * EngineProofs: the engine between shell, animator and Dart

    The engine on the models of its runtime controller and of its animator:
    what Dart is told, when the animator runs, how platform messages are
    answered, and what running and restarting do. *)

From Stdlib Require Import ZArith Lia SpecFloat.
From stdpp Require Import base numbers list gmap sets fin_maps relations strings.
From S2P Require Import Prelude Float64 Time TaskQueues Pipeline VsyncWaiter Animator DartIsolate DartIsolateProofs Assets RuntimeController RuntimeControllerProofs PlatformMessages Engine.


Create HintDb engine_calls.
Create HintDb response_calls.

(** ** The engine as a client *)

(** Calls that ask for a frame or give one; they do not start or stop. *)
Definition is_drawing (c : AnimatorCall) : bool :=
  match c with RequestFrameC _ | RenderC _ _ => true | _ => false end.

(** What Dart code can do to the engine. *)
Record dart_kept (e e' : Engine) : Prop := {
  dk_running : activity_running_ e' = activity_running_ e;
  dk_surface : have_surface_ e' = have_surface_ e;
  dk_metrics : viewport_metrics_ e' = viewport_metrics_ e;
  dk_assets : asset_manager_ e' = asset_manager_ e;
  dk_entry : last_entry_point_ e' = last_entry_point_ e ∧ last_entry_point_library_ e' = last_entry_point_library_ e;
  dk_calls : ∃ cs, animator_calls e' = animator_calls e ++ cs ∧ Forall is_drawing cs;
}.

#[export] Instance dart_kept_preorder : PreOrder dart_kept.
Proof.
  split.
  - intros e. split; try done. exists []. by rewrite app_nil_r.
  - intros e1 e2 e3 [? ? ? ? [? ?] (cs & Hcs & Hf)] [? ? ? ? [? ?] (cs' & Hcs' & Hf')]. split; try congruence; [split; congruence|].
    exists (cs ++ cs'). rewrite Hcs', Hcs, app_assoc. split; [done|by apply Forall_app].
Qed.

Lemma animate_kept c e : is_drawing c = true → dart_kept e (animate c e).
Proof. intros Hc. split; try done. exists [c]. split; [done|]. repeat constructor. by rewrite Hc. Qed.

Lemma delegate_kept c e : dart_kept e (delegate c e).
Proof. split; try done. exists []. by rewrite app_nil_r. Qed.

Lemma Engine_HandlePlatformMessage_kept m e : dart_kept e (Engine_HandlePlatformMessage m e).
Proof.
  unfold Engine_HandlePlatformMessage. case_match; [|apply delegate_kept].
  unfold HandleAssetPlatformMessage. case_match; [|done].
  case_match; (split; try done; exists []; by rewrite app_nil_r).
Qed.

#[export] Instance Engine_laws : DelegateLaws Engine dart_kept.
Proof.
  split.
  - apply _.
  - intros b e. by apply animate_kept.
  - intros now [f|] e; cbn; [|done]. case_match; [done|by apply animate_kept].
  - intros. apply delegate_kept.
  - apply Engine_HandlePlatformMessage_kept.
  - intros. apply delegate_kept.
  - intros. apply delegate_kept.
Qed.

Lemma set_client_inv f (r : Runtime Engine) : runtime_inv r → runtime_inv (set_client f r).
Proof. intros []. by split. Qed.

(** ** When the animator runs *)

Definition is_stop (c : AnimatorCall) : bool := match c with StopC => true | _ => false end.

(** Whether the animator is paused after a call. *)
Definition paused_after (p : bool) (c : AnimatorCall) : bool :=
  match c with StopC => true | StartC => false | _ => p end.

(** The animator is paused when it was ever stopped and the application is
    not active with a surface. *)
Definition should_pause (e : Engine) : bool :=
  existsb is_stop (animator_calls e) && negb (activity_running_ e && have_surface_ e).

(** The engine has called the animator after [earlier], and has it paused as
    it should. *)
Definition drives (earlier : list AnimatorCall) (e : Engine) : Prop :=
  earlier `prefix_of` animator_calls e ∧ foldl paused_after false (animator_calls e) = should_pause e.

(** The invariant of an engine whose controller has stored [d]. *)
Record engine_inv (earlier : list AnimatorCall) (d : WindowData) (r : Runtime Engine) : Prop := {
  ei_runtime : runtime_inv r;
  ei_data : window_data_ (controller r) = d;
  ei_drives : drives earlier (client_ r);
}.

Lemma drawing_paused p cs : Forall is_drawing cs → foldl paused_after p cs = p.
Proof. induction 1 as [|c cs Hc _ IH]; [done|]. by destruct c. Qed.

Lemma drawing_stops cs : Forall is_drawing cs → existsb is_stop cs = false.
Proof. induction 1 as [|c cs Hc _ IH]; [done|]. by destruct c. Qed.

Lemma dart_kept_paused L e e' : dart_kept e e' → drives L e → drives L e'.
Proof.
  intros [Hr Hs _ _ _ (cs & Hcs & Hf)] [Hl Hp]. split; [rewrite Hcs; by apply prefix_app_r|].
  unfold should_pause. rewrite Hcs, Hr, Hs, foldl_app, existsb_app.
  rewrite (drawing_paused _ cs Hf), (drawing_stops cs Hf), Hp. unfold should_pause. by destruct (existsb is_stop _).
Qed.

Section engine.
Context `{Build}.
Context (framework : nat → DartCall → Runtime Engine → list NativeCall) (alloc_fails : Runtime Engine → bool).
Context (vm : nat → VmQuery → bool) (cr sh : closure) (debug_name : nat → string).
Context (settings : EngineSettings) (Parse : string → option Json) (service_id : nat → string).
#[local] Set Default Proof Using "All".

Abbreviation call := (engine_call framework alloc_fails vm cr sh debug_name settings Parse service_id).
Abbreviation safe_to := (RuntimeControllerProofs.safe_to dart_kept).

(** An operation that keeps the invariant of the engine and changes the
    stored data by [f]. *)
Definition engine_to {A} (f : WindowData → WindowData) (m : rt Engine A) : Prop :=
  ∀ L d r a r', engine_inv L d r → m r ⇓ (a, r') → engine_inv L (f d) r'.
Abbreviation keeps_engine := (engine_to id).

Lemma engine_ret {A} (a : A) : keeps_engine (mret a).
Proof. intros L d r a' r' Hi [= _ <-]. done. Qed.

Lemma engine_bind_to {A B} f g (m : rt Engine A) (k : A → rt Engine B) :
  engine_to f m → (∀ a, engine_to g (k a)) → engine_to (g ∘ f) (m ≫= k).
Proof. intros Hm Hf L d r b r' Hi (a & r1 & Ha & Hb)%bind_inv. eapply Hf; [by eapply Hm|done]. Qed.

Lemma engine_bind {A B} (m : rt Engine A) (f : A → rt Engine B) :
  keeps_engine m → (∀ a, keeps_engine (f a)) → keeps_engine (m ≫= f).
Proof. apply (engine_bind_to id id). Qed.

Lemma engine_gets {A} (f : Runtime Engine → A) : keeps_engine (gets f).
Proof. by intros L d r a r' Hi [= _ <-]. Qed.
Lemma engine_lift {A} (m : result A) : keeps_engine (lift m).
Proof. intros L d r a r' Hi ->%lift_pure. done. Qed.
Lemma engine_fault {A} e : keeps_engine (fault_if (A := A) e).
Proof. by intros L d r a r' _. Qed.

Lemma paused_app p cs c : foldl paused_after p (cs ++ [c]) = paused_after (foldl paused_after p cs) c.
Proof. by rewrite foldl_app. Qed.

Lemma stops_app cs c : existsb is_stop (cs ++ [c]) = existsb is_stop cs || is_stop c.
Proof. rewrite existsb_app. cbn. by rewrite orb_false_r. Qed.

(** Operations of the controller. *)
Lemma safe_keeps {A} f (m : rt Engine A) : safe_to f m → engine_to f m.
Proof.
  intros Hs L d r a r' [Hi <- Hp] Hr. destruct (Hs r a r' Hi Hr) as (Hi' & HR & Hd). split; [done..|]. by eapply dart_kept_paused.
Qed.

(** Changes of the engine that keep the rule for pausing. *)
Lemma change_keeps_paused f :
  (∀ L e, drives L e → drives L (f e)) → keeps_engine (change f).
Proof. intros Hf L d r a r' [Hi Hd Hp] [= _ <-]. split; [by apply set_client_inv|done|by apply Hf]. Qed.

Lemma change_keeps f : (∀ e, dart_kept e (f e)) → keeps_engine (change f).
Proof. intros Hf. apply change_keeps_paused. intros L e. by apply dart_kept_paused. Qed.

(** Changes of other members. *)
Lemma change_keeps_other f :
  (∀ e, animator_calls (f e) = animator_calls e ∧ activity_running_ (f e) = activity_running_ e ∧ have_surface_ (f e) = have_surface_ e) →
  keeps_engine (change f).
Proof.
  intros Hf. apply change_keeps_paused. intros L e Hp. destruct (Hf e) as (Hc & Hr & Hs). unfold drives, should_pause. by rewrite Hc, Hr, Hs.
Qed.

(** Calls of the animator other than start and stop. *)
Lemma animate_keeps c : is_stop c = false → paused_after true c = true → keeps_engine (change (animate c)).
Proof.
  intros Hs Hp. apply change_keeps_paused. intros L e [Hl He]. split; [by apply prefix_app_r|]. unfold should_pause. cbn.
  rewrite paused_app, stops_app, Hs, orb_false_r, He. by destruct c.
Qed.

(** Storing the flags and then stopping, or starting when both are set. *)
Lemma stop_keeps f :
  (∀ e, animator_calls (f e) = animator_calls e ∧
    activity_running_ (f e) && have_surface_ (f e) = false) →
  keeps_engine (_ ← change f; StopAnimator).
Proof.
  intros Hf L d r a r' Hi Hr. change ((change (animate StopC ∘ f)) r ⇓ (a, r')) in Hr.
  eapply change_keeps_paused; [|exact Hi|exact Hr].
  intros L' e [Hl _]. destruct (Hf e) as (Hc & Hoff). split; [cbn; rewrite Hc; by apply prefix_app_r|]. unfold should_pause. cbn. rewrite paused_app, stops_app, Hoff, orb_true_r. done.
Qed.

Lemma start_keeps f :
  (∀ e, animator_calls (f e) = animator_calls e ∧
    (activity_running_ e && have_surface_ e = true → activity_running_ (f e) && have_surface_ (f e) = true)) →
  keeps_engine (_ ← change f; StartAnimatorIfPossible).
Proof.
  intros Hf L d r a r' Hi Hr. set (g := λ e, if activity_running_ (f e) && have_surface_ (f e) then animate StartC (f e) else f e).
  assert (Hg : r' = set_client g r).
  { revert Hr. unfold StartAnimatorIfPossible, change, engine, modify, gets, mbind, rt_bind, g. cbn.
    destruct (activity_running_ (f (client_ r)) && have_surface_ (f (client_ r))) eqn:Hb;
      intros [= _ <-]; unfold set_client; cbn; by rewrite Hb. }
  eapply (change_keeps_paused g); [|exact Hi|by rewrite Hg].
  intros L' e [Hl Hp]. destruct (Hf e) as (Hc & Hon). unfold g. split.
  { case_match; cbn; rewrite Hc; [by apply prefix_app_r|done]. }
  destruct (activity_running_ (f e) && have_surface_ (f e)) eqn:Hb.
  - unfold should_pause. cbn. rewrite paused_app, Hb. cbn. by rewrite andb_false_r.
  - unfold should_pause. rewrite Hc, Hp, Hb. unfold should_pause.
    destruct (activity_running_ e && have_surface_ e); [|done]. specialize (Hon eq_refl). congruence.
Qed.

(** ** Every call keeps the invariant *)

Ltac engine_auto :=
  repeat match goal with
  | |- keeps_engine (mbind _ _) => apply engine_bind; [|intros ?]
  | |- keeps_engine (mret _) => apply engine_ret
  | |- keeps_engine (gets _) => apply engine_gets
  | |- keeps_engine engine => apply engine_gets
  | |- keeps_engine (lift _) => apply engine_lift
  | |- keeps_engine (read_member _) => apply engine_lift
  | |- keeps_engine (fault_if _) => apply engine_fault
  | |- keeps_engine (change (Engine_ScheduleFrame _)) => by apply animate_keeps
  | |- keeps_engine (change (animate _)) => by apply animate_keeps
  | |- keeps_engine (change (delegate _)) => by apply change_keeps_other
  | |- keeps_engine (change (set_route _)) => by apply change_keeps_other
  | |- keeps_engine (change (set_metrics _)) => by apply change_keeps_other
  | |- keeps_engine (change (set_entry_point _ _)) => by apply change_keeps_other
  | |- keeps_engine (change (set_assets _ _)) => by apply change_keeps_other
  | |- keeps_engine (if ?b then _ else _) => destruct b
  | |- keeps_engine (lift_iso (if ?b then _ else _)) => destruct b
  | |- keeps_engine (match ?x with _ => _ end) => destruct x
  | |- keeps_engine _ => solve [eauto with engine_calls]
  end.

Lemma root_isolate_keeps : keeps_engine root_isolate.
Proof. apply engine_gets. Qed.

Abbreviation stores c := (λ d, apply_update d c).

Lemma setters_keep :
  (∀ m, engine_to (stores (SetMetrics m)) (SetViewportMetrics framework m)) ∧
  (∀ l, engine_to (stores (SetLocaleData l)) (SetLocales framework l)) ∧
  (∀ s, engine_to (stores (SetSettings s)) (SetUserSettingsData framework s)) ∧
  (∀ s, engine_to (stores (SetLifecycle s)) (SetLifecycleState framework s)) ∧
  (∀ b, engine_to (stores (SetSemantics b)) (SetSemanticsEnabled framework b)) ∧
  (∀ z, engine_to (stores (SetAccessibility z)) (SetAccessibilityFeatures framework z)).
Proof.
  split_and!; intros x; apply safe_keeps.
  - by apply (set_hook_safe dart_kept framework alloc_fails (SetMetrics x)).
  - by apply (set_hook_safe dart_kept framework alloc_fails (SetLocaleData x)).
  - by apply (set_hook_safe dart_kept framework alloc_fails (SetSettings x)).
  - by apply (set_hook_safe dart_kept framework alloc_fails (SetLifecycle x)).
  - by apply (set_hook_safe dart_kept framework alloc_fails (SetSemantics x)).
  - by apply (set_hook_safe dart_kept framework alloc_fails (SetAccessibility x)).
Qed.

Lemma dispatch_message_keeps m : keeps_engine (Controller_DispatchPlatformMessage framework alloc_fails m).
Proof. apply safe_keeps, (with_window_safe dart_kept framework alloc_fails). intros. by apply (DispatchPlatformMessage_steps dart_kept framework alloc_fails). Qed.
Lemma packet_keeps p : keeps_engine (Controller_DispatchPointerDataPacket framework alloc_fails p).
Proof. apply safe_keeps, (with_window_safe dart_kept framework alloc_fails). intros. by apply (DispatchPointerDataPacket_steps dart_kept framework alloc_fails). Qed.
Lemma action_keeps id action args : keeps_engine (Controller_DispatchSemanticsAction framework alloc_fails id action args).
Proof. apply safe_keeps, (with_window_safe dart_kept framework alloc_fails). intros. by apply (DispatchSemanticsAction_steps dart_kept framework alloc_fails). Qed.
Lemma begin_frame_keeps t : keeps_engine (Controller_BeginFrame framework t).
Proof. apply safe_keeps, (with_window_safe dart_kept framework alloc_fails). intros. by apply (BeginFrame_steps dart_kept framework alloc_fails). Qed.
Lemma timings_keeps l : keeps_engine (Controller_ReportTimings framework alloc_fails l).
Proof. apply safe_keeps, (with_window_safe dart_kept framework alloc_fails). intros. by apply (ReportTimings_steps dart_kept framework alloc_fails). Qed.
Lemma idle_keeps d : keeps_engine (Controller_NotifyIdle d).
Proof. apply safe_keeps, (NotifyIdle_safe dart_kept framework alloc_fails). Qed.
Lemma clone_keeps : keeps_engine (Clone framework vm cr sh debug_name).
Proof. apply safe_keeps, (Clone_safe dart_kept framework alloc_fails). Qed.

(** *** Isolates *)

Lemma lift_iso_keeps {A} (m : iso A) :
  (∀ w a w', isolates_inv w → m w ⇓ (a, w') → isolates_inv w') → (∀ k, keeps window_ k m) → keeps_engine (lift_iso m).
Proof. intros Hi Hk. apply safe_keeps. by apply (lift_iso_safe dart_kept framework alloc_fails). Qed.

Lemma iso_bind_inv {A B} (m : iso A) (f : A → iso B) w b w' :
  (m ≫= f) w ⇓ (b, w') → ∃ a w1, m w ⇓ (a, w1) ∧ f a w1 ⇓ (b, w').
Proof. unfold mbind, iso_bind, mbind, result_bind. destruct (m w) as [[a w1]|]; [|done]. eauto. Qed.

Lemma get_isolate_inv {B} i (f : DartIsolate → iso B) w b w' :
  (get_isolate i ≫= f) w ⇓ (b, w') → ∃ x, isolates w !! i = Some x ∧ f x w ⇓ (b, w').
Proof.
  intros (x & w1 & Hx & Hf)%iso_bind_inv. unfold get_isolate in Hx.
  destruct (isolates w !! i) as [y|]; [|done]. injection Hx as <- <-. eauto.
Qed.

Lemma DoPrepareIsolate_inv c i w b w' :
  isolates_inv w → is_Some (isolates w !! i) → DoPrepareIsolate vm c i w ⇓ (b, w') → isolates_inv w'.
Proof.
  intros Hi Hx. destruct c as [|k|ks]; cbn [DoPrepareIsolate].
  - intros Hc. by eapply (isolate_call_inv dart_kept framework alloc_fails vm cr sh debug_name (CallPreparePrecompiled i)).
  - intros (p & w1 & [= <- <-] & Hc)%iso_bind_inv. pose proof (calls_inv (S (vm_calls w)) w Hi) as Hi1.
    destruct (vm _ _); [by injection Hc as _ <-|].
    by eapply (isolate_call_inv dart_kept framework alloc_fails vm cr sh debug_name (CallPrepareKernel i k true)).
  - intros (p & w1 & [= <- <-] & Hc)%iso_bind_inv. pose proof (calls_inv (S (vm_calls w)) w Hi) as Hi1.
    destruct (vm _ _); [by injection Hc as _ <-|]. destruct ks as [|k ks]; [by injection Hc as _ <-|].
    by eapply (isolate_call_inv dart_kept framework alloc_fails vm cr sh debug_name (CallPrepareKernels i (k :: ks))).
Qed.

Lemma PrepareIsolate_keeps c i : keeps_engine (lift_iso (PrepareIsolate vm c i)).
Proof.
  apply lift_iso_keeps.
  - intros w b w' Hi (x & Hx & Hc)%get_isolate_inv. case_match; [by injection Hc as _ <-|].
    eapply DoPrepareIsolate_inv; [done|by eexists|done].
  - intros k. assert (hidden window_ k i) by (by right). unfold PrepareIsolate, DoPrepareIsolate. keeps_auto.
    + by apply Precompiled_keeps.
    + by apply PrepareKernel_keeps.
    + by apply prepare_pieces_keeps.
Qed.

Lemma Run_keeps i e : keeps_engine (lift_iso (run_entrypoint vm i e None)).
Proof.
  apply lift_iso_keeps.
  - intros w b w' Hi Hr. pose proof Hr as (x & Hx & _)%get_isolate_inv. destruct e as [n|l n].
    + eapply (isolate_call_inv dart_kept framework alloc_fails vm cr sh debug_name (CallRun i n None)); [done|by eexists|exact Hr].
    + eapply (isolate_call_inv dart_kept framework alloc_fails vm cr sh debug_name (CallRunFromLibrary i l n None)); [done|by eexists|exact Hr].
  - intros k. apply run_entrypoint_keeps. by right.
Qed.

Lemma get_keeps i : keeps_engine (lift_iso (get_isolate i)).
Proof. apply safe_keeps, (get_isolate_safe dart_kept framework alloc_fails vm cr sh debug_name). Qed.

Lemma alter_absent (f : DartIsolate → DartIsolate) i (m : gmap nat DartIsolate) : m !! i = None → alter f i m = m.
Proof.
  intros Hi. apply map_eq. intros j. destruct (decide (i = j)) as [<-|Hij]; [by rewrite lookup_alter_eq, Hi|by rewrite lookup_alter_ne].
Qed.

Lemma AddCallback_engine i f : keeps_engine (lift_iso (AddIsolateShutdownCallback i f)).
Proof.
  apply lift_iso_keeps; [|intros k; apply AddCallback_keeps; by right].
  intros w [] w' Hi Hr. destruct (isolates w !! i) as [x|] eqn:Hx.
  - eapply (isolate_call_inv dart_kept framework alloc_fails vm cr sh debug_name (CallAddShutdownCallback i f) _ true); [done|by eexists|].
    cbn. unfold mbind, iso_bind, mbind, result_bind. by rewrite Hr.
  - injection Hr as <-. rewrite alter_absent by done. by destruct w.
Qed.

Lemma root_keeps {A} (f : nat → rt Engine A) (m : rt Engine A) :
  (∀ i L d r a r', engine_inv L d r → lock (root_isolate_ (controller r)) r = Some i → f i r ⇓ (a, r') → engine_inv L d r') →
  keeps_engine m →
  keeps_engine (root ← root_isolate; match root with Some i => f i | None => m end).
Proof.
  intros Hf Hm L d r a r' Hi (root & r1 & [= <- <-] & Hr)%bind_inv. destruct (lock _ r) as [i|] eqn:Hl; [by eapply Hf|by eapply Hm].
Qed.

Lemma DartRuns_keeps ns : keeps_engine (call (DartRuns ns)).
Proof.
  apply root_keeps; [|apply engine_ret]. intros i L d r a r' [Hi Hd Hp] Hl Hr.
  pose proof (natives_steps dart_kept framework alloc_fails i ns r a r' Hr) as Hs.
  split; [|by rewrite (ws_controller _ _ _ _ _ Hs)|eapply dart_kept_paused; [apply Hs|done]].
  eapply (window_step_inv dart_kept framework alloc_fails); [exact Hs| |done|done].
  apply (ri_root r Hi). by apply (lock_Some dart_kept framework alloc_fails) in Hl as [? _].
Qed.

Lemma exits_keeps : keeps_engine (call RootIsolateExits).
Proof.
  apply root_keeps; [|apply engine_ret]. intros i L d r a r' [Hi Hd Hp] Hl Hr.
  destruct (vm_shutdown_inv dart_kept framework alloc_fails vm cr sh debug_name i r a r' Hi) as (Hi' & Hc & _ & _ & Hctl & _); [|done|].
  { apply (ri_root r Hi). by apply (lock_Some dart_kept framework alloc_fails) in Hl as [? _]. }
  split; [done|by rewrite Hctl|by rewrite Hc].
Qed.

Lemma ReturnCode_keeps code : keeps_engine (ReturnCodeCallback code).
Proof. intros L d r a r' [[? ? ? ?] Hd Hp] [= _ <-]. by split. Qed.

Hint Resolve root_isolate_keeps PrepareIsolate_keeps Run_keeps get_keeps AddCallback_engine clone_keeps idle_keeps
  begin_frame_keeps packet_keeps action_keeps timings_keeps dispatch_message_keeps ReturnCode_keeps : engine_calls.

Lemma UpdateAssetManager_keeps m : keeps_engine (UpdateAssetManager settings m).
Proof. unfold UpdateAssetManager, engine. engine_auto. Qed.
Hint Resolve UpdateAssetManager_keeps : engine_calls.

Lemma PrepareAndLaunch_keeps c : keeps_engine (PrepareAndLaunchIsolate vm settings c).
Proof. unfold PrepareAndLaunchIsolate, Run, RunFromLibrary. engine_auto. Qed.
Hint Resolve PrepareAndLaunch_keeps : engine_calls.

Lemma Engine_Run_keeps c : keeps_engine (Engine_Run vm settings service_id c).
Proof.
  unfold Engine_Run. engine_auto; apply change_keeps; [apply Engine_HandlePlatformMessage_kept..].
Qed.
Hint Resolve Engine_Run_keeps : engine_calls.

Lemma Lifecycle_to m :
  engine_to (stores (SetLifecycle (data_ m))) (HandleLifecyclePlatformMessage framework m).
Proof.
  destruct setters_keep as (_ & _ & _ & Hset & _). unfold HandleLifecyclePlatformMessage, engine.
  apply (engine_bind_to id (stores _)).
  { destruct (_ || _); [by apply stop_keeps|]. destruct (_ || _); [|apply engine_ret]. apply start_keeps.
    intros e. split; [done|]. intros Hon%andb_prop. cbn. apply Hon. }
  intros _. apply (engine_bind_to id (stores _)); [apply engine_gets|]. intros e.
  apply (engine_bind_to id (stores _)); [engine_auto|]. intros _.
  apply (engine_bind_to (stores _) id); [apply Hset|]. intros. apply engine_ret.
Qed.

Lemma Surface_keeps :
  keeps_engine OnOutputSurfaceCreated ∧ keeps_engine OnOutputSurfaceDestroyed.
Proof.
  split.
  - intros L d r a r' Hi. unfold OnOutputSurfaceCreated.
    intros (u & r1 & Hu & Hr)%bind_inv. apply bind_inv in Hr as (u2 & r2 & Hs & Hr).
    assert (Hi2 : engine_inv L d r2).
    { eapply (start_keeps (λ e, set_running_surface (activity_running_ e) true e)); [|exact Hi|].
      - intros e. split; [done|]. intros [? _]%andb_prop. cbn. by rewrite andb_true_r.
      - by rewrite (bind_eq _ _ _ _ _ Hu). }
    eapply animate_keeps; [| |exact Hi2|exact Hr]; done.
  - apply stop_keeps. intros e. cbn. by rewrite andb_false_r.
Qed.

(** ** What the platform tells Dart *)

(** The locales of a localization message, when it is well formed. *)
Definition message_locales (m : PlatformMessage) : option (list string) :=
  match Parse (data_ m) with
  | Some (JObject root) =>
      match FindMember "method" root, FindMember "args" root with
      | Some method, Some (JArray args) =>
          if json_is "setLocale" method && (length args `mod` 4 =? 0)%nat
          then match read_locales args with Ok l => l | Fault _ => None end
          else None
      | _, _ => None
      end
  | _ => None
  end.

(** What a call tells about the window. *)
Definition tells (c : EngineCall) : list WindowUpdate :=
  match c with
  | CallSetViewportMetrics m => [SetMetrics m]
  | CallSetSemanticsEnabled b => [SetSemantics b]
  | CallSetAccessibilityFeatures z => [SetAccessibility z]
  | CallDispatchPlatformMessage m =>
      if decide (channel_ m = kLifecycleChannel) then [SetLifecycle (data_ m)]
      else if decide (channel_ m = kLocalizationChannel) then
        match message_locales m with Some l => [SetLocaleData l] | None => [] end
      else if decide (channel_ m = kSettingsChannel) then [SetSettings (data_ m)]
      else []
  | _ => []
  end.

Definition tell (c : EngineCall) (d : WindowData) : WindowData := foldl apply_update d (tells c).

Lemma Localization_to m :
  engine_to (λ d, foldl apply_update d (match message_locales m with Some l => [SetLocaleData l] | None => [] end))
    (HandleLocalizationPlatformMessage framework Parse m).
Proof.
  destruct setters_keep as (_ & Hset & _). unfold HandleLocalizationPlatformMessage, message_locales.
  destruct (Parse (data_ m)) as [[| | | | |root]|]; try apply engine_ret.
  destruct (FindMember "method" root) as [method|]; [|apply engine_ret].
  destruct (json_is "setLocale" method); cbn [negb andb]; last first.
  { destruct (FindMember "args" root) as [[]|]; apply engine_ret. }
  destruct (FindMember "args" root) as [[| | | |args|]|]; try apply engine_ret.
  destruct (length args `mod` 4 =? 0)%nat; cbn [negb]; [|apply engine_ret].
  destruct (read_locales args) as [[l|]|] eqn:Hl.
  - intros L d r a r' Hi (o & r1 & [= <- <-] & Hr)%bind_inv. by eapply Hset.
  - intros L d r a r' Hi (o & r1 & [= <- <-] & Hr)%bind_inv. by injection Hr as _ <-.
  - intros L d r a r' Hi (o & r1 & Ho & Hr)%bind_inv. done.
Qed.

(** The dispatch to Dart, after the engine has looked at the message. *)
Lemma route_keeps m (handled : bool) :
  keeps_engine (if handled then mret tt else
    running ← IsRootIsolateRunning;
    if (running : bool) then
      dispatched ← Controller_DispatchPlatformMessage framework alloc_fails m;
      if (dispatched : bool) then mret tt else fault_if NullDeref
    else if bool_decide (channel_ m = kNavigationChannel) then
      _ ← HandleNavigationPlatformMessage Parse m; mret tt
    else mret tt).
Proof. unfold IsRootIsolateRunning, HandleNavigationPlatformMessage. engine_auto. Qed.

Lemma Dispatch_to m : engine_to (tell (CallDispatchPlatformMessage m)) (call (CallDispatchPlatformMessage m)).
Proof.
  destruct setters_keep as (_ & _ & Hset & _). unfold tell. cbn [engine_call tells]. unfold DispatchPlatformMessage.
  apply (engine_bind_to (tell (CallDispatchPlatformMessage m)) id); [|intros; apply route_keeps]. unfold tell. cbn [tells].
  destruct (decide (channel_ m = kLifecycleChannel)) as [Hc|Hc];
    [rewrite bool_decide_eq_true_2 by done; apply Lifecycle_to|rewrite bool_decide_eq_false_2 by done].
  destruct (decide (channel_ m = kLocalizationChannel)) as [Hc'|Hc'];
    [rewrite bool_decide_eq_true_2 by done; apply Localization_to|rewrite bool_decide_eq_false_2 by done].
  destruct (decide (channel_ m = kSettingsChannel)) as [Hs|Hs];
    [rewrite bool_decide_eq_true_2 by done|rewrite bool_decide_eq_false_2 by done; apply engine_ret].
  apply (engine_bind_to (stores (SetSettings (data_ m))) id); [|intros; apply engine_ret].
  unfold HandleSettingsPlatformMessage, engine. apply (engine_bind_to (stores _) id); [apply Hset|]. intros. engine_auto.
Qed.

Lemma engine_call_to c : engine_to (tell c) (call c).
Proof.
  destruct setters_keep as (Hm & _ & _ & _ & Hs & Ha). destruct Surface_keeps as [Hsc Hsd].
  destruct c; try apply Dispatch_to; cbn [engine_call]; unfold drop_answer, tell; cbn [tells foldl]; try done;
    try match goal with |- engine_to (λ d, d) ?m => change (keeps_engine m) end;
    try apply DartRuns_keeps; try apply exits_keeps;
    try (by unfold DoDispatchPacket, Engine_ScheduleSecondaryVsyncCallback, Restart; engine_auto).
  - unfold Engine_SetViewportMetrics, engine. apply (engine_bind_to id (stores _)); [apply engine_gets|]. intros e.
    apply (engine_bind_to id (stores _)); [engine_auto|]. intros _.
    apply (engine_bind_to (stores _) id); [apply Hm|]. intros. engine_auto.
  - apply (engine_bind_to (stores _) id); [apply Hs|]. intros. apply engine_ret.
  - apply (engine_bind_to (stores _) id); [apply Ha|]. intros. apply engine_ret.
Qed.

(** ** Runs *)

Fixpoint engine_calls (cs : list EngineCall) : rt Engine unit :=
  match cs with
  | [] => mret tt
  | c :: cs => _ ← call c; engine_calls cs
  end.

Definition tell_all (cs : list EngineCall) (d : WindowData) : WindowData := foldl (λ d c, tell c d) d cs.

Abbreviation new := (Engine_new framework vm cr sh debug_name).

Lemma Engine_new_inv r : new ⇓ r → engine_inv [] new_window_data r.
Proof.
  unfold Engine_new. destruct (new_controller _ _ _ _ _ _ _) as [[u r']|] eqn:Hn; [|done]. intros [= <-].
  assert (Hi : runtime_inv no_runtime).
  { split; [apply no_isolates_inv| |done|done]. intros i _. cbn. rewrite !lookup_empty. set_solver. }
  destruct (new_controller_spec dart_kept framework alloc_fails vm cr sh debug_name _ _ _ _ Hi Hn) as (Hi' & r1 & Hc & Hs).
  split; [done| |].
  - by rewrite (ws_controller _ _ _ _ _ Hs), (cons_controller _ _ _ _ _ _ Hc).
  - apply (dart_kept_paused [] new_engine); [|done]. etrans; [apply Hc|apply Hs].
Qed.

Lemma engine_calls_inv cs L d r u r' :
  engine_inv L d r → engine_calls cs r ⇓ (u, r') → engine_inv L (tell_all cs d) r'.
Proof.
  revert d r. induction cs as [|c cs IH]; intros d r Hi; [by intros [= _ <-]|].
  cbn [engine_calls]. intros (u1 & r1 & Hc & Hr)%bind_inv. unfold tell_all. cbn. eapply IH; [|done]. by eapply engine_call_to.
Qed.

Lemma run_told cs r0 u r i d0 :
  new ⇓ r0 → engine_calls cs r0 ⇓ (u, r) → lock (root_isolate_ (controller r)) r = Some i →
  told i d0 r = dart_window (tell_all cs new_window_data).
Proof.
  intros Hn Hr Hl. destruct (engine_calls_inv cs _ _ _ _ _ (Engine_new_inv _ Hn) Hr) as [Hi Hd _].
  destruct (ri_sync r Hi i Hl) as [_ Ht]. by rewrite Ht, Hd.
Qed.

(** C2: In every run of the engine, through restarts and whatever Dart code does
    in its calls, the Dart code of the live root isolate was told exactly what
    the platform has set, as far as the hooks of dart:ui take it: the last
    window metrics but for the insets in front and behind, which no hook has
    a parameter for, and the last locales, settings, lifecycle state, semantics
    and accessibility flags, those set before the isolate existed included. *)
Theorem dart_told_window_state cs r0 u r i d0 :
  new ⇓ r0 → engine_calls cs r0 ⇓ (u, r) → lock (root_isolate_ (controller r)) r = Some i →
  told i d0 r = dart_window (tell_all cs new_window_data).
Proof. apply run_told. Qed.

(** ** Platform messages *)

Definition call_response (c : EngineCall) : gset nat :=
  match c with CallDispatchPlatformMessage m => response_set m | _ => ∅ end.

(** The messages of a run have responses of their own. *)
Fixpoint fresh_responses (D : gset nat) (cs : list EngineCall) : Prop :=
  match cs with
  | [] => True
  | c :: cs => call_response c ## D ∧ fresh_responses (call_response c ∪ D) cs
  end.

Definition responses (D : gset nat) (cs : list EngineCall) : gset nat := foldl (λ D c, call_response c ∪ D) D cs.

Ltac response_auto :=
  repeat match goal with
  | |- answers _ (mbind _ _) => apply answers_bind; [|intros ?]
  | |- answers _ (mret _) => apply answers_ret
  | |- answers _ (gets _) => apply answers_gets
  | |- answers _ engine => apply answers_gets
  | |- answers _ root_isolate => apply answers_gets
  | |- answers _ (lift _) => apply answers_lift
  | |- answers _ (read_member _) => apply answers_lift
  | |- answers _ (fault_if _) => apply answers_fault
  | |- answers _ (lift_iso _) => apply answers_iso
  | |- answers _ (change _) => apply answers_client
  | |- answers _ (if ?b then _ else _) => destruct b
  | |- answers _ (match ?x with _ => _ end) => destruct x
  | |- answers _ _ => solve [eauto with response_calls]
  end.

Lemma setters_respond D :
  (∀ m, answers D (SetViewportMetrics framework m)) ∧ (∀ l, answers D (SetLocales framework l)) ∧
  (∀ s, answers D (SetUserSettingsData framework s)) ∧ (∀ s, answers D (SetLifecycleState framework s)) ∧
  (∀ b, answers D (SetSemanticsEnabled framework b)) ∧ (∀ z, answers D (SetAccessibilityFeatures framework z)).
Proof. by apply (setters_answers framework alloc_fails vm cr sh debug_name). Qed.

Lemma Run_answers D c : answers D (Engine_Run vm settings service_id c).
Proof. unfold Engine_Run, PrepareAndLaunchIsolate, UpdateAssetManager. response_auto. Qed.

Lemma quiet_call_answers D c : (∀ m, c ≠ CallDispatchPlatformMessage m) → answers D (call c).
Proof.
  intros Hc. destruct (setters_respond D) as (Hm & _ & _ & _ & Hs & Ha). pose proof (Run_answers D).
  pose proof (frames_answers framework alloc_fails vm cr sh debug_name D).
  pose proof (timings_answers framework alloc_fails vm cr sh debug_name D).
  pose proof (packets_answers framework alloc_fails vm cr sh debug_name D).
  pose proof (actions_answers framework alloc_fails vm cr sh debug_name D).
  pose proof (idle_answers framework alloc_fails vm cr sh debug_name D).
  pose proof (natives_answers framework alloc_fails vm cr sh debug_name D).
  pose proof (Clone_answers framework alloc_fails vm cr sh debug_name D).
  pose proof (vm_shutdown_answers framework alloc_fails vm cr sh debug_name D).
  destruct c; cbn [engine_call]; try (by destruct (Hc message));
    unfold drop_answer, OnOutputSurfaceCreated, OnOutputSurfaceDestroyed, StopAnimator, StartAnimatorIfPossible,
      Engine_SetViewportMetrics, DoDispatchPacket, Engine_ScheduleSecondaryVsyncCallback, Restart, UpdateAssetManager;
    response_auto.
  by apply answers_other.
Qed.

(** The engine's own handling of a message answers nothing. *)
Lemma handlers_answer D m :
  answers D (HandleLifecyclePlatformMessage framework m) ∧ answers D (HandleLocalizationPlatformMessage framework Parse m) ∧
  answers D (HandleSettingsPlatformMessage framework m) ∧ answers D (HandleNavigationPlatformMessage Parse m).
Proof.
  destruct (setters_respond D) as (_ & Hl & Hu & Hs & _). split_and!;
    unfold HandleLifecyclePlatformMessage, HandleLocalizationPlatformMessage, HandleSettingsPlatformMessage,
      HandleNavigationPlatformMessage, StopAnimator, StartAnimatorIfPossible; response_auto.
Qed.

Lemma dispatch_answers D m r a r' :
  responses_inv D r → response_set m ## D → call (CallDispatchPlatformMessage m) r ⇓ (a, r') →
  responses_inv (response_set m ∪ D) r' ∧ later r r'.
Proof.
  intros Hi HD. destruct (handlers_answer D m) as (Hl & Hloc & Hs & Hnav).
  intros (handled & r1 & Hh & Hr)%bind_inv.
  assert (Hok : responses_inv D r1 ∧ later r r1).
  { destruct (bool_decide _); [by eapply Hl|]. destruct (bool_decide _); [by eapply Hloc|].
    destruct (bool_decide _); [|by injection Hh as _ <-].
    apply bind_inv in Hh as (u & r2 & Hu & Hh). injection Hh as _ <-. by eapply Hs. }
  destruct Hok as [Hi1 Hl1].
  assert (Hmono : ∀ r : Runtime Engine, responses_inv D r → responses_inv (response_set m ∪ D) r).
  { intros r2 Hi2. eapply (responses_inv_mono framework alloc_fails vm cr sh debug_name); [done|set_solver]. }
  destruct handled; [injection Hr as _ <-; by auto|].
  apply bind_inv in Hr as (running & r2 & Hrun & Hr).
  assert (Hq : answers D (IsRootIsolateRunning (E := Engine))) by (unfold IsRootIsolateRunning; response_auto).
  destruct (Hq _ _ _ Hi1 Hrun) as [Hi2 Hl2]. destruct running.
  - apply bind_inv in Hr as (ok & r3 & Hd & Hr).
    destruct (controller_dispatch_answers framework alloc_fails vm cr sh debug_name D m r2 ok r3 Hi2 HD Hd) as [Hi3 Hl3].
    destruct ok; [|done]. injection Hr as _ <-. split; [done|]. by rewrite Hl1, Hl2.
  - case_match; [|injection Hr as _ <-; split; [by auto|by etrans]].
    apply bind_inv in Hr as (ok & r3 & Hn & Hr). destruct (Hnav _ _ _ Hi2 Hn) as [Hi3 Hl3]. injection Hr as _ <-.
    split; [by auto|]. by rewrite Hl1, Hl2.
Qed.

Lemma engine_calls_answers cs D r u r' :
  responses_inv D r → fresh_responses D cs → engine_calls cs r ⇓ (u, r') →
  responses_inv (responses D cs) r' ∧ later r r'.
Proof.
  revert D r. induction cs as [|c cs IH]; intros D r Hi Hf; [by intros [= _ <-]|].
  destruct Hf as [Hc Hf]. cbn [engine_calls]. intros (u1 & r1 & Hr1 & Hr)%bind_inv.
  assert (Hstep : responses_inv (call_response c ∪ D) r1 ∧ later r r1).
  { assert ((∃ m, c = CallDispatchPlatformMessage m) ∨ ∀ m, c ≠ CallDispatchPlatformMessage m) as [[m ->]|Hq]
      by (destruct c; first [by right|left; by eexists]); [by eapply dispatch_answers|].
    assert (call_response c = ∅) as -> by (destruct c; naive_solver). rewrite union_empty_l_L.
    by eapply quiet_call_answers. }
  destruct Hstep as [Hi1 Hl1]. destruct (IH _ _ Hi1 Hf Hr) as [Hi2 Hl2]. split; [done|by etrans].
Qed.

Lemma new_answers r : new ⇓ r → responses_inv ∅ r.
Proof.
  unfold Engine_new. destruct (new_controller _ _ _ _ _ _ _) as [[u r']|] eqn:Hn; [|done]. intros [= <-].
  eapply (new_controller_answers framework alloc_fails vm cr sh debug_name); [|exact Hn].
  split; cbn; try done; try apply NoDup_nil_2.
  - intros x Hx. by apply elem_of_nil in Hx.
  - intros i n x (w & Hw & _). cbn in Hw. by rewrite lookup_empty in Hw.
  - intros i j n m x (w & Hw & _). cbn in Hw. by rewrite lookup_empty in Hw.
Qed.

Lemma fresh_responses_app D cs1 cs2 :
  fresh_responses D (cs1 ++ cs2) ↔ fresh_responses D cs1 ∧ fresh_responses (responses D cs1) cs2.
Proof. revert D. induction cs1 as [|c cs1 IH]; intros D; cbn; [tauto|]. rewrite IH. tauto. Qed.

(** C3: No platform message is answered twice, and none that was not sent.  A
    response that waits in a window under an identifier keeps waiting there
    through every later call, until it is answered or its isolate is gone;
    while it waits, answering the identifier from Dart completes this very
    response, with the data of the answer. *)
Theorem messages_answered_once cs1 cs2 r0 u1 r1 u2 r2 :
  new ⇓ r0 → fresh_responses ∅ (cs1 ++ cs2) → engine_calls cs1 r0 ⇓ (u1, r1) → engine_calls cs2 r1 ⇓ (u2, r2) →
  NoDup (completed r2).*1 ∧
  (∀ x, answered_in r2 x → x ∈ responses ∅ (cs1 ++ cs2)) ∧
  (∀ i n x data, pending r1 i n x → (i ∉ expired r2) → ¬ answered_in r2 x →
     pending r2 i n x ∧
     ∃ r3, native i (Window_respondToPlatformMessage n data) r2 ⇓ (tt, r3) ∧
       completed r3 = completed r2 ++ [(x, data)] ∧ ∀ y, ¬ pending r3 i n y).
Proof.
  intros Hn [Hf1 Hf2]%fresh_responses_app Hr1 Hr2.
  destruct (engine_calls_answers cs1 ∅ _ _ _ (new_answers _ Hn) Hf1 Hr1) as [Hi1 _].
  destruct (engine_calls_answers cs2 _ _ _ _ Hi1 Hf2 Hr2) as [Hi2 Hl]. split_and!.
  - apply Hi2.
  - intros x Hx. unfold responses. rewrite foldl_app. by apply (rv_known _ _ Hi2).
  - intros i n x data Hp He Ha. destruct (later_pending _ _ Hl i n x Hp) as [|[|Hp2]]; [done..|]. split; [done|].
    exists (completes i n x data r2). split_and!; [by eapply complete_pending|done|].
    intros y [_ Hne]%completes_pending. by apply Hne.
Qed.

(** ** Running and restarting *)

(** Only the isolates and the engine change. *)
Definition frozen (r r' : Runtime Engine) : Prop :=
  controller r' = controller r ∧ expired r' = expired r ∧ dart_calls r' = dart_calls r ∧ windows r' = windows r.

Lemma UpdateAssetManager_frozen m r a r' :
  UpdateAssetManager settings m r ⇓ (a, r') → frozen r r' ∧ isos r' = isos r.
Proof.
  unfold UpdateAssetManager, engine, change, modify, mbind, rt_bind, gets. repeat case_match; by intros [= _ <-].
Qed.

(** The phase of isolate [i]. *)
Definition phase_of (i : nat) (r : Runtime Engine) : option Phase := phase_ <$> isolates (isos r) !! i.

(** Preparing fails without a change of phase, and needs the right one. *)
Lemma PrepareIsolate_phase c i w b w' :
  isolates_inv w → PrepareIsolate vm c i w ⇓ (b, w') →
  (b = true → phase_ <$> isolates w !! i = Some LibrariesSetup) ∧
  (b = false → phase_ <$> isolates w' !! i = phase_ <$> isolates w !! i) ∧ isolates_inv w' ∧ is_Some (isolates w' !! i).
Proof.
  intros Hi (x & Hx & Hc)%get_isolate_inv. destruct (phase_is LibrariesSetup x) eqn:Hp; cbn [negb] in Hc; last first.
  { injection Hc as <- <-. split_and!; try done; by eexists. }
  apply phase_is_true in Hp. assert (Hcall : ∀ call w1, isolates_inv w1 → isolates w1 = isolates w → valid_call call w1 →
    isolate_call vm call w1 ⇓ (b, w') → isolates_inv w' ∧ (b = false → phase_ <$> isolates w' !! i = Some (phase_ x)) ∧ is_Some (isolates w' !! i)).
  { intros call w1 Hi1 Hw1 Hv Hr.
    destruct (isolate_call_inv dart_kept framework alloc_fails vm cr sh debug_name call w1 b w' Hi1 Hv Hr) as [Hi' Hadv].
    destruct (Hadv i x) as (x' & Hx' & _ & _ & _ & Hf); [by rewrite Hw1|]. rewrite Hx'.
    split_and!; [done| |by eexists]. intros ->. cbn. by rewrite Hf. }
  rewrite Hx. cbn. rewrite Hp.
  assert (Hok : isolates_inv w' ∧ (b = false → phase_ <$> isolates w' !! i = Some (phase_ x)) ∧ is_Some (isolates w' !! i)).
  { destruct c as [|k|ks]; cbn [DoPrepareIsolate] in Hc.
    - eapply (Hcall (CallPreparePrecompiled i)); [exact Hi|done|by eexists|exact Hc].
    - apply iso_bind_inv in Hc as (p & w1 & [= <- <-] & Hc).
      destruct (vm _ _); [injection Hc as <- <-; cbn; rewrite Hx; split_and!; [by apply calls_inv|done|by eexists]|].
      eapply (Hcall (CallPrepareKernel i k true)); [by apply calls_inv|done|by eexists|exact Hc].
    - apply iso_bind_inv in Hc as (p & w1 & [= <- <-] & Hc).
      destruct (vm _ _); [injection Hc as <- <-; cbn; rewrite Hx; split_and!; [by apply calls_inv|done|by eexists]|].
      destruct ks as [|k ks]; [injection Hc as <- <-; cbn; rewrite Hx; split_and!; [by apply calls_inv|done|by eexists]|].
      eapply (Hcall (CallPrepareKernels i (k :: ks))); [by apply calls_inv|done|by eexists|exact Hc]. }
  rewrite Hp in Hok. naive_solver.
Qed.

(** After a successful preparation the isolate is ready, or, from an empty
    list of kernels, where it was. *)
Lemma PrepareIsolate_ready c i w w' :
  isolates_inv w → PrepareIsolate vm c i w ⇓ (true, w') → phase_ <$> isolates w' !! i ≠ Some Running.
Proof.
  intros Hi (x & Hx & Hc)%get_isolate_inv. destruct (phase_is LibrariesSetup x) eqn:Hp; [|done]. cbn [negb] in Hc.
  apply phase_is_true in Hp. destruct (inv_group w Hi i x Hx) as (g & Hg & _).
  assert (Hlift : ∀ w1 (m : iso bool), m w1 ⇓ (true, w') → returns m w1 (λ b w2, b = true → phase_ <$> isolates w2 !! i = Some Ready) →
    phase_ <$> isolates w' !! i ≠ Some Running).
  { intros w1 m Hm Hret. by rewrite (returns_det _ _ _ _ (λ b w2, b = true → phase_ <$> isolates w2 !! i = Some Ready) Hm Hret). }
  destruct c as [|k|ks]; cbn [DoPrepareIsolate] in Hc.
  - apply (Hlift _ _ Hc). eapply returns_mono; [|by eapply (Precompiled_spec vm i x g w)].
    intros b w1 [n Hn] ->. destruct Hn as [_ ->]. cbn. by rewrite lookup_alter_eq, Hx.
  - apply iso_bind_inv in Hc as (p & w1 & [= <- <-] & Hc). destruct (vm _ _); [done|]. apply (Hlift _ _ Hc).
    eapply returns_mono; [|by eapply (PrepareKernel_spec vm i x g k true)].
    intros b w1 Hb ->. destruct Hb as (m & n & _ & _ & ->). cbn. by rewrite lookup_alter_eq, Hx.
  - apply iso_bind_inv in Hc as (p & w1 & [= <- <-] & Hc). destruct (vm _ _); [done|].
    destruct ks as [|k ks]; [injection Hc as <-; cbn; rewrite Hx; cbn; congruence|]. apply (Hlift _ _ Hc).
    eapply returns_mono; [|by eapply (prepare_pieces_spec vm i x g (k :: ks))].
    intros b w1 Hb ->. destruct Hb as (l & n & _ & _ & ->). cbn. by rewrite lookup_alter_eq, Hx.
Qed.

Lemma launch_phase i e w b w' :
  isolates_inv w → run_entrypoint vm i e None w ⇓ (b, w') →
  isolates_inv w' ∧ (b = false → phase_ <$> isolates w' !! i = phase_ <$> isolates w !! i) ∧
  (b = true → phase_ <$> isolates w' !! i = Some Running ∧ events w' = events w ++ [MainInvoked i e]) ∧ is_Some (isolates w' !! i).
Proof.
  intros Hi Hr. pose proof Hr as (x & Hx & Hc)%get_isolate_inv.
  set (call := match e with InRootLibrary n => CallRun i n None | InLibrary l n => CallRunFromLibrary i l n None end).
  assert (Hcall : isolate_call vm call w ⇓ (b, w')) by (by destruct e).
  destruct (isolate_call_inv dart_kept framework alloc_fails vm cr sh debug_name call w b w' Hi) as [Hi' Hadv];
    [destruct e; by eexists|done|].
  destruct (Hadv i x Hx) as (x' & Hx' & _ & _ & _ & Hf). rewrite Hx', Hx. split_and!; [done| | |by eexists].
  - intros ->. cbn. by rewrite Hf.
  - intros ->. destruct (phase_is Ready x); [|done]. cbn [negb] in Hc.
    revert Hc. unfold InvokeMainEntrypoint, ask, emit, modify_isolate, mret, iso_ret, mbind, iso_bind, mbind, result_bind. cbn.
    destruct (vm _ QGetField); cbn; [|done]. destruct (vm _ QStartMainIsolateFunction); cbn; [|done].
    destruct (vm _ QRunMainZoned); cbn; [|done]. intros [= <-]. cbn in Hx'. rewrite lookup_alter_eq, Hx in Hx'. injection Hx' as <-.
    cbn. by rewrite app_nil_r.
Qed.

Definition entry (c : RunConfiguration) : Entrypoint :=
  if bool_decide (entrypoint_library_ c = ""%string) then InRootLibrary (entrypoint_ c)
  else InLibrary (entrypoint_library_ c) (entrypoint_ c).

Lemma lift_iso_inv {A} (m : iso A) (r : Runtime Engine) a r' :
  lift_iso m r ⇓ (a, r') → ∃ w', m (isos r) ⇓ (a, w') ∧ r' = set_isos w' r.
Proof. unfold lift_iso. destruct (m (isos r)) as [[b w']|]; [|done]. intros [= <- <-]. eauto. Qed.

Lemma lift_get_inv i (r : Runtime Engine) x r' :
  lift_iso (get_isolate i) r ⇓ (x, r') → isolates (isos r) !! i = Some x ∧ r' = r.
Proof.
  intros (w' & Hx & ->)%lift_iso_inv. unfold get_isolate in Hx.
  destruct (isolates (isos r) !! i); [|done]. injection Hx as <- <-. by destruct r.
Qed.

(** What launching leaves: the isolate runs exactly when it reports success. *)
Definition launched (c : RunConfiguration) (status : RunStatus) (r r' : Runtime Engine) : Prop :=
  let root := lock (root_isolate_ (controller r)) r in
  match status with
  | Success => ∃ i, root = Some i ∧ phase_of i r = Some LibrariesSetup ∧ phase_of i r' = Some Running ∧
      MainInvoked i (entry c) ∈ events (isos r')
  | FailureAlreadyRunning => ∃ i, root = Some i ∧ phase_of i r = Some Running ∧ isos r' = isos r
  | Failure => ∀ i, root = Some i → phase_of i r' ≠ Some Running
  end.

(** Isolates other than the root isolate of [r] are untouched. *)
Definition others_kept (r r' : Runtime Engine) : Prop :=
  ∀ j, lock (root_isolate_ (controller r)) r ≠ Some j → isolates (isos r') !! j = isolates (isos r) !! j.

Lemma PrepareIsolate_others c i w b w' j :
  PrepareIsolate vm c i w ⇓ (b, w') → j ≠ i → isolates w' !! j = isolates w !! j.
Proof.
  intros Hr Hj. assert (Hk : keeps id i (PrepareIsolate vm c i)).
  { assert (hidden (B := DartIsolate) id i i) by (by left). unfold PrepareIsolate, DoPrepareIsolate. keeps_auto.
    - by apply Precompiled_keeps.
    - by apply PrepareKernel_keeps.
    - by apply prepare_pieces_keeps. }
  destruct (Hk _ _ _ Hr) as [Hw _]. specialize (Hw j Hj). by rewrite !option_fmap_id in Hw.
Qed.

Lemma launch_others i e w b w' j :
  run_entrypoint vm i e None w ⇓ (b, w') → j ≠ i → isolates w' !! j = isolates w !! j.
Proof.
  intros Hr Hj. destruct (run_entrypoint_keeps vm id i i e None (or_introl eq_refl) _ _ _ Hr) as [Hw _].
  specialize (Hw j Hj). by rewrite !option_fmap_id in Hw.
Qed.

Lemma PrepareAndLaunch_spec c r status r' :
  isolates_inv (isos r) → PrepareAndLaunchIsolate vm settings c r ⇓ (status, r') →
  frozen r r' ∧ launched c status r r' ∧ others_kept r r' ∧ isolates_inv (isos r').
Proof.
  intros Hi (b & r1 & Ha & Hr)%bind_inv. apply UpdateAssetManager_frozen in Ha as [Hf1 Hiso1].
  assert (Hroot : lock (root_isolate_ (controller r1)) r1 = lock (root_isolate_ (controller r)) r).
  { destruct Hf1 as (-> & He & _). unfold lock. by rewrite He. }
  apply bind_inv in Hr as (root & r2 & [= <- <-] & Hr). rewrite Hroot in Hr. unfold launched, others_kept, phase_of.
  destruct (lock (root_isolate_ (controller r)) r) as [i|] eqn:Hl; last first.
  { injection Hr as <- <-. rewrite Hiso1. done. }
  apply bind_inv in Hr as (x & r2 & [Hx ->]%lift_get_inv & Hr). rewrite Hiso1 in Hx.
  destruct (phase_is Running x) eqn:Hrun.
  { injection Hr as <- <-. rewrite Hiso1. apply phase_is_true in Hrun. split_and!; [done| |done|done].
    exists i. rewrite Hx. cbn. by rewrite Hrun. }
  apply bind_inv in Hr as (cfg & r2 & Hcfg & Hr). apply lift_pure in Hcfg as ->.
  apply bind_inv in Hr as (prep & r2 & (w2 & Hp & ->)%lift_iso_inv & Hr). rewrite Hiso1 in Hp.
  destruct (PrepareIsolate_phase cfg i _ _ _ Hi Hp) as (Hpt & Hpf & Hi2 & _).
  pose proof (λ j, PrepareIsolate_others cfg i _ _ _ j Hp) as Hoth2.
  assert (Hxr : phase_ x ≠ Running). { intros Hph. rewrite <- phase_is_true in Hph. congruence. }
  destruct prep; cbn [negb] in Hr; last first.
  { injection Hr as <- <-. split_and!; try done.
    - intros j [= <-]. change (phase_ <$> isolates w2 !! i ≠ Some Running). rewrite (Hpf eq_refl), Hx. by intros [= ?].
    - intros j Hj. apply Hoth2. congruence. }
  assert (Hprep : phase_ x = LibrariesSetup) by (specialize (Hpt eq_refl); rewrite Hx in Hpt; by injection Hpt).
  apply bind_inv in Hr as (ok & r2 & (w3 & Hrl & ->)%lift_iso_inv & Hr). injection Hr as <- <-.
  assert (Hrl' : run_entrypoint vm i (entry c) None w2 ⇓ (ok, w3)) by (unfold entry; destruct (bool_decide _); exact Hrl).
  destruct (launch_phase i _ w2 ok w3 Hi2 Hrl') as (Hi3 & Hff & Hft & _).
  pose proof (λ j, launch_others i _ w2 ok w3 j Hrl') as Hoth3.
  split_and!; [done| | |done].
  - destruct ok.
    + destruct (Hft eq_refl) as [Hph He]. exists i. rewrite Hx. cbn. rewrite Hprep, Hph, He. set_solver.
    + intros j [= <-]. change (phase_ <$> isolates w3 !! i ≠ Some Running). rewrite (Hff eq_refl).
      exact (PrepareIsolate_ready cfg i _ _ Hi Hp).
  - intros j Hj. cbn. rewrite Hoth3, Hoth2; congruence.
Qed.

Lemma Engine_Run_spec c r status r' :
  isolates_inv (isos r) → Engine_Run vm settings service_id c r ⇓ (status, r') →
  frozen r r' ∧ others_kept r r' ∧
  (if configuration_IsValid c then launched c status r r' else status = Failure ∧ r' = r).
Proof.
  intros Hi. unfold Engine_Run. destruct (configuration_IsValid c); cbn [negb]; [|by intros [= <- <-]].
  intros (u & r1 & [= _ <-] & Hr)%bind_inv. apply bind_inv in Hr as (st & r2 & Hl & Hr).
  destruct (PrepareAndLaunch_spec c (set_client (set_entry_point (entrypoint_ c) (entrypoint_library_ c)) r) st r2 Hi Hl)
    as (Hf & Hla & Hoth & Hi2).
  case_bool_decide as Hst; cbn [negb] in Hr; [subst st|by injection Hr as <- <-].
  apply bind_inv in Hr as (root & r3 & [= <- <-] & Hr). destruct Hla as (i & Hroot & Hph & Hph' & Hev).
  assert (Hroot2 : lock (root_isolate_ (controller r2)) r2 = Some i).
  { destruct Hf as (-> & He & _). unfold lock in *. by rewrite He. }
  rewrite Hroot2 in Hr. apply bind_inv in Hr as (x & r3 & [Hx ->]%lift_get_inv & Hr).
  assert (Hrun : phase_is Running x = true).
  { apply phase_is_true. unfold phase_of in Hph'. rewrite Hx in Hph'. by injection Hph'. }
  rewrite Hrun in Hr. cbn [negb] in Hr. apply bind_inv in Hr as (u1 & r3 & H1 & Hr).
  assert (∃ f, r3 = set_client f r2) as [f ->].
  { destruct (root_isolate_create_callback settings); [by injection H1 as _ <-; eexists|]. injection H1 as _ <-. exists id. by destruct r2. }
  apply bind_inv in Hr as (u2 & r4 & H2 & Hr).
  assert (∃ l, r4 = set_isos (mkIsolates (alter (λ y, set_shutdown_callbacks (shutdown_callbacks_ y ++ l) y) i (isolates (isos r2)))
    (groups (isos r2)) (vm_calls (isos r2)) (events (isos r2))) (set_client f r2)) as [l ->].
  { destruct (root_isolate_shutdown_callback settings) as [code|]; [injection H2 as _ <-; by exists [Some code]|].
    injection H2 as _ <-. exists []. rewrite alter_id; [by destruct r2 as [? ? [] ? ? ? ? ?]|]. intros y _. rewrite app_nil_r. by destruct y. }
  apply bind_inv in Hr as (u3 & r5 & [= _ <-] & [= <- <-]). split_and!; [done| |].
  - intros j Hj. cbn. rewrite lookup_alter_ne by (intros ->; by apply Hj). by apply Hoth.
  - exists i. split_and!; [done|done| |done]. unfold phase_of in *. cbn. rewrite lookup_alter_eq, Hx. cbn.
    by apply phase_is_true in Hrun as ->.
Qed.

(** C6: In every run, running a valid configuration reports success exactly when
    it took the root isolate, its libraries set up, to running with the
    configuration's entry point invoked; a root isolate that runs already is
    left alone and reported, and after any other failure the root isolate does
    not run.  An invalid configuration is refused with nothing changed, and no
    other isolate is ever touched. *)
Theorem run_status cs r0 u r c status r' :
  new ⇓ r0 → engine_calls cs r0 ⇓ (u, r) → Engine_Run vm settings service_id c r ⇓ (status, r') →
  others_kept r r' ∧ (if configuration_IsValid c then launched c status r r' else status = Failure ∧ r' = r).
Proof.
  intros Hn Hr Hrun. destruct (engine_calls_inv cs _ _ _ _ _ (Engine_new_inv _ Hn) Hr) as [Hi _ _].
  by destruct (Engine_Run_spec c r status r' (ri_isolates r Hi) Hrun) as (_ & Ho & Hl).
Qed.

(** [Restart] is [Clone] and a run on the clone. *)
Lemma Restart_parts c r r' :
  Restart framework vm cr sh debug_name settings service_id c r ⇓ (true, r') →
  configuration_IsValid c = true ∧
  ∃ u r1 r2, Clone framework vm cr sh debug_name (set_client (delegate OnPreEngineRestart) r) ⇓ (u, r1) ∧
    frozen r1 r2 ∧ isos r2 = isos r1 ∧ Engine_Run vm settings service_id c r2 ⇓ (Success, r').
Proof.
  unfold Restart. destruct (configuration_IsValid c); [|done]. cbn [negb]. intros (u & r1 & [= _ <-] & Hr)%bind_inv.
  apply bind_inv in Hr as (v & r2 & Hc & Hr). apply bind_inv in Hr as (b & r3 & Ha & Hr).
  apply bind_inv in Hr as (st & r4 & Hrun & [= Hst <-]). apply UpdateAssetManager_frozen in Ha as [Hf Hiso].
  apply bool_decide_eq_true in Hst as ->. split; [done|]. by exists v, r2, r3.
Qed.

Lemma restart_fresh cs r0 u r c r' :
  new ⇓ r0 → engine_calls cs r0 ⇓ (u, r) →
  Restart framework vm cr sh debug_name settings service_id c r ⇓ (true, r') →
  let i := next_handle r in
  lock (root_isolate_ (controller r')) r' = Some i ∧ lock (root_isolate_ (controller r)) r ≠ Some i ∧
  phase_of i r' = Some Running ∧ MainInvoked i (entry c) ∈ events (isos r') ∧
  (∀ d0, told i d0 r' = dart_window (tell_all cs new_window_data)) ∧ is_Some (windows r' !! i) ∧
  ∀ old, lock (root_isolate_ (controller r)) r = Some old → phase_of old r' = Some ShutDown.
Proof.
  intros Hn Hr Hre i. destruct (engine_calls_inv cs _ _ _ _ _ (Engine_new_inv _ Hn) Hr) as [Hi Hd _].
  destruct (Restart_parts c r r' Hre) as (Hv & v & r1 & r2 & Hc & (Hctl & Hexp & Hcalls & Hwin) & Hiso & Hrun).
  pose proof (Clone_spec dart_kept framework alloc_fails vm cr sh debug_name _ _ _ (set_client_inv _ _ Hi) Hc) as Hcl.
  destruct (Engine_Run_spec c r2 Success r') as ((Hctl' & Hexp' & Hcalls' & Hwin') & Hoth & Hl); [rewrite Hiso; apply Hcl|done|].
  rewrite Hv in Hl. destruct Hl as (j & Hj & _ & Hph & Hev).
  assert (Hold : ∀ old, lock (root_isolate_ (controller r)) r = Some old → old < i).
  { intros old Ho. apply (lock_Some dart_kept framework alloc_fails) in Ho as [Ho _]. by apply (ri_root r Hi). }
  assert (Hroot : lock (root_isolate_ (controller r2)) r2 = Some i).
  { rewrite Hctl, (clone_root _ _ _ Hcl). unfold lock. cbn. rewrite Hexp, decide_False; [done|]. by apply (clone_alive _ _ _ Hcl). }
  rewrite Hroot in Hj. injection Hj as <-.
  assert (Hroot' : lock (root_isolate_ (controller r')) r' = Some i).
  { rewrite <- Hroot. unfold lock. by rewrite Hctl', Hexp'. }
  split_and!; [done| |done|done| | |].
  - intros Ho. apply Hold in Ho. lia.
  - intros d0. unfold told, hooks. rewrite Hcalls', Hcalls.
    assert (Hroot1 : lock (root_isolate_ (controller r1)) r1 = Some i).
    { rewrite <- Hroot. unfold lock. by rewrite Hctl, Hexp. }
    destruct (ri_sync r1 (clone_inv _ _ _ Hcl) i Hroot1) as [_ Ht].
    specialize (Ht d0). unfold told, hooks in Ht. rewrite Ht, (clone_data _ _ _ Hcl). cbn. by rewrite Hd.
  - assert (Hroot1 : lock (root_isolate_ (controller r1)) r1 = Some i).
    { rewrite <- Hroot. unfold lock. by rewrite Hctl, Hexp. }
    destruct (ri_sync r1 (clone_inv _ _ _ Hcl) i Hroot1) as [(_ & _ & _ & w & Hw & _) _]. rewrite Hwin', Hwin. by eexists.
  - intros old Ho. unfold phase_of. rewrite Hoth, Hiso; [by apply (clone_shutdown _ _ _ Hcl)|].
    rewrite Hroot. intros [= <-]. apply Hold in Ho. lia.
Qed.

(** C4: A successful restart runs the entry point on a new root isolate that has
    been told the window state that the platform has set, as far as hooks take
    it; the old isolate is shut
    down. *)
Theorem restart_runs_fresh cs r0 u r c r' :
  new ⇓ r0 → engine_calls cs r0 ⇓ (u, r) →
  Restart framework vm cr sh debug_name settings service_id c r ⇓ (true, r') →
  let i := next_handle r in
  lock (root_isolate_ (controller r')) r' = Some i ∧ lock (root_isolate_ (controller r)) r ≠ Some i ∧
  phase_of i r' = Some Running ∧ MainInvoked i (entry c) ∈ events (isos r') ∧
  (∀ d0, told i d0 r' = dart_window (tell_all cs new_window_data)) ∧
  ∀ old, lock (root_isolate_ (controller r)) r = Some old → phase_of old r' = Some ShutDown.
Proof.
  intros Hn Hr Hre i. destruct (restart_fresh cs r0 u r c r' Hn Hr Hre) as (? & ? & ? & ? & ? & _ & ?). done.
Qed.

(** ** Messages the engine does not survive *)

(** [HandleNavigationPlatformMessage] reads the member it did not find: before
    the isolate runs, a navigation message that is an object without a method
    is undefined behaviour. *)
Theorem navigation_without_method m root r :
  Parse (data_ m) = Some (JObject root) → FindMember "method" root = None →
  HandleNavigationPlatformMessage Parse m r ⇑ UndefinedBehaviour.
Proof. intros Hp Hm. unfold HandleNavigationPlatformMessage. by rewrite Hp, Hm. Qed.

(** [HandleLocalizationPlatformMessage] checks two of the four strings of a
    locale and reads all of them. *)
Theorem localization_unchecked_script m language country script variant r :
  Parse (data_ m) = Some (JObject [("method", JString "setLocale");
    ("args", JArray [JString language; JString country; script; variant])]) → IsString script = false →
  HandleLocalizationPlatformMessage framework Parse m r ⇑ CheckFailed.
Proof. intros Hp Hs. unfold HandleLocalizationPlatformMessage. rewrite Hp. cbn. by destruct script. Qed.
End engine.

(** ** Witnesses *)

(** Dart code that asks for a frame when its lifecycle changes and answers
    messages on the channel "echo". *)
Definition demo_framework (_ : nat) (c : DartCall) (_ : Runtime Engine) : list NativeCall :=
  match c with
  | UpdateLifecycleStateHook _ => [Window_scheduleFrame]
  | DispatchPlatformMessageHook channel data id =>
      if bool_decide (channel = "echo"%string) then [Window_respondToPlatformMessage id data] else []
  | _ => []
  end.

Definition demo_settings : EngineSettings := mkEngineSettings false None (Some 9).
Definition demo_parse (s : string) : option Json :=
  if bool_decide (s = "de"%string) then
    Some (JObject [("method"%string, JString "setLocale");
      ("args"%string, JArray [JString "de"; JString "AT"; JString ""; JString ""])])
  else None.
Definition demo_configuration : RunConfiguration :=
  mkRunConfiguration (Some (KernelIsolateConfiguration (Some (mkMapping "app")))) (Some (mkAssetManager 0 [])) "main" "".
Definition demo_message (channel data : string) (response : option nat) : EngineCall :=
  CallDispatchPlatformMessage (mkMessage channel data true response).

Abbreviation demo_new := (@Engine_new debug_mode demo_framework good_vm None None (λ _, "root"%string)).
Abbreviation demo_calls := (@engine_calls debug_mode demo_framework (λ _, false) good_vm None None
  (λ _, "root"%string) demo_settings demo_parse (λ _, "isolates/1"%string)).

(** A run: locales before the isolate runs, then a lifecycle message, one that
    Dart answers and one that it does not. *)
Definition demo_run : list EngineCall :=
  [demo_message kLocalizationChannel "de" None; CallEngineRun demo_configuration; CallSurfaceCreated;
   demo_message kLifecycleChannel "AppLifecycleState.resumed" None;
   demo_message "echo" "hello" (Some 4); demo_message "other" "x" (Some 5)].

Definition demo_start : Runtime Engine := match demo_new with Ok r => r | Fault _ => no_runtime end.
Definition demo_state : Runtime Engine :=
  match demo_calls demo_run demo_start with Ok (_, r) => r | Fault _ => no_runtime end.

Lemma demo_new_ok : demo_new ⇓ demo_start.
Proof. vm_compute. reflexivity. Qed.
Lemma demo_run_ok : demo_calls demo_run demo_start ⇓ (tt, demo_state).
Proof. vm_compute. reflexivity. Qed.

Lemma dart_told_window_state_witness :
  told 0 (dart_window new_window_data) demo_state = dart_window (tell_all demo_parse demo_run new_window_data) ∧
  dart_locales (told 0 (dart_window new_window_data) demo_state) = ["de"; "AT"; ""; ""]%string ∧
  dart_lifecycle (told 0 (dart_window new_window_data) demo_state) = "AppLifecycleState.resumed"%string.
Proof.
  rewrite (dart_told_window_state demo_framework (λ _, false) good_vm None None (λ _, "root"%string) demo_settings demo_parse
    (λ _, "isolates/1"%string) demo_run demo_start tt demo_state 0 (dart_window new_window_data)
    demo_new_ok demo_run_ok); [|vm_compute; reflexivity].
  split; [reflexivity|]. split; vm_compute; reflexivity.
Defined.

Lemma messages_answered_once_witness :
  completed demo_state = [(4, Some "hello"%string)] ∧
  ∃ r3, native 0 (Window_respondToPlatformMessage 2 None) demo_state ⇓ (tt, r3) ∧
    completed r3 = [(4, Some "hello"%string); (5, None)].
Proof.
  destruct (messages_answered_once demo_framework (λ _, false) good_vm None None (λ _, "root"%string) demo_settings demo_parse
    (λ _, "isolates/1"%string) demo_run [] demo_start tt demo_state tt demo_state demo_new_ok) as (_ & _ & Hp).
  - cbn. set_solver.
  - exact demo_run_ok.
  - reflexivity.
  - split; [vm_compute; reflexivity|]. destruct (Hp 0 2%Z 5 None) as (_ & r3 & Hr3 & Hc & _).
    + eexists. split; vm_compute; reflexivity.
    + vm_compute. set_solver.
    + unfold answered_in. intros Hd. assert (Hcs : completed demo_state = [(4, Some "hello"%string)]) by (vm_compute; reflexivity).
      rewrite Hcs in Hd. clear -Hd. by apply list_elem_of_singleton in Hd.
    + exists r3. split; [exact Hr3|]. rewrite Hc. vm_compute. reflexivity.
Defined.

Lemma run_status_witness :
  ∃ status r', Engine_Run good_vm demo_settings (λ _, "isolates/1"%string) demo_configuration demo_start ⇓ (status, r') ∧
    status = Success ∧ launched demo_configuration status demo_start r'.
Proof.
  eexists _, _. split; [vm_compute; reflexivity|]. split; [reflexivity|].
  eapply (run_status demo_framework (λ _, false) good_vm None None (λ _, "root"%string) demo_settings demo_parse
    (λ _, "isolates/1"%string) [] demo_start tt demo_start demo_configuration Success _ demo_new_ok eq_refl).
  vm_compute. reflexivity.
Defined.

Lemma restart_runs_fresh_witness :
  ∃ r', @Restart debug_mode demo_framework good_vm None None (λ _, "root"%string) demo_settings (λ _, "isolates/1"%string)
      demo_configuration demo_state ⇓ (true, r') ∧
    next_handle demo_state = 1 ∧ lock (root_isolate_ (controller r')) r' = Some 1 ∧ phase_of 1 r' = Some Running ∧
    phase_of 0 r' = Some ShutDown.
Proof.
  eexists. split; [vm_compute; reflexivity|].
  edestruct (@restart_runs_fresh debug_mode demo_framework (λ _, false) good_vm None None (λ _, "root"%string) demo_settings demo_parse
    (λ _, "isolates/1"%string) demo_run demo_start tt demo_state demo_configuration) as (Hl & _ & Hph & _ & _ & Hold);
    [exact demo_new_ok|exact demo_run_ok|vm_compute; reflexivity|].
  assert (Hn : next_handle demo_state = 1) by (vm_compute; reflexivity). rewrite Hn in Hl, Hph.
  split_and!; [done|exact Hl|exact Hph|]. apply Hold. vm_compute. reflexivity.
Defined.
