(* ===== verification/EngineSystem.v ===== *)
(** * EngineSystem: the engine with its animator

    The shell's part in a frame (shell/common/shell.cc): it hands the
    animator's calls of its delegate to the engine, whose calls of the
    animator in turn are executed on the model of Animator.  A run interleaves
    calls of the engine, tasks of the UI task runner and vsync signals. *)

From Stdlib Require Import ZArith Lia.
From stdpp Require Import base numbers list gmap sets relations strings.
From S2P Require Import Prelude Time TaskQueues Pipeline VsyncWaiter Animator DartIsolate DartIsolateProofs Assets RuntimeController RuntimeControllerProofs PlatformMessages Engine EngineProofs.

Local Open Scope Z_scope.

(** ** The animator under a list of calls *)

Section animator.
Context `{Build}.

Lemma RequestFrame_paused b s : paused_ (animator (RequestFrame b s)) = paused_ (animator s).
Proof. unfold RequestFrame. destruct b; cbn; case_match; try done; destruct (TryWait _) as [[] m]; done. Qed.

Lemma Render_parts now t s s' :
  Render now (Some t) s ⇓ s' → ∃ d size k p, s' = call_delegate OnAnimatorDraw (upd_animator (λ a, set_pipeline k p (set_dimension d size a)) s).
Proof.
  unfold Render. intros (d & _ & Hr)%bind_Ok. cbn in Hr. apply bind_Ok in Hr as ([k p] & _ & <-%Ok_inj). by eexists _, _, _, _.
Qed.

Lemma Secondary_parts c s s' :
  Animator.ScheduleSecondaryVsyncCallback true c s ⇓ s' → ∃ w, s' = upd_waiter (λ _, w) s.
Proof. intros (w & _ & <-%Ok_inj)%bind_Ok. by eexists. Qed.

Lemma exec_paused c s s' :
  animator_exec c s ⇓ s' → paused_ (animator s') = paused_after (paused_ (animator s)) c.
Proof.
  destruct c; cbn [animator_exec paused_after]; intros He; try (apply Ok_inj in He as <-; done).
  - apply Ok_inj in He as <-. apply RequestFrame_paused.
  - by destruct (Render_parts _ _ _ _ He) as (? & ? & ? & ? & ->).
  - apply Ok_inj in He as <-. unfold Start. destruct (paused_ (animator s)) eqn:Hp; cbn [negb]; [|done]. by rewrite RequestFrame_paused.
  - by destruct (Secondary_parts _ _ _ He) as (? & ->).
Qed.

Lemma execs_paused cs s s' :
  animator_execs cs s ⇓ s' → paused_ (animator s') = foldl paused_after (paused_ (animator s)) cs.
Proof.
  revert s. induction cs as [|c cs IH]; intros s; cbn; [by intros <-%Ok_inj|].
  intros (s1 & He & Hs)%bind_Ok. by rewrite <- (exec_paused _ _ _ He), (IH _ Hs).
Qed.

(** What the animator tells its delegate besides the beginning of a frame. *)
Definition is_quiet (d : DelegateCall) : bool := match d with OnAnimatorBeginFrame _ => false | _ => true end.
Definition is_draw (d : DelegateCall) : bool := match d with OnAnimatorDraw => true | _ => false end.

Lemma RequestFrame_log b s : delegate_log (RequestFrame b s) = delegate_log s.
Proof. unfold RequestFrame. destruct b; cbn; case_match; try done; destruct (TryWait _) as [[] m]; done. Qed.

Lemma exec_log c s s' :
  animator_exec c s ⇓ s' → ∃ ds, delegate_log s' = delegate_log s ++ ds ∧ Forall is_draw ds.
Proof.
  destruct c; cbn [animator_exec]; intros He;
    try (apply Ok_inj in He as <-; exists []; rewrite ?RequestFrame_log; by rewrite app_nil_r).
  - destruct (Render_parts _ _ _ _ He) as (? & ? & ? & ? & ->). exists [OnAnimatorDraw]. split; [done|by repeat constructor].
  - apply Ok_inj in He as <-. exists []. rewrite app_nil_r. split; [|done].
    unfold Start. case_match; [done|]. by rewrite RequestFrame_log.
  - destruct (Secondary_parts _ _ _ He) as (? & ->). exists []. by rewrite app_nil_r.
Qed.

Lemma execs_log cs s s' :
  animator_execs cs s ⇓ s' → ∃ ds, delegate_log s' = delegate_log s ++ ds ∧ Forall is_draw ds.
Proof.
  revert s. induction cs as [|c cs IH]; intros s; cbn; [intros <-%Ok_inj; exists []; by rewrite app_nil_r|].
  intros (s1 & He & Hs)%bind_Ok. destruct (exec_log _ _ _ He) as (d1 & Hd1 & Hf1), (IH _ Hs) as (d2 & Hd2 & Hf2).
  exists (d1 ++ d2). rewrite Hd2, Hd1, app_assoc. split; [done|by apply Forall_app].
Qed.

(** What a UI task does: it begins a frame, in which the framework makes its
    calls, or it does not, and pauses and resumes nothing. *)
Definition task_effect (fw : TimePoint.t → Shell → list AnimatorCall) (s s' : Shell) : Prop :=
  (∃ t2 s1 ds, delegate_log s' = delegate_log s ++ OnAnimatorBeginFrame t2 :: ds ∧ Forall is_draw ds ∧
     paused_ (animator s') = foldl paused_after (paused_ (animator s)) (fw t2 s1)) ∨
  (∃ ds, delegate_log s' = delegate_log s ++ ds ∧ Forall is_quiet ds ∧ paused_ (animator s') = paused_ (animator s)).

Lemma BeginFrame_effect fw clock t1 t2 s s' : Animator.BeginFrame fw clock t1 t2 s ⇓ s' → task_effect fw s s'.
Proof.
  unfold Animator.BeginFrame. intros (fr & _ & Hr)%bind_Ok. apply bind_Ok in Hr as (idle & _ & Hr).
  apply bind_Ok in Hr as (a & Ha & Hr). destruct (acquire_pipeline _ _ Ha) as (k & p & ->). case_match.
  { apply Ok_inj in Hr as <-. right. exists []. rewrite RequestFrame_log, RequestFrame_paused, app_nil_r. done. }
  apply bind_Ok in Hr as (_ & _ & Hr). apply bind_Ok in Hr as (dl & _ & Hr). apply bind_Ok in Hr as (s1 & Hs1 & Hr).
  destruct (execs_log _ _ _ Hs1) as (ds & Hds & Hf). pose proof (execs_paused _ _ _ Hs1) as Hp.
  left. eexists t2, _, ds. cbn in Hds, Hp.
  assert (Hs' : delegate_log s' = delegate_log s1 ∧ paused_ (animator s') = paused_ (animator s1)).
  { case_match; [|by apply Ok_inj in Hr as <-]. apply bind_Ok in Hr as (d & _ & Hr). by apply bind_Ok in Hr as (? & _ & <-%Ok_inj). }
  destruct Hs' as [-> ->]. rewrite Hds, <- app_assoc. by split_and!.
Qed.

Lemma task_effects fw clock t s s' : run_ui_task fw clock t s ⇓ s' → task_effect fw s s'.
Proof.
  destruct t; cbn [run_ui_task]; intros Hr.
  - apply Ok_inj in Hr as <-. right. exists [OnAnimatorNotifyIdle (dart_frame_deadline_ (animator s))].
    split_and!; [done|by repeat constructor|done].
  - right. case_match.
    + apply bind_Ok in Hr as (d & _ & <-%Ok_inj). exists [OnAnimatorNotifyIdle d]. split_and!; [done|by repeat constructor|done].
    + apply Ok_inj in Hr as <-. exists []. by rewrite app_nil_r.
  - case_match; [|by eapply BeginFrame_effect]. apply Ok_inj in Hr as <-. right. exists [OnAnimatorDrawLastLayerTree].
    split_and!; [done|by repeat constructor|done].
  - apply Ok_inj in Hr as <-. right. exists []. by rewrite app_nil_r.
Qed.
End animator.

(** ** The engine and the animator together *)

Section system.
Context `{Build}.
Context (framework : nat → DartCall → Runtime Engine → list NativeCall) (alloc_fails : Runtime Engine → bool).
Context (vm : nat → VmQuery → bool) (cr sh : closure) (debug_name : nat → string).
Context (settings : EngineSettings) (Parse : string → option Json) (service_id : nat → string).
#[local] Set Default Proof Using "All".

Abbreviation call := (engine_call framework alloc_fails vm cr sh debug_name settings Parse service_id).
Abbreviation new := (Engine_new framework vm cr sh debug_name).

Definition System : Type := Runtime Engine * Shell.

(** The calls of the animator between two states of the engine. *)
Definition calls_since (r r' : Runtime Engine) : list AnimatorCall :=
  drop (length (animator_calls (client_ r))) (animator_calls (client_ r')).

(** A call of the engine.  The engine only writes to the animator, so running
    its calls at the end is running them in place. *)
Definition system_call (c : EngineCall) (y : System) : result System :=
  match call c y.1 with
  | Ok (_, r') => s' ← animator_execs (calls_since y.1 r') y.2; mret (r', s')
  | Fault e => Fault e
  end.

(** The animator's delegate is the shell, which calls the engine; the calls
    that draw go to the GPU task runner. *)
Definition Shell_OnAnimator (d : DelegateCall) : rt Engine unit :=
  match d with
  | OnAnimatorBeginFrame frame_time => call (CallBeginFrame frame_time)
  | OnAnimatorNotifyIdle deadline => call (CallNotifyIdle deadline)
  | OnAnimatorDraw | OnAnimatorDrawLastLayerTree => mret tt
  end.
Fixpoint OnAnimators (ds : list DelegateCall) : rt Engine unit :=
  match ds with [] => mret tt | d :: ds => _ ← Shell_OnAnimator d; OnAnimators ds end.

(** What the engine does to the animator while it begins a frame. *)
Definition frame_calls (r : Runtime Engine) (frame_time : TimePoint.t) (_ : Shell) : list AnimatorCall :=
  match call (CallBeginFrame frame_time) r with Ok (_, r') => calls_since r r' | Fault _ => [] end.

(** A task of the UI task runner. *)
Definition system_task (clock : Clock) (t : UiTask) (y : System) : result System :=
  s' ← run_ui_task (frame_calls y.1) clock t y.2;
  match OnAnimators (drop (length (delegate_log y.2)) (delegate_log s')) y.1 with
  | Ok (_, r') => Ok (r', s')
  | Fault e => Fault e
  end.

(** The engine's constructor already calls into Dart. *)
Definition system_new (same_platform_and_gpu : bool) : result System :=
  r ← new; s ← animator_execs (animator_calls (client_ r)) (new_shell same_platform_and_gpu); mret (r, s).

Inductive system_step : System → System → Prop :=
  | system_calls c y y' : system_call c y ⇓ y' → system_step y y'
  | system_runs clock ts1 t ts2 r a w log y' :
      system_task clock t (r, mkShell a w (ts1 ++ ts2) log) ⇓ y' →
      system_step (r, mkShell a w (ts1 ++ t :: ts2) log) y'
  | system_vsync t1 t2 r s : 0 < awaited (waiter_ s) → system_step (r, s) (r, shell_vsync t1 t2 s).

(** The invariant: the engine's own, the one of frame requests, and the
    animator is as the engine's calls left it. *)
Record system_inv (y : System) : Prop := {
  si_engine : ∃ d, engine_inv [] d y.1;
  si_frame : frame_inv 1 y.2;
  si_paused : paused_ (animator y.2) = foldl paused_after false (animator_calls (client_ y.1));
}.

Lemma engine_call_logs d c r a r' :
  engine_inv [] d r → call c r ⇓ (a, r') →
  engine_inv [] (tell Parse c d) r' ∧ animator_calls (client_ r') = animator_calls (client_ r) ++ calls_since r r'.
Proof.
  intros [Hi Hd [_ Hp]] Hr.
  destruct (engine_call_to framework alloc_fails vm cr sh debug_name settings Parse service_id c
    (animator_calls (client_ r)) d r a r') as [Hi' Hd' [[cs Hcs] Hp']]; [by split|done|].
  split; [split; [done|done|split; [apply prefix_nil|done]]|]. unfold calls_since. by rewrite Hcs, drop_app_length.
Qed.

Lemma idle_call_client d r a r' : call (CallNotifyIdle d) r ⇓ (a, r') → client_ r' = client_ r.
Proof.
  cbn [engine_call]. intros (b & r1 & Hb & [= _ <-])%bind_inv. revert Hb. unfold Controller_NotifyIdle.
  intros (root & r2 & [= <- <-] & Hr)%bind_inv. destruct (lock _ r); [|by injection Hr as _ <-].
  by apply bind_inv in Hr as (u & r3 & [= _ <-] & [= _ <-]).
Qed.

Lemma quiet_delivered ds r a r' d :
  engine_inv [] d r → Forall is_quiet ds → OnAnimators ds r ⇓ (a, r') → (∃ d', engine_inv [] d' r') ∧ client_ r' = client_ r.
Proof.
  intros Hi Hq. revert r d Hi. induction Hq as [|c ds Hc _ IH]; intros r d Hi; cbn [OnAnimators]; [intros [= _ <-]; eauto|].
  intros (u & r1 & Hu & Hr)%bind_inv.
  assert ((∃ d', engine_inv [] d' r1) ∧ client_ r1 = client_ r) as [[d1 Hi1] <-]; [|by eapply IH].
  destruct c; [done| |by injection Hu as _ <-; eauto..]. split; [|by eapply idle_call_client].
  destruct (engine_call_logs _ _ _ _ _ Hi Hu). eauto.
Qed.

Lemma system_call_inv c y y' : system_inv y → system_call c y ⇓ y' → system_inv y'.
Proof.
  destruct y as [r s]. intros [[d Hi] Hf Hp]. unfold system_call. cbn in *.
  destruct (call c r) as [[u r']|] eqn:Hc; [|done]. intros (s' & Hs & <-%Ok_inj)%bind_Ok.
  destruct (engine_call_logs _ _ _ _ _ Hi Hc) as [Hi' Hl]. split; cbn; [by eexists|by eapply animator_execs_inv|].
  by rewrite (execs_paused _ _ _ Hs), Hp, Hl, foldl_app.
Qed.

Lemma system_task_inv clock t y y' :
  (∃ d, engine_inv [] d y.1) → frame_inv (1 - Z.of_nat (carries t)) y.2 →
  paused_ (animator y.2) = foldl paused_after false (animator_calls (client_ y.1)) →
  system_task clock t y ⇓ y' → system_inv y'.
Proof.
  destruct y as [r s]. intros [d Hi] Hf Hp. unfold system_task. cbn in *. intros (s' & Hs & Hr)%bind_Ok.
  destruct (OnAnimators _ r) as [[u r']|] eqn:Ho; [|done]. apply Ok_inj in Hr as <-.
  pose proof (run_ui_task_inv _ _ _ _ _ Hf Hs) as Hf'.
  destruct (task_effects _ _ _ _ _ Hs) as [(t2 & s1 & ds & Hlog & Hq & Hp')|(ds & Hlog & Hq & Hp')];
    rewrite Hlog, drop_app_length in Ho.
  - cbn [OnAnimators] in Ho. apply bind_inv in Ho as (v & r1 & Hv & Ho). cbn [Shell_OnAnimator] in Hv.
    destruct (engine_call_logs _ _ _ _ _ Hi Hv) as [Hi1 Hl].
    destruct (quiet_delivered ds r1 u r' _ Hi1) as [Hi' Hcl]; [by eapply Forall_impl; [exact Hq|intros []]|done|].
    split; cbn; [done|done|]. unfold frame_calls in Hp'. by rewrite Hp', Hv, Hcl, Hl, foldl_app, Hp.
  - destruct (quiet_delivered ds r u r' _ Hi Hq Ho) as [Hi' Hcl]. split; cbn; [done|done|]. by rewrite Hp', Hcl.
Qed.

Lemma system_step_inv y y' : system_inv y → system_step y y' → system_inv y'.
Proof.
  intros Hi Hs. destruct Hs as [c y y' Hc|clock ts1 t ts2 r a w log y' Ht|t1 t2 r s Hpos].
  - by eapply system_call_inv.
  - destruct Hi as [He Hf Hp]. apply (system_task_inv clock t (r, mkShell a w (ts1 ++ ts2) log)); [exact He| |exact Hp|exact Ht].
    destruct Hf as [? ? Htok ?]. split; try done. revert Htok. unfold tokens. cbn. rewrite !sum_list_with_app. cbn. lia.
  - destruct Hi as [He Hf Hp]. split; cbn; [done| |].
    + by apply (frame_step_inv (frame_calls r) _ _ Hf), step_vsync.
    + by destruct (shell_vsync_fields t1 t2 s) as [-> _].
Qed.

Lemma system_new_inv b y : system_new b ⇓ y → system_inv y.
Proof.
  intros (r & Hn & (s & Hs & <-%Ok_inj)%bind_Ok)%bind_Ok. split; cbn.
  - eexists. by apply (Engine_new_inv framework alloc_fails vm cr sh debug_name settings Parse service_id).
  - by eapply animator_execs_inv; [apply new_shell_inv|].
  - by rewrite (execs_paused _ _ _ Hs).
Qed.

Lemma system_reachable_inv b y0 y : system_new b ⇓ y0 → rtc system_step y0 y → system_inv y.
Proof.
  intros Hi%system_new_inv Hr. revert Hi. induction Hr as [|y1 y2 y3 Hs _ IH]; [done|].
  intros Hi. by eapply IH, system_step_inv.
Qed.

(** ** Resuming *)

(** A frame was requested with a new layer tree: the request is posted, with
    the waiter or about to be delivered. *)
Definition in_flight (s : Shell) : Prop :=
  sem_ (pending_frame_semaphore_ (animator s)) = 0 ∧ regenerate_layer_tree_ (animator s) = true ∧ paused_ (animator s) = false.

Lemma request_in_flight s : frame_inv 1 s → paused_ (animator s) = false → in_flight (RequestFrame true s).
Proof.
  intros [Hv Hpos Ht _] Hp. unfold in_flight. rewrite RequestFrame_paused. unfold RequestFrame. cbn. rewrite Hp. cbn.
  unfold TryWait. rewrite Hv. unfold tokens in Ht.
  assert (Hle : sem_ (pending_frame_semaphore_ (animator s)) ≤ 1) by (destruct (callback_ (waiter_ s)); lia).
  destruct (Z.ltb_spec 0 (sem_ (pending_frame_semaphore_ (animator s)))); cbn; split_and!; try done; lia.
Qed.

Lemma start_unpaused s : frame_inv 1 s → frame_inv 1 (Start s) ∧ paused_ (animator (Start s)) = false.
Proof.
  intros Hi. split; [by eapply (animator_exec_inv 1 StartC)|]. by rewrite (exec_paused StartC s).
Qed.

Lemma drawing_in_flight c s s' : is_drawing c → animator_exec c s ⇓ s' → in_flight s → in_flight s'.
Proof.
  intros Hc He (Hs & Hr & Hp). destruct c; try done; cbn in He.
  - apply Ok_inj in He as <-. unfold in_flight. rewrite RequestFrame_paused. unfold RequestFrame. cbn.
    destruct regenerate_layer_tree; cbn; rewrite Hp; cbn; unfold TryWait; rewrite Hs; destruct (valid_ _); by split_and!.
  - by destruct (Render_parts _ _ _ _ He) as (? & ? & ? & ? & ->).
Qed.

Lemma drawings_in_flight cs s s' : Forall is_drawing cs → animator_execs cs s ⇓ s' → in_flight s → in_flight s'.
Proof.
  intros Hf. revert s. induction Hf as [|c cs Hc _ IH]; intros s; cbn; [by intros <-%Ok_inj|].
  intros (s1 & He & Hs)%bind_Ok Hi. eapply IH; [done|]. by eapply drawing_in_flight.
Qed.

(** Starting, requesting a frame, and then only drawing. *)
Lemma resume_in_flight cs s s' :
  frame_inv 1 s → Forall is_drawing cs → animator_execs (StartC :: RequestFrameC true :: cs) s ⇓ s' → in_flight s'.
Proof.
  intros Hi Hf He. cbn in He. eapply drawings_in_flight; [exact Hf|exact He|].
  destruct (start_unpaused s Hi). by apply request_in_flight.
Qed.

Definition resumed (response : option nat) : PlatformMessage :=
  mkMessage kLifecycleChannel "AppLifecycleState.resumed" true response.

(** An operation in which only Dart code touches the engine. *)
Lemma dart_calls_since {A} f (m : rt Engine A) r a r' :
  RuntimeControllerProofs.safe_to dart_kept f m → runtime_inv r → m r ⇓ (a, r') → runtime_inv r' ∧ dart_kept (client_ r) (client_ r').
Proof. intros Hm Hi Hr. by destruct (Hm r a r' Hi Hr) as (? & ? & _). Qed.

(** The engine's part in resuming, before Dart code is told. *)
Definition resume_engine (e : Engine) : Engine :=
  Engine_ScheduleFrame true (animate StartC (set_running_surface true (have_surface_ e) e)).

Lemma resumed_lifecycle response r handled r' :
  have_surface_ (client_ r) = true → HandleLifecyclePlatformMessage framework (resumed response) r ⇓ (handled, r') →
  handled = false ∧ ∃ b, SetLifecycleState framework "AppLifecycleState.resumed" (set_client resume_engine r) ⇓ (b, r').
Proof.
  intros Hs (u & r1 & Hu & Hr)%bind_inv.
  assert (r1 = set_client (λ e, animate StartC (set_running_surface true (have_surface_ e) e)) r) as ->.
  { revert Hu. match goal with |- (if ?b then _ else if ?c then _ else _) r ⇓ _ → _ => change b with false; change c with true end.
    unfold StartAnimatorIfPossible, engine, change, modify, gets, mbind, rt_bind. cbn. rewrite Hs. by intros [= _ <-]. }
  apply bind_inv in Hr as (e & r2 & [= <- <-] & Hr). apply bind_inv in Hr as (v & r3 & Hv & Hr).
  match type of Hv with (if ?b && _ then _ else _) _ ⇓ _ => change b with true in Hv end.
  cbn in Hv. rewrite Hs in Hv. injection Hv as _ <-. apply bind_inv in Hr as (b & r4 & Hb & [= <- <-]). split; [done|].
  exists b. exact Hb.
Qed.

Lemma IsRootIsolateRunning_pure r b r' : IsRootIsolateRunning (E := Engine) r ⇓ (b, r') → r' = r.
Proof.
  intros (root & r1 & [= <- <-] & Hr)%bind_inv. destruct (lock _ r); [|by injection Hr].
  apply bind_inv in Hr as (x & r2 & Hx & [= _ <-]).
  by apply (lift_get_inv framework alloc_fails vm cr sh debug_name settings Parse service_id) in Hx as [_ ->].
Qed.

Lemma resumed_kept response r a r' :
  runtime_inv r → have_surface_ (client_ r) = true → call (CallDispatchPlatformMessage (resumed response)) r ⇓ (a, r') →
  dart_kept (resume_engine (client_ r)) (client_ r').
Proof.
  intros Hi Hs (handled & r1 & Hh & Hr)%bind_inv. apply resumed_lifecycle in Hh as [-> [b Hb]]; [|done].
  destruct (dart_calls_since _ _ _ _ _ (set_hook_safe dart_kept framework alloc_fails
    (SetLifecycle "AppLifecycleState.resumed")) (set_client_inv resume_engine r Hi) Hb) as [Hi1 Hk1].
  apply bind_inv in Hr as (running & r2 & ->%IsRootIsolateRunning_pure & Hr). destruct running; [|by injection Hr as _ <-].
  apply bind_inv in Hr as (ok & r3 & Hd & Hr). destruct ok; [|done]. injection Hr as _ <-.
  etrans; [exact Hk1|]. eapply (dart_calls_since id); [|exact Hi1|exact Hd].
  apply (with_window_safe dart_kept framework alloc_fails). intros. by apply (DispatchPlatformMessage_steps dart_kept framework alloc_fails).
Qed.

(** The engine's side of resuming. *)
Lemma resumed_calls d response r a r' :
  engine_inv [] d r → have_surface_ (client_ r) = true → call (CallDispatchPlatformMessage (resumed response)) r ⇓ (a, r') →
  ∃ cs, calls_since r r' = StartC :: RequestFrameC true :: cs ∧ Forall is_drawing cs.
Proof.
  intros [Hi _ _] Hs Hr. destruct (resumed_kept response r a r' Hi Hs Hr) as [_ _ _ _ _ (cs & Hcs & Hf)].
  exists cs. split; [|done]. unfold calls_since. rewrite Hcs. cbn. by rewrite <- !app_assoc, drop_app_length.
Qed.

(** ** Claims *)

(** C7: However calls of the engine, UI tasks and vsync signals interleave, and
    whatever Dart code does, the animator is paused exactly when the engine
    has stopped it once and is not active with a surface now, and exactly one
    place holds the frame-request token. *)
Theorem animator_paused_iff_inactive b y0 r s :
  system_new b ⇓ y0 → rtc system_step y0 (r, s) →
  paused_ (animator s) = existsb is_stop (animator_calls (client_ r)) && negb (activity_running_ (client_ r) && have_surface_ (client_ r)) ∧
  tokens s = 1 ∧ 0 ≤ sem_ (pending_frame_semaphore_ (animator s)).
Proof.
  intros Hn Hr. destruct (system_reachable_inv _ _ _ Hn Hr) as [[d [_ _ [_ Hp]]] [_ Hpos Ht _] Hpa]. cbn in *.
  split_and!; [|done|done]. by rewrite Hpa, Hp.
Qed.

(** C8: A surface that is created while the application is active, and a
    resumption with a surface, leave the animator unpaused with a frame in
    flight that regenerates the layer tree. *)
Theorem activation_requests_frame b y0 r s :
  system_new b ⇓ y0 → rtc system_step y0 (r, s) →
  (activity_running_ (client_ r) = true → ∃ y', system_call CallSurfaceCreated (r, s) ⇓ y' ∧ in_flight y'.2) ∧
  (have_surface_ (client_ r) = true → ∀ response y',
     system_call (CallDispatchPlatformMessage (resumed response)) (r, s) ⇓ y' → in_flight y'.2).
Proof.
  intros Hn Hr. destruct (system_reachable_inv _ _ _ Hn Hr) as [[d Hi] Hf _]. split.
  - intros Hrun. set (r' := set_client (λ e, Engine_ScheduleFrame true (animate StartC (set_running_surface (activity_running_ e) true e))) r).
    assert (Hc : call CallSurfaceCreated r ⇓ (tt, r')).
    { cbn [engine_call]. unfold OnOutputSurfaceCreated, StartAnimatorIfPossible, engine, change, modify, gets, mbind, rt_bind. cbn. by rewrite Hrun. }
    unfold system_call. cbn [fst snd]. rewrite Hc.
    assert (Hl : calls_since r r' = [StartC; RequestFrameC true]).
    { unfold calls_since. cbn. by rewrite <- app_assoc, drop_app_length. }
    rewrite Hl. cbn. eexists. split; [done|]. cbn. by eapply (resume_in_flight []).
  - intros Hs response y'. unfold system_call. cbn [fst snd].
    destruct (call _ r) as [[u r']|] eqn:Hc; [|done]. intros (s' & He & <-%Ok_inj)%bind_Ok. cbn.
    destruct (resumed_calls d response r u r' Hi Hs Hc) as (cs & Hcs & Hd). rewrite Hcs in He. by eapply resume_in_flight.
Qed.
End system.

(** ** Witnesses *)

Abbreviation demo_step := (@system_step debug_mode demo_framework (λ _, false) good_vm None None
  (λ _, "root"%string) demo_settings demo_parse (λ _, "isolates/1"%string)).
Abbreviation demo_call := (@system_call debug_mode demo_framework (λ _, false) good_vm None None
  (λ _, "root"%string) demo_settings demo_parse (λ _, "isolates/1"%string)).
Abbreviation demo_task := (@system_task debug_mode demo_framework (λ _, false) good_vm None None
  (λ _, "root"%string) demo_settings demo_parse (λ _, "isolates/1"%string)).
Abbreviation demo_system_new := (@system_new debug_mode demo_framework good_vm None None (λ _, "root"%string) false).

Definition system_get (y : result System) : System := match y with Ok y => y | Fault _ => (no_runtime, new_shell false) end.

(** The application runs, gets a surface, has its first vsync awaited and is
    then paused. *)
Definition demo_system0 : System := system_get demo_system_new.
Definition demo_system1 : System := system_get (demo_call (CallEngineRun demo_configuration) demo_system0).
Definition demo_system2 : System := system_get (demo_call CallSurfaceCreated demo_system1).
Definition demo_system3 : System :=
  system_get (demo_task (mkClock 50 7) AwaitVSyncTask (demo_system2.1, take_task demo_system2.2)).
Definition demo_system4 : System :=
  system_get (demo_call (demo_message kLifecycleChannel "AppLifecycleState.paused" None) demo_system3).

Lemma demo_system_ok : demo_system_new ⇓ demo_system0.
Proof. vm_compute. reflexivity. Qed.

Lemma demo_system_starts : rtc demo_step demo_system0 demo_system1.
Proof. eapply rtc_once, (system_calls _ _ _ _ _ _ _ _ _ (CallEngineRun demo_configuration)). vm_compute. reflexivity. Qed.

Lemma demo_system_run : rtc demo_step demo_system0 demo_system4.
Proof.
  etrans; [exact demo_system_starts|].
  eapply (rtc_l _ _ demo_system2); [apply (system_calls _ _ _ _ _ _ _ _ _ CallSurfaceCreated); vm_compute; reflexivity|].
  eapply (rtc_l _ _ demo_system3).
  { replace demo_system2 with (demo_system2.1, mkShell (animator demo_system2.2) (waiter_ demo_system2.2)
      ([] ++ AwaitVSyncTask :: []) (delegate_log demo_system2.2)) by (vm_compute; reflexivity).
    apply (system_runs _ _ _ _ _ _ _ _ _ (mkClock 50 7)). vm_compute. reflexivity. }
  apply rtc_once, (system_calls _ _ _ _ _ _ _ _ _ (demo_message kLifecycleChannel "AppLifecycleState.paused" None)).
  vm_compute. reflexivity.
Qed.

Lemma animator_paused_iff_inactive_witness :
  paused_ (animator demo_system4.2) = true ∧ paused_ (animator demo_system3.2) = false ∧ tokens demo_system4.2 = 1.
Proof.
  destruct (animator_paused_iff_inactive demo_framework (λ _, false) good_vm None None (λ _, "root"%string) demo_settings
    demo_parse (λ _, "isolates/1"%string) false demo_system0 demo_system4.1 demo_system4.2 demo_system_ok)
    as (Hp & Ht & _); [rewrite <- surjective_pairing; exact demo_system_run|].
  split_and!; [rewrite Hp; vm_compute; reflexivity|vm_compute; reflexivity|exact Ht].
Defined.

Lemma activation_requests_frame_witness :
  ∃ y', demo_call CallSurfaceCreated demo_system1 ⇓ y' ∧ in_flight y'.2.
Proof.
  destruct (activation_requests_frame demo_framework (λ _, false) good_vm None None (λ _, "root"%string) demo_settings
    demo_parse (λ _, "isolates/1"%string) false demo_system0 demo_system1.1 demo_system1.2 demo_system_ok)
    as [Hs _]; [rewrite <- surjective_pairing; exact demo_system_starts|].
  destruct Hs as (y' & Hy & Hi); [vm_compute; reflexivity|]. exists y'. rewrite (surjective_pairing demo_system1). split; [exact Hy|exact Hi].
Defined.
