(* ===== verification/EmbedderTasks.v ===== *)
(** * EmbedderTasks: task runners of the embedder

    Models of [EmbedderTaskRunner] (shell/platform/embedder/
    embedder_task_runner.cc), which hands tasks to the embedder as batons and
    runs them when the embedder gives the batons back, and of
    [EmbedderThreadHost] (embedder_thread_host.cc), which combines the
    embedder's task runners with threads of the engine.  A task runner's
    operations are critical sections of its mutex: a run is a sequence of
    them. *)

From Stdlib Require Import ZArith Lia.
From stdpp Require Import base numbers list gmap finite sets fin_maps relations.
From S2P Require Import Prelude Time TaskQueues ShellThreads ShellHandshakes.

Local Open Scope Z_scope.

(** ** EmbedderTaskRunner *)

(** [last_baton_] has no initializer: it starts with any value.  [posted] are
    the calls of [post_task_callback], [ran] the tasks that were run. *)
Record EmbedderTaskRunner := mkEmbedderRunner {
  last_baton_ : Z;
  pending_tasks_ : gmap Z nat;
  posted : list (Z * TimePoint.t);
  ran : list (Z * nat);
}.

Definition new_runner (last_baton : Z) : EmbedderTaskRunner := mkEmbedderRunner last_baton ∅ [] [].

Definition PostTaskForTime (task : closure) (target_time : TimePoint.t) (r : EmbedderTaskRunner) : EmbedderTaskRunner :=
  match task with
  | None => r
  | Some code =>
      let baton := wrapU 64 (last_baton_ r + 1) in
      mkEmbedderRunner baton (<[baton := code]> (pending_tasks_ r)) (posted r ++ [(baton, target_time)]) (ran r)
  end.

(** [PostTask(baton)]: the embedder gives a baton back. *)
Definition PostBaton (baton : Z) (r : EmbedderTaskRunner) : bool * EmbedderTaskRunner :=
  match pending_tasks_ r !! baton with
  | None => (false, r)
  | Some code =>
      (true, mkEmbedderRunner (last_baton_ r) (delete baton (pending_tasks_ r)) (posted r) (ran r ++ [(baton, code)]))
  end.

Inductive RunnerEvent :=
  | Posts (task : closure) (target_time : TimePoint.t)
  | GivesBack (baton : Z).

Definition runner_event (r : EmbedderTaskRunner) (e : RunnerEvent) : EmbedderTaskRunner :=
  match e with
  | Posts task time => PostTaskForTime task time r
  | GivesBack baton => (PostBaton baton r).2
  end.

(** The tasks of a run, in the order they were posted. *)
Definition tasks_of (es : list RunnerEvent) : list (nat * TimePoint.t) :=
  es ≫= λ e, match e with Posts (Some code) time => [(code, time)] | _ => [] end.

(** The baton of the [k]-th task of a runner that started at [b0]. *)
Definition baton (b0 : Z) (k : nat) : Z := wrapU 64 (b0 + Z.of_nat k + 1).

Lemma baton_inj b0 k k' : Z.of_nat k < 2 ^ 64 → Z.of_nat k' < 2 ^ 64 → baton b0 k = baton b0 k' → k = k'.
Proof.
  unfold baton, wrapU. intros Hk Hk' He.
  pose proof (Z.div_mod (b0 + Z.of_nat k + 1) (2 ^ 64) ltac:(lia)). pose proof (Z.div_mod (b0 + Z.of_nat k' + 1) (2 ^ 64) ltac:(lia)).
  nia.
Qed.

Lemma baton_next b0 k : wrapU 64 (baton b0 k + 1) = baton b0 (S k).
Proof. unfold baton, wrapU. rewrite Zplus_mod_idemp_l. f_equal. lia. Qed.

(** The invariant after [tasks] were posted. *)
Record runner_inv (b0 : Z) (tasks : list (nat * TimePoint.t)) (r : EmbedderTaskRunner) : Prop := {
  rn_last : wrapU 64 (last_baton_ r + 1) = baton b0 (length tasks);
  rn_posted : posted r = imap (λ k t, (baton b0 k, t.2)) tasks;
  rn_known b code : pending_tasks_ r !! b = Some code ∨ (b, code) ∈ ran r → ∃ k t, tasks !! k = Some (code, t) ∧ b = baton b0 k;
  rn_kept k code t : tasks !! k = Some (code, t) →
    if decide (baton b0 k ∈ (ran r).*1) then pending_tasks_ r !! baton b0 k = None
    else pending_tasks_ r !! baton b0 k = Some code;
  rn_once : NoDup (ran r).*1;
}.

Lemma runner_inv_new b0 : runner_inv b0 [] (new_runner b0).
Proof.
  split; cbn; try done; [|intros b code [Hp|Hr]|apply NoDup_nil_2].
  - unfold baton. f_equal. lia.
  - by rewrite lookup_empty in Hp.
  - by apply elem_of_nil in Hr.
Qed.

Lemma PostTask_inv b0 tasks r code time :
  Z.of_nat (length tasks) < 2 ^ 64 → runner_inv b0 tasks r →
  runner_inv b0 (tasks ++ [(code, time)]) (PostTaskForTime (Some code) time r).
Proof.
  intros Hlen [Hl Hp Hk Hkept Ho]. cbn [PostTaskForTime]. rewrite Hl. set (n := length tasks) in *.
  assert (Hlt : ∀ k x, tasks !! k = Some x → (k < n)%nat) by (intros k x Hx; by apply lookup_lt_Some in Hx).
  assert (Hfresh : ∀ k, (k < n)%nat → baton b0 k ≠ baton b0 n) by (intros k Hkn He; apply baton_inj in He; lia).
  assert (Hnew : baton b0 n ∉ (ran r).*1).
  { intros ([b c] & Hb & Hin)%list_elem_of_fmap. cbn in Hb. subst b. destruct (Hk _ c (or_intror Hin)) as (k & t & Hkt & He).
    apply Hlt in Hkt. by apply (Hfresh k) in Hkt. }
  split; cbn; [|rewrite imap_app, Hp; cbn; by rewrite Nat.add_0_r| | |done].
  - rewrite length_app, baton_next. f_equal. cbn. fold n. lia.
  - intros b c Hbc.
    assert (b = baton b0 n ∧ c = code ∨ (pending_tasks_ r !! b = Some c ∨ (b, c) ∈ ran r)) as [[-> ->]|Hold].
    { destruct Hbc as [[[<- ?]|[_ ?]]%lookup_insert_Some|?]; eauto. }
    + exists n, time. rewrite lookup_app_r by done. by rewrite Nat.sub_diag.
    + destruct (Hk _ _ Hold) as (k & t & Hkt & ->). exists k, t. split; [|done]. by apply lookup_app_l_Some.
  - intros k c t Hkt. apply lookup_app_Some in Hkt as [Hkt|[Hge Hkt]].
    + specialize (Hkept _ _ _ Hkt). rewrite lookup_insert_ne by (intros He; symmetry in He; by apply (Hfresh k (Hlt _ _ Hkt))). done.
    + assert (k = n) as ->. { apply lookup_lt_Some in Hkt. cbn in Hkt. unfold n. lia. }
      fold n in Hkt. rewrite Nat.sub_diag in Hkt. injection Hkt as <- <-. rewrite decide_False by done. by rewrite lookup_insert_eq.
Qed.

Lemma PostBaton_inv b0 tasks r b :
  Z.of_nat (length tasks) < 2 ^ 64 → runner_inv b0 tasks r → runner_inv b0 tasks (PostBaton b r).2.
Proof.
  intros Hlen Hi. unfold PostBaton. destruct (pending_tasks_ r !! b) as [code|] eqn:Hb; [|done]. cbn.
  destruct Hi as [Hl Hp Hk Hkept Ho].
  assert (Hnr : b ∉ (ran r).*1).
  { destruct (Hk b code (or_introl Hb)) as (k & t & Hkt & ->). specialize (Hkept _ _ _ Hkt). case_decide; [congruence|done]. }
  split; cbn; [done|done| | |].
  - intros b' c Hbc. apply Hk. destruct Hbc as [[_ ?]%lookup_delete_Some|Hin]; [by left|].
    apply elem_of_app in Hin as [?|[= -> ->]%list_elem_of_singleton]; eauto.
  - intros k c t Hkt. specialize (Hkept _ _ _ Hkt). rewrite fmap_app. cbn. destruct (decide (baton b0 k = b)) as [He|Hne].
    + rewrite decide_True by (rewrite He; set_solver). rewrite He. by rewrite lookup_delete_eq.
    + rewrite lookup_delete_ne by done. repeat case_decide; set_solver.
  - rewrite fmap_app. cbn. apply NoDup_app. split_and!; [done|set_solver|apply NoDup_singleton].
Qed.

Lemma runner_events_inv b0 es : ∀ tasks r,
  runner_inv b0 tasks r → Z.of_nat (length (tasks ++ tasks_of es)) < 2 ^ 64 →
  runner_inv b0 (tasks ++ tasks_of es) (foldl runner_event r es).
Proof.
  induction es as [|e es IH]; intros tasks r Hi Hlen; [cbn; by rewrite app_nil_r|].
  assert (Hle : Z.of_nat (length tasks) < 2 ^ 64) by (rewrite length_app in Hlen; lia).
  assert (Hcons : tasks_of (e :: es) = tasks_of [e] ++ tasks_of es) by (by unfold tasks_of; cbn; rewrite app_nil_r).
  rewrite Hcons, app_assoc in *. cbn [foldl]. apply IH; [|done].
  destruct e as [[code|] time|b]; cbn; rewrite ?app_nil_r; [by apply PostTask_inv|done|by apply PostBaton_inv].
Qed.

(** C22: Whatever value the counter starts with, and whatever batons the embedder
    gives back: the tasks are handed out in order, each under a baton of its
    own, until 2^64 were posted.  A baton that is given back runs the very
    task that was posted under it, no task runs twice, and a task that did
    not run waits under its baton; any other baton is refused. *)
Theorem embedder_tasks_once b0 es :
  Z.of_nat (length (tasks_of es)) < 2 ^ 64 →
  let r := foldl runner_event (new_runner b0) es in
  posted r = imap (λ k t, (baton b0 k, t.2)) (tasks_of es) ∧ NoDup (posted r).*1 ∧ NoDup (ran r).*1 ∧
  (∀ k code t, tasks_of es !! k = Some (code, t) →
     if decide (baton b0 k ∈ (ran r).*1) then (baton b0 k, code) ∈ ran r ∧ PostBaton (baton b0 k) r = (false, r)
     else ∃ r', PostBaton (baton b0 k) r = (true, r') ∧ ran r' = ran r ++ [(baton b0 k, code)]) ∧
  (∀ b, b ∉ (posted r).*1 → PostBaton b r = (false, r)).
Proof.
  intros Hlen r. assert (Hi : runner_inv b0 (tasks_of es) r).
  { apply (runner_events_inv b0 es [] (new_runner b0)); [apply runner_inv_new|done]. }
  clearbody r. destruct Hi as [Hl Hp Hk Hkept Ho]. split_and!; [done| |done| |].
  - rewrite Hp. apply NoDup_alt. intros i j x Hx Hy. rewrite list_lookup_fmap, list_lookup_imap in Hx, Hy.
    destruct (tasks_of es !! i) eqn:Hti; [|done]. destruct (tasks_of es !! j) eqn:Htj; [|done]. cbn in Hx, Hy.
    apply lookup_lt_Some in Hti, Htj. apply (baton_inj b0); [lia..|congruence].
  - intros k code t Hkt. specialize (Hkept _ _ _ Hkt). case_decide as Hr.
    + unfold PostBaton. rewrite Hkept. split; [|done]. apply list_elem_of_fmap in Hr as ([b c] & Hb & Hin). cbn in Hb. subst b.
      destruct (Hk _ _ (or_intror Hin)) as (k' & t' & Hkt' & He). pose proof (lookup_lt_Some _ _ _ Hkt).
      pose proof (lookup_lt_Some _ _ _ Hkt'). apply baton_inj in He as <-; [|lia..]. rewrite Hkt in Hkt'. by injection Hkt' as <- _.
    + eexists. unfold PostBaton. rewrite Hkept. by split.
  - intros b Hb. unfold PostBaton. destruct (pending_tasks_ r !! b) as [code|] eqn:Hpb; [|done]. destruct Hb.
    destruct (Hk b code (or_introl Hpb)) as (k & t & Hkt & ->). rewrite Hp. apply list_elem_of_fmap.
    exists (baton b0 k, t). split; [done|]. apply list_elem_of_lookup. exists k. by rewrite list_lookup_imap, Hkt.
Qed.

(** ** EmbedderThreadHost *)

(** The thread that calls the engine, the embedder's other threads, and those
    the engine makes. *)
Inductive HostThread := CallerThread | EmbedderThread | UIThread | GPUThread | IOThread.
#[export] Instance HostThread_eq_dec : EqDecision HostThread.
Proof. solve_decision. Defined.
#[export] Program Instance HostThread_finite : Finite HostThread :=
  {| enum := [CallerThread; EmbedderThread; UIThread; GPUThread; IOThread] |}.
Next Obligation. repeat constructor; set_solver. Qed.
Next Obligation. intros []; set_solver. Qed.

(** [FlutterTaskRunnerDescription]: whether its callbacks are set, its
    identifier, and the thread its tasks are run on. *)
Record TaskRunnerDescription := mkDescription {
  runs_task_on_current_thread_callback : bool;
  post_task_callback : bool;
  identifier : Z;
  serviced_by : HostThread;
}.

Record CustomTaskRunners := mkCustomRunners {
  platform_task_runner : option TaskRunnerDescription;
  render_task_runner : option TaskRunnerDescription;
}.

(** The task runner of a description, when it is valid. *)
Definition CreateEmbedderTaskRunner (description : option TaskRunnerDescription)
    : bool * option TaskRunnerDescription :=
  match description with
  | None => (true, None)
  | Some d =>
      if negb (runs_task_on_current_thread_callback d) then (false, None)
      else if negb (post_task_callback d) then (false, None)
      else (true, Some d)
  end.

(** The runners of a host; [host_render] and [host_platform] are those of the
    embedder, and [shared_runner] says that they are one object. *)
Record ThreadHost := mkThreadHost {
  host_platform : option TaskRunnerDescription;
  host_render : option TaskRunnerDescription;
  shared_runner : bool;
}.

Definition CreateEmbedderManagedThreadHost (custom : option CustomTaskRunners) : option ThreadHost :=
  c ← custom;
  let platform := CreateEmbedderTaskRunner (platform_task_runner c) in
  let render := CreateEmbedderTaskRunner (render_task_runner c) in
  if negb platform.1 || negb render.1 then None
  else
    match platform.2, render.2 with
    | Some p, Some r =>
        if identifier p =? identifier r then Some (mkThreadHost (Some p) (Some p) true)
        else Some (mkThreadHost (Some p) (Some r) false)
    | p, r => Some (mkThreadHost p r false)
    end.

Definition CreateEngineManagedThreadHost : ThreadHost := mkThreadHost None None false.

Definition CreateEmbedderOrEngineManagedThreadHost (custom : option CustomTaskRunners) : option ThreadHost :=
  match CreateEmbedderManagedThreadHost custom with
  | Some host => Some host
  | None => match custom with None => Some CreateEngineManagedThreadHost | Some _ => None end
  end.

(** Where the runners of a host run their tasks. *)
Definition host_home (h : ThreadHost) (r : ShellThreads.Runner) : HostThread :=
  let platform := match host_platform h with Some d => serviced_by d | None => CallerThread end in
  match r with
  | PlatformRunner => platform
  | GPURunner =>
      if shared_runner h then platform
      else match host_render h with Some d => serviced_by d | None => GPUThread end
  | UIRunner => UIThread
  | IORunner => IOThread
  end.

Program Definition GetTaskRunners (h : ThreadHost) : TaskRunners HostThread :=
  mkTaskRunners (host_home h) false (shared_runner h) _.
Next Obligation. by intros h Hs; cbn; rewrite Hs. Qed.

(** The contract of embedder.h: the platform runner services the calling
    thread, task runners that service one thread have one identifier, and
    only the platform runner of the embedder may share the calling thread. *)
Definition documented (c : CustomTaskRunners) : Prop :=
  (∀ p, platform_task_runner c = Some p → serviced_by p = CallerThread) ∧
  (∀ r, render_task_runner c = Some r → serviced_by r ∈ [CallerThread; EmbedderThread] ∧
    (serviced_by r = CallerThread → ∃ p, platform_task_runner c = Some p ∧ identifier p = identifier r)).

Lemma host_shapes c h :
  CreateEmbedderOrEngineManagedThreadHost c = Some h →
  (∀ d, host_platform h = Some d → ∃ c', c = Some c' ∧ platform_task_runner c' = Some d) ∧
  (shared_runner h = false → ∀ d, host_render h = Some d → ∃ c', c = Some c' ∧ render_task_runner c' = Some d ∧
     ∀ p, platform_task_runner c' = Some p → identifier p ≠ identifier d) ∧
  (shared_runner h = true → is_Some (host_platform h)).
Proof.
  unfold CreateEmbedderOrEngineManagedThreadHost. destruct (CreateEmbedderManagedThreadHost c) as [h'|] eqn:Hm; last first.
  { destruct c; [done|]. intros [= <-]. cbn. naive_solver. }
  intros [= ->]. destruct c as [c|]; [|done]. cbn in Hm. unfold CreateEmbedderTaskRunner in Hm.
  destruct c as [[[[] [] pi pt]|] [[[] [] ri rt]|]]; cbn in Hm; try done;
    try (injection Hm as <-; cbn; naive_solver).
  destruct (Z.eqb_spec pi ri); injection Hm as <-; cbn; naive_solver.
Qed.

(** With task runners as the embedder's interface documents them, neither a
    new nor a lost surface blocks the threads for ever. *)
Theorem embedder_handshakes_return c h :
  (∀ c', c = Some c' → documented c') → CreateEmbedderOrEngineManagedThreadHost c = Some h →
  created_returns (GetTaskRunners h) = true ∧ destroyed_returns (GetTaskRunners h) = true.
Proof.
  intros Hdoc Hc. destruct (host_shapes c h Hc) as (Hp & Hr & Hs).
  assert (Hplat : host_home h PlatformRunner = CallerThread).
  { cbn. destruct (host_platform h) as [d|] eqn:Hd; [|done]. destruct (Hp d eq_refl) as (c' & -> & Hc').
    by apply (Hdoc c' eq_refl). }
  assert (Hgpu : shared_runner h = false → host_home h GPURunner ≠ CallerThread).
  { intros Hsh. cbn. rewrite Hsh. destruct (host_render h) as [d|] eqn:Hd; [|done].
    destruct (Hr Hsh d eq_refl) as (c' & -> & Hc' & Hid). destruct (Hdoc c' eq_refl) as [_ Hren].
    destruct (Hren d Hc') as [_ Hcall]. intros (p & Hpd & He)%Hcall. by apply (Hid p Hpd). }
  unfold created_returns, destroyed_returns, should_post_gpu_task, runs_on. cbn [merged same_runner home GetTaskRunners andb].
  rewrite Hplat. cbn. destruct (shared_runner h) eqn:Hsh; cbn; [done|].
  specialize (Hgpu eq_refl). cbn in Hgpu. rewrite Hsh in Hgpu.
  rewrite (bool_decide_eq_false_2 _ Hgpu). done.
Qed.

(** The contract is needed: a render runner on the calling thread without a
    platform runner makes the calling thread wait for itself. *)
Theorem render_on_caller_never_returns d h :
  runs_task_on_current_thread_callback d = true → post_task_callback d = true → serviced_by d = CallerThread →
  CreateEmbedderOrEngineManagedThreadHost (Some (mkCustomRunners None (Some d))) = Some h →
  created_returns (GetTaskRunners h) = false.
Proof.
  intros Hr Hp Ht. unfold CreateEmbedderOrEngineManagedThreadHost, CreateEmbedderManagedThreadHost, CreateEmbedderTaskRunner. cbn.
  rewrite Hr, Hp. cbn. intros [= <-]. unfold created_returns, should_post_gpu_task, runs_on. cbn. by rewrite Ht.
Qed.

(** ** Witnesses *)

Definition some_tasks : list RunnerEvent :=
  [Posts (Some 7%nat) 5; Posts None 6; Posts (Some 8%nat) 9; GivesBack 3; GivesBack 2; GivesBack 3].

Lemma embedder_tasks_once_witness :
  let r := foldl runner_event (new_runner 1) some_tasks in
  posted r = [(2, 5); (3, 9)] ∧ NoDup (ran r).*1 ∧ ran r = [(3, 8%nat); (2, 7%nat)].
Proof.
  destruct (embedder_tasks_once 1 some_tasks) as (Hp & _ & Ho & _); [vm_compute; reflexivity|].
  split; [rewrite Hp; vm_compute; reflexivity|]. split; [exact Ho|vm_compute; reflexivity].
Defined.

Definition glfw_runners : CustomTaskRunners := mkCustomRunners (Some (mkDescription true true 1 CallerThread)) None.

Lemma embedder_handshakes_return_witness :
  ∃ h, CreateEmbedderOrEngineManagedThreadHost (Some glfw_runners) = Some h ∧
    created_returns (GetTaskRunners h) = true ∧ destroyed_returns (GetTaskRunners h) = true.
Proof.
  eexists. split; [reflexivity|]. apply (embedder_handshakes_return (Some glfw_runners)); [|reflexivity].
  intros c' [= <-]. split; [by intros p [= <-]|by intros r].
Defined.
