(* ===== verification/EmbedderApi.v ===== *)
(** * EmbedderApi: the C functions of embedders

    Model of the functions of shell/platform/embedder/embedder.cc that run an
    engine and talk to it, on the model of [EmbedderEngine]
    (embedder_engine.cc), of [PlatformView] (shell/common/platform_view.cc)
    and of the [OnPlatformView*] functions of shell/common/shell.cc, which
    post the work to the UI and the GPU task runner.  A handle is live or
    shut down.  The posted closures are data, in the order they were posted; those of the UI task runner are the
    calls of Engine.

    Structures that embedders pass in carry their size, and a member is read
    only when the structure is large enough: [SAFE_ACCESS].  Offsets are those
    of a 64-bit platform.  The writer of rapidjson is a parameter. *)

From Stdlib Require Import ZArith Lia SpecFloat Ascii.
From stdpp Require Import base numbers list gmap sets fin_maps relations strings.
From S2P Require Import Prelude Bytes Float64 Time TaskQueues PointerData PointerConverter DartIsolate Assets RuntimeController Engine.

Local Open Scope Z_scope.

(** ** Arguments *)

Inductive FlutterEngineResult := kSuccess | kInvalidLibraryVersion | kInvalidArguments | kInternalInconsistency.
#[export] Instance FlutterEngineResult_eq_dec : EqDecision FlutterEngineResult.
Proof. solve_decision. Defined.

(** The member that ends at [end_] in a structure of [struct_size] bytes. *)
Definition SAFE_ACCESS {A} (struct_size end_ : Z) (member default_value : A) : A :=
  if end_ <=? struct_size then member else default_value.

Record FlutterWindowMetricsEvent := mkWindowMetrics {
  wm_struct_size : Z;
  wm_width : Z;
  wm_height : Z;
  wm_pixel_ratio : double;
}.

(** Enumerations are plain integers in C. *)
Record FlutterPointerEvent := mkPointerEvent {
  pe_struct_size : Z;
  pe_phase : Z;
  pe_timestamp : Z;
  pe_x : double;
  pe_y : double;
  pe_device : Z;
  pe_signal_kind : Z;
  pe_scroll_delta_x : double;
  pe_scroll_delta_y : double;
  pe_device_kind : Z;
  pe_buttons : Z;
}.

(** [message] is null or holds [message_size] bytes at least; response
    handles are numbered. *)
Record FlutterPlatformMessage := mkPlatformMessage {
  pm_struct_size : Z;
  pm_channel : option string;
  pm_message : option string;
  pm_message_size : Z;
  pm_response_handle : option nat;
}.

Record FlutterLocale := mkLocale {
  lo_struct_size : Z;
  language_code : option string;
  country_code : option string;
  script_code : option string;
  variant_code : option string;
}.

(** ** The engine of an embedder *)

(** What the shell posts to the UI and to the GPU task runner. *)
Inductive UiPost :=
  | UiEngine (c : EngineCall)
  | UiPointerDataPacket (packet : Packet) (flow_id : Z).

Inductive GpuPost :=
  | SetResourceCacheMaxBytes (max_bytes : Z)
  | RegisterTexture (texture : Z)
  | UnregisterTexture (texture : Z)
  | MarkNewFrameAvailable (texture : Z)
  | RasterizerLowMemoryWarning
  | RenderThreadTask (callback baton : nat).

Record EmbedderShell := mkEmbedderShell {
  ui_posted : list UiPost;
  gpu_posted : list GpuPost;
  converter_ : Converter;
  next_pointer_flow_id_ : Z;
}.

Definition new_embedder_shell : EmbedderShell := mkEmbedderShell [] [] new_converter 0.

(** [shell_args_] is null once it was used; [notified] logs the calls of the
    platform view when the surface comes and goes.  What a shell has posted
    stays with the task runners, which are the engine's, when the shell goes:
    [left_posted]. *)
Record EmbedderEngine := mkEmbedderEngine {
  shell_ : option EmbedderShell;
  shell_args_ : bool;
  run_configuration_ : RunConfiguration;
  external_texture_callback_ : bool;
  notified : list bool;
  left_posted : list UiPost * list GpuPost;
}.

Definition post_ui_call (c : EngineCall) (s : EmbedderShell) : EmbedderShell :=
  mkEmbedderShell (ui_posted s ++ [UiEngine c]) (gpu_posted s) (converter_ s) (next_pointer_flow_id_ s).
Definition post_gpu (c : GpuPost) (s : EmbedderShell) : EmbedderShell :=
  mkEmbedderShell (ui_posted s) (gpu_posted s ++ [c]) (converter_ s) (next_pointer_flow_id_ s).

Definition EmbedderEngine_IsValid (e : EmbedderEngine) : bool := bool_decide (is_Some (shell_ e)).

Definition set_shell (s : option EmbedderShell) (e : EmbedderEngine) : EmbedderEngine :=
  mkEmbedderEngine s (shell_args_ e) (run_configuration_ e) (external_texture_callback_ e) (notified e) (left_posted e).
Definition notify (created : bool) (e : EmbedderEngine) : EmbedderEngine :=
  mkEmbedderEngine (shell_ e) (shell_args_ e) (run_configuration_ e) (external_texture_callback_ e) (notified e ++ [created]) (left_posted e).

(** ** Conversions of numbers *)

Section api.
Context `{Build} `{FloatEnv}.

Definition double_of_Z (z : Z) : double := of_sf (binary_normalize 53 1024 z 0 false).
Definition double_mul (a b : double) : double := of_sf (SFmul 53 1024 (to_sf a) (to_sf b)).

(** Conversion to [size_t], which is undefined out of range. *)
Definition to_size_t (d : double) : result Z :=
  let value :=
    match to_sf d with
    | S754_zero _ => Some 0
    | S754_finite s m e =>
        let magnitude := if 0 <=? e then Zpos m * 2 ^ e else Zpos m / 2 ^ (- e) in
        Some (if s then - magnitude else magnitude)
    | _ => None
    end in
  z ← of_option UndefinedBehaviour value;
  if (0 <=? z) && (z <? 2 ^ 64) then Ok z else Fault UndefinedBehaviour.

(** ** PlatformView and Shell *)

Definition OnPlatformViewSetViewportMetrics (m : ViewportMetrics) (s : EmbedderShell) : result EmbedderShell :=
  max_bytes ← to_size_t (double_mul (double_mul (double_mul (physical_width m) (physical_height m))
                (double_of_Z 12)) (double_of_Z 4));
  mret (post_ui_call (CallSetViewportMetrics m) (post_gpu (SetResourceCacheMaxBytes max_bytes) s)).

Definition OnPlatformViewDispatchPlatformMessage (message : PlatformMessage) (s : EmbedderShell) : EmbedderShell :=
  post_ui_call (CallDispatchPlatformMessage message) s.

(** The platform view converts the packet first. *)
Definition PlatformView_DispatchPointerDataPacket (packet : Packet) (s : EmbedderShell) : result EmbedderShell :=
  '(converted, c) ← Convert packet (converter_ s);
  mret (mkEmbedderShell (ui_posted s ++ [UiPointerDataPacket converted (next_pointer_flow_id_ s)]) (gpu_posted s) c
          (wrapU 64 (next_pointer_flow_id_ s + 1))).

Definition OnPlatformViewDispatchSemanticsAction (id action : Z) (args : string) (s : EmbedderShell) : EmbedderShell :=
  post_ui_call (CallDispatchSemanticsAction id action args) s.
Definition OnPlatformViewSetSemanticsEnabled (enabled : bool) (s : EmbedderShell) : EmbedderShell :=
  post_ui_call (CallSetSemanticsEnabled enabled) s.
Definition OnPlatformViewSetAccessibilityFeatures (flags : Z) (s : EmbedderShell) : EmbedderShell :=
  post_ui_call (CallSetAccessibilityFeatures flags) s.
Definition OnPlatformViewRegisterTexture (texture : Z) (s : EmbedderShell) : EmbedderShell :=
  post_gpu (RegisterTexture texture) s.
Definition OnPlatformViewUnregisterTexture (texture : Z) (s : EmbedderShell) : EmbedderShell :=
  post_gpu (UnregisterTexture texture) s.
Definition OnPlatformViewMarkTextureFrameAvailable (texture : Z) (s : EmbedderShell) : EmbedderShell :=
  post_ui_call (CallScheduleFrame false) (post_gpu (MarkNewFrameAvailable texture) s).
Definition NotifyLowMemoryWarning (s : EmbedderShell) : EmbedderShell := post_gpu RasterizerLowMemoryWarning s.

(** ** EmbedderEngine *)

(** An operation on the shell; false when there is none. *)
Definition on_shell (f : EmbedderShell → result EmbedderShell) (e : EmbedderEngine) : result (bool * EmbedderEngine) :=
  match shell_ e with
  | None => mret (false, e)
  | Some s => s ← f s; mret (true, set_shell (Some s) e)
  end.
(** One that needs the callback of external textures too. *)
Definition on_textures (f : EmbedderShell → EmbedderShell) (e : EmbedderEngine) : result (bool * EmbedderEngine) :=
  if negb (external_texture_callback_ e) then mret (false, e) else on_shell (λ s, mret (f s)) e.

(** [created]: whether [Shell::Create] returns a shell. *)
Definition LaunchShell (created : bool) (e : EmbedderEngine) : bool * EmbedderEngine :=
  if negb (shell_args_ e) then (false, e)
  else
    let e := mkEmbedderEngine (if created then Some new_embedder_shell else None) false (run_configuration_ e) (external_texture_callback_ e) (notified e) (left_posted e) in
    (EmbedderEngine_IsValid e, e).

(** All that was posted through an engine. *)
Definition posts (e : EmbedderEngine) : list UiPost * list GpuPost :=
  match shell_ e with
  | Some s => ((left_posted e).1 ++ ui_posted s, (left_posted e).2 ++ gpu_posted s)
  | None => left_posted e
  end.

Definition CollectShell (e : EmbedderEngine) : bool * EmbedderEngine :=
  let e := mkEmbedderEngine None (shell_args_ e) (run_configuration_ e) (external_texture_callback_ e) (notified e) (posts e) in
  (EmbedderEngine_IsValid e, e).

(** The configuration is moved to the task the shell posts. *)
Definition moved_configuration (c : RunConfiguration) : RunConfiguration :=
  mkRunConfiguration None None (entrypoint_ c) (entrypoint_library_ c).
Definition RunRootIsolate (e : EmbedderEngine) : bool * EmbedderEngine :=
  match shell_ e with
  | Some s =>
      if negb (configuration_IsValid (run_configuration_ e)) then (false, e)
      else (true, mkEmbedderEngine (Some (post_ui_call (CallEngineRun (run_configuration_ e)) s)) (shell_args_ e)
                    (moved_configuration (run_configuration_ e)) (external_texture_callback_ e) (notified e) (left_posted e))
  | None => (false, e)
  end.

Definition NotifyCreated (e : EmbedderEngine) : bool * EmbedderEngine :=
  if EmbedderEngine_IsValid e then (true, notify true e) else (false, e).
Definition NotifyDestroyed (e : EmbedderEngine) : bool * EmbedderEngine :=
  if EmbedderEngine_IsValid e then (true, notify false e) else (false, e).

(** ** Messages of the embedder *)

(** [rapidjson::Writer] and the sizes of the strings it makes. *)
Context (write_json : Json → string).

(** The result of a call of [EmbedderEngine], and [failure] for false. *)
Definition report (failure : FlutterEngineResult) (m : result (bool * EmbedderEngine))
    : result (FlutterEngineResult * EmbedderEngine) :=
  '(ok, e) ← m; mret (if (ok : bool) then kSuccess else failure, e).

Definition FlutterEngineSendWindowMetricsEvent (event : option FlutterWindowMetricsEvent) (e : EmbedderEngine)
    : result (FlutterEngineResult * EmbedderEngine) :=
  match event with
  | None => mret (kInvalidArguments, e)
  | Some m =>
      let size := wm_struct_size m in
      let ratio := SAFE_ACCESS size 32 (wm_pixel_ratio m) d1 in
      let metrics :=
        mkViewportMetrics ratio (double_of_Z (SAFE_ACCESS size 16 (wm_width m) 0))
          (double_of_Z (SAFE_ACCESS size 24 (wm_height m) 0)) kUnsetDepth d0 d0 d0 d0 d0 d0 d0 d0
          kUnsetDepth kUnsetDepth d0 d0 d0 d0 in
      if SFleb (to_sf ratio) (S754_zero false) then mret (kInvalidArguments, e)
      else report kInvalidArguments (on_shell (OnPlatformViewSetViewportMetrics metrics) e)
  end.

(** *** Pointer events *)

Definition ToPointerDataChange (phase : Z) : Change :=
  match phase with
  | 0 => kCancel | 1 => kUp | 2 => kDown | 3 => kMove | 4 => kAdd | 5 => kRemove | 6 => kHover | _ => kCancel
  end.

Definition kTouch : Z := 0.
Definition kMouse : Z := 1.
Definition ToPointerDataKind (device_kind : Z) : Z :=
  match device_kind with 1 => kMouse | 2 => kTouch | _ => kMouse end.
Definition ToPointerDataSignalKind (kind : Z) : SignalKind :=
  match kind with 0 => kNone | 1 => kScroll | _ => kNone end.
Definition PointerDataButtonsForLegacyEvent (change : Change) : Z :=
  match change with kDown | kMove => 1 | _ => 0 end.

(** The event at one address; everything else was cleared. *)
Definition pointer_data_of (p : FlutterPointerEvent) : PointerData :=
  let size := pe_struct_size p in
  let change := ToPointerDataChange (SAFE_ACCESS size 12 (pe_phase p) 0) in
  let device_kind := SAFE_ACCESS size 68 (pe_device_kind p) 0 in
  let kind := if device_kind =? 0 then kMouse else ToPointerDataKind device_kind in
  let buttons :=
    if device_kind =? 0 then PointerDataButtonsForLegacyEvent change
    else if kind =? kTouch then match change with kDown | kMove => 1 | _ => 0 end
    else SAFE_ACCESS size 80 (pe_buttons p) 0 in
  mkPointerData (wrapS 64 (SAFE_ACCESS size 24 (pe_timestamp p) 0)) change kind
    (ToPointerDataSignalKind (SAFE_ACCESS size 48 (pe_signal_kind p) 0))
    (SAFE_ACCESS size 44 (pe_device p) 0) 0 (SAFE_ACCESS size 32 (pe_x p) d0) (SAFE_ACCESS size 40 (pe_y p) d0)
    d0 d0 buttons 0 0 d0 d0 d0 d0 d0 d0 d0 d0 d0 d0 d0 d0 0
    (SAFE_ACCESS size 56 (pe_scroll_delta_x p) d0) (SAFE_ACCESS size 64 (pe_scroll_delta_y p) d0).

(** The loop over the events: the next one is [struct_size] bytes on. *)
Fixpoint read_events (memory : gmap Z FlutterPointerEvent) (i count : nat) (current : Z) (packet : Packet) : result Packet :=
  match count with
  | O => mret packet
  | S count =>
      p ← of_option UndefinedBehaviour (memory !! current);
      packet ← SetPointerData i (pointer_data_of p) packet;
      read_events memory (S i) count (current + pe_struct_size p) packet
  end.

(** [pointers] is null or an address of [memory]. *)
Definition FlutterEngineSendPointerEvent (memory : gmap Z FlutterPointerEvent) (pointers : option Z) (events_count : nat)
    (e : EmbedderEngine) : result (FlutterEngineResult * EmbedderEngine) :=
  match pointers with
  | None => mret (kInvalidArguments, e)
  | Some current =>
      if (events_count =? 0)%nat then mret (kInvalidArguments, e)
      else
        packet ← read_events memory 0 events_count current (new_packet events_count);
        report kInternalInconsistency (on_shell (PlatformView_DispatchPointerDataPacket packet) e)
  end.

(** *** Platform messages *)

(** [handles]: the response each handle of the embedder holds. *)
Definition FlutterEngineSendPlatformMessage (handles : gmap nat (option nat)) (message : option FlutterPlatformMessage)
    (e : EmbedderEngine) : result (FlutterEngineResult * EmbedderEngine) :=
  match message with
  | None => mret (kInvalidArguments, e)
  | Some m =>
      let struct_size := pm_struct_size m in
      match SAFE_ACCESS struct_size 16 (pm_channel m) None with
      | None => mret (kInvalidArguments, e)
      | Some channel =>
          let message_size := SAFE_ACCESS struct_size 32 (pm_message_size m) 0 in
          let data := SAFE_ACCESS struct_size 24 (pm_message m) None in
          if negb (message_size =? 0) && bool_decide (data = None) then mret (kInvalidArguments, e)
          else
            response ← (match SAFE_ACCESS struct_size 40 (pm_response_handle m) None with
                        | None => mret None
                        | Some handle => of_option UndefinedBehaviour (handles !! handle)
                        end);
            let message :=
              if message_size =? 0 then mkMessage channel "" false response
              else mkMessage channel (String.substring 0 (Z.to_nat message_size) (default ""%string data)) true response in
            report kInternalInconsistency (on_shell (λ s, mret (OnPlatformViewDispatchPlatformMessage message s)) e)
      end
  end.

Definition DispatchJSONPlatformMessage (document : Json) (channel_name : string) (e : EmbedderEngine)
    : result (bool * EmbedderEngine) :=
  if (String.length channel_name =? 0)%nat then mret (false, e)
  else
    let buffer := write_json document in
    if (String.length buffer =? 0)%nat then mret (false, e)
    else on_shell (λ s, mret (OnPlatformViewDispatchPlatformMessage (mkMessage channel_name buffer true None) s)) e.

(** *** Locales *)

(** The loop over the locales: their four strings, or none when one lacks its
    language.  The array may hold null pointers, which are read. *)
Fixpoint locale_args (count : nat) (locales : list (option FlutterLocale)) : result (option (list Json)) :=
  match count, locales with
  | O, _ => Ok (Some [])
  | S _, [] => Fault UndefinedBehaviour
  | S _, None :: _ => Fault NullDeref
  | S count, Some l :: locales =>
      let size := lo_struct_size l in
      match SAFE_ACCESS size 16 (language_code l) None with
      | None => Ok None
      | Some language =>
          if (String.length language =? 0)%nat then Ok None
          else
            let country := SAFE_ACCESS size 24 (country_code l) (Some ""%string) in
            let script := SAFE_ACCESS size 32 (script_code l) (Some ""%string) in
            let variant := SAFE_ACCESS size 40 (variant_code l) (Some ""%string) in
            rest ← locale_args count locales;
            mret (match rest with
                  | Some rest => Some (JString language :: JString (default ""%string country) ::
                      JString (default ""%string script) :: JString (default ""%string variant) :: rest)
                  | None => None
                  end)
      end
  end.

(** [locales] is null or an array. *)
Definition FlutterEngineUpdateLocales (locales : option (list (option FlutterLocale))) (locales_count : nat)
    (e : EmbedderEngine) : result (FlutterEngineResult * EmbedderEngine) :=
  if (locales_count =? 0)%nat then mret (kSuccess, e)
  else
    match locales with
    | None => mret (kInvalidArguments, e)
    | Some locales =>
        args ← locale_args locales_count locales;
        match args with
        | None => mret (kInvalidArguments, e)
        | Some args =>
            report kInternalInconsistency
              (DispatchJSONPlatformMessage
                (JObject [("method"%string, JString "setLocale"); ("args"%string, JArray args)]) "flutter/localization" e)
        end
    end.

Definition FlutterEngineNotifyLowMemoryWarning (e : EmbedderEngine) : result (FlutterEngineResult * EmbedderEngine) :=
  if negb (EmbedderEngine_IsValid e) then mret (kInvalidArguments, e)
  else
    '(_, e) ← on_shell (λ s, mret (NotifyLowMemoryWarning s)) e;
    report kInternalInconsistency
      (DispatchJSONPlatformMessage (JObject [("type"%string, JString "memoryPressure")]) "flutter/system" e).

(** *** Other calls *)

Definition with_texture (texture_identifier : Z) (f : Z → EmbedderShell → EmbedderShell) (e : EmbedderEngine)
    : result (FlutterEngineResult * EmbedderEngine) :=
  if texture_identifier =? 0 then mret (kInvalidArguments, e)
  else report kInternalInconsistency (on_textures (f texture_identifier) e).
Definition FlutterEngineRegisterExternalTexture id := with_texture id OnPlatformViewRegisterTexture.
Definition FlutterEngineUnregisterExternalTexture id := with_texture id OnPlatformViewUnregisterTexture.
Definition FlutterEngineMarkExternalTextureFrameAvailable id := with_texture id OnPlatformViewMarkTextureFrameAvailable.

Definition FlutterEngineUpdateSemanticsEnabled (enabled : bool) (e : EmbedderEngine) :=
  report kInternalInconsistency (on_shell (λ s, mret (OnPlatformViewSetSemanticsEnabled enabled s)) e).
(** The enumeration is passed on as [int32_t]. *)
Definition FlutterEngineUpdateAccessibilityFeatures (flags : Z) (e : EmbedderEngine) :=
  report kInternalInconsistency (on_shell (λ s, mret (OnPlatformViewSetAccessibilityFeatures (wrapS 32 flags) s)) e).
(** The identifier is 64 bits wide here and an [int] in the engine. *)
Definition FlutterEngineDispatchSemanticsAction (id action : Z) (data : string) (e : EmbedderEngine) :=
  report kInternalInconsistency (on_shell (λ s, mret (OnPlatformViewDispatchSemanticsAction (wrapS 32 id) action data s)) e).
Definition FlutterEnginePostRenderThreadTask (callback : closure) (baton : nat) (e : EmbedderEngine) :=
  match callback with
  | None => mret (kInvalidArguments, e)
  | Some code => report kInternalInconsistency (on_shell (λ s, mret (post_gpu (RenderThreadTask code baton) s)) e)
  end.

(** [Shell::ReloadSystemFonts] tells the framework; the font collection itself
    is not modelled. *)
Definition Shell_ReloadSystemFonts (s : EmbedderShell) : EmbedderShell :=
  OnPlatformViewDispatchPlatformMessage
    (mkMessage "flutter/system" (write_json (JObject [("type"%string, JString "fontsChange")])) true None) s.
Definition FlutterEngineReloadSystemFonts (e : EmbedderEngine) :=
  report kInternalInconsistency (on_shell (λ s, mret (Shell_ReloadSystemFonts s)) e).

(** [signaled] is what the vsync waiter answers to the baton, [posted] what the
    thread host answers to a task, null or not, and [code] what becomes of an
    object for Dart: EmbedderHandles and EmbedderTasks have these. *)
Definition FlutterEngineOnVsync (signaled : bool) (e : EmbedderEngine) : FlutterEngineResult * EmbedderEngine :=
  (if EmbedderEngine_IsValid e && signaled then kSuccess else kInternalInconsistency, e).
Definition FlutterEngineRunTask (posted : option bool) (e : EmbedderEngine) : FlutterEngineResult * EmbedderEngine :=
  (if default false posted then kSuccess else kInvalidArguments, e).
Definition PostDartObject_if_running (code : FlutterEngineResult) (e : EmbedderEngine) : FlutterEngineResult * EmbedderEngine :=
  (if EmbedderEngine_IsValid e then code else kInvalidArguments, e).

(** ** Running *)

Definition FlutterEngineRunInitialized (created : bool) (e : EmbedderEngine) : FlutterEngineResult * EmbedderEngine :=
  if EmbedderEngine_IsValid e then (kInvalidArguments, e)
  else
    let '(launched, e) := LaunchShell created e in
    if negb launched then (kInvalidArguments, e)
    else
      let '(told, e) := NotifyCreated e in
      if negb told then (kInternalInconsistency, e)
      else
        let '(runs, e) := RunRootIsolate e in
        if negb runs then (kInvalidArguments, e) else (kSuccess, e).

Definition FlutterEngineDeinitialize (e : EmbedderEngine) : FlutterEngineResult * EmbedderEngine :=
  let '(_, e) := NotifyDestroyed e in
  let '(_, e) := CollectShell e in
  (kSuccess, e).

(** [delete] comes after this. *)
Definition FlutterEngineShutdown := FlutterEngineDeinitialize.

(** The functions of a handle.  Those for response handles, which EmbedderHandles
    models, do not look at the engine: [code] is what they answer. *)
Inductive ApiCall :=
  | SendWindowMetricsEvent (event : option FlutterWindowMetricsEvent)
  | SendPointerEvent (memory : gmap Z FlutterPointerEvent) (pointers : option Z) (events_count : nat)
  | SendPlatformMessage (handles : gmap nat (option nat)) (message : option FlutterPlatformMessage)
  | UpdateLocales (locales : option (list (option FlutterLocale))) (locales_count : nat)
  | LowMemory
  | RegisterExternalTexture (id : Z)
  | UnregisterExternalTexture (id : Z)
  | MarkExternalTextureFrameAvailable (id : Z)
  | UpdateSemanticsEnabled (enabled : bool)
  | UpdateAccessibilityFeatures (flags : Z)
  | DispatchSemanticsAction (id action : Z) (data : string)
  | PostRenderThreadTask (callback : closure) (baton : nat)
  | ReloadSystemFonts
  | OnVsync (signaled : bool)
  | RunTask (posted : option bool)
  | PostDartObject (code : FlutterEngineResult)
  | UseResponseHandle (code : FlutterEngineResult)
  | RunInitialized (created : bool)
  | Deinitialize
  | ApiShutdown.

Definition api_call (c : ApiCall) (e : EmbedderEngine) : result (FlutterEngineResult * EmbedderEngine) :=
  match c with
  | SendWindowMetricsEvent m => FlutterEngineSendWindowMetricsEvent m e
  | SendPointerEvent memory p n => FlutterEngineSendPointerEvent memory p n e
  | SendPlatformMessage handles m => FlutterEngineSendPlatformMessage handles m e
  | UpdateLocales l n => FlutterEngineUpdateLocales l n e
  | LowMemory => FlutterEngineNotifyLowMemoryWarning e
  | RegisterExternalTexture id => FlutterEngineRegisterExternalTexture id e
  | UnregisterExternalTexture id => FlutterEngineUnregisterExternalTexture id e
  | MarkExternalTextureFrameAvailable id => FlutterEngineMarkExternalTextureFrameAvailable id e
  | UpdateSemanticsEnabled b => FlutterEngineUpdateSemanticsEnabled b e
  | UpdateAccessibilityFeatures flags => FlutterEngineUpdateAccessibilityFeatures flags e
  | DispatchSemanticsAction id action data => FlutterEngineDispatchSemanticsAction id action data e
  | PostRenderThreadTask c b => FlutterEnginePostRenderThreadTask c b e
  | ReloadSystemFonts => FlutterEngineReloadSystemFonts e
  | OnVsync signaled => mret (FlutterEngineOnVsync signaled e)
  | RunTask posted => mret (FlutterEngineRunTask posted e)
  | PostDartObject code => mret (PostDartObject_if_running code e)
  | UseResponseHandle code => mret (code, e)
  | RunInitialized created => mret (FlutterEngineRunInitialized created e)
  | Deinitialize => mret (FlutterEngineDeinitialize e)
  | ApiShutdown => mret (FlutterEngineShutdown e)
  end.

(** What a handle is: null, of an engine, or of one that was deleted (as it was
    then).  To use the last is undefined; the functions that do not look at
    the engine are taken with the others. *)
Inductive Handle := NullHandle | LiveHandle (e : EmbedderEngine) | FreedHandle (e : EmbedderEngine).

Definition api (c : ApiCall) (engine : Handle) : result (FlutterEngineResult * Handle) :=
  match engine with
  | NullHandle => mret (kInvalidArguments, NullHandle)
  | FreedHandle _ => Fault UndefinedBehaviour
  | LiveHandle e =>
      '(code, e) ← api_call c e;
      mret (code, match c with ApiShutdown => FreedHandle e | _ => LiveHandle e end)
  end.
End api.
