(* ===== verification/EmbedderApiProofs.v ===== *)
(** * EmbedderApiProofs: what embedders can rely on

    Calls that fail change nothing, an engine runs at most once, locales and
    pointer events of the embedder arrive as they were given. *)

From Stdlib Require Import ZArith Lia SpecFloat Ascii.
From stdpp Require Import base numbers list gmap sets fin_maps relations strings.
From S2P Require Import Prelude Bytes Float64 Time TaskQueues PointerData PointerConverter DartIsolate DartIsolateProofs Assets RuntimeController RuntimeControllerProofs PlatformMessages Engine EngineProofs EmbedderApi.

Local Open Scope Z_scope.

(** Later posts come after earlier ones. *)
Definition posts_after (e e' : EmbedderEngine) : Prop :=
  (posts e).1 `prefix_of` (posts e').1 ∧ (posts e).2 `prefix_of` (posts e').2.

#[export] Instance posts_after_preorder : PreOrder posts_after.
Proof. split; [done|]. intros e1 e2 e3 [? ?] [? ?]. split; by etrans. Qed.

(** Documents without numbers, which rapidjson writes and reads back as they
    are. *)
Fixpoint text_only (j : Json) : bool :=
  match j with
  | JNumber _ => false
  | JArray elements => forallb text_only elements
  | JObject members => forallb (λ m : string * Json, let '(_, v) := m in text_only v) members
  | _ => true
  end.

Lemma text_only_strings ss : forallb text_only (JString <$> ss) = true.
Proof. by induction ss. Qed.

Lemma written (write_json : Json → string) j :
  (∀ j, text_only j = true → write_json j ≠ ""%string) → text_only j = true → (String.length (write_json j) =? 0)%nat = false.
Proof. intros Hne Ht. specialize (Hne j Ht). by destruct (write_json j). Qed.

Section proofs.
Context `{Build} `{FloatEnv} (write_json : Json → string).
(** A written document is not empty. *)
Hypothesis write_json_nonempty : ∀ j, text_only j = true → write_json j ≠ ""%string.
#[local] Set Default Proof Using "All".

Abbreviation api_call := (EmbedderApi.api_call write_json).

(** Calls that may succeed without a shell. *)
Definition needs_engine (c : ApiCall) : bool :=
  match c with UpdateLocales _ n => negb (n =? 0)%nat | RunTask _ | UseResponseHandle _ => false | _ => true end.

Definition is_message (c : ApiCall) : bool := match c with RunInitialized _ | Deinitialize | ApiShutdown => false | _ => true end.

(** What a call that is reported does: nothing when it fails, and when it
    succeeds the engine is running and posts were only added. *)
Definition reported (code : FlutterEngineResult) (e e' : EmbedderEngine) : Prop :=
  if decide (code = kSuccess) then
    posts_after e e' ∧ shell_args_ e' = shell_args_ e ∧ is_Some (shell_ e) ∧ is_Some (shell_ e')
  else e' = e.

(** An operation on the shell that only adds posts. *)
Definition adds (f : EmbedderShell → result EmbedderShell) : Prop :=
  ∀ s s', f s ⇓ s' → ui_posted s `prefix_of` ui_posted s' ∧ gpu_posted s `prefix_of` gpu_posted s'.

Lemma on_shell_reported failure f e code e' :
  failure ≠ kSuccess → adds f → report failure (on_shell f e) ⇓ (code, e') → reported code e e'.
Proof.
  intros Hfail Hf. unfold report, on_shell, reported. destruct (shell_ e) as [s|] eqn:Hs; cbn; last first.
  { intros [= <- <-]. by rewrite decide_False. }
  destruct (f s) as [s'|] eqn:Hr; [|done]. cbn. intros [= <- <-]. rewrite decide_True by done.
  destruct (Hf _ _ Hr) as [Hu Hg]. unfold posts_after, posts. cbn. rewrite Hs. cbn. split_and!; try done; by apply prefix_app.
Qed.

Lemma adds_ui c : adds (λ s, mret (post_ui_call c s)).
Proof. intros s s' [= <-]. cbn. split; [by apply prefix_app_r|done]. Qed.
Lemma adds_gpu c : adds (λ s, mret (post_gpu c s)).
Proof. intros s s' [= <-]. cbn. split; [done|by apply prefix_app_r]. Qed.
Lemma adds_mark t : adds (λ s, mret (OnPlatformViewMarkTextureFrameAvailable t s)).
Proof. intros s s' [= <-]. cbn. split; by apply prefix_app_r. Qed.
Lemma adds_metrics m : adds (OnPlatformViewSetViewportMetrics m).
Proof. intros s s' (b & _ & [= <-])%bind_Ok. cbn. split; by apply prefix_app_r. Qed.
Lemma adds_packet p : adds (PlatformView_DispatchPointerDataPacket p).
Proof. intros s s' ([o c] & _ & [= <-])%bind_Ok. cbn. split; [by apply prefix_app_r|done]. Qed.

Lemma reported_same code e : code ≠ kSuccess → reported code e e.
Proof. intros Hc. unfold reported. by rewrite decide_False. Qed.

Lemma kept_reported signaled e : reported (FlutterEngineOnVsync signaled e).1 e e.
Proof.
  unfold reported, FlutterEngineOnVsync, EmbedderEngine_IsValid. cbn. case_bool_decide as Hs; [|done]. destruct signaled; [|done].
  by rewrite decide_True.
Qed.

Lemma DispatchJSON_reported failure document channel e code e' :
  failure ≠ kSuccess → report failure (DispatchJSONPlatformMessage write_json document channel e) ⇓ (code, e') → reported code e e'.
Proof.
  intros Hf. unfold DispatchJSONPlatformMessage. case_match; [intros [= <- <-]; by apply reported_same|].
  case_match; [intros [= <- <-]; by apply reported_same|]. apply on_shell_reported; [done|apply adds_ui].
Qed.

Lemma texture_reported id f e code e' :
  (∀ t, adds (λ s, mret (f t s))) → with_texture id f e ⇓ (code, e') → reported code e e'.
Proof.
  intros Hf. unfold with_texture, on_textures. case_match; [intros [= <- <-]; by apply reported_same|].
  case_match; [intros [= <- <-]; by apply reported_same|]. by apply on_shell_reported.
Qed.

Lemma LowMemory_reported e code e' :
  FlutterEngineNotifyLowMemoryWarning write_json e ⇓ (code, e') → reported code e e'.
Proof.
  unfold FlutterEngineNotifyLowMemoryWarning, EmbedderEngine_IsValid, on_shell.
  destruct (shell_ e) as [s|] eqn:Hs; cbn; [|intros [= <- <-]; by apply reported_same].
  unfold DispatchJSONPlatformMessage. rewrite written by done. cbn. intros [= <- <-].
  unfold reported, posts_after, posts. cbn. rewrite Hs. cbn. split_and!; try done; apply prefix_app; by apply prefix_app_r.
Qed.

Lemma message_reported c e code e' :
  is_message c = true → api_call c e ⇓ (code, e') →
  reported code e e' ∨ code = kSuccess ∧ e' = e ∧ needs_engine c = false.
Proof.
  intros Hc. destruct c; try done; cbn [EmbedderApi.api_call].
  - intros Hr. left. revert Hr. unfold FlutterEngineSendWindowMetricsEvent. destruct event; [|intros [= <- <-]; by apply reported_same].
    case_match; [intros [= <- <-]; by apply reported_same|]. apply on_shell_reported; [done|apply adds_metrics].
  - intros Hr. left. revert Hr. unfold FlutterEngineSendPointerEvent. destruct pointers; [|intros [= <- <-]; by apply reported_same].
    case_match; [intros [= <- <-]; by apply reported_same|]. intros (p & _ & Hr)%bind_Ok.
    eapply on_shell_reported; [|apply adds_packet|exact Hr]; done.
  - intros Hr. left. revert Hr. unfold FlutterEngineSendPlatformMessage. destruct message as [m|]; [|intros [= <- <-]; by apply reported_same].
    case_match; [|intros [= <- <-]; by apply reported_same]. case_match; [intros [= <- <-]; by apply reported_same|].
    intros (p & _ & Hr)%bind_Ok. eapply on_shell_reported; [|apply adds_ui|exact Hr]; done.
  - unfold FlutterEngineUpdateLocales. case_match eqn:Hn.
    { apply Nat.eqb_eq in Hn as ->. intros [= <- <-]. by right. }
    intros Hr. left. destruct locales; [|injection Hr as <- <-; by apply reported_same]. apply bind_Ok in Hr as (args & _ & Hr).
    destruct args; [|injection Hr as <- <-; by apply reported_same]. eapply DispatchJSON_reported; [|exact Hr]; done.
  - intros Hr. left. by apply LowMemory_reported.
  - intros Hr. left. eapply texture_reported; [|exact Hr]. intros. apply adds_gpu.
  - intros Hr. left. eapply texture_reported; [|exact Hr]. intros. apply adds_gpu.
  - intros Hr. left. eapply texture_reported; [|exact Hr]. intros. apply adds_mark.
  - intros Hr. left. eapply on_shell_reported; [|apply adds_ui|exact Hr]; done.
  - intros Hr. left. eapply on_shell_reported; [|apply adds_ui|exact Hr]; done.
  - intros Hr. left. eapply on_shell_reported; [|apply adds_ui|exact Hr]; done.
  - intros Hr. left. revert Hr. unfold FlutterEnginePostRenderThreadTask. destruct callback; [|intros [= <- <-]; by apply reported_same].
    apply on_shell_reported; [done|apply adds_gpu].
  - intros Hr. left. eapply on_shell_reported; [|apply adds_ui|exact Hr]; done.
  - intros [= <- <-]. left. apply kept_reported.
  - intros [= <- <-]. destruct posted as [[]|]; cbn; [by right|left; by apply reported_same..].
  - intros [= <- <-]. left. unfold EmbedderEngine_IsValid. case_bool_decide as Hs; [|by apply reported_same].
    unfold reported. by case_decide.
  - intros [= <- <-]. destruct (decide (code0 = kSuccess)) as [->|Hne]; [by right|left; by apply reported_same].
Qed.

(** ** The life of an engine *)

(** The phases of an embedder's engine: it was initialized, it runs, it never
    will again, or it was deleted. *)
Inductive EnginePhase := Initialized | Runs | Over | Freed.
#[export] Instance EnginePhase_eq_dec : EqDecision EnginePhase.
Proof. solve_decision. Defined.

Definition phase_inv (p : EnginePhase) (e : EmbedderEngine) : Prop :=
  match p with
  | Initialized => shell_ e = None ∧ shell_args_ e = true
  | Runs => is_Some (shell_ e) ∧ shell_args_ e = false
  | Over => shell_ e = None ∧ shell_args_ e = false
  | Freed => shell_ e = None
  end.

Definition handle_inv (p : EnginePhase) (h : Handle) : Prop :=
  match h with
  | NullHandle => False
  | LiveHandle e => phase_inv p e ∧ p ≠ Freed
  | FreedHandle e => phase_inv p e ∧ p = Freed
  end.

(** The abstract engine: whether a call may succeed in a phase, and the phase
    after it. *)
Definition may_succeed (c : ApiCall) (p : EnginePhase) : bool :=
  match c with
  | RunInitialized created => bool_decide (p = Initialized) && created
  | Deinitialize | ApiShutdown => true
  | _ => bool_decide (p = Runs) || negb (needs_engine c)
  end.

Definition phase_after (c : ApiCall) (p : EnginePhase) : EnginePhase :=
  match c, p with
  | RunInitialized created, Initialized => if created then Runs else Over
  | Deinitialize, Runs => Over
  | ApiShutdown, _ => Freed
  | _, p => p
  end.

Lemma message_phase c e code e' p :
  is_message c = true → phase_inv p e → p ≠ Freed → api_call c e ⇓ (code, e') →
  phase_inv p e' ∧ (code = kSuccess → may_succeed c p = true) ∧ posts_after e e'.
Proof.
  intros Hm Hp Hfree Hr. destruct (message_reported c e code e' Hm Hr) as [Hrep|(-> & -> & Hn)].
  - unfold reported in Hrep. case_decide as Hc; [|by subst].
    destruct Hrep as (Hpost & Ha & [s Hs] & [s' Hs']). destruct p; cbn [phase_inv] in *; try done; destruct Hp as [Hp Hargs]; try congruence.
    rewrite Ha, Hs'. split_and!; [done|done| |done]. by destruct c.
  - split_and!; [done| |done]. intros _. destruct c; try done; cbn in *; by rewrite ?Hn, orb_true_r.
Qed.

(** The shell goes, and with it nothing that was posted. *)
Lemma Deinitialize_posts e : posts (FlutterEngineDeinitialize e).2 = posts e.
Proof.
  unfold FlutterEngineDeinitialize, NotifyDestroyed. destruct (EmbedderEngine_IsValid e); cbn; unfold posts; cbn; by destruct (shell_ e).
Qed.

Lemma Deinitialize_shell e : shell_ (FlutterEngineDeinitialize e).2 = None ∧ shell_args_ (FlutterEngineDeinitialize e).2 = shell_args_ e.
Proof. unfold FlutterEngineDeinitialize, NotifyDestroyed. by destruct (EmbedderEngine_IsValid e). Qed.

Lemma RunInitialized_posts created e : (shell_ e = None ∨ shell_args_ e = false) → posts_after e (FlutterEngineRunInitialized created e).2.
Proof.
  unfold FlutterEngineRunInitialized, EmbedderEngine_IsValid, LaunchShell. intros Hor.
  destruct (shell_ e) as [s|] eqn:Hs; cbn; [done|]. destruct (shell_args_ e); cbn; [|done].
  destruct created; cbn; [|unfold posts_after, posts; cbn; by rewrite Hs].
  unfold NotifyCreated, RunRootIsolate, EmbedderEngine_IsValid. cbn.
  destruct (configuration_IsValid _); cbn; unfold posts_after, posts; cbn; rewrite Hs; split; by apply prefix_app_r.
Qed.

Lemma api_phase c e code e' p :
  phase_inv p e → p ≠ Freed → api_call c e ⇓ (code, e') →
  phase_inv (phase_after c p) e' ∧ (code = kSuccess → may_succeed c p = true) ∧ posts_after e e'.
Proof.
  intros Hp Hfree. destruct (is_message c) eqn:Hm.
  { intros Hr. destruct (message_phase c e code e' p Hm Hp Hfree Hr) as (Hp' & Hs & Hpost). split_and!; [|done|done]. by destruct c, p. }
  destruct c; try done; cbn [EmbedderApi.api_call]; intros [= Hr].
  - assert (Hpost : posts_after e e').
    { replace e' with (FlutterEngineRunInitialized created e).2 by (by rewrite Hr). apply RunInitialized_posts. destruct p; try done; destruct Hp; auto. }
    revert Hr Hpost. unfold FlutterEngineRunInitialized, EmbedderEngine_IsValid, LaunchShell.
    destruct p; try done; destruct Hp as [Hs Ha]; cbn [phase_inv] in *.
    + rewrite Hs, Ha. cbn. destruct created; cbn; [|by intros [= <- <-]]. 
      unfold NotifyCreated, RunRootIsolate, EmbedderEngine_IsValid. cbn.
      destruct (configuration_IsValid _); cbn; by intros [= <- <-].
    + destruct Hs as [s Hs]. rewrite Hs. cbn. intros [= <- <-] Hpost. split; [|done]. by rewrite Hs.
    + rewrite Hs, Ha. cbn. by intros [= <- <-].
  - destruct (Deinitialize_shell e) as [Hs Ha]. pose proof (Deinitialize_posts e) as Hpost. rewrite Hr in Hs, Ha, Hpost. cbn in Hs, Ha, Hpost.
    split_and!; [|done|unfold posts_after; by rewrite Hpost]. destruct p; try done; destruct Hp as [? ?]; cbn; by rewrite Hs, Ha.
  - unfold FlutterEngineShutdown in Hr. destruct (Deinitialize_shell e) as [Hs Ha]. pose proof (Deinitialize_posts e) as Hpost.
    rewrite Hr in Hs, Ha, Hpost. cbn in Hs, Ha, Hpost.
    split_and!; [by destruct p|done|unfold posts_after; by rewrite Hpost].
Qed.

(** ** Claims *)

Fixpoint api_run (cs : list ApiCall) (h : Handle) : result (list FlutterEngineResult * Handle) :=
  match cs with
  | [] => mret ([], h)
  | c :: cs =>
      '(code, h) ← EmbedderApi.api write_json c h;
      '(codes, h) ← api_run cs h;
      mret (code :: codes, h)
  end.

Definition phase_run (cs : list ApiCall) (p : EnginePhase) : EnginePhase := foldl (λ p c, phase_after c p) p cs.

(** What was posted through the engine of a handle. *)
Definition handle_posts (h : Handle) : list UiPost * list GpuPost :=
  match h with NullHandle => ([], []) | LiveHandle e | FreedHandle e => posts e end.

Lemma handle_phase c h code h' p :
  handle_inv p h → EmbedderApi.api write_json c h ⇓ (code, h') →
  handle_inv (phase_after c p) h' ∧ (code = kSuccess → may_succeed c p = true) ∧
  (handle_posts h).1 `prefix_of` (handle_posts h').1 ∧ (handle_posts h).2 `prefix_of` (handle_posts h').2 ∧
  (is_message c = true → code ≠ kSuccess → h' = h).
Proof.
  destruct h as [|e|e]; [done| |done]. intros [Hp Hfree] ([code' e'] & Hc & [= <- <-])%bind_Ok.
  destruct (api_phase c e code' e' p Hp Hfree Hc) as (Hp' & Hs & Hpost).
  assert (Hmessage : is_message c = true → code' ≠ kSuccess → e' = e).
  { intros Hm Hne. destruct (message_reported c e code' e' Hm Hc) as [Hrep|(? & _)]; [|done]. unfold reported in Hrep. by rewrite decide_False in Hrep. }
  split_and!; [|done|..].
  - destruct c, p; cbn in *; by repeat case_match.
  - destruct c; apply Hpost.
  - destruct c; apply Hpost.
  - intros Hm Hne. rewrite (Hmessage Hm Hne). by destruct c.
Qed.

Lemma api_run_phase cs h codes h' p :
  handle_inv p h → api_run cs h ⇓ (codes, h') → handle_inv (phase_run cs p) h'.
Proof.
  revert h codes p. induction cs as [|c cs IH]; intros h codes p Hp; cbn [api_run]; [by intros [= <- <-]|].
  intros ([code h1] & Hc & Hr)%bind_Ok. apply bind_Ok in Hr as ([codes' h2] & Hr & [= <- <-]). unfold phase_run. cbn.
  eapply IH; [|exact Hr]. by eapply handle_phase.
Qed.

(** C16: After every sequence of calls with the handle of an engine that was
    initialized, the engine is in the phase of an abstract engine, which runs
    at most once, never again after it was deinitialized, and is gone after it
    was shut down.  Then a call succeeds only if the phase allows it, whatever
    its outcome what was posted to the task runners stays and is only added
    to, and a call that fails leaves the engine as it was, unless it was to
    run it. *)
Theorem embedder_api_refines cs c e0 codes h code h' :
  phase_inv Initialized e0 → api_run cs (LiveHandle e0) ⇓ (codes, h) → EmbedderApi.api write_json c h ⇓ (code, h') →
  let p := phase_run cs Initialized in
  handle_inv p h ∧ handle_inv (phase_after c p) h' ∧ (code = kSuccess → may_succeed c p = true) ∧
  (handle_posts h).1 `prefix_of` (handle_posts h').1 ∧ (handle_posts h).2 `prefix_of` (handle_posts h').2 ∧
  (is_message c = true → code ≠ kSuccess → h' = h).
Proof.
  intros Hinit Hr Hc p. assert (Hp : handle_inv p h) by (by eapply api_run_phase; [|exact Hr]).
  destruct (handle_phase c h code h' p Hp Hc) as (? & ? & ? & ? & ?). done.
Qed.
End proofs.

(** ** Locales *)

Section locales.
Context (write_json : Json → string).
Context `{Build} (framework : nat → DartCall → Runtime Engine → list NativeCall) (alloc_fails : Runtime Engine → bool).
Context (vm : nat → VmQuery → bool) (cr sh : closure) (debug_name : nat → string).
Context (settings : EngineSettings) (Parse : string → option Json) (service_id : nat → string).

(** The four strings of a locale. *)
Definition locale_strings (l : FlutterLocale) : list string :=
  let optional end_ member := default ""%string (SAFE_ACCESS (lo_struct_size l) end_ member (Some ""%string)) in
  [default ""%string (language_code l); optional 24 (country_code l); optional 32 (script_code l); optional 40 (variant_code l)].

(** A locale as the interface asks for it: it has a language, and its strings
    are C strings. *)
Definition good_locale (l : FlutterLocale) : Prop :=
  16 ≤ lo_struct_size l ∧ (∃ s, language_code l = Some s ∧ s ≠ ""%string) ∧ Forall (λ s, c_str s = s) (locale_strings l).

Lemma locale_args_good ls :
  Forall good_locale ls → locale_args (length ls) (Some <$> ls) ⇓ Some (JString <$> (ls ≫= locale_strings)).
Proof.
  induction 1 as [|l ls (Hsz & (s & Hl & Hne) & _) _ IH]; [done|].
  cbn [length fmap list_fmap locale_args]. unfold SAFE_ACCESS at 1. rewrite (proj2 (Z.leb_le _ _) Hsz), Hl.
  assert (Hlen : (String.length s =? 0)%nat = false) by (by destruct s). rewrite Hlen.
  change (list_fmap _ _ Some ls) with (Some <$> ls). rewrite IH. cbn. by rewrite Hl.
Qed.

Lemma read_locales_good ls :
  Forall good_locale ls → read_locales (JString <$> (ls ≫= locale_strings)) ⇓ Some (ls ≫= locale_strings).
Proof.
  induction 1 as [|l ls (_ & _ & Hc) _ IH]; [done|].
  assert (∃ a b c d, locale_strings l = [a; b; c; d]) as (a & b & c & d & Hl) by (by eexists _, _, _, _).
  rewrite bind_cons, fmap_app. rewrite Hl in *. rewrite !Forall_cons in Hc. destruct Hc as (Ha & Hb & Hc & Hd & _).
  cbn [app fmap list_fmap read_locales IsString negb orb GetString mbind result_bind].
  change (list_fmap _ _ JString (ls ≫= locale_strings)) with (JString <$> (ls ≫= locale_strings)).
  rewrite Ha, Hb, Hc, Hd, IH. done.
Qed.

Lemma length_locale_args ls : (length (JString <$> (ls ≫= locale_strings)) `mod` 4 = 0)%nat.
Proof.
  assert (Hlen : length (ls ≫= locale_strings) = (length ls * 4)%nat).
  { induction ls as [|l ls IH]; [done|]. rewrite bind_cons, length_app, IH. cbn. lia. }
  by rewrite length_fmap, Hlen, Nat.Div0.mod_mul.
Qed.

(** The message an embedder's locales become. *)
Definition locale_document (ls : list FlutterLocale) : Json :=
  JObject [("method"%string, JString "setLocale"); ("args"%string, JArray (JString <$> (ls ≫= locale_strings)))].
Lemma locale_document_text ls : text_only (locale_document ls) = true.
Proof. cbn [text_only forallb locale_document]. by rewrite text_only_strings. Qed.

Definition locale_message (ls : list FlutterLocale) : PlatformMessage :=
  mkMessage kLocalizationChannel (write_json (locale_document ls)) true None.

Lemma find_method v : FindMember "method" [("method"%string, JString "setLocale"); ("args"%string, v)] = Some (JString "setLocale").
Proof. reflexivity. Qed.
Lemma find_args v : FindMember "args" [("method"%string, JString "setLocale"); ("args"%string, v)] = Some v.
Proof. reflexivity. Qed.

Lemma locale_message_read ls :
  Parse (write_json (locale_document ls)) = Some (locale_document ls) → Forall good_locale ls →
  message_locales Parse (locale_message ls) = Some (ls ≫= locale_strings).
Proof.
  intros Hp Hg. unfold message_locales, locale_message. cbn [data_]. rewrite Hp. unfold locale_document. rewrite find_method, find_args.
  rewrite length_locale_args, read_locales_good by done. done.
Qed.

(** C17: An embedder's locales reach Dart: [FlutterEngineUpdateLocales] succeeds on
    a running engine and posts one call, and when the engine has run it, in
    whatever run, the Dart code of the live root isolate was told exactly the
    four strings of every locale, empty where a member was not given, in the
    embedder's order. *)
Theorem locales_reach_dart ls s e :
  (∀ j, text_only j = true → Parse (write_json j) = Some j) → (∀ j, text_only j = true → write_json j ≠ ""%string) →
  shell_ e = Some s → ls ≠ [] → Forall good_locale ls →
  let call := CallDispatchPlatformMessage (locale_message ls) in
  ∃ e', FlutterEngineUpdateLocales write_json (Some (Some <$> ls)) (length ls) e ⇓ (kSuccess, e') ∧
    posts e' = ((posts e).1 ++ [UiEngine call], (posts e).2) ∧
    ∀ cs r0 u r i d0,
      Engine_new framework vm cr sh debug_name ⇓ r0 →
      engine_calls framework alloc_fails vm cr sh debug_name settings Parse service_id (cs ++ [call]) r0 ⇓ (u, r) →
      lock (root_isolate_ (controller r)) r = Some i →
      dart_locales (told i d0 r) = ls ≫= locale_strings.
Proof.
  intros Hparse Hwrite Hs Hne Hg call. pose proof (locale_document_text ls) as Ht.
  exists (set_shell (Some (post_ui_call call s)) e). split_and!.
  - unfold FlutterEngineUpdateLocales. assert (Hn : (length ls =? 0)%nat = false) by (by destruct ls). rewrite Hn.
    rewrite locale_args_good by done. cbn [mbind result_bind]. unfold report, DispatchJSONPlatformMessage.
    fold (locale_document ls). rewrite written by done. unfold on_shell. by rewrite Hs.
  - unfold posts. cbn. rewrite Hs. cbn. by rewrite app_assoc.
  - intros cs r0 u r i d0 Hn Hr Hl. rewrite (run_told _ _ _ _ _ _ _ _ _ _ _ _ _ _ _ Hn Hr Hl). unfold tell_all. rewrite foldl_app.
    cbn [foldl]. unfold call, tell at 1. cbn [tells]. rewrite decide_False by done. rewrite decide_True by done.
    by rewrite (locale_message_read ls (Hparse _ Ht) Hg).
Qed.
End locales.

(** ** Pointer events *)

Section pointers.
Context `{Build} `{FloatEnv}.

(** Events one after the other in memory, each as long as it says. *)
Fixpoint laid_out (memory : gmap Z FlutterPointerEvent) (a : Z) (es : list FlutterPointerEvent) : Prop :=
  match es with
  | [] => True
  | p :: es => memory !! a = Some p ∧ laid_out memory (a + pe_struct_size p) es
  end.

(** The members of an event are of their C types. *)
Definition event_typed (p : FlutterPointerEvent) : Prop :=
  - 2 ^ 31 ≤ pe_device p < 2 ^ 31 ∧ - 2 ^ 63 ≤ pe_buttons p < 2 ^ 63 ∧
  Forall (λ d, 0 ≤ d < 2 ^ 64) [pe_x p; pe_y p; pe_scroll_delta_x p; pe_scroll_delta_y p].

Lemma read_events_laid_out memory es i a packet :
  laid_out memory a es → read_events memory i (length es) a packet = write_events i (pointer_data_of <$> es) packet.
Proof.
  revert i a packet. induction es as [|p es IH]; intros i a packet; [done|]. intros [Hp Hes]. cbn [length read_events fmap list_fmap write_events].
  rewrite Hp. cbn [of_option mbind result_bind]. destruct (SetPointerData i (pointer_data_of p) packet); [|done]. by apply IH.
Qed.

Lemma SAFE_ACCESS_either {A} (P : A → Prop) size end_ a b : P a → P b → P (SAFE_ACCESS size end_ a b).
Proof. unfold SAFE_ACCESS. by destruct (end_ <=? size). Qed.

Lemma buttons_range p : event_typed p → - 2 ^ 63 ≤ buttons (pointer_data_of p) < 2 ^ 63.
Proof.
  intros (_ & Hb & _). unfold pointer_data_of. cbn [buttons]. case_match; [unfold PointerDataButtonsForLegacyEvent; by case_match|].
  case_match; [by case_match|]. apply (SAFE_ACCESS_either (λ z, - 2 ^ 63 ≤ z < 2 ^ 63)); [done|lia].
Qed.

Lemma pointer_data_of_ok p : event_typed p → PointerData_ok (pointer_data_of p).
Proof.
  intros Ht. pose proof (buttons_range p Ht) as Hb. destruct Ht as (Hd & _ & Hf). rewrite !Forall_cons in Hf. destruct Hf as (Hx & Hy & Hsx & Hsy & _).
  assert (Hc : ∀ z, Change_of (Change_to (ToPointerDataChange z)) = ToPointerDataChange z).
  { intros z. unfold ToPointerDataChange. by repeat case_match. }
  assert (Hcr : ∀ z, - 2 ^ 63 ≤ Change_to (ToPointerDataChange z) < 2 ^ 63).
  { intros z. unfold ToPointerDataChange. by repeat case_match. }
  assert (Hs : ∀ z, SignalKind_of (SignalKind_to (ToPointerDataSignalKind z)) = ToPointerDataSignalKind z).
  { intros z. unfold ToPointerDataSignalKind. by repeat case_match. }
  assert (Hsr : ∀ z, - 2 ^ 63 ≤ SignalKind_to (ToPointerDataSignalKind z) < 2 ^ 63).
  { intros z. unfold ToPointerDataSignalKind. by repeat case_match. }
  split; [|split; [apply Hc|apply Hs]].
  unfold fields, is_double. repeat (apply Forall2_cons; split); try apply Forall2_nil; try done; cbn [word_ok];
    try exact Hb; try apply Hcr; try apply Hsr; try lia.
  - by apply (wrapS_range 64).
  - unfold pointer_data_of. cbn [kind]. case_match; [done|]. unfold ToPointerDataKind. by repeat case_match.
  - apply (SAFE_ACCESS_either (λ z, - 2 ^ 63 ≤ z < 2 ^ 63)); lia.
  - by apply (SAFE_ACCESS_either (λ z, 0 ≤ z < 2 ^ 64)).
  - by apply (SAFE_ACCESS_either (λ z, 0 ≤ z < 2 ^ 64)).
  - by apply (SAFE_ACCESS_either (λ z, 0 ≤ z < 2 ^ 64)).
  - by apply (SAFE_ACCESS_either (λ z, 0 ≤ z < 2 ^ 64)).
Qed.

(** C18: An embedder's pointer events reach the engine as a clean stream.  On a
    running engine, events that lie one after the other in memory, each of its
    own size and of whatever version of the structure, are sent by one call,
    which succeeds and posts one packet with the next flow identifier; the
    packet is one a receiver that checks the pointer protocol accepts, and the
    receiver ends in the state of the platform view's converter.  Of the events
    it is assumed that their members are of their C types and that they are
    what the converter asserts of its input (no second down, no move of an
    unknown pointer, and so on); that none is a scroll of a pressed pointer at
    a new location, unless it carries the identifier of the pointer, since the
    move the converter makes of such a scroll has the wrong identifier
    ([scroll_move_wrong_identifier]); and that the identifiers of pointers do
    not overflow. *)
Theorem pointer_events_delivered memory a es s e :
  shell_ e = Some s → es ≠ [] → laid_out memory a es → Forall event_typed es →
  inputs_ok (pointer_data_of <$> es) (converter_ s) →
  - 2 ^ 63 ≤ pointer_ (converter_ s) → pointer_ (converter_ s) + Z.of_nat (length es) < 2 ^ 63 →
  ∃ out c e', FlutterEngineSendPointerEvent memory (Some a) (length es) e ⇓ (kSuccess, e') ∧
    shell_ e' = Some (mkEmbedderShell (ui_posted s ++ [UiPointerDataPacket (packet_of out) (next_pointer_flow_id_ s)])
                  (gpu_posted s) c (wrapU 64 (next_pointer_flow_id_ s + 1))) ∧
    convert_all (pointer_data_of <$> es) (converter_ s) ⇓ (out, c) ∧ monitor_run out (converter_ s) = Some c.
Proof.
  intros Hs Hne Hl Ht Hi Hlo Hhi. set (ps := pointer_data_of <$> es) in *.
  assert (Hlen : length ps = length es) by apply length_fmap. rewrite <- Hlen in Hhi.
  destruct (convert_all_clean ps (converter_ s) Hi Hlo Hhi) as (out & c & Hc & Hm).
  assert (Hok : Forall PointerData_ok ps) by (unfold ps; apply Forall_fmap; eapply Forall_impl; [exact Ht|apply pointer_data_of_ok]).
  destruct (convert_packet ps (converter_ s) out c Hok Hc) as [Hconv _].
  eexists out, c, (set_shell (Some _) e). split_and!; [|reflexivity|done|done].
  unfold FlutterEngineSendPointerEvent. assert (Hn : (length es =? 0)%nat = false) by (by destruct es). rewrite Hn.
  rewrite read_events_laid_out by done. fold ps.
  pose proof (write_events_packet ps [] (new_packet (length es)) 0 eq_refl) as Hw. cbn [app] in Hw.
  rewrite Hw by (unfold new_packet; by rewrite length_replicate, Hlen). cbn [mbind result_bind].
  unfold report, on_shell, PlatformView_DispatchPointerDataPacket. rewrite Hs, Hconv. reflexivity.
Qed.
End pointers.

(** ** Examples *)

(** A writer of documents and the reader of what it wrote. *)
Fixpoint json_tree (j : Json) : gen_tree (bool + Z + string) :=
  match j with
  | JNull => GenNode 0 []
  | JBool b => GenLeaf (inl (inl b))
  | JNumber n => GenLeaf (inl (inr n))
  | JString s => GenLeaf (inr s)
  | JArray elements => GenNode 1 (map json_tree elements)
  | JObject members => GenNode 2 (map (λ m : string * Json, let '(k, v) := m in GenNode 0 [GenLeaf (inr k); json_tree v]) members)
  end.
Fixpoint tree_json (t : gen_tree (bool + Z + string)) : Json :=
  match t with
  | GenLeaf (inl (inl b)) => JBool b
  | GenLeaf (inl (inr n)) => JNumber n
  | GenLeaf (inr s) => JString s
  | GenNode 1 ts => JArray (map tree_json ts)
  | GenNode 2 ts =>
      JObject (map (λ t, match t with GenNode _ [GenLeaf (inr k); v] => (k, tree_json v) | _ => (""%string, JNull) end) ts)
  | GenNode _ _ => JNull
  end.
Lemma tree_json_tree : ∀ j, tree_json (json_tree j) = j.
Proof.
  fix IH 1. intros [|b|n|s|elements|members]; try reflexivity; cbn; f_equal.
  - induction elements as [|j js IHjs]; [reflexivity|]. cbn. by rewrite IH, IHjs.
  - induction members as [|[k v] ms IHms]; [reflexivity|]. cbn. by rewrite IH, IHms.
Qed.
#[export] Instance Json_eq_dec : EqDecision Json.
Proof.
  refine (λ j1 j2, cast_if (decide (json_tree j1 = json_tree j2))); [|naive_solver].
  by rewrite <- (tree_json_tree j1), <- (tree_json_tree j2); f_equal.
Defined.
#[export] Instance Json_countable : Countable Json := inj_countable' json_tree tree_json tree_json_tree.

Fixpoint write_bits (p : positive) : string :=
  match p with xH => "." | xO p => String "0" (write_bits p) | xI p => String "1" (write_bits p) end.
Fixpoint read_bits (s : string) : positive :=
  match s with
  | String "0" s => xO (read_bits s)
  | String "1" s => xI (read_bits s)
  | _ => xH
  end.
Lemma read_write_bits p : read_bits (write_bits p) = p.
Proof. by induction p; cbn; f_equal. Qed.
Definition demo_write (j : Json) : string := write_bits (encode j).
Definition demo_read (s : string) : option Json := decode (read_bits s).
Lemma demo_read_write j : demo_read (demo_write j) = Some j.
Proof. unfold demo_read, demo_write. by rewrite read_write_bits, decode_encode. Qed.
Lemma demo_write_nonempty j : demo_write j ≠ ""%string.
Proof. unfold demo_write. by destruct (encode j). Qed.

Definition demo_engine : EmbedderEngine := mkEmbedderEngine None true demo_configuration true [] ([], []).
Definition german : FlutterLocale := mkLocale 24 (Some "de"%string) (Some "AT"%string) None None.

Definition demo_api_calls : list ApiCall :=
  [UpdateSemanticsEnabled true; RunInitialized true; UpdateSemanticsEnabled true; LowMemory].

#[local] Instance embedder_float_env : FloatEnv := {| nan_bits := 0x7ff8000000000000 |}.

Definition api_state : EmbedderEngine :=
  match @api_run debug_mode _ demo_write demo_api_calls (LiveHandle demo_engine) with
  | Ok (_, LiveHandle e) => e | _ => demo_engine end.

Lemma embedder_api_refines_witness :
  handle_inv Runs (LiveHandle api_state) ∧
  ∃ e', @EmbedderApi.api debug_mode _ demo_write ApiShutdown (LiveHandle api_state) ⇓ (kSuccess, FreedHandle e') ∧
    handle_inv Freed (FreedHandle e') ∧ (posts api_state).1 `prefix_of` (posts e').1.
Proof.
  edestruct (@embedder_api_refines debug_mode _ demo_write (λ j _, demo_write_nonempty j) demo_api_calls ApiShutdown demo_engine
    [kInternalInconsistency; kSuccess; kSuccess; kSuccess] (LiveHandle api_state) kSuccess
    (FreedHandle (FlutterEngineShutdown api_state).2)) as (Hp & Hp' & _ & Hpost & _).
  - done.
  - vm_compute; reflexivity.
  - vm_compute; reflexivity.
  - split; [exact Hp|]. eexists. split; [vm_compute; reflexivity|]. split; [exact Hp'|exact Hpost].
Defined.

Definition locale_run : list EngineCall :=
  [CallEngineRun demo_configuration; CallDispatchPlatformMessage (locale_message demo_write [german])].
Definition locale_state : Runtime Engine :=
  match @engine_calls debug_mode demo_framework (λ _, false) good_vm None None (λ _, "root"%string) demo_settings demo_read
          (λ _, "isolates/1"%string) locale_run demo_start with Ok (_, r) => r | Fault _ => no_runtime end.

Lemma locales_reach_dart_witness :
  ∃ e', FlutterEngineUpdateLocales demo_write (Some [Some german]) 1 api_state ⇓ (kSuccess, e') ∧
    dart_locales (told 0 (dart_window new_window_data) locale_state) = ["de"; "AT"; ""; ""]%string.
Proof.
  edestruct (@locales_reach_dart demo_write debug_mode demo_framework (λ _, false) good_vm None None (λ _, "root"%string)
    demo_settings demo_read (λ _, "isolates/1"%string) [german]
    (default new_embedder_shell (shell_ api_state)) api_state (λ j _, demo_read_write j) (λ j _, demo_write_nonempty j))
    as (e' & He & _ & Hrun).
  - vm_compute; reflexivity.
  - done.
  - apply Forall_singleton. split; [done|]. split; [by exists "de"%string|]. by repeat constructor.
  - exists e'. split; [exact He|].
    rewrite (Hrun [CallEngineRun demo_configuration] demo_start tt locale_state 0%nat (dart_window new_window_data) demo_new_ok); [reflexivity| |].
    + vm_compute. reflexivity.
    + vm_compute; reflexivity.
Defined.

(** Two events of different versions of the structure: a press from before
    device kinds, and a touch that moved. *)
Definition old_press : FlutterPointerEvent := mkPointerEvent 64 2 1000 d1 d1 7 0 0 0 0 0.
Definition new_move : FlutterPointerEvent := mkPointerEvent 80 3 2000 d3 d1 7 0 0 0 2 0.
Definition event_memory : gmap Z FlutterPointerEvent := {[ 4096 := old_press; 4160 := new_move ]}.

Lemma pointer_events_delivered_witness :
  ∃ out c e', @FlutterEngineSendPointerEvent debug_mode _ event_memory (Some 4096) 2 api_state ⇓ (kSuccess, e') ∧
    monitor_run out new_converter = Some c ∧ length out = 3%nat.
Proof.
  destruct (@pointer_events_delivered debug_mode _ event_memory 4096 [old_press; new_move]
    (default new_embedder_shell (shell_ api_state)) api_state) as (out & c & e' & He & _ & Hc & Hm).
  - vm_compute; reflexivity.
  - done.
  - done.
  - by repeat constructor.
  - split; [done|]. split; [by intros ?|]. intros out c' [= <- <-]. split; [done|]. split; [by intros ?|]. done.
  - done.
  - done.
  - exists out, c, e'. split; [exact He|]. split; [exact Hm|]. clear -Hc. injection Hc as <- <-. done.
Defined.
