(* ===== verification/EmbedderHandles.v ===== *)
(** * EmbedderHandles: what crosses the C interface and who frees it

    Model of the parts of shell/platform/embedder/embedder.cc that hand
    resources over: response handles of platform messages
    ([FlutterPlatformMessageCreateResponseHandle], its release,
    [FlutterEngineSendPlatformMessageResponse], and
    [PlatformViewEmbedder::HandlePlatformMessage] of
    platform_view_embedder.cc) with the two kinds of responses
    (embedder_platform_message_response.cc and
    lib/ui/window/platform_message_response_dart.cc), Dart objects
    ([FlutterEnginePostDartObject]), backing stores
    ([CreateEmbedderRenderTarget], embedder_render_target.cc) and the batons of
    vsync waiters (vsync_waiter_embedder.cc).  Addresses are numbers, and
    reading a freed one is undefined behaviour.

    The proofs are ledgers: what was handed out is what was settled and what is
    still held. *)

From Stdlib Require Import ZArith Lia.
From stdpp Require Import base numbers list gmap sets fin_maps strings.
From S2P Require Import Prelude Float64 TaskQueues Time VsyncWaiter DartIsolate Assets RuntimeController Engine EmbedderApi.

Local Open Scope Z_scope.

(** ** Ledgers *)

Lemma substring_all s : String.substring 0 (String.length s) s = s.
Proof. induction s as [|c s IH]; [done|]. cbn. by rewrite IH. Qed.

Section ledger.
Context {A : Type}.

(** What was issued is what was settled and what the heap holds. *)
Definition balanced (issued settled : list A) (held : gmap nat A) : Prop := issued ≡ₚ settled ++ (map_to_list held).*2.

Lemma balanced_nil : balanced [] [] ∅.
Proof. unfold balanced. by rewrite map_to_list_empty. Qed.

Lemma balanced_issue i s h k a : h !! k = None → balanced i s h → balanced (i ++ [a]) s (<[k := a]> h).
Proof. intros Hk Hb. unfold balanced in *. rewrite map_to_list_insert, Hb by done. cbn. solve_Permutation. Qed.

Lemma balanced_settle i s h k a : h !! k = Some a → balanced i s h → balanced i (s ++ [a]) (delete k h).
Proof.
  intros Hk Hb. unfold balanced in *. rewrite Hb, <- (map_to_list_delete h k a Hk), fmap_cons. cbn. solve_Permutation.
Qed.
End ledger.

(** [fml::ScopedCleanupClosure]: a closure that runs at the end of the scope
    unless it was released. *)
Definition Release {A} (closure_ : option A) : option A * option A := (closure_, None).
Definition end_of_scope {A S} (run : A → S → S) (closure_ : option A) (s : S) : S :=
  match closure_ with Some c => run c s | None => s end.

(** ** Responses to platform messages *)

Module Responses.

(** A response of Dart code has a callback until it is completed; one of the
    embedder calls [data_callback] with [user_data]. *)
Inductive Response :=
  | DartResponse (callback_ : closure)
  | EmbedderResponse (data_callback user_data : nat).

(** Tasks of the UI runner: invoke the callback with bytes or null, or clear
    it.  Tasks of the platform runner: pass a message of Dart to the platform
    view, or call the callback of an embedder's response. *)
Inductive UiTask := InvokeCallback (callback : nat) (data : option string) | ClearCallback (callback : nat).
Definition task_callback (t : UiTask) : nat := match t with InvokeCallback c _ | ClearCallback c => c end.
Inductive PlatformTask := DeliverMessage (message : PlatformMessage) | TellEmbedder (data_callback user_data : nat) (data : string).

(** [handles]: the live [FlutterPlatformMessageResponseHandle]s.  Posted tasks
    wait in order; [told] and [invoked] log the calls of the embedder's and of
    Dart's callbacks, and [dropped] the callbacks of Dart that were let go
    without a call. *)
Record Messages := mkMessages {
  handles : gmap nat PlatformMessage;
  responses : gmap nat Response;
  next_address : nat;
  platform_tasks : list PlatformTask;
  gpu_tasks : list (Z * option nat);
  ui_tasks : list UiTask;
  told : list (nat * nat * string);
  invoked : list (nat * option string);
  dropped : list nat;
}.

Definition no_messages : Messages := mkMessages ∅ ∅ 0 [] [] [] [] [] [].

Definition set_handles h m :=
  mkMessages h (responses m) (next_address m) (platform_tasks m) (gpu_tasks m) (ui_tasks m) (told m) (invoked m) (dropped m).
Definition set_responses r m :=
  mkMessages (handles m) r (next_address m) (platform_tasks m) (gpu_tasks m) (ui_tasks m) (told m) (invoked m) (dropped m).
Definition set_platform_tasks t m :=
  mkMessages (handles m) (responses m) (next_address m) t (gpu_tasks m) (ui_tasks m) (told m) (invoked m) (dropped m).
Definition set_gpu_tasks t m :=
  mkMessages (handles m) (responses m) (next_address m) (platform_tasks m) t (ui_tasks m) (told m) (invoked m) (dropped m).
Definition post_ui t m :=
  mkMessages (handles m) (responses m) (next_address m) (platform_tasks m) (gpu_tasks m) (ui_tasks m ++ [t]) (told m)
    (invoked m) (dropped m).

(** [new]: the next address. *)
Definition allocate (m : Messages) : nat * Messages :=
  (next_address m,
   mkMessages (handles m) (responses m) (S (next_address m)) (platform_tasks m) (gpu_tasks m) (ui_tasks m) (told m)
     (invoked m) (dropped m)).

(** The callback of a Dart response is moved into a UI task. *)
Definition move_callback (r : nat) (t : UiTask) (m : Messages) : Messages :=
  post_ui t (set_responses (<[r := DartResponse None]> (responses m)) m).

Definition EmbedderResponse_Complete (callback user_data : nat) (data : option string) (m : Messages) : Messages :=
  set_platform_tasks (platform_tasks m ++ [TellEmbedder callback user_data (default ""%string data)]) m.

(** [Complete] and [CompleteEmpty] ([data] is none) of a response. *)
Definition complete (r : nat) (data : option string) (m : Messages) : result Messages :=
  response ← of_option UndefinedBehaviour (responses m !! r);
  match response with
  | DartResponse None => mret m
  | DartResponse (Some callback) => mret (move_callback r (InvokeCallback callback data) m)
  | EmbedderResponse callback user_data => mret (EmbedderResponse_Complete callback user_data data m)
  end.
Definition complete_if (response : option nat) (data : option string) (m : Messages) : result Messages :=
  match response with Some r => complete r data m | None => mret m end.

(** The last reference to a response goes away.  The destructor of one of Dart
    clears a callback that is still there. *)
Definition drop_response (response : option nat) (m : Messages) : Messages :=
  match response with
  | Some r => match responses m !! r with
              | Some (DartResponse (Some callback)) => move_callback r (ClearCallback callback) m
              | _ => m
              end
  | None => m
  end.

Section api.
(** Whether the embedder gave a callback for platform messages, and what the
    shell reads from the document of a message on Skia's channel. *)
Context (platform_message_callback : bool) (skia_max_bytes : string → option Z).

(** [PlatformViewEmbedder::HandlePlatformMessage] and the callback it calls,
    which makes a handle for the embedder. *)
Definition HandlePlatformMessage (message : PlatformMessage) (m : Messages) : result Messages :=
  if negb platform_message_callback then complete_if (response_ message) None m
  else
    let '(handle, m) := allocate m in
    mret (set_handles (<[handle := message]> (handles m)) m).

Definition kSkiaChannel : string := "flutter/skia".

Definition HandleEngineSkiaMessage (message : PlatformMessage) (m : Messages) : Messages :=
  match skia_max_bytes (data_ message) with
  | None => drop_response (response_ message) m
  | Some max_bytes => set_gpu_tasks (gpu_tasks m ++ [(max_bytes, response_ message)]) m
  end.

Definition OnEngineHandlePlatformMessage (message : PlatformMessage) (m : Messages) : Messages :=
  if bool_decide (channel_ message = kSkiaChannel) then HandleEngineSkiaMessage message m
  else set_platform_tasks (platform_tasks m ++ [DeliverMessage message]) m.

(** [Engine::HandleAssetPlatformMessage] with the asset manager of the engine:
    the bytes of the asset, or nothing. *)
Definition HandleAssetPlatformMessage (asset_manager_ : option AssetManager) (message : PlatformMessage) (m : Messages)
    : result Messages :=
  match response_ message with
  | None => mret m
  | Some response =>
      m ← complete response (GetMapping <$> (manager ← asset_manager_; GetAsMapping (data_ message) manager)) m;
      mret (drop_response (Some response) m)
  end.

Definition Engine_HandlePlatformMessage (asset_manager_ : option AssetManager) (message : PlatformMessage) (m : Messages)
    : result Messages :=
  if bool_decide (channel_ message = kAssetChannel) then HandleAssetPlatformMessage asset_manager_ message m
  else mret (OnEngineHandlePlatformMessage message m).

(** [SendPlatformMessage] of Dart's window, on an isolate that has a window or
    not: the error for Dart, or nothing and the message handed to the engine.
    It has a response when Dart gave a callback. *)
Definition SendPlatformMessage (window : bool) (asset_manager_ : option AssetManager) (name : string) (callback : closure)
    (data : option string) (m : Messages) : result (option string * Messages) :=
  if negb window then mret (Some "Platform messages can only be sent from the main isolate"%string, m)
  else
    let '(response, m) :=
      match callback with
      | None => (None, m)
      | Some c => let '(r, m) := allocate m in (Some r, set_responses (<[r := DartResponse (Some c)]> (responses m)) m)
      end in
    m ← Engine_HandlePlatformMessage asset_manager_
          match data with
          | None => mkMessage name "" false response
          | Some data => mkMessage name data true response
          end m;
    mret (None, m).

Definition FlutterPlatformMessageCreateResponseHandle (engine : bool) (data_callback : closure) (user_data : nat)
    (response_out : bool) (m : Messages) : FlutterEngineResult * option nat * Messages :=
  match engine, data_callback, response_out with
  | true, Some callback, true =>
      let '(handle, m) := allocate m in
      let '(response, m) := allocate m in
      let m := set_responses (<[response := EmbedderResponse callback user_data]> (responses m)) m in
      (kSuccess, Some handle, set_handles (<[handle := mkMessage "" "" false (Some response)]> (handles m)) m)
  | _, _, _ => (kInvalidArguments, None, m)
  end.

(** [delete handle], and its message with it. *)
Definition free_handle (h : nat) (message : PlatformMessage) (m : Messages) : Messages :=
  drop_response (response_ message) (set_handles (delete h (handles m)) m).

Definition FlutterPlatformMessageReleaseResponseHandle (engine : bool) (handle : option nat) (m : Messages)
    : result (FlutterEngineResult * Messages) :=
  match engine, handle with
  | true, Some h =>
      message ← of_option UndefinedBehaviour (handles m !! h);
      mret (kSuccess, free_handle h message m)
  | _, _ => mret (kInvalidArguments, m)
  end.

Definition FlutterEngineSendPlatformMessageResponse (handle : option nat) (data : option string) (data_length : Z)
    (m : Messages) : result (FlutterEngineResult * Messages) :=
  if negb (data_length =? 0) && bool_decide (data = None) then mret (kInvalidArguments, m)
  else
    h ← of_option NullDeref handle;
    message ← of_option UndefinedBehaviour (handles m !! h);
    let bytes := if data_length =? 0 then None
                 else Some (String.substring 0 (Z.to_nat data_length) (default ""%string data)) in
    m ← complete_if (response_ message) bytes m;
    mret (kSuccess, free_handle h message m).

(** The runners run their next task.  A platform view that is gone is passed no
    message, and a callback whose isolate is gone is not invoked. *)
Definition run_platform_task (view_alive : bool) (m : Messages) : result Messages :=
  match platform_tasks m with
  | [] => mret m
  | DeliverMessage message :: tasks =>
      let m := set_platform_tasks tasks m in
      if view_alive then HandlePlatformMessage message m else mret (drop_response (response_ message) m)
  | TellEmbedder callback user_data data :: tasks =>
      mret (mkMessages (handles m) (responses m) (next_address m) tasks (gpu_tasks m) (ui_tasks m)
              (told m ++ [(callback, user_data, data)]) (invoked m) (dropped m))
  end.
Definition run_gpu_task (m : Messages) : result Messages :=
  match gpu_tasks m with
  | [] => mret m
  | (_, response) :: tasks => complete_if response (Some "[true]"%string) (set_gpu_tasks tasks m)
  end.
Definition run_ui_task (isolate_alive : bool) (m : Messages) : Messages :=
  match ui_tasks m with
  | [] => m
  | t :: tasks =>
      let '(calls, drops) :=
        match t, isolate_alive with
        | InvokeCallback callback data, true => ([(callback, data)], [])
        | _, _ => ([], [task_callback t])
        end in
      mkMessages (handles m) (responses m) (next_address m) (platform_tasks m) (gpu_tasks m) tasks (told m)
        (invoked m ++ calls) (dropped m ++ drops)
  end.

Inductive MessageEvent :=
  | DartSends (window : bool) (asset_manager : option AssetManager) (name : string) (callback : closure) (data : option string)
  | EmbedderAnswers (handle : option nat) (data : option string) (data_length : Z)
  | EmbedderCreates (data_callback : closure) (user_data : nat) (response_out : bool)
  | EmbedderReleases (handle : option nat)
  | DartAnswers (response : nat) (data : option string)
  | PlatformRuns (view_alive : bool)
  | GpuRuns
  | UiRuns (isolate_alive : bool).

Definition message_step (e : MessageEvent) (m : Messages) : result Messages :=
  match e with
  | DartSends window assets name callback data =>
      '(_, m) ← SendPlatformMessage window assets name callback data m; mret m
  | EmbedderAnswers h data n => '(_, m) ← FlutterEngineSendPlatformMessageResponse h data n m; mret m
  | EmbedderCreates callback user_data out =>
      mret (FlutterPlatformMessageCreateResponseHandle true callback user_data out m).2
  | EmbedderReleases h => '(_, m) ← FlutterPlatformMessageReleaseResponseHandle true h m; mret m
  | DartAnswers r data => complete r data m
  | PlatformRuns view_alive => run_platform_task view_alive m
  | GpuRuns => run_gpu_task m
  | UiRuns alive => mret (run_ui_task alive m)
  end.
Fixpoint message_run (es : list MessageEvent) (m : Messages) : result Messages :=
  match es with [] => mret m | e :: es => m ← message_step e m; message_run es m end.

(** ** Every callback is called or let go once *)

(** The callbacks of the messages that were sent, and those that still wait in
    their responses.  A callback given on an isolate without a window stays
    with Dart. *)
Definition sent (es : list MessageEvent) : list nat :=
  omap (λ e, match e with DartSends true _ _ c _ => c | _ => None end) es.
Definition waiting_callback (r : Response) : option nat := match r with DartResponse c => c | EmbedderResponse _ _ => None end.
Definition waiting (m : Messages) : gmap nat nat := omap waiting_callback (responses m).

(** Everything that refers to a response. *)
Definition task_message (t : PlatformTask) : option PlatformMessage :=
  match t with DeliverMessage message => Some message | TellEmbedder _ _ _ => None end.
Definition holders (m : Messages) : list (option nat) :=
  (response_ <$> (map_to_list (handles m)).*2) ++ (response_ <$> omap task_message (platform_tasks m)) ++ (gpu_tasks m).*2.

Definition settled (m : Messages) : list nat := (task_callback <$> ui_tasks m) ++ (invoked m).*1 ++ dropped m.

(** [extra]: responses that are referred to by what is being passed on. *)
Record messages_inv (callbacks : list nat) (extra : list (option nat)) (m : Messages) : Prop := {
  inv_balanced : balanced callbacks (settled m) (waiting m);
  inv_held : ∀ r c, waiting m !! r = Some c → Some r ∈ holders m ++ extra;
  inv_known : ∀ r, Some r ∈ holders m ++ extra → is_Some (responses m !! r);
  inv_fresh : ∀ a, (next_address m ≤ a)%nat → handles m !! a = None ∧ responses m !! a = None;
}.

Lemma no_messages_inv : messages_inv [] [] no_messages.
Proof.
  split; [apply balanced_nil|..].
  - intros r c. unfold waiting. cbn. rewrite omap_empty. done.
  - intros r Hr. cbn in Hr. by apply elem_of_nil in Hr.
  - done.
Qed.

(** References move. *)
Lemma inv_shift cs extra extra' m m' :
  responses m' = responses m → settled m' = settled m → next_address m = next_address m' →
  (∀ a, (next_address m ≤ a)%nat → handles m !! a = None → handles m' !! a = None) →
  holders m ++ extra ≡ₚ holders m' ++ extra' → messages_inv cs extra m → messages_inv cs extra' m'.
Proof.
  intros Hr Hs Hn Hh Hp [Hb Hw Hk Hf]. assert (Hwait : waiting m' = waiting m) by (unfold waiting; by rewrite Hr).
  split; rewrite ?Hwait, ?Hs, ?Hr, <- ?Hn; [done| | |].
  - intros r c Hc. rewrite <- Hp. by eapply Hw.
  - intros r Hin. rewrite <- Hp in Hin. by apply Hk.
  - intros a Ha. destruct (Hf a Ha). split; [by apply Hh|done].
Qed.

Lemma inv_drop cs response extra m :
  (∀ r, response = Some r → waiting m !! r = None) → messages_inv cs (response :: extra) m → messages_inv cs extra m.
Proof.
  intros Hn [Hb Hw Hk Hf]. split; [done| | |done].
  - intros r c Hc. specialize (Hw r c Hc). rewrite Permutation_app_comm in Hw. cbn in Hw. apply elem_of_cons in Hw as [Heq|Hin].
    + specialize (Hn r (eq_sym Heq)). congruence.
    + by rewrite Permutation_app_comm.
  - intros r Hin. apply Hk. rewrite elem_of_app in *. rewrite elem_of_cons. tauto.
Qed.

Lemma inv_none cs extra m : messages_inv cs extra m → messages_inv cs (None :: extra) m.
Proof.
  intros [Hb Hw Hk Hf]. split; [done| | |done].
  - intros r c Hc%Hw. rewrite elem_of_app, elem_of_cons in *. tauto.
  - intros r Hin. apply Hk. rewrite elem_of_app, elem_of_cons in *. naive_solver.
Qed.

Lemma waiting_lookup m r : waiting m !! r = responses m !! r ≫= waiting_callback.
Proof. apply lookup_omap. Qed.

Lemma move_callback_inv cs extra r c t m :
  waiting m !! r = Some c → task_callback t = c → messages_inv cs extra m →
  messages_inv cs extra (move_callback r t m) ∧ waiting (move_callback r t m) !! r = None.
Proof.
  intros Hc <- [Hb Hw Hk Hf].
  assert (Hwait : waiting (move_callback r t m) = delete r (waiting m)).
  { unfold waiting, move_callback. cbn. by rewrite omap_insert_None. }
  split; [|by rewrite Hwait, lookup_delete_eq]. split.
  - rewrite Hwait. apply (balanced_settle _ _ _ r (task_callback t)) in Hb; [|done]. unfold balanced in *. rewrite Hb.
    unfold settled. cbn. rewrite fmap_app. cbn. solve_Permutation.
  - intros r' c'. rewrite Hwait. intros [_ Hc']%lookup_delete_Some. by eapply Hw.
  - intros r' Hin. cbn. destruct (decide (r' = r)) as [->|Hne]; [by rewrite lookup_insert_eq|].
    rewrite lookup_insert_ne by done. by apply Hk.
  - intros a Ha. cbn in *. destruct (Hf a Ha). split; [done|]. rewrite lookup_insert_ne; [done|].
    intros ->. rewrite waiting_lookup in Hc. destruct (responses m !! a); [|done]. congruence.
Qed.

Lemma complete_inv cs extra r data m :
  is_Some (responses m !! r) → messages_inv cs extra m →
  ∃ m', complete r data m ⇓ m' ∧ messages_inv cs extra m' ∧ waiting m' !! r = None ∧ handles m' = handles m.
Proof.
  intros [response Hr] Hi. unfold complete. rewrite Hr. cbn. pose proof (waiting_lookup m r) as Hl. rewrite Hr in Hl. cbn in Hl.
  destruct response as [[c|]|callback user_data]; cbn in Hl.
  - destruct (move_callback_inv cs extra r c (InvokeCallback c data) m Hl eq_refl Hi). eauto.
  - eauto.
  - eexists. split; [reflexivity|]. split; [|by split].
    eapply (inv_shift cs extra extra); [..|exact Hi]; try done. unfold holders. cbn. by rewrite omap_app, app_nil_r.
Qed.

Lemma complete_if_inv cs extra response data m :
  messages_inv cs (response :: extra) m →
  ∃ m', complete_if response data m ⇓ m' ∧ messages_inv cs extra m' ∧ messages_inv cs (response :: extra) m' ∧ handles m' = handles m.
Proof.
  intros Hi. destruct response as [r|]; cbn.
  - destruct (complete_inv cs (Some r :: extra) r data m) as (m' & Hm & Hi' & Hn & Hh); [|done|].
    { apply (inv_known _ _ _ Hi). set_solver. }
    exists m'. split; [done|]. split; [|done]. eapply inv_drop; [|exact Hi']. by intros ? [= <-].
  - exists m. split; [done|]. split; [|done]. by eapply inv_drop; [|exact Hi].
Qed.

Lemma drop_response_inv cs response extra m :
  messages_inv cs (response :: extra) m → messages_inv cs extra (drop_response response m).
Proof.
  intros Hi. unfold drop_response. destruct response as [r|]; [|by eapply inv_drop; [|exact Hi]].
  destruct (inv_known _ _ _ Hi r) as [[[c|]|?] Hr]; [set_solver|..]; rewrite Hr; pose proof (waiting_lookup m r) as Hl;
    rewrite Hr in Hl; cbn in Hl; [|by eapply inv_drop; [|exact Hi]; intros ? [= <-]..].
  destruct (move_callback_inv cs (Some r :: extra) r c (ClearCallback c) m Hl eq_refl Hi) as [Hi' Hn].
  eapply inv_drop; [|exact Hi']. by intros ? [= <-].
Qed.

Lemma free_handle_inv cs h message m :
  handles m !! h = Some message → messages_inv cs [] m → messages_inv cs [] (free_handle h message m).
Proof.
  intros Hh Hi. apply drop_response_inv. eapply inv_shift; [..|exact Hi]; try done.
  - intros a _ Ha. cbn. rewrite lookup_delete_None. by right.
  - unfold holders. cbn. rewrite <- (map_to_list_delete (handles m) h message Hh). cbn. solve_Permutation.
Qed.

Lemma allocate_inv cs extra m : messages_inv cs extra m → messages_inv cs extra (allocate m).2.
Proof. intros [Hb Hw Hk Hf]. split; try done. intros a Ha. cbn in *. apply Hf. lia. Qed.

Lemma add_handle_inv cs extra h message m :
  handles m !! h = None → (h < next_address m)%nat → messages_inv cs (response_ message :: extra) m →
  messages_inv cs extra (set_handles (<[h := message]> (handles m)) m).
Proof.
  intros Hh Hlt Hi. eapply inv_shift; [..|exact Hi]; try done.
  - intros a Ha Hn. cbn. by rewrite lookup_insert_ne by lia.
  - unfold holders. cbn. rewrite map_to_list_insert by done. cbn. solve_Permutation.
Qed.

Lemma new_response_inv cs extra r response m :
  responses m !! r = None → (r < next_address m)%nat → messages_inv cs extra m →
  messages_inv (cs ++ option_list (waiting_callback response)) (Some r :: extra)
    (set_responses (<[r := response]> (responses m)) m).
Proof.
  intros Hr Hlt [Hb Hw Hk Hf].
  assert (Hn : waiting m !! r = None) by (by rewrite waiting_lookup, Hr).
  assert (Hin : ∀ r', Some r' ∈ holders m ++ Some r :: extra ↔ r' = r ∨ Some r' ∈ holders m ++ extra).
  { intros r'. rewrite !elem_of_app, elem_of_cons. naive_solver. }
  split.
  - unfold waiting. cbn. destruct (waiting_callback response) as [c|] eqn:Hc; cbn.
    + rewrite (omap_insert_Some _ _ _ _ c) by done. by apply balanced_issue.
    + rewrite omap_insert_None by done. rewrite delete_id by done. by rewrite app_nil_r.
  - intros r' c'. rewrite waiting_lookup. cbn. change (holders _) with (holders m). rewrite Hin.
    destruct (decide (r' = r)) as [->|Hne]; [by left|]. rewrite lookup_insert_ne by done. rewrite <- waiting_lookup. intros Hc'. right. by eapply Hw.
  - intros r' Hin'. change (holders _) with (holders m) in Hin'. apply Hin in Hin' as [->|Hin']; cbn; [by rewrite lookup_insert_eq|].
    destruct (decide (r' = r)) as [->|Hne]; [by rewrite lookup_insert_eq|]. rewrite lookup_insert_ne by done. by apply Hk.
  - intros a Ha. cbn in *. rewrite lookup_insert_ne by lia. by apply Hf.
Qed.

Lemma HandlePlatformMessage_inv cs message m :
  messages_inv cs [response_ message] m → ∃ m', HandlePlatformMessage message m ⇓ m' ∧ messages_inv cs [] m'.
Proof.
  intros Hi. unfold HandlePlatformMessage. destruct platform_message_callback; cbn [negb].
  - eexists. split; [reflexivity|]. apply add_handle_inv; [by apply (inv_fresh _ _ _ Hi)|cbn; lia|]. by apply allocate_inv.
  - destruct (complete_if_inv cs [] (response_ message) None m Hi) as (m' & Hm & Hi' & _). eauto.
Qed.

Lemma OnEngineHandlePlatformMessage_inv cs message m :
  messages_inv cs [response_ message] m → messages_inv cs [] (OnEngineHandlePlatformMessage message m).
Proof.
  intros Hi. unfold OnEngineHandlePlatformMessage, HandleEngineSkiaMessage. case_bool_decide; [case_match|].
  - eapply inv_shift; [..|exact Hi]; try done. unfold holders. cbn. rewrite fmap_app. cbn. solve_Permutation.
  - by apply drop_response_inv.
  - eapply inv_shift; [..|exact Hi]; try done. unfold holders. cbn. rewrite omap_app, fmap_app. cbn. solve_Permutation.
Qed.

Lemma HandleAssetPlatformMessage_inv cs assets message m :
  messages_inv cs [response_ message] m → ∃ m', HandleAssetPlatformMessage assets message m ⇓ m' ∧ messages_inv cs [] m'.
Proof.
  intros Hi. unfold HandleAssetPlatformMessage. destruct (response_ message) as [r|]; [|exists m; split; [done|by eapply inv_drop; [|exact Hi]]].
  match goal with |- context [complete r ?d m] => destruct (complete_if_inv cs [] (Some r) d m Hi) as (m' & Hm & _ & Hi' & _) end.
  cbn [complete_if] in Hm. rewrite Hm. eexists. split; [reflexivity|]. by apply drop_response_inv.
Qed.

Lemma Engine_HandlePlatformMessage_inv cs assets message m :
  messages_inv cs [response_ message] m → ∃ m', Engine_HandlePlatformMessage assets message m ⇓ m' ∧ messages_inv cs [] m'.
Proof.
  intros Hi. unfold Engine_HandlePlatformMessage. case_bool_decide; [by apply HandleAssetPlatformMessage_inv|].
  eexists. split; [reflexivity|]. by apply OnEngineHandlePlatformMessage_inv.
Qed.

Lemma SendPlatformMessage_inv cs window assets name callback data m :
  messages_inv cs [] m →
  ∃ error m', SendPlatformMessage window assets name callback data m ⇓ (error, m') ∧
    messages_inv (cs ++ (if window then option_list callback else [])) [] m'.
Proof.
  intros Hi. unfold SendPlatformMessage. destruct window; cbn [negb]; [|eexists _, m; split; [reflexivity|by rewrite app_nil_r]].
  assert (Hsend : ∀ cs' response m1, messages_inv cs' [response] m1 →
    ∃ m', Engine_HandlePlatformMessage assets
      match data with None => mkMessage name "" false response | Some data => mkMessage name data true response end m1 ⇓ m' ∧ messages_inv cs' [] m').
  { intros cs' response m1 H1. destruct data; by apply Engine_HandlePlatformMessage_inv. }
  destruct callback as [c|]; cbn [option_list allocate].
  - pose proof (new_response_inv _ _ (next_address m) (DartResponse (Some c)) (allocate m).2
      (proj2 (inv_fresh _ _ _ Hi _ (Nat.le_refl _))) (Nat.lt_succ_diag_r _) (allocate_inv _ _ _ Hi)) as Hi'.
    destruct (Hsend _ _ _ Hi') as (m' & Hm & Hi2). cbn [allocate snd] in Hm. rewrite Hm. eexists _, _. by split.
  - rewrite app_nil_r. destruct (Hsend _ _ _ (inv_none _ _ _ Hi)) as (m' & -> & Hi2). eexists _, _. by split.
Qed.

Lemma Create_inv cs engine callback user_data out m :
  messages_inv cs [] m → messages_inv cs [] (FlutterPlatformMessageCreateResponseHandle engine callback user_data out m).2.
Proof.
  intros Hi. unfold FlutterPlatformMessageCreateResponseHandle. destruct engine, callback as [c|], out; try done. cbn.
  pose proof (new_response_inv _ _ (S (next_address m)) (EmbedderResponse c user_data) (allocate (allocate m).2).2
    (proj2 (inv_fresh _ _ _ Hi _ (Nat.le_succ_diag_r _))) (Nat.lt_succ_diag_r _) (allocate_inv _ _ _ (allocate_inv _ _ _ Hi))) as Hi'.
  rewrite app_nil_r in Hi'.
  refine (add_handle_inv _ _ _ (mkMessage "" "" false (Some _)) _ _ _ Hi'); [apply (inv_fresh _ _ _ Hi); done|cbn; lia].
Qed.

Lemma Answer_inv cs h message data n m :
  handles m !! h = Some message → messages_inv cs [] m →
  ∃ code m', FlutterEngineSendPlatformMessageResponse (Some h) data n m ⇓ (code, m') ∧ messages_inv cs [] m'.
Proof.
  intros Hh Hi. unfold FlutterEngineSendPlatformMessageResponse. case_match; [eauto|]. cbn. rewrite Hh. cbn.
  assert (∃ m', complete_if (response_ message) (if n =? 0 then None else Some (String.substring 0 (Z.to_nat n) (default ""%string data))) m ⇓ m' ∧
    messages_inv cs [] m' ∧ handles m' = handles m) as (m' & Hm & Hi' & Hh').
  { destruct (response_ message) as [r|] eqn:Hr; [|by exists m]. cbn.
    edestruct (complete_inv cs [] r) as (m' & Hm & Hi' & _ & Hh'); [|exact Hi|eauto].
    apply (inv_known _ _ _ Hi). rewrite elem_of_app. left. unfold holders. rewrite elem_of_app. left. rewrite <- Hr.
    apply list_elem_of_fmap. exists message. split; [done|]. apply list_elem_of_fmap. exists (h, message). split; [done|]. by apply elem_of_map_to_list. }
  rewrite Hm. cbn. eexists _, _. split; [reflexivity|]. apply free_handle_inv; [by rewrite Hh'|done].
Qed.

Lemma Release_inv cs engine h message m :
  handles m !! h = Some message → messages_inv cs [] m →
  ∃ code m', FlutterPlatformMessageReleaseResponseHandle engine (Some h) m ⇓ (code, m') ∧ messages_inv cs [] m'.
Proof.
  intros Hh Hi. destruct engine; cbn; [|eauto]. rewrite Hh. cbn. eexists _, _. split; [reflexivity|]. by apply free_handle_inv.
Qed.

Lemma run_platform_task_inv cs alive m :
  messages_inv cs [] m → ∃ m', run_platform_task alive m ⇓ m' ∧ messages_inv cs [] m'.
Proof.
  intros Hi. unfold run_platform_task. destruct (platform_tasks m) as [|[message|callback user_data data] tasks] eqn:Ht; [eauto|..].
  - assert (Hi' : messages_inv cs [response_ message] (set_platform_tasks tasks m)).
    { eapply inv_shift; [..|exact Hi]; try done. unfold holders. rewrite Ht. cbn. solve_Permutation. }
    destruct alive; [by apply HandlePlatformMessage_inv|]. eexists. split; [reflexivity|]. by apply drop_response_inv.
  - eexists. split; [reflexivity|]. eapply inv_shift; [..|exact Hi]; try done. unfold holders. by rewrite Ht.
Qed.

Lemma run_gpu_task_inv cs m : messages_inv cs [] m → ∃ m', run_gpu_task m ⇓ m' ∧ messages_inv cs [] m'.
Proof.
  intros Hi. unfold run_gpu_task. destruct (gpu_tasks m) as [|[n response] tasks] eqn:Ht; [eauto|].
  destruct (complete_if_inv cs [] response (Some "[true]"%string) (set_gpu_tasks tasks m)) as (m' & Hm & Hi' & _); [|eauto].
  eapply inv_shift; [..|exact Hi]; try done. unfold holders. rewrite Ht. cbn. solve_Permutation.
Qed.

Lemma message_ui_task_inv cs alive m : messages_inv cs [] m → messages_inv cs [] (run_ui_task alive m).
Proof.
  intros Hi. unfold run_ui_task. destruct (ui_tasks m) as [|t tasks] eqn:Ht; [done|].
  assert (Hs : ∀ calls drops, calls.*1 ++ drops = [task_callback t] →
    messages_inv cs [] (mkMessages (handles m) (responses m) (next_address m) (platform_tasks m) (gpu_tasks m) tasks (told m)
      (invoked m ++ calls) (dropped m ++ drops))).
  { intros calls drops Hc. destruct Hi as [Hb Hw Hk Hf]. split; try done. unfold balanced in *. rewrite Hb. unfold settled, waiting.
    cbn. rewrite Ht, fmap_app. cbn. assert (Hp : ∀ l, task_callback t :: l = (calls.*1 ++ drops) ++ l) by (intros; by rewrite Hc).
    rewrite Hp. solve_Permutation. }
  destruct t, alive; by apply Hs.
Qed.

Lemma message_step_inv cs e m m' :
  messages_inv cs [] m → message_step e m ⇓ m' → messages_inv (cs ++ sent [e]) [] m'.
Proof.
  intros Hi Hs. assert (Hkeep : messages_inv cs [] m' → sent [e] = [] → messages_inv (cs ++ sent [e]) [] m') by (intros ? ->; by rewrite app_nil_r).
  destruct e as [window assets name callback data|h data n|callback user_data out|h|r data|alive| |alive]; cbn [message_step] in Hs.
  - apply bind_Ok in Hs as ([error m1] & Hs & [= <-]).
    destruct (SendPlatformMessage_inv cs window assets name callback data m Hi) as (error' & m2 & Hs' & Hi2).
    rewrite Hs in Hs'. injection Hs' as _ <-. by destruct window, callback.
  - apply Hkeep; [|done]. apply bind_Ok in Hs as ([code m1] & Hs & [= <-]). destruct h as [h|].
    + destruct (handles m !! h) as [message|] eqn:Hh.
      * destruct (Answer_inv cs h message data n m Hh Hi) as (code' & m2 & Hs' & Hi2). congruence.
      * unfold FlutterEngineSendPlatformMessageResponse in Hs. case_match; [by injection Hs as _ <-|]. cbn in Hs. by rewrite Hh in Hs.
    + unfold FlutterEngineSendPlatformMessageResponse in Hs. case_match; [by injection Hs as _ <-|done].
  - apply Hkeep; [|done]. injection Hs as <-. exact (Create_inv cs true callback user_data out m Hi).
  - apply Hkeep; [|done]. apply bind_Ok in Hs as ([code m1] & Hs & [= <-]). destruct h as [h|]; [|by injection Hs as _ <-].
    apply bind_Ok in Hs as (message & Hh%of_option_Ok & [= _ <-]). by apply free_handle_inv.
  - apply Hkeep; [|done]. destruct (responses m !! r) as [response|] eqn:Hr; [|unfold complete in Hs; by rewrite Hr in Hs].
    destruct (complete_inv cs [] r data m) as (m2 & Hs' & Hi2 & _); [by rewrite Hr|done|congruence].
  - apply Hkeep; [|done]. destruct (run_platform_task_inv cs alive m Hi) as (m2 & Hs' & Hi2). congruence.
  - apply Hkeep; [|done]. destruct (run_gpu_task_inv cs m Hi) as (m2 & Hs' & Hi2). congruence.
  - apply Hkeep; [|done]. injection Hs as <-. by apply message_ui_task_inv.
Qed.

Lemma message_run_inv es cs m m' :
  messages_inv cs [] m → message_run es m ⇓ m' → messages_inv (cs ++ sent es) [] m'.
Proof.
  revert cs m. induction es as [|e es IH]; intros cs m Hi; cbn [message_run]; [intros [= <-]; by rewrite app_nil_r|].
  intros (m1 & Hs & Hr)%bind_Ok. apply (message_step_inv _ _ _ _ Hi) in Hs. specialize (IH _ _ Hs Hr).
  unfold sent in *. change (e :: es) with ([e] ++ es). by rewrite omap_app, app_assoc.
Qed.

(** A request for an asset posts its answer. *)
Lemma asset_answered assets c data m :
  ∃ m', SendPlatformMessage true assets kAssetChannel (Some c) data m ⇓ (None, m') ∧
    ui_tasks m' = ui_tasks m ++
      [InvokeCallback c (GetMapping <$> (manager ← assets; GetAsMapping (default ""%string data) manager))].
Proof.
  unfold SendPlatformMessage, Engine_HandlePlatformMessage, HandleAssetPlatformMessage, complete. cbn [negb allocate].
  destruct data; cbn; rewrite lookup_insert_eq; cbn; rewrite lookup_insert_eq; by eexists.
Qed.

(** What a caller must not do: use a handle that is not live, or complete a
    response that is not there. *)
Definition usable (e : MessageEvent) (m : Messages) : Prop :=
  match e with
  | EmbedderAnswers h _ _ | EmbedderReleases h => ∃ k, h = Some k ∧ is_Some (handles m !! k)
  | DartAnswers r _ => is_Some (responses m !! r)
  | _ => True
  end.

Lemma usable_returns cs e m : messages_inv cs [] m → usable e m → ∃ m', message_step e m ⇓ m'.
Proof.
  intros Hi Hu. destruct e as [window assets name callback data|h data n|callback user_data out|h|r data|alive| |alive]; cbn [message_step usable] in *; [| |by eexists|..].
  - destruct (SendPlatformMessage_inv cs window assets name callback data m Hi) as (error & m' & -> & _). by eexists.
  - destruct Hu as (k & -> & message & Hh). destruct (Answer_inv cs k message data n m Hh Hi) as (code & m' & -> & _). by eexists.
  - destruct Hu as (k & -> & message & Hh). destruct (Release_inv cs true k message m Hh Hi) as (code & m' & -> & _). by eexists.
  - destruct (complete_inv cs [] r data m Hu Hi) as (m' & -> & _). by eexists.
  - destruct (run_platform_task_inv cs alive m Hi) as (m' & -> & _). by eexists.
  - destruct (run_gpu_task_inv cs m Hi) as (m' & -> & _). by eexists.
  - by eexists.
Qed.

End api.
End Responses.

(** ** Dart objects *)

Module DartObjects.

(** [db_buffer]: null or an address; callbacks and user data are numbered. *)
Record FlutterEngineDartBuffer := mkDartBuffer {
  db_struct_size : Z;
  db_user_data : nat;
  db_buffer_collect_callback : closure;
  db_buffer : option nat;
  db_buffer_size : Z;
}.

Inductive FlutterEngineDartObject :=
  | ObjectNull
  | ObjectBool (b : bool)
  | ObjectInt32 (z : Z)
  | ObjectInt64 (z : Z)
  | ObjectDouble (d : double)
  | ObjectString (s : option string)
  | ObjectBuffer (buffer_value : option FlutterEngineDartBuffer)
  | ObjectOther (type : Z).

Inductive Dart_CObject :=
  | CNull
  | CBool (b : bool)
  | CInt32 (z : Z)
  | CInt64 (z : Z)
  | CDouble (d : double)
  | CString (s : string)
  | CTypedData (values : nat) (length : Z)
  | CExternalTypedData (data : nat) (length : Z) (peer : nat).

(** [peers]: the live [ExternalTypedDataPeer]s, user data and trampoline.
    [vm_owned]: the peers of external data the VM has taken and not yet
    finalized; [collected] logs the calls of embedders' callbacks. *)
Record DartHeap := mkDartHeap {
  peers : gmap nat (nat * nat);
  next_peer : nat;
  vm_owned : list nat;
  vm_received : list (Z * Dart_CObject);
  collected : list (nat * nat);
}.
Definition new_dart_heap : DartHeap := mkDartHeap ∅ 0 [] [] [].

Definition new_peer (user_data callback : nat) (h : DartHeap) : nat * DartHeap :=
  (next_peer h, mkDartHeap (<[next_peer h := (user_data, callback)]> (peers h)) (S (next_peer h)) (vm_owned h) (vm_received h) (collected h)).
Definition delete_peer (peer : nat) (h : DartHeap) : DartHeap :=
  mkDartHeap (delete peer (peers h)) (next_peer h) (vm_owned h) (vm_received h) (collected h).

(** The switch over the type: nothing for invalid arguments, else the object
    and the peer the finalizer of the scope deletes. *)
Definition dart_object_of (object : FlutterEngineDartObject) (h : DartHeap)
    : result (option (Dart_CObject * option nat) * DartHeap) :=
  let plain o := mret (Some (o, None), h) in
  match object with
  | ObjectNull => plain CNull
  | ObjectBool b => plain (CBool b)
  | ObjectInt32 z => plain (CInt32 z)
  | ObjectInt64 z => plain (CInt64 z)
  | ObjectDouble d => plain (CDouble d)
  | ObjectString None => mret (None, h)
  | ObjectString (Some s) => plain (CString s)
  | ObjectBuffer buffer_value =>
      b ← of_option NullDeref buffer_value;
      let size := db_struct_size b in
      match SAFE_ACCESS size 32 (db_buffer b) None with
      | None => mret (None, h)
      | Some buffer =>
          let buffer_size := SAFE_ACCESS size 40 (db_buffer_size b) 0 in
          match SAFE_ACCESS size 24 (db_buffer_collect_callback b) None with
          | None => plain (CTypedData buffer buffer_size)
          | Some callback =>
              let '(peer, h) := new_peer (SAFE_ACCESS size 16 (db_user_data b) 0%nat) callback h in
              mret (Some (CExternalTypedData buffer buffer_size peer, Some peer), h)
          end
      end
  | ObjectOther _ => mret (None, h)
  end.

Definition ILLEGAL_PORT : Z := 0.

(** What the VM holds after it accepted an object. *)
Definition vm_takes (port : Z) (o : Dart_CObject) (h : DartHeap) : DartHeap :=
  mkDartHeap (peers h) (next_peer h)
    (vm_owned h ++ match o with CExternalTypedData _ _ peer => [peer] | _ => [] end) (vm_received h ++ [(port, o)]) (collected h).

(** [posted]: the answer of [Dart_PostCObject]. *)
Definition FlutterEnginePostDartObject (running posted : bool) (port : Z) (object : option FlutterEngineDartObject)
    (h : DartHeap) : result (FlutterEngineResult * DartHeap) :=
  if negb running then mret (kInvalidArguments, h)
  else if port =? ILLEGAL_PORT then mret (kInvalidArguments, h)
  else
    match object with
    | None => mret (kInvalidArguments, h)
    | Some object =>
        '(converted, h) ← dart_object_of object h;
        match converted with
        | None => mret (kInvalidArguments, h)
        | Some (dart_object, typed_data_finalizer) =>
            if negb posted then mret (kInternalInconsistency, end_of_scope delete_peer typed_data_finalizer h)
            else
              let h := vm_takes port dart_object h in
              let '(_, typed_data_finalizer) := Release typed_data_finalizer in
              mret (kSuccess, end_of_scope delete_peer typed_data_finalizer h)
        end
    end.

(** The finalizer the VM calls for external data. *)
Definition finalize (peer : nat) (h : DartHeap) : result DartHeap :=
  '(user_data, trampoline) ← of_option UndefinedBehaviour (peers h !! peer);
  mret (delete_peer peer (mkDartHeap (peers h) (next_peer h) (vm_owned h) (vm_received h) (collected h ++ [(user_data, trampoline)]))).

(** The VM finalizes, once, one of the objects it holds. *)
Inductive DartEvent :=
  | PostObject (running posted : bool) (port : Z) (object : option FlutterEngineDartObject)
  | Collect (index : nat).
Definition dart_step (e : DartEvent) (h : DartHeap) : result DartHeap :=
  match e with
  | PostObject running posted port object => '(_, h) ← FlutterEnginePostDartObject running posted port object h; mret h
  | Collect i =>
      match vm_owned h !! i with
      | None => mret h
      | Some peer =>
          finalize peer (mkDartHeap (peers h) (next_peer h) (delete i (vm_owned h)) (vm_received h) (collected h))
      end
  end.
Fixpoint dart_run (es : list DartEvent) (h : DartHeap) : result DartHeap :=
  match es with [] => mret h | e :: es => h ← dart_step e h; dart_run es h end.

(** A call that hands a buffer with a callback over: its user data and
    callback. *)
Definition buffer_handed (object : FlutterEngineDartObject) : option (nat * nat) :=
  match object with
  | ObjectBuffer (Some b) =>
      _ ← SAFE_ACCESS (db_struct_size b) 32 (db_buffer b) None;
      callback ← SAFE_ACCESS (db_struct_size b) 24 (db_buffer_collect_callback b) None;
      Some (SAFE_ACCESS (db_struct_size b) 16 (db_user_data b) 0%nat, callback)
  | _ => None
  end.
Definition hands_over (e : DartEvent) : option (nat * nat) :=
  match e with
  | PostObject running posted port (Some object) =>
      if running && posted && negb (port =? ILLEGAL_PORT) then buffer_handed object else None
  | _ => None
  end.
Definition null_buffer (e : DartEvent) : bool :=
  match e with PostObject true _ port (Some (ObjectBuffer None)) => negb (port =? ILLEGAL_PORT) | _ => false end.

Record heap_inv (handed : list (nat * nat)) (h : DartHeap) : Prop := {
  hinv_balanced : balanced handed (collected h) (peers h);
  hinv_owned : ∀ p, is_Some (peers h !! p) ↔ p ∈ vm_owned h;
  hinv_nodup : NoDup (vm_owned h);
  hinv_fresh : ∀ p, p ∈ vm_owned h → (p < next_peer h)%nat;
}.

Lemma new_dart_heap_inv : heap_inv [] new_dart_heap.
Proof. split; [apply balanced_nil| |apply NoDup_nil_2|]; intros p; cbn; rewrite elem_of_nil; [|done]. split; [by intros []|done]. Qed.

(** What is left as it was, but for the addresses that were used. *)
Definition heap_kept (h h' : DartHeap) : Prop :=
  peers h' = peers h ∧ vm_owned h' = vm_owned h ∧ vm_received h' = vm_received h ∧ collected h' = collected h.

Lemma peer_free handed h : heap_inv handed h → peers h !! next_peer h = None.
Proof.
  intros [Hb Ho Hn Hf]. destruct (peers h !! next_peer h) eqn:Hp; [|done].
  assert (Hin : next_peer h ∈ vm_owned h) by (apply Ho; by rewrite Hp). specialize (Hf _ Hin). lia.
Qed.

Lemma heap_kept_inv handed h h' :
  heap_kept h h' → (next_peer h ≤ next_peer h')%nat → heap_inv handed h → heap_inv handed h'.
Proof.
  intros (Hp & Ho & _ & Hc) Hle [Hb Hown Hn Hf]. split; rewrite ?Hp, ?Ho, ?Hc; try done.
  intros p Hin%Hf. lia.
Qed.

(** The peer of a call that fails is deleted. *)
Lemma refused_kept u c h : peers h !! next_peer h = None → heap_kept h (delete_peer (next_peer h) (new_peer u c h).2).
Proof. intros Hf. split_and!; try done. cbn. by rewrite delete_insert_eq, delete_id. Qed.

Lemma handed_inv handed port buffer size u c h :
  heap_inv handed h →
  heap_inv (handed ++ [(u, c)]) (vm_takes port (CExternalTypedData buffer size (next_peer h)) (new_peer u c h).2).
Proof.
  intros Hi. pose proof (peer_free _ _ Hi) as Hfree. destruct Hi as [Hb Ho Hn Hf]. split; cbn.
  - by apply balanced_issue.
  - intros p. rewrite elem_of_app, list_elem_of_singleton. destruct (decide (p = next_peer h)) as [->|Hne].
    + rewrite lookup_insert_eq. split; [by right|done].
    + rewrite lookup_insert_ne by done. rewrite Ho. naive_solver.
  - apply NoDup_app. split_and!; [done| |apply NoDup_singleton]. intros p Hp ->%list_elem_of_singleton. specialize (Hf _ Hp). lia.
  - intros p. rewrite elem_of_app, list_elem_of_singleton. intros [Hp| ->]; [specialize (Hf _ Hp)|]; lia.
Qed.

Lemma plain_inv handed port o h :
  match o with CExternalTypedData _ _ _ => False | _ => True end → heap_inv handed h → heap_inv handed (vm_takes port o h).
Proof. intros Ho [Hb Hown Hn Hf]. destruct o; try done; split; cbn; rewrite ?app_nil_r; done. Qed.

Definition plain (o : Dart_CObject) : Prop := match o with CExternalTypedData _ _ _ => False | _ => True end.

Lemma dart_object_of_cases object h :
  object ≠ ObjectBuffer None →
  (buffer_handed object = None ∧ dart_object_of object h ⇓ (None, h)) ∨
  (buffer_handed object = None ∧ ∃ o, plain o ∧ dart_object_of object h ⇓ (Some (o, None), h)) ∨
  ∃ u c buffer size, buffer_handed object = Some (u, c) ∧
    dart_object_of object h ⇓ (Some (CExternalTypedData buffer size (next_peer h), Some (next_peer h)), (new_peer u c h).2).
Proof.
  intros Hne. destruct object as [|b|z|z|d|[s|]|[b|]|t]; try done; try (by left); try (by right; left; split; [|eexists; split; [|reflexivity]]).
  cbn [buffer_handed dart_object_of of_option mbind result_bind option_bind].
  destruct (SAFE_ACCESS (db_struct_size b) 32 (db_buffer b) None) as [buffer|]; cbn; [|by left].
  destruct (SAFE_ACCESS (db_struct_size b) 24 (db_buffer_collect_callback b) None) as [callback|]; cbn.
  - right. right. by eexists _, _, _, _.
  - right. left. split; [done|]. by eexists (CTypedData _ _).
Qed.

Lemma post_object_inv handed running posted port object h :
  let e := PostObject running posted port object in
  null_buffer e = false → heap_inv handed h →
  ∃ code h', FlutterEnginePostDartObject running posted port object h ⇓ (code, h') ∧
    heap_inv (handed ++ option_list (hands_over e)) h' ∧ (code ≠ kSuccess → heap_kept h h').
Proof.
  intros e Hnull Hi. assert (Hsame : hands_over e = None → heap_inv (handed ++ option_list (hands_over e)) h).
  { intros ->. by rewrite app_nil_r. }
  unfold FlutterEnginePostDartObject. destruct running; cbn [negb]; [|eexists _, _; split; [reflexivity|]; split; [|done]; apply Hsame; by destruct object].
  destruct (port =? ILLEGAL_PORT) eqn:Hport; [eexists _, _; split; [reflexivity|]; split; [|done]; apply Hsame|].
  { destruct object; [|done]. cbn. by rewrite Hport, andb_false_r. }
  destruct object as [object|]; [|eexists _, _; split; [reflexivity|]; split; [by apply Hsame|done]].
  destruct (dart_object_of_cases object h) as [[Hh ->]|[(Hh & o & Ho & ->)|(u & c & buffer & size & Hh & ->)]].
  { intros ->. unfold e in Hnull. cbn in Hnull. by rewrite Hport in Hnull. }
  - cbn. eexists _, _. split; [reflexivity|]. split; [|done]. apply Hsame. cbn. rewrite Hh. by destruct (_ && _).
  - cbn [mbind result_bind]. assert (Hn : hands_over e = None) by (cbn; rewrite Hh; by destruct (_ && _)). rewrite Hn, app_nil_r.
    destruct posted; cbn; eexists _, _; (split; [reflexivity|]); split; try done. by apply plain_inv.
  - cbn [mbind result_bind]. destruct posted; cbn [negb Release]; eexists _, _; (split; [reflexivity|]); cbn [end_of_scope].
    + split; [|done]. cbn [hands_over e]. unfold e. cbn. rewrite Hport, Hh. by apply handed_inv.
    + pose proof (refused_kept u c h (peer_free _ _ Hi)) as Hk. split; [|done].
      unfold e. cbn [hands_over]. rewrite app_nil_r. eapply heap_kept_inv; [exact Hk|cbn; lia|done].
Qed.

Lemma collect_inv handed i p h :
  heap_inv handed h → vm_owned h !! i = Some p →
  ∃ h', dart_step (Collect i) h ⇓ h' ∧ heap_inv handed h'.
Proof.
  intros [Hb Ho Hn Hf] Hi. cbn. rewrite Hi. assert (Hin : p ∈ vm_owned h) by (by eapply list_elem_of_lookup_2).
  destruct (proj2 (Ho p) Hin) as [[u c] Hp]. unfold finalize. cbn. rewrite Hp. cbn. eexists. split; [reflexivity|].
  assert (Hperm : vm_owned h ≡ₚ p :: delete i (vm_owned h)) by (by apply delete_Permutation).
  set (rest := delete i (vm_owned h)) in *. rewrite Hperm in Hn. apply NoDup_cons in Hn as [Hnin Hn]. split; cbn.
  - by apply balanced_settle.
  - intros q. destruct (decide (q = p)) as [->|Hne]; [rewrite lookup_delete_eq; split; [by intros []|done]|].
    rewrite lookup_delete_ne, Ho, Hperm, elem_of_cons by done. naive_solver.
  - done.
  - intros q Hq. apply Hf. rewrite Hperm. by apply list_elem_of_further.
Qed.

Lemma dart_step_inv handed e h :
  null_buffer e = false → heap_inv handed h →
  ∃ h', dart_step e h ⇓ h' ∧ heap_inv (handed ++ option_list (hands_over e)) h'.
Proof.
  intros Hn Hi. destruct e as [running posted port object|i].
  - destruct (post_object_inv handed running posted port object h Hn Hi) as (code & h' & He & Hi' & _). cbn. rewrite He. by eexists.
  - cbn [hands_over option_list]. rewrite app_nil_r. destruct (vm_owned h !! i) as [p|] eqn:Hp; [by eapply collect_inv|].
    exists h. cbn. by rewrite Hp.
Qed.

(** C20: Buffers of embedders are given back once.  Whatever is posted, whatever the
    VM accepts and whenever it finalizes what it holds, the callbacks of
    buffers that were called and those that are still owed are exactly those
    of the calls that handed a buffer over successfully; the VM holds each of
    those owed, and the engine holds no other peer.  A call that does not
    succeed calls nothing, leaves nothing behind and posts nothing.  The one
    fault is a buffer object without a buffer. *)
Theorem dart_buffers_collected_once es e :
  Forall (λ e, null_buffer e = false) es →
  ∃ h, dart_run es new_dart_heap ⇓ h ∧
    omap hands_over es ≡ₚ collected h ++ (map_to_list (peers h)).*2 ∧
    (∀ p, is_Some (peers h !! p) ↔ p ∈ vm_owned h) ∧ NoDup (vm_owned h) ∧
    (∀ running posted port object, e = PostObject running posted port object → null_buffer e = false →
      ∃ code h', FlutterEnginePostDartObject running posted port object h ⇓ (code, h') ∧ (code ≠ kSuccess → heap_kept h h')).
Proof.
  intros Hes.
  assert (Hrun : ∀ handed h, heap_inv handed h → ∃ h', dart_run es h ⇓ h' ∧ heap_inv (handed ++ omap hands_over es) h').
  { induction Hes as [|x es Hx _ IH]; intros handed h Hi; [exists h; by rewrite app_nil_r|].
    destruct (dart_step_inv handed x h Hx Hi) as (h1 & Hs & Hi1). destruct (IH _ _ Hi1) as (h2 & Hr & Hi2).
    exists h2. cbn [dart_run]. rewrite Hs. split; [done|]. change (x :: es) with ([x] ++ es). rewrite omap_app, app_assoc. cbn. by destruct (hands_over x). }
  destruct (Hrun [] new_dart_heap new_dart_heap_inv) as (h & Hr & Hi). exists h. split; [done|]. split; [apply (hinv_balanced _ _ Hi)|].
  split; [apply (hinv_owned _ _ Hi)|]. split; [apply (hinv_nodup _ _ Hi)|].
  intros running posted port object -> Hn. destruct (post_object_inv _ running posted port object h Hn Hi) as (code & h' & ? & _ & ?). eauto.
Qed.
End DartObjects.

(** ** Backing stores *)

Module BackingStores.

Inductive FlutterBackingStoreType := OpenGLTexture | OpenGLFramebuffer | OpenGLOther | Software | StoreOther.

(** What the embedder fills in: [bs_id] stands for the store, and
    [bs_same_size] tells whether it left [struct_size] alone. *)
Record FlutterBackingStore := mkBackingStore {
  bs_id : nat;
  bs_same_size : bool;
  bs_type : FlutterBackingStoreType;
  bs_destruction_callback : closure;
}.

(** [targets]: the live [EmbedderRenderTarget]s with the store their
    [on_release_] collects. *)
Record Stores := mkStores {
  targets : gmap nat nat;
  next_target : nat;
  stores_collected : list nat;
  destroyed : list nat;
}.
Definition no_stores : Stores := mkStores ∅ 0 [] [].

Definition collect_store (id : nat) (s : Stores) : Stores :=
  mkStores (targets s) (next_target s) (stores_collected s ++ [id]) (destroyed s).

(** The three overloads: [made] is Skia's answer, and what it refuses is given
    back at once. *)
Definition MakeSkSurfaceFromBackingStore (made : bool) (store : FlutterBackingStore) (s : Stores) : result (bool * Stores) :=
  if made then mret (true, s)
  else
    callback ← of_option NullDeref (bs_destruction_callback store);
    mret (false, mkStores (targets s) (next_target s) (stores_collected s) (destroyed s ++ [callback])).

(** [answer]: the store of [create_backing_store_callback], none for false. *)
Definition CreateEmbedderRenderTarget (answer : option FlutterBackingStore) (made : bool) (s : Stores)
    : result (option nat * Stores) :=
  match answer with
  | None => mret (None, s)
  | Some store =>
      if negb (bs_same_size store) then mret (None, s)
      else
        let collect_callback := Some (bs_id store) in
        '(surface, s) ← (match bs_type store with
                         | OpenGLTexture | OpenGLFramebuffer | Software => MakeSkSurfaceFromBackingStore made store s
                         | OpenGLOther | StoreOther => mret (false, s)
                         end);
        if negb surface then mret (None, end_of_scope collect_store collect_callback s)
        else
          let '(on_release, collect_callback) := Release collect_callback in
          let target := next_target s in
          let s := mkStores (match on_release with Some id => <[target := id]> (targets s) | None => targets s end)
                     (S target) (stores_collected s) (destroyed s) in
          mret (Some target, end_of_scope collect_store collect_callback s)
  end.

(** [~EmbedderRenderTarget] *)
Definition destroy_target (target : nat) (s : Stores) : Stores :=
  match targets s !! target with
  | Some id => collect_store id (mkStores (delete target (targets s)) (next_target s) (stores_collected s) (destroyed s))
  | None => s
  end.

Inductive StoreEvent := CreateTarget (answer : option FlutterBackingStore) (made : bool) | DestroyTarget (target : nat).
Definition store_step (e : StoreEvent) (s : Stores) : result Stores :=
  match e with
  | CreateTarget answer made => '(_, s) ← CreateEmbedderRenderTarget answer made s; mret s
  | DestroyTarget t => mret (destroy_target t s)
  end.
Fixpoint store_run (es : list StoreEvent) (s : Stores) : result Stores :=
  match es with [] => mret s | e :: es => s ← store_step e s; store_run es s end.

(** The stores an embedder made and left of the size it was given. *)
Definition provided (e : StoreEvent) : option nat :=
  match e with
  | CreateTarget (Some store) _ => if bs_same_size store then Some (bs_id store) else None
  | _ => None
  end.

Definition stores_inv (made : list nat) (s : Stores) : Prop :=
  balanced made (stores_collected s) (targets s) ∧ ∀ t, (next_target s ≤ t)%nat → targets s !! t = None.

Lemma CreateEmbedderRenderTarget_inv provided_ answer made s o s' :
  stores_inv provided_ s → CreateEmbedderRenderTarget answer made s ⇓ (o, s') →
  stores_inv (provided_ ++ option_list (provided (CreateTarget answer made))) s'.
Proof.
  intros [Hb Hf]. unfold CreateEmbedderRenderTarget. destruct answer as [store|]; [|intros [= _ <-]; cbn; by rewrite app_nil_r].
  cbn [provided]. destruct (bs_same_size store); cbn [negb option_list]; [|intros [= _ <-]; by rewrite app_nil_r].
  intros ([surface s1] & Hm & Hr)%bind_Ok.
  assert (Hs1 : targets s1 = targets s ∧ next_target s1 = next_target s ∧ stores_collected s1 = stores_collected s).
  { unfold MakeSkSurfaceFromBackingStore in Hm. destruct (bs_type store), made; try (by injection Hm as _ <-);
      by apply bind_Ok in Hm as (callback & _ & [= _ <-]). }
  destruct Hs1 as (Ht & Hn & Hc). destruct surface; cbn in Hr; injection Hr as _ <-; unfold stores_inv; cbn; rewrite Ht, Hn, Hc; split.
  - apply balanced_issue; [by apply Hf|done].
  - intros t Hlt. rewrite lookup_insert_ne by lia. apply Hf. lia.
  - unfold balanced in *. rewrite Hb. solve_Permutation.
  - done.
Qed.

(** Backing stores are collected once: those an embedder made are those that
    were collected and those of the render targets that are alive, whatever
    Skia accepts and in whatever order targets go away. *)
Theorem backing_stores_collected_once es s :
  store_run es no_stores ⇓ s → omap provided es ≡ₚ stores_collected s ++ (map_to_list (targets s)).*2.
Proof.
  intros Hr. cut (stores_inv (omap provided es) s); [by intros [Hb _]|].
  assert (Hrun : ∀ made s0, stores_inv made s0 → store_run es s0 ⇓ s → stores_inv (made ++ omap provided es) s).
  { clear Hr. induction es as [|e es IH]; intros made s0 Hi; cbn [store_run]; [intros [= <-]; by rewrite app_nil_r|].
    intros (s1 & Hs & Hr)%bind_Ok. change (e :: es) with ([e] ++ es). rewrite omap_app, app_assoc. apply (IH _ s1); [|done]. destruct e as [answer ok|t].
    - apply bind_Ok in Hs as ([o s2] & Hs & [= <-]). apply (CreateEmbedderRenderTarget_inv made) in Hs; [|done]. cbn [omap list_omap]. by destruct (provided (CreateTarget answer ok)).
    - injection Hs as <-. cbn. rewrite app_nil_r. unfold destroy_target. destruct (targets s0 !! t) as [id|] eqn:Ht; [|done].
      destruct Hi as [Hb Hf]. split; [by apply balanced_settle|]. intros t' Hle. cbn. rewrite lookup_delete_None. right. by apply Hf. }
  apply (Hrun [] no_stores); [|done]. split; [apply balanced_nil|done].
Qed.
End BackingStores.

(** ** Vsync batons *)

Module VsyncBatons.
Section batons.
Context {C : Type}.

(** [batons]: the allocated weak pointers, each to a waiter; [waiters]: the
    waiters that are alive. *)
Record Batons := mkBatons {
  batons : gmap nat nat;
  next_baton : nat;
  waiters : gmap nat (@VsyncWaiter.VsyncWaiter C);
  vsync_tasks : list (@VsyncTask C * TimePoint.t);
}.

(** The embedder is given the baton. *)
Definition VsyncWaiterEmbedder_AwaitVSync (waiter : nat) (b : Batons) : nat * Batons :=
  (next_baton b, mkBatons (<[next_baton b := waiter]> (batons b)) (S (next_baton b)) (waiters b) (vsync_tasks b)).

(** A null baton is none. *)
Definition OnEmbedderVsync (baton : option nat) (frame_start_time frame_target_time : TimePoint.t) (b : Batons)
    : result (bool * Batons) :=
  match baton with
  | None => mret (false, b)
  | Some baton =>
      waiter ← of_option UndefinedBehaviour (batons b !! baton);
      let b := mkBatons (delete baton (batons b)) (next_baton b) (waiters b) (vsync_tasks b) in
      match waiters b !! waiter with
      | None => mret (false, b)
      | Some w =>
          let '(tasks, w) := FireCallback frame_start_time frame_target_time w in
          mret (true, mkBatons (batons b) (next_baton b) (<[waiter := w]> (waiters b)) (vsync_tasks b ++ tasks))
      end
  end.

Definition FlutterEngineOnVsync (running : bool) (baton : option nat) (frame_start_time_nanos frame_target_time_nanos : Z)
    (b : Batons) : result (FlutterEngineResult * Batons) :=
  let start_time := TimePoint.FromEpochDelta (TimeDelta.FromNanoseconds (wrapS 64 frame_start_time_nanos)) in
  let target_time := TimePoint.FromEpochDelta (TimeDelta.FromNanoseconds (wrapS 64 frame_target_time_nanos)) in
  if negb running then mret (kInternalInconsistency, b)
  else
    '(ok, b) ← OnEmbedderVsync baton start_time target_time b;
    mret (if (ok : bool) then kSuccess else kInternalInconsistency, b).

(** A baton that was given to the embedder is good for one signal: on a running
    engine it is freed, and it fires the callbacks of its waiter if that is
    still alive; a second use of it is undefined behaviour. *)
Theorem baton_fires_once baton waiter start target b :
  batons b !! baton = Some waiter →
  ∃ code b', FlutterEngineOnVsync true (Some baton) start target b ⇓ (code, b') ∧ batons b' = delete baton (batons b) ∧
    (code = kSuccess ↔ is_Some (waiters b !! waiter)) ∧
    (∀ w, waiters b !! waiter = Some w → ∃ t1 t2, vsync_tasks b' = vsync_tasks b ++ (FireCallback t1 t2 w).1) ∧
    FlutterEngineOnVsync true (Some baton) start target b' ⇑ UndefinedBehaviour.
Proof.
  intros Hb. unfold FlutterEngineOnVsync. cbn. rewrite Hb. cbn. destruct (waiters b !! waiter) as [w|] eqn:Hw.
  - destruct (FireCallback _ _ w) as [tasks w'] eqn:Hf. eexists _, _. split; [reflexivity|]. cbn. split_and!; [done|done| |by rewrite lookup_delete_eq].
    intros ? [= <-]. eexists _, _. by rewrite Hf.
  - eexists _, _. split; [reflexivity|]. cbn. split_and!; [done| |done|by rewrite lookup_delete_eq]. split; [done|by intros []].
Qed.

End batons.
End VsyncBatons.

(** ** Examples *)

Import Responses DartObjects.

(** Dart sends two messages; the embedder answers one and releases the other,
    and the callbacks run. *)
Definition message_events : list MessageEvent :=
  [DartSends true None "battery" (Some 7%nat) (Some "level"%string); DartSends true None "log" (Some 8%nat) None;
   DartSends false None "log" (Some 6%nat) None; PlatformRuns true; PlatformRuns true;
   EmbedderAnswers (Some 2%nat) (Some "42"%string) 2; EmbedderReleases (Some 3%nat); UiRuns true; UiRuns true;
   DartSends true None kAssetChannel (Some 9%nat) (Some "icon"%string); UiRuns true].
Definition messages_end : Messages :=
  match message_run true (λ _, None) message_events no_messages with Ok m => m | Fault _ => no_messages end.


(** A buffer is accepted, another refused, and the VM finalizes the first. *)
Definition demo_buffer (user_data : nat) : FlutterEngineDartObject :=
  ObjectBuffer (Some (mkDartBuffer 40 user_data (Some 5%nat) (Some 64%nat) 16)).
Definition dart_events : list DartEvent :=
  [PostObject true true 3 (Some (demo_buffer 1)); PostObject true false 3 (Some (demo_buffer 2)); Collect 0].

Lemma dart_buffers_collected_once_witness :
  ∃ h, dart_run dart_events new_dart_heap ⇓ h ∧ [(1, 5)]%nat ≡ₚ collected h ++ (map_to_list (peers h)).*2 ∧
    collected h = [(1, 5)]%nat ∧ peers h = ∅.
Proof.
  destruct (dart_buffers_collected_once dart_events (Collect 0)) as (h & Hr & Hp & _); [by repeat constructor|].
  exists h. split; [exact Hr|]. split; [exact Hp|]. injection Hr as <-. split; [reflexivity|vm_compute; reflexivity].
Defined.
