(* ===== verification/ImageDecoder.v ===== *)
(** * ImageDecoder: images decoded across threads

    Model of [ImageDecoder] (lib/ui/painting/image_decoder.cc): an image is
    decompressed and resized on a worker, uploaded on the IO thread, and handed
    to its callback on the UI thread.  Skia's functions are a class; the IO
    manager, which may be gone by the time its task runs, is an input of that
    step.  Sizes are computed in [double]s, here as the Standard Library's
    specification floats. *)

From Stdlib Require Import ZArith Lia SpecFloat.
From stdpp Require Import base numbers list gmap sets relations.
From S2P Require Import Prelude UnrefQueue.

Local Open Scope Z_scope.

(** ** Data *)

Record SkImage := mkImage {
  image_id : nat;
  dimensions : Z * Z;
  isTextureBacked : bool;
}.

Record SkData := mkData { data_id : nat; data_size : Z }.

Record ImageInfo := mkImageInfo {
  sk_info : Z * Z;
  row_bytes : Z;
}.

Record ImageDescriptor := mkDescriptor {
  descriptor_data : option SkData;
  decompressed_image_info : option ImageInfo;
  target_width : option Z;
  target_height : option Z;
}.

(** What the decoder calls of Skia: raster images are not textures, and an
    image can be made of pixels that were read. *)
Class SkiaImages := {
  MakeRasterData : SkData → ImageInfo → option SkImage;
  MakeFromEncoded : SkData → option SkImage;
  makeRasterImage : SkImage → option SkImage;
  tryAllocPixels : Z * Z → bool;
  scalePixels : SkImage → Z * Z → bool;
  MakeFromBitmap : SkImage → Z * Z → option SkImage;
  peekPixels : SkImage → bool;
  MakeFromRaster : SkImage → option SkImage;
  MakeCrossContextFromPixmap : SkImage → option SkImage;
  MakeRasterData_raster d i x : MakeRasterData d i = Some x → isTextureBacked x = false;
  makeRasterImage_raster x y : makeRasterImage x = Some y → isTextureBacked y = false;
  MakeFromBitmap_raster x s y : MakeFromBitmap x s = Some y → isTextureBacked y = false;
  MakeFromRaster_some x : peekPixels x = true → is_Some (MakeFromRaster x);
}.

(** The IO manager as its task finds it. *)
Record IOManager := mkIOManager {
  resource_context : bool;
  unref_queue : bool;
  gpu_disabled : bool;
}.

(** ** Sizes *)

Definition isEmpty (size : Z * Z) : bool := (size.1 <=? 0) || (size.2 <=? 0).

(** An integer as a [double], and a [double] as an [int32_t]. *)
Definition double_of (z : Z) : spec_float := binary_normalize 53 1024 z 0 false.
Definition int_of (d : spec_float) : result Z :=
  match d with
  | S754_zero _ => mret 0
  | S754_finite s m e =>
      let t := if 0 <=? e then Zpos m * 2 ^ e else Zpos m / 2 ^ (- e) in
      let v := if s then - t else t in
      if in_s 32 v then mret v else Fault UndefinedBehaviour
  | _ => Fault UndefinedBehaviour
  end.

Definition GetResizedDimensions (current_size : Z * Z) (target_width target_height : option Z) : result (Z * Z) :=
  if isEmpty current_size then mret (0, 0)
  else
    match target_width, target_height with
    | Some w, Some h => mret (wrapS 32 w, wrapS 32 h)
    | _, _ =>
        let aspect_ratio := SFdiv 53 1024 (double_of current_size.1) (double_of current_size.2) in
        match target_width, target_height with
        | Some w, _ => h ← int_of (SFdiv 53 1024 (double_of w) aspect_ratio); mret (wrapS 32 w, h)
        | None, Some h => w ← int_of (SFmul 53 1024 (double_of h) aspect_ratio); mret (w, wrapS 32 h)
        | None, None => mret current_size
        end
    end.

Section decoder.
Context `{Build, SkiaImages}.

(** ** On the worker *)

Definition ResizeRasterImage (image : SkImage) (target_width target_height : option Z) : result (option SkImage) :=
  _ ← fml_dcheck (negb (isTextureBacked image));
  resized_dimensions ← GetResizedDimensions (dimensions image) target_width target_height;
  if isEmpty resized_dimensions then mret None
  else if bool_decide (resized_dimensions = dimensions image) then mret (Some image)
  else if negb (tryAllocPixels resized_dimensions) then mret None
  else if negb (scalePixels image resized_dimensions) then mret None
  else mret (MakeFromBitmap image resized_dimensions).

Definition ImageFromDecompressedData (data : SkData) (info : ImageInfo) (target_width target_height : option Z)
    : result (option SkImage) :=
  match MakeRasterData data info with
  | None => mret None
  | Some image => ResizeRasterImage image target_width target_height
  end.

Definition ImageFromCompressedData (data : SkData) (target_width target_height : option Z) : result (option SkImage) :=
  match MakeFromEncoded data with
  | None => mret None
  | Some decoded_image =>
      match makeRasterImage decoded_image with
      | None => mret None
      | Some decoded_image => ResizeRasterImage decoded_image target_width target_height
      end
  end.

(** ** On the IO thread *)

Definition no_gpu_object : SkiaGPUObject := mkSkiaGPUObject None false.

Definition UploadRasterImage (image : SkImage) (io_manager : IOManager) : result SkiaGPUObject :=
  _ ← fml_dcheck (negb (isTextureBacked image));
  if negb (resource_context io_manager) || negb (unref_queue io_manager) then mret no_gpu_object
  else if negb (peekPixels image) then mret no_gpu_object
  else if gpu_disabled io_manager then SkiaGPUObject_new (image_id <$> MakeFromRaster image) false
  else match MakeCrossContextFromPixmap image with
       | None => mret no_gpu_object
       | Some texture_image => SkiaGPUObject_new (Some (image_id texture_image)) true
       end.

(** ** The decoder and its tasks *)

(** Decodes by number: the tasks of the workers, of the IO thread and of the UI
    thread, and the callbacks that were called. *)
Record Decoder := mkDecoder {
  workers : list (nat * ImageDescriptor);
  io_tasks : list (nat * SkImage);
  ui_tasks : list (nat * SkiaGPUObject);
  called : list (nat * SkiaGPUObject);
}.

Definition new_decoder : Decoder := mkDecoder [] [] [] [].

Definition post_result (n : nat) (image : SkiaGPUObject) (d : Decoder) : Decoder :=
  mkDecoder (workers d) (io_tasks d) (ui_tasks d ++ [(n, image)]) (called d).

Definition Decode (n : nat) (descriptor : ImageDescriptor) (d : Decoder) : Decoder :=
  match descriptor_data descriptor with
  | Some data =>
      if data_size data =? 0 then post_result n no_gpu_object d
      else mkDecoder (workers d ++ [(n, descriptor)]) (io_tasks d) (ui_tasks d) (called d)
  | None => post_result n no_gpu_object d
  end.

(** The task of a worker. *)
Definition decompress (descriptor : ImageDescriptor) : result (option SkImage) :=
  data ← of_option NullDeref (descriptor_data descriptor);
  match decompressed_image_info descriptor with
  | Some info => ImageFromDecompressedData data info (target_width descriptor) (target_height descriptor)
  | None => ImageFromCompressedData data (target_width descriptor) (target_height descriptor)
  end.

Definition worker_task (n : nat) (descriptor : ImageDescriptor) (d : Decoder) : result Decoder :=
  decompressed ← decompress descriptor;
  mret (match decompressed with
        | None => post_result n no_gpu_object d
        | Some image => mkDecoder (workers d) (io_tasks d ++ [(n, image)]) (ui_tasks d) (called d)
        end).

(** The task of the IO thread. *)
Definition io_task (io_manager : option IOManager) (n : nat) (decompressed : SkImage) (d : Decoder) : result Decoder :=
  match io_manager with
  | None => mret (post_result n no_gpu_object d)
  | Some io_manager =>
      if negb (resource_context io_manager) then
        image ← SkiaGPUObject_new (Some (image_id decompressed)) (unref_queue io_manager); mret (post_result n image d)
      else
        uploaded ← UploadRasterImage decompressed io_manager;
        mret (post_result n (match object_ uploaded with None => no_gpu_object | Some _ => uploaded end) d)
  end.

(** Workers take their tasks in any order, the threads theirs in the order of
    posting. *)
Inductive decoder_step (d : Decoder) : result Decoder → Prop :=
  | step_worker before n descriptor after : workers d = before ++ (n, descriptor) :: after →
      decoder_step d (worker_task n descriptor (mkDecoder (before ++ after) (io_tasks d) (ui_tasks d) (called d)))
  | step_io io_manager n image rest : io_tasks d = (n, image) :: rest →
      decoder_step d (io_task io_manager n image (mkDecoder (workers d) rest (ui_tasks d) (called d)))
  | step_ui n image rest : ui_tasks d = (n, image) :: rest →
      decoder_step d (mret (mkDecoder (workers d) (io_tasks d) rest (called d ++ [(n, image)]))).

(** ** Runs *)

Inductive decoder_run : list nat → Decoder → Prop :=
  | decoder_start : decoder_run [] new_decoder
  | decoder_decode started d n descriptor : decoder_run started d → decoder_run (started ++ [n]) (Decode n descriptor d)
  | decoder_next started d d' : decoder_run started d → decoder_step d (Ok d') → decoder_run started d'.

(** The decodes in the order of their progress, and what is left to do. *)
Definition decodes (d : Decoder) : list nat := (workers d).*1 ++ (io_tasks d).*1 ++ (ui_tasks d).*1 ++ (called d).*1.
Definition work (d : Decoder) : nat := 3 * length (workers d) + 2 * length (io_tasks d) + length (ui_tasks d).

Record decoder_inv (started : list nat) (d : Decoder) : Prop := {
  inv_decodes : decodes d ≡ₚ started;
  inv_data : Forall (λ x, is_Some (descriptor_data x.2)) (workers d);
  inv_raster : Forall (λ x, isTextureBacked x.2 = false) (io_tasks d);
}.

(** One target alone: the other side follows the aspect ratio. *)
Definition one_target (w h : option Z) : bool :=
  match w, h with Some _, None | None, Some _ => true | _, _ => false end.

Lemma int_of_cases x : (∃ v, int_of x ⇓ v) ∨ int_of x ⇑ UndefinedBehaviour.
Proof. destruct x as [s|s| |s m e]; cbn; eauto. destruct (in_s _ _); eauto. Qed.

Lemma resized_cases size w h :
  (∃ v, GetResizedDimensions size w h ⇓ v) ∨ one_target w h = true ∧ GetResizedDimensions size w h ⇑ UndefinedBehaviour.
Proof.
  unfold GetResizedDimensions. destruct (isEmpty size); [left; by eexists|].
  destruct w as [w|], h as [h|]; cbn; try (left; by eexists).
  - destruct (int_of_cases (SFdiv 53 1024 (double_of w) (SFdiv 53 1024 (double_of size.1) (double_of size.2)))) as [[v ->]| ->]; eauto.
  - destruct (int_of_cases (SFmul 53 1024 (double_of h) (SFdiv 53 1024 (double_of size.1) (double_of size.2)))) as [[v ->]| ->]; eauto.
Qed.

(** An image that is not a texture comes out, or the size does not fit. *)
Definition decoded (w h : option Z) (m : result (option SkImage)) : Prop :=
  (∃ o, m ⇓ o ∧ ∀ x, o = Some x → isTextureBacked x = false) ∨ one_target w h = true ∧ m ⇑ UndefinedBehaviour.

Lemma decoded_none w h : decoded w h (mret None).
Proof. left. by eexists. Qed.

Lemma resize_cases image w h : isTextureBacked image = false → decoded w h (ResizeRasterImage image w h).
Proof.
  intros Hi. unfold decoded, ResizeRasterImage. rewrite Hi, fml_dcheck_true. cbn.
  destruct (resized_cases (dimensions image) w h) as [[v ->]|[Ht ->]]; [left|by right]. cbn.
  destruct (isEmpty v); [by eexists|]. case_bool_decide; [eexists; split; [done|]; by intros x [= <-]|].
  destruct (tryAllocPixels v), (scalePixels image v); cbn; try by eexists.
  eexists. split; [done|]. apply MakeFromBitmap_raster.
Qed.

Lemma decompress_cases descriptor :
  is_Some (descriptor_data descriptor) → decoded (target_width descriptor) (target_height descriptor) (decompress descriptor).
Proof.
  intros [data Hd]. unfold decompress. rewrite Hd. cbn. destruct (decompressed_image_info descriptor) as [info|].
  - unfold ImageFromDecompressedData. destruct (MakeRasterData data info) as [image|] eqn:Hm; [|apply decoded_none].
    apply resize_cases. by eapply MakeRasterData_raster.
  - unfold ImageFromCompressedData. destruct (MakeFromEncoded data) as [image|]; [|apply decoded_none].
    destruct (makeRasterImage image) as [raster|] eqn:Hm; [|apply decoded_none].
    apply resize_cases. by eapply makeRasterImage_raster.
Qed.

Lemma io_task_posts io_manager n image d :
  isTextureBacked image = false → ∃ o, io_task io_manager n image d ⇓ post_result n o d.
Proof.
  intros Hi. unfold io_task. destruct io_manager as [io|]; [|by eexists].
  destruct (resource_context io) eqn:Hr; cbn; [|unfold SkiaGPUObject_new; rewrite bool_decide_eq_true_2, fml_dcheck_true by done; by eexists].
  unfold UploadRasterImage. rewrite Hi, Hr, fml_dcheck_true. cbn. destruct (unref_queue io); cbn; [|by eexists].
  destruct (peekPixels image) eqn:Hp; cbn; [|by eexists]. destruct (gpu_disabled io).
  - destruct (MakeFromRaster_some image Hp) as [x ->]. unfold SkiaGPUObject_new. cbn. rewrite fml_dcheck_true. by eexists.
  - destruct (MakeCrossContextFromPixmap image); [|by eexists]. unfold SkiaGPUObject_new. cbn. rewrite fml_dcheck_true. by eexists.
Qed.

(** A size that does not fit: one target was given. *)
Definition size_overflows (d : Decoder) : Prop :=
  ∃ n descriptor, (n, descriptor) ∈ workers d ∧ one_target (target_width descriptor) (target_height descriptor) = true ∧
    decompress descriptor ⇑ UndefinedBehaviour.

(** A step does part of the work, unless it meets such a size. *)
Lemma decoder_step_ok started d res :
  decoder_inv started d → decoder_step d res →
  (∃ d', res = Ok d' ∧ decoder_inv started d' ∧ (work d' < work d)%nat) ∨ res = Fault UndefinedBehaviour ∧ size_overflows d.
Proof.
  intros [Hd Hdata Hraster] Hs. destruct Hs as [before n descriptor after Hw|io n image rest Hw|n image rest Hw].
  - rewrite Hw in *. apply Forall_app in Hdata as [Hb [Hx Ha]%Forall_cons]. cbn in Hx.
    destruct (decompress_cases descriptor Hx) as [(o & Ho & Hr)|[Ht Hbad]]; [left|right].
    2: { unfold worker_task. rewrite Hbad. split; [done|]. exists n, descriptor. split; [rewrite Hw; set_solver|done]. }
    unfold worker_task. rewrite Ho. cbn. eexists. split; [done|].
    unfold decodes, work in *. rewrite Hw in *. rewrite fmap_app, fmap_cons in Hd. destruct o as [x|]; cbn.
    + split; [split; cbn; [|by apply Forall_app|apply Forall_app; split; [done|]; constructor; [by apply Hr|constructor]]|].
      * rewrite <- Hd. unfold decodes. cbn. rewrite !fmap_app. cbn. solve_Permutation.
      * rewrite !length_app. cbn. lia.
    + split; [split; cbn; [|by apply Forall_app|done]|].
      * rewrite <- Hd. unfold decodes. cbn. rewrite !fmap_app. cbn. solve_Permutation.
      * rewrite !length_app. cbn. lia.
  - left. rewrite Hw in *. apply Forall_cons in Hraster as [Hi Hrest].
    destruct (io_task_posts io n image (mkDecoder (workers d) rest (ui_tasks d) (called d)) Hi) as [o ->]. eexists. split; [done|].
    unfold decodes, work in *. rewrite Hw in *. split; [split; cbn; [|done|done]|].
    + rewrite <- Hd. unfold decodes. cbn. rewrite !fmap_app. cbn. solve_Permutation.
    + cbn. rewrite length_app. cbn. lia.
  - left. eexists. split; [done|]. unfold decodes, work in *. rewrite Hw in *. split; [split; cbn; [|done|done]|].
    + rewrite <- Hd. unfold decodes. cbn. rewrite !fmap_app. cbn. solve_Permutation.
    + cbn. lia.
Qed.

Lemma decoder_run_inv started d : decoder_run started d → decoder_inv started d.
Proof.
  induction 1 as [|started d n descriptor _ [Hd Hdata Hraster]|started d d' _ Hi Hs].
  - split; by constructor.
  - unfold Decode. assert (Hpost : decoder_inv (started ++ [n]) (post_result n no_gpu_object d)).
    { split; cbn; [|done|done]. rewrite <- Hd. unfold decodes. cbn. rewrite !fmap_app. cbn. solve_Permutation. }
    destruct (descriptor_data descriptor) as [data|] eqn:Hdd; [|done]. destruct (data_size data =? 0); [done|].
    split; cbn; [|apply Forall_app; split; [done|]; constructor; [cbn; by rewrite Hdd|constructor]|done].
    rewrite <- Hd. unfold decodes. cbn. rewrite !fmap_app. cbn. solve_Permutation.
  - destruct (decoder_step_ok started d _ Hi Hs) as [(d2 & [= <-] & Hi2 & _)|[? _]]; done.
Qed.

(** C30: In every run of the decoder, with its workers in any order, whatever
    Skia makes of the data and whenever the IO manager goes away, each decode
    is at one place of its way or has called its callback, once and on the UI
    thread; while one has not there is a step, each step brings the end nearer,
    and none fails unless an image is to be scaled along one side to a size
    that is no [int]. *)
Theorem decodes_call_back started d :
  decoder_run started d →
  decodes d ≡ₚ started ∧
  (∀ res, decoder_step d res → (∃ d', res = Ok d' ∧ (work d' < work d)%nat) ∨ res = Fault UndefinedBehaviour ∧ size_overflows d) ∧
  (work d ≠ 0%nat → ∃ res, decoder_step d res) ∧
  (work d = 0%nat → (called d).*1 ≡ₚ started).
Proof.
  intros Hr. pose proof (decoder_run_inv started d Hr) as Hi. split_and!.
  - apply Hi.
  - intros res Hs. destruct (decoder_step_ok started d res Hi Hs) as [(d' & -> & _ & Hlt)|Hbad]; [left; by exists d'|by right].
  - intros Hw. unfold work in Hw. destruct (workers d) as [|[n descriptor] ws] eqn:Hwork.
    + destruct (io_tasks d) as [|[n image] io] eqn:Hio; [destruct (ui_tasks d) as [|[n image] ui] eqn:Hui; [done|]|].
      * eexists. by eapply step_ui.
      * eexists. by eapply (step_io d None).
    + eexists. by eapply (step_worker d []).
  - intros Hw. rewrite <- (inv_decodes _ _ Hi). unfold work, decodes in *.
    destruct (workers d), (io_tasks d), (ui_tasks d); cbn in *; try lia. done.
Qed.
End decoder.

(** ** Sizes that are off *)

(** Decoding with the intrinsic height as target may lose the width: one column
    of 49 pixels becomes empty, and the decode fails; and the intrinsic width
    as target may change the height. *)
Theorem intrinsic_target_resizes :
  GetResizedDimensions (1, 49) None (Some 49) ⇓ (0, 49) ∧ GetResizedDimensions (1, 93) (Some 1) None ⇓ (1, 92).
Proof. by vm_compute. Qed.

(** The conversion to [int] overflows for a long image. *)
Theorem long_image_overflows : GetResizedDimensions (1, 65536) (Some 65536) None ⇑ UndefinedBehaviour.
Proof. by vm_compute. Qed.

(** An image that is made while the GPU is disabled has no queue, and the
    assertion of its destructor fails. *)
Theorem disabled_gpu_image_asserts `{SkiaImages} image x io q :
  isTextureBacked image = false → resource_context io = true → unref_queue io = true → gpu_disabled io = true →
  peekPixels image = true → MakeFromRaster image = Some x →
  ∃ o, @UploadRasterImage {| debug := true |} _ image io ⇓ o ∧ @SkiaGPUObject_reset {| debug := true |} o q ⇑ DCheckFailed.
Proof.
  intros Hi Hc Hq Hg Hp Hm. unfold UploadRasterImage. rewrite Hi, Hc, Hq, Hp, Hg, Hm. by eexists.
Qed.

(** ** Example *)

#[local] Program Instance demo_images : SkiaImages := {
  MakeRasterData d i := Some (mkImage (data_id d) (sk_info i) false);
  MakeFromEncoded d := if data_size d <? 10 then None else Some (mkImage (data_id d) (8, 4) false);
  makeRasterImage x := Some (mkImage (image_id x) (dimensions x) false);
  tryAllocPixels _ := true;
  scalePixels _ _ := true;
  MakeFromBitmap x s := Some (mkImage (S (image_id x)) s false);
  peekPixels _ := true;
  MakeFromRaster x := Some (mkImage (100 + image_id x) (dimensions x) false);
  MakeCrossContextFromPixmap x := Some (mkImage (200 + image_id x) (dimensions x) true);
}.
Solve All Obligations with by intros; simplify_eq/=.

Definition decoder_build : Build := {| debug := true |}.
Definition demo_descriptor (n : nat) (size : Z) : ImageDescriptor := mkDescriptor (Some (mkData n size)) None (Some 4) None.

(** Two decodes, of which the second one is decompressed first and fails. *)
Definition demo_decoder : Decoder := Decode 1 (demo_descriptor 20 5) (Decode 0 (demo_descriptor 10 64) new_decoder).

Lemma demo_decoder_run :
  @decoder_run decoder_build _ [0%nat; 1%nat] (mkDecoder [(0%nat, demo_descriptor 10 64)] [] [(1%nat, no_gpu_object)] []).
Proof.
  refine (@decoder_next decoder_build _ _ demo_decoder _ _ (@step_worker decoder_build _ demo_decoder [_] 1 (demo_descriptor 20 5) [] eq_refl)).
  apply (decoder_decode [0%nat]), (decoder_decode []), decoder_start.
Qed.

Lemma decodes_call_back_witness :
  decodes (mkDecoder [(0%nat, demo_descriptor 10 64)] [] [(1%nat, no_gpu_object)] []) ≡ₚ [0%nat; 1%nat] ∧
  ∃ res, @decoder_step decoder_build _ (mkDecoder [(0%nat, demo_descriptor 10 64)] [] [(1%nat, no_gpu_object)] []) res.
Proof.
  destruct (@decodes_call_back decoder_build _ _ _ demo_decoder_run) as (Hd & _ & Hs & _). split; [exact Hd|]. apply Hs. done.
Defined.

(** The width that follows an aspect ratio, and an upload. *)
Example demo_decompress :
  @decompress decoder_build _ (demo_descriptor 10 64) ⇓ Some (mkImage 11 (4, 2) false) ∧
  @UploadRasterImage decoder_build _ (mkImage 11 (4, 2) false) (mkIOManager true true false) ⇓ mkSkiaGPUObject (Some 211%nat) true.
Proof. by vm_compute. Qed.
