(* ===== verification/ImageCodecs.v ===== *)
(** * ImageCodecs: the codecs that Dart code reads images from

    Models of [instantiateImageCodec] (lib/ui/painting/codec.cc), of
    [SingleFrameCodec] (single_frame_codec.cc), which decodes once with the
    image decoder and keeps the frame, and of [MultiFrameCodec]
    (multi_frame_codec.cc), which decodes the frames of an animation on the IO
    thread in turn.  Dart callbacks are numbers; Skia's codec is a class. *)

From Stdlib Require Import ZArith Lia String.
From stdpp Require Import base numbers list gmap sets relations strings.
From S2P Require Import Prelude UnrefQueue ImageDecoder.

Local Open Scope Z_scope.

(** ** SingleFrameCodec *)

Inductive CodecStatus := kNew | kInProgress | kComplete.
#[export] Instance CodecStatus_eq_dec : EqDecision CodecStatus.
Proof. solve_decision. Defined.

(** Who invokes a callback: [getNextFrame] itself, or the loop over the ones
    that waited for the decoder. *)
Inductive Caller := by_call | by_loop.
#[export] Instance Caller_eq_dec : EqDecision Caller.
Proof. solve_decision. Defined.

(** The frame is the image it holds; [delivering] is the loop of the decoder's
    callback while it runs (the callbacks it still has to invoke, and with
    what); [invoked] are the callbacks that were called and what with. *)
Record SingleFrameCodec := mkSingleFrameCodec {
  status_ : CodecStatus;
  descriptor_ : ImageDescriptor;
  pending_callbacks_ : list nat;
  cached_frame_ : option nat;
  delivering : option (list nat * option nat);
  invoked : list (Caller * nat * option nat);
}.

Definition new_single_frame_codec (descriptor : ImageDescriptor) : SingleFrameCodec :=
  mkSingleFrameCodec kNew descriptor [] None None [].

Definition invoke (caller : Caller) (callback : nat) (frame : option nat) (c : SingleFrameCodec) : SingleFrameCodec :=
  mkSingleFrameCodec (status_ c) (descriptor_ c) (pending_callbacks_ c) (cached_frame_ c) (delivering c)
    (invoked c ++ [(caller, callback, frame)]).
Definition set_delivering (pending : list nat) (x : option (list nat * option nat)) (c : SingleFrameCodec) : SingleFrameCodec :=
  mkSingleFrameCodec (status_ c) (descriptor_ c) pending (cached_frame_ c) x (invoked c).

(** What the caller is told, the codec, and what is handed to the decoder. *)
Definition getNextFrame (is_closure : bool) (callback : nat) (decoder : bool) (c : SingleFrameCodec)
    : option string * SingleFrameCodec * option ImageDescriptor :=
  if negb is_closure then (Some "Callback must be a function"%string, c, None)
  else if bool_decide (status_ c = kComplete) then (None, invoke by_call callback (cached_frame_ c) c, None)
  else
    let c := set_delivering (pending_callbacks_ c ++ [callback]) (delivering c) c in
    if bool_decide (status_ c = kInProgress) then (None, c, None)
    else if negb decoder then (Some "Image decoder not available."%string, c, None)
    else
      let d := descriptor_ c in
      (None, mkSingleFrameCodec kInProgress (mkDescriptor None (decompressed_image_info d) (target_width d) (target_height d))
               (pending_callbacks_ c) (cached_frame_ c) (delivering c) (invoked c), Some d).

(** The decoder's callback up to its loop; [isolate] says whether the isolate
    is there. *)
Definition frame_decoded (isolate : bool) (image : SkiaGPUObject) (c : SingleFrameCodec) : result SingleFrameCodec :=
  _ ← of_option UndefinedBehaviour (head (pending_callbacks_ c));
  if negb isolate then mret c
  else
    let frame := match object_ image with Some x => Some x | None => cached_frame_ c end in
    mret (mkSingleFrameCodec kComplete (descriptor_ c) (pending_callbacks_ c) frame (Some (pending_callbacks_ c, frame)) (invoked c)).

(** One round of the loop: the next callback is invoked, which is Dart code and
    may call [getNextFrame] before it returns; at the end the list is cleared. *)
Definition deliver_next (c : SingleFrameCodec) : SingleFrameCodec :=
  match delivering c with
  | None => c
  | Some ([], _) => set_delivering [] None c
  | Some (callback :: rest, frame) => invoke by_loop callback frame (set_delivering (pending_callbacks_ c) (Some (rest, frame)) c)
  end.

(** [sizeof(this)] is the size of a pointer. *)
Definition GetAllocationSize (frame_size : nat → Z) (c : SingleFrameCodec) : Z :=
  let data_byte_size := match descriptor_data (descriptor_ c) with Some data => data_size data | None => 0 end in
  let frame_byte_size := match cached_frame_ c with Some image => frame_size image | None => 0 end in
  wrapU 64 (data_byte_size + frame_byte_size + 8).

(** Calls of Dart code, at any time, also from the callbacks the loop invokes,
    and whether there is a decoder or not; the decoder's answer to each decode
    that was started, with or without the isolate; and the rounds of its loop.
    [waited] and [late] are the callbacks that were passed before and after the
    frame was there. *)
Inductive single_run (d : ImageDescriptor) : list nat → list nat → nat → nat → SingleFrameCodec → Prop :=
  | single_start : single_run d [] [] 0 0 (new_single_frame_codec d)
  | single_call waited late started answered c is_closure callback decoder told c' handed :
      single_run d waited late started answered c →
      getNextFrame is_closure callback decoder c = (told, c', handed) →
      single_run d (if is_closure && negb (bool_decide (status_ c = kComplete)) then waited ++ [callback] else waited)
        (if is_closure && bool_decide (status_ c = kComplete) then late ++ [callback] else late)
        (match handed with Some _ => S started | None => started end) answered c'
  | single_decoded waited late started answered c isolate image c' :
      single_run d waited late started answered c → (answered < started)%nat →
      frame_decoded isolate image c ⇓ c' → single_run d waited late started (S answered) c'
  | single_deliver waited late started answered c :
      single_run d waited late started answered c → single_run d waited late started answered (deliver_next c).

(** The callbacks a caller invoked, in order, and those that still wait. *)
Definition invoked_by (caller : Caller) (c : SingleFrameCodec) : list nat :=
  omap (λ x : Caller * nat * option nat, if bool_decide (x.1.1 = caller) then Some x.1.2 else None) (invoked c).
Definition outstanding (c : SingleFrameCodec) : list nat :=
  match delivering c with Some (rest, _) => rest | None => pending_callbacks_ c end.

Record single_inv (waited late : list nat) (started answered : nat) (c : SingleFrameCodec) : Prop := {
  inv_waited : invoked_by by_loop c ++ outstanding c = waited;
  inv_late : invoked_by by_call c = late;
  inv_frames : Forall (λ x, x.2 = cached_frame_ c) (invoked c);
  inv_status : match status_ c with
               | kNew => started = 0%nat ∧ answered = 0%nat ∧ invoked c = [] ∧ delivering c = None ∧ cached_frame_ c = None
               | kInProgress => started = 1%nat ∧ (answered ≤ 1)%nat ∧ invoked c = [] ∧ delivering c = None ∧
                   cached_frame_ c = None ∧ pending_callbacks_ c ≠ []
               | kComplete => started = 1%nat ∧ answered = 1%nat ∧
                   match delivering c with Some (_, frame) => frame = cached_frame_ c | None => pending_callbacks_ c = [] end
               end;
}.

Lemma invoked_by_invoke caller caller' callback frame c :
  invoked_by caller (invoke caller' callback frame c) =
    invoked_by caller c ++ (if bool_decide (caller' = caller) then [callback] else []).
Proof. unfold invoked_by. cbn. rewrite omap_app. cbn. by case_bool_decide. Qed.

Lemma getNextFrame_inv waited late started answered c is_closure callback decoder told c' handed :
  single_inv waited late started answered c → getNextFrame is_closure callback decoder c = (told, c', handed) →
  single_inv (if is_closure && negb (bool_decide (status_ c = kComplete)) then waited ++ [callback] else waited)
    (if is_closure && bool_decide (status_ c = kComplete) then late ++ [callback] else late)
    (match handed with Some _ => S started | None => started end) answered c'.
Proof.
  intros [Hw Hl Hf Hs] Hcall. unfold getNextFrame in Hcall. destruct is_closure; cbn [negb andb] in *; [|by injection Hcall as <- <- <-].
  destruct (status_ c) eqn:Hst; cbn in Hcall |- *.
  - destruct Hs as (-> & -> & Hi & Hd & Hc). assert (Hn : pending_callbacks_ c ++ [callback] ≠ []) by (by destruct (pending_callbacks_ c)).
    unfold invoked_by, outstanding in *. rewrite Hi, Hd in *. cbn in Hw, Hl.
    destruct decoder; cbn in Hcall; rewrite ?Hst in Hcall; cbn in Hcall; injection Hcall as <- <- <-; split; unfold invoked_by, outstanding; cbn; rewrite ?Hi, ?Hd, ?Hst; cbn; subst; try done.
    split_and!; try done; lia.
  - destruct Hs as (-> & Ha & Hi & Hd & Hc & Hp). assert (Hn : pending_callbacks_ c ++ [callback] ≠ []) by (by destruct (pending_callbacks_ c)).
    unfold invoked_by, outstanding in *. rewrite Hi, Hd in *. cbn in Hw, Hl.
    cbn in Hcall; rewrite ?Hst in Hcall; cbn in Hcall; injection Hcall as <- <- <-; split; unfold invoked_by, outstanding; cbn; rewrite ?Hi, ?Hd, ?Hst; cbn; subst; done.
  - injection Hcall as <- <- <-. split; rewrite ?invoked_by_invoke; cbn; rewrite ?app_nil_r, ?Hst; try done; [by subst|].
    apply Forall_app. split; [done|]. by repeat constructor.
Qed.

Lemma single_run_inv d waited late started answered c :
  single_run d waited late started answered c → single_inv waited late started answered c.
Proof.
  induction 1 as [|waited late started answered c is_closure callback decoder told c' handed _ Hi Hcall|
    waited late started answered c isolate image c' _ [Hw Hl Hf Hs] Hlt Hd|waited late started answered c _ [Hw Hl Hf Hs]].
  - by split.
  - by eapply getNextFrame_inv.
  - destruct (status_ c) eqn:Hst; [lia| |lia]. destruct Hs as (-> & Ha & Hi & Hdel & Hc & Hp). assert (answered = 0%nat) as -> by lia.
    unfold frame_decoded in Hd. destruct (pending_callbacks_ c) as [|cb cbs] eqn:Hpend; [done|]. cbn in Hd.
    destruct isolate; cbn in Hd; injection Hd as <-.
    + unfold invoked_by, outstanding in *. rewrite Hdel, Hi in *. rewrite Hpend in Hw. split; unfold invoked_by, outstanding; cbn; rewrite ?Hi; done.
    + split; [done|done|done|]. rewrite Hst. split_and!; try done; by rewrite Hpend.
  - unfold deliver_next. destruct (delivering c) as [[[|callback rest] frame]|] eqn:Hdel; [| |by split; rewrite ?Hdel].
    + unfold outstanding in Hw. rewrite Hdel in Hw. split; [by unfold outstanding|done|done|]. cbn.
      destruct (status_ c); [naive_solver..|]. by destruct Hs as (-> & -> & _).
    + unfold outstanding in Hw. rewrite Hdel in Hw. destruct (status_ c) eqn:Hst; [naive_solver..|]. destruct Hs as (-> & -> & ->).
      split; rewrite ?invoked_by_invoke; cbn; rewrite ?app_nil_r, ?Hst; [|done| |done].
      * rewrite <- Hw, <- app_assoc. done.
      * apply Forall_app. split; [done|]. by repeat constructor.
Qed.

(** The loop ends, and has then invoked everything that waited. *)
Lemma deliver_all c rest frame :
  delivering c = Some (rest, frame) →
  let c' := Nat.iter (S (length rest)) deliver_next c in
  delivering c' = None ∧ pending_callbacks_ c' = [] ∧ invoked_by by_loop c' = invoked_by by_loop c ++ rest.
Proof.
  revert c. induction rest as [|callback rest IH]; intros c Hd.
  - cbn. unfold deliver_next. rewrite Hd. cbn. by rewrite app_nil_r.
  - cbn [length]. rewrite Nat.iter_succ_r.
    assert (Hn : deliver_next c = invoke by_loop callback frame (set_delivering (pending_callbacks_ c) (Some (rest, frame)) c))
      by (unfold deliver_next; by rewrite Hd).
    destruct (IH (deliver_next c)) as (H1 & H2 & H3); [by rewrite Hn|].
    split; [done|]. split; [done|]. rewrite H3, Hn, invoked_by_invoke. cbn. by rewrite <- app_assoc.
Qed.



(** A call that is refused since there is no decoder has left its callback
    behind: the next call's decode invokes it too. *)
Theorem refused_callback_invoked d image :
  ∃ c1 c2 c3, getNextFrame true 1 false (new_single_frame_codec d) = (Some "Image decoder not available."%string, c1, None) ∧
    getNextFrame true 2 true c1 = (None, c2, Some d) ∧ frame_decoded true image c2 ⇓ c3 ∧
    invoked_by by_loop (Nat.iter 2 deliver_next c3) = [1%nat; 2%nat].
Proof. eexists _, _, _. split; [reflexivity|]. split; [reflexivity|]. split; reflexivity. Qed.

(** ** MultiFrameCodec *)

(** What an animation says of its frames: the frame one is drawn over, whether
    one is kept for later frames, its duration. *)
Record CodecFrameInfo := mkCodecFrameInfo {
  fRequiredFrame : option Z;
  keep : bool;
  fDuration : Z;
}.

(** [SkCodec]: the pixels of a frame, drawn over a prior one or from scratch,
    and the images that are made of them.  What can fail when the bitmap of a
    kept frame is copied: it has no pixels, or they cannot be accessed, the
    copy has no valid format, no memory, no accessible pixels, or the formats
    cannot be converted. *)
Class AnimationCodec := {
  getFrameInfo : Z → CodecFrameInfo;
  has_pixels : Z → bool;
  src_peekPixels : Z → bool;
  dst_setInfo : Z → bool;
  dst_tryAllocPixels : Z → bool;
  dst_peekPixels : Z → bool;
  readPixels : Z → bool;
  getPixels : Z → option Z → bool;
  MakeFrameImage : Z → bool → option nat;
}.

Record MultiFrameCodec := mkMultiFrameCodec {
  frameCount_ : Z;
  repetitionCount_ : Z;
  nextFrameIndex_ : Z;
  lastRequiredFrame_ : option Z;
}.

Definition new_multi_frame_codec (frame_count repetition_count : Z) : MultiFrameCodec :=
  mkMultiFrameCodec frame_count repetition_count 0 None.

Section multi.
Context `{AnimationCodec}.

(** Whether the kept frame was copied to the bitmap that is drawn on. *)
Definition CopyToBitmap (frame : Z) : bool :=
  if negb (src_peekPixels frame) then false
  else if negb (dst_setInfo frame) then false
  else if negb (dst_tryAllocPixels frame) then false
  else if negb (dst_peekPixels frame) then false
  else if negb (readPixels frame) then false
  else true.

(** The kept frame that is drawn over, if the frame asks for one: [None] when
    there is none. *)
Definition prior_frame (c : MultiFrameCodec) : option (option Z) :=
  match fRequiredFrame (getFrameInfo (nextFrameIndex_ c)) with
  | None => Some None
  | Some required =>
      match lastRequiredFrame_ c with
      | None => None
      | Some last => Some (if has_pixels last && CopyToBitmap last then Some required else None)
      end
  end.

Definition GetNextFrameImage (resource_context : bool) (c : MultiFrameCodec) : option nat * MultiFrameCodec :=
  match prior_frame c with
  | None => (None, c)
  | Some prior =>
      if negb (getPixels (nextFrameIndex_ c) prior) then (None, c)
      else
        (MakeFrameImage (nextFrameIndex_ c) resource_context,
         if keep (getFrameInfo (nextFrameIndex_ c))
         then mkMultiFrameCodec (frameCount_ c) (repetitionCount_ c) (nextFrameIndex_ c) (Some (nextFrameIndex_ c)) else c)
  end.

(** The frame of a task of the IO thread, with its duration. *)
Definition GetNextFrame_task (resource_context : bool) (c : MultiFrameCodec) : result (option (nat * Z) * MultiFrameCodec) :=
  let '(image, c) := GetNextFrameImage resource_context c in
  if frameCount_ c =? 0 then Fault UndefinedBehaviour
  else mret ((λ i, (i, fDuration (getFrameInfo (nextFrameIndex_ c)))) <$> image,
             mkMultiFrameCodec (frameCount_ c) (repetitionCount_ c) ((nextFrameIndex_ c + 1) `rem` frameCount_ c) (lastRequiredFrame_ c)).

(** The codec, while it was not collected, with the tasks of the IO thread (the
    callbacks) and of the UI thread, and the callbacks that were invoked. *)
Record MultiState := mkMultiState {
  codec : option MultiFrameCodec;
  io_requests : list nat;
  ui_callbacks : list (nat * option (nat * Z));
  frames_invoked : list (nat * option (nat * Z));
}.

(** The pointer to the codec and the IO manager's weak pointer are used without
    a test. *)
Definition io_request (io_manager : option bool) (s : MultiState) : result MultiState :=
  match io_requests s with
  | [] => mret s
  | callback :: rest =>
      resource_context ← of_option NullDeref io_manager;
      c ← of_option UndefinedBehaviour (codec s);
      '(frame, c) ← GetNextFrame_task resource_context c;
      mret (mkMultiState (Some c) rest (ui_callbacks s ++ [(callback, frame)]) (frames_invoked s))
  end.

Definition InvokeNextFrameCallback (isolate : bool) (s : MultiState) : MultiState :=
  match ui_callbacks s with
  | [] => s
  | (callback, frame) :: rest =>
      mkMultiState (codec s) (io_requests s) rest (if isolate then frames_invoked s ++ [(callback, frame)] else frames_invoked s)
  end.

Definition Multi_getNextFrame (is_closure : bool) (callback : nat) (s : MultiState) : option string * MultiState :=
  if negb is_closure then (Some "Callback must be a function"%string, s)
  else (None, mkMultiState (codec s) (io_requests s ++ [callback]) (ui_callbacks s) (frames_invoked s)).

(** Calls of Dart code and tasks of the two threads, while codec, IO manager and
    isolate are there. *)
Inductive multi_run (frame_count repetition_count : Z) : list nat → MultiState → Prop :=
  | multi_start : multi_run frame_count repetition_count []
      (mkMultiState (Some (new_multi_frame_codec frame_count repetition_count)) [] [] [])
  | multi_call asked s callback s' : multi_run frame_count repetition_count asked s →
      Multi_getNextFrame true callback s = (None, s') → multi_run frame_count repetition_count (asked ++ [callback]) s'
  | multi_io asked s resource_context s' : multi_run frame_count repetition_count asked s →
      io_request (Some resource_context) s ⇓ s' → multi_run frame_count repetition_count asked s'
  | multi_ui asked s : multi_run frame_count repetition_count asked s →
      multi_run frame_count repetition_count asked (InvokeNextFrameCallback true s).

(** The answers of the IO thread in their order. *)
Definition answers (s : MultiState) : list (nat * option (nat * Z)) := frames_invoked s ++ ui_callbacks s.

(** The answer to the [i]th request is its frame, or that there is none. *)
Definition is_frame (n : Z) (i : nat) (frame : option (nat * Z)) : Prop :=
  ∀ image duration, frame = Some (image, duration) →
    ∃ resource_context, MakeFrameImage (Z.of_nat i `mod` n) resource_context = Some image ∧
      duration = fDuration (getFrameInfo (Z.of_nat i `mod` n)).

Record multi_inv (n : Z) (asked : list nat) (s : MultiState) : Prop := {
  inv_codec : ∃ c, codec s = Some c ∧ frameCount_ c = n ∧ nextFrameIndex_ c = Z.of_nat (length (answers s)) `mod` n;
  inv_order : (answers s).*1 ++ io_requests s = asked;
  inv_answers i callback frame : answers s !! i = Some (callback, frame) → is_frame n i frame;
}.

Lemma GetNextFrame_task_ok n rc c k :
  0 < n → frameCount_ c = n → nextFrameIndex_ c = Z.of_nat k `mod` n →
  ∃ frame c', GetNextFrame_task rc c ⇓ (frame, c') ∧ is_frame n k frame ∧ frameCount_ c' = n ∧
    nextFrameIndex_ c' = Z.of_nat (S k) `mod` n.
Proof.
  intros Hn Hc Hk. unfold GetNextFrame_task.
  assert (Himage : ∃ image c', GetNextFrameImage rc c = (image, c') ∧ frameCount_ c' = n ∧ nextFrameIndex_ c' = nextFrameIndex_ c ∧
    ∀ x, image = Some x → MakeFrameImage (nextFrameIndex_ c) rc = Some x).
  { unfold GetNextFrameImage. destruct (prior_frame c) as [prior|]; [|by eexists _, _].
    destruct (getPixels _ _); cbn; [|by eexists _, _]. destruct (keep _); by eexists _, _. }
  destruct Himage as (image & c' & -> & Hc' & Hn' & Hx). rewrite Hc', (proj2 (Z.eqb_neq n 0)) by lia.
  eexists _, _. split; [done|]. cbn. rewrite Hn', Hk. split_and!; [|done|].
  - intros x duration Hf. destruct image as [y|]; [|done]. cbn in Hf. injection Hf as <- <-. exists rc. split; [|done].
    rewrite <- Hk. by apply Hx.
  - pose proof (Z.mod_pos_bound (Z.of_nat k) n Hn). rewrite Z.rem_mod_nonneg by lia. rewrite Zplus_mod_idemp_l. f_equal. lia.
Qed.

Lemma multi_run_inv n repetition asked s : 0 < n → multi_run n repetition asked s → multi_inv n asked s.
Proof.
  intros Hn. induction 1 as [|asked s callback s' _ [Hc Ho Ha] Hs|asked s rc s' _ [Hc Ho Ha] Hs|asked s _ [Hc Ho Ha]].
  - split; [|done|done]. by eexists.
  - injection Hs as <-. split; cbn; [done| |done]. by rewrite <- Ho, app_assoc.
  - unfold io_request in Hs. destruct (io_requests s) as [|callback rest] eqn:Hio; [injection Hs as <-; split; try done; by rewrite Hio|].
    cbn in Hs. destruct Hc as (c & Hcodec & Hcount & Hnext). rewrite Hcodec in Hs. cbn in Hs.
    destruct (GetNextFrame_task_ok n rc c (length (answers s)) Hn Hcount Hnext) as (frame & c' & Ht & Hf & Hcount' & Hnext').
    rewrite Ht in Hs. cbn in Hs. injection Hs as <-. unfold answers in *. split; cbn; rewrite ?app_assoc.
    + exists c'. split_and!; [done|done|]. rewrite length_app. cbn. by rewrite Nat.add_1_r.
    + rewrite fmap_app, <- app_assoc. done.
    + intros i cb fr [Hi|[Hge Hi]]%lookup_app_Some; [by eapply Ha|]. apply list_lookup_singleton_Some in Hi as [Hz [= <- <-]].
      by replace i with (length (frames_invoked s ++ ui_callbacks s)) by lia.
  - unfold InvokeNextFrameCallback, answers in *. destruct (ui_callbacks s) as [|[callback frame] rest] eqn:Hui; [by split; unfold answers; rewrite ?Hui|].
    split; unfold answers; cbn; rewrite <- app_assoc; done.
Qed.

(** Dart code gets the frames of an animation in turn, from the first one on and
    over again, one for each call and in the order of the calls; a frame that
    could not be decoded is answered as such and skipped. *)
Theorem frames_in_turn n repetition asked s :
  0 < n → multi_run n repetition asked s →
  (answers s).*1 ++ io_requests s = asked ∧
  (∀ i callback frame, answers s !! i = Some (callback, frame) → is_frame n i frame) ∧
  (∀ resource_context, ∃ s', io_request (Some resource_context) s ⇓ s').
Proof.
  intros Hn Hr. destruct (multi_run_inv n repetition asked s Hn Hr) as [(c & Hcodec & Hcount & Hnext) Ho Ha]. split_and!; [done|done|].
  intros rc. unfold io_request. destruct (io_requests s); [by eexists|]. cbn. rewrite Hcodec. cbn.
  destruct (GetNextFrame_task_ok n rc c _ Hn Hcount Hnext) as (frame & c' & -> & _). by eexists.
Qed.

(** A codec that is collected while one of its tasks waits on the IO thread is
    used after its end, and an IO manager that is gone is used as well. *)
Theorem collected_codec_used callback io_manager s :
  codec s = None → io_requests s = [callback] →
  io_request (Some io_manager) s ⇑ UndefinedBehaviour ∧ io_request None s ⇑ NullDeref.
Proof. intros Hc Hr. unfold io_request. by rewrite Hr, Hc. Qed.
End multi.

(** ** instantiateImageCodec *)

(** The fields of the Dart object, where they are integers. *)
Record DartImageInfo := mkDartImageInfo {
  dart_width : option Z;
  dart_height : option Z;
  dart_format : option Z;
  dart_row_bytes : option Z;
}.

Definition ConvertImageInfo (info : DartImageInfo) : string + ImageInfo :=
  match dart_width info, dart_height info, dart_format info, dart_row_bytes info with
  | None, _, _, _ => inl "ImageInfo.width must be an integer"%string
  | _, None, _, _ => inl "ImageInfo.height must be an integer"%string
  | _, _, None, _ => inl "ImageInfo.format must be an integer"%string
  | _, _, _, None => inl "ImageInfo.rowBytes must be an integer"%string
  | Some w, Some h, Some format, Some rb =>
      if negb (bool_decide (wrapS 32 format = 0 ∨ wrapS 32 format = 1)) then inl "Invalid pixel format"%string
      else
        let width := wrapS 32 w in
        if width <=? 0 then inl "width must be greater than zero"%string
        else
          let height := wrapS 32 h in
          if height <=? 0 then inl "height must be greater than zero"%string
          else
            let row_bytes := wrapU 64 rb in
            if row_bytes <? 4 * width then inl "rowBytes does not match the width of the image"%string
            else inr (mkImageInfo (width, height) row_bytes)
  end.

(** What Dart code gets: a message, or a codec. *)
Inductive NewCodec := SingleFrame (descriptor : ImageDescriptor) | MultiFrame (frame_count : Z).

Definition positive_target (target : Z) : option Z := if 0 <? wrapS 32 target then Some (wrapS 32 target) else None.

(** [frame_count] is what Skia's codec says of the data, if it can read it. *)
Definition InstantiateImageCodec (frame_count : SkData → option Z) (is_closure : bool) (info : option DartImageInfo)
    (buffer : SkData) (target_width target_height : Z) : string + NewCodec :=
  if negb is_closure then inl "Callback must be a function"%string
  else
    match ConvertImageInfo <$> info with
    | Some (inl error) => inl error
    | Some (inr image_info) =>
        if data_size buffer <? wrapU 64 (row_bytes image_info * (sk_info image_info).2)
        then inl "Pixel buffer size does not match image size"%string
        else inr (SingleFrame (mkDescriptor (Some buffer) (Some image_info) (positive_target target_width) (positive_target target_height)))
    | None =>
        match frame_count buffer with
        | None => inl "Could not instantiate image codec."%string
        | Some n =>
            if n =? 1
            then inr (SingleFrame (mkDescriptor (Some buffer) None (positive_target target_width) (positive_target target_height)))
            else inr (MultiFrame n)
        end
    end.

(** Pixels that are accepted have all their rows in the buffer, unless the
    product of row size and height wraps around. *)
Theorem accepted_pixels_in_buffer frame_count info buffer tw th descriptor image_info :
  InstantiateImageCodec frame_count true (Some info) buffer tw th = inr (SingleFrame descriptor) →
  decompressed_image_info descriptor = Some image_info → row_bytes image_info * (sk_info image_info).2 < 2 ^ 64 →
  0 < (sk_info image_info).1 ∧ 0 < (sk_info image_info).2 ∧ 4 * (sk_info image_info).1 ≤ row_bytes image_info ∧
  row_bytes image_info * (sk_info image_info).2 ≤ data_size buffer.
Proof.
  unfold InstantiateImageCodec. cbn [negb fmap option_fmap option_map].
  destruct (ConvertImageInfo info) as [e|i] eqn:Hc; [done|]. destruct (Z.ltb_spec (data_size buffer) (wrapU 64 (row_bytes i * (sk_info i).2))) as [|Hfit]; [done|].
  intros [= <-] [= <-] Hwrap. unfold ConvertImageInfo in Hc.
  destruct (dart_width info), (dart_height info), (dart_format info), (dart_row_bytes info); try done.
  destruct (negb _); [done|]. destruct (Z.leb_spec (wrapS 32 z) 0); [done|]. destruct (Z.leb_spec (wrapS 32 z0) 0); [done|].
  destruct (Z.ltb_spec (wrapU 64 z2) (4 * wrapS 32 z)); [done|]. injection Hc as <-. cbn in *.
  rewrite (wrapU_id 64 (_ * _)) in Hfit by (split; [apply Z.mul_nonneg_nonneg; lia|lia]). lia.
Qed.

(** Four rows of 2^62 bytes pass the test with an empty buffer. *)
Theorem row_bytes_overflow frame_count :
  ∃ descriptor, InstantiateImageCodec frame_count true (Some (mkDartImageInfo (Some 1) (Some 4) (Some 0) (Some (2 ^ 62))))
    (mkData 0 0) 0 0 = inr (SingleFrame descriptor).
Proof. by eexists. Qed.
