(* ===== verification/ServiceProtocol.v ===== *)
(** * ServiceProtocol: requests of the tools

    Model of [ServiceProtocol] (runtime/service_protocol.cc): the handlers that
    shells register, the list of views the tools read, and the dispatch of
    their requests to a handler.  A handler is identified by its address; what
    it does with a request is an interface that the shell implements in
    ShellService.  Here requests are one after the other; ServiceLocks has the
    lock that lets them overlap. *)

From Stdlib Require Import ZArith Lia Ascii String.
From stdpp Require Import base numbers list gmap fin_maps strings pretty.
From S2P Require Import Prelude Bytes StdMap Base32 Paths Engine ShellThreads.

Local Open Scope string_scope.
Local Open Scope Z_scope.

(** ** Texts *)

(** The text of a list of bytes, and the digits of numbers in it. *)
Definition text (l : list Z) : string := string_of_list_ascii (ascii_of_nat ∘ Z.to_nat <$> l).

Fixpoint hex_digits (fuel : nat) (n : Z) : list Z :=
  match fuel with
  | O => []
  | S fuel => if n <? 16 then [hex_digit false n] else hex_digits fuel (n / 16) ++ [hex_digit false (n `mod` 16)]
  end.

(** [stream << std::hex << n] for a 64-bit integer. *)
Definition write_hex (n : Z) : list Z := hex_digits 16 (wrapU 64 n).

Definition isspace (c : Z) : bool := (c =? 32) || ((9 <=? c) && (c <=? 13)).
Fixpoint skip_space (s : list Z) : list Z :=
  match s with c :: s' => if isspace c then skip_space s' else s | [] => [] end.

Fixpoint read_hex (s : list Z) (acc : Z) : Z :=
  match s with
  | c :: s => match hex_value c with Some d => read_hex s (16 * acc + d) | None => acc end
  | [] => acc
  end.

Definition skip_prefix (s : list Z) : list Z :=
  match s with
  | 48 :: x :: c :: s' => if ((x =? 120) || (x =? 88)) && bool_decide (is_Some (hex_value c)) then c :: s' else s
  | _ => s
  end.

(** [std::stoull(s, nullptr, 16)], which throws when there is no number and
    when it is too large. *)
Definition stoull16 (s : list Z) : result Z :=
  let s := skip_space s in
  let '(negative, s) := match s with 45 :: s' => (true, s') | 43 :: s' => (false, s') | _ => (false, s) end in
  let s := skip_prefix s in
  match c ← head s; hex_value c with
  | None => Fault InvalidArgument
  | Some _ =>
      let v := read_hex s 0 in
      if 2 ^ 64 <=? v then Fault OutOfRange else mret (if negative : bool then wrapU 64 (- v) else v)
  end.

(** ** Data *)

Definition kScreenshotExtensionName : string := "_flutter.screenshot".
Definition kScreenshotSkpExtensionName : string := "_flutter.screenshotSkp".
Definition kRunInViewExtensionName : string := "_flutter.runInView".
Definition kFlushUIThreadTasksExtensionName : string := "_flutter.flushUIThreadTasks".
Definition kSetAssetBundlePathExtensionName : string := "_flutter.setAssetBundlePath".
Definition kGetDisplayRefreshRateExtensionName : string := "_flutter.getDisplayRefreshRate".
Definition kListViewsExtensionName : string := "_flutter.listViews".
Definition kViewIdPrefx : string := "_flutterView/".

Definition endpoints_ : list string :=
  [kListViewsExtensionName; kScreenshotExtensionName; kScreenshotSkpExtensionName; kRunInViewExtensionName;
   kFlushUIThreadTasksExtensionName; kSetAssetBundlePathExtensionName; kGetDisplayRefreshRateExtensionName].

Record Description := mkDescription {
  isolate_port : Z;
  isolate_name : string;
}.

Abbreviation ServiceProtocolMap := (gmap string string).

(** [Handler], over a state [S] that requests change. *)
Class ServiceHandler (S : Type) := {
  GetServiceProtocolHandlerTaskRunner : Z → string → S → result Runner;
  HandleServiceProtocolMessage : Z → Runner → string → ServiceProtocolMap → S → result (bool * Json * S);
}.

(** The handlers in the order of their addresses, and the endpoints for which
    the VM calls this service protocol. *)
Record ServiceProtocol := mkServiceProtocol {
  handlers_ : list (Z * Description);
  hooked : list string;
}.

Definition new_service_protocol : ServiceProtocol := mkServiceProtocol [] [].

(** ** Handlers *)

Definition set_handlers (f : list (Z * Description) → list (Z * Description)) (s : ServiceProtocol) : ServiceProtocol :=
  mkServiceProtocol (f (handlers_ s)) (hooked s).

Definition AddHandler (handler : Z) (description : Description) : ServiceProtocol → ServiceProtocol :=
  set_handlers (StdMap.emplace Z.ltb handler description).
Definition RemoveHandler (handler : Z) : ServiceProtocol → ServiceProtocol := set_handlers (StdMap.erase Z.ltb handler).
Definition SetHandlerDescription (handler : Z) (description : Description) (s : ServiceProtocol) : ServiceProtocol :=
  match StdMap.find Z.ltb handler (handlers_ s) with
  | Some _ => set_handlers (StdMap.assign Z.ltb handler description) s
  | None => s
  end.

Definition ToggleHooks (set : bool) (s : ServiceProtocol) : ServiceProtocol :=
  mkServiceProtocol (handlers_ s) (if set then endpoints_ else []).
Definition destroy_service_protocol : ServiceProtocol → ServiceProtocol := ToggleHooks false.

(** ** Responses *)

Definition WriteServerErrorResponse (message : string) : Json :=
  JObject [("code", JNumber (-32000)); ("message", JString message)].

Definition CreateFlutterViewID (handler : Z) : string := kViewIdPrefx +:+ "0x" +:+ text (write_hex handler).
Definition CreateIsolateID (isolate : Z) : string := "isolates/" +:+ pretty isolate.

Definition Write (d : Description) (handler : Z) : Json :=
  JObject ([("type", JString "FlutterView"); ("id", JString (CreateFlutterViewID (wrapS 64 handler)))] ++
    if isolate_port d =? 0 then []
    else [("isolate", JObject [("type", JString "@Isolate"); ("fixedId", JBool true);
             ("id", JString (CreateIsolateID (isolate_port d))); ("name", JString (isolate_name d));
             ("number", JNumber (isolate_port d))])]).

Definition HandleListViewsMethod (s : ServiceProtocol) : bool * Json :=
  (true, JObject [("type", JString "FlutterViewList"); ("views", JArray ((λ h, Write h.2 h.1) <$> handlers_ s))]).

(** ** Requests *)

Section requests.
Context {S : Type} `{ServiceHandler S}.

(** The handler is run on its task runner while the caller waits. *)
Definition HandleMessageOnHandler (handler : Z) (method : string) (params : ServiceProtocolMap) (st : S)
    : result (bool * Json * S) :=
  runner ← GetServiceProtocolHandlerTaskRunner handler method st;
  HandleServiceProtocolMessage handler runner method params st.

(** The address in a view id; the prefix is skipped without a test. *)
Definition view_id_handler (view_id : string) : result Z :=
  if Z.of_nat (String.length view_id) <? Z.of_nat (String.length kViewIdPrefx) then Fault UndefinedBehaviour
  else stoull16 (drop (String.length kViewIdPrefx) (str view_id)).

Definition legacy (method : string) : bool :=
  bool_decide (method = kScreenshotExtensionName) || bool_decide (method = kScreenshotSkpExtensionName) ||
  bool_decide (method = kFlushUIThreadTasksExtensionName).

Definition HandleMessage (s : ServiceProtocol) (method : string) (params : ServiceProtocolMap) (st : S)
    : result (bool * Json * S) :=
  if bool_decide (method = kListViewsExtensionName) then mret (HandleListViewsMethod s, st)
  else
    match handlers_ s with
    | [] => mret (false, WriteServerErrorResponse "There are no running service protocol handlers.", st)
    | (first, _) :: _ =>
        found ← match params !! "viewId" with
                | None => mret None
                | Some view_id =>
                    handler ← view_id_handler view_id;
                    mret (match StdMap.find Z.ltb handler (handlers_ s) with Some _ => Some handler | None => None end)
                end;
        match found with
        | Some handler => HandleMessageOnHandler handler method params st
        | None =>
            if legacy method then HandleMessageOnHandler first method params st
            else mret (false, WriteServerErrorResponse
              "Service protocol could not handle or find a handler for the requested method.", st)
        end
    end.

(** What the VM calls, with the arrays of keys and values. *)
Fixpoint read_params (keys values : list string) (params : ServiceProtocolMap) : ServiceProtocolMap :=
  match keys, values with
  | key :: keys, value :: values => read_params keys values (<[key := value]> params)
  | _, _ => params
  end.

Definition service_request (s : option ServiceProtocol) (method : string) (param_keys param_values : list string) (st : S)
    : result (bool * Json * S) :=
  match s with
  | None => mret (false, WriteServerErrorResponse "Service protocol unavailable.", st)
  | Some s => HandleMessage s method (read_params param_keys param_values ∅) st
  end.
End requests.

(** ** View ids *)

Lemma str_app a b : str (a +:+ b) = (str a ++ str b)%list.
Proof. induction a as [|c a IH]; [done|]. change (Z.of_nat (nat_of_ascii c) :: str (a +:+ b) = (str (String c a) ++ str b)%list). by rewrite IH. Qed.

Lemma length_str a : length (str a) = String.length a.
Proof. unfold str. rewrite length_fmap. induction a; cbn; auto. Qed.

Lemma str_text l : bytes_ok l → str (text l) = l.
Proof.
  intros Hl. unfold str, text. rewrite list_ascii_of_string_of_list_ascii. rewrite <- list_fmap_compose.
  induction Hl as [|b l Hb _ IH]; [done|]. rewrite fmap_cons, IH. f_equal. cbn.
  rewrite nat_ascii_embedding by lia. lia.
Qed.

Lemma hex_digit_facts d : 0 ≤ d < 16 → 0 ≤ hex_digit false d < 256 ∧ hex_value (hex_digit false d) = Some d.
Proof. intros Hd. split; [|by apply hex_value_digit]. unfold hex_digit. case_bools; lia. Qed.

Lemma hex_digits_ok fuel n :
  0 ≤ n → Forall (λ c, 0 ≤ c < 256 ∧ is_Some (hex_value c)) (hex_digits fuel n).
Proof.
  revert n. induction fuel as [|fuel IH]; intros n Hn; cbn; [constructor|]. destruct (Z.ltb_spec n 16).
  - destruct (hex_digit_facts n) as [? Hv]; [lia|]. constructor; [|constructor]. rewrite Hv. split; [lia|done].
  - apply Forall_app. split; [apply IH, Z.div_pos; lia|]. pose proof (Z.mod_pos_bound n 16).
    destruct (hex_digit_facts (n `mod` 16)) as [? Hv]; [lia|]. constructor; [|constructor]. rewrite Hv. split; [lia|done].
Qed.

Lemma read_hex_app d e acc :
  Forall (λ c, 0 ≤ c < 256 ∧ is_Some (hex_value c)) d → read_hex (d ++ e) acc = read_hex e (read_hex d acc).
Proof. intros Hd. revert acc. induction Hd as [|c d [_ [v Hv]] _ IH]; intros acc; cbn; [done|]. by rewrite Hv, IH. Qed.

Lemma read_hex_digits fuel n : (0 < fuel)%nat → 0 ≤ n < 16 ^ Z.of_nat fuel → read_hex (hex_digits fuel n) 0 = n.
Proof.
  revert n. induction fuel as [|fuel IH]; intros n Hf Hn; [lia|]. cbn [hex_digits]. destruct (Z.ltb_spec n 16).
  - cbn [read_hex]. destruct (hex_digit_facts n) as [_ ->]; [lia|]. lia.
  - rewrite read_hex_app by (apply hex_digits_ok, Z.div_pos; lia).
    rewrite Nat2Z.inj_succ, Z.pow_succ_r in Hn by lia.
    assert (fuel ≠ 0%nat) by (intros ->; cbn in Hn; lia).
    pose proof (Z.div_mod n 16). pose proof (Z.mod_pos_bound n 16).
    rewrite IH; [|lia|split; [apply Z.div_pos; lia|apply Z.div_lt_upper_bound; lia]].
    cbn [read_hex]. destruct (hex_digit_facts (n `mod` 16)) as [_ ->]; lia.
Qed.

Lemma hex_digits_cons fuel n : (0 < fuel)%nat → 0 ≤ n → ∃ c d, hex_digits fuel n = c :: d ∧ is_Some (hex_value c).
Proof.
  intros Hf Hn. pose proof (hex_digits_ok fuel n Hn) as Hok. destruct (hex_digits fuel n) as [|c d] eqn:Hd.
  - destruct fuel; [lia|]. cbn in Hd. destruct (n <? 16); [done|]. by apply app_eq_nil in Hd as [_ ?].
  - exists c, d. split; [done|]. by apply Forall_cons in Hok as [[_ ?] _].
Qed.

Lemma view_id_roundtrip h : 0 ≤ h < 2 ^ 64 → view_id_handler (CreateFlutterViewID (wrapS 64 h)) ⇓ h.
Proof.
  intros Hh. unfold view_id_handler, CreateFlutterViewID, write_hex.
  assert (Hw : wrapU 64 (wrapS 64 h) = h).
  { unfold wrapU, wrapS. rewrite Zminus_mod_idemp_l. replace (h + _ - _) with h by lia. by apply Z.mod_small. }
  rewrite Hw, !str_app. destruct (hex_digits_cons 16 h) as (c & d & Hd & Hc); [lia..|].
  rewrite str_text by (eapply Forall_impl; [apply (hex_digits_ok 16 h); lia|]; cbn; tauto).
  rewrite <- !length_str, !str_app, !length_app. rewrite (proj2 (Z.ltb_ge _ _)) by lia. rewrite drop_app_length.
  pose proof (read_hex_digits 16 h ltac:(lia) Hh) as Hread. rewrite Hd in *. unfold stoull16.
  change (skip_space (str "0x" ++ c :: d)) with (48 :: 120 :: c :: d).
  cbn -[read_hex]. rewrite (bool_decide_eq_true_2 _ Hc). cbn -[read_hex]. destruct Hc as [v Hv].
  rewrite Hv, Hread. by rewrite (proj2 (Z.leb_gt _ _)) by lia.
Qed.

(** ** Registrations *)

Inductive HandlerCall :=
  | AddH (handler : Z) (description : Description)
  | RemoveH (handler : Z)
  | DescribeH (handler : Z) (description : Description).

Definition handler_call (s : ServiceProtocol) (c : HandlerCall) : ServiceProtocol :=
  match c with
  | AddH h d => AddHandler h d s
  | RemoveH h => RemoveHandler h s
  | DescribeH h d => SetHandlerDescription h d s
  end.

(** The handlers as a map: the first description a handler is added with
    counts, until it is described anew or removed. *)
Definition registry_call (m : gmap Z Description) (c : HandlerCall) : gmap Z Description :=
  match c with
  | AddH h d => match m !! h with Some _ => m | None => <[h := d]> m end
  | RemoveH h => delete h m
  | DescribeH h d => match m !! h with Some _ => <[h := d]> m | None => m end
  end.

Section ordered.
Context {V : Type}.
Implicit Types (m : list (Z * V)).

Abbreviation as_map m := (list_to_map m : gmap Z V).

Lemma above_lookup k m : Forall (λ b, (k <? b.1) = true) m → as_map m !! k = None.
Proof.
  induction 1 as [|[k' v] m Hk _ IH]; [done|]. cbn in *. rewrite lookup_insert_ne by lia. done.
Qed.

Lemma find_lookup k m : StdMap.ordered Z.ltb m → StdMap.find Z.ltb k m = as_map m !! k.
Proof.
  induction m as [|[k' v] m IH]; cbn; [done|]. intros [Hk Hm].
  destruct (Z.ltb_spec k' k); [rewrite lookup_insert_ne by lia; auto|].
  destruct (Z.ltb_spec k k').
  - rewrite lookup_insert_ne by lia. symmetry. apply above_lookup. eapply Forall_impl; [exact Hk|]. cbn. intros [k2 v2]. cbn. lia.
  - assert (k = k') as -> by lia. by rewrite lookup_insert_eq.
Qed.

(** A change of the binding of [k]: the keys it leaves are in order, and as a
    map it is [f]. *)
Lemma assign_ordered k v m :
  StdMap.ordered Z.ltb m → StdMap.ordered Z.ltb (StdMap.assign Z.ltb k v m) ∧ as_map (StdMap.assign Z.ltb k v m) = <[k:=v]> (as_map m) ∧
  ∀ k', Forall (λ b, (k' <? b.1) = true) m → k' < k → Forall (λ b, (k' <? b.1) = true) (StdMap.assign Z.ltb k v m).
Proof.
  induction m as [|[k1 v1] m IH]; cbn; [intros _; split_and!; auto; intros; repeat constructor; cbn; lia|]. intros [Hk Hm].
  destruct (IH Hm) as (Ho & Hl & Hf). destruct (Z.ltb_spec k1 k); [|destruct (Z.ltb_spec k k1)]; cbn.
  - split_and!; auto; [rewrite Hl; apply insert_insert_ne; lia|]. intros k' [Hk' Hfm]%Forall_cons Hlt. constructor; auto.
  - split_and!; auto; [constructor; [cbn; lia|]; eapply Forall_impl; [exact Hk|]; cbn; lia|]. intros k' [Hk' Hfm]%Forall_cons Hlt. repeat constructor; cbn in *; auto; lia.
  - assert (k = k1) as -> by lia. split_and!; auto; [by rewrite insert_insert_eq|]. intros k' [Hk' Hfm]%Forall_cons Hlt. by constructor.
Qed.

Lemma erase_ordered k m :
  StdMap.ordered Z.ltb m → StdMap.ordered Z.ltb (StdMap.erase Z.ltb k m) ∧ as_map (StdMap.erase Z.ltb k m) = delete k (as_map m) ∧
  ∀ k', Forall (λ b, (k' <? b.1) = true) m → Forall (λ b, (k' <? b.1) = true) (StdMap.erase Z.ltb k m).
Proof.
  induction m as [|[k1 v1] m IH]; cbn; [intros _; split_and!; auto; by rewrite delete_empty|]. intros [Hk Hm].
  destruct (IH Hm) as (Ho & Hl & Hf). destruct (Z.ltb_spec k1 k); [|destruct (Z.ltb_spec k k1)]; cbn.
  - split_and!; auto; [rewrite Hl, delete_insert_ne by lia; done|]. intros k' [Hk' Hfm]%Forall_cons. constructor; auto.
  - split_and!; auto. rewrite delete_id; [done|]. rewrite lookup_insert_ne by lia. apply above_lookup.
    eapply Forall_impl; [exact Hk|]. cbn. lia.
  - assert (k = k1) as -> by lia. split_and!; auto; [by rewrite delete_insert_id by (by apply above_lookup)|].
    by intros k' [_ ?]%Forall_cons.
Qed.

Lemma emplace_assign k v m : StdMap.ordered Z.ltb m →
  StdMap.emplace Z.ltb k v m = match as_map m !! k with Some _ => m | None => StdMap.assign Z.ltb k v m end.
Proof.
  intros Hm. rewrite <- find_lookup by done. clear Hm. induction m as [|[k1 v1] m IH]; cbn; [done|].
  destruct (Z.ltb_spec k1 k); [rewrite IH; by case_match|]. by destruct (Z.ltb_spec k k1).
Qed.
End ordered.

(** The list of handlers is the map, in the order of the addresses. *)
Lemma handler_call_refines s c m :
  StdMap.ordered Z.ltb (handlers_ s) → list_to_map (handlers_ s) = m →
  StdMap.ordered Z.ltb (handlers_ (handler_call s c)) ∧ list_to_map (handlers_ (handler_call s c)) = registry_call m c.
Proof.
  intros Ho <-. destruct c as [h d|h|h d]; cbn.
  - rewrite emplace_assign by done. destruct (_ !! h); [done|]. destruct (assign_ordered h d (handlers_ s) Ho) as (? & ? & _). done.
  - destruct (erase_ordered h (handlers_ s) Ho) as (? & ? & _). done.
  - unfold SetHandlerDescription. rewrite find_lookup by done. destruct (_ !! h); [|done].
    destruct (assign_ordered h d (handlers_ s) Ho) as (? & ? & _). done.
Qed.

Lemma handler_calls_refine cs s m :
  StdMap.ordered Z.ltb (handlers_ s) → list_to_map (handlers_ s) = m →
  StdMap.ordered Z.ltb (handlers_ (foldl handler_call s cs)) ∧ list_to_map (handlers_ (foldl handler_call s cs)) = foldl registry_call m cs.
Proof.
  revert s m. induction cs as [|c cs IH]; cbn; [done|]. intros s m Ho Hm. destruct (handler_call_refines s c m Ho Hm). by apply IH.
Qed.

(** The bindings of an ordered list are those of its map. *)
Lemma ordered_NoDup {V} (m : list (Z * V)) : StdMap.ordered Z.ltb m → NoDup m.*1.
Proof.
  induction m as [|[k v] m IH]; cbn; [constructor|]. intros [Hk Hm]. constructor; [|by apply IH].
  intros ([k' v'] & Heq & Hin)%list_elem_of_fmap. cbn in Heq. rewrite Forall_forall in Hk. specialize (Hk _ Hin). cbn in Hk. lia.
Qed.

Section views.
Context {S : Type} `{ServiceHandler S}.

(** The ids of the views that [_flutter.listViews] answers with. *)
Definition view_id (view : Json) : option string :=
  match view with
  | JObject members => match FindMember "id" members with Some (JString id) => Some id | _ => None end
  | _ => None
  end.
Definition view_ids (response : Json) : list string :=
  match response with
  | JObject members =>
      match FindMember "views" members with
      | Some (JArray views) => omap view_id views
      | _ => []
      end
  | _ => []
  end.

Lemma listed_ids s : view_ids (HandleListViewsMethod s).2 = (λ h, CreateFlutterViewID (wrapS 64 h.1)) <$> handlers_ s.
Proof.
  change (view_ids _) with (omap view_id ((λ h, Write h.2 h.1) <$> handlers_ s)).
  induction (handlers_ s) as [|[h d] l IH]; [done|]. rewrite !fmap_cons, <- IH.
  change (omap view_id (?v :: ?l)) with (match view_id v with Some y => y :: omap view_id l | None => omap view_id l end).
  assert (Hid : view_id (Write d h) = Some (CreateFlutterViewID (wrapS 64 h))); [|cbn [fst snd]; by rewrite Hid].
  unfold view_id, Write. cbn [app FindMember]. by rewrite !bool_decide_eq_false_2, bool_decide_eq_true_2 by done.
Qed.

Lemma request_by_id s h method params st :
  StdMap.ordered Z.ltb (handlers_ s) → 0 ≤ h < 2 ^ 64 → is_Some ((list_to_map (handlers_ s) : gmap Z Description) !! h) →
  method ≠ kListViewsExtensionName → params !! "viewId" = Some (CreateFlutterViewID (wrapS 64 h)) →
  HandleMessage s method params st = HandleMessageOnHandler h method params st.
Proof.
  intros Ho Hh [d Hd] Hm Hp. unfold HandleMessage. rewrite bool_decide_eq_false_2 by done.
  destruct (handlers_ s) as [|[first d'] hs] eqn:Hs; [done|]. rewrite Hp, (view_id_roundtrip h Hh). cbn [mbind result_bind].
  rewrite (find_lookup h) by done. by rewrite Hd.
Qed.

Lemma registry_range cs m :
  Forall (λ c, match c with AddH h _ => 0 ≤ h < 2 ^ 64 | _ => True end) cs → map_Forall (λ h _, 0 ≤ h < 2 ^ 64) m →
  map_Forall (λ h (_ : Description), 0 ≤ h < 2 ^ 64) (foldl registry_call m cs).
Proof.
  revert m. induction cs as [|c cs IH]; cbn; [done|]. intros m [Hc Hcs]%Forall_cons Hm. apply IH; [done|].
  destruct c as [h d|h|h d]; cbn; [destruct (m !! h)|apply map_Forall_delete|destruct (m !! h) eqn:Hh]; try done;
    apply map_Forall_insert_2; try done. by eapply Hm.
Qed.

(** C23: After any sequence of registrations, descriptions and removals of
    handlers, the tools are told one view for each registered handler, in the
    order of the addresses, with the description it has; and a request with
    the id of a listed view is handled by exactly the handler of that view, on
    the task runner this chose for the method. *)
Theorem requests_reach_listed_views cs method params st :
  Forall (λ c, match c with AddH h _ => 0 ≤ h < 2 ^ 64 | _ => True end) cs → method ≠ kListViewsExtensionName →
  let s := foldl handler_call new_service_protocol cs in
  let m := foldl registry_call ∅ cs in
  let '(listed, response) := HandleListViewsMethod s in
  listed = true ∧
  (∃ hs, hs ≡ₚ map_to_list m ∧ StdMap.ordered Z.ltb hs ∧
    response = JObject [("type", JString "FlutterViewList"); ("views", JArray ((λ h, Write h.2 h.1) <$> hs))]) ∧
  (∀ id, id ∈ view_ids response → ∃ h, is_Some (m !! h) ∧ id = CreateFlutterViewID (wrapS 64 h) ∧
    HandleMessage s method (<["viewId" := id]> params) st = HandleMessageOnHandler h method (<["viewId" := id]> params) st) ∧
  (∀ h, is_Some (m !! h) → CreateFlutterViewID (wrapS 64 h) ∈ view_ids response).
Proof.
  intros Hcs Hm s m. destruct (handler_calls_refine cs new_service_protocol ∅ I eq_refl) as [Ho Hl].
  pose proof (registry_range cs ∅ Hcs (map_Forall_empty _)) as Hrange.
  change (foldl handler_call new_service_protocol cs) with s in Ho, Hl. change (list_to_map (handlers_ s) = m) in Hl.
  change (map_Forall (λ h _, 0 ≤ h < 2 ^ 64) m) in Hrange. clearbody s m. pose proof (ordered_NoDup _ Ho) as Hnd.
  assert (Hlookup : ∀ h d, m !! h = Some d ↔ (h, d) ∈ handlers_ s).
  { intros h d. rewrite <- Hl. symmetry. by apply elem_of_list_to_map. }
  split_and!.
  - done.
  - exists (handlers_ s). split_and!; [|done|done]. rewrite <- Hl. by rewrite map_to_list_to_map.
  - change (JObject _) with (HandleListViewsMethod s).2. rewrite listed_ids.
    intros id ([h d] & -> & Hin)%list_elem_of_fmap. cbn [fst]. apply Hlookup in Hin. exists h. split_and!; [by eexists|done|].
    apply request_by_id; try done; [by eapply Hrange|by rewrite Hl, Hin|by rewrite lookup_insert_eq].
  - change (JObject _) with (HandleListViewsMethod s).2. rewrite listed_ids. intros h [d Hd%Hlookup]. apply list_elem_of_fmap.
    by exists (h, d).
Qed.
End views.

(** ** Ids that are not view ids *)

Section malformed.
Context {S : Type} `{ServiceHandler S}.

(** Text that follows the prefix and is not a number ends the process, and so
    does a number of more than sixteen digits; an id that is shorter than the
    prefix is read past its end. *)
Theorem malformed_view_ids s h method params st :
  handlers_ s = [h] → method ≠ kListViewsExtensionName →
  HandleMessage s method (<["viewId" := "_flutterView/main"]> params) st ⇑ InvalidArgument ∧
  HandleMessage s method (<["viewId" := "_flutterView/0x10000000000000000"]> params) st ⇑ OutOfRange ∧
  HandleMessage s method (<["viewId" := "main"]> params) st ⇑ UndefinedBehaviour.
Proof.
  intros Hs Hm. unfold HandleMessage. rewrite bool_decide_eq_false_2, Hs by done. destruct h. by rewrite !lookup_insert_eq.
Qed.
End malformed.

(** ** Example *)

(** Handlers that record what they are asked. *)
#[local] Instance recording : ServiceHandler (list (Z * Runner * string)) := {
  GetServiceProtocolHandlerTaskRunner _ _ _ := Ok UIRunner;
  HandleServiceProtocolMessage h r method _ st := Ok (true, JNull, (st ++ [(h, r, method)])%list);
}.

Definition registrations : list HandlerCall :=
  [AddH 4096 (mkDescription 7 "main"); AddH 18446744073709551600 (mkDescription 0 ""); AddH 32 (mkDescription 1 "b"); RemoveH 32;
   DescribeH 4096 (mkDescription 9 "restarted")].

Lemma requests_reach_listed_views_witness :
  let s := foldl handler_call new_service_protocol registrations in
  let request := <["viewId" := "_flutterView/0xfffffffffffffff0"]> (∅ : ServiceProtocolMap) in
  (∃ h, is_Some (foldl registry_call ∅ registrations !! h) ∧ "_flutterView/0xfffffffffffffff0" = CreateFlutterViewID (wrapS 64 h) ∧
    HandleMessage s kRunInViewExtensionName request [] = HandleMessageOnHandler h kRunInViewExtensionName request []) ∧
  HandleMessage s kRunInViewExtensionName request [] ⇓ (true, JNull, [(18446744073709551600, UIRunner, kRunInViewExtensionName)]).
Proof.
  split; [|by vm_compute].
  refine (proj1 (proj2 (proj2 (requests_reach_listed_views registrations kRunInViewExtensionName ∅ [] _ _))) _ _).
  - unfold registrations. repeat constructor; cbn; lia.
  - done.
  - right. left.
Defined.
