(* ===== verification/ServiceLocks.v ===== *)
(** * ServiceLocks: service requests, shells and their lock

    [ServiceProtocol::HandleMessage] (runtime/service_protocol.cc) holds
    [handlers_mutex_] shared from the look-up of a handler until this has
    answered on its own thread; [AddHandler] and [RemoveHandler] hold it
    exclusively.  Here any number of requests and shells interleave: a request
    is never handled by a shell that is gone.  The price is a deadlock, which
    the second part exhibits on the threads of ShellThreads. *)

From Stdlib Require Import ZArith Lia.
From stdpp Require Import base numbers list gmap sets finite functions relations.
From S2P Require Import Prelude ShellThreads ShellHandshakes.

(** ** Requests and shells *)

(** A request on its way: it waits for the lock, holds it, has posted a task
    to a handler, is being handled, has its answer, has released the lock. *)
Inductive Request := Asking | Looking | Posted (h : Z) | Serving (h : Z) | Answered | Released.
(** A shell before [Setup], registered, out of [RemoveHandler], and destroyed. *)
Inductive ShellLife := Created | Registered | Removed | Destroyed.

Record Service := mkService {
  requests : gmap nat Request;
  shells : gmap Z ShellLife;
  handlers : gset Z;
}.

(** The requests that hold the lock shared. *)
Definition holds_shared (q : Request) : bool := match q with Asking | Released => false | _ => true end.
(** [Lock] succeeds: no request holds the lock. *)
Definition unshared (s : Service) : Prop := map_Forall (λ _ q, holds_shared q = false) (requests s).

Definition set_request (q : nat) (x : Request) (s : Service) : Service :=
  mkService (<[q := x]> (requests s)) (shells s) (handlers s).
Definition set_shell (h : Z) (x : ShellLife) (hs : gset Z) (s : Service) : Service :=
  mkService (requests s) (<[h := x]> (shells s)) hs.

Inductive service_step (s : Service) : Service → Prop :=
  | step_new_shell h : shells s !! h = None → service_step s (set_shell h Created (handlers s) s)
  | step_AddHandler h : shells s !! h = Some Created → unshared s →
      service_step s (set_shell h Registered ({[h]} ∪ handlers s) s)
  | step_RemoveHandler h : shells s !! h = Some Registered → unshared s →
      service_step s (set_shell h Removed (handlers s ∖ {[h]}) s)
  | step_destroy h : shells s !! h = Some Removed → service_step s (set_shell h Destroyed (handlers s) s)
  | step_request q : requests s !! q = None → service_step s (set_request q Asking s)
  | step_lock_shared q : requests s !! q = Some Asking → service_step s (set_request q Looking s)
  | step_found q h : requests s !! q = Some Looking → h ∈ handlers s → service_step s (set_request q (Posted h) s)
  | step_not_found q : requests s !! q = Some Looking → service_step s (set_request q Answered s)
  | step_run q h : requests s !! q = Some (Posted h) → service_step s (set_request q (Serving h) s)
  | step_signal q h : requests s !! q = Some (Serving h) → service_step s (set_request q Answered s)
  | step_unlock_shared q : requests s !! q = Some Answered → service_step s (set_request q Released s).

Definition no_service : Service := mkService ∅ ∅ ∅.

Record service_inv (s : Service) : Prop := {
  inv_handlers h : h ∈ handlers s ↔ shells s !! h = Some Registered;
  inv_requests q h : requests s !! q = Some (Posted h) ∨ requests s !! q = Some (Serving h) → h ∈ handlers s;
}.

Lemma service_step_inv s s' : service_inv s → service_step s s' → service_inv s'.
Proof.
  intros [Hh Hq] Hs.
  assert (Hshell : ∀ h x hs, (∀ h', h' ∈ hs ↔ <[h := x]> (shells s) !! h' = Some Registered) →
    (∀ q h, requests s !! q = Some (Posted h) ∨ requests s !! q = Some (Serving h) → h ∈ hs) →
    service_inv (set_shell h x hs s)) by (intros h x hs H1 H2; by split).
  assert (Hreq : ∀ q x, (∀ h, x = Posted h ∨ x = Serving h → h ∈ handlers s) → service_inv (set_request q x s)).
  { intros q x Hx. split; [done|]. intros q' h. cbn. destruct (decide (q = q')) as [->|Hne].
    - rewrite lookup_insert_eq. intros Hor. apply Hx. naive_solver.
    - rewrite lookup_insert_ne by done. apply Hq. }
  assert (Hidle : ∀ q h, unshared s → ¬ (requests s !! q = Some (Posted h) ∨ requests s !! q = Some (Serving h))).
  { intros q h Hu [Hr|Hr]; by specialize (Hu _ _ Hr). }
  destruct Hs as [h Hx|h Hx Hu|h Hx Hu|h Hx|q Hx|q Hx|q h Hx Hin|q Hx|q h Hx|q h Hx|q Hx];
    try (apply Hreq; naive_solver); apply Hshell; try done; try (intros q h'' Hr; exfalso; by eapply Hidle);
    intros h'; destruct (decide (h = h')) as [->|Hne]; rewrite ?lookup_insert_eq, ?lookup_insert_ne by done;
    specialize (Hh h'); set_solver.
Qed.

(** In every interleaving of requests and of shells that come and go, a shell
    that has a request to handle, or handles one, is registered: it has not
    been removed, let alone destroyed. *)
Theorem served_shells_registered s q h :
  rtc service_step no_service s → requests s !! q = Some (Posted h) ∨ requests s !! q = Some (Serving h) →
  shells s !! h = Some Registered.
Proof.
  intros Hr Hq. assert (Hinv : service_inv s).
  { apply (rtc_ind_r (R:=service_step) service_inv no_service); [| |done]; [split; set_solver|]. intros s1 s2 _ Hs Hi. by eapply service_step_inv. }
  by apply (inv_handlers s Hinv), (inv_requests s Hinv q).
Qed.

(** ** A restart by the tools and the end of the shell *)

(** The engine's threads and the one of the service isolate; the mutex with its
    one reader is a latch that is set while the mutex is free. *)
Abbreviation ServiceThread := (option EngineThread).
Abbreviation service_thread := (None : ServiceThread).

Definition service_threads : TaskRunners ServiceThread := mkTaskRunners (λ r, Some (own_threads r)) false false ltac:(done).

Definition handlers_mutex : nat := 0.
Definition restart_latch : nat := 1.
Definition answer_latch : nat := 2.
Definition worker_task_runners_mutex : nat := 3.

(** [HandleMessage] of a request to restart. *)
Definition restart_request : list Act :=
  [WaitLatch handlers_mutex;
   RunNowOrPostTask UIRunner (OnPreEngineRestart_program restart_latch ++ [SignalLatch answer_latch]);
   WaitLatch answer_latch; SignalLatch handlers_mutex].

(** The platform thread, in the destructor, waits for the mutex, the thread that
    holds it for the UI thread, and the UI thread for the platform thread. *)
Theorem restart_removal_deadlock ui gpu view io :
  let destructor := shell_destructor worker_task_runners_mutex handlers_mutex ui gpu view io in
  ∃ w, schedule service_threads
      [service_thread; service_thread; Some UiT; Some UiT; Some PlatformT; Some PlatformT; Some PlatformT]
    (mkWorld (λ t, match t with
                   | None => restart_request
                   | Some PlatformT => destructor
                   | _ => []
                   end) (λ _, []) (<[handlers_mutex := true]> (<[worker_task_runners_mutex := true]> (λ _, false))) []) = Some w ∧
    running w service_thread = [WaitLatch answer_latch; SignalLatch handlers_mutex] ∧
    running w (Some UiT) = [WaitLatch restart_latch; SignalLatch answer_latch] ∧
    running w (Some PlatformT) = drop 3 destructor ∧
    ∀ t, step_thread service_threads t w = None.
Proof.
  eexists. split; [vm_compute; reflexivity|]. split_and!; [by vm_compute..|]. intros [[]|]; by vm_compute.
Qed.
