(* ===== verification/ShellService.v ===== *)
(** * ShellService: the shell as a handler of service requests

    The handlers of shell/common/shell.cc that the tools call through the
    service protocol, over the state of the engine: screenshots, hot restart
    ([_flutter.runInView]), another asset directory, the display's refresh
    rate.  The files, what the rasterizer captures, the ports of isolates and
    the addresses of new asset managers are parameters. *)

From Stdlib Require Import ZArith Lia Ascii String.
From stdpp Require Import base numbers list gmap fin_maps strings pretty.
From S2P Require Import Prelude Bytes Base32 Paths TaskQueues DartIsolate DartIsolateProofs Assets RuntimeController RuntimeControllerProofs Engine EngineProofs ShellThreads ServiceProtocol.

Local Open Scope string_scope.

(** ** Errors *)

Definition ServiceProtocolParameterError (error_details : string) : Json :=
  JObject [("code", JNumber (-32602)); ("message", JString "Invalid params"); ("data", JObject [("details", JString error_details)])].

Definition ServiceProtocolFailureError (message : string) : Json :=
  JObject [("code", JNumber (-32000)); ("message", JString message)].

(** ** The handlers *)

Inductive ScreenshotType := SkiaPicture | CompressedImage.

Section service.
Context `{Build, Char}.
Context (framework : nat → DartCall → Runtime Engine → list NativeCall) (alloc_fails : Runtime Engine → bool).
Context (vm : nat → VmQuery → bool) (cr sh : closure) (debug_name : nat → string).
Context (settings : EngineSettings) (Parse : string → option Json) (service_id : nat → string).
(** The main port of an isolate, and the refresh rate of the display. *)
Context (main_port : nat → Z) (display_refresh_rate : Z).
(** [FileMapping(OpenFile(path))], and [DirectoryAssetBundle(OpenDirectory(path))]. *)
Context (OpenFile : list Z → Mapping) (OpenDirectory : list Z → AssetResolver).
(** What [ScreenshotLastLayerTree] captures. *)
Context (ScreenshotLastLayerTree : ScreenshotType → option string).
(** The address of an asset manager that is made. *)
Context (new_address : Runtime Engine → nat).
(** The shell. *)
Context (this : Z) (is_setup_ : bool).

Abbreviation eng := (rt Engine).

Definition GetUIIsolateMainPort : eng Z :=
  root ← root_isolate; mret (match root with Some i => main_port i | None => 0%Z end).
Definition GetUIIsolateName : eng string :=
  root ← root_isolate;
  match root with Some i => w ← get_window i; mret (debug_name_ w) | None => mret "" end.

Definition GetServiceProtocolDescription : eng Description :=
  port ← GetUIIsolateMainPort; name ← GetUIIsolateName; mret (mkDescription port name).

Definition OnServiceProtocolScreenshot (current : Runner) (params : ServiceProtocolMap) : eng (bool * Json) :=
  _ ← lift (fml_dcheck (bool_decide (current = GPURunner)));
  mret (match ScreenshotLastLayerTree CompressedImage with
        | Some data => (true, JObject [("type", JString "Screenshot"); ("screenshot", JString data)])
        | None => (false, ServiceProtocolFailureError "Could not capture image screenshot.")
        end).

Definition OnServiceProtocolScreenshotSKP (current : Runner) (params : ServiceProtocolMap) : eng (bool * Json) :=
  _ ← lift (fml_dcheck (bool_decide (current = GPURunner)));
  mret (match ScreenshotLastLayerTree SkiaPicture with
        | Some data => (true, JObject [("type", JString "ScreenshotSkp"); ("skp", JString data)])
        | None => (false, ServiceProtocolFailureError "Could not capture SKP screenshot.")
        end).

(** The answer with the view of the shell as it now is. *)
Definition success_with_view : eng (bool * Json) :=
  new_description ← GetServiceProtocolDescription;
  mret (true, JObject [("type", JString "Success"); ("view", Write new_description this)]).

Definition OnServiceProtocolRunInView (current : Runner) (params : ServiceProtocolMap) : eng (bool * Json) :=
  _ ← lift (fml_dcheck (bool_decide (current = UIRunner)));
  match params !! "mainScript", params !! "packagesFile", params !! "assetDirectory" with
  | None, _, _ => mret (false, ServiceProtocolParameterError "'mainScript' parameter is missing.")
  | _, None, _ => mret (false, ServiceProtocolParameterError "'packagesFile' parameter is missing.")
  | _, _, None => mret (false, ServiceProtocolParameterError "'assetDirectory' parameter is missing.")
  | Some main_script, Some packages_file, Some asset_directory =>
      main_script_path ← lift (FromURI (str main_script));
      packages_path ← lift (FromURI (str packages_file));
      asset_directory_path ← lift (FromURI (str asset_directory));
      let isolate_configuration := KernelIsolateConfiguration (Some (OpenFile main_script_path)) in
      at_address ← gets new_address;
      let configuration := new_run_configuration (Some isolate_configuration) (Some (mkAssetManager at_address [])) in
      e ← engine;
      let configuration := SetEntrypointAndLibrary (last_entry_point_ e) (last_entry_point_library_ e) configuration in
      added ← lift (AddAssetResolver (Some (OpenDirectory asset_directory_path)) configuration);
      restarted ← Restart framework vm cr sh debug_name settings service_id added.2;
      if (restarted : bool) then success_with_view
      else mret (false, ServiceProtocolFailureError "Could not run configuration in engine.")
  end.

Definition OnServiceProtocolFlushUIThreadTasks (current : Runner) (params : ServiceProtocolMap) : eng (bool * Json) :=
  _ ← lift (fml_dcheck (bool_decide (current = UIRunner)));
  mret (true, JObject [("type", JString "Success")]).

Definition OnServiceProtocolGetDisplayRefreshRate (current : Runner) (params : ServiceProtocolMap) : eng (bool * Json) :=
  _ ← lift (fml_dcheck (bool_decide (current = UIRunner)));
  mret (true, JObject [("type", JString "DisplayRefreshRate"); ("fps", JNumber display_refresh_rate)]).

(** The directory is not read as a URI here. *)
Definition OnServiceProtocolSetAssetBundlePath (current : Runner) (params : ServiceProtocolMap) : eng (bool * Json) :=
  _ ← lift (fml_dcheck (bool_decide (current = UIRunner)));
  match params !! "assetDirectory" with
  | None => mret (false, ServiceProtocolParameterError "'assetDirectory' parameter is missing.")
  | Some asset_directory =>
      at_address ← gets new_address;
      let asset_manager := PushFront (Some (OpenDirectory (str asset_directory))) (mkAssetManager at_address []) in
      updated ← UpdateAssetManager settings (Some asset_manager);
      if (updated : bool) then success_with_view
      else mret (false, ServiceProtocolFailureError "Could not update asset directory.")
  end.

(** What the constructor installs. *)
Definition service_protocol_handlers_ : list (string * (Runner * (Runner → ServiceProtocolMap → eng (bool * Json)))) :=
  [(kScreenshotExtensionName, (GPURunner, OnServiceProtocolScreenshot));
   (kScreenshotSkpExtensionName, (GPURunner, OnServiceProtocolScreenshotSKP));
   (kRunInViewExtensionName, (UIRunner, OnServiceProtocolRunInView));
   (kFlushUIThreadTasksExtensionName, (UIRunner, OnServiceProtocolFlushUIThreadTasks));
   (kSetAssetBundlePathExtensionName, (UIRunner, OnServiceProtocolSetAssetBundlePath));
   (kGetDisplayRefreshRateExtensionName, (UIRunner, OnServiceProtocolGetDisplayRefreshRate))].

Fixpoint find_handler {A} (method : string) (handlers : list (string * A)) : option A :=
  match handlers with
  | [] => None
  | (name, handler) :: handlers => if bool_decide (name = method) then Some handler else find_handler method handlers
  end.

Definition Shell_GetServiceProtocolHandlerTaskRunner (method : string) : result Runner :=
  _ ← fml_dcheck is_setup_;
  mret (match find_handler method service_protocol_handlers_ with Some (runner, _) => runner | None => UIRunner end).

(** [response] of a handler that is not found stays a null document. *)
Definition Shell_HandleServiceProtocolMessage (current : Runner) (method : string) (params : ServiceProtocolMap)
    : eng (bool * Json) :=
  match find_handler method service_protocol_handlers_ with
  | Some (_, handler) => handler current params
  | None => mret (false, JNull)
  end.

#[local] Instance Shell_ServiceHandler : ServiceHandler (Runtime Engine) := {
  GetServiceProtocolHandlerTaskRunner _ method _ := Shell_GetServiceProtocolHandlerTaskRunner method;
  HandleServiceProtocolMessage _ current method params := Shell_HandleServiceProtocolMessage current method params;
}.

(** ** Hot restart *)

Abbreviation new := (Engine_new framework vm cr sh debug_name).
Abbreviation calls := (engine_calls framework alloc_fails vm cr sh debug_name settings Parse service_id).
Abbreviation on_shell := (@HandleMessageOnHandler (Runtime Engine) Shell_ServiceHandler).

(** The parameters are read and their URIs have paths. *)
Record run_in_view_params (params : ServiceProtocolMap) (script directory : list Z) : Prop := {
  main_script_param : ∃ uri, params !! "mainScript" = Some uri ∧ FromURI (str uri) ⇓ script;
  packages_file_param : ∃ uri packages, params !! "packagesFile" = Some uri ∧ FromURI (str uri) ⇓ packages;
  asset_directory_param : ∃ uri, params !! "assetDirectory" = Some uri ∧ FromURI (str uri) ⇓ directory;
}.

(** The configuration of a hot restart. *)
Definition restart_configuration (script directory : list Z) (r : Runtime Engine) : RunConfiguration :=
  mkRunConfiguration (Some (KernelIsolateConfiguration (Some (OpenFile script))))
    (Some (PushBack (Some (OpenDirectory directory)) (mkAssetManager (new_address r) [])))
    (last_entry_point_ (client_ r)) (last_entry_point_library_ (client_ r)).

Lemma on_shell_handler method params runner handler r :
  is_setup_ = true → find_handler method service_protocol_handlers_ = Some (runner, handler) →
  on_shell this method params r = handler runner params r.
Proof.
  intros His Hf. unfold HandleMessageOnHandler. cbn. unfold Shell_GetServiceProtocolHandlerTaskRunner, Shell_HandleServiceProtocolMessage.
  rewrite His, fml_dcheck_true, Hf. done.
Qed.

Lemma run_in_view_configured params script directory r :
  is_setup_ = true → run_in_view_params params script directory →
  on_shell this kRunInViewExtensionName params r =
    (restarted ← Restart framework vm cr sh debug_name settings service_id (restart_configuration script directory r);
     if (restarted : bool) then success_with_view
     else mret (false, ServiceProtocolFailureError "Could not run configuration in engine.")) r.
Proof.
  intros His [(u1 & H1 & P1) (u2 & p2 & H2 & P2) (u3 & H3 & P3)].
  rewrite (on_shell_handler _ _ UIRunner OnServiceProtocolRunInView) by done.
  unfold OnServiceProtocolRunInView. rewrite bool_decide_eq_true_2, fml_dcheck_true by done.
  rewrite H1, H2, H3, P1, P2, P3. unfold restart_configuration, AddAssetResolver, PushBack.
  unfold mbind, rt_bind, lift, gets, engine, mret, rt_ret. cbn -[Restart success_with_view].
  by destruct (resolver_IsValid (OpenDirectory directory)).
Qed.

(** C5: A hot restart that the tools ask for with file URIs and that is answered
    with success has run the engine's last entry point on a new root isolate,
    which was told the window state of the old one; the old isolate is shut
    down, and the view in the answer has the new one's port and the name it
    has, which Dart code may have given it. *)
Theorem hot_restart cs r0 u r params script directory response r' :
  new ⇓ r0 → calls cs r0 ⇓ (u, r) → is_setup_ = true → run_in_view_params params script directory →
  on_shell this kRunInViewExtensionName params r ⇓ (true, response, r') →
  let i := next_handle r in
  lock (root_isolate_ (controller r')) r' = Some i ∧ lock (root_isolate_ (controller r)) r ≠ Some i ∧
  phase_of i r' = Some Running ∧ MainInvoked i (entry (restart_configuration script directory r)) ∈ events (isos r') ∧
  (∀ d0, told i d0 r' = dart_window (tell_all Parse cs new_window_data)) ∧
  (∀ old, lock (root_isolate_ (controller r)) r = Some old → phase_of old r' = Some ShutDown) ∧
  ∃ w, windows r' !! i = Some w ∧
    response = JObject [("type", JString "Success"); ("view", Write (mkDescription (main_port i) (debug_name_ w)) this)].
Proof.
  intros Hn Hr His Hp. rewrite (run_in_view_configured _ _ _ _ His Hp). intros (restarted & r1 & Hre & Hres)%bind_inv.
  destruct restarted; [|by injection Hres]. unfold success_with_view, GetServiceProtocolDescription, GetUIIsolateMainPort, GetUIIsolateName in Hres.
  destruct (restart_fresh framework alloc_fails vm cr sh debug_name settings Parse service_id cs r0 u r _ r1 Hn Hr Hre)
    as (Hroot & ? & ? & ? & ? & [w Hw] & ?).
  cbn in Hres. unfold root_isolate, gets, get_window, mbind, rt_bind, mret, rt_ret, lift in Hres. cbn in Hres.
  rewrite Hroot in Hres. cbn in Hres. rewrite Hw in Hres. cbn in Hres. injection Hres as <- <-.
  split_and!; try done. by exists w.
Qed.

(** A request without one of the parameters, or for which the engine could not
    be restarted, is answered with an error; without a parameter nothing
    changes. *)
Theorem run_in_view_errors params r :
  is_setup_ = true → (∃ key, key ∈ ["mainScript"; "packagesFile"; "assetDirectory"] ∧ params !! key = None) →
  ∃ details, on_shell this kRunInViewExtensionName params r ⇓ (false, ServiceProtocolParameterError details, r).
Proof.
  intros His (key & Hkey & Hnone). rewrite (on_shell_handler _ _ UIRunner OnServiceProtocolRunInView) by done.
  unfold OnServiceProtocolRunInView. rewrite bool_decide_eq_true_2, fml_dcheck_true by done.
  destruct (params !! "mainScript") eqn:H1; [|by eexists]. destruct (params !! "packagesFile") eqn:H2; [|by eexists].
  destruct (params !! "assetDirectory") eqn:H3; [|by eexists]. exfalso.
  apply elem_of_cons in Hkey as [->|[->|[->|?%elem_of_nil]%elem_of_cons]%elem_of_cons]; congruence.
Qed.

(** Each handler that is installed runs on the thread it asserts to be on. *)
Theorem handlers_on_their_threads method runner handler params r :
  find_handler method service_protocol_handlers_ = Some (runner, handler) →
  ∃ body, ∀ current, handler current params r = (_ ← lift (fml_dcheck (bool_decide (current = runner))); body) r.
Proof.
  unfold service_protocol_handlers_. cbn [find_handler]. intros Hf.
  repeat (case_bool_decide; [injection Hf as <- <-; eexists; intros current; reflexivity|]). done.
Qed.
End service.

(** ** Example *)

#[local] Instance unsigned_char : Char := {| char_signed := false |}.

Definition demo_file (path : list Z) : Mapping := mkMapping (text path).
Definition demo_directory (path : list Z) : AssetResolver := mkResolver true (λ _, None).

Definition demo_request : ServiceProtocolMap :=
  <["mainScript" := "file:///tmp/my%20app.dill"]> (<["packagesFile" := ".packages"]> {["assetDirectory" := "file:///tmp/assets"]}).

Abbreviation demo_handler := (@Shell_ServiceHandler debug_mode _ demo_framework good_vm None None (λ _, "root") demo_settings
  (λ _, "isolates/1") (λ i, (40 + Z.of_nat i)%Z) 60%Z demo_file demo_directory (λ _, None) (λ _, 5) 4096%Z true).

Definition demo_answer : Json :=
  JObject [("type", JString "Success"); ("view", Write (mkDescription 41 "root") 4096)].

Definition demo_restarted : Runtime Engine :=
  match @HandleMessageOnHandler _ demo_handler 4096 kRunInViewExtensionName demo_request demo_state with
  | Ok (_, _, r) => r | Fault _ => no_runtime end.

Lemma demo_request_ok :
  @HandleMessageOnHandler _ demo_handler 4096 kRunInViewExtensionName demo_request demo_state ⇓ (true, demo_answer, demo_restarted).
Proof. vm_compute. reflexivity. Qed.

Lemma hot_restart_witness :
  lock (root_isolate_ (controller demo_restarted)) demo_restarted = Some 1%nat ∧ phase_of 1 demo_restarted = Some Running ∧
  phase_of 0 demo_restarted = Some ShutDown ∧
  told 1 (dart_window new_window_data) demo_restarted = dart_window (tell_all demo_parse demo_run new_window_data).
Proof.
  assert (Hn : next_handle demo_state = 1%nat) by (vm_compute; reflexivity).
  destruct (@hot_restart debug_mode _ demo_framework (λ _, false) good_vm None None (λ _, "root") demo_settings demo_parse
    (λ _, "isolates/1") (λ i, (40 + Z.of_nat i)%Z) 60%Z demo_file demo_directory (λ _, None) (λ _, 5) 4096%Z true
    demo_run demo_start tt demo_state demo_request (str "/tmp/my app.dill") (str "/tmp/assets") demo_answer demo_restarted
    demo_new_ok demo_run_ok eq_refl) as (Hl & _ & Hph & _ & Ht & Hold & _).
  - split; [exists "file:///tmp/my%20app.dill"|exists ".packages", (str ".packages")|exists "file:///tmp/assets"]; split; vm_compute; reflexivity.
  - exact demo_request_ok.
  - rewrite Hn in Hl, Hph, Ht. split_and!; [exact Hl|exact Hph| |apply Ht]. apply Hold. vm_compute. reflexivity.
Defined.
